(* ===== verification/_CoqProject ===== *)
-Q . S2P
Prelude.v
Effects.v
Names.v
ServiceConfig.v
DeploymentStore.v
Admission.v
Runtime.v
Controller.v
ControllerProofs.v
ControllerSafety.v
DiskPressure.v
ResourceLock.v
ServiceRestart.v
Civil.v
Cron.v
Semver.v
Tunnel.v
ServiceWatcher.v
ProjectNetwork.v
Resp.v
Base64.v
ReleaseManifest.v
ReleaseSlots.v
SelfUpdate.v
Authentication.v
Variables.v
VariablesProofs.v
RuntimeDeployments.v
ManagedRedis.v
ManagedRedisProofs.v
ManagedRedisCleanup.v
ManagedRedisTermination.v
BackupChunks.v
BackupResource.v
BackupProofs.v
BackupWorker.v
ImageStore.v
ImageProofs.v
Oidc.v
UploadHandler.v
UploadParts.v
UploadAssembly.v
UploadProcess.v
CloudflareDns.v
PreviewApp.v
InternalDns.v
PortForward.v
HostStore.v
HostRpc.v
HostHub.v
PortProxy.v
Traffic.v
Ingress.v
