(* ===== verification/Prelude.v ===== *)
(** * platformd: a verification development

    platformd is a single-node (and small-cluster) platform daemon written in
    Go.  It stores projects and services in SQLite, deploys service images as
    containers, publishes them to an ingress, restarts them when they exit,
    backs volumes and databases up on cron schedules, connects hosts through a
    websocket tunnel, protects itself against a full disk, and updates itself
    when nothing else is going on.  This library models the parts that carry
    the daemon's own logic and proves what makes them correct.

    ** Parts, files and how they fit together

    - [Prelude] (this file): Go results and errors, fixed-width integers, time,
      byte strings and the [strings] and [filepath] functions the sources use,
      with lemmas, tactics ([btrue], [destruct_ifs]) and the hint database [go].
    - [Effects]: computations over a state that may fail or run out of fuel, with
      the rules that walk through them ([resp] for relations kept by every run,
      [post] for results, [terminates] for enough fuel).
    - [Names]: internal/resourcename, internal/bucketname and
      internal/publichostname.
    - [ServiceConfig]: internal/servicesource and internal/serviceconfig, the
      configuration snapshot of a service, its normal form, canonical JSON and
      hash.
    - [DeploymentStore]: the tables and transactions of internal/state that the
      deployment life cycle uses ([DB] is one finite map per table, [Write] one
      transaction of the single writer: it commits, or fails, or commits while
      its caller gives up waiting and gets an error).
    - [Admission]: internal/admission, the gate that lets mutations run side by
      side and an update run alone.
    - [Runtime]: the world of the deployment controller (active map, database,
      gate, trace of calls) and the monad [M] its methods run in.  Every call
      to the surroundings (engine, publisher, resolvers, clock, other sessions
      of the store) is answered by the class [Env] as a function of the trace,
      so a theorem that quantifies over [Env] covers every behaviour of them,
      failures and interleaved transactions included.
    - [Controller]: internal/deployment/controller.go, method by method; the
      closures of [deploy] are definitions over the record [Attempt] of the
      variables they share.
    - [ControllerProofs] and [ControllerSafety]: the theorems about it.
    - [DiskPressure]: internal/diskpressure/manager.go; its [PermitGrowth] is
      the growth gate the controller asks before it pulls.
    - [ResourceLock]: internal/resourcelock, locks shared by key, as a heap of
      lock objects with interleaved callers.
    - [ServiceRestart]: internal/servicerestart; it knows the controller only
      through the interface [Restartable], which the deployment controller
      implements ([controller_restartable], [controller_preserving]); other
      goroutines act on the manager and on the controller while it sleeps.
    - [Civil] and [Cron]: the Gregorian calendar of Go's [time] package and
      internal/backupcron on top of it.
    - [Semver]: internal/semver.
    - [Tunnel]: internal/hosttunnel/peer.go, streams in a heap shared between
      the goroutines of a peer, whose interleavings are a step relation.
    - [ServiceWatcher]: internal/servicewatcher, one loop per watched service
      that deploys when it is woken or its delay is over; loops, callers and the
      store's answers interleave in a step relation.
    - [ProjectNetwork]: internal/projectnetwork/plan.go, the /24 networks of the
      projects in a pool, with IPv4 and IPv6 prefixes as numbers.
    - [Resp]: internal/managedredis/resp.go, the Redis client over a byte stream.
    - [RuntimeDeployments] and [ManagedRedis]: the table of runtime deployments
      and the controller of internal/managedredis, which starts, stops, pauses,
      restores, upgrades and deletes Redis containers and their volumes, with
      the transactions of internal/state it uses.  [RedisEnv] answers its calls
      like [Env] those of the deployment controller, and says of a failing call
      whether it took effect.  [ManagedRedisProofs], [ManagedRedisCleanup] and
      [ManagedRedisTermination]: the theorems.
    - [Base64]: the unpadded encodings of Go's encoding/base64.
    - [ReleaseManifest], [ReleaseSlots] and [SelfUpdate]:
      internal/releasemanifest, internal/bootstrap/publish.go and rollback.go,
      internal/selfupdate/updater.go.  The releases directory is a file system
      in which every call may fail and the process may stop after any of them;
      the proofs are Hoare triples with a crash condition.  [SelfUpdate] uses
      the slots, [Semver] for what is newer and [Admission] for its lease.
    - [Authentication]: internal/apitoken, internal/automationauth and
      internal/terminalauth in the modules [Limiter], [Token], [Authenticator]
      and [Terminal], and their theorems in [LimiterSpec], [Guessing],
      [TokenProofs] and [TerminalProofs].
    - [Variables]: internal/variableexpression, resourcevariables,
      domainvariables and internal/daemon/resource_variables.go, the environment
      of a container from the expressions in a service's configuration;
      [VariablesProofs]: the theorems, against substitution without state.
    - [BackupChunks]: internal/cryptobox and internal/backupcrypto, sealed chunks
      and the writer that cuts a stream into them on a disk that may fail.
    - [BackupResource]: internal/backup/resource_format.go and
      resource_remote.go, generations of resource backups on a remote store that
      may fail, lose answers or store other bytes; [BackupProofs]: the theorems.
    - [BackupWorker]: internal/backup/dirty.go, scheduler.go and worker.go, the
      worker that makes one backup at a time, chosen with [Cron] or on request;
      its loop, the calls of [TryRunNow] and the marks of changes interleave in
      a step relation.
    - [Traffic]: internal/trafficmetrics/registry.go, objects of atomic counters
      looked up, updated and forgotten by many goroutines, one atomic operation a
      step.
    - [Ingress]: internal/ingress/router.go, which request goes to which handler
      or backend, the route table that reloads replace, the writer that records
      the status, and the calls of [Traffic] that count a request.

    - [ImageStore] and [ImageProofs]: the transactions of internal/state on
      uploaded images, their revisions and previews (image_uploads.go,
      image_cleanup.go, preview_deployments.go), a table per finite map; the
      theorems speak of every sequence of them.
    - [Oidc]: internal/imageupload/oidc.go, tokens of GitHub Actions and the cache
      of GitHub's keys.
    - [UploadHandler] and [UploadProcess]: internal/imageupload/application.go,
      the parts of an archive as files and as ranges in [ImageStore], and the way
      of a complete archive to a deployment, with the transactions of others in
      between.
    - [UploadParts]: the same handler where requests for parts run at the same time,
      at the level of system calls on names and inodes; [UploadAssembly] assembles the
      part files that such a run leaves.
    - [CloudflareDns]: internal/cloudflaredns, over a trace of API requests.
    - [PreviewApp]: internal/preview, which runs uploaded images as previews with
      [ImageStore] and [CloudflareDns].
    - [InternalDns]: internal/internaldns, zones, views and the forwarding cache.
    - [PortForward]: internal/portforward, grants, tickets and connections.
    - [PortProxy]: internal/portproxy, listeners and UDP sessions.
    - [HostStore]: internal/state/hosts.go, internal/hosttoken and the join request of
      internal/hosthub, in two transactions.
    - [HostRpc]: internal/hosthub/rpc.go, the calls of child hosts on
      [DeploymentStore], a read or a transaction at a time.
    - [HostHub]: the sessions, queues and tunnels of internal/hosthub, over [HostStore];
      what a method does after it released the lock is a step of its own.

    ** What the theorems show

    - Deployments: the container that runs is the one the database calls active,
      over every sequence of operations and failures, unless an activation
      committed and its acknowledgement was lost ([controller_coherent]); a
      deploy moves container and pointer together or not at all, with the same
      exception, and gives back what it created ([deploy_all_or_nothing],
      [cutover_commits]); it ends ([deploy_terminates]), leaves no attempt
      running unless the transaction that settles it is lost
      ([deploy_settles_attempt]), cuts over only to a container that passed its
      readiness check ([ready_container_passed]), refuses a pair that failed,
      stays away from the engine while growth is denied, and restarts neither
      revive an old deployment nor rewrite history.  The exceptions are real:
      [lost_activation_sticks], [stale_resume_drifts], [failed_create_leaks] and
      [lost_begin_stays_running] are such runs.
    - Store: activation is atomic and guarded ([activate_atomic]), finished rows
      never change, active pointers stay valid.
    - Configuration: the canonical JSON is a fixed point of decoding and
      normalising; port-forward edits do not change the hash.
    - Admission and locks: mutual exclusion in every reachable state, no lost
      lease, no leaked lock, a report independent of map iteration order; the
      lock pool refines a specification with one lock per key
      ([pool_refines_locks]).
    - Disk pressure: the growth gate is sound at its thresholds, levels have
      hysteresis, freezing follows the level as long as no check fails half way;
      [failed_transition_keeps_frozen] shows what happens when one does.
    - Restarts: delays follow the backoff table ([restart_delays]), exits of
      superseded containers are ignored, and crash handling keeps the controller
      in step with the database, with the exception above ([controller_preserving]).
    - Schedules: [Next] and [Previous] return the nearest matching instant, end,
      and do not panic.
    - Versions: the comparison is SemVer precedence and a total order that
      separates different version strings.
    - Tunnel: in-order delivery in every interleaving, disjoint identifiers,
      frame round trips; [close_frame_truncates] and [dial_waits_after_close]
      show two runs in which a closing stream loses queued data and a dial
      outlives its tunnel.
    - Watcher: an accepted [Reconcile] is deployed after it was accepted, pending,
      or its loop ended for a stated reason ([reconcile_kept]); a pending one is served within a
      bounded number of steps of its loop ([reconcile_served]); the number of
      deploys at a time is bounded ([concurrency_bound]); [reconcile_lost] is a
      run in which a failed load drops a request.
    - Networks: the plan is isolated, complete and independent of the order of
      the projects ([plan_isolated], [plan_complete]).
    - Redis: commands and replies round trip ([command_reply]), and a reply is
      within its limits whatever the server sends ([reply_bounded]).
    - Managed Redis: the volume the database names exists after every sequence of
      operations and failures, unless a switch of the volume committed and was
      reported as failed ([redis_volume_kept], [lost_switch_loses_volume]); a failed
      start and a failed restore leave no container behind that they could remove
      ([failed_start_and_restore_clean_up], [failed_redis_create_leaks]);
      starts, restores and deletions end ([redis_operations_end]).
      [version_change_leaks_candidate] and [unrecorded_upgrade_unreachable] are
      runs of an upgrade that leave a container behind and an endpoint withdrawn.
    - Updates: whatever fails and wherever the process stops, [current] names a
      verified release ([update_atomic]) and the cleanup never touches the
      release that runs ([finalize_keeps_current]); signed manifests are
      accepted.  [failed_update_selects_new] and [crashed_update_leaves_link]
      are runs that end differently than their callers expect.
    - Authentication: the failure limiter is a function of the history of
      failures ([limiter_refines_history]) and bounds the attempts that fail in
      any minute, however requests interleave ([guesses_bounded]); API tokens round trip
      ([token_roundtrip]); terminal tokens hold for their subject and window
      ([issued_token_window]); passphrase guesses are limited per minute
      ([passphrase_guess_rate]).
    - Variables: the environment is what plain substitution gives, whatever the
      order of iteration ([resolve_exact]); resolution ends on every project,
      cycles included ([resolve_terminates]); reserved names are the platform's
      and all others the service's ([runtime_environment]); expressions are read
      without loss ([tokens_faithful]).
    - Backups: the stored completion marker commits a generation that can be
      restored through it byte for byte ([published_restorable]); what a restore delivers is
      authentic whatever the remote does ([restored_data_authentic]); chunks
      cannot be exchanged ([chunk_identity_bound]); retention removes the oldest
      generations and nothing else ([retention_keeps_newest]).
    - Backup worker: no change of the control database is forgotten
      ([change_kept]), one backup runs at a time ([one_backup_at_a_time]), the
      oldest due one is chosen ([select_oldest]), wake-ups arrive and requests are
      answered once ([wakeups_delivered], [request_answered_once]);
      [failing_control_starves] shows that a control backup that keeps failing
      keeps the scheduled ones out.
    - Ingress: a request reaches only what its own host name is routed to
      ([request_reaches_own_host]); reloads are atomic and do not erase each other
      ([reloads_linearize]); counters are exact ([counters_exact]), requests leave
      none active ([traffic_settles]) and forgotten services stay forgotten
      ([forgotten_stays_forgotten]).  [informational_hides_status] shows a
      response whose status is lost.
    - Image uploads: bytes are recorded once and counted, one upload is in flight
      per tag ([uploads_invariant]); the parts assemble to the archive whatever
      the clients and the disk do, as long as no part is sent twice at the same
      time ([parts_assemble]); only an archive with its
      SHA-256 is run ([processed_archive_verified]); processing frees the tag
      or reports that it could not, but for one silent read ([process_releases],
      [unfailed_upload_blocks]); cleanup deletes exactly what nothing
      needs ([cleanup_exact]); requests for different parts do not disturb each
      other ([distinct_parts_stored]), while [retried_part_lost] is a run of two
      requests for the same part that loses its file; tokens are authentic ([verified_token_authentic]).
      [workflow_of_last_at] shows how the workflow allowlist can be met by the
      name of a branch, [collected_revision_breaks_listing] how cleanup makes the
      previews of a service unreadable.
    - Previews and DNS: foreign records are never changed
      ([dns_touches_own_records]); [preview_not_replaced] shows that a preview
      cannot be replaced while its records exist.
    - Internal DNS: a name resolves to its last record ([zone_last_write]), internal
      names are never sent to an upstream ([internal_names_stay]), the cache is
      bounded and fresh ([cache_bounded_fresh]).
    - Port forwarding: tickets and connections are bounded, counted and go only to
      who may have them ([forwards_bounded]).
    - Port proxy: routes do not share listeners ([listeners_exclusive]); UDP sockets are
      bounded, known and lead to the current backend ([udp_sockets]);
      [reader_gone_session_kept] is a run in which a client gets no replies any more.
    - Child hosts: a token lets one host join ([hosts_join_once]); the calls of a host
      change nothing of services that are not assigned to it, however calls and other
      transactions interleave ([rpc_isolated]); a host has one live session apart
      from those about to be cancelled, its commands keep their order, tunnels end
      with their session ([hub_sessions]).
      [deleted_host_connects] is a run in which a deleted host stays connected, and
      [late_session_lives] one in which a session outlives the hub.

    ** Assumptions

    Code outside the repository is a parameter.  [HostnameTables] and
    [ConfigTables] stand for the IDNA tables, the public suffix list, the image
    reference parser, the JSON codec and the hash, with [ConfigLaws] for what
    the canonical form relies on; [Env], [RestartEnv], [Answers] and the rule
    arguments of [Tunnel] stand for what the surroundings answer; [OpenCodec]
    for the JSON of an open request.  [Guarded] says that other sessions of the
    store respect the activation discipline for the service, [Undisturbed]
    that they leave the row of one attempt alone, [resumes_timely] that a resume
    finds its deployment still current, [orderly] that a part is not sent again
    while a request for it is under way.  [NetworkLibrary]
    stands for the hash in bridge names, [ManifestLibrary] and [SlotLibrary] for
    JSON, URLs, Ed25519, bundles and temporary names, with their [..Laws];
    [AuthLibrary] and [TokenCodec] for HMAC, the CUID2 pattern and JSON, with
    [CuidPattern], [MacLength] and [json_exact]; [BackupCrypto] and
    [BackupCodec] for the cipher, the hash and JSON, with [AeadCorrect],
    [HashText], [EnvelopeExact] and [CompletionExact]; [Disk] and [Remote] for the faults, with
    [NonceWhole] and [PagesExact]; [RedisEnv] for engine, files, database and
    clock of managed Redis; [IngressLibrary] for media types and addresses and
    [Answers] of [Ingress] for backends and responses; [ScheduleStore] for the policies and records the
    backup worker reads; [VariableStore] for what the store answers
    in one resolution, with [identified] for what identifiers are;
    [OIDCTables] for the JSON of tokens and RSA; [ProcessEnv], [HandlerEnv] and
    [PreviewEnv] for disk, engine, clock and other transactions around uploads
    and previews; [CloudflareAPI] for the answers of Cloudflare; [DnsLibrary] for the
    wire format of DNS; [ForwardEnv] for what the port forwarder resolves;
    [HostLibrary] for SHA-256 and [RPCEnv] for the resolvers and queries behind the
    calls of hosts, with [names_own] and [keeps]: identifiers of deployments are used
    for one service.  No law says that hashes or ciphers cannot
    be broken: where that matters the theorem names the objects that must not
    collide or the forgery it would take.  Every theorem with
    such a hypothesis has a witness with concrete instances.

    ** Bounds and fuel

    Loops whose end depends on the surroundings carry fuel and return [None]
    when it runs out: [waitReady] (and through it [deploy]), for which
    [deploy_terminates] shows that a clock that advances gives enough fuel and
    that more fuel changes nothing, and the restart loop, which by design has
    no bound.  The waits of [ManagedRedis] are the same ([redis_operations_end]);
    its wait for a background save ends only with the save or the caller's
    context, so that upgrades and backups carry fuel without such a theorem.
    The schedule searches get the number of minutes up to their
    deadline of eight years as fuel, and are proved never to run out.  String
    trimming gets the string's length.  The chunk writer gets two turns more
    than bytes ([write_loop_fuel]), the chunk reader one more than chunks, which
    [published_restorable] shows to be enough, the RESP parser its nesting
    limit, which is the code's.  The resolver of variables gets more fuel than
    the project has variables, which [resolve_terminates] shows to be enough.
    Integers are [Z] with the wrap-around
    of their Go type written out where it can matter ([u32], [u64], [i64],
    [Mul64], [Div64]); times are nanoseconds.

    ** Not modelled

    Sockets, netlink, cgroups, container engine bindings, SQL of the other
    tables, HTTP and MCP handlers, the daemon's wiring, the frontend, the Rust
    sidecars and vendored code.  [Controller] leaves out the terminal forwarding
    methods, which do not touch its state; [ReleaseSlots] the forward update and
    the first installation; [ManagedRedis] the creation of resources, the
    sealing of passwords and the contents of browsing replies; [Traffic] the
    sampled rates, which are floating point; [Ingress] the reverse proxy itself.
    [UploadHandler] and [PreviewApp] leave out the restart of the process.  Managed
    Postgres, the object store, disaster restores and the hosts' agents drive
    external programs and sockets step by step: what they keep themselves is little,
    and the rest would be assumptions about those programs. *)

From stdpp Require Export base list gmap strings sorting.
From Stdlib Require Export ZArith Lia.
From Stdlib Require Import Ascii.

Declare Scope go_scope.
Delimit Scope go_scope with go.
Open Scope Z_scope.
Open Scope go_scope.

(** ** Go results: a value or an error *)

Inductive result (E A : Type) : Type :=
| Ok (a : A)
| Err (e : E).
Arguments Ok {E A} a.
Arguments Err {E A} e.

Definition rbind {E A B} (m : result E A) (k : A -> result E B) : result E B :=
  match m with
  | Ok a => k a
  | Err e => Err e
  end.

Notation "'let?' x ':=' m 'in' k" := (rbind m (fun x => k))
  (at level 10, x name, m at level 100, k at level 200) : go_scope.

Definition is_ok {E A} (m : result E A) : bool :=
  match m with Ok _ => true | Err _ => false end.

Lemma rbind_ok {E A B} (m : result E A) (k : A -> result E B) b :
  rbind m k = Ok b -> exists a, m = Ok a /\ k a = Ok b.
Proof. destruct m; simpl; naive_solver. Qed.

(** ** Machine integers *)

Definition two64 : Z := 2 ^ 64.
Definition two32 : Z := 2 ^ 32.
Definition max_int64 : Z := 2 ^ 63 - 1.
Definition min_int64 : Z := - 2 ^ 63.

(** uint64 and uint32 arithmetic wraps around. *)
Definition u64 (z : Z) : Z := z mod two64.
Definition u32 (z : Z) : Z := z mod two32.

(** int64 arithmetic wraps around to the signed range. *)
Definition i64 (z : Z) : Z := (z + 2 ^ 63) mod two64 - 2 ^ 63.

Lemma i64_small z : min_int64 <= z <= max_int64 -> i64 z = z.
Proof. unfold i64, min_int64, max_int64, two64. intros. rewrite Z.mod_small; lia. Qed.

Lemma u64_small z : 0 <= z < two64 -> u64 z = z.
Proof. apply Z.mod_small. Qed.
Lemma u64_range z : 0 <= u64 z < two64.
Proof. apply Z.mod_pos_bound. reflexivity. Qed.
Lemma u32_small z : 0 <= z < two32 -> u32 z = z.
Proof. apply Z.mod_small. Qed.
Lemma u32_range z : 0 <= u32 z < two32.
Proof. apply Z.mod_pos_bound. reflexivity. Qed.

(** ** Time: nanoseconds since 0001-01-01T00:00:00Z, the instant [IsZero] tests *)

Definition second : Z := 1000000000.
Definition minute : Z := 60 * second.
Definition hour : Z := 60 * minute.
Definition time_zero : Z := 0.
Definition is_zero (t : Z) : bool := t =? time_zero.
(** [Time.Sub] saturates at the bounds of [Duration], an int64. *)
Definition time_sub (t u : Z) : Z := Z.max min_int64 (Z.min max_int64 (t - u)).

(** ** Go strings: byte sequences *)

Abbreviation byte_code := N_of_ascii.

Definition chr (n : N) : string := String (ascii_of_N n) EmptyString.

Definition zlen (s : string) : Z := Z.of_nat (String.length s).

Fixpoint str_forall (p : ascii -> bool) (s : string) : bool :=
  match s with
  | EmptyString => true
  | String c s' => p c && str_forall p s'
  end.

(** Byte slices. *)
Definition bytes := list ascii.
Definition text (s : string) : bytes := String.list_ascii_of_string s.
Definition blen (b : bytes) : Z := Z.of_nat (length b).

Definition in_range (lo hi : N) (c : ascii) : bool :=
  (lo <=? byte_code c)%N && (byte_code c <=? hi)%N.
Definition is_digit (c : ascii) : bool := in_range 48 57 c.
Definition is_lower (c : ascii) : bool := in_range 97 122 c.
Definition is_upper (c : ascii) : bool := in_range 65 90 c.

(** [strings.HasPrefix] with the remainder. *)
Fixpoint strip_prefix (p s : string) : option string :=
  match p, s with
  | EmptyString, _ => Some s
  | String a p', String b s' =>
      if Ascii.eqb a b then strip_prefix p' s' else None
  | String _ _, EmptyString => None
  end.
Definition has_prefix (p s : string) : bool := bool_decide (is_Some (strip_prefix p s)).
(** [strings.HasSuffix] and [strings.TrimSuffix] *)
Definition has_suffix (suffix s : string) : bool := has_prefix (String.rev suffix) (String.rev s).
Definition trim_suffix (suffix s : string) : string :=
  match strip_prefix (String.rev suffix) (String.rev s) with Some r => String.rev r | None => s end.

(** [strings.Contains] *)
Fixpoint contains (sub s : string) : bool :=
  has_prefix sub s ||
  match s with
  | EmptyString => false
  | String _ s' => contains sub s'
  end.

(** The separator-free part before the first occurrence of the byte [sep], and
    the rest after it: [strings.Cut] for a one-byte separator. *)
Fixpoint cut (sep : ascii) (s : string) : string * string * bool :=
  match s with
  | EmptyString => (EmptyString, EmptyString, false)
  | String c s' =>
      if Ascii.eqb c sep then (EmptyString, s', true)
      else let '(l, r, found) := cut sep s' in (String c l, r, found)
  end.

(** [strings.Split] for a one-byte separator. *)
Fixpoint split (sep : ascii) (s : string) : list string :=
  match s with
  | EmptyString => [EmptyString]
  | String c s' =>
      if Ascii.eqb c sep then EmptyString :: split sep s'
      else match split sep s' with
           | p :: ps => String c p :: ps
           | [] => [String c EmptyString]
           end
  end.

(** [unicode.IsSpace] over the UTF-8 encodings of the space runes. *)
Definition space_seqs : list string :=
  [chr 9; chr 10; chr 11; chr 12; chr 13; chr 32;
   chr 194 +:+ chr 133; chr 194 +:+ chr 160;
   chr 225 +:+ chr 154 +:+ chr 128;
   chr 226 +:+ chr 128 +:+ chr 128; chr 226 +:+ chr 128 +:+ chr 129;
   chr 226 +:+ chr 128 +:+ chr 130; chr 226 +:+ chr 128 +:+ chr 131;
   chr 226 +:+ chr 128 +:+ chr 132; chr 226 +:+ chr 128 +:+ chr 133;
   chr 226 +:+ chr 128 +:+ chr 134; chr 226 +:+ chr 128 +:+ chr 135;
   chr 226 +:+ chr 128 +:+ chr 136; chr 226 +:+ chr 128 +:+ chr 137;
   chr 226 +:+ chr 128 +:+ chr 138; chr 226 +:+ chr 128 +:+ chr 168;
   chr 226 +:+ chr 128 +:+ chr 169; chr 226 +:+ chr 128 +:+ chr 175;
   chr 226 +:+ chr 129 +:+ chr 159; chr 227 +:+ chr 128 +:+ chr 128].

Fixpoint strip_first (ps : list string) (s : string) : option string :=
  match ps with
  | [] => None
  | p :: ps' => match strip_prefix p s with
                | Some r => Some r
                | None => strip_first ps' s
                end
  end.

Fixpoint trim_with (ps : list string) (fuel : nat) (s : string) : string :=
  match fuel with
  | O => s
  | S f => match strip_first ps s with
           | Some r => trim_with ps f r
           | None => s
           end
  end.

Definition trim_left (s : string) : string :=
  trim_with space_seqs (String.length s) s.
Definition trim_right (s : string) : string :=
  String.rev (trim_with (map String.rev space_seqs) (String.length s) (String.rev s)).
(** [strings.TrimSpace]: every stripped sequence shortens the string, so its
    length is enough fuel. *)
Definition trim_space (s : string) : string := trim_right (trim_left s).
(** [strings.Trim] for a one-byte cutset. *)
Definition trim_byte (c : ascii) (s : string) : string :=
  let one := [String c EmptyString] in
  let left := trim_with one (String.length s) s in
  String.rev (trim_with one (String.length left) (String.rev left)).

Definition to_lower_ascii (c : ascii) : ascii :=
  if is_upper c then ascii_of_N (byte_code c + 32) else c.

(** ** Tactics *)

Ltac destruct_ifs :=
  repeat match goal with
         | H : context [if ?b then _ else _] |- _ => destruct b eqn:?; simplify_eq/=
         | |- context [if ?b then _ else _] => destruct b eqn:?; simplify_eq/=
         end.

Ltac btrue :=
  repeat match goal with
         | H : (_ && _) = true |- _ => apply andb_true_iff in H as [? ?]
         | H : (_ || _) = false |- _ => apply orb_false_iff in H as [? ?]
         | H : negb _ = true |- _ => apply negb_true_iff in H
         | H : negb _ = false |- _ => apply negb_false_iff in H
         | H : bool_decide _ = true |- _ => apply bool_decide_eq_true in H
         | H : bool_decide _ = false |- _ => apply bool_decide_eq_false in H
         | H : (_ <? _) = true |- _ => apply Z.ltb_lt in H
         | H : (_ <? _) = false |- _ => apply Z.ltb_ge in H
         | H : (_ <=? _) = true |- _ => apply Z.leb_le in H
         | H : (_ <=? _) = false |- _ => apply Z.leb_gt in H
         | H : (_ =? _) = true |- _ => apply Z.eqb_eq in H
         | H : (_ =? _) = false |- _ => apply Z.eqb_neq in H
         end.

(** ** Hint databases *)

Create HintDb go.
#[export] Hint Resolve u64_range u32_range : go.

(** ** Lists *)

(** [sort.Slice] followed by iteration over a map: sorting by a total order
    forgets the order in which the map was iterated. *)
Lemma merge_sort_perm_unique {A} (R : relation A) `{!RelDecision R, !Transitive R,
    !AntiSymm (=) R, !Total R} (l1 l2 : list A) :
  l1 ≡ₚ l2 -> merge_sort R l1 = merge_sort R l2.
Proof.
  intros Hp. apply (Sorted_unique R).
  - by apply Sorted_merge_sort.
  - by apply Sorted_merge_sort.
  - by rewrite !merge_sort_Permutation.
Qed.

Lemma Sorted_take {A} (R : relation A) `{!Transitive R} n l :
  Sorted R l -> Sorted R (take n l).
Proof.
  intros Hs%Sorted_StronglySorted; [|done].
  rewrite <- (take_drop n l) in Hs. apply StronglySorted_app_1_l in Hs.
  by apply StronglySorted_Sorted.
Qed.

(** ** String lemmas *)

Lemma str_forall_app p s t : str_forall p (s +:+ t) = str_forall p s && str_forall p t.
Proof.
  induction s as [|c s IH]; [done|]. change (String c s +:+ t) with (String c (s +:+ t)).
  simpl. rewrite IH. by rewrite andb_assoc.
Qed.

Lemma str_forall_impl p q s :
  (forall c, p c = true -> q c = true) -> str_forall p s = true -> str_forall q s = true.
Proof.
  intros Hpq. induction s; [done|]; simpl. intros [? ?]%andb_true_iff.
  apply andb_true_iff. auto.
Qed.

Lemma app_length_str s t : String.length (s +:+ t) = (String.length s + String.length t)%nat.
Proof.
  induction s as [|c s IH]; [done|]. change (String c s +:+ t) with (String c (s +:+ t)).
  simpl. by rewrite IH.
Qed.

Lemma strip_prefix_app p s t : strip_prefix p s = Some t -> s = p +:+ t.
Proof.
  revert s. induction p as [|a p IH]; intros [|b s]; simpl; try (intros; simplify_eq; done).
  destruct (Ascii.eqb_spec a b); [|done]. intros ->%IH. by subst.
Qed.

Lemma strip_prefix_self p t : strip_prefix p (p +:+ t) = Some t.
Proof.
  induction p as [|a p IH]; [done|]. change (String a p +:+ t) with (String a (p +:+ t)).
  simpl. by rewrite Ascii.eqb_refl.
Qed.

Lemma has_prefix_spec p s : has_prefix p s = true <-> exists t, s = p +:+ t.
Proof.
  unfold has_prefix. rewrite bool_decide_eq_true. split.
  - intros [t Ht]. exists t. by apply strip_prefix_app.
  - intros [t ->]. rewrite strip_prefix_self. by eexists.
Qed.

(** A separator-free string is left alone by [split]. *)
Lemma split_nonempty sep s : split sep s <> [].
Proof. induction s; simpl; [done|]. destruct (Ascii.eqb _ _); [done|]. by destruct (split sep s). Qed.

(** Joining the pieces with the separator gives the string back. *)
Fixpoint join (sep : string) (l : list string) : string :=
  match l with
  | [] => EmptyString
  | [s] => s
  | s :: rest => s +:+ sep +:+ join sep rest
  end.

Lemma join_split sep s : join (String sep EmptyString) (split sep s) = s.
Proof.
  induction s as [|c s IH]; [done|]. simpl.
  pose proof (split_nonempty sep s) as Hne.
  destruct (Ascii.eqb_spec c sep).
  - subst. destruct (split sep s) as [|p ps] eqn:E; [done|].
    change (String sep (join (String sep EmptyString) (p :: ps)) = String sep s).
    by rewrite IH.
  - destruct (split sep s) as [|p ps] eqn:E; [done|].
    destruct ps; simpl in *; by rewrite <- IH.
Qed.

Lemma rev_app_rev s t u : String.rev_app (String.rev_app s t) u = String.rev_app t (s +:+ u).
Proof.
  revert t u. induction s as [|c s IH]; intros t u; simpl; [done|].
  change (String c s +:+ u) with (String c (s +:+ u)). by rewrite IH.
Qed.

Lemma app_empty_r s : s +:+ "" = s.
Proof.
  induction s as [|c s IH]; [done|].
  change (String c s +:+ "") with (String c (s +:+ "")). by rewrite IH.
Qed.

Lemma rev_rev s : String.rev (String.rev s) = s.
Proof. unfold String.rev. rewrite rev_app_rev. simpl. apply app_empty_r. Qed.

Lemma str_forall_rev p s : str_forall p (String.rev s) = str_forall p s.
Proof.
  assert (Hg : forall t, str_forall p (String.rev_app s t) = str_forall p s && str_forall p t).
  { induction s as [|c s IH]; intros t; simpl; [done|]. rewrite IH. simpl.
    by rewrite !andb_assoc, (andb_comm (p c)). }
  unfold String.rev. rewrite Hg. apply andb_true_r.
Qed.

(** Bytes that start or end no space sequence: graphic ASCII. *)
Definition graphic (c : ascii) : bool := in_range 33 126 c.

Definition starts_other (c : ascii) (p : string) : bool :=
  match p with String a _ => negb (Ascii.eqb a c) | EmptyString => false end.

Lemma strip_first_none ps c s :
  forallb (starts_other c) ps = true -> strip_first ps (String c s) = None.
Proof.
  induction ps as [|p ps IH]; simpl; [done|].
  intros [Hp Hps]%andb_true_iff. destruct p as [|a p]; [done|]. simpl in *.
  apply negb_true_iff in Hp. rewrite Hp. auto.
Qed.

Lemma graphic_not_space c :
  graphic c = true ->
  forallb (starts_other c) space_seqs = true /\
  forallb (starts_other c) (map String.rev space_seqs) = true.
Proof. destruct c as [[] [] [] [] [] [] [] []]; vm_compute; auto. Qed.

Lemma trim_with_id ps fuel s :
  (forall c, graphic c = true -> forallb (starts_other c) ps = true) ->
  forallb (fun p => negb (bool_decide (p = ""))) ps = true ->
  str_forall graphic s = true -> trim_with ps fuel s = s.
Proof.
  intros Hps Hne Hs. destruct fuel as [|fuel]; [done|]. simpl.
  destruct s as [|c s]; simpl in Hs.
  - assert (strip_first ps "" = None) as ->; [|done].
    clear Hps. induction ps as [|p ps IH]; [done|]. simpl in *.
    apply andb_true_iff in Hne as [Hp Hne]. destruct p; [done|]. simpl. auto.
  - apply andb_true_iff in Hs as [Hc _]. rewrite strip_first_none; auto.
Qed.

Lemma trim_space_graphic s : str_forall graphic s = true -> trim_space s = s.
Proof.
  intros Hs. unfold trim_space, trim_left, trim_right.
  rewrite (trim_with_id space_seqs);
    [|intros c Hc; by destruct (graphic_not_space c Hc)|reflexivity|done].
  rewrite (trim_with_id (map String.rev space_seqs));
    [apply rev_rev|intros c Hc; by destruct (graphic_not_space c Hc)|reflexivity|].
  by rewrite str_forall_rev.
Qed.

Lemma str_forall_split p sep s :
  forallb (str_forall p) (split sep s) = true ->
  str_forall (fun c => p c || Ascii.eqb c sep) s = true.
Proof.
  induction s as [|c s IH]; [done|]. simpl.
  destruct (Ascii.eqb_spec c sep) as [->|Hne]; simpl.
  - intros H%IH. by rewrite orb_true_r.
  - pose proof (split_nonempty sep s). destruct (split sep s) as [|q qs] eqn:E; [done|].
    simpl in *. intros [[Hc Hq]%andb_true_iff Hqs]%andb_true_iff.
    rewrite Hc, IH; [done|]. by rewrite Hq.
Qed.

(** ** Sorting records by two string keys *)

Section TwoKeys.
Context {A : Type} (k1 k2 : A -> string).

Definition two_key_leb (l r : A) : bool :=
  if bool_decide (k1 l = k1 r) then String.leb (k2 l) (k2 r) else String.leb (k1 l) (k1 r).
Definition two_key_le (l r : A) : Prop := two_key_leb l r.

#[export] Instance two_key_le_dec : RelDecision two_key_le :=
  fun l r => Is_true_dec (two_key_leb l r).

Lemma two_key_le_spec l r :
  two_key_le l r <->
  (k1 l <> k1 r /\ String.le (k1 l) (k1 r)) \/ (k1 l = k1 r /\ String.le (k2 l) (k2 r)).
Proof.
  unfold two_key_le, two_key_leb, String.le. case_bool_decide; naive_solver.
Qed.

#[export] Instance two_key_le_trans : Transitive two_key_le.
Proof.
  intros x y z. rewrite !two_key_le_spec.
  intros [[Hne H12]|[He H12]] [[Hne' H23]|[He' H23]].
  - destruct (decide (k1 x = k1 z)) as [Hxz|]; [|left; split; [done|by etrans]].
    exfalso. apply Hne. rewrite <- Hxz in H23. by apply (anti_symm String.le).
  - left. by rewrite <- He'.
  - left. by rewrite He.
  - right. split; [congruence|by etrans].
Qed.

#[export] Instance two_key_le_total : Total two_key_le.
Proof.
  intros x y. rewrite !two_key_le_spec.
  destruct (total String.le (k1 x) (k1 y)), (total String.le (k2 x) (k2 y)),
    (decide (k1 x = k1 y)); naive_solver.
Qed.

Lemma two_key_le_antisymm :
  (forall x y, k1 x = k1 y -> k2 x = k2 y -> x = y) -> AntiSymm (=) two_key_le.
Proof.
  intros Hinj x y. rewrite !two_key_le_spec.
  intros [[Hne H12]|[He H12]] [[Hne' H21]|[He' H21]]; try congruence.
  - exfalso. apply Hne. by apply (anti_symm String.le).
  - apply Hinj; [done|]. by apply (anti_symm String.le).
Qed.
End TwoKeys.

(** Sorting a sorted list changes nothing. *)
Lemma merge_sort_sorted {A} (R : relation A) `{!RelDecision R, !Transitive R,
    !AntiSymm (=) R, !Total R} (l : list A) : Sorted R l -> merge_sort R l = l.
Proof.
  intros Hs. apply (Sorted_unique R); [|done|].
  - by apply Sorted_merge_sort.
  - apply merge_sort_Permutation.
Qed.

Lemma merge_sort_idem {A} (R : relation A) `{!RelDecision R, !Transitive R,
    !AntiSymm (=) R, !Total R} (l : list A) :
  merge_sort R (merge_sort R l) = merge_sort R l.
Proof. apply (merge_sort_sorted R). by apply Sorted_merge_sort. Qed.

(** ** Deduplication in order of first occurrence, as the [seen] maps do it *)

Fixpoint dedup (seen : list string) (l : list string) : list string :=
  match l with
  | [] => []
  | x :: l' => if bool_decide (x ∈ seen) then dedup seen l' else x :: dedup (x :: seen) l'
  end.

Lemma dedup_elem seen l x : x ∈ dedup seen l <-> x ∈ l /\ x ∉ seen.
Proof.
  revert seen. induction l as [|y l IH]; intros seen; simpl; [set_solver|].
  case_bool_decide; [rewrite IH; set_solver|].
  rewrite elem_of_cons, IH. set_unfold. destruct (decide (x = y)); naive_solver.
Qed.

Lemma dedup_NoDup seen l : NoDup (dedup seen l).
Proof.
  revert seen. induction l as [|y l IH]; intros seen; simpl; [constructor|].
  case_bool_decide; [done|]. constructor; [|done]. rewrite dedup_elem. set_solver.
Qed.

Lemma dedup_id seen l : NoDup l -> (forall x, x ∈ l -> x ∉ seen) -> dedup seen l = l.
Proof.
  revert seen. induction l as [|y l IH]; intros seen Hnd Hs; [done|]. simpl.
  inversion_clear Hnd. rewrite bool_decide_eq_false_2 by set_solver.
  f_equal. apply IH; [done|]. set_solver.
Qed.

Lemma dedup_idem l : dedup [] (dedup [] l) = dedup [] l.
Proof. apply dedup_id; [apply dedup_NoDup|set_solver]. Qed.

(** ** [map] with a first error *)

Fixpoint mapM_res {E A B} (f : A -> result E B) (l : list A) : result E (list B) :=
  match l with
  | [] => Ok []
  | x :: l' => let? y := f x in let? ys := mapM_res f l' in Ok (y :: ys)
  end.

Lemma mapM_res_ok {E A B} (f : A -> result E B) l ys :
  mapM_res f l = Ok ys <-> Forall2 (fun x y => f x = Ok y) l ys.
Proof.
  revert ys. induction l as [|x l IH]; intros ys; simpl.
  - split; [intros; simplify_eq; constructor|by inversion_clear 1].
  - split.
    + intros (y & Hy & (zs & Hz & ?)%rbind_ok)%rbind_ok. simplify_eq.
      constructor; [done|]. by apply IH.
    + inversion 1 as [|? y ? zs Hy Hz]; subst. rewrite Hy. simpl.
      apply IH in Hz. by rewrite Hz.
Qed.

Lemma mapM_res_fix {E A} (f : A -> result E A) l :
  Forall (fun x => f x = Ok x) l -> mapM_res f l = Ok l.
Proof. intros H. apply mapM_res_ok. induction H; by constructor. Qed.

(** ** [cut] and [split] against what they take apart *)

Lemma cut_spec sep s l r found :
  cut sep s = (l, r, found) -> s = if found then l +:+ String sep r else l.
Proof.
  revert l r. induction s as [|c s IH]; intros l r; simpl; [by intros [= <- <- <-]|].
  destruct (Ascii.eqb_spec c sep) as [->|]; [by intros [= <- <- <-]|].
  destruct (cut sep s) as [[l' r'] f'] eqn:E. intros [= <- <- <-].
  rewrite (IH l' r' eq_refl). by destruct f'.
Qed.

Lemma cut_app p sep l r :
  str_forall p l = true -> p sep = false -> cut sep (l +:+ String sep r) = (l, r, true).
Proof.
  intros Hl Hsep. induction l as [|c l IH]; [by simpl; rewrite Ascii.eqb_refl|].
  change (String c l +:+ String sep r) with (String c (l +:+ String sep r)). simpl in *. btrue.
  destruct (Ascii.eqb_spec c sep) as [->|]; [congruence|]. by rewrite IH.
Qed.
Lemma split_app p sep l r :
  str_forall p l = true -> p sep = false -> split sep (l +:+ String sep r) = l :: split sep r.
Proof.
  intros Hl Hsep. induction l as [|c l IH]; [by simpl; rewrite Ascii.eqb_refl|].
  change (String c l +:+ String sep r) with (String c (l +:+ String sep r)). simpl in *. btrue.
  destruct (Ascii.eqb_spec c sep) as [->|]; [congruence|]. by rewrite IH.
Qed.
Lemma split_single p sep l : str_forall p l = true -> p sep = false -> split sep l = [l].
Proof.
  intros Hl Hsep. induction l as [|c l IH]; [done|]. simpl in *. btrue.
  destruct (Ascii.eqb_spec c sep) as [->|]; [congruence|]. by rewrite IH.
Qed.

(** ** [trim_space] is idempotent *)

Definition nonempty_all (ps : list string) : bool :=
  forallb (fun p => negb (bool_decide (p = ""))) ps.

Lemma app_assoc_str s t u : (s +:+ t) +:+ u = s +:+ (t +:+ u).
Proof.
  induction s as [|c s IH]; [done|].
  change ((String c s +:+ t) +:+ u) with (String c ((s +:+ t) +:+ u)).
  change (String c s +:+ (t +:+ u)) with (String c (s +:+ (t +:+ u))). by rewrite IH.
Qed.

Lemma strip_first_some ps s r :
  strip_first ps s = Some r -> exists p, p ∈ ps /\ s = p +:+ r.
Proof.
  induction ps as [|p ps IH]; simpl; [done|].
  destruct (strip_prefix p s) eqn:E.
  - intros [= ->]. exists p. split; [set_solver|]. by apply strip_prefix_app.
  - intros (q & Hq & ->)%IH. exists q. split; [set_solver|done].
Qed.

Lemma strip_first_shorter ps s r :
  nonempty_all ps = true -> strip_first ps s = Some r -> (String.length r < String.length s)%nat.
Proof.
  intros Hne (p & Hp & ->)%strip_first_some. rewrite app_length_str.
  unfold nonempty_all in Hne. rewrite forallb_forall in Hne.
  apply list_elem_of_In in Hp. specialize (Hne _ Hp). btrue.
  destruct p; [done|simpl; lia].
Qed.

Lemma strip_first_mono ps s u :
  strip_first ps (s +:+ u) = None -> strip_first ps s = None.
Proof.
  induction ps as [|p ps IH]; simpl; [done|].
  destruct (strip_prefix p s) eqn:E.
  - apply strip_prefix_app in E as ->. by rewrite app_assoc_str, strip_prefix_self.
  - destruct (strip_prefix p (s +:+ u)); [done|]. auto.
Qed.

Lemma trim_with_spec ps n s :
  nonempty_all ps = true -> (String.length s <= n)%nat ->
  strip_first ps (trim_with ps n s) = None /\ exists x, s = x +:+ trim_with ps n s.
Proof.
  intros Hne. revert s. induction n as [|n IH]; intros s Hn; simpl.
  - split; [|by exists ""]. destruct s; [|simpl in Hn; lia].
    destruct (strip_first ps "") eqn:E; [|done].
    apply strip_first_shorter in E; [simpl in E; lia|done].
  - destruct (strip_first ps s) as [r|] eqn:E.
    + pose proof (strip_first_shorter _ _ _ Hne E).
      destruct (IH r) as [H1 [x Hx]]; [lia|]. split; [done|].
      apply strip_first_some in E as (p & _ & ->). exists (p +:+ x).
      rewrite app_assoc_str. by rewrite <- Hx.
    + split; [done|]. by exists "".
Qed.

Lemma trim_with_none ps n s : strip_first ps s = None -> trim_with ps n s = s.
Proof. intros Hs. destruct n; simpl; [done|]. by rewrite Hs. Qed.

Lemma rev_app_app s t u : String.rev_app s (t +:+ u) = String.rev_app s t +:+ u.
Proof.
  revert t u. induction s as [|c s IH]; intros t u; simpl; [done|].
  change (String c (t +:+ u)) with (String c t +:+ u). by rewrite IH.
Qed.

Lemma rev_app_distr_str s t : String.rev (s +:+ t) = String.rev t +:+ String.rev s.
Proof.
  unfold String.rev.
  assert (Hg : forall u, String.rev_app (s +:+ t) u = String.rev_app t (String.rev_app s u)).
  { induction s as [|c s IH]; intros u; [done|].
    change (String c s +:+ t) with (String c (s +:+ t)). simpl. by rewrite IH. }
  rewrite Hg. rewrite <- rev_app_app. done.
Qed.

Lemma rev_length_str s : String.length (String.rev s) = String.length s.
Proof.
  assert (Hg : forall t, String.length (String.rev_app s t) =
                         (String.length s + String.length t)%nat).
  { induction s as [|c s IH]; intros t; simpl; [done|]. rewrite IH. simpl. lia. }
  unfold String.rev. rewrite Hg. simpl. lia.
Qed.

Lemma trim_space_idem s : trim_space (trim_space s) = trim_space s.
Proof.
  assert (Hl : nonempty_all space_seqs = true) by reflexivity.
  assert (Hr : nonempty_all (map String.rev space_seqs) = true) by reflexivity.
  destruct (trim_with_spec space_seqs (String.length s) s Hl) as [H1 _]; [done|].
  unfold trim_space at 2 3. fold (trim_left s) in H1. revert H1. generalize (trim_left s).
  intros u Hu.
  destruct (trim_with_spec (map String.rev space_seqs) (String.length u) (String.rev u) Hr)
    as [H2 [x Hx]]; [by rewrite rev_length_str|].
  set (t := trim_with (map String.rev space_seqs) (String.length u) (String.rev u)) in *.
  assert (trim_right u = String.rev t) as -> by done.
  assert (Hs : strip_first space_seqs (String.rev t) = None).
  { apply (strip_first_mono _ _ (String.rev x)). rewrite <- rev_app_distr_str, <- Hx.
    by rewrite rev_rev. }
  unfold trim_space, trim_left. rewrite trim_with_none by done.
  unfold trim_right. rewrite rev_rev. by rewrite trim_with_none.
Qed.

(** ** Go error values

    Package-level errors are compared by identity ([errors.Is]); [fmt.Errorf]
    with [%w] wraps one error, behind a prefix or before a suffix, and
    [errors.Join] several. *)

Inductive goerr :=
| Sentinel (name text : string)
| Msg (text : string)
| Wrap (prefix : string) (e : goerr)
| Suffix (e : goerr) (text : string)
| Joined (l r : goerr).

Fixpoint errors_Is (name : string) (e : goerr) : bool :=
  match e with
  | Sentinel n _ => bool_decide (n = name)
  | Msg _ => false
  | Wrap _ e' => errors_Is name e'
  | Suffix e' _ => errors_Is name e'
  | Joined l r => errors_Is name l || errors_Is name r
  end.

Fixpoint error_text (e : goerr) : string :=
  match e with
  | Sentinel _ t => t
  | Msg t => t
  | Wrap p e' => p +:+ ": " +:+ error_text e'
  | Suffix e' t => error_text e' +:+ t
  | Joined l r => error_text l +:+ chr 10 +:+ error_text r
  end.

(** [errors.Join] of two possibly nil errors. *)
Definition errors_Join (l r : option goerr) : option goerr :=
  match l, r with
  | Some a, Some b => Some (Joined a b)
  | Some a, None => Some a
  | None, r => r
  end.

Definition err_of {A} (m : result goerr A) : option goerr :=
  match m with Ok _ => None | Err e => Some e end.

Definition empty (s : string) : bool := bool_decide (s = "").

(** ** Paths: [filepath.Clean] of a rooted path and [filepath.Join] under it *)

Definition clean_part (stack : list string) (part : string) : list string :=
  if empty part || bool_decide (part = ".") then stack
  else if bool_decide (part = "..") then tail stack
  else part :: stack.
Definition Clean_rooted (p : string) : string :=
  "/" +:+ join "/" (reverse (foldl clean_part [] (split "/"%char p))).
Definition Join (root a b : string) : string :=
  Clean_rooted (join "/" (List.filter (fun s => negb (empty s)) [root; a; b])).
