(* ===== verification/Effects.v ===== *)
(** * Effects: stateful Go code with errors and fuel

    A computation over a world [W] returns a value and the world after it; [None]
    means that the fuel of a waiting loop ran out.  The controllers instantiate
    [W] with the state they read and write.  [resp] bounds what every run of a
    computation does to the world, [post] is its postcondition, and [terminates]
    says that enough fuel fixes the outcome. *)

From S2P Require Import Prelude.

Definition Eff (W A : Type) : Type := W -> option (A * W).

#[export] Instance Eff_ret {W} : MRet (Eff W) := fun A a w => Some (a, w).
#[export] Instance Eff_bind {W} : MBind (Eff W) := fun A B k m w =>
  match m w with
  | Some (a, w') => k a w'
  | None => None
  end.

Section Effects.
Context {W : Type}.
#[local] Notation M := (Eff W).

(** A Go call whose error is returned at once. *)
Definition ebind {A B} (m : M (result goerr A)) (k : A -> M (result goerr B)) : M (result goerr B) :=
  r ← m;
  match r with
  | Ok a => k a
  | Err e => mret (Err e)
  end.

Definition throw {A} (e : goerr) : M (result goerr A) := mret (Err e).

(** ** Reasoning rules *)

(** What every run of [m] that returns does to the world. *)
Definition resp {A} (R : relation W) (m : M A) : Prop :=
  forall w a w', m w = Some (a, w') -> R w w'.

(** What holds of the result and the final world. *)
Definition post {A} (m : M A) (Q : A -> W -> Prop) (w : W) : Prop :=
  forall a w', m w = Some (a, w') -> Q a w'.

Lemma bind_inv {A B} (m : M A) (k : A -> M B) w b w' :
  (m ≫= k) w = Some (b, w') -> exists a w1, m w = Some (a, w1) /\ k a w1 = Some (b, w').
Proof.
  unfold mbind, Eff_bind. destruct (m w) as [[a w1]|]; [|done]. eauto.
Qed.

Lemma ebind_inv {A B} (m : M (result goerr A)) (k : A -> M (result goerr B)) w r w' :
  ebind m k w = Some (r, w') ->
  (exists e, m w = Some (Err e, w') /\ r = Err e) \/
  (exists a w1, m w = Some (Ok a, w1) /\ k a w1 = Some (r, w')).
Proof.
  unfold ebind. intros ([a|e] & w1 & Hm & Hk)%bind_inv; [eauto|].
  injection Hk as <- <-. eauto.
Qed.

Lemma resp_ret {A} R `{!Reflexive R} (a : A) : resp R (mret a).
Proof. intros w b w' [= <- <-]. done. Qed.

Lemma resp_bind {A B} R `{!Transitive R} (m : M A) (k : A -> M B) :
  resp R m -> (forall a, resp R (k a)) -> resp R (m ≫= k).
Proof.
  intros Hm Hk w b w' (a & w1 & H1 & H2)%bind_inv.
  etrans; [by eapply Hm|by eapply Hk].
Qed.

Lemma resp_ebind {A B} R `{!Reflexive R, !Transitive R} (m : M (result goerr A))
    (k : A -> M (result goerr B)) :
  resp R m -> (forall a, resp R (k a)) -> resp R (ebind m k).
Proof.
  intros Hm Hk. apply resp_bind; [done..|]. intros [a|e]; [done|]. by apply resp_ret.
Qed.

Lemma post_bind {A B} (m : M A) (k : A -> M B) Q w :
  post m (fun a w1 => post (k a) Q w1) w -> post (m ≫= k) Q w.
Proof. intros Hp b w' (a & w1 & H1 & H2)%bind_inv. by eapply Hp. Qed.

Lemma post_ebind {A B} (m : M (result goerr A)) (k : A -> M (result goerr B)) Q w :
  post m (fun r w1 => match r with Ok a => post (k a) Q w1 | Err e => Q (Err e) w1 end) w ->
  post (ebind m k) Q w.
Proof.
  intros Hp r w' [(e & H1 & ->)|(a & w1 & H1 & H2)]%ebind_inv; [exact (Hp _ _ H1)|].
  by apply (Hp _ _ H1).
Qed.

Lemma post_ret {A} (a : A) (Q : A -> W -> Prop) w : Q a w -> post (mret a) Q w.
Proof. intros Hq b w' [= <- <-]. done. Qed.

Lemma post_mono {A} (m : M A) (Q Q' : A -> W -> Prop) w :
  post m Q w -> (forall a w', Q a w' -> Q' a w') -> post m Q' w.
Proof. intros Hp HQ a w' Hm. by apply HQ, Hp. Qed.

Lemma resp_post {A} R (m : M A) w (Q : A -> W -> Prop) :
  resp R m -> (forall a w', R w w' -> Q a w') -> post m Q w.
Proof. intros Hm HQ a w' Hr. by eapply HQ, Hm. Qed.

(** ** Termination: enough fuel fixes the outcome *)

Definition terminates {A} (m : nat -> M A) : Prop :=
  forall w, exists n a w', forall n', (n <= n')%nat -> m n' w = Some (a, w').

Lemma terminates_const {A} (m : M A) :
  (forall w, m w <> None) -> terminates (fun _ => m).
Proof.
  intros Hm w. destruct (m w) as [[a w']|] eqn:E; [|by apply Hm in E].
  exists 0%nat, a, w'. done.
Qed.

Lemma terminates_ret {A} (a : A) : terminates (fun _ => mret a).
Proof. by apply terminates_const. Qed.

Lemma terminates_bind {A B} (m : nat -> M A) (k : nat -> A -> M B) :
  terminates m -> (forall a, terminates (fun n => k n a)) ->
  terminates (fun n => m n ≫= k n).
Proof.
  intros Hm Hk w. destruct (Hm w) as (n1 & a & w1 & H1).
  destruct (Hk a w1) as (n2 & b & w2 & H2). exists (n1 `max` n2)%nat, b, w2. intros n' Hn.
  unfold mbind, Eff_bind. rewrite H1 by lia. apply H2. lia.
Qed.

Lemma terminates_ebind {A B} (m : nat -> M (result goerr A))
    (k : nat -> A -> M (result goerr B)) :
  terminates m -> (forall a, terminates (fun n => k n a)) ->
  terminates (fun n => ebind (m n) (k n)).
Proof.
  intros Hm Hk. apply (terminates_bind m (fun n r => match r with
    | Ok a => k n a | Err e => mret (Err e) end)); [done|].
  intros [a|e]; [done|apply terminates_ret].
Qed.
End Effects.

Notation "'let!' x ':=' m 'in' k" := (ebind m (fun x => k))
  (at level 10, x name, m at level 100, k at level 200) : go_scope.

(** [return err] with [err] possibly nil. *)
Definition of_error (e : option goerr) : result goerr unit :=
  match e with None => Ok tt | Some e => Err e end.
Lemma of_error_err o e : of_error o = Err e -> o = Some e.
Proof. destruct o; [by intros [= ->]|done]. Qed.

(** ** Walking a computation *)

Ltac resp_walk leaf :=
  repeat lazymatch goal with
    | |- resp _ (mret _) => apply resp_ret; apply _
    | |- resp _ (throw _) => unfold throw
    | |- resp _ (ebind _ _) => apply resp_ebind; [apply _|apply _| |intros]
    | |- resp _ (_ ≫= _) => apply resp_bind; [apply _| |intros]
    | |- resp _ (if ?b then _ else _) => destruct b
    | |- resp _ (match ?x with _ => _ end) => destruct x
    | |- resp _ (let '(_, _) := ?x in _) => destruct x
    | |- _ => leaf
    end.

Ltac ends_walk leaf :=
  repeat lazymatch goal with
    | |- terminates (fun _ => mret _) => apply terminates_ret
    | |- terminates (fun _ => throw _) => unfold throw
    | |- terminates (fun n => ebind _ _) => refine (terminates_ebind (fun n => _) (fun n a => _) _ _); [|intros]
    | |- terminates (fun n => _ ≫= _) => refine (terminates_bind (fun n => _) (fun n a => _) _ _); [|intros]
    | |- terminates (fun _ => if ?b then _ else _) => destruct b
    | |- terminates (fun _ => match ?x with _ => _ end) => destruct x
    | |- _ => leaf
    end.
