(* ===== verification/Names.v ===== *)
(** * Names: DNS labels, bucket names and public host names

    [internal/resourcename], [internal/bucketname] and
    [internal/publichostname].  Go's [range] over a string yields runes; the
    accepted classes are ASCII, so testing every byte decides the same set. *)

From S2P Require Import Prelude.
From Stdlib Require Import Ascii.

Inductive error := ErrInvalidName | ErrInvalidBucket | ErrInvalidHostname | ErrUnexpectedPort
                 | ErrPublicSuffix | ErrNotApex.

Definition lower_alnum (c : ascii) : bool := is_lower c || is_digit c.

Definition first_byte (s : string) : option ascii :=
  match s with String c _ => Some c | EmptyString => None end.
Fixpoint last_byte (s : string) : option ascii :=
  match s with
  | EmptyString => None
  | String c EmptyString => Some c
  | String _ s' => last_byte s'
  end.
Definition opt_test (p : ascii -> bool) (c : option ascii) : bool :=
  match c with Some c => p c | None => false end.

Definition hyphen : ascii := "-"%char.
Definition dot : ascii := "."%char.

(** [^[a-z0-9](?:[a-z0-9-]{0,61}[a-z0-9])?$] *)
Definition label (value : string) : bool :=
  (1 <=? zlen value) && (zlen value <=? 63)
  && opt_test lower_alnum (first_byte value) && opt_test lower_alnum (last_byte value)
  && str_forall (fun c => lower_alnum c || Ascii.eqb c hyphen) value.

(** [resourcename.Validate] *)
Definition validateResource (value : string) : result error unit :=
  if label value then Ok tt else Err ErrInvalidName.

(** ** IPv4 literals, as [net.ParseIP] and [netip.ParseAddr] accept them *)

Fixpoint dec_value (acc : Z) (s : string) : Z :=
  match s with
  | EmptyString => acc
  | String c s' => dec_value (10 * acc + (Z.of_N (byte_code c) - 48)) s'
  end.

Definition ipv4_field (s : string) : bool :=
  (1 <=? zlen s) && (zlen s <=? 3) && str_forall is_digit s
  && (dec_value 0 s <=? 255)
  && ((zlen s =? 1) || negb (opt_test (fun c => Ascii.eqb c "0"%char) (first_byte s))).

Definition is_ipv4 (s : string) : bool :=
  let fs := split dot s in
  (length fs =? 4)%nat && forallb ipv4_field fs.

(** ** Bucket names *)

(** [bucketname.Validate].  An IPv6 literal has a colon, which the character
    loop refuses, so only IPv4 literals need the explicit test. *)
Definition validateBucket (value : string) : result error unit :=
  if (zlen value <? 3) || (63 <? zlen value) then Err ErrInvalidBucket
  else if is_ipv4 value || contains ".." value || contains ".-" value || contains "-." value
  then Err ErrInvalidBucket
  else if str_forall (fun c => lower_alnum c || Ascii.eqb c hyphen || Ascii.eqb c dot) value
          && opt_test lower_alnum (first_byte value) && opt_test lower_alnum (last_byte value)
  then Ok tt else Err ErrInvalidBucket.

(** ** Public host names *)

Definition validLabel (l : string) : bool :=
  if (zlen l <? 1) || (63 <? zlen l)
     || opt_test (Ascii.eqb hyphen) (first_byte l) || opt_test (Ascii.eqb hyphen) (last_byte l)
  then false
  else str_forall (fun c => lower_alnum c || Ascii.eqb c hyphen) l.

Fixpoint contains_any (cs : list ascii) (s : string) : bool :=
  match s with
  | EmptyString => false
  | String c s' => bool_decide (c ∈ cs) || contains_any cs s'
  end.

(** The golang.org/x/net tables and Unicode lower-casing are third-party data:
    parameters of the model. *)
Class HostnameTables := {
  strings_ToLower : string -> string;
  idna_ToASCII : string -> option string;
  EffectiveTLDPlusOne : string -> option string
}.

Section Hostname.
Context `{HostnameTables}.

(** [publichostname.Normalize] *)
Definition Normalize (value : string) : result error string :=
  let trimmed := trim_space value in
  if bool_decide (trimmed = "") || opt_test (Ascii.eqb dot) (last_byte trimmed)
     || contains_any ["/"; "\"; "@"; "?"; "#"; " "]%char trimmed
  then Err ErrInvalidHostname
  else match idna_ToASCII (strings_ToLower trimmed) with
       | None => Err ErrInvalidHostname
       | Some ascii =>
           if (253 <? zlen ascii) || negb (contains "." ascii) then Err ErrInvalidHostname
           else if is_ipv4 ascii then Err ErrInvalidHostname
           else if forallb validLabel (split dot ascii) then Ok ascii
           else Err ErrInvalidHostname
       end.

(** [net.SplitHostPort] on a Host header.  The bracketed form [[h]:p] and the
    one-colon form [h:p] split; anything else is an error, and the header is
    then used whole. *)
Definition colon : ascii := ":"%char.

Definition splitHostPort (s : string) : option (string * string) :=
  match s with
  | String "["%char s' =>
      let '(h, r, found) := cut "]"%char s' in
      if found
      then match r with
           | String c p => if Ascii.eqb c colon && negb (contains ":" p)
                              && negb (contains "[" h) && negb (contains_any ["["; "]"]%char p)
                           then Some (h, p) else None
           | EmptyString => None
           end
      else None
  | _ =>
      let '(h, p, found) := cut colon s in
      if found && negb (contains ":" p) && negb (contains_any ["["; "]"]%char s)
      then Some (h, p) else None
  end.

Definition NormalizeHostHeader (value : string) : result error string :=
  match splitHostPort value with
  | Some (h, port) => if bool_decide (port = "443") then Normalize h else Err ErrUnexpectedPort
  | None => Normalize value
  end.

Definition IsApex (hostname : string) : result error bool :=
  let? normalized := Normalize hostname in
  match EffectiveTLDPlusOne normalized with
  | None => Err ErrPublicSuffix
  | Some root => Ok (bool_decide (normalized = root))
  end.

Definition NormalizeApex (value : string) : result error string :=
  let? normalized := Normalize value in
  let? ok := IsApex normalized in
  if ok then Ok normalized else Err ErrNotApex.

End Hostname.

(** ** Lemmas *)

Definition host_byte (c : ascii) : bool := lower_alnum c || Ascii.eqb c hyphen || Ascii.eqb c dot.

Lemma host_byte_graphic c : host_byte c = true -> graphic c = true.
Proof. destruct c as [[] [] [] [] [] [] [] []]; vm_compute; auto. Qed.

Lemma host_byte_safe c :
  host_byte c = true -> bool_decide (c ∈ ["/"; "\"; "@"; "?"; "#"; " "]%char) = false.
Proof. destruct c as [[] [] [] [] [] [] [] []]; vm_compute; auto. Qed.

Lemma validLabel_bytes l :
  validLabel l = true -> str_forall (fun c => lower_alnum c || Ascii.eqb c hyphen) l = true.
Proof. unfold validLabel. by destruct (_ || _ || _ || _). Qed.

Lemma validLabel_nonempty l : validLabel l = true -> l <> "".
Proof. by intros H ->. Qed.

Lemma labels_bytes s :
  forallb validLabel (split dot s) = true -> str_forall host_byte s = true.
Proof.
  intros H. apply (str_forall_split (fun c => lower_alnum c || Ascii.eqb c hyphen)).
  revert H. induction (split dot s) as [|l ls IH]; simpl; [done|].
  intros [Hl Hls]%andb_true_iff. rewrite validLabel_bytes; auto.
Qed.

Lemma contains_any_safe s :
  str_forall host_byte s = true -> contains_any ["/"; "\"; "@"; "?"; "#"; " "]%char s = false.
Proof.
  induction s as [|c s IH]; [done|]. simpl. intros [Hc Hs]%andb_true_iff.
  pose proof (host_byte_safe c Hc) as Hb. rewrite Hb. simpl. auto.
Qed.

(** A string that ends with the separator has an empty last piece. *)
Lemma split_last_empty sep s :
  last_byte s = Some sep -> last (split sep s) = Some "".
Proof.
  induction s as [|c s IH]; [done|]. destruct s as [|c' s].
  - simpl. intros [= ->]. by rewrite Ascii.eqb_refl.
  - intros Hl%IH. remember (String c' s) as t eqn:Ht.
    pose proof (join_split sep t) as Hj. simpl.
    destruct (split sep t) as [|p ps]; [done|].
    destruct (Ascii.eqb c sep); [done|].
    destruct ps; [|done]. simpl in *. simplify_eq.
Qed.

Lemma labels_no_trailing_dot s :
  forallb validLabel (split dot s) = true -> opt_test (Ascii.eqb dot) (last_byte s) = false.
Proof.
  intros H. destruct (last_byte s) as [c|] eqn:E; [|done]. unfold opt_test.
  destruct (Ascii.eqb_spec dot c) as [<-|]; [|done].
  apply split_last_empty, last_Some_elem_of, list_elem_of_In in E.
  rewrite forallb_forall in H. by specialize (H _ E).
Qed.

Section Laws.
Context `{HostnameTables}.

(** ToASCII returns a name in its ASCII form: lower-casing and converting that
    form again leaves it unchanged. *)
Hypothesis idna_fixpoint : forall s a,
  idna_ToASCII (strings_ToLower s) = Some a -> idna_ToASCII (strings_ToLower a) = Some a.

Lemma Normalize_ok v h :
  Normalize v = Ok h ->
  (exists s, idna_ToASCII (strings_ToLower s) = Some h) /\ zlen h <= 253 /\
  contains "." h = true /\ is_ipv4 h = false /\ forallb validLabel (split dot h) = true.
Proof.
  unfold Normalize. intros Hn. destruct_ifs. destruct (idna_ToASCII _) eqn:E; [|done].
  destruct_ifs. btrue. split; [by eexists|]. split_and!; auto.
Qed.

Lemma Normalize_idem v h : Normalize v = Ok h -> Normalize h = Ok h.
Proof.
  intros ([s Hs] & Hlen & Hdot & Hip & Hlab)%Normalize_ok.
  assert (Hb : str_forall host_byte h = true) by by apply labels_bytes.
  unfold Normalize. rewrite trim_space_graphic
    by (eapply str_forall_impl; [apply host_byte_graphic|done]).
  rewrite labels_no_trailing_dot, contains_any_safe, (idna_fixpoint _ _ Hs), Hdot, Hip, Hlab
    by done.
  rewrite bool_decide_eq_false_2 by by intros ->.
  assert ((253 <? zlen h) = false) as -> by by apply Z.ltb_ge. done.
Qed.

Lemma NormalizeApex_idem v h : NormalizeApex v = Ok h -> NormalizeApex h = Ok h.
Proof.
  unfold NormalizeApex. intros (a & Ha & (ok & Hok & Hr)%rbind_ok)%rbind_ok.
  destruct ok; simplify_eq. rewrite (Normalize_idem _ _ Ha). simpl. by rewrite Hok.
Qed.

End Laws.
