(* ===== verification/ServiceConfig.v ===== *)
(** * Service configuration

    [internal/servicesource] and [internal/serviceconfig]: the desired state of
    a service, its validation and normalisation, and the canonical JSON whose
    SHA-256 is the configuration hash that deployments are compared by. *)

From S2P Require Import Prelude Names.
From Stdlib Require Import Ascii.

(** ** Sources *)

Inductive Kind := DockerImageUpload | Unconfigured | PublicImage | PrivateImage
                | OtherKind (name : string).
#[export] Instance Kind_eq_dec : EqDecision Kind.
Proof. solve_decision. Defined.

Record DockerUpload := mkDockerUpload {
  Repository : string; Branch : string; Workflows : list string;
  Previews : bool; PreviewDomain : string
}.

Record Source := mkSource {
  Type_ : Kind; AutoUpdate : bool; MinimumReleaseAgeDays : Z;
  Image : option string;          (* Image.Reference *)
  DockerUpload_ : option DockerUpload
}.

Inductive error :=
| ErrSource (what : string)
| ErrHostname (e : Names.error)
| ErrSnapshot (what : string).

(** A parsed image reference of go.podman.io/image. *)
Record DockerRef := mkDockerRef { ref_Name : string; ref_String : string; ref_Digested : bool }.

(** ** Snapshots *)

Record SecretReference := mkSecret { EnvironmentName : string; SecretID : string }.
Record VolumeMount := mkMount { VolumeID : string; ContainerPath : string }.
Record HealthCheck := mkHealth { Port : Z; Path : string; TimeoutSeconds : Z }.
Record BeforeDeploy := mkBefore { BeforeCommand : string; CloudflareHostnames : list string }.
Record PortForward := mkForward { ForwardRepository : string; ForwardWorkflows : list string }.

Record Snapshot := mkSnapshot {
  Source_ : Source;
  BeforeDeploy_ : option BeforeDeploy;
  PortForward_ : option PortForward;
  Command : list string;
  Args : list string;
  Environment : gmap string string;
  SecretReferences : list SecretReference;
  HealthCheck_ : option HealthCheck;
  CPUMillicores : Z;
  MemoryMaxBytes : Z;
  VolumeMounts : list VolumeMount
}.

(** Third-party parsers and codecs the code calls. *)
Class ConfigTables := {
  ParseDockerRef : string -> option DockerRef;
  digest_pin : DockerRef -> string -> option string;
  request_path_ok : string -> bool;
  json_Marshal : Snapshot -> string;
  json_Unmarshal : string -> option Snapshot;
  sha256_hex : string -> string
}.

Definition MaximumReleaseAgeDays : Z := 36500.
Definition DefaultHealthTimeoutSeconds : Z := 60.
Definition maximumBeforeDeployBytes : Z := 256 * 1024.
Definition maximumCloudflareHostnames : nat := 30.
Definition maximumEnvironmentBytes : Z := 256 * 1024.
Definition maximumEnvironmentVariables : Z := 1024.
Definition maximumProcessArguments : Z := 1024.
Definition maximumProcessBytes : Z := 256 * 1024.

Definition slash : ascii := "/"%char.
Definition nul : ascii := ascii_of_N 0.

(** [[a-z0-9](?:[a-z0-9._-]*[a-z0-9])?] *)
Definition repo_byte (c : ascii) : bool :=
  lower_alnum c || Ascii.eqb c dot || Ascii.eqb c "_"%char || Ascii.eqb c hyphen.
Definition repo_part (s : string) : bool :=
  opt_test lower_alnum (first_byte s) && opt_test lower_alnum (last_byte s)
  && str_forall repo_byte s.

Definition ValidUploadRepository (value : string) : bool :=
  let '(owner, name, found) := cut slash value in
  found && repo_part owner && repo_part name.


(** [^[^/\\\x00]+\.ya?ml$] *)
Definition ValidWorkflowName (value : string) : bool :=
  negb (contains_any [slash; "\"%char; nul] value)
  && ((has_suffix ".yml" value && (5 <=? zlen value))
      || (has_suffix ".yaml" value && (6 <=? zlen value))).

(** [^[A-Za-z_][A-Za-z0-9_]*$] *)
Definition name_start (c : ascii) : bool := is_upper c || is_lower c || Ascii.eqb c "_"%char.
Definition environmentName (s : string) : bool :=
  opt_test name_start (first_byte s) && str_forall (fun c => name_start c || is_digit c) s.

(** The orders of the two [sort.Slice] calls. *)
Abbreviation secret_le := (two_key_le EnvironmentName SecretID).
Abbreviation mount_le := (two_key_le ContainerPath VolumeID).

Section Config.
Context `{HostnameTables} `{ConfigTables}.

Definition lift_host {A} (m : result Names.error A) : result error A :=
  match m with Ok a => Ok a | Err e => Err (ErrHostname e) end.

(** The workflow loops of [servicesource.Normalize] and [normalizePortForward]:
    trim, validate, drop repetitions. *)
Definition normalizeWorkflows (values : list string) : option (list string) :=
  let names := map trim_space values in
  if forallb ValidWorkflowName names then Some (dedup [] names) else None.

(** [servicesource.Normalize] *)
Definition normalizeSource (input : Source) : result error Source :=
  match Type_ input with
  | PublicImage | PrivateImage =>
      match Image input, DockerUpload_ input with
      | Some reference, None =>
          if (MinimumReleaseAgeDays input <? 0)
             || (MaximumReleaseAgeDays <? MinimumReleaseAgeDays input)
          then Err (ErrSource "minimum release age")
          else match ParseDockerRef (trim_space reference) with
               | None => Err (ErrSource "invalid image reference")
               | Some parsed =>
                   Ok (mkSource (Type_ input) (AutoUpdate input) (MinimumReleaseAgeDays input)
                         (Some (ref_String parsed)) (DockerUpload_ input))
               end
      | _, _ => Err (ErrSource "image source must contain only image settings")
      end
  | DockerImageUpload =>
      match DockerUpload_ input, Image input with
      | Some upload, None =>
          if AutoUpdate input || negb (MinimumReleaseAgeDays input =? 0)
          then Err (ErrSource "upload source must contain only upload settings")
          else
            let repository := strings_ToLower (trim_space (Repository upload)) in
            let branch := trim_space (Branch upload) in
            if negb (ValidUploadRepository repository)
            then Err (ErrSource "upload repository must be a lowercase owner/name")
            else if bool_decide (branch = "") || has_prefix "/" branch || has_suffix "/" branch
                    || contains ".." branch
                    || contains_any ["~"; "^"; ":"; "?"; "*"; "["; "\"; nul]%char branch
            then Err (ErrSource "upload production branch is invalid")
            else match normalizeWorkflows (Workflows upload) with
                 | None => Err (ErrSource "upload workflows")
                 | Some workflows =>
                     let? previewDomain :=
                       if Previews upload then lift_host (NormalizeApex (PreviewDomain upload))
                       else if bool_decide (trim_space (PreviewDomain upload) = "") then Ok ""
                       else Err (ErrSource "preview domain without previews") in
                     Ok (mkSource (Type_ input) (AutoUpdate input) (MinimumReleaseAgeDays input)
                           (Image input)
                           (Some (mkDockerUpload repository branch workflows (Previews upload)
                                    previewDomain)))
                 end
      | _, _ => Err (ErrSource "upload source must contain only upload settings")
      end
  | Unconfigured =>
      match Image input, DockerUpload_ input with
      | None, None =>
          if AutoUpdate input || negb (MinimumReleaseAgeDays input =? 0)
          then Err (ErrSource "unconfigured source cannot contain settings")
          else Ok input
      | _, _ => Err (ErrSource "unconfigured source cannot contain settings")
      end
  | OtherKind _ => Err (ErrSource "unsupported service source type")
  end.

Definition ImageReference (source : Source) : string := default "" (Image source).

Definition IsRemoteImage (source : Source) : bool :=
  bool_decide (Type_ source = PublicImage) || bool_decide (Type_ source = PrivateImage).
Definition IsImage (source : Source) : bool := IsRemoteImage source.

(** [normalizePortForward] *)
Definition normalizePortForward (input : option PortForward) : result error (option PortForward) :=
  match input with
  | None => Ok None
  | Some f =>
      let repository := strings_ToLower (trim_space (ForwardRepository f)) in
      if bool_decide (repository = "") && bool_decide (ForwardWorkflows f = []) then Ok None
      else if negb (ValidUploadRepository repository)
      then Err (ErrSnapshot "port-forward repository must be a lowercase owner/name")
      else match normalizeWorkflows (ForwardWorkflows f) with
           | None => Err (ErrSnapshot "port-forward workflows")
           | Some workflows => Ok (Some (mkForward repository workflows))
           end
  end.

(** [normalizeBeforeDeploy]; the source argument is unused in the code too. *)
Definition normalizeBeforeDeploy (input : option BeforeDeploy) : result error (option BeforeDeploy) :=
  match input with
  | None => Ok None
  | Some b =>
      let command := trim_space (BeforeCommand b) in
      if contains_any [nul] command || (maximumBeforeDeployBytes <? zlen command)
      then Err (ErrSnapshot "before-deploy command is invalid or exceeds 256 KiB")
      else
        let? hostnames := lift_host (mapM_res Names.Normalize (CloudflareHostnames b)) in
        let unique := dedup [] hostnames in
        if bool_decide (maximumCloudflareHostnames < length unique)%nat
        then Err (ErrSnapshot "too many before-deploy hostnames")
        else
          let sorted := merge_sort String.le unique in
          if bool_decide (command = "") && bool_decide (sorted = []) then Ok None
          else Ok (Some (mkBefore command sorted))
  end.

Definition validateProcess (command arguments : list string) : bool :=
  (Z.of_nat (length command) <=? maximumProcessArguments)
  && (Z.of_nat (length arguments) <=? maximumProcessArguments)
  && forallb (fun v => negb (contains_any [nul] v)) (command ++ arguments)
  && (foldr Z.add 0 (map zlen (command ++ arguments)) <=? maximumProcessBytes).

Definition environmentBytes (environment : gmap string string) (secrets : list SecretReference) : Z :=
  foldr Z.add 0 (map (fun '(k, v) => zlen k + zlen v) (map_to_list environment))
  + foldr Z.add 0 (map (fun r => zlen (EnvironmentName r) + zlen (SecretID r)) secrets).

(** The secret loop: [seen] holds the environment names and the earlier
    secrets' names. *)
Fixpoint secrets_ok (seen : gset string) (secrets : list SecretReference) : bool :=
  match secrets with
  | [] => true
  | r :: rest =>
      environmentName (EnvironmentName r) && negb (bool_decide (SecretID r = ""))
      && negb (contains_any [nul] (SecretID r))
      && negb (has_prefix "PLATFORMD_" (EnvironmentName r))
      && negb (bool_decide (EnvironmentName r ∈ seen))
      && secrets_ok ({[EnvironmentName r]} ∪ seen) rest
  end.

Definition validateEnvironment (environment : gmap string string) (secrets : list SecretReference) : bool :=
  (Z.of_nat (size environment) + Z.of_nat (length secrets) <=? maximumEnvironmentVariables)
  && forallb (fun '(name, value) =>
                environmentName name && negb (has_prefix "PLATFORMD_" name)
                && negb (contains_any [nul] value)) (map_to_list environment)
  && secrets_ok (dom environment) secrets
  && (environmentBytes environment secrets <=? maximumEnvironmentBytes).

(** [strings.HasPrefix(p, "/") && p != "/" && path.Clean(p) == p] *)
Definition clean_absolute (p : string) : bool :=
  match p with
  | String c rest =>
      Ascii.eqb c slash
      && forallb (fun e => negb (bool_decide (e = "") || bool_decide (e = ".")
                                 || bool_decide (e = ".."))) (split slash rest)
  | EmptyString => false
  end.

Fixpoint mounts_ok (ids paths : gset string) (mounts : list VolumeMount) : bool :=
  match mounts with
  | [] => true
  | v :: rest =>
      negb (bool_decide (VolumeID v = "")) && negb (contains_any [nul] (VolumeID v))
      && clean_absolute (ContainerPath v)
      && negb (bool_decide (VolumeID v ∈ ids)) && negb (bool_decide (ContainerPath v ∈ paths))
      && mounts_ok ({[VolumeID v]} ∪ ids) ({[ContainerPath v]} ∪ paths) rest
  end.
Definition validateVolumeMounts (mounts : list VolumeMount) : bool := mounts_ok ∅ ∅ mounts.

Definition healthOk (h : HealthCheck) : bool :=
  (1 <=? Port h) && (Port h <=? 65535)
  && request_path_ok (Path h) && has_prefix "/" (Path h)
  && (1 <=? TimeoutSeconds h) && (TimeoutSeconds h <=? 3600).

Definition validateSnapshot (s : Snapshot) : bool :=
  validateProcess (Command s) (Args s)
  && validateEnvironment (Environment s) (SecretReferences s)
  && match HealthCheck_ s with None => true | Some h => healthOk h end
  && (0 <=? CPUMillicores s) && (0 <=? MemoryMaxBytes s)
  && validateVolumeMounts (VolumeMounts s).

(** [serviceconfig.Normalize].  Nil and empty slices or maps coincide after
    normalisation, which always returns non-nil ones. *)
Definition Normalize (input : Snapshot) : result error Snapshot :=
  let? source := normalizeSource (Source_ input) in
  let? beforeDeploy := normalizeBeforeDeploy (BeforeDeploy_ input) in
  let? portForward := normalizePortForward (PortForward_ input) in
  let healthCheck := match HealthCheck_ input with
                     | None => None
                     | Some h => Some (mkHealth (Port h) (Path h)
                                   (if TimeoutSeconds h =? 0 then DefaultHealthTimeoutSeconds
                                    else TimeoutSeconds h))
                     end in
  let checked := mkSnapshot source beforeDeploy portForward (Command input) (Args input)
                   (Environment input) (SecretReferences input) healthCheck
                   (CPUMillicores input) (MemoryMaxBytes input) (VolumeMounts input) in
  if validateSnapshot checked
  then Ok (mkSnapshot source beforeDeploy portForward (Command input) (Args input)
             (Environment input) (merge_sort secret_le (SecretReferences input)) healthCheck
             (CPUMillicores input) (MemoryMaxBytes input)
             (merge_sort mount_le (VolumeMounts input)))
  else Err (ErrSnapshot "invalid snapshot").

Definition without_port_forward (s : Snapshot) : Snapshot :=
  mkSnapshot (Source_ s) (BeforeDeploy_ s) None (Command s) (Args s) (Environment s)
    (SecretReferences s) (HealthCheck_ s) (CPUMillicores s) (MemoryMaxBytes s) (VolumeMounts s).

(** [serviceconfig.Canonical]: normalised snapshot, JSON, hash. *)
Definition Canonical (input : Snapshot) : result error (Snapshot * string * string) :=
  let? normalized := Normalize input in
  let encoded := json_Marshal (without_port_forward normalized) in
  Ok (normalized, encoded, sha256_hex encoded).

Definition PinnedReference (imageReference imageDigest : string) : result error string :=
  match ParseDockerRef (trim_space imageReference) with
  | None => Err (ErrSnapshot "invalid image reference")
  | Some named => match digest_pin named imageDigest with
                  | None => Err (ErrSnapshot "invalid image digest")
                  | Some pinned => Ok pinned
                  end
  end.

Definition IsDigestReference (imageReference : string) : bool :=
  match ParseDockerRef (trim_space imageReference) with
  | None => false
  | Some named => ref_Digested named
  end.

End Config.

(** ** Laws of the third-party parsers the proofs rely on *)

(** [ConfigLaws] states documented behaviour: a parsed reference prints to a
    string that parses to itself, ToLower leaves ASCII without capitals alone,
    ToASCII is a projection, and decoding inverts encoding. *)
Class ConfigLaws `{HostnameTables} `{ConfigTables} : Prop := {
  law_reference : forall s r, ParseDockerRef s = Some r ->
                    ParseDockerRef (trim_space (ref_String r)) = Some r;
  law_lower : forall s, str_forall (fun c => negb (is_upper c) && graphic c) s = true ->
                    strings_ToLower s = s;
  law_idna : forall s a, idna_ToASCII (strings_ToLower s) = Some a ->
                    idna_ToASCII (strings_ToLower a) = Some a;
  law_json : forall s, json_Unmarshal (json_Marshal s) = Some s
}.

#[export] Instance secret_antisymm : AntiSymm (=) secret_le.
Proof. apply two_key_le_antisymm. intros [] []; simpl; congruence. Qed.
#[export] Instance mount_antisymm : AntiSymm (=) mount_le.
Proof. apply two_key_le_antisymm. intros [] []; simpl; congruence. Qed.

Lemma sum_perm (l1 l2 : list Z) : l1 ≡ₚ l2 -> foldr Z.add 0 l1 = foldr Z.add 0 l2.
Proof. induction 1; simpl; lia. Qed.

(** Order-free readings of the loops. *)
Lemma secrets_ok_spec seen l :
  secrets_ok seen l = true <->
  Forall (fun r => environmentName (EnvironmentName r) = true /\ SecretID r <> "" /\
                   contains_any [nul] (SecretID r) = false /\
                   has_prefix "PLATFORMD_" (EnvironmentName r) = false /\
                   EnvironmentName r ∉ seen) l /\
  NoDup (EnvironmentName <$> l).
Proof.
  revert seen. induction l as [|r l IH]; intros seen; simpl.
  - split; [by repeat constructor|done].
  - rewrite !andb_true_iff, !negb_true_iff, !bool_decide_eq_false, IH.
    rewrite Forall_cons, NoDup_cons, list_elem_of_fmap, !Forall_forall.
    split.
    + intros [[[[[? ?] ?] ?] ?] [Hall Hnd]].
      split_and!; try done.
      * intros x Hx. specialize (Hall x Hx). set_solver.
      * intros (y & Hy & Hin). specialize (Hall y Hin). set_solver.
    + intros [[(? & ? & ? & ? & ?) Hall] [Hnot Hnd]]. split_and!; try done.
      intros x Hx. destruct (Hall x Hx) as (? & ? & ? & ? & ?). split_and!; try done.
      assert (EnvironmentName x <> EnvironmentName r) by naive_solver. set_solver.
Qed.

Lemma secrets_ok_perm seen l1 l2 : l1 ≡ₚ l2 -> secrets_ok seen l1 = secrets_ok seen l2.
Proof.
  intros Hp. apply eq_true_iff_eq. rewrite !secrets_ok_spec. by rewrite Hp.
Qed.

Lemma mounts_ok_spec ids paths l :
  mounts_ok ids paths l = true <->
  Forall (fun v => VolumeID v <> "" /\ contains_any [nul] (VolumeID v) = false /\
                   clean_absolute (ContainerPath v) = true /\
                   VolumeID v ∉ ids /\ ContainerPath v ∉ paths) l /\
  NoDup (VolumeID <$> l) /\ NoDup (ContainerPath <$> l).
Proof.
  revert ids paths. induction l as [|r l IH]; intros ids paths; simpl.
  - split; [by repeat constructor|done].
  - rewrite !andb_true_iff, !negb_true_iff, !bool_decide_eq_false, IH.
    rewrite Forall_cons, !NoDup_cons, !list_elem_of_fmap, !Forall_forall.
    split.
    + intros [[[[[? ?] ?] ?] ?] (Hall & Hnd & Hnp)].
      split_and!; try done.
      * intros x Hx. specialize (Hall x Hx). set_solver.
      * intros (y & Hy & Hin). specialize (Hall y Hin). set_solver.
      * intros (y & Hy & Hin). specialize (Hall y Hin). set_solver.
    + intros [[(? & ? & ? & ? & ?) Hall] [[Hnot Hnd] [Hnot' Hnp]]]. split_and!; try done.
      intros x Hx. destruct (Hall x Hx) as (? & ? & ? & ? & ?). split_and!; try done.
      * assert (VolumeID x <> VolumeID r) by naive_solver. set_solver.
      * assert (ContainerPath x <> ContainerPath r) by naive_solver. set_solver.
Qed.

Lemma mounts_ok_perm ids paths l1 l2 :
  l1 ≡ₚ l2 -> mounts_ok ids paths l1 = mounts_ok ids paths l2.
Proof.
  intros Hp. apply eq_true_iff_eq. rewrite !mounts_ok_spec. by rewrite Hp.
Qed.

Lemma validateEnvironment_perm env l1 l2 :
  l1 ≡ₚ l2 -> validateEnvironment env l1 = validateEnvironment env l2.
Proof.
  intros Hp. unfold validateEnvironment, environmentBytes.
  rewrite (secrets_ok_perm _ _ _ Hp), (Permutation_length Hp).
  by rewrite (sum_perm (map _ l1) (map _ l2)) by by apply Permutation_map.
Qed.

Section Idempotence.
Context `{!HostnameTables, !ConfigTables, !ConfigLaws}.

Lemma normalizeWorkflows_idem l ws :
  normalizeWorkflows l = Some ws -> normalizeWorkflows ws = Some ws.
Proof.
  unfold normalizeWorkflows. destruct (forallb _ _) eqn:E; [|done]. intros [= <-].
  assert (Hmap : map trim_space (dedup [] (map trim_space l)) = dedup [] (map trim_space l)).
  { rewrite <- (map_id (dedup [] (map trim_space l))) at 2. apply map_ext_in.
    intros x Hx%list_elem_of_In. apply dedup_elem in Hx as [Hx _].
    apply list_elem_of_fmap in Hx as (y & -> & _). apply trim_space_idem. }
  rewrite Hmap, dedup_idem.
  assert (forallb ValidWorkflowName (dedup [] (map trim_space l)) = true) as ->; [|done].
  rewrite forallb_forall in *. intros x Hx%list_elem_of_In.
  apply dedup_elem in Hx as [Hx _]. by apply E, list_elem_of_In.
Qed.

Lemma repo_byte_lower c : repo_byte c || Ascii.eqb c slash = true ->
  negb (is_upper c) && graphic c = true.
Proof. destruct c as [[] [] [] [] [] [] [] []]; vm_compute; auto. Qed.

Lemma cut_bytes p sep s l r :
  cut sep s = (l, r, true) -> str_forall p l = true -> str_forall p r = true ->
  str_forall (fun c => p c || Ascii.eqb c sep) s = true.
Proof.
  revert l. induction s as [|c s IH]; intros l; simpl; [done|].
  destruct (Ascii.eqb_spec c sep) as [->|Hne].
  - intros [= <- <-] _ Hr. simpl. rewrite orb_true_r. simpl.
    eapply str_forall_impl; [|done]. intros c' ->. done.
  - destruct (cut sep s) as [[l' r'] f] eqn:E. intros [= <- <- ->]. simpl.
    intros [Hc Hl]%andb_true_iff Hr. rewrite Hc. simpl. eauto.
Qed.

Lemma repo_fix r :
  ValidUploadRepository r = true -> strings_ToLower (trim_space r) = r.
Proof.
  unfold ValidUploadRepository. destruct (cut slash r) as [[o n] f] eqn:E.
  intros [[-> Ho]%andb_true_iff Hn]%andb_true_iff. unfold repo_part in *. btrue.
  assert (Hall : str_forall (fun c => negb (is_upper c) && graphic c) r = true).
  { eapply str_forall_impl; [apply repo_byte_lower|]. by eapply cut_bytes. }
  rewrite trim_space_graphic; [by apply law_lower|].
  eapply str_forall_impl; [|done]. by intros c [_ ?]%andb_true_iff.
Qed.

Lemma normalizeSource_idem s t : normalizeSource s = Ok t -> normalizeSource t = Ok t.
Proof.
  intros Hn. unfold normalizeSource in Hn. destruct s as [ty au age im up]; simpl in Hn.
  destruct ty; try done; destruct im as [im|], up as [up|]; try done.
  - (* upload *)
    destruct (au || _) eqn:E1; [done|]. destruct (negb (ValidUploadRepository _)) eqn:E2; [done|].
    destruct (bool_decide _ || _ || _ || _ || _) eqn:E3; [done|].
    destruct (normalizeWorkflows _) as [ws|] eqn:E4; [|done].
    apply rbind_ok in Hn as (pd & Hpd & Hn). simplify_eq/=.
    apply negb_false_iff in E2. unfold normalizeSource; simpl.
    rewrite E1, (repo_fix _ E2), E2, trim_space_idem, E3. simpl.
    rewrite (normalizeWorkflows_idem _ _ E4).
    destruct (Previews up); simpl.
    + destruct (NormalizeApex (PreviewDomain up)) eqn:E5; simplify_eq/=.
      by rewrite (NormalizeApex_idem law_idna _ _ E5).
    + by case_bool_decide; simplify_eq/=.
  - destruct (au || _) eqn:E1; simplify_eq. unfold normalizeSource; simpl. by rewrite E1.
  - destruct (_ || _) eqn:E1; [done|].
    destruct (ParseDockerRef _) eqn:E2; simplify_eq.
    unfold normalizeSource; simpl. rewrite E1. by erewrite law_reference.
  - destruct (_ || _) eqn:E1; [done|].
    destruct (ParseDockerRef _) eqn:E2; simplify_eq.
    unfold normalizeSource; simpl. rewrite E1. by erewrite law_reference.
Qed.

Lemma normalizePortForward_idem s t :
  normalizePortForward s = Ok t -> normalizePortForward t = Ok t.
Proof.
  destruct s as [f|]; simpl; [|by intros [= <-]].
  destruct (_ && _) eqn:E1; [by intros [= <-]|].
  destruct (negb (ValidUploadRepository _)) eqn:E2; [done|].
  destruct (normalizeWorkflows _) as [ws|] eqn:E3; [|done]. intros [= <-]. simpl. btrue.
  rewrite (repo_fix _ E2), E2, (normalizeWorkflows_idem _ _ E3). simpl.
  rewrite bool_decide_eq_false_2; [done|]. intros Hr. by rewrite Hr in E2.
Qed.

Lemma normalizeBeforeDeploy_idem s t :
  normalizeBeforeDeploy s = Ok t -> normalizeBeforeDeploy t = Ok t.
Proof.
  destruct s as [b|]; simpl; [|by intros [= <-]].
  destruct (_ || _) eqn:E1; [done|]. intros (hs & Hhs & Hn)%rbind_ok.
  destruct (mapM_res _ _) eqn:E2; simplify_eq/=.
  case_bool_decide as Hlen; [done|]. destruct (_ && _) eqn:E3; simplify_eq/=; [done|].
  rewrite trim_space_idem, E1.
  set (u := merge_sort String.le (dedup [] hs)) in *.
  assert (Hperm : u ≡ₚ dedup [] hs) by apply merge_sort_Permutation.
  assert (mapM_res Names.Normalize u = Ok u) as ->.
  { apply mapM_res_fix, Forall_forall. intros x Hx.
    rewrite Hperm in Hx. apply dedup_elem in Hx as [Hx _].
    apply mapM_res_ok in E2. apply list_elem_of_lookup in Hx as [i Hi].
    destruct (Forall2_lookup_r _ _ _ _ _ E2 Hi) as (y & _ & Hy).
    by eapply Names.Normalize_idem; [apply law_idna|]. }
  simpl. assert (Hd : dedup [] u = u).
  { apply dedup_id; [|set_solver]. rewrite Hperm. apply dedup_NoDup. }
  rewrite Hd. assert (length u = length (dedup [] hs)) as Hl by by rewrite Hperm.
  rewrite bool_decide_eq_false_2 by lia.
  assert (merge_sort String.le u = u) as -> by apply (merge_sort_idem String.le).
  by rewrite E3.
Qed.

Lemma Normalize_idempotent s n : Normalize s = Ok n -> Normalize n = Ok n.
Proof.
  unfold Normalize. intros (src & Hsrc & Hn)%rbind_ok.
  apply rbind_ok in Hn as (bd & Hbd & Hn). apply rbind_ok in Hn as (pf & Hpf & Hn).
  destruct (validateSnapshot _) eqn:Hv; simplify_eq/=.
  rewrite (normalizeSource_idem _ _ Hsrc), (normalizeBeforeDeploy_idem _ _ Hbd),
    (normalizePortForward_idem _ _ Hpf). simpl.
  rewrite (merge_sort_idem secret_le), (merge_sort_idem mount_le).
  set (h := match HealthCheck_ s with Some _ => _ | None => _ end) in *.
  assert (Hh : match h with
               | Some h => Some (mkHealth (Port h) (Path h)
                   (if TimeoutSeconds h =? 0 then DefaultHealthTimeoutSeconds else TimeoutSeconds h))
               | None => None end = h).
  { unfold h. destruct (HealthCheck_ s) as [c|]; simpl; [|done].
    destruct (TimeoutSeconds c =? 0) eqn:E; simpl; [done|]. by rewrite E. }
  rewrite Hh. unfold validateSnapshot in *; simpl in *.
  rewrite (validateEnvironment_perm _ (merge_sort secret_le (SecretReferences s))
             (SecretReferences s)) by apply merge_sort_Permutation.
  unfold validateVolumeMounts in *.
  rewrite (mounts_ok_perm _ _ (merge_sort mount_le (VolumeMounts s)) (VolumeMounts s))
    by apply merge_sort_Permutation.
  by rewrite Hv.
Qed.

(** The snapshot JSON that [deploy] hands to the store decodes to a snapshot
    whose canonical form is that same JSON and hash. *)
Lemma Canonical_stable s n j h :
  Canonical s = Ok (n, j, h) ->
  Normalize n = Ok n /\
  json_Unmarshal j = Some (without_port_forward n) /\
  Canonical (without_port_forward n) = Ok (without_port_forward n, j, h).
Proof.
  unfold Canonical. intros (m & Hm & [= -> <- <-])%rbind_ok.
  pose proof (Normalize_idempotent _ _ Hm) as Hn. split; [done|]. split; [apply law_json|].
  assert (Normalize (without_port_forward n) = Ok (without_port_forward n)) as ->; [|done].
  unfold Normalize in *. apply rbind_ok in Hn as (src & Hsrc & Hn).
  apply rbind_ok in Hn as (bd & Hbd & Hn). apply rbind_ok in Hn as (pf & Hpf & Hn).
  destruct (validateSnapshot _) eqn:Hv; [|done].
  simpl. rewrite Hsrc, Hbd. simpl.
  unfold validateSnapshot in *; simpl in *. rewrite Hv. destruct n; simplify_eq/=.
  unfold without_port_forward; simpl. congruence.
Qed.

End Idempotence.

(** ** A concrete instance of the tables

    Used to evaluate the definitions on concrete inputs: names are ASCII, every
    reference without surrounding space is accepted, and a snapshot is encoded
    through its binary code. *)

#[export] Instance Kind_countable : Countable Kind.
Proof.
  refine (inj_countable'
    (fun k => match k with
              | DockerImageUpload => inl 0%nat | Unconfigured => inl 1%nat
              | PublicImage => inl 2%nat | PrivateImage => inl 3%nat | OtherKind n => inr n
              end)
    (fun c => match c with
              | inl 0%nat => DockerImageUpload | inl 1%nat => Unconfigured
              | inl 2%nat => PublicImage | inl _ => PrivateImage | inr n => OtherKind n
              end) _).
  by intros [].
Defined.

Definition source_tuple (s : Source) :=
  (Type_ s, AutoUpdate s, MinimumReleaseAgeDays s, Image s,
   (fun u => (Repository u, Branch u, Workflows u, Previews u, PreviewDomain u)) <$> DockerUpload_ s).
Definition source_untuple (t : Kind * bool * Z * option string *
    option (string * string * list string * bool * string)) : Source :=
  let '(k, a, m, i, u) := t in
  mkSource k a m i ((fun '(r, b, w, p, d) => mkDockerUpload r b w p d) <$> u).

Definition snapshot_tuple (s : Snapshot) :=
  ((source_tuple (Source_ s),
    (fun b => (BeforeCommand b, CloudflareHostnames b)) <$> BeforeDeploy_ s,
    (fun f => (ForwardRepository f, ForwardWorkflows f)) <$> PortForward_ s,
    Command s, Args s),
   (Environment s, (fun r => (EnvironmentName r, SecretID r)) <$> SecretReferences s,
    (fun h => (Port h, Path h, TimeoutSeconds h)) <$> HealthCheck_ s,
    CPUMillicores s, MemoryMaxBytes s,
    (fun v => (VolumeID v, ContainerPath v)) <$> VolumeMounts s)).
Definition snapshot_untuple (t : (Kind * bool * Z * option string *
      option (string * string * list string * bool * string)
      * option (string * list string) * option (string * list string)
      * list string * list string)
    * (gmap string string * list (string * string) * option (Z * string * Z) * Z * Z
       * list (string * string))) : Snapshot :=
  let '((src, b, f, c, a), (e, ss, h, cpu, mem, vs)) := t in
  mkSnapshot (source_untuple src) ((fun '(x, y) => mkBefore x y) <$> b)
    ((fun '(x, y) => mkForward x y) <$> f) c a e ((fun '(x, y) => mkSecret x y) <$> ss)
    ((fun '(p, q, t) => mkHealth p q t) <$> h) cpu mem ((fun '(x, y) => mkMount x y) <$> vs).

Lemma list_fmap_inverse {A B} (f : A -> B) (g : B -> A) (l : list A) :
  (forall x, g (f x) = x) -> g <$> (f <$> l) = l.
Proof. intros H. induction l as [|x l IH]; [done|]. rewrite !fmap_cons, H. by f_equal. Qed.

Lemma snapshot_untuple_tuple s : snapshot_untuple (snapshot_tuple s) = s.
Proof.
  destruct s as [[k a m i [[]|]] [[]|] [[]|] c ar e ss [[]|] cpu mem vs];
    unfold snapshot_untuple, snapshot_tuple; simpl; f_equal;
    apply list_fmap_inverse; by intros [].
Qed.

Fixpoint bits_of_pos (p : positive) : string :=
  match p with
  | xH => ""
  | xO p => String "0" (bits_of_pos p)
  | xI p => String "1" (bits_of_pos p)
  end.
Fixpoint pos_of_bits (s : string) : positive :=
  match s with
  | EmptyString => xH
  | String c s => if Ascii.eqb c "0" then xO (pos_of_bits s) else xI (pos_of_bits s)
  end.
Lemma pos_of_bits_of_pos p : pos_of_bits (bits_of_pos p) = p.
Proof. induction p; simpl; by rewrite ?IHp. Qed.

Definition demo_hostnames : HostnameTables := {|
  strings_ToLower := fun s => s;
  idna_ToASCII := fun s => Some s;
  EffectiveTLDPlusOne := fun s => Some s
|}.

Definition demo_config : ConfigTables := {|
  ParseDockerRef := fun s => if bool_decide (trim_space s = s)
                             then Some (mkDockerRef s s false) else None;
  digest_pin := fun r d => Some (ref_Name r +:+ "@" +:+ d);
  request_path_ok := fun _ => true;
  json_Marshal := fun s => bits_of_pos (encode (snapshot_tuple s));
  json_Unmarshal := fun j => snapshot_untuple <$> decode (pos_of_bits j);
  sha256_hex := fun s => s
|}.

Lemma demo_laws : @ConfigLaws demo_hostnames demo_config.
Proof.
  split; simpl.
  - intros s r. case_bool_decide as Ht; [|done]. intros [= <-]. simpl.
    rewrite Ht. by rewrite bool_decide_eq_true_2.
  - done.
  - by intros s a [= <-].
  - intros s. rewrite pos_of_bits_of_pos, decode_encode.
    exact (f_equal Some (snapshot_untuple_tuple s)).
Qed.

Definition demo_snapshot : Snapshot :=
  mkSnapshot (mkSource PublicImage true 0 (Some "docker.io/library/nginx:1") None)
    None (Some (mkForward "owner/repo" ["ci.yml"])) [] [] {["PORT" := "80"]}
    [mkSecret "B" "2"; mkSecret "A" "1"] (Some (mkHealth 80 "/" 0)) 0 0 [mkMount "vol" "/data"].

(** Normalisation treats the port-forward block independently of the rest. *)
Lemma Normalize_without_port_forward `{!HostnameTables, !ConfigTables} s t n1 n2 :
  without_port_forward s = without_port_forward t ->
  Normalize s = Ok n1 -> Normalize t = Ok n2 ->
  without_port_forward n1 = without_port_forward n2.
Proof.
  destruct s, t. intros [= -> -> -> -> -> -> -> -> -> ->] H1 H2. unfold Normalize in *.
  apply rbind_ok in H1 as (s1 & Hs1 & H1), H2 as (s2 & Hs2 & H2).
  apply rbind_ok in H1 as (b1 & Hb1 & H1), H2 as (b2 & Hb2 & H2).
  apply rbind_ok in H1 as (f1 & _ & H1), H2 as (f2 & _ & H2). simpl in *.
  rewrite Hs1 in Hs2. rewrite Hb1 in Hb2. injection Hs2 as <-. injection Hb2 as <-.
  destruct (validateSnapshot _) in H1; [|done]. destruct (validateSnapshot _) in H2; [|done].
  injection H1 as <-. by injection H2 as <-.
Qed.

(** ** Properties *)

(** The deployment record the controller writes is accepted by the store:
    the canonical JSON of a configuration decodes to a snapshot whose own
    canonical form is byte for byte the same JSON and the same hash, and
    normalisation is idempotent. *)
Theorem canonical_roundtrip `{!HostnameTables, !ConfigTables, !ConfigLaws} s n j h
    (Hc : Canonical s = Ok (n, j, h)) :
  Normalize n = Ok n /\
  exists d, json_Unmarshal j = Some d /\ Canonical d = Ok (d, j, h).
Proof.
  destruct (Canonical_stable s n j h Hc) as (Hn & Hj & Hd). split; [done|]. eauto.
Qed.

Lemma canonical_roundtrip_witness :
  exists n j h, @Canonical demo_hostnames demo_config demo_snapshot = Ok (n, j, h) /\
    @Normalize demo_hostnames demo_config n = Ok n.
Proof.
  destruct (@Canonical demo_hostnames demo_config demo_snapshot) as [[[n j] h]|e] eqn:E.
  - exists n, j, h. split; [done|].
    apply (@canonical_roundtrip demo_hostnames demo_config demo_laws demo_snapshot n j h E).
  - vm_compute in E. discriminate E.
Defined.

(** Editing the port-forward allow list never changes the configuration
    hash: two configurations that differ only there have the same canonical
    JSON and hash, so no redeploy is triggered. *)
Theorem port_forward_not_hashed `{!HostnameTables, !ConfigTables} s t n1 j1 h1 n2 j2 h2
    (Hsame : without_port_forward s = without_port_forward t)
    (H1 : Canonical s = Ok (n1, j1, h1)) (H2 : Canonical t = Ok (n2, j2, h2)) :
  j1 = j2 /\ h1 = h2.
Proof.
  unfold Canonical in *. apply rbind_ok in H1 as (m1 & H1 & [= -> <- <-]).
  apply rbind_ok in H2 as (m2 & H2 & [= -> <- <-]).
  by rewrite (Normalize_without_port_forward s t n1 n2).
Qed.

Lemma port_forward_not_hashed_witness :
  exists n1 j1 h1 n2 j2 h2,
    @Canonical demo_hostnames demo_config demo_snapshot = Ok (n1, j1, h1) /\
    @Canonical demo_hostnames demo_config (without_port_forward demo_snapshot) = Ok (n2, j2, h2) /\
    (j1 = j2 /\ h1 = h2).
Proof.
  destruct (@Canonical demo_hostnames demo_config demo_snapshot) as [[[n1 j1] h1]|] eqn:E1;
    [|vm_compute in E1; discriminate E1].
  destruct (@Canonical demo_hostnames demo_config (without_port_forward demo_snapshot))
    as [[[n2 j2] h2]|] eqn:E2; [|vm_compute in E2; discriminate E2].
  exists n1, j1, h1, n2, j2, h2. split; [done|]. split; [done|].
  exact (@port_forward_not_hashed demo_hostnames demo_config demo_snapshot
           (without_port_forward demo_snapshot) n1 j1 h1 n2 j2 h2 eq_refl E1 E2).
Defined.
