(* ===== verification/DeploymentStore.v ===== *)
(** * Deployment records

    [internal/state/deployments.go] with the queries of [services.go],
    [image_uploads.go] and [volume_initializations.go] that the deployment
    controller uses, over the tables of [schema.sql].  A table is a finite map
    from its primary key to a row; a write is a transaction run by the single
    writer of [writer.go], so its effect is all or nothing. *)

From S2P Require Import Prelude Names ServiceConfig.

(** ** Tables *)

Record ServiceRow := mkServiceRow {
  s_project : string; s_name : string; s_enabled : bool;
  s_active : option string; s_snapshot : Snapshot; s_updated : Z
}.

Record DeploymentRow := mkDeploymentRow {
  d_service : string; d_digest : string; d_reference : string;
  d_revision : option string; d_source_revision : option string; d_commit : option string;
  d_hash : string; d_snapshot_json : string; d_status : string;
  d_error_code : option string; d_error_message : option string;
  d_created : Z; d_finished : option Z
}.

Record RevisionRow := mkRevisionRow {
  r_service : string; r_tag : string; r_kind : string; r_archive : string;
  r_digest : option string; r_deployment : option string; r_sha : string; r_commit : string;
  r_status : string; r_created : Z;
  r_activated : option Z; r_retired : option Z; r_expires : option Z
}.

Record UploadRow := mkUploadRow {
  u_revision : option string; u_status : string; u_deployment : option string
}.

Record VolumeRow := mkVolumeRow { v_project : string; v_service : string }.

Record DB := mkDB {
  projects : gmap string string;             (* id to name *)
  services : gmap string ServiceRow;
  deployments : gmap string DeploymentRow;
  revisions : gmap string RevisionRow;
  uploads : gmap string UploadRow;
  volumes : gmap string VolumeRow;
  initializations : gmap string Z            (* volume to initialized_at *)
}.

Definition set_services (f : gmap string ServiceRow -> gmap string ServiceRow) (db : DB) : DB :=
  mkDB (projects db) (f (services db)) (deployments db) (revisions db) (uploads db)
       (volumes db) (initializations db).
Definition set_deployments (f : gmap string DeploymentRow -> gmap string DeploymentRow)
    (db : DB) : DB :=
  mkDB (projects db) (services db) (f (deployments db)) (revisions db) (uploads db)
       (volumes db) (initializations db).
Definition set_revisions (f : gmap string RevisionRow -> gmap string RevisionRow) (db : DB) : DB :=
  mkDB (projects db) (services db) (deployments db) (f (revisions db)) (uploads db)
       (volumes db) (initializations db).
Definition set_uploads (f : gmap string UploadRow -> gmap string UploadRow) (db : DB) : DB :=
  mkDB (projects db) (services db) (deployments db) (revisions db) (f (uploads db))
       (volumes db) (initializations db).
Definition set_initializations (f : gmap string Z -> gmap string Z) (db : DB) : DB :=
  mkDB (projects db) (services db) (deployments db) (revisions db) (uploads db)
       (volumes db) (f (initializations db)).

(** ** Errors *)

Definition ErrServiceChanged : goerr :=
  Sentinel "state.ErrServiceChanged" "service changed during deployment".
Definition ErrDeploymentNotFound : goerr :=
  Sentinel "state.ErrDeploymentNotFound" "deployment not found".
Definition ErrImageRevisionNotFound : goerr :=
  Sentinel "state.ErrImageRevisionNotFound" "image revision not found".
Definition ErrVolumeNotFound : goerr :=
  Sentinel "state.ErrVolumeNotFound" "volume not found".
Definition ErrNoRows : goerr := Sentinel "sql.ErrNoRows" "sql: no rows in result set".

Definition nullableString (value : string) : option string :=
  if bool_decide (value = "") then None else Some value.

(** ** The writer

    [Transaction] queues the action for the writer's goroutine and waits for
    its result, for the end of the caller's context or for the writer to close.
    [execute] runs it there: an expired context or a failed BEGIN runs nothing;
    an error of the action rolls back; a failed COMMIT changes nothing.  When the
    wait ends because of the context or of the closing writer, the caller gets
    that error whatever [execute] does.  [begin_fault] is every error after
    which nothing was run, [commit_fault] the error of the COMMIT, and
    [lost_ack] the error the caller gets although the transaction commits: only
    its acknowledgement is lost.  (A commit that lands even after the caller
    has gone on is, to the caller, a write of another session.) *)

Record TxFault := mkFault {
  begin_fault : option goerr; commit_fault : option goerr; lost_ack : option goerr }.
Definition no_fault : TxFault := mkFault None None None.

Definition Write (fault : TxFault) (action : DB -> result goerr DB) (db : DB)
    : result goerr unit * DB :=
  match begin_fault fault with
  | Some e => (Err e, db)
  | None =>
      match action db with
      | Err e => (Err e, db)
      | Ok db' => match commit_fault fault, lost_ack fault with
                  | Some e, _ => (Err (Wrap "commit state transaction" e), db)
                  | None, Some e => (Err e, db')
                  | None, None => (Ok tt, db')
                  end
      end
  end.

(** ** Operations *)

Record BeginInput := mkBegin {
  b_id : string; b_service : string; b_digest : string; b_reference : string;
  b_revision : string; b_source_revision : string; b_commit : string;
  b_hash : string; b_snapshot_json : string; b_created : Z;
  b_status : string; b_finished : Z
}.

Record DeploymentRecord := mkRecord {
  dr_id : string; dr_service : string; dr_digest : string; dr_reference : string;
  dr_revision : string; dr_source_revision : string; dr_commit : string;
  dr_hash : string; dr_snapshot : Snapshot; dr_status : string;
  dr_error_code : string; dr_error_message : string; dr_created : Z; dr_finished : Z
}.

Record ServiceDesired := mkDesired {
  ds_id : string; ds_project : string; ds_project_name : string; ds_name : string;
  ds_enabled : bool; ds_active : string; ds_active_digest : string; ds_active_hash : string;
  ds_snapshot : Snapshot
}.

(** A configuration error as the error value Go returns. *)
Definition config_error (e : ServiceConfig.error) : goerr :=
  match e with
  | ErrSource what | ErrSnapshot what => Msg what
  | ErrHostname _ => Msg "invalid public hostname"
  end.
Definition lift_config {A} (m : result ServiceConfig.error A) : result goerr A :=
  match m with Ok a => Ok a | Err e => Err (config_error e) end.

Section Store.
Context `{HostnameTables} `{ConfigTables}.

Definition beginRow (input : BeginInput) (status : string) : DeploymentRow :=
  mkDeploymentRow (b_service input) (b_digest input) (b_reference input)
    (nullableString (b_revision input)) (nullableString (b_source_revision input))
    (nullableString (b_commit input)) (b_hash input) (b_snapshot_json input) status
    None None (b_created input)
    (if 0 <? b_finished input then Some (b_finished input) else None).

(** The row is inserted under its primary key. *)
Definition BeginDeployment (fault : TxFault) (input : BeginInput) (db : DB) : result goerr unit * DB :=
  if bool_decide (b_id input = "") || bool_decide (b_service input = "")
     || bool_decide (b_hash input = "") || bool_decide (b_snapshot_json input = "")
     || (b_created input <=? 0)
  then (Err (Msg "begin deployment input is incomplete"), db)
  else
    let status := if bool_decide (b_status input = "") then "running" else b_status input in
    if negb (bool_decide (status = "running")) && negb (bool_decide (status = "skipped"))
    then (Err (Msg "deployment can only begin as running or skipped"), db)
    else if bool_decide (status = "skipped") && (b_finished input <=? 0)
    then (Err (Msg "skipped deployment must have a finish time"), db)
    else match json_Unmarshal (b_snapshot_json input) with
         | None => (Err (Msg "decode deployment snapshot"), db)
         | Some snapshot =>
             match Canonical snapshot with
             | Err e => (Err (config_error e), db)
             | Ok (_, canonicalJSON, hash) =>
                 if negb (bool_decide (hash = b_hash input))
                    || negb (bool_decide (canonicalJSON = b_snapshot_json input))
                 then (Err (Msg "deployment snapshot is not canonical or does not match its hash"), db)
                 else Write fault (fun db =>
                        match services db !! b_service input with
                        | None => Err ErrNoRows
                        | Some s =>
                            if negb (s_enabled s) then Err ErrServiceChanged
                            else match deployments db !! b_id input with
                                 | Some _ => Err (Wrap "begin deployment" (Msg "UNIQUE constraint"))
                                 | None => Ok (set_deployments
                                                 (insert (b_id input) (beginRow input status)) db)
                                 end
                        end) db
             end
         end.

(** [UPDATE service_image_revisions SET status = 'retired', retired_at = ?
    WHERE service_id = ? AND kind = 'production' AND status = 'active' AND id IS NOT ?] *)
Definition retire_one (at_ : Z) (serviceID : string) (keep : option string) (id : string)
    (r : RevisionRow) : RevisionRow :=
  if bool_decide (r_service r = serviceID) && bool_decide (r_kind r = "production")
     && bool_decide (r_status r = "active") && negb (bool_decide (Some id = keep))
  then mkRevisionRow (r_service r) (r_tag r) (r_kind r) (r_archive r) (r_digest r) (r_deployment r)
         (r_sha r) (r_commit r) "retired" (r_created r) (r_activated r) (Some at_) (r_expires r)
  else r.
Definition retireOthers (at_ : Z) (serviceID : string) (keep : option string)
    (rs : gmap string RevisionRow) : gmap string RevisionRow :=
  map_imap (fun id r => Some (retire_one at_ serviceID keep id r)) rs.

Definition activated_row (at_ : Z) (deploymentID : string) (r : RevisionRow) : RevisionRow :=
  mkRevisionRow (r_service r) (r_tag r) (r_kind r) (r_archive r) (r_digest r) (Some deploymentID)
    (r_sha r) (r_commit r) "active" (r_created r) (Some at_) None None.

Definition activatable (serviceID : string) (r : RevisionRow) : bool :=
  bool_decide (r_service r = serviceID) && bool_decide (r_kind r = "production")
  && bool_decide (r_status r ∈ ["importing"; "active"; "retired"; "failed"])
  && negb (bool_decide (default "" (r_digest r) = "")).

(** The unique index on (service_id, tag) of active revisions. *)
Definition tag_taken (id : string) (r : RevisionRow) (rs : gmap string RevisionRow) : bool :=
  existsb (fun '(id', r') => negb (bool_decide (id' = id)) && bool_decide (r_status r' = "active")
                             && bool_decide (r_service r' = r_service r)
                             && bool_decide (r_tag r' = r_tag r)) (map_to_list rs).

Definition link_upload (deploymentID revisionID : string) (u : UploadRow) : UploadRow :=
  if bool_decide (u_revision u = Some revisionID) && bool_decide (u_status u = "deploying")
  then mkUploadRow (u_revision u) (u_status u) (Some deploymentID) else u.

Definition finished_row (status : string) (code message : option string) (at_ : Z)
    (d : DeploymentRow) : DeploymentRow :=
  mkDeploymentRow (d_service d) (d_digest d) (d_reference d) (d_revision d)
    (d_source_revision d) (d_commit d) (d_hash d) (d_snapshot_json d) status
    code message (d_created d) (Some at_).

Definition activateRevision (serviceID deploymentID : string) (at_ : Z) (revision : option string)
    (db : DB) : result goerr DB :=
  match revision with
  | None => Ok db
  | Some rid =>
      match revisions db !! rid with
      | None => Err ErrServiceChanged
      | Some r =>
          if negb (activatable serviceID r) then Err ErrServiceChanged
          else if tag_taken rid r (revisions db)
          then Err (Wrap "activate uploaded image revision" (Msg "UNIQUE constraint"))
          else Ok (set_uploads (fmap (link_upload deploymentID rid))
                     (set_revisions (insert rid (activated_row at_ deploymentID r)) db))
      end
  end.

Definition ActivateDeployment (fault : TxFault) (serviceID deploymentID expected : string)
    (finishedAt : Z) (db : DB) : result goerr unit * DB :=
  if bool_decide (serviceID = "") || bool_decide (deploymentID = "") || (finishedAt <=? 0)
  then (Err (Msg "activate deployment input is incomplete"), db)
  else Write fault (fun db =>
    match services db !! serviceID, deployments db !! deploymentID with
    | Some s, Some d =>
        if negb (s_enabled s && bool_decide (d_service d = serviceID)) then Err ErrServiceChanged
        else if negb (bool_decide (d_status d = "running"))
                || negb (bool_decide (default "" (s_active s) = expected))
        then Err ErrServiceChanged
        else
          let keep := nullableString (default "" (d_revision d)) in
          let db1 := set_revisions (retireOthers finishedAt serviceID keep) db in
          let? db2 := activateRevision serviceID deploymentID finishedAt (d_revision d) db1 in
          let db3 := set_services (insert serviceID
                       (mkServiceRow (s_project s) (s_name s) (s_enabled s) (Some deploymentID)
                          (s_snapshot s) finishedAt)) db2 in
          Ok (set_deployments (insert deploymentID
                (finished_row "succeeded" (d_error_code d) (d_error_message d) finishedAt d)) db3)
    | _, _ => Err ErrServiceChanged
    end) db.

Definition is_active_somewhere (deploymentID : string) (db : DB) : bool :=
  existsb (fun '(_, s) => bool_decide (s_active s = Some deploymentID)) (map_to_list (services db)).

Definition DiscardDeployment (fault : TxFault) (deploymentID : string) (db : DB)
    : result goerr unit * DB :=
  if bool_decide (deploymentID = "") then (Err (Msg "deployment ID is required"), db)
  else Write fault (fun db =>
    match deployments db !! deploymentID with
    | Some d => if bool_decide (d_status d = "running") && negb (is_active_somewhere deploymentID db)
                then Ok (set_deployments (delete deploymentID) db)
                else Err ErrServiceChanged
    | None => Err ErrServiceChanged
    end) db.

Definition UpdateDeploymentSource (fault : TxFault)
    (deploymentID imageDigest imageReference sourceRevision commitMessage : string) (db : DB)
    : result goerr unit * DB :=
  if bool_decide (deploymentID = "") then (Err (Msg "deployment ID is required"), db)
  else Write fault (fun db =>
    match deployments db !! deploymentID with
    | Some d =>
        if bool_decide (d_status d = "running")
        then Ok (set_deployments (insert deploymentID
               (mkDeploymentRow (d_service d) imageDigest imageReference (d_revision d)
                  (nullableString sourceRevision) (nullableString commitMessage) (d_hash d)
                  (d_snapshot_json d) (d_status d) (d_error_code d) (d_error_message d)
                  (d_created d) (d_finished d))) db)
        else Err ErrServiceChanged
    | None => Err ErrServiceChanged
    end) db.

Definition FinishDeployment (fault : TxFault) (deploymentID status code message : string)
    (finishedAt : Z) (db : DB) : result goerr unit * DB :=
  if bool_decide (deploymentID = "") || bool_decide (code = "") || (finishedAt <=? 0)
  then (Err (Msg "finish deployment input is incomplete"), db)
  else if negb (bool_decide (status ∈ ["failed"; "interrupted"; "skipped"]))
  then (Err (Msg "deployment can only finish as failed, interrupted, or skipped"), db)
  else Write fault (fun db =>
    match deployments db !! deploymentID with
    | Some d => if bool_decide (d_status d = "running")
                then Ok (set_deployments (insert deploymentID
                           (finished_row status (Some code) (Some message) finishedAt d)) db)
                else Err ErrServiceChanged
    | None => Err ErrServiceChanged
    end) db.

Definition FailDeployment (fault : TxFault) (deploymentID code message : string)
    (finishedAt : Z) (db : DB) : result goerr unit * DB :=
  FinishDeployment fault deploymentID "failed" code message finishedAt db.

(** ** Queries *)

Definition LatestFailedDeployment (serviceID configHash imageDigest : string) (db : DB) : bool :=
  existsb (fun '(_, d) => bool_decide (d_service d = serviceID) && bool_decide (d_hash d = configHash)
                          && bool_decide (d_digest d = imageDigest)
                          && bool_decide (d_status d = "failed")) (map_to_list (deployments db)).

(** [ORDER BY created_at DESC, id DESC LIMIT 1] *)
Definition newer (created1 : Z) (id1 : string) (created2 : Z) (id2 : string) : bool :=
  (created2 <? created1) || ((created1 =? created2) && negb (String.leb id1 id2)).
Definition latest {R} (created : R -> Z) (rows : list (string * R)) : option (string * R) :=
  foldr (fun '(id, r) best =>
           match best with
           | None => Some (id, r)
           | Some (id', r') => if newer (created r) id (created r') id' then Some (id, r) else best
           end) None rows.

Definition scanDeploymentRecord (id : string) (d : DeploymentRow) : result goerr DeploymentRecord :=
  match json_Unmarshal (d_snapshot_json d) with
  | None => Err (Wrap "decode deployment snapshot" (Msg "invalid JSON"))
  | Some snapshot =>
      Ok (mkRecord id (d_service d) (d_digest d) (d_reference d) (default "" (d_revision d))
            (default "" (d_source_revision d)) (default "" (d_commit d)) (d_hash d) snapshot
            (d_status d) (default "" (d_error_code d)) (default "" (d_error_message d))
            (d_created d) (default 0 (d_finished d)))
  end.

Definition Deployment (deploymentID : string) (db : DB) : result goerr DeploymentRecord :=
  match deployments db !! deploymentID with
  | None => Err (Wrap "scan deployment" ErrNoRows)
  | Some d => scanDeploymentRecord deploymentID d
  end.

Definition LatestUploadedDeployment (serviceID : string) (db : DB) : result goerr DeploymentRecord :=
  if bool_decide (serviceID = "") then Err (Msg "service ID is required")
  else match latest d_created
               (List.filter (fun '(_, d) => bool_decide (d_service d = serviceID)
                                       && negb (bool_decide (default "" (d_revision d) = ""))
                                       && negb (bool_decide (d_reference d = ""))
                                       && negb (bool_decide (d_digest d = "")))
                       (map_to_list (deployments db))) with
       | None => Err ErrDeploymentNotFound
       | Some (id, d) => scanDeploymentRecord id d
       end.

Definition LatestReusableProductionRevision (serviceID : string) (db : DB)
    : result goerr (string * RevisionRow) :=
  if bool_decide (serviceID = "") then Err (Msg "service ID is required")
  else match latest r_created
               (List.filter (fun '(_, r) => activatable serviceID r
                                       && negb (bool_decide (r_archive r = "")))
                       (map_to_list (revisions db))) with
       | None => Err ErrImageRevisionNotFound
       | Some x => Ok x
       end.

(** [DesiredService] joins the service with its project and, if any, its active
    deployment.  The row holds the decoded snapshot columns. *)
Definition DesiredService (serviceID : string) (db : DB) : result goerr ServiceDesired :=
  match services db !! serviceID with
  | None => Err ErrNoRows
  | Some s =>
      match projects db !! s_project s with
      | None => Err ErrNoRows
      | Some project =>
          let d := s_active s ≫= fun id => deployments db !! id in
          Ok (mkDesired serviceID (s_project s) project (s_name s) (s_enabled s)
                (default "" (s_active s)) (default "" (d_digest <$> d)) (default "" (d_hash <$> d))
                (s_snapshot s))
      end
  end.

Definition VolumeInitialized (projectID serviceID volumeID : string) (db : DB) : result goerr bool :=
  if bool_decide (projectID = "") || bool_decide (serviceID = "") || bool_decide (volumeID = "")
  then Err ErrVolumeNotFound
  else match volumes db !! volumeID with
       | Some v => if bool_decide (v_project v = projectID) && bool_decide (v_service v = serviceID)
                   then Ok (bool_decide (is_Some (initializations db !! volumeID)))
                   else Err ErrVolumeNotFound
       | None => Err ErrVolumeNotFound
       end.

Definition RecordVolumeInitialization (fault : TxFault) (projectID serviceID volumeID : string)
    (at_ : Z) (db : DB) : result goerr unit * DB :=
  if bool_decide (projectID = "") || bool_decide (serviceID = "") || bool_decide (volumeID = "")
     || (at_ <=? 0)
  then (Err (Msg "volume initialization input is incomplete"), db)
  else Write fault (fun db =>
    match volumes db !! volumeID with
    | Some v => if bool_decide (v_project v = projectID) && bool_decide (v_service v = serviceID)
                then Ok (set_initializations
                           (fun m => match m !! volumeID with
                                     | Some _ => m | None => <[volumeID := at_]> m end) db)
                else Err ErrVolumeNotFound
    | None => Err ErrVolumeNotFound
    end) db.

End Store.

(** ** What each write can change *)

Inductive effect : DB -> DB -> Prop :=
| eff_same db : effect db db
| eff_insert db id d :
    deployments db !! id = None -> effect db (set_deployments (insert id d) db)
| eff_running db id d d' :
    deployments db !! id = Some d -> d_status d = "running" -> d_service d' = d_service d ->
    effect db (set_deployments (insert id d') db)
| eff_delete db id d :
    deployments db !! id = Some d -> d_status d = "running" ->
    effect db (set_deployments (delete id) db)
| eff_volume db f : effect db (set_initializations f db)
| eff_activate db db' sid id s s' d d' :
    services db !! sid = Some s -> deployments db !! id = Some d ->
    d_status d = "running" -> d_service d = sid ->
    d_status d' = "succeeded" -> d_service d' = sid -> s_active s' = Some id ->
    services db' = <[sid := s']> (services db) ->
    deployments db' = <[id := d']> (deployments db) -> effect db db'.

Lemma Write_inv fault action db r db' :
  Write fault action db = (r, db') ->
  (db' = db /\ exists e, r = Err e) \/
  ((r = Ok tt \/ exists e, r = Err e /\ lost_ack fault = Some e) /\ action db = Ok db').
Proof.
  unfold Write. intros Hw. repeat case_match; simplify_eq; eauto 6.
Qed.
Lemma Write_acknowledged fault action db r db' : lost_ack fault = None ->
  Write fault action db = (r, db') ->
  (db' = db /\ exists e, r = Err e) \/ (r = Ok tt /\ action db = Ok db').
Proof. intros Hack [?|[[->|(e & -> & He)] ?]]%Write_inv; [by left|by right|congruence]. Qed.

Section Effects.
Context `{HostnameTables} `{ConfigTables}.

Ltac split_heads :=
  repeat match goal with
         | H : (if ?b then _ else _) = _ |- _ => destruct b eqn:?; simplify_eq
         | H : match ?x with _ => _ end = _ |- _ => destruct x eqn:?; simplify_eq
         end.

Ltac store_op :=
  split_heads; try apply eff_same;
  match goal with
  | H : Write _ _ _ = _ |- _ =>
      apply Write_inv in H as [[-> _]|[_ H]]; [apply eff_same|]
  end;
  split_heads.

Lemma BeginDeployment_effect f i db r db' :
  BeginDeployment f i db = (r, db') -> effect db db'.
Proof.
  unfold BeginDeployment. intros Hop. store_op. by apply eff_insert.
Qed.

Lemma DiscardDeployment_effect f id db r db' :
  DiscardDeployment f id db = (r, db') -> effect db db'.
Proof.
  unfold DiscardDeployment. intros Hop. store_op. btrue. by eapply eff_delete.
Qed.

Lemma UpdateDeploymentSource_effect f id a b c e db r db' :
  UpdateDeploymentSource f id a b c e db = (r, db') -> effect db db'.
Proof.
  unfold UpdateDeploymentSource. intros Hop. store_op. btrue. by eapply eff_running.
Qed.

Lemma FinishDeployment_effect f id st c m t db r db' :
  FinishDeployment f id st c m t db = (r, db') -> effect db db'.
Proof.
  unfold FinishDeployment. intros Hop. store_op. btrue. by eapply eff_running.
Qed.

Lemma RecordVolumeInitialization_effect f p s v t db r db' :
  RecordVolumeInitialization f p s v t db = (r, db') -> effect db db'.
Proof.
  unfold RecordVolumeInitialization. intros Hop. store_op. apply eff_volume.
Qed.

Lemma activateRevision_inv sid id t rev db db' :
  activateRevision sid id t rev db = Ok db' ->
  services db' = services db /\ deployments db' = deployments db.
Proof.
  unfold activateRevision. destruct rev; [|by intros [= <-]].
  intros Ha. by repeat case_match; simplify_eq/=.
Qed.

(** What an activation that commits does. *)
Definition activated (sid id expected : string) (t : Z) (db db' : DB) : Prop :=
  exists s d, services db !! sid = Some s /\ deployments db !! id = Some d /\
    s_enabled s = true /\ d_service d = sid /\ d_status d = "running" /\
    default "" (s_active s) = expected /\
    services db' = <[sid := mkServiceRow (s_project s) (s_name s) (s_enabled s) (Some id)
                              (s_snapshot s) t]> (services db) /\
    deployments db' = <[id := finished_row "succeeded" (d_error_code d) (d_error_message d) t d]>
                        (deployments db) /\
    exists db2, activateRevision sid id t (d_revision d)
        (set_revisions (retireOthers t sid (nullableString (default "" (d_revision d)))) db) = Ok db2 /\
      revisions db' = revisions db2.

Lemma ActivateDeployment_inv f sid id expected t db r db' :
  ActivateDeployment f sid id expected t db = (r, db') ->
  (db' = db /\ exists e, r = Err e) \/
  ((r = Ok tt \/ exists e, r = Err e /\ lost_ack f = Some e) /\ activated sid id expected t db db').
Proof.
  unfold ActivateDeployment. intros Hop. case_match; [simplify_eq; eauto|].
  apply Write_inv in Hop as [?|[Hr Hop]]; [by left|right; split; [done|]].
  destruct (services db !! sid) as [s|] eqn:Hs; [|done].
  destruct (deployments db !! id) as [d|] eqn:Hd; [|done].
  case_match; [done|]. case_match; [done|]. btrue.
  apply rbind_ok in Hop as (db2 & Hrev & [= <-]). simpl.
  pose proof (activateRevision_inv _ _ _ _ _ _ Hrev) as [Hsv Hdv]. simpl in *.
  exists s, d. simpl. rewrite Hsv, Hdv. split_and!; eauto.
Qed.

Lemma ActivateDeployment_ok f sid id expected t db db' :
  ActivateDeployment f sid id expected t db = (Ok tt, db') -> activated sid id expected t db db'.
Proof. by intros [[_ [e He]]|[_ ?]]%ActivateDeployment_inv. Qed.

Lemma ActivateDeployment_err f sid id expected t db e db' :
  ActivateDeployment f sid id expected t db = (Err e, db') ->
  db' = db \/ lost_ack f = Some e /\ activated sid id expected t db db'.
Proof.
  intros [[-> _]|[[?|(e' & [= <-] & ?)] ?]]%ActivateDeployment_inv; [by left|done|by right].
Qed.

Lemma ActivateDeployment_effect f sid id expected t db r db' :
  ActivateDeployment f sid id expected t db = (r, db') -> effect db db'.
Proof.
  intros [[-> _]|[_ (s & d & Hs & Hd & He & Hsv & Hst & _ & Hs' & Hd' & _)]]%ActivateDeployment_inv;
    [apply eff_same|].
  by refine (eff_activate db db' sid id s _ d _ Hs Hd Hst Hsv _ _ _ Hs' Hd').
Qed.

End Effects.

(** ** The store as a transition system *)

Inductive store_step `{HostnameTables} `{ConfigTables} : DB -> DB -> Prop :=
| st_begin f i db r db' : BeginDeployment f i db = (r, db') -> store_step db db'
| st_source f id a b c e db r db' :
    UpdateDeploymentSource f id a b c e db = (r, db') -> store_step db db'
| st_finish f id st c m t db r db' :
    FinishDeployment f id st c m t db = (r, db') -> store_step db db'
| st_discard f id db r db' : DiscardDeployment f id db = (r, db') -> store_step db db'
| st_activate f sid id ex t db r db' :
    ActivateDeployment f sid id ex t db = (r, db') -> store_step db db'
| st_volume f p s v t db r db' :
    RecordVolumeInitialization f p s v t db = (r, db') -> store_step db db'.

Section StoreInvariants.
Context `{HostnameTables} `{ConfigTables}.

Lemma store_step_effect db db' : store_step db db' -> effect db db'.
Proof.
  destruct 1; eauto using BeginDeployment_effect, UpdateDeploymentSource_effect,
    FinishDeployment_effect, DiscardDeployment_effect, ActivateDeployment_effect,
    RecordVolumeInitialization_effect.
Qed.

Lemma effect_terminal db db' id d :
  effect db db' -> deployments db !! id = Some d -> d_status d <> "running" ->
  deployments db' !! id = Some d.
Proof.
  destruct 1 as [|? j| ? j|? j| |? ? ? j ? ? ? ? ? ? ? ? ? ? ? ? Heq]; intros Hd Hr; simpl; try done.
  - rewrite lookup_insert_ne; [done|]. congruence.
  - rewrite lookup_insert_ne; [done|]. congruence.
  - rewrite lookup_delete_ne; [done|]. congruence.
  - rewrite Heq, lookup_insert_ne; [done|]. congruence.
Qed.

(** The active pointer of every service names a succeeded deployment of that
    service. *)
Definition pointer_valid (db : DB) : Prop :=
  forall sid s id, services db !! sid = Some s -> s_active s = Some id ->
  exists d, deployments db !! id = Some d /\ d_service d = sid /\ d_status d = "succeeded".

Lemma effect_pointer db db' : effect db db' -> pointer_valid db -> pointer_valid db'.
Proof.
  intros He Hp sid s id Hs Ha.
  assert (Hold : forall s0, services db !! sid = Some s0 -> s_active s0 = Some id ->
            exists d, deployments db' !! id = Some d /\ d_service d = sid /\ d_status d = "succeeded").
  { intros s0 Hs0 Ha0. destruct (Hp _ _ _ Hs0 Ha0) as (d & Hd & Hsv & Hst).
    exists d. split; [|done]. eapply effect_terminal; eauto. by rewrite Hst. }
  destruct He as [|? j| ? j|? j| |? ? sid' j ? ? ? ? Hs0 Hd0 Hr0 Hv0 Hst' Hv' Ha' Hsv Hdv];
    eauto.
  rewrite Hsv, lookup_insert in Hs. case_decide; simplify_eq; [|by eapply Hold].
  exists d'. rewrite Hdv, lookup_insert_eq. split_and!; congruence.
Qed.

End StoreInvariants.

Lemma retireOthers_lookup t sid keep rs id :
  retireOthers t sid keep rs !! id = retire_one t sid keep id <$> rs !! id.
Proof. unfold retireOthers. rewrite map_lookup_imap. by destruct (rs !! id). Qed.

Lemma retire_one_not_active t sid keep id r :
  r_service (retire_one t sid keep id r) = sid -> r_kind (retire_one t sid keep id r) = "production" ->
  r_status (retire_one t sid keep id r) = "active" -> Some id = keep.
Proof.
  unfold retire_one. destruct (_ && _) eqn:E; simpl; [done|]. intros Hs Hk Ha.
  rewrite !bool_decide_eq_true_2 in E by done. simpl in E. by btrue.
Qed.

(** ** A concrete database *)

Definition demo_deployment (status : string) : DeploymentRow :=
  mkDeploymentRow "svc" "sha256:aa" "docker.io/library/nginx:1" (Some "rev") None None "hash" "{}"
    status None None 10 None.

Definition demo_revision (status : string) : RevisionRow :=
  mkRevisionRow "svc" "latest" "production" "/archive" (Some "sha256:aa") None "sha" "" status 5
    None None None.

Definition demo_db : DB :=
  mkDB {["prj" := "shop"]}
       {["svc" := mkServiceRow "prj" "web" true (Some "d0") demo_snapshot 1]}
       {["d0" := demo_deployment "succeeded"; "d1" := demo_deployment "running"]}
       {["old" := demo_revision "active"; "rev" := demo_revision "importing"]} ∅ ∅ ∅.

(** Deployment history is append-only: once a deployment has left the
    running state, no sequence of store operations (begin, resolve, finish,
    discard, activate, volume marker), failing or not, changes its row. *)
Theorem history_immutable `{HostnameTables} `{ConfigTables} db db' id d
    (Hsteps : rtc store_step db db')
    (Hrow : deployments db !! id = Some d) (Hdone : d_status d <> "running") :
  deployments db' !! id = Some d.
Proof.
  induction Hsteps as [|db1 db2 db3 Hstep _ IH]; [done|].
  apply IH. eapply effect_terminal; eauto using store_step_effect.
Qed.

Lemma history_immutable_witness :
  deployments (snd (@FinishDeployment no_fault "d1" "failed" "code" "m" 20 demo_db)) !! "d0"
  = Some (demo_deployment "succeeded").
Proof.
  apply (@history_immutable demo_hostnames demo_config demo_db _ "d0"
           (demo_deployment "succeeded")); [|reflexivity|discriminate].
  apply rtc_once. eapply (@st_finish demo_hostnames demo_config no_fault "d1" "failed" "code" "m" 20).
  apply surjective_pairing.
Defined.

(** Active pointers stay valid: from a state where every active pointer
    names a succeeded deployment of its own service, every sequence of store
    operations leads to such a state; in particular no operation discards or
    fails the deployment that is being served. *)
Theorem active_pointer_valid `{HostnameTables} `{ConfigTables} db db'
    (Hsteps : rtc store_step db db') (Hvalid : pointer_valid db) : pointer_valid db'.
Proof.
  induction Hsteps as [|db1 db2 db3 Hstep _ IH]; [done|].
  apply IH. eapply effect_pointer; eauto using store_step_effect.
Qed.

Lemma demo_db_valid : pointer_valid demo_db.
Proof.
  intros sid s id Hs Ha. unfold demo_db in Hs; simpl in Hs.
  apply lookup_singleton_Some in Hs as [<- <-]. injection Ha as <-.
  exists (demo_deployment "succeeded"). by split_and!.
Qed.

Lemma active_pointer_valid_witness :
  pointer_valid (snd (ActivateDeployment no_fault "svc" "d1" "d0" 20 demo_db)).
Proof.
  apply (@active_pointer_valid demo_hostnames demo_config demo_db); [|exact demo_db_valid].
  apply rtc_once. eapply (@st_activate demo_hostnames demo_config no_fault "svc" "d1" "d0" 20).
  apply surjective_pairing.
Defined.

(** The revisions an activation leaves active: the deployment's own one. *)
Lemma activated_revision sid id expected t db db' d rid rv :
  activated sid id expected t db db' -> deployments db !! id = Some d ->
  revisions db' !! rid = Some rv -> r_service rv = sid ->
  r_kind rv = "production" -> r_status rv = "active" -> d_revision d = Some rid.
Proof.
  intros (s & d0 & _ & Hd0 & _ & _ & _ & _ & _ & _ & db2 & Hrev & Hr) Hd.
  rewrite Hd in Hd0. injection Hd0 as <-. rewrite Hr.
  intros Hlk Hrs Hrk Hra. unfold activateRevision in Hrev.
  assert (Hkept : forall keep, retireOthers t sid keep (revisions db) !! rid = Some rv -> Some rid = keep).
  { intros keep Hk. rewrite retireOthers_lookup in Hk. apply fmap_Some in Hk as (rv0 & _ & ->).
    by eapply retire_one_not_active. }
  destruct (d_revision d) as [rid0|] eqn:Hdr.
  - destruct (decide (rid0 = rid)) as [->|Hne]; [done|].
    repeat case_match; try done. injection Hrev as <-. simpl in Hlk.
    rewrite lookup_insert_ne in Hlk by done. apply Hkept in Hlk.
    unfold nullableString in Hlk. by case_bool_decide.
  - injection Hrev as <-. by apply Hkept in Hlk.
Qed.


