(* ===== verification/Admission.v ===== *)
(** * Admission gate

    [internal/admission]: every mutation of the platform holds a lease while
    it runs; a platform update takes an exclusive lease and is refused while
    operations run, and operations are refused while an update runs.  The
    mutex serialises the methods, so each method is one atomic step. *)

From S2P Require Import Prelude.

Definition maximumBlockers : nat := 64.
Definition maximumFieldLen : Z := 256.

Inductive error := ErrBusy | ErrUpdating | ErrInvalidField.

Record Blocker := mkBlocker { Kind : string; ID : string }.

#[export] Instance Blocker_eq_dec : EqDecision Blocker.
Proof. solve_decision. Defined.

Record Snapshot := mkSnapshot {
  Blockers : list Blocker;
  Total : nat;
  Truncated : bool
}.

(** [next] is a uint64 token counter, [active] the running operations. *)
Record Gate := mkGate {
  next : Z;
  updating : bool;
  active : gmap Z Blocker
}.

(** The closure a lease holds: [gate.finish(token)] or [gate.finishUpdate]. *)
Inductive Closure := Finish (token : Z) | FinishUpdate.

#[export] Instance Closure_eq_dec : EqDecision Closure.
Proof. solve_decision. Defined.

(** [once] records that [sync.Once] has fired. *)
Record Lease := mkLease { once : bool; release : Closure }.

Definition New : Gate := mkGate 0 false ∅.

Definition validField (value : string) : bool :=
  if bool_decide (value = "") || (maximumFieldLen <? zlen value)
     || negb (bool_decide (trim_space value = value))
  then false
  else str_forall (fun c => negb ((byte_code c <? 32)%N || (byte_code c =? 127)%N)) value.

(** sort.Slice's order: by kind, then by ID. *)
Abbreviation blocker_le := (two_key_le Kind ID).

(** The blockers of a map iterated in the order [order] lists its values. *)
Definition snapshotOf (order : list Blocker) : Snapshot :=
  let blockers := merge_sort blocker_le order in
  let total := length blockers in
  let kept := if bool_decide (maximumBlockers < total)%nat
              then take maximumBlockers blockers else blockers in
  mkSnapshot kept total (bool_decide (length kept < total)%nat).

Definition snapshotLocked (gate : Gate) : Snapshot :=
  snapshotOf (map_to_list (active gate)).*2.

Definition Begin (kind id : string) (gate : Gate) : Gate * result error Lease :=
  if negb (validField kind) || negb (validField id) then (gate, Err ErrInvalidField)
  else if updating gate then (gate, Err ErrUpdating)
  else let token := u64 (next gate + 1) in
       (mkGate token (updating gate) (<[token := mkBlocker kind id]> (active gate)),
        Ok (mkLease false (Finish token))).

Definition TryUpdate (gate : Gate) : Gate * result (error * Snapshot) Lease :=
  if updating gate then (gate, Err (ErrUpdating, mkSnapshot [] 0 false))
  else if bool_decide (active gate = ∅)
       then (mkGate (next gate) true (active gate), Ok (mkLease false FinishUpdate))
       else (gate, Err (ErrBusy, snapshotLocked gate)).

Definition finish (token : Z) (gate : Gate) : Gate :=
  mkGate (next gate) (updating gate) (delete token (active gate)).

Definition finishUpdate (gate : Gate) : Gate :=
  mkGate (next gate) false (active gate).

Definition run_closure (f : Closure) (gate : Gate) : Gate :=
  match f with
  | Finish token => finish token gate
  | FinishUpdate => finishUpdate gate
  end.

(** [lease.once.Do(lease.release)] *)
Definition Release (lease : Lease) (gate : Gate) : Lease * Gate :=
  if once lease then (lease, gate)
  else (mkLease true (release lease), run_closure (release lease) gate).

(** ** HTTP middleware *)

Section Http.
Context {Response : Type} (updatingResponse : Response).
(** sha256 is the standard library's; the model takes it with its hex form. *)
Context (sha256hex : string -> string).

Record Request := mkRequest { Method : string; Path : string }.

Definition mutationMethod (method : string) : bool :=
  bool_decide (method = "POST") || bool_decide (method = "PUT")
  || bool_decide (method = "PATCH") || bool_decide (method = "DELETE").

Definition requestBlockerID (request : Request) : string :=
  let value := Method request +:+ " " +:+ Path request in
  if zlen value <=? maximumFieldLen then value
  else Method request +:+ " sha256:" +:+ sha256hex value.

(** [next] is the wrapped handler: it runs on the gate and may take further
    leases.  The deferred [Release] runs after it. *)
Definition WrapHTTPMutations (kind skipPath : string) (exclusive : option (Request -> bool))
    (next : Request -> Gate -> Gate * Response) (request : Request) (gate : Gate)
    : Gate * Response :=
  if negb (mutationMethod (Method request)) || bool_decide (Path request = skipPath)
  then next request gate
  else
    let isExclusive := match exclusive with Some f => f request | None => false end in
    let taken := if isExclusive
                 then let '(g, r) := TryUpdate gate in
                      (g, match r with Ok l => Some l | Err _ => None end)
                 else let '(g, r) := Begin kind (requestBlockerID request) gate in
                      (g, match r with Ok l => Some l | Err _ => None end) in
    match taken with
    | (gate1, None) => (gate1, updatingResponse)
    | (gate1, Some lease) =>
        let '(gate2, response) := next request gate1 in
        (snd (Release lease gate2), response)
    end.

End Http.

(** ** The gate with the leases it has handed out *)

Record Sys := mkSys { gate : Gate; leases : list Lease }.

Inductive step : Sys -> Sys -> Prop :=
| step_begin s kind id g l :
    Begin kind id (gate s) = (g, Ok l) -> step s (mkSys g (leases s ++ [l]))
| step_update s g l :
    TryUpdate (gate s) = (g, Ok l) -> step s (mkSys g (leases s ++ [l]))
| step_release s i l l' g :
    leases s !! i = Some l -> Release l (gate s) = (l', g) ->
    step s (mkSys g (<[i := l']> (leases s))).

Inductive reachable : Sys -> Prop :=
| reach_init : reachable (mkSys New [])
| reach_step s s' : reachable s -> step s s' -> reachable s'.

(** Every token below the counter is used by exactly one lease, the live
    operation leases are exactly the active entries, and [updating] holds iff
    a live update lease exists. *)
Record inv (s : Sys) : Prop := mkInv {
  inv_next : next (gate s) <= Z.of_nat (length (leases s)) /\ 0 <= next (gate s);
  inv_tokens : forall i l t, leases s !! i = Some l -> release l = Finish t ->
                 1 <= t <= next (gate s);
  inv_unique : forall i j l m t, leases s !! i = Some l -> leases s !! j = Some m ->
                 release l = Finish t -> release m = Finish t -> i = j;
  inv_active : forall t, is_Some (active (gate s) !! t) <->
                 exists i l, leases s !! i = Some l /\ once l = false /\ release l = Finish t;
  inv_updating : updating (gate s) = true <->
                 exists i l, leases s !! i = Some l /\ once l = false /\ release l = FinishUpdate;
  inv_one_update : forall i j l m, leases s !! i = Some l -> leases s !! j = Some m ->
                 once l = false -> once m = false ->
                 release l = FinishUpdate -> release m = FinishUpdate -> i = j;
  inv_exclusive : updating (gate s) = true -> active (gate s) = ∅
}.

Lemma inv_init : inv (mkSys New []).
Proof.
  split; simpl; try lia; try (intros; simplify_list_eq; done).
  - intros t. rewrite lookup_empty. split; [intros [? ?]; done|].
    intros (i & l & H & _). done.
  - split; [done|]. intros (i & l & H & _). done.
Qed.

Lemma lookup_snoc_cases {A} (l : list A) x i y :
  (l ++ [x]) !! i = Some y -> l !! i = Some y \/ (i = length l /\ y = x).
Proof.
  intros H. destruct (decide (i < length l)%nat) as [Hlt|Hge].
  - rewrite lookup_app_l in H by done. auto.
  - rewrite lookup_app_r in H by lia.
    destruct (i - length l)%nat eqn:E; simplify_eq/=.
    right. split; [lia|done].
Qed.

Lemma lookup_snoc_last {A} (l : list A) x : (l ++ [x]) !! length l = Some x.
Proof. by apply list_lookup_middle. Qed.

Lemma lookup_snoc_old {A} (l : list A) x i y :
  l !! i = Some y -> (l ++ [x]) !! i = Some y.
Proof. intros H. rewrite lookup_app_l; [done|]. by eapply lookup_lt_Some. Qed.

Lemma inv_begin s kind id g l :
  inv s -> Z.of_nat (length (leases s)) < two64 - 1 ->
  Begin kind id (gate s) = (g, Ok l) -> inv (mkSys g (leases s ++ [l])).
Proof.
  intros [Hn Ht Hu Ha Hup H1 Hex] Hlen HB. unfold Begin in HB.
  destruct_ifs. rewrite u64_small in * by lia.
  assert (Hnew : forall i m, leases s !! i = Some m ->
                 release m <> Finish (next (gate s) + 1)).
  { intros i m Hi Hr. specialize (Ht _ _ _ Hi Hr). lia. }
  split; simpl.
  - rewrite length_app. simpl. lia.
  - intros i m t [Hi|[-> ->]]%lookup_snoc_cases Hr; simplify_eq/=; [|lia].
    specialize (Ht _ _ _ Hi Hr). lia.
  - intros i j m m' t [Hi|[-> ->]]%lookup_snoc_cases [Hj|[-> ->]]%lookup_snoc_cases Hr Hr';
      simplify_eq/=; eauto; exfalso; eapply Hnew; eauto.
  - intros t. rewrite lookup_insert. case_decide as Heq.
    + subst. split; [|done]. intros _.
      exists (length (leases s)), (mkLease false (Finish (next (gate s) + 1))).
      by rewrite lookup_snoc_last.
    + rewrite Ha. split.
      * intros (i & m & Hi & ? & ?). exists i, m. auto using lookup_snoc_old.
      * intros (i & m & [Hi|[-> ->]]%lookup_snoc_cases & ? & ?); [eauto|].
        simplify_eq/=.
  - split; [congruence|]. intros (i & m & [Hi|[-> ->]]%lookup_snoc_cases & ? & ?);
      [|done]. apply Hup. eauto.
  - intros i j m m' [Hi|[-> ->]]%lookup_snoc_cases [Hj|[-> ->]]%lookup_snoc_cases ? ? Hr Hr';
      simplify_eq/=; eauto.
  - congruence.
Qed.

Lemma inv_try_update s g l :
  inv s -> TryUpdate (gate s) = (g, Ok l) -> inv (mkSys g (leases s ++ [l])).
Proof.
  intros [Hn Ht Hu Ha Hup H1 Hex] HB. unfold TryUpdate in HB. destruct_ifs. btrue.
  assert (Hno : forall i m, leases s !! i = Some m -> once m = false ->
                release m = FinishUpdate -> False).
  { intros i m Hi Ho Hr. enough (false = true) by done. apply Hup. eauto. }
  split; simpl.
  - rewrite length_app. simpl. lia.
  - intros i m t [Hi|[-> ->]]%lookup_snoc_cases Hr; simplify_eq/=; eauto.
  - intros i j m m' t [Hi|[-> ->]]%lookup_snoc_cases [Hj|[-> ->]]%lookup_snoc_cases Hr Hr';
      simplify_eq/=; eauto.
  - intros t. rewrite Ha. split.
    + intros (i & m & Hi & ? & ?). exists i, m. auto using lookup_snoc_old.
    + intros (i & m & [Hi|[-> ->]]%lookup_snoc_cases & ? & ?); [eauto|done].
  - split; [|done]. intros _. exists (length (leases s)), (mkLease false FinishUpdate).
    by rewrite lookup_snoc_last.
  - intros i j m m' [Hi|[-> ->]]%lookup_snoc_cases [Hj|[-> ->]]%lookup_snoc_cases ? ? Hr Hr';
      simplify_eq/=; eauto; exfalso; eauto.
  - done.
Qed.

(** Lookups in the lease list after marking lease [i] as released. *)
Lemma released_lookup (ls : list Lease) i l j m :
  ls !! i = Some l ->
  <[i := mkLease true (release l)]> ls !! j = Some m ->
  exists m0, ls !! j = Some m0 /\ release m0 = release m /\
             (once m = false -> i <> j /\ m0 = m).
Proof.
  intros Hi. rewrite list_lookup_insert. case_decide as Hd; intros Hj.
  - destruct Hd as [-> ?]. simplify_eq/=. by exists l.
  - exists m. repeat split; auto. intros ->. apply Hd. split; [done|].
    by eapply lookup_lt_Some.
Qed.

Lemma released_other (ls : list Lease) i l j m :
  i <> j -> ls !! j = Some m -> <[i := mkLease true (release l)]> ls !! j = Some m.
Proof. intros. by rewrite list_lookup_insert_ne. Qed.

Lemma inv_release s i l l' g :
  inv s -> leases s !! i = Some l -> Release l (gate s) = (l', g) ->
  inv (mkSys g (<[i := l']> (leases s))).
Proof.
  intros [Hn Ht Hu Ha Hup H1 Hex] Hi HR. unfold Release in HR.
  destruct (once l) eqn:Ho; simplify_eq.
  { rewrite list_insert_id by done. by split. }
  split; simpl; rewrite ?length_insert.
  - by destruct (release l).
  - intros j m t (m0 & Hj & Hr & _)%(released_lookup _ _ _ _ _ Hi) Hm.
    rewrite <- Hr in Hm. specialize (Ht _ _ _ Hj Hm). by destruct (release l).
  - intros j k m m' t (m0 & Hj & Hr & _)%(released_lookup _ _ _ _ _ Hi)
      (m1 & Hk & Hr' & _)%(released_lookup _ _ _ _ _ Hi) ? ?.
    apply (Hu j k m0 m1 t); congruence.
  - intros t.
    assert (Hact : is_Some (active (run_closure (release l) (gate s)) !! t) <->
                   is_Some (active (gate s) !! t) /\ release l <> Finish t).
    { clear. destruct (release l) as [t'|] eqn:Hl; simpl; [|naive_solver].
      rewrite lookup_delete. case_decide; simplify_eq.
      - split; [by intros [? ?]|by intros [? []]].
      - naive_solver. }
    rewrite Hact, Ha. split.
    + intros [(j & m & Hj & Hm & Hrm) Hne]. exists j, m. split_and!; [|done..].
      apply released_other; [|done]. intros ->. by simplify_eq.
    + intros (j & m & (m0 & Hj & Hr & Hlive)%(released_lookup _ _ _ _ _ Hi) & Hm & Hrm).
      destruct (Hlive Hm) as [Hne ->]. split; [eauto|].
      intros Hl. apply Hne. by eapply Hu.
  - split.
    + intros Hu'. destruct (release l) eqn:Hl; simpl in Hu'; [|done].
      destruct (proj1 Hup Hu') as (j & m & Hj & Hm & Hrm).
      exists j, m. split_and!; [|done..]. rewrite <- Hl. apply released_other; [|done].
      intros ->. simplify_eq. congruence.
    + intros (j & m & (m0 & Hj & Hr & Hlive)%(released_lookup _ _ _ _ _ Hi) & Hm & Hrm).
      destruct (Hlive Hm) as [Hne ->].
      destruct (release l) eqn:Hl; simpl; [apply Hup; eauto|].
      exfalso. apply Hne. eapply H1; eauto.
  - intros j k m m' (m0 & Hj & Hr & Hlive)%(released_lookup _ _ _ _ _ Hi)
      (m1 & Hk & Hr' & Hlive')%(released_lookup _ _ _ _ _ Hi) Hm Hm' ? ?.
    destruct (Hlive Hm) as [? ->]. destruct (Hlive' Hm') as [? ->]. eapply H1; eauto.
  - destruct (release l); simpl; [|done].
    intros ->%Hex. by rewrite delete_empty.
Qed.

Lemma step_length s s' : step s s' -> (length (leases s) <= length (leases s'))%nat.
Proof. destruct 1; simpl; rewrite ?length_app, ?length_insert; lia. Qed.

Lemma reachable_inv s : reachable s -> Z.of_nat (length (leases s)) < two64 -> inv s.
Proof.
  induction 1 as [|s s' Hr IH Hs]; intros Hlen; [apply inv_init|].
  pose proof (step_length _ _ Hs). destruct Hs; simpl in *.
  - rewrite length_app in Hlen. simpl in Hlen. eapply inv_begin; eauto; [apply IH|]; lia.
  - eapply inv_try_update; eauto. apply IH. lia.
  - eapply inv_release; eauto. apply IH. lia.
Qed.

#[export] Instance blocker_le_antisymm : AntiSymm (=) blocker_le.
Proof. apply two_key_le_antisymm. intros [] []; simpl; congruence. Qed.

(** C10. Mutual exclusion of updates.  In every state the gate can reach with
    the leases it handed out (fewer than 2^64, before the token counter
    wraps), an unreleased update lease is the only unreleased lease: no
    operation runs during an update, and no two updates run together. *)
Theorem update_lease_exclusive s i j l m
    (Hreach : reachable s) (Hbound : Z.of_nat (length (leases s)) < two64)
    (Hi : leases s !! i = Some l) (Hj : leases s !! j = Some m)
    (Hl : once l = false) (Hm : once m = false) (Hup : release l = FinishUpdate) :
  i = j.
Proof.
  destruct (reachable_inv s Hreach Hbound) as [_ _ _ Ha Hu H1 Hex].
  destruct (release m) as [t|] eqn:Hr; [|by eapply H1].
  assert (active (gate s) = ∅) as Hempty by (apply Hex, Hu; eauto).
  assert (is_Some (active (gate s) !! t)) as [x Hx] by (apply Ha; eauto).
  by rewrite Hempty, lookup_empty in Hx.
Qed.

(** One admitted update. *)
Definition sysA : Sys := mkSys (mkGate 0 true ∅) [mkLease false FinishUpdate].

Lemma update_lease_exclusive_witness :
  reachable sysA /\ leases sysA !! 0%nat = Some (mkLease false FinishUpdate) /\ 0%nat = 0%nat.
Proof.
  assert (reachable sysA) as Hr.
  { eapply reach_step; [apply reach_init|].
    apply (step_update (mkSys New []) (mkGate 0 true ∅) (mkLease false FinishUpdate)).
    reflexivity. }
  split; [done|]. split; [reflexivity|].
  by apply (update_lease_exclusive sysA 0 0 (mkLease false FinishUpdate)
              (mkLease false FinishUpdate)).
Defined.

(** No lost lease.  Once every handed-out lease has been released, the gate
    is idle again and the next update is admitted. *)
Theorem update_admitted_when_idle s (Hreach : reachable s)
    (Hbound : Z.of_nat (length (leases s)) < two64)
    (Hidle : forall i l, leases s !! i = Some l -> once l = true) :
  TryUpdate (gate s) =
    (mkGate (next (gate s)) true ∅, Ok (mkLease false FinishUpdate)).
Proof.
  destruct (reachable_inv s Hreach Hbound) as [_ _ _ Ha Hu _ _].
  assert (updating (gate s) = false) as Hf.
  { apply not_true_iff_false. intros (i & l & Hi & Ho & _)%Hu.
    apply Hidle in Hi. congruence. }
  assert (active (gate s) = ∅) as He.
  { apply map_eq. intros t. rewrite lookup_empty.
    destruct (active (gate s) !! t) eqn:E; [|done].
    destruct (proj1 (Ha t)) as (i & l & Hi & Ho & _); [by rewrite E|].
    apply Hidle in Hi. congruence. }
  unfold TryUpdate. by rewrite Hf, bool_decide_eq_true_2, He.
Qed.

Lemma update_admitted_when_idle_witness :
  TryUpdate (gate (mkSys New [])) = (mkGate 0 true ∅, Ok (mkLease false FinishUpdate)).
Proof.
  apply (update_admitted_when_idle (mkSys New []) reach_init); [reflexivity|].
  intros i l Hi. discriminate Hi.
Defined.

(** The busy report does not depend on Go's random map iteration order: for
    any order in which the active map is iterated, the sorted, truncated
    snapshot is the one the gate reports; its total counts every active
    operation and it lists at most 64 of them. *)
Theorem snapshot_iteration_independent g order
    (Horder : order ≡ₚ (map_to_list (active g)).*2) :
  snapshotOf order = snapshotLocked g /\
  Total (snapshotLocked g) = size (active g) /\
  (length (Blockers (snapshotLocked g)) <= maximumBlockers)%nat /\
  Sorted blocker_le (Blockers (snapshotLocked g)).
Proof.
  assert (Hsort : merge_sort blocker_le order =
                  merge_sort blocker_le (map_to_list (active g)).*2)
    by exact (merge_sort_perm_unique blocker_le _ _ Horder).
  unfold snapshotLocked, snapshotOf; simpl. rewrite Hsort. split; [done|].
  split; [|split].
  - rewrite merge_sort_Permutation, length_fmap. by apply length_map_to_list.
  - case_bool_decide; [rewrite length_take; lia|lia].
  - assert (Hs : Sorted blocker_le (merge_sort blocker_le (map_to_list (active g)).*2))
      by (apply Sorted_merge_sort; apply _).
    case_bool_decide; [exact (Sorted_take blocker_le _ _ Hs)|done].
Qed.

Lemma snapshot_iteration_independent_witness :
  let g := mkGate 2 false {[ 1 := mkBlocker "b" "x"; 2 := mkBlocker "a" "y" ]} in
  snapshotOf [mkBlocker "b" "x"; mkBlocker "a" "y"] = snapshotLocked g /\
  Blockers (snapshotLocked g) = [mkBlocker "a" "y"; mkBlocker "b" "x"].
Proof.
  intros g. split; [|reflexivity].
  apply (snapshot_iteration_independent g). vm_compute. apply Permutation_swap.
Defined.

