(* ===== verification/Runtime.v ===== *)
(** * The world of the deployment controller

    The controller of [internal/deployment] drives a container engine, a
    publisher, a clock, resolvers and the state store through interfaces.
    [World] is what the controller reads and writes: the database, its own map
    of active containers, the admission gate, and the trace of the calls it
    has made, newest first.  [Env] answers every call from the trace, so that
    an answer may depend on the whole history; it also says which transactions
    of other sessions commit while a call is in progress.  Every theorem
    quantifies over [Env].  Structured logging is not modelled. *)

From S2P Require Import Prelude Effects Names Admission ServiceConfig DeploymentStore.

(** ** Values exchanged with the engine *)

Record EngineImage := mkImage { im_ID : string; im_Digest : string; im_Created : Z }.

Record Container := mkContainer {
  ct_ID : string; ct_State : string; ct_ExitCode : Z; ct_IPs : gmap string (list string)
}.

Record PullRequest := mkPull {
  pr_Reference : string; pr_Username : string; pr_Password : string; pr_Refresh : bool
}.

Record ManagedVolumeMount := mkManaged {
  mv_ID : string; mv_Source : string; mv_Destination : string; mv_Initialized : bool
}.

Record ContainerSpec := mkSpec {
  cs_ImageID : string; cs_Name : string; cs_Entrypoint : list string; cs_Command : list string;
  cs_Environment : gmap string string; cs_Labels : gmap string string; cs_Network : string;
  cs_DNSServers : list string; cs_DNSSearch : list string;
  cs_ManagedVolumes : list ManagedVolumeMount; cs_LogDriver : string; cs_CgroupParent : string;
  cs_CPUMillicores : Z; cs_MemoryMaxBytes : Z
}.

(** [Gateway] is the printed address. *)
Record Placement := mkPlacement {
  NetworkName : string; Gateway : string; DNSSearch : string; CgroupParent : string
}.

Record ImageCredential := mkCredential { Username : string; Password : string }.

Inductive EnvironmentKind := EnvironmentProduction | EnvironmentPreview.

Record EnvironmentContext := mkEnvironment {
  ec_DeploymentID : string; ec_Kind : EnvironmentKind; ec_PreviewURL : string;
  ec_SourceRevision : string; ec_CommitMessage : string
}.

Record WebhookEvent := mkEvent {
  ev_project : string; ev_project_name : string; ev_service : string; ev_service_name : string;
  ev_deployment : string; ev_status : string; ev_code : string; ev_message : string; ev_type : string
}.

Record activeContainer := mkActive {
  ac_deploymentID : string; ac_container : Container; ac_networkName : string
}.

(** ** Calls *)

Inductive Call :=
| CStore (operation : string)
| CPull (request : PullRequest)
| CInspectImage (reference : string)
| CCreate (spec : ContainerSpec)
| CStart (containerID : string)
| CStop (containerID : string)
| CRemove (containerID : string)
| CInspect (containerID : string)
| CPublish (desired : ServiceDesired) (container : Container)
| CWithdraw (desired : ServiceDesired)
| CGrowth
| CCredential
| CEnvironment (context : EnvironmentContext)
| CBeforeDeploy (context : EnvironmentContext) (imageID : string)
| CPlacement
| CDispatch (event : WebhookEvent)
| CNow
| CNewID
| CProbe (address : string) (port : Z) (path : string)
| CTick
| CContext.

Class Env := {
  a_fault : list Call -> TxFault;
  a_read : list Call -> option goerr;
  a_pull : list Call -> result goerr EngineImage;
  a_image : list Call -> result goerr EngineImage;
  a_create : list Call -> result goerr Container;
  (** The container an engine call that failed has nevertheless created. *)
  a_orphan : list Call -> option string;
  a_inspect : list Call -> result goerr Container;
  a_credential : list Call -> result goerr ImageCredential;
  a_environment : list Call -> result goerr (gmap string string);
  a_placement : list Call -> result goerr Placement;
  a_newID : list Call -> result goerr string;
  a_probe : list Call -> result goerr Z;
  (** The error of a call that only returns an error; [None] is nil. *)
  a_error : list Call -> option goerr;
  (** The joined errors of closing the two log writers of a failed start. *)
  a_close : list Call -> option goerr;
  (** Nanoseconds since year 1. *)
  a_now : list Call -> Z;
  a_others : list Call -> DB -> DB
}.

(** Optional dependencies of the controller that may be nil, and its volume
    root. *)
Record Config := mkConfig {
  has_credentials : bool; has_environment : bool; has_beforeDeploy : bool; has_webhooks : bool;
  volumeRoot : string
}.

Record World := mkWorld {
  w_db : DB;
  w_active : gmap string activeContainer;
  w_gate : Gate;
  w_trace : list Call
}.

(** ** The monad: [None] means that the fuel of a waiting loop ran out *)

Notation M := (Eff World).

(** ** Calls in the monad *)

Section Calls.
Context `{HostnameTables} `{ConfigTables} {env : Env}.

(** Other sessions' transactions commit, then the call is answered. *)
Definition call {A} (c : Call) (answer : list Call -> A) : M A := fun w =>
  let trace := c :: w_trace w in
  Some (answer trace, mkWorld (a_others trace (w_db w)) (w_active w) (w_gate w) trace).

Definition call_error (c : Call) : M (result goerr unit) :=
  call c (fun trace => of_error (a_error trace)).

(** A transaction of the store. *)
Definition write (name : string) (operation : TxFault -> DB -> result goerr unit * DB)
    : M (result goerr unit) := fun w =>
  let trace := CStore name :: w_trace w in
  let '(r, db') := operation (a_fault trace) (a_others trace (w_db w)) in
  Some (r, mkWorld db' (w_active w) (w_gate w) trace).

(** A query of the store. *)
Definition read {A} (name : string) (query : DB -> result goerr A) : M (result goerr A) := fun w =>
  let trace := CStore name :: w_trace w in
  let db' := a_others trace (w_db w) in
  Some (match a_read trace with
        | Some e => Err e
        | None => query db'
        end, mkWorld db' (w_active w) (w_gate w) trace).

Definition now : M Z := call CNow a_now.

Definition activeContainerOf (serviceID : string) : M (option activeContainer) := fun w =>
  Some (w_active w !! serviceID, w).
Definition setActive (serviceID : string) (active : activeContainer) : M unit := fun w =>
  Some (tt, mkWorld (w_db w) (<[serviceID := active]> (w_active w)) (w_gate w) (w_trace w)).
Definition clearActive (serviceID : string) : M unit := fun w =>
  Some (tt, mkWorld (w_db w) (delete serviceID (w_active w)) (w_gate w) (w_trace w)).

(** [admission.Begin] and the deferred [Release]. *)
Definition admission_error (e : Admission.error) : goerr :=
  match e with
  | ErrBusy => Sentinel "admission.ErrBusy" "platform has active operations"
  | ErrUpdating => Sentinel "admission.ErrUpdating" "platform is updating"
  | ErrInvalidField => Msg "admission blocker kind and ID must be bounded printable values"
  end.

Definition with_lease {A} (kind id : string) (body : M (result goerr A)) : M (result goerr A) :=
  fun w =>
    let '(g, r) := Admission.Begin kind id (w_gate w) in
    let w1 := mkWorld (w_db w) (w_active w) g (w_trace w) in
    match r with
    | Err e => Some (Err (admission_error e), w1)
    | Ok lease =>
        match body w1 with
        | None => None
        | Some (a, w2) =>
            Some (a, mkWorld (w_db w2) (w_active w2) (snd (Release lease (w_gate w2))) (w_trace w2))
        end
    end.

End Calls.

(** [Time.UnixMilli] *)
Definition unix_epoch : Z := 62135596800 * second.
Definition UnixMilli (t : Z) : Z := (t - unix_epoch) / 1000000.
