(* ===== verification/Controller.v ===== *)
(** * Deployment controller

    [internal/deployment/controller.go].  A service moves from one deployment
    to the next by a cutover: the candidate container is created, the old one
    is withdrawn and stopped, the candidate is started and probed, the state
    store commits the new active pointer, and only then the controller's own
    map and the publisher follow.  The per-service mutex makes each operation
    run alone for its service; operations of other sessions on the database
    are the interference of [Env]. *)

From stdpp Require Import pretty.
From Stdlib Require Import Ascii.
From S2P Require Import Prelude Effects Names Admission ServiceConfig DeploymentStore Runtime.


Definition processStartupGrace : Z := 3 * second.

Definition ErrBlockedPair : goerr :=
  Sentinel "deployment.ErrBlockedPair" "deployment pair is blocked by an earlier failure".
Definition ErrImageUploadRequired : goerr :=
  Sentinel "deployment.ErrImageUploadRequired" "service is waiting for an uploaded image".

Definition EventDeploymentStarted : string := "deployment.started".
Definition EventDeploymentSucceeded : string := "deployment.succeeded".
Definition EventDeploymentFailed : string := "deployment.failed".
Definition EventDeploymentInterrupted : string := "deployment.interrupted".
Definition EventDeploymentSkipped : string := "deployment.skipped".

Record SourceResolution := mkResolution {
  sr_Image : EngineImage; sr_Reference : string; sr_RevisionID : string;
  sr_Revision : string; sr_CommitMessage : string
}.

Record RuntimeStatus := mkStatus { rs_DeploymentID : string; rs_State : string; rs_ExitCode : Z }.
Record Backend := mkBackend { be_DeploymentID : string; be_Address : string; be_Port : Z }.
Record TerminalTarget := mkTarget { tt_DeploymentID : string; tt_ContainerID : string }.
Record quiescedService := mkQuiesced { q_desired : ServiceDesired; q_active : activeContainer }.

(** The variables of [deploy] that its closures capture and assign. *)
Record Attempt := mkAttempt {
  at_desired : ServiceDesired;
  at_image : EngineImage; at_reference : string; at_revision : string;
  at_source : string; at_commit : string;
  at_started : bool
}.

Definition no_image : EngineImage := mkImage "" "" 0.
Definition no_container : Container := mkContainer "" "" 0 ∅.

Definition with_snapshot (d : ServiceDesired) (s : Snapshot) : ServiceDesired :=
  mkDesired (ds_id d) (ds_project d) (ds_project_name d) (ds_name d) (ds_enabled d)
    (ds_active d) (ds_active_digest d) (ds_active_hash d) s.
Definition with_active (d : ServiceDesired) (id : string) : ServiceDesired :=
  mkDesired (ds_id d) (ds_project d) (ds_project_name d) (ds_name d) (ds_enabled d)
    id (ds_active_digest d) (ds_active_hash d) (ds_snapshot d).

Definition with_resolution (l : Attempt) (image : EngineImage) (reference revision source commit : string)
    : Attempt :=
  mkAttempt (at_desired l) image reference revision source commit (at_started l).
Definition with_image (l : Attempt) (image : EngineImage) : Attempt :=
  with_resolution l image (at_reference l) (at_revision l) (at_source l) (at_commit l).
Definition with_desired (l : Attempt) (d : ServiceDesired) : Attempt :=
  mkAttempt d (at_image l) (at_reference l) (at_revision l) (at_source l) (at_commit l) (at_started l).

Definition safeRoot (value : string) : bool :=
  has_prefix "/" value && bool_decide (Clean_rooted value = value)
  && negb (bool_decide (value = "/")).

(** The required interfaces of the constructor. *)
Record Dependencies := mkDependencies {
  dep_Store : bool; dep_Engine : bool; dep_Publisher : bool; dep_Growth : bool;
  dep_Admission : bool; dep_Placement : bool; dep_ContainerLogs : bool; dep_config : Config
}.

Definition New (d : Dependencies) : result goerr (Config * gmap string activeContainer) :=
  if negb (dep_Store d && dep_Engine d && dep_Publisher d && dep_Growth d
           && dep_Admission d && dep_Placement d)
  then Err (Msg "deployment controller dependencies are incomplete")
  else if negb (safeRoot (volumeRoot (dep_config d)))
  then Err (Msg "deployment controller volume root must be a canonical absolute non-root path")
  else if negb (dep_ContainerLogs d)
  then Err (Msg "deployment controller container log sink is required")
  else Ok (dep_config d, ∅).

Definition minimumReleaseAgePending (created now : Z) (minimumDays : Z) : bool :=
  if minimumDays <=? 0 then false
  else if is_zero created then true
  else let minimumAge := i64 (i64 (minimumDays * 24) * hour) in
       now - minimumAge <? created.

Section Controller.
Context `{HostnameTables} `{ConfigTables} {env : Env} (config : Config).

(** ** Runtime helpers *)

Definition dispatchDeployment (desired : ServiceDesired)
    (deploymentID status code message eventType : string) : M unit :=
  if negb (has_webhooks config) then mret tt
  else call (CDispatch (mkEvent (ds_project desired) (ds_project_name desired) (ds_id desired)
               (ds_name desired) deploymentID status code message eventType)) (fun _ => tt).

(** [containerlogs.StartAttached] with the engine and sink present. *)
Definition StartAttached (resourceID resourceName deploymentID containerID : string)
    : M (result goerr unit) :=
  if empty resourceID || empty resourceName || empty deploymentID || empty containerID
  then throw (Msg "attached container log dependencies are incomplete")
  else call (CStart containerID) (fun trace =>
         match a_error trace with
         | None => Ok tt
         | Some e => of_error (errors_Join (Some e) (a_close trace))
         end).

Definition startContainer (desired : ServiceDesired) (containerID deploymentID : string)
    : M (result goerr unit) :=
  StartAttached (ds_id desired) (ds_name desired) deploymentID containerID.

Fixpoint mount_volumes (desired : ServiceDesired) (mounts : list VolumeMount)
    : M (result goerr (list ManagedVolumeMount)) :=
  match mounts with
  | [] => mret (Ok [])
  | mount :: rest =>
      r ← read "VolumeInitialized"
            (VolumeInitialized (ds_project desired) (ds_id desired) (VolumeID mount));
      match r with
      | Err e => throw (Wrap "inspect volume initialization" e)
      | Ok initialized =>
          let! volumes := mount_volumes desired rest in
          mret (Ok (mkManaged (VolumeID mount)
                      (Join (volumeRoot config) (ds_project desired) (VolumeID mount))
                      (ContainerPath mount) initialized :: volumes))
      end
  end.

Definition createRuntimeContainer (desired : ServiceDesired) (environmentContext : EnvironmentContext)
    (imageID : string) : M (result goerr (Container * Placement)) :=
  let deploymentID := ec_DeploymentID environmentContext in
  p ← call CPlacement a_placement;
  match p with
  | Err e => throw (Wrap "place service runtime" e)
  | Ok placement =>
      let! volumes := mount_volumes desired (VolumeMounts (ds_snapshot desired)) in
      resolved ← (if has_environment config
                  then call (CEnvironment environmentContext) a_environment
                  else mret (Ok (Environment (ds_snapshot desired))));
      match resolved with
      | Err e => throw (Wrap "resolve service variables" e)
      | Ok environment =>
          let spec := mkSpec imageID ("platformd-service-" +:+ deploymentID)
                (Command (ds_snapshot desired)) (Args (ds_snapshot desired)) environment
                {["io.platformd.owner" := "service"; "io.platformd.project-id" := ds_project desired;
                  "io.platformd.service-id" := ds_id desired;
                  "io.platformd.deployment-id" := deploymentID]}
                (NetworkName placement) [Gateway placement] [DNSSearch placement] volumes "none"
                (CgroupParent placement) (CPUMillicores (ds_snapshot desired))
                (MemoryMaxBytes (ds_snapshot desired)) in
          let! container := call (CCreate spec) a_create in
          mret (Ok (container, placement))
      end
  end.

Fixpoint recordVolumes (desired : ServiceDesired) (mounts : list VolumeMount)
    : M (result goerr unit) :=
  match mounts with
  | [] => mret (Ok tt)
  | mount :: rest =>
      t ← now;
      r ← write "RecordVolumeInitialization" (fun fault =>
            RecordVolumeInitialization fault (ds_project desired) (ds_id desired) (VolumeID mount)
              (UnixMilli t));
      match r with
      | Err e => throw (Wrap ("record volume " +:+ VolumeID mount +:+ " initialization") e)
      | Ok _ => recordVolumes desired rest
      end
  end.
Definition recordVolumeInitializations (desired : ServiceDesired) : M (result goerr unit) :=
  recordVolumes desired (VolumeMounts (ds_snapshot desired)).

(** Whether the response is a 2xx or 3xx, or the error of the request. *)
Definition probeHTTP (address : string) (port : Z) (healthPath : string)
    : M (bool * option goerr) :=
  r ← call (CProbe address port healthPath) a_probe;
  mret (match r with
        | Err e => (false, Some e)
        | Ok status => ((200 <=? status) && (status <? 400), None)
        end).

(** One pass of the readiness loop, before it waits for the ticker: [Some] is
    the outcome it returns with. *)
Definition checkReady (healthCheck : option HealthCheck) (networkName : string) (deadline : Z)
    (container : Container) : M (option (result goerr Container)) :=
  match healthCheck with
  | None =>
      t ← now;
      mret (if t <? deadline then None else Some (Ok container))
  | Some h =>
      probed ← match default [] (ct_IPs container !! networkName) with
               | [address] =>
                   p ← probeHTTP address (Port h) (Path h);
                   match p with
                   | (true, _) => mret (Some (Ok container))
                   | (false, Some e) =>
                       t ← now;
                       mret (if t <? deadline then None else Some (Err e))
                   | (false, None) => mret None
                   end
               | _ => mret None
               end;
      match probed with
      | Some outcome => mret (Some outcome)
      | None =>
          t ← now;
          mret (if t <? deadline then None else Some (Err (Msg "HTTP readiness timed out")))
      end
  end.

Fixpoint waitLoop (fuel : nat) (healthCheck : option HealthCheck) (containerID networkName : string)
    (deadline : Z) : M (result goerr Container) :=
  match fuel with
  | O => fun _ => None
  | S fuel' =>
      let! container := call (CInspect containerID) a_inspect in
      if negb (bool_decide (ct_State container = "running"))
      then throw (Msg ("container state is " +:+ ct_State container))
      else
        outcome ← checkReady healthCheck networkName deadline container;
        match outcome with
        | Some r => mret r
        | None =>
            let! _ := call_error CTick in
            waitLoop fuel' healthCheck containerID networkName deadline
        end
  end.

Definition waitReady (fuel : nat) (desired : ServiceDesired) (containerID networkName : string)
    : M (result goerr Container) :=
  let healthCheck := HealthCheck_ (ds_snapshot desired) in
  let timeout := match healthCheck with
                 | Some h => i64 (TimeoutSeconds h * second)
                 | None => DefaultHealthTimeoutSeconds * second
                 end in
  t0 ← now;
  deadline ← match healthCheck with
             | Some _ => mret (t0 + timeout)
             | None => t ← now; mret (t + processStartupGrace)
             end;
  waitLoop fuel healthCheck containerID networkName deadline.

Definition fail (deploymentID code : string) (cause : goerr) : M goerr :=
  let message := error_text cause in
  t ← now;
  r ← write "FailDeployment" (fun fault =>
        FailDeployment fault deploymentID code message (UnixMilli t));
  match r with
  | Err e => mret (Joined cause e)
  | Ok _ =>
      d ← read "Deployment" (Deployment deploymentID);
      match d with
      | Err _ => mret cause
      | Ok deployment =>
          s ← read "DesiredService" (DesiredService (dr_service deployment));
          match s with
          | Err _ => mret cause
          | Ok desired =>
              _ ← dispatchDeployment desired deploymentID "failed" code message EventDeploymentFailed;
              mret cause
          end
      end
  end.

Definition stopDisabled (desired : ServiceDesired) : M (result goerr unit) :=
  active ← activeContainerOf (ds_id desired);
  match active with
  | None => mret (Ok tt)
  | Some a =>
      let! _ := call_error (CWithdraw desired) in
      let! _ := call_error (CStop (ct_ID (ac_container a))) in
      let! _ := call_error (CRemove (ct_ID (ac_container a))) in
      _ ← clearActive (ds_id desired);
      mret (Ok tt)
  end.

Definition restoreOld (desired : ServiceDesired) (old : option activeContainer) : M unit :=
  match old with
  | None => mret tt
  | Some o =>
      r ← startContainer desired (ct_ID (ac_container o)) (ac_deploymentID o);
      match r with
      | Err _ => mret tt
      | Ok _ =>
          c ← call (CInspect (ct_ID (ac_container o))) a_inspect;
          match c with
          | Err _ => mret tt
          | Ok container =>
              _ ← call_error (CPublish desired container);
              mret tt
          end
      end
  end.

(** ** Cutover *)

(** Give the old container back its place, then record the failure; the
    candidate is still to be removed. *)
Definition abandon (desired : ServiceDesired) (old : option activeContainer)
    (deploymentID code : string) (cause : goerr) : M (bool * result goerr unit) :=
  _ ← restoreOld desired old;
  e ← fail deploymentID code cause;
  mret (true, Err e).

(** [runDeployment] after the candidate exists: the first component is
    [candidateActive] at the return. *)
Definition runCandidate (fuel : nat) (desired : ServiceDesired) (deploymentID : string)
    (candidate : Container) (placement : Placement) : M (bool * result goerr unit) :=
  old ← activeContainerOf (ds_id desired);
  if match old with
     | Some o => negb (bool_decide (ac_deploymentID o = ds_active desired))
     | None => false
     end
  then e ← fail deploymentID "active_runtime_missing"
             (Msg "active deployment has no matching runtime container");
       mret (true, Err e)
  else
    withdrawn ← match old with
                | None => mret (Ok tt)
                | Some o =>
                    w ← call_error (CWithdraw desired);
                    match w with
                    | Err e => mret (Err ("publication_withdraw_failed", e))
                    | Ok _ =>
                        s ← call_error (CStop (ct_ID (ac_container o)));
                        match s with
                        | Err e => mret (Err ("old_stop_failed", e))
                        | Ok _ => mret (Ok tt)
                        end
                    end
                end;
    match withdrawn with
    | Err (code, e) => abandon desired old deploymentID code e
    | Ok _ =>
        started ← startContainer desired (ct_ID candidate) deploymentID;
        match started with
        | Err e => abandon desired old deploymentID "candidate_start_failed" e
        | Ok _ =>
            recorded ← recordVolumeInitializations desired;
            match recorded with
            | Err e => abandon desired old deploymentID "volume_initialization_commit_failed" e
            | Ok _ =>
                waited ← waitReady fuel desired (ct_ID candidate) (NetworkName placement);
                match waited with
                | Err e => abandon desired old deploymentID "readiness_failed" e
                | Ok ready =>
                    t ← now;
                    committed ← write "ActivateDeployment" (fun fault =>
                      ActivateDeployment fault (ds_id desired) deploymentID (ds_active desired)
                        (UnixMilli t));
                    match committed with
                    | Err e => abandon desired old deploymentID "publication_commit_failed" e
                    | Ok _ =>
                        _ ← dispatchDeployment desired deploymentID "succeeded" "" ""
                              EventDeploymentSucceeded;
                        let desired := with_active desired deploymentID in
                        _ ← setActive (ds_id desired)
                              (mkActive deploymentID ready (NetworkName placement));
                        published ← call_error (CPublish desired ready);
                        match published with
                        | Err e => mret (false, Err (Wrap
                            "publish ready service after deployment commit" e))
                        | Ok _ =>
                            _ ← match old with
                                | Some o => call_error (CRemove (ct_ID (ac_container o)))
                                | None => mret (Ok tt)
                                end;
                            mret (false, Ok tt)
                        end
                    end
                end
            end
        end
    end.

Definition runDeployment (fuel : nat) (desired : ServiceDesired)
    (environmentContext : EnvironmentContext) (imageID : string) : M (result goerr unit) :=
  let deploymentID := ec_DeploymentID environmentContext in
  created ← createRuntimeContainer desired environmentContext imageID;
  match created with
  | Err e =>
      e' ← fail deploymentID "candidate_create_failed" e;
      throw e'
  | Ok (candidate, placement) =>
      outcome ← runCandidate fuel desired deploymentID candidate placement;
      let '(candidateActive, r) := outcome in
      _ ← (if candidateActive : bool then call_error (CRemove (ct_ID candidate)) else mret (Ok tt));
      mret r
  end.

(** ** The closures of [deploy] *)

Section Attempt.
Context (serviceID deploymentID snapshotJSON configHash : string) (startedAt : Z).

Definition beginDeployment (l : Attempt) (resolution : SourceResolution)
    : M (Attempt * option goerr) :=
  if at_started l then mret (l, None)
  else
    let l1 := with_resolution l (at_image l) (sr_Reference resolution) (at_revision l)
                (sr_Revision resolution) (sr_CommitMessage resolution) in
    r ← write "BeginDeployment" (fun fault => BeginDeployment fault
          (mkBegin deploymentID serviceID (im_Digest (sr_Image resolution)) (at_reference l1)
             (sr_RevisionID resolution) (at_source l1) (at_commit l1) configHash snapshotJSON
             (UnixMilli startedAt) "" 0));
    match r with
    | Err e => mret (l1, Some e)
    | Ok _ =>
        _ ← dispatchDeployment (at_desired l1) deploymentID "running" "" "" EventDeploymentStarted;
        mret (mkAttempt (at_desired l1) (at_image l1) (at_reference l1) (at_revision l1)
                (at_source l1) (at_commit l1) true, None)
    end.

Definition resolution_of (l : Attempt) : SourceResolution :=
  mkResolution (at_image l) (at_reference l) (at_revision l) (at_source l) (at_commit l).

Definition failDeployment (l : Attempt) (code : string) (failure : goerr) : M goerr :=
  begun ← (if at_started l then mret (l, None) else beginDeployment l (resolution_of l));
  match begun with
  | (_, Some beginErr) => mret (Joined failure beginErr)
  | (l1, None) =>
      t ← now;
      finished ← write "FinishDeployment" (fun fault =>
        FinishDeployment fault deploymentID "failed" code (error_text failure) (UnixMilli t));
      match finished with
      | Ok _ =>
          _ ← dispatchDeployment (at_desired l1) deploymentID "failed" code (error_text failure)
                EventDeploymentFailed;
          mret failure
      | Err finishErr => mret (Joined failure finishErr)
      end
  end.

(** [return failDeployment(...)] *)
Definition fail_with {A} (l : Attempt) (code : string) (failure : goerr) : M (result goerr A) :=
  e ← failDeployment l code failure; throw e.

Definition finishAttempt (l : Attempt) (status code message : string) : M (result goerr unit) :=
  if negb (at_started l) then mret (Ok tt)
  else
    t ← now;
    finished ← write "FinishDeployment" (fun fault =>
      FinishDeployment fault deploymentID status code message (UnixMilli t));
    match finished with
    | Err e => throw e
    | Ok _ =>
        _ ← dispatchDeployment (at_desired l) deploymentID status code message
              (if bool_decide (status = "interrupted") then EventDeploymentInterrupted
               else EventDeploymentSkipped);
        mret (Ok tt)
    end.

Definition recordResolvedDeployment (l : Attempt) : M (result goerr Attempt) :=
  begun ← beginDeployment l (resolution_of l);
  match begun with
  | (_, Some e) => throw e
  | (l1, None) =>
      updated ← write "UpdateDeploymentSource" (fun fault =>
        UpdateDeploymentSource fault deploymentID (im_Digest (at_image l1)) (at_reference l1)
          (at_source l1) (at_commit l1));
      match updated with
      | Err e => fail_with l1 "state_update_failed" e
      | Ok _ => mret (Ok l1)
      end
  end.

(** ** The phases of [deploy] *)

Definition missing (l : Attempt) : bool := empty (at_reference l) || empty (at_revision l).

(** Which image to deploy: the uploaded one, the one of the active or the
    latest uploaded deployment, the latest reusable revision, or the
    configured reference. *)
Definition resolveSource (uploaded : option SourceResolution) (l : Attempt)
    : M (result goerr Attempt) :=
  let source := Source_ (ds_snapshot (at_desired l)) in
  match uploaded with
  | Some u => mret (Ok (with_resolution l (sr_Image u) (sr_Reference u) (sr_RevisionID u)
                          (sr_Revision u) (sr_CommitMessage u)))
  | None =>
      if bool_decide (Type_ source = DockerImageUpload)
      then
        let! l1 := (if empty (ds_active (at_desired l)) then mret (Ok l)
                    else let! d := read "Deployment" (Deployment (ds_active (at_desired l))) in
                         mret (Ok (if negb (empty (dr_reference d)) && negb (empty (dr_revision d))
                                   then with_resolution l (at_image l) (dr_reference d)
                                          (dr_revision d) (dr_source_revision d) (dr_commit d)
                                   else l))) in
        let! l2 := (if negb (missing l1) then mret (Ok l1)
                    else d ← read "LatestUploadedDeployment" (LatestUploadedDeployment serviceID);
                         match d with
                         | Ok d => mret (Ok (with_resolution l1 (at_image l1) (dr_reference d)
                                     (dr_revision d) (dr_source_revision d) (dr_commit d)))
                         | Err e => if errors_Is "state.ErrDeploymentNotFound" e
                                    then mret (Ok l1) else throw e
                         end) in
        let! l3 := (if negb (missing l2) then mret (Ok l2)
                    else r ← read "LatestReusableProductionRevision"
                               (LatestReusableProductionRevision serviceID);
                         match r with
                         | Ok (id, revision) =>
                             mret (Ok (with_resolution l2 (at_image l2)
                               ("oci-archive:" +:+ r_archive revision) id (r_sha revision)
                               (r_commit revision)))
                         | Err e => if errors_Is "state.ErrImageRevisionNotFound" e
                                    then throw ErrImageUploadRequired else throw e
                         end) in
        if missing l3 then throw ErrImageUploadRequired else mret (Ok l3)
      else if empty (at_reference l) then throw (Msg "image source reference is empty")
      else mret (Ok l)
  end.

(** Credentials, the pull, and the checks of the resolved image. *)
Definition resolveImage (uploaded : option SourceResolution) (l : Attempt)
    : M (result goerr Attempt) :=
  let source := Source_ (ds_snapshot (at_desired l)) in
  let code := "source_resolution_failed" in
  let! credential :=
    (if negb (bool_decide (Type_ source = PrivateImage)) then mret (Ok (mkCredential "" ""))
     else if negb (has_credentials config)
     then fail_with l code (Msg "image credential resolution is not configured")
     else c ← call CCredential a_credential;
          match c with
          | Ok c => mret (Ok c)
          | Err e => fail_with l code (Wrap "resolve image credential" e)
          end) in
  let! l1 :=
    (match uploaded with
     | Some _ => mret (Ok l)
     | None =>
         p ← call (CPull (mkPull (at_reference l) (Username credential) (Password credential)
                            (negb (bool_decide (Type_ source = DockerImageUpload))
                             && negb (IsDigestReference (at_reference l))))) a_pull;
         match p with
         | Ok image => mret (Ok (with_image l image))
         | Err e => fail_with l code (Wrap "resolve and pull service image" e)
         end
     end) in
  if empty (im_Digest (at_image l1)) then fail_with l1 code (Msg "resolved image has no digest")
  else if IsImage source
  then match PinnedReference (at_reference l1) (im_Digest (at_image l1)) with
       | Ok _ => mret (Ok l1)
       | Err e => fail_with l1 code (config_error e)
       end
  else mret (Ok l1).

(** From the recorded attempt to the cutover. *)
Definition deployCandidate (fuel : nat) (force : bool) (l : Attempt) : M (result goerr unit) :=
  let! l1 := recordResolvedDeployment l in
  let! proceed :=
    (if force then mret (Ok true)
     else b ← read "LatestFailedDeployment" (fun db =>
                Ok (LatestFailedDeployment serviceID configHash (im_Digest (at_image l1)) db));
          match b with
          | Err e => fail_with l1 "state_load_failed" e
          | Ok blocked => mret (Ok (negb blocked))
          end) in
  if negb proceed
  then _ ← finishAttempt l1 "skipped" "blocked_pair" (error_text ErrBlockedPair);
       throw ErrBlockedPair
  else
    let environmentContext := mkEnvironment deploymentID EnvironmentProduction ""
                                (at_source l1) (at_commit l1) in
    let! _ :=
      (match BeforeDeploy_ (ds_snapshot (at_desired l1)) with
       | None => mret (Ok tt)
       | Some _ =>
           if negb (has_beforeDeploy config)
           then fail_with l1 "before_deploy_failed" (Msg "before-deploy executor is not configured")
           else r ← call_error (CBeforeDeploy environmentContext (im_ID (at_image l1)));
                match r with
                | Ok _ => mret (Ok tt)
                | Err e => fail_with l1 "before_deploy_failed" e
                end
       end) in
    runDeployment fuel (at_desired l1) environmentContext (im_ID (at_image l1)).

(** The unchanged path: the resolved pair is already active. *)
Definition deployUnchanged (l : Attempt) : M (result goerr unit) :=
  active ← activeContainerOf serviceID;
  match active with
  | None => fail_with l "runtime_state_missing"
              (Msg "active deployment has no matching runtime container")
  | Some a =>
      if negb (bool_decide (ac_deploymentID a = ds_active (at_desired l)))
      then fail_with l "runtime_state_missing"
             (Msg "active deployment has no matching runtime container")
      else
        let! _ :=
          (if negb (at_started l) then mret (Ok tt)
           else let! _ := write "DiscardDeployment" (fun fault =>
                            DiscardDeployment fault deploymentID) in
                _ ← dispatchDeployment (at_desired l) deploymentID "skipped" "unchanged"
                      "Resolved image and service configuration are already active"
                      EventDeploymentSkipped;
                mret (Ok tt)) in
        call_error (CPublish (at_desired l) (ac_container a))
  end.

(** After the image is resolved: the desired state is read again, and the
    attempt is interrupted if it changed meanwhile. *)
Definition deployResolved (fuel : nat) (force : bool) (l : Attempt) : M (result goerr unit) :=
  c ← read "DesiredService" (DesiredService serviceID);
  match c with
  | Err e => fail_with l "state_load_failed" e
  | Ok current =>
      match Canonical (ds_snapshot current) with
      | Err e => fail_with l "state_load_failed" (config_error e)
      | Ok (currentNormalized, _, currentHash) =>
          if negb (ds_enabled current) || negb (bool_decide (currentHash = configHash))
          then
            let! l1 := recordResolvedDeployment l in
            _ ← finishAttempt l1 "interrupted" "service_changed" (error_text ErrServiceChanged);
            throw ErrServiceChanged
          else
            let desired := with_snapshot current currentNormalized in
            let l1 := with_desired l desired in
            let image := at_image l1 in
            let source := Source_ (ds_snapshot desired) in
            if negb force && bool_decide (ds_active_digest desired = im_Digest image)
               && bool_decide (ds_active_hash desired = configHash)
            then deployUnchanged l1
            else
              pending ←
                (if negb force && AutoUpdate source && IsRemoteImage source
                    && negb (empty (ds_active desired))
                    && bool_decide (ds_active_hash desired = configHash)
                    && negb (bool_decide (ds_active_digest desired = im_Digest image))
                 then t ← now;
                      mret (minimumReleaseAgePending (im_Created image) t
                              (MinimumReleaseAgeDays source))
                 else mret false);
              if pending : bool then mret (Ok tt)
              else
                let! l2 :=
                  (if negb (empty (im_ID image)) then mret (Ok l1)
                   else i ← call (CInspectImage (im_Digest image)) a_image;
                        match i with
                        | Err e => fail_with l1 "source_resolution_failed"
                                     (Wrap "inspect resolved image" e)
                        | Ok resolved =>
                            if empty (im_ID resolved) || empty (im_Digest resolved)
                            then fail_with (with_image l1 resolved) "source_resolution_failed"
                                   (Msg "resolved image has no ID or digest")
                            else mret (Ok (with_image l1 resolved))
                        end) in
                deployCandidate fuel force l2
      end
  end.

End Attempt.

Definition deployLocked (fuel : nat) (serviceID deploymentIDOverride : string)
    (uploaded : option SourceResolution) (force : bool) : M (result goerr unit) :=
  let! desired0 := read "DesiredService" (DesiredService serviceID) in
  if negb (ds_enabled desired0) then stopDisabled desired0
  else
    match Canonical (ds_snapshot desired0) with
    | Err e => throw (config_error e)
    | Ok (normalized, snapshotJSON, configHash) =>
        let desired := with_snapshot desired0 normalized in
        startedAt ← now;
        let! deploymentID :=
          (if negb (empty deploymentIDOverride) then mret (Ok deploymentIDOverride)
           else i ← call CNewID a_newID;
                match i with
                | Ok i => mret (Ok i)
                | Err e => throw (Wrap "allocate deployment ID" e)
                end) in
        permitted ← call_error CGrowth;
        match permitted with
        | Err e =>
            active ← activeContainerOf serviceID;
            match active with
            | Some a =>
                if negb force && errors_Is "diskpressure.ErrGrowthDenied" e
                   && bool_decide (ac_deploymentID a = ds_active desired)
                   && bool_decide (ds_active_hash desired = configHash)
                then call_error (CPublish desired (ac_container a))
                else throw e
            | None => throw e
            end
        | Ok _ =>
            let l := mkAttempt desired no_image (ImageReference (Source_ normalized)) "" "" "" false in
            let! l1 := resolveSource serviceID uploaded l in
            let! l2 := resolveImage serviceID deploymentID snapshotJSON configHash startedAt
                         uploaded l1 in
            deployResolved serviceID deploymentID snapshotJSON configHash startedAt fuel force l2
        end
    end.

Definition deploy (fuel : nat) (serviceID deploymentIDOverride : string)
    (uploaded : option SourceResolution) (force : bool) : M (result goerr unit) :=
  with_lease "service_deploy" serviceID
    (deployLocked fuel serviceID deploymentIDOverride uploaded force).

Definition Deploy (fuel : nat) (serviceID : string) (force : bool) : M (result goerr unit) :=
  deploy fuel serviceID "" None force.

Definition DeployUploadedImage (fuel : nat)
    (serviceID deploymentID imageRevisionID imageReference : string) (image : EngineImage)
    (identitySHA identityCommit : string) : M (result goerr unit) :=
  if empty deploymentID || empty imageRevisionID || empty imageReference
     || empty (im_ID image) || empty (im_Digest image)
  then throw (Msg "uploaded deployment image is incomplete")
  else deploy fuel serviceID deploymentID
         (Some (mkResolution image imageReference imageRevisionID identitySHA identityCommit)) true.

(** ** Restoring the current deployment *)

Definition pullActiveImage (desired : ServiceDesired) (active : DeploymentRecord)
    : M (result goerr EngineImage) :=
  let source := Source_ (ds_snapshot desired) in
  if bool_decide (Type_ source = DockerImageUpload)
  then p ← call (CPull (mkPull (dr_reference active) "" "" false)) a_pull;
       match p with
       | Err e => throw (Wrap "import active uploaded image" e)
       | Ok image => mret (Ok image)
       end
  else
    let! pinned := (mret (lift_config (PinnedReference (dr_reference active) (dr_digest active)))) in
    let! credential :=
      (if negb (bool_decide (Type_ source = PrivateImage)) then mret (Ok (mkCredential "" ""))
       else if negb (has_credentials config)
       then throw (Msg "image credential resolution is not configured")
       else c ← call CCredential a_credential;
            match c with
            | Ok c => mret (Ok c)
            | Err e => throw (Wrap "resolve active image credential" e)
            end) in
    p ← call (CPull (mkPull pinned (Username credential) (Password credential) false)) a_pull;
    match p with
    | Err e => throw (Wrap "pull active service image" e)
    | Ok image => mret (Ok image)
    end.

(** The part of [restoreCurrentLocked] after the container exists; the first
    component is the flag of the deferred removal. *)
Definition restoreCandidate (fuel : nat) (desired : ServiceDesired) (activeDeployment : DeploymentRecord)
    (container : Container) (placement : Placement) : M (bool * result goerr bool) :=
  started ← startContainer desired (ct_ID container) (dr_id activeDeployment);
  match started with
  | Err e => mret (true, Err (Wrap "start active service container" e))
  | Ok _ =>
      recorded ← recordVolumeInitializations desired;
      match recorded with
      | Err e => mret (true, Err e)
      | Ok _ =>
          waited ← waitReady fuel desired (ct_ID container) (NetworkName placement);
          match waited with
          | Err e => mret (true, Err (Wrap "restore active service readiness" e))
          | Ok ready =>
              _ ← setActive (ds_id desired)
                    (mkActive (dr_id activeDeployment) ready (NetworkName placement));
              published ← call_error (CPublish desired ready);
              match published with
              | Err e => mret (false, Err (Wrap "publish restored service" e))
              | Ok _ => mret (false, Ok true)
              end
          end
      end
  end.

Definition restoreCurrentLocked (fuel : nat) (serviceID expectedDeploymentID : string)
    : M (result goerr bool) :=
  let! desired0 := read "DesiredService" (DesiredService serviceID) in
  if negb (ds_enabled desired0) || empty (ds_active desired0) then mret (Ok false)
  else if negb (empty expectedDeploymentID)
          && negb (bool_decide (ds_active desired0 = expectedDeploymentID)) then mret (Ok false)
  else
    existing ← activeContainerOf serviceID;
    match existing with
    | Some _ => mret (Ok false)
    | None =>
        d ← read "Deployment" (Deployment (ds_active desired0));
        match d with
        | Err e => throw (Wrap "load active deployment" e)
        | Ok activeDeployment =>
            let desired := with_snapshot desired0 (dr_snapshot activeDeployment) in
            i ← call (CInspectImage (dr_digest activeDeployment)) a_image;
            let! image :=
              (match i with
               | Ok image => mret (Ok image)
               | Err _ =>
                   g ← call_error CGrowth;
                   match g with
                   | Err e => throw (Wrap "active service image is not cached" e)
                   | Ok _ => pullActiveImage desired activeDeployment
                   end
               end) in
            if negb (bool_decide (im_Digest image = dr_digest activeDeployment))
            then throw (Msg ("active image digest = " +:+ im_Digest image +:+ ", want "
                             +:+ dr_digest activeDeployment))
            else
              let! created := createRuntimeContainer desired
                (mkEnvironment (dr_id activeDeployment) EnvironmentProduction ""
                   (dr_source_revision activeDeployment) (dr_commit activeDeployment))
                (im_ID image) in
              outcome ← restoreCandidate fuel desired activeDeployment (fst created) (snd created);
              let '(remove, r) := outcome in
              _ ← (if remove : bool then call_error (CRemove (ct_ID (fst created)))
                   else mret (Ok tt));
              mret r
        end
    end.

Definition Restore (fuel : nat) (serviceID : string) : M (result goerr unit) :=
  with_lease "service_reconcile" serviceID
    (let! _ := restoreCurrentLocked fuel serviceID "" in mret (Ok tt)).

Definition RestoreCurrent (fuel : nat) (serviceID expectedDeploymentID : string)
    : M (result goerr bool) :=
  with_lease "service_restart" serviceID
    (restoreCurrentLocked fuel serviceID expectedDeploymentID).

Definition RestartCurrent (fuel : nat) (serviceID expectedDeploymentID : string)
    : M (result goerr unit) :=
  with_lease "service_restart" serviceID
    (let! desired := read "DesiredService" (DesiredService serviceID) in
     if negb (ds_enabled desired) || empty (ds_active desired)
        || negb (bool_decide (ds_active desired = expectedDeploymentID))
     then throw ErrDeploymentNotFound
     else
       active ← activeContainerOf serviceID;
       let! _ :=
         (match active with
          | None => mret (Ok tt)
          | Some a =>
              if negb (bool_decide (ac_deploymentID a = expectedDeploymentID))
              then throw ErrServiceChanged
              else
                let! _ := call_error (CWithdraw desired) in
                stopped ← call_error (CStop (ct_ID (ac_container a)));
                match stopped with
                | Err e =>
                    p ← call_error (CPublish desired (ac_container a));
                    mret (of_error (errors_Join (Some e) (err_of p)))
                | Ok _ =>
                    let! _ := call_error (CRemove (ct_ID (ac_container a))) in
                    _ ← clearActive serviceID;
                    mret (Ok tt)
                end
          end) in
       let! restored := restoreCurrentLocked fuel serviceID expectedDeploymentID in
       if restored : bool then mret (Ok tt)
       else throw (Msg "active service deployment was not restarted")).

(** ** Deletion, crash handling, quiescing *)

Definition DeleteServiceDuringProjectDeletion (desired : ServiceDesired) : M (result goerr unit) :=
  stopDisabled desired.

Definition DeleteService (desired : ServiceDesired) : M (result goerr unit) :=
  with_lease "service_delete" (ds_id desired) (stopDisabled desired).

Definition PrepareUnexpectedExit (serviceID deploymentID containerID : string)
    : M (bool * option goerr) :=
  r ← read "DesiredService" (DesiredService serviceID);
  match r with
  | Err e => mret (false, Some e)
  | Ok desired =>
      active ← activeContainerOf serviceID;
      match active with
      | None => mret (false, None)
      | Some a =>
          if negb (ds_enabled desired) || negb (bool_decide (ds_active desired = deploymentID))
             || negb (bool_decide (ac_deploymentID a = deploymentID))
             || negb (bool_decide (ct_ID (ac_container a) = containerID))
          then mret (false, None)
          else
            withdrawn ← call_error (CWithdraw desired);
            _ ← clearActive serviceID;
            removed ← call_error (CRemove containerID);
            mret (true, errors_Join (err_of withdrawn) (err_of removed))
      end
  end.

Definition quiesceService (serviceID : string) : M (result goerr (option quiescedService)) :=
  active ← activeContainerOf serviceID;
  match active with
  | None => mret (Ok None)
  | Some a =>
      let! desired := read "DesiredService" (DesiredService serviceID) in
      w ← call_error (CWithdraw desired);
      match w with
      | Err e => throw (Wrap ("withdraw service " +:+ serviceID +:+ " before update") e)
      | Ok _ =>
          s ← call_error (CStop (ct_ID (ac_container a)));
          match s with
          | Err e =>
              p ← call_error (CPublish desired (ac_container a));
              match errors_Join (Some (Wrap ("stop service " +:+ serviceID +:+ " before update") e))
                      (err_of p) with
              | Some e' => throw e'
              | None => mret (Ok None)
              end
          | Ok _ =>
              _ ← clearActive serviceID;
              mret (Ok (Some (mkQuiesced desired a)))
          end
      end
  end.

Definition resumeService (fuel : nat) (service : quiescedService) : M (result goerr unit) :=
  let desired := q_desired service in
  let active := q_active service in
  existing ← activeContainerOf (ds_id desired);
  match existing with
  | Some _ => mret (Ok tt)
  | None =>
      let! _ := startContainer desired (ct_ID (ac_container active)) (ac_deploymentID active) in
      let! ready := waitReady fuel desired (ct_ID (ac_container active)) (ac_networkName active) in
      _ ← setActive (ds_id desired) (mkActive (ac_deploymentID active) ready (ac_networkName active));
      call_error (CPublish desired ready)
  end.

(** The closure [resumeServices] returns: every service is resumed, failures
    are joined. *)
Fixpoint resumeServices (fuel : nat) (services : list quiescedService) : M (option goerr) :=
  match services with
  | [] => mret None
  | service :: rest =>
      r ← resumeService fuel service;
      failures ← resumeServices fuel rest;
      mret (errors_Join
              (match r with
               | Ok _ => None
               | Err e => Some (Wrap ("resume service " +:+ ds_id (q_desired service)) e)
               end) failures)
  end.

Fixpoint quiesceLoop (stopped : list quiescedService) (serviceIDs : list string)
    : M (list quiescedService * option goerr) :=
  match serviceIDs with
  | [] => mret (stopped, None)
  | serviceID :: rest =>
      c ← call_error CContext;
      match c with
      | Err e => mret (stopped, Some e)
      | Ok _ =>
          q ← quiesceService serviceID;
          match q with
          | Err e => mret (stopped, Some e)
          | Ok quiesced =>
              quiesceLoop (match quiesced with Some s => stopped ++ [s] | None => stopped end) rest
          end
      end
  end.

(** The services stopped so far are returned with the error: the caller's
    closure is [resumeServices] of them. *)
Definition QuiesceAll : M (list quiescedService * option goerr) := fun w =>
  quiesceLoop [] (merge_sort String.le (map_to_list (w_active w)).*1) w.

Definition WithServiceQuiesced (fuel : nat) (serviceID : string) (action : option (M (option goerr)))
    : M (result goerr unit) :=
  match action with
  | None => throw (Msg "service quiesce request is incomplete")
  | Some act =>
      if empty serviceID then throw (Msg "service quiesce request is incomplete")
      else
        let! quiesced := quiesceService serviceID in
        actionErr ← act;
        match quiesced with
        | None => mret (of_error actionErr)
        | Some q =>
            r ← resumeService fuel q;
            mret (of_error (errors_Join actionErr (err_of r)))
        end
  end.

(** ** Queries *)

Definition Status (serviceID : string) : M (RuntimeStatus * bool * option goerr) :=
  active ← activeContainerOf serviceID;
  match active with
  | None => mret (mkStatus "" "" 0, false, None)
  | Some a =>
      c ← call (CInspect (ct_ID (ac_container a))) a_inspect;
      mret (match c with
            | Err e => (mkStatus (ac_deploymentID a) "" 0, true, Some e)
            | Ok c => (mkStatus (ac_deploymentID a) (ct_State c) (ct_ExitCode c), true, None)
            end)
  end.

Definition ContainerOf (serviceID : string) : M (Container * bool * option goerr) :=
  active ← activeContainerOf serviceID;
  match active with
  | None => mret (no_container, false, None)
  | Some a =>
      c ← call (CInspect (ct_ID (ac_container a))) a_inspect;
      mret (match c with
            | Err e => (no_container, true, Some e)
            | Ok c => if bool_decide (ct_State c = "running") then (c, true, None)
                      else (no_container, false, None)
            end)
  end.

Definition no_backend : Backend := mkBackend "" "" 0.

Definition BackendOf (serviceID : string) (targetPort : Z) : M (Backend * bool * option goerr) :=
  active ← activeContainerOf serviceID;
  match active with
  | None => mret (no_backend, false, None)
  | Some a =>
      if (targetPort <? 1) || (65535 <? targetPort) then mret (no_backend, false, None)
      else
        c ← call (CInspect (ct_ID (ac_container a))) a_inspect;
        mret (match c with
              | Err e => (no_backend, true, Some e)
              | Ok c =>
                  if negb (bool_decide (ct_State c = "running")) then (no_backend, false, None)
                  else match default [] (ct_IPs c !! ac_networkName a) with
                       | [address] => (mkBackend (ac_deploymentID a) address targetPort, true, None)
                       | addresses =>
                           (no_backend, true, Some (Msg ("service container has "
                              +:+ pretty (length addresses) +:+ " backend addresses, want one")))
                       end
              end)
  end.

Definition TerminalTargetOf (serviceID : string) : M (TerminalTarget * bool * option goerr) :=
  active ← activeContainerOf serviceID;
  match active with
  | None => mret (mkTarget "" "", false, None)
  | Some a =>
      c ← call (CInspect (ct_ID (ac_container a))) a_inspect;
      mret (match c with
            | Err e => (mkTarget (ac_deploymentID a) (ct_ID (ac_container a)), true, Some e)
            | Ok c => if bool_decide (ct_State c = "running")
                      then (mkTarget (ac_deploymentID a) (ct_ID c), true, None)
                      else (mkTarget "" "", false, None)
            end)
  end.

End Controller.
