(* ===== verification/ControllerProofs.v ===== *)
(** * Correctness of the deployment controller

    What each operation of [Controller.v] can do to the active map, the active
    pointer and the deployment history, for every behaviour of the engine, the
    publisher, the clock, the resolvers and the other sessions of the store. *)

From stdpp Require Import pretty.
From S2P Require Import Prelude Effects Names Admission ServiceConfig DeploymentStore Runtime Controller.

(** The active pointer of a service. *)
Definition pointer (sid : string) (w : World) : option string := services (w_db w) !! sid ≫= s_active.
Definition db_pointer (sid : string) (db : DB) : option string := services db !! sid ≫= s_active.

(** ** Services table of the non-activating writes *)

Section Services.
Context {HT : HostnameTables} {CT : ConfigTables}.

Ltac services_op :=
  repeat match goal with
         | H : (if ?b then _ else _) = _ |- _ => destruct b eqn:?; simplify_eq; try done
         | H : match ?x with _ => _ end = _ |- _ => destruct x eqn:?; simplify_eq; try done
         | H : Write _ _ _ = _ |- _ => apply Write_inv in H as [[-> _]|[_ H]]; [by auto|]
         end.

Lemma BeginDeployment_services f i db r db' :
  BeginDeployment f i db = (r, db') -> services db' = services db.
Proof. unfold BeginDeployment. intros Hop. services_op. Qed.
Lemma FinishDeployment_services f id st c m t db r db' :
  FinishDeployment f id st c m t db = (r, db') -> services db' = services db.
Proof. unfold FinishDeployment. intros Hop. services_op. Qed.
Lemma UpdateDeploymentSource_services f id a b c e db r db' :
  UpdateDeploymentSource f id a b c e db = (r, db') -> services db' = services db.
Proof. unfold UpdateDeploymentSource. intros Hop. services_op. Qed.
Lemma DiscardDeployment_services f id db r db' :
  DiscardDeployment f id db = (r, db') -> services db' = services db.
Proof. unfold DiscardDeployment. intros Hop. services_op. Qed.
Lemma RecordVolumeInitialization_shape f p s v t db r db' :
  RecordVolumeInitialization f p s v t db = (r, db') ->
  db' = db \/ exists g, db' = set_initializations g db.
Proof. unfold RecordVolumeInitialization. intros Hop. services_op; eauto; by left. Qed.

End Services.

(** ** Containers created and not yet handed to the engine for removal *)

Fixpoint owed `{Env} (trace : list Call) : gset string :=
  match trace with
  | [] => ∅
  | CCreate _ :: rest =>
      match a_create trace with
      | Ok c => {[ct_ID c]} ∪ owed rest
      | Err _ => owed rest
      end
  | CRemove id :: rest => owed rest ∖ {[id]}
  | _ :: rest => owed rest
  end.

(** Containers the engine created although its call failed: [CreateContainer]
    reads the state and the network status of the container it has created, and
    an error there loses the container's ID ([a_orphan]). *)
Fixpoint orphans `{Env} (trace : list Call) : gset string :=
  match trace with
  | [] => ∅
  | CCreate _ :: rest =>
      match a_create trace, a_orphan trace with
      | Err _, Some id => {[id]} ∪ orphans rest
      | _, _ => orphans rest
      end
  | _ :: rest => orphans rest
  end.

(** All the containers created and not yet handed to the engine for removal,
    whether the controller knows them or not. *)
Fixpoint present `{Env} (trace : list Call) : gset string :=
  match trace with
  | [] => ∅
  | CCreate _ :: rest =>
      match a_create trace, a_orphan trace with
      | Ok c, _ => {[ct_ID c]} ∪ present rest
      | Err _, Some id => {[id]} ∪ present rest
      | Err _, None => present rest
      end
  | CRemove id :: rest => present rest ∖ {[id]}
  | _ :: rest => present rest
  end.

Lemma owed_present `{Env} trace : owed trace ⊆ present trace.
Proof.
  induction trace as [|c rest IH]; [done|]. destruct c; try done; simpl; [|set_solver].
  destruct (a_create _); [set_solver|]. destruct (a_orphan _); set_solver.
Qed.

Lemma present_owed `{Env} trace : present trace ⊆ orphans trace ∪ owed trace.
Proof.
  induction trace as [|c rest IH]; [done|]. destruct c; try done; simpl; [|set_solver].
  destruct (a_create _); [set_solver|]. destruct (a_orphan _); set_solver.
Qed.

(** Knowing what is owed to the engine bounds what is present. *)
Lemma owed_bounds `{Env} X trace trace' : owed trace' ⊆ X ∪ owed trace ->
  present trace' ⊆ X ∪ present trace ∪ orphans trace'.
Proof.
  intros Ho. pose proof (owed_present trace). pose proof (present_owed trace'). set_solver.
Qed.

(** An activation whose acknowledgement was lost: [ActivateDeployment] returned
    an error (the context ended or the writer was closed while it waited), but
    the transaction committed. *)
Definition lost_activation `{Env} (trace : list Call) : Prop :=
  exists rest e, CStore "ActivateDeployment" :: rest `suffix_of` trace /\
    lost_ack (a_fault (CStore "ActivateDeployment" :: rest)) = Some e.

Lemma lost_later `{Env} trace trace' : trace `suffix_of` trace' ->
  lost_activation trace -> lost_activation trace'.
Proof. intros Hs (rest & e & Hr & He). exists rest, e. split; [by etrans|done]. Qed.

(** ** Quiet computations: the active map and the gate stay, the pointer of
    the service stays or, if [lax], is cleared by another session, and no
    container outside [X] is left behind *)

Record quiet `{Env} (lax : Prop) (X : gset string) (sid : string) (w w' : World) : Prop := mkQuiet {
  q_map : w_active w' = w_active w;
  q_gate : w_gate w' = w_gate w;
  q_pointer : pointer sid w' = pointer sid w \/ (lax /\ pointer sid w' = None);
  q_owed : owed (w_trace w') ⊆ X ∪ owed (w_trace w);
  q_trace : w_trace w `suffix_of` w_trace w'
}.

#[export] Instance quiet_refl `{Env} lax X sid : Reflexive (quiet lax X sid).
Proof. intros w. split; auto. set_solver. Qed.
#[export] Instance quiet_trans `{Env} lax X sid : Transitive (quiet lax X sid).
Proof.
  intros w1 w2 w3 [? ? ? ? ?] [? ? ? ? ?]. split; [congruence..| |set_solver|by etrans]. intuition congruence.
Qed.

Lemma quiet_weaken `{Env} lax X Y sid w w' : X ⊆ Y -> quiet lax X sid w w' -> quiet lax Y sid w w'.
Proof. intros HXY [? ? ? ? ?]. split; [done..| |done]. set_solver. Qed.

Lemma quiet_join `{Env} lax X Y sid w1 w2 w3 :
  quiet lax X sid w1 w2 -> quiet lax Y sid w2 w3 -> quiet lax (X ∪ Y) sid w1 w3.
Proof.
  intros H1 H2. trans w2; [|by apply (quiet_weaken _ Y); [set_solver|]].
  by apply (quiet_weaken _ X); [set_solver|].
Qed.

(** Other sessions leave the pointer alone or, if [lax], clear it: saving a service
    disabled and deleting it set the column to NULL; only [ActivateDeployment],
    which the controller calls under the service's lock, sets it. *)
Class Guarded `{Env} (lax : Prop) (sid : string) : Prop :=
  guarded : forall trace db, db_pointer sid (a_others trace db) = db_pointer sid db \/
                             (lax /\ db_pointer sid (a_others trace db) = None).

Section Quiet.
Context {HT : HostnameTables} {CT : ConfigTables} {env : Env} (config : Config) (lax : Prop)
        (sid : string) `{!Guarded lax sid}.

Definition not_create (c : Call) : Prop := match c with CCreate _ => False | _ => True end.

Lemma owed_cons c trace : not_create c -> owed (c :: trace) ⊆ owed trace.
Proof. destruct c; simpl; intros Hc; set_solver. Qed.

Lemma quiet_call X {A} c (f : list Call -> A) : not_create c -> resp (quiet lax X sid) (call c f).
Proof.
  intros Hc w a w' [= <- <-]. split; [done..|apply guarded| |by apply suffix_cons_r].
  apply union_subseteq_r', owed_cons, Hc.
Qed.

Lemma quiet_read X {A} n (q : DB -> result goerr A) : resp (quiet lax X sid) (read n q).
Proof. intros w a w' [= <- <-]. split; [done..|apply guarded|set_solver|by apply suffix_cons_r]. Qed.

Lemma quiet_write X n op :
  (forall f db r db', op f db = (r, db') -> services db' = services db) ->
  resp (quiet lax X sid) (write n op).
Proof.
  intros Hop w a w'. unfold write.
  destruct (op _ _) as [r db'] eqn:E. intros [= <- <-]. apply Hop in E.
  split; [done..| |set_solver|by apply suffix_cons_r]. unfold pointer; simpl. rewrite E. apply guarded.
Qed.

Lemma quiet_get X s : resp (quiet lax X sid) (activeContainerOf s).
Proof. intros w a w' [= <- <-]. done. Qed.

Lemma volume_services f p s v t db r db' :
  RecordVolumeInitialization f p s v t db = (r, db') -> services db' = services db.
Proof. intros [->|[g ->]]%RecordVolumeInitialization_shape; done. Qed.

Ltac quiet_leaf :=
  first [ apply quiet_call; exact I | apply quiet_read | apply quiet_get
        | apply quiet_write; intros;
          eauto using BeginDeployment_services, FinishDeployment_services,
            UpdateDeploymentSource_services, DiscardDeployment_services, volume_services
        | assumption
        | match goal with H : context [resp] |- _ => apply H end ].
Ltac quiet_walk := resp_walk quiet_leaf.

Section Base.
Context (X : gset string).

Lemma quiet_dispatch d i s c m e : resp (quiet lax X sid) (dispatchDeployment config d i s c m e).
Proof. unfold dispatchDeployment. quiet_walk. Qed.

Lemma quiet_start d c i : resp (quiet lax X sid) (startContainer d c i).
Proof. unfold startContainer, StartAttached. quiet_walk. Qed.

Lemma quiet_mounts d l : resp (quiet lax X sid) (mount_volumes config d l).
Proof. induction l; simpl; quiet_walk. Qed.

Lemma quiet_volumes d : resp (quiet lax X sid) (recordVolumeInitializations d).
Proof.
  unfold recordVolumeInitializations. induction (VolumeMounts _); simpl; unfold now; quiet_walk.
Qed.

Lemma quiet_ready h n t c : resp (quiet lax X sid) (checkReady h n t c).
Proof. unfold checkReady, probeHTTP, now. quiet_walk. Qed.

Lemma quiet_wait fuel d c n : resp (quiet lax X sid) (waitReady fuel d c n).
Proof.
  pose proof quiet_ready.
  assert (Hloop : forall h c n t, resp (quiet lax X sid) (waitLoop fuel h c n t)).
  { induction fuel; intros; simpl; [by intros ? ? ?|]. unfold call_error. quiet_walk. }
  unfold waitReady, now. quiet_walk.
Qed.

Lemma quiet_fail i c e : resp (quiet lax X sid) (fail config i c e).
Proof. pose proof quiet_dispatch. unfold fail, now, FailDeployment. quiet_walk. Qed.

Lemma quiet_restore_old d o : resp (quiet lax X sid) (restoreOld d o).
Proof. pose proof quiet_start. unfold restoreOld, call_error. quiet_walk. Qed.

Lemma quiet_abandon d o i c e : resp (quiet lax X sid) (abandon config d o i c e).
Proof. pose proof quiet_restore_old. pose proof quiet_fail. unfold abandon. quiet_walk. Qed.

(** The service now runs deployment [dep]. *)
Definition moved (dep : string) (w w' : World) : Prop :=
  exists ready network,
    w_active w' = <[sid := mkActive dep ready network]> (w_active w) /\
    w_gate w' = w_gate w /\
    (pointer sid w' = Some dep \/ (lax /\ pointer sid w' = None)) /\
    owed (w_trace w') ⊆ X ∪ owed (w_trace w).

Lemma quiet_moved dep w1 w2 w3 : quiet lax X sid w1 w2 -> moved dep w2 w3 -> moved dep w1 w3.
Proof.
  intros [Ha Hg _ Ho _] (ready & network & Ha' & Hg' & Hp & Ho'). exists ready, network.
  rewrite Ha', Hg', Ha, Hg. split_and!; [done..|]. set_solver.
Qed.

Lemma moved_quiet dep w1 w2 w3 : moved dep w1 w2 -> quiet lax X sid w2 w3 -> moved dep w1 w3.
Proof.
  intros (ready & network & Ha' & Hg' & Hp & Ho') [Ha Hg Hq Ho _]. exists ready, network.
  rewrite Ha, Hg, Ha', Hg'. split_and!; auto; [|set_solver].
  destruct Hp as [Hp|[? Hp]], Hq as [Hq|[? Hq]]; rewrite Hq, ?Hp; auto.
Qed.

Lemma quiet_step {A B} (m : M A) (k : A -> M B) (Q : B -> World -> Prop) w0 w :
  quiet lax X sid w0 w -> resp (quiet lax X sid) m ->
  (forall a w1, quiet lax X sid w0 w1 -> post (k a) Q w1) -> post (m ≫= k) Q w.
Proof.
  intros H0 Hm Hk. apply post_bind. apply (resp_post (quiet lax X sid)); [done|].
  intros a w1 H1. apply Hk. by etrans.
Qed.

Lemma abandon_outcome d o i c e w0 w :
  quiet lax X sid w0 w ->
  post (abandon config d o i c e)
    (fun r w' => fst r = true /\ is_ok (snd r) = false /\ quiet lax X sid w0 w') w.
Proof.
  intros H0. unfold abandon.
  eapply quiet_step; [done|apply quiet_restore_old|]. intros _ w1 H1.
  eapply quiet_step; [done|apply quiet_fail|]. intros e' w2 H2.
  by apply post_ret.
Qed.

(** The database was moved to deployment [dep] unheard: the acknowledgement of
    the activation was lost, and the service runs what it ran before. *)
Record unheard (dep : string) (w w' : World) : Prop := mkUnheard {
  u_map : w_active w' = w_active w;
  u_gate : w_gate w' = w_gate w;
  u_pointer : pointer sid w' = Some dep \/ (lax /\ pointer sid w' = None);
  u_owed : owed (w_trace w') ⊆ X ∪ owed (w_trace w);
  u_lost : lost_activation (w_trace w')
}.

Lemma quiet_unheard dep w1 w2 w3 : quiet lax X sid w1 w2 -> unheard dep w2 w3 -> unheard dep w1 w3.
Proof. intros [? ? _ ? _] [? ? ? ? ?]. split; [congruence..|done|set_solver|done]. Qed.

Lemma unheard_quiet dep w1 w2 w3 : unheard dep w1 w2 -> quiet lax X sid w2 w3 -> unheard dep w1 w3.
Proof.
  intros [? ? Hp ? ?] [? ? Hq ? ?]. split; [congruence..| |set_solver|by eapply lost_later].
  destruct Hp as [Hp|[? Hp]], Hq as [Hq|[? Hq]]; rewrite Hq, ?Hp; auto.
Qed.

(** The publication that follows the commit failed, and this is its error. *)
Definition publication_failed (e : goerr) (trace : list Call) : Prop :=
  exists d ready cause rest, CPublish d ready :: rest `suffix_of` trace /\
    a_error (CPublish d ready :: rest) = Some cause /\
    e = Wrap "publish ready service after deployment commit" cause.

Definition reported (r : result goerr unit) (trace : list Call) : Prop :=
  match r with Ok _ => True | Err e => publication_failed e trace end.

(** Either the candidate is given up and nothing moved (or the database moved
    unheard), or the commit went through and the service runs the candidate's
    deployment. *)
Definition outcome_ok (dep : string) (w0 : World) (r : bool * result goerr unit) (w' : World) : Prop :=
  if fst r then is_ok (snd r) = false /\ (quiet lax X sid w0 w' \/ unheard dep w0 w')
  else moved dep w0 w' /\ reported (snd r) (w_trace w').

Lemma abandon_outcome_ok dep d o i c e w0 w :
  quiet lax X sid w0 w \/ unheard dep w0 w -> post (abandon config d o i c e) (outcome_ok dep w0) w.
Proof.
  intros H0. eapply post_mono; [by apply (abandon_outcome _ _ _ _ _ w w)|].
  intros [b r] w' (Hb & Hr & Hq). simpl in *. subst. split; [done|].
  destruct H0; [left; by etrans|right; by eapply unheard_quiet].
Qed.

Lemma activate_moves dep desired ready network t w0 w :
  ds_id desired = sid -> quiet lax X sid w0 w ->
  post (write "ActivateDeployment" (fun fault =>
          ActivateDeployment fault (ds_id desired) dep (ds_active desired) t))
    (fun r w1 => match r with
       | Err _ => quiet lax X sid w0 w1 \/ unheard dep w0 w1
       | Ok _ => forall w2, quiet lax X sid w1 w2 ->
           moved dep w0 (mkWorld (w_db w2) (<[sid := mkActive dep ready network]> (w_active w2))
                           (w_gate w2) (w_trace w2))
       end) w.
Proof.
  intros Hd H0 r w1. unfold write. destruct (ActivateDeployment _ _ _ _ _ _) as [r' db'] eqn:E.
  intros [= <- <-]. destruct r' as [[]|e].
  - apply ActivateDeployment_ok in E as (s & row & _ & _ & _ & _ & _ & _ & Hs & _).
    intros w2 [Ha Hg Hp Ho _]. simpl in *. exists ready, network. simpl.
    destruct H0 as [Ha0 Hg0 _ Ho0 _]. rewrite Ha, Hg, Ha0, Hg0. split_and!; [done..| |set_solver].
    unfold pointer in *; simpl in *. rewrite Hs, Hd, lookup_insert_eq in Hp. simpl in Hp.
    by destruct Hp as [->|[? ->]]; auto.
  - apply ActivateDeployment_err in E as [->|[Hlost (s & row & _ & _ & _ & _ & _ & _ & Hs & _)]].
    { left. etrans; [done|]. split; [done..|apply guarded|set_solver|by apply suffix_cons_r]. }
    right. eapply quiet_unheard; [done|]. split; [done..| |set_solver|by exists (w_trace w), e].
    left. unfold pointer; simpl. by rewrite Hs, Hd, lookup_insert_eq.
Qed.

Lemma runCandidate_outcome fuel desired dep candidate placement w :
  ds_id desired = sid ->
  post (runCandidate config fuel desired dep candidate placement) (outcome_ok dep w) w.
Proof.
  intros Hd. unfold runCandidate, call_error.
  eapply quiet_step; [reflexivity|apply quiet_get|]. intros old w1 H1.
  match goal with |- post (if ?b then _ else _) _ _ => destruct b end.
  { eapply quiet_step; [done|apply quiet_fail|]. intros e w2 H2. apply post_ret. split; [done|by left]. }
  eapply quiet_step; [exact H1| |].
  { quiet_walk. }
  intros [[]|[code e]] w2 H2; [|by apply abandon_outcome_ok; left].
  eapply quiet_step; [exact H2|apply quiet_start|].
  intros [[]|e] w3 H3; [|by apply abandon_outcome_ok; left].
  eapply quiet_step; [exact H3|apply quiet_volumes|].
  intros [[]|e] w4 H4; [|by apply abandon_outcome_ok; left].
  eapply quiet_step; [exact H4|apply quiet_wait|].
  intros [ready|e] w5 H5; [|by apply abandon_outcome_ok; left].
  eapply quiet_step; [exact H5|apply quiet_call; exact I|]. intros t w6 H6.
  apply post_bind. eapply post_mono;
    [by apply (activate_moves dep desired ready (NetworkName placement))|].
  intros [[]|e] w7 H7; simpl in H7; [|by apply abandon_outcome_ok].
  apply post_bind. eapply resp_post; [apply quiet_dispatch|]. intros _ w8 H8%H7.
  apply post_bind. intros [] w9 [= <-]. simpl. rewrite Hd.
  apply post_bind. intros pub w10 Hpub.
  match type of Hpub with call _ _ ?w9 = _ =>
    assert (H10 : quiet lax X sid w9 w10) by (by eapply (quiet_call X); [|exact Hpub]) end.
  injection Hpub as Hpub <-.
  destruct pub as [[]|e].
  2: { apply post_ret. split; [exact (moved_quiet _ _ _ _ H8 H10)|].
       apply of_error_err in Hpub. simpl.
       exists (with_active desired dep), ready, e, (w_trace w8). by split_and!. }
  apply post_bind. eapply resp_post with (R := quiet lax X sid); [quiet_walk|].
  intros _ w11 H11. apply post_ret. split; [|done].
  exact (moved_quiet _ _ _ _ (moved_quiet _ _ _ _ H8 H10) H11).
Qed.

End Base.

(** Creating a container leaves at most that container. *)
Lemma create_owed d e i w :
  post (createRuntimeContainer config d e i)
    (fun r w' => match r with
       | Ok (c, _) => quiet lax {[ct_ID c]} sid w w'
       | Err _ => quiet lax ∅ sid w w'
       end) w.
Proof.
  pose proof (quiet_mounts ∅). unfold createRuntimeContainer.
  apply post_bind. eapply (resp_post (quiet lax ∅ sid)); [apply quiet_call; exact I|].
  intros [p|e1] w1 H1; [|by apply post_ret].
  eapply (quiet_step ∅); [done|apply H|]. intros [vs|e2] w2 H2; [|by apply post_ret].
  eapply (quiet_step ∅); [done|quiet_walk|]. intros [vars|e3] w3 H3; [|by apply post_ret].
  apply post_ebind. intros r w4 [= <- <-].
  match goal with |- context [a_create ?t] => destruct (a_create t) as [c|e4] eqn:E end;
    [apply post_ret|].
  - eapply (quiet_weaken _ (∅ ∪ {[ct_ID c]})); [set_solver|]. eapply quiet_join; [exact H3|].
    split; [done..|apply guarded| |by apply suffix_cons_r]. simpl. by rewrite E.
  - trans w3; [done|]. split; [done..|apply guarded| |by apply suffix_cons_r]. simpl. rewrite E. set_solver.
Qed.

(** A commit leaves one container more: the candidate. *)
Definition committed (dep : string) (w w' : World) : Prop := exists c, moved {[c]} dep w w'.

Lemma quiet_committed dep w1 w2 w3 :
  quiet lax ∅ sid w1 w2 -> committed dep w2 w3 -> committed dep w1 w3.
Proof.
  intros Hq [c Hm]. exists c. eapply quiet_moved; [|done].
  eapply quiet_weaken; [|done]. set_solver.
Qed.

(** Removing the container a computation left behind. *)
Lemma quiet_remove c w w1 :
  quiet lax {[c]} sid w w1 ->
  post (call_error (CRemove c)) (fun _ w2 => quiet lax ∅ sid w w2) w1.
Proof.
  intros H1 r w2 Hr.
  assert (H2 : quiet lax ∅ sid w1 w2) by (eapply quiet_call; [|exact Hr]; exact I).
  injection Hr as _ <-. destruct H1 as [? ? ? Ho ?], H2 as [? ? ? _ ?].
  simpl in *. split; simpl; [congruence..|intuition congruence|set_solver|by etrans].
Qed.

(** Removing the candidate of an unheard activation. *)
Lemma unheard_remove dep c w w1 :
  unheard {[c]} dep w w1 ->
  post (call_error (CRemove c)) (fun _ w2 => unheard ∅ dep w w2) w1.
Proof.
  intros H1 r w2 Hr.
  assert (H2 : quiet lax {[c]} sid w1 w2) by (eapply quiet_call; [|exact Hr]; exact I).
  destruct (unheard_quiet _ _ _ _ _ H1 H2) as [? ? ? _ ?]. injection Hr as _ <-.
  destruct H1 as [_ _ _ Ho _]. split; [done..| |done]. simpl in *. set_solver.
Qed.

Definition run_ok (dep : string) (w0 : World) (r : result goerr unit) (w' : World) : Prop :=
  (is_ok r = false /\ quiet lax ∅ sid w0 w') \/
  (is_ok r = false /\ unheard ∅ dep w0 w') \/
  (committed dep w0 w' /\ reported r (w_trace w')).

Lemma runDeployment_outcome fuel desired ctx image w :
  ds_id desired = sid ->
  post (runDeployment config fuel desired ctx image) (run_ok (ec_DeploymentID ctx) w) w.
Proof.
  intros Hd. unfold runDeployment.
  apply post_bind. eapply post_mono; [apply create_owed|]. intros [[c p]|e] w1 H1; simpl in H1.
  - apply post_bind. eapply post_mono; [by apply (runCandidate_outcome {[ct_ID c]})|].
    intros [[] r] w2 Ho; unfold outcome_ok in Ho; simpl in Ho.
    + destruct Ho as [Hr [H2|H2]]; apply post_bind.
      * eapply post_mono; [apply quiet_remove; exact (transitivity H1 H2)|].
        intros ? w3 H3. apply post_ret. by left.
      * eapply post_mono; [apply unheard_remove; by eapply quiet_unheard|].
        intros ? w3 H3. apply post_ret. right; by left.
    + apply post_bind, post_ret, post_ret. right; right. destruct Ho as [Ho ?].
      split; [|done]. exists (ct_ID c). by eapply quiet_moved.
  - eapply (quiet_step ∅); [done|apply quiet_fail|]. intros e' w2 H2. apply post_ret. by left.
Qed.

(** ** The closures and phases of [deploy] *)

Section Attempt.
Context (i j h : string) (t0 : Z).

Lemma quiet_begin l x : resp (quiet lax ∅ sid) (beginDeployment config sid i j h t0 l x).
Proof. pose proof quiet_dispatch. unfold beginDeployment. quiet_walk. Qed.

Lemma quiet_fail_deployment l c e :
  resp (quiet lax ∅ sid) (failDeployment config sid i j h t0 l c e).
Proof.
  pose proof quiet_dispatch. pose proof quiet_begin. unfold failDeployment, now. quiet_walk.
Qed.

Lemma quiet_fail_with {A} l c e :
  resp (quiet lax ∅ sid) (fail_with (A := A) config sid i j h t0 l c e).
Proof. pose proof quiet_fail_deployment. unfold fail_with. quiet_walk. Qed.

Lemma quiet_finish l s c m : resp (quiet lax ∅ sid) (finishAttempt config i l s c m).
Proof. pose proof quiet_dispatch. unfold finishAttempt, now. quiet_walk. Qed.

Lemma quiet_record l : resp (quiet lax ∅ sid) (recordResolvedDeployment config sid i j h t0 l).
Proof.
  pose proof quiet_begin. pose proof (@quiet_fail_with Attempt).
  unfold recordResolvedDeployment. quiet_walk.
Qed.

Lemma quiet_source u l : resp (quiet lax ∅ sid) (resolveSource sid u l).
Proof. unfold resolveSource. quiet_walk. Qed.

Lemma quiet_image u l : resp (quiet lax ∅ sid) (resolveImage config sid i j h t0 u l).
Proof.
  pose proof (@quiet_fail_with Attempt). pose proof (@quiet_fail_with ImageCredential).
  unfold resolveImage. quiet_walk.
Qed.

Lemma quiet_unchanged l : resp (quiet lax ∅ sid) (deployUnchanged config sid i j h t0 l).
Proof.
  pose proof quiet_dispatch. pose proof (@quiet_fail_with unit).
  unfold deployUnchanged, call_error. quiet_walk.
Qed.

(** What [deploy] may do to the service before it is known whether its
    candidate is committed. *)
Definition deploy_ok (w0 : World) (r : result goerr unit) (w' : World) : Prop :=
  quiet lax ∅ sid w0 w' \/ (is_ok r = false /\ unheard ∅ i w0 w') \/ committed i w0 w'.

Lemma quiet_estep {A B} (m : M (result goerr A)) (k : A -> M (result goerr B))
    (Q : result goerr B -> World -> Prop) w0 w :
  quiet lax ∅ sid w0 w -> resp (quiet lax ∅ sid) m ->
  (forall e w1, quiet lax ∅ sid w0 w1 -> Q (Err e) w1) ->
  (forall a w1, m w = Some (Ok a, w1) -> quiet lax ∅ sid w0 w1 -> post (k a) Q w1) ->
  post (ebind m k) Q w.
Proof.
  intros H0 Hm He Hk. apply post_ebind. intros r w1 Hr.
  assert (quiet lax ∅ sid w0 w1) by (etrans; [done|by eapply Hm]).
  destruct r; eauto.
Qed.

Lemma quiet_last (m : M (result goerr unit)) w0 w :
  quiet lax ∅ sid w0 w -> resp (quiet lax ∅ sid) m -> post m (deploy_ok w0) w.
Proof. intros H0 Hm a w' Hr. left. etrans; [done|by eapply Hm]. Qed.

(** The recorded attempt keeps the desired state and the image. *)
Lemma record_ok l w l' w' :
  recordResolvedDeployment config sid i j h t0 l w = Some (Ok l', w') ->
  at_desired l' = at_desired l /\ at_image l' = at_image l /\ at_started l' = true.
Proof.
  unfold recordResolvedDeployment, beginDeployment.
  intros ([l1 e1] & w1 & Hb & Hk)%bind_inv.
  assert (e1 = None -> at_desired l1 = at_desired l /\ at_image l1 = at_image l /\
                       at_started l1 = true) as Hl1.
  { intros ->. destruct (at_started l) eqn:Hs; [injection Hb as <- <-; done|].
    apply bind_inv in Hb as ([[]|e] & w2 & _ & Hb); [|by injection Hb].
    apply bind_inv in Hb as (? & w3 & _ & Hb). by injection Hb as <- <-. }
  destruct e1 as [e|]; [by injection Hk|].
  apply bind_inv in Hk as ([[]|e] & w2 & _ & Hk).
  - injection Hk as <- <-. auto.
  - by apply bind_inv in Hk as (? & ? & _ & [= ]).
Qed.

Lemma deployCandidate_outcome fuel force l w0 w :
  ds_id (at_desired l) = sid -> quiet lax ∅ sid w0 w ->
  post (deployCandidate config sid i j h t0 fuel force l) (deploy_ok w0) w.
Proof.
  intros Hd H0. unfold deployCandidate, call_error.
  eapply quiet_estep; [done|apply quiet_record|by left|].
  intros l1 w1 (Hd1 & _ & _)%record_ok H1.
  eapply quiet_estep; [done| |by left|].
  { pose proof (@quiet_fail_with bool). quiet_walk. }
  intros proceed w2 _ H2. destruct proceed; simpl.
  2: { apply quiet_last; [done|]. pose proof quiet_finish. quiet_walk. }
  eapply quiet_estep; [done| |by left|].
  { pose proof (@quiet_fail_with unit). quiet_walk. }
  intros _ w3 _ H3. eapply post_mono; [apply runDeployment_outcome; congruence|].
  intros r w4 [[_ H4]|[[? H4]|[H4 _]]]; [left; by etrans| |right; right; by eapply quiet_committed].
  right; left. split; [done|by eapply quiet_unheard].
Qed.

Lemma DesiredService_id id db d : DesiredService id db = Ok d -> ds_id d = id.
Proof. unfold DesiredService. intros Hq. by repeat case_match; simplify_eq/=. Qed.

Lemma read_desired w r w' :
  read "DesiredService" (DesiredService sid) w = Some (r, w') ->
  forall d, r = Ok d -> ds_id d = sid /\ DesiredService sid (w_db w') = Ok d.
Proof.
  unfold read. intros [= <- <-] d. destruct (a_read _); [done|]. simpl.
  intros Hd. split; [by eapply DesiredService_id|done].
Qed.

Lemma deployResolved_outcome fuel force l w0 w :
  quiet lax ∅ sid w0 w ->
  post (deployResolved config sid i j h t0 fuel force l) (deploy_ok w0) w.
Proof.
  intros H0. unfold deployResolved. apply post_bind. intros c w1 Hc.
  assert (H1 : quiet lax ∅ sid w0 w1) by (etrans; [done|by eapply quiet_read]).
  destruct c as [current|e]; [|apply quiet_last; [done|apply quiet_fail_with]].
  destruct (read_desired _ _ _ Hc current eq_refl) as [Hid _].
  destruct (Canonical _) as [[[n' js] hash]|e];
    [|apply quiet_last; [done|apply quiet_fail_with]].
  destruct (negb (ds_enabled current) || _).
  { apply quiet_last; [done|]. pose proof quiet_record. pose proof quiet_finish. quiet_walk. }
  destruct (negb force && _ && _); [apply quiet_last; [done|apply quiet_unchanged]|].
  eapply (quiet_step ∅); [done|unfold now; quiet_walk|]. intros [] w2 H2; [by apply post_ret; left|].
  eapply quiet_estep; [done| |by left|].
  { pose proof (@quiet_fail_with Attempt). quiet_walk. }
  intros l2 w3 Hl2 H3. apply deployCandidate_outcome; [|done].
  assert (at_desired l2 = with_snapshot current n') as ->; [|done].
  destruct (negb (empty (im_ID _))); [by injection Hl2 as <- <-|].
  apply bind_inv in Hl2 as ([im|e] & w4 & _ & Hk).
  - destruct (empty (im_ID im) || _); [|by injection Hk as <- <-].
    by apply bind_inv in Hk as (? & ? & _ & [= ]).
  - by apply bind_inv in Hk as (? & ? & _ & [= ]).
Qed.

End Attempt.

(** The container of the service was stopped and removed. *)
Definition cleared (w w' : World) : Prop :=
  w_active w' = delete sid (w_active w) /\ w_gate w' = w_gate w /\
  (pointer sid w' = pointer sid w \/ (lax /\ pointer sid w' = None)) /\
  owed (w_trace w') ⊆ owed (w_trace w).

Lemma quiet_cleared w1 w2 w3 : quiet lax ∅ sid w1 w2 -> cleared w2 w3 -> cleared w1 w3.
Proof.
  intros [Ha Hg Hp Ho _] (Ha' & Hg' & Hp' & Ho'). split_and!; [congruence..| |set_solver].
  intuition congruence.
Qed.

Lemma clear_cleared w : post (clearActive sid) (fun _ w' => cleared w w') w.
Proof. intros [] w' [= <-]. split_and!; auto. Qed.

Lemma stopDisabled_outcome d w0 w :
  ds_id d = sid -> quiet lax ∅ sid w0 w ->
  post (stopDisabled d) (fun r w' =>
    (quiet lax ∅ sid w0 w' /\ (is_ok r = true -> w_active w' !! sid = None)) \/
    (r = Ok tt /\ cleared w0 w')) w.
Proof.
  intros Hd H0. unfold stopDisabled, call_error. rewrite Hd.
  apply post_bind. intros a w1 [= <- <-].
  destruct (w_active w !! sid) as [a|] eqn:Ha.
  - do 3 (eapply quiet_estep; [eassumption|apply quiet_call; exact I|by left|]; intros ? ? _ ?).
    apply post_bind. eapply post_mono; [apply clear_cleared|].
    intros u w5 H5. apply post_ret. right. split; [done|]. by eapply quiet_cleared.
  - apply post_ret. by left.
Qed.

Lemma deployLocked_outcome fuel override uploaded force w :
  post (deployLocked config fuel sid override uploaded force)
    (fun r w' => quiet lax ∅ sid w w' \/ (r = Ok tt /\ cleared w w') \/
       exists dep, (override <> "" -> dep = override) /\
         (committed dep w w' \/ is_ok r = false /\ unheard ∅ dep w w')) w.
Proof.
  unfold deployLocked, call_error.
  eapply quiet_estep; [reflexivity|apply quiet_read|by left|].
  intros d w1 Hd%(fun H => read_desired _ _ _ H d eq_refl) H1. destruct Hd as [Hd _].
  destruct (ds_enabled d); simpl.
  2: { eapply post_mono; [by apply stopDisabled_outcome|]. intros r w' [[? _]|?]; auto. }
  destruct (Canonical _) as [[[n' js] hash]|e]; [|by apply post_ret; left].
  eapply (quiet_step ∅); [done|apply quiet_call; exact I|]. intros t w2 H2.
  eapply quiet_estep; [done|quiet_walk|by left|]. intros dep w3 Hdep H3.
  assert (Hov : override <> "" -> dep = override).
  { intros Hne. unfold empty in Hdep. rewrite bool_decide_eq_false_2 in Hdep by done.
    by injection Hdep. }
  eapply (quiet_step ∅); [done|apply quiet_call; exact I|]. intros [[]|e] w4 H4.
  - eapply quiet_estep; [done|apply quiet_source|by left|]. intros l1 w5 _ H5.
    eapply quiet_estep; [done|apply quiet_image|by left|]. intros l2 w6 _ H6.
    eapply post_mono; [by apply (deployResolved_outcome dep)|].
    intros r w7 [?|[?|?]]; [by left|right; right; eauto..].
  - intros r w5 Hr. left. etrans; [exact H4|]. revert Hr.
    match goal with |- ?m w4 = _ -> _ => cut (resp (quiet lax ∅ sid) m); [intros Hm; apply Hm|] end.
    quiet_walk.
Qed.

(** ** Restoring, resuming, quiescing *)

(** A container of deployment [dep] takes the free place of the service; the
    pointer is not touched by the controller. *)
Definition reinstated (X : gset string) (dep : string) (w w' : World) : Prop :=
  w_active w !! sid = None /\
  (exists ready network, w_active w' = <[sid := mkActive dep ready network]> (w_active w)) /\
  w_gate w' = w_gate w /\
  (pointer sid w' = pointer sid w \/ (lax /\ pointer sid w' = None)) /\
  owed (w_trace w') ⊆ X ∪ owed (w_trace w).

Lemma set_reinstated X dep ready network w0 w1 w2 :
  w_active w0 !! sid = None -> quiet lax X sid w0 w1 ->
  quiet lax X sid (mkWorld (w_db w1) (<[sid := mkActive dep ready network]> (w_active w1))
                     (w_gate w1) (w_trace w1)) w2 ->
  reinstated X dep w0 w2.
Proof.
  intros Hnone [Ha Hg Hp Ho _] [Ha' Hg' Hp' Ho' _]. simpl in *.
  change (pointer sid (mkWorld _ _ _ _)) with (pointer sid w1) in Hp'.
  split_and!; [done| |congruence| |set_solver].
  - exists ready, network. by rewrite Ha', Ha.
  - intuition congruence.
Qed.

Lemma restoreCandidate_outcome X fuel desired d c p w0 w :
  ds_id desired = sid -> w_active w0 !! sid = None -> quiet lax X sid w0 w ->
  post (restoreCandidate fuel desired d c p)
    (fun r w' => if fst r then is_ok (snd r) = false /\ quiet lax X sid w0 w'
                 else reinstated X (dr_id d) w0 w') w.
Proof.
  intros Hd Hnone H0. unfold restoreCandidate, call_error.
  eapply (quiet_step X); [done|apply quiet_start|]. intros [[]|e] w1 H1; [|by apply post_ret].
  eapply (quiet_step X); [done|apply quiet_volumes|]. intros [[]|e] w2 H2; [|by apply post_ret].
  eapply (quiet_step X); [done|apply quiet_wait|]. intros [ready|e] w3 H3; [|by apply post_ret].
  apply post_bind. intros [] w4 [= <-]. rewrite Hd.
  apply post_bind. eapply (resp_post (quiet lax X sid)); [apply quiet_call; exact I|]. intros r w5 H5.
  assert (reinstated X (dr_id d) w0 w5) by (by eapply set_reinstated).
  destruct r; by apply post_ret.
Qed.

Lemma Deployment_id id db d : Deployment id db = Ok d -> dr_id d = id.
Proof.
  unfold Deployment, scanDeploymentRecord. intros Hq. by repeat case_match; simplify_eq/=.
Qed.

Lemma desired_pointer db d :
  DesiredService sid db = Ok d -> ds_active d <> "" -> db_pointer sid db = Some (ds_active d).
Proof.
  unfold DesiredService, db_pointer. intros Hq Hne. repeat case_match; simplify_eq/=.
  by destruct (s_active _).
Qed.

Lemma quiet_pull d r : resp (quiet lax ∅ sid) (pullActiveImage config d r).
Proof. unfold pullActiveImage. quiet_walk. Qed.

(** The pointer the operation read still stands when it ends, unless another
    session cleared it. *)
Definition restored_ok (w0 w' : World) : Prop :=
  quiet lax ∅ sid w0 w' \/
  exists dep c, reinstated {[c]} dep w0 w' /\
    (pointer sid w' = Some dep \/ (lax /\ pointer sid w' = None)).

Lemma restoreCurrentLocked_outcome fuel expected w :
  post (restoreCurrentLocked config fuel sid expected)
    (fun r w' => restored_ok w w' /\
       (r = Ok true -> exists dep c, reinstated {[c]} dep w w' /\ (expected <> "" -> dep = expected))) w.
Proof.
  unfold restoreCurrentLocked.
  assert (Hquiet : forall (r : result goerr bool) w', quiet lax ∅ sid w w' -> r <> Ok true ->
    restored_ok w w' /\ (r = Ok true -> exists dep c, reinstated {[c]} dep w w' /\
                           (expected <> "" -> dep = expected))).
  { intros r w' Hq Hr. split; [by left|done]. }
  eapply quiet_estep; [reflexivity|apply quiet_read|by intros; apply Hquiet|].
  intros d w1 Hr H1. destruct (read_desired _ _ _ Hr d eq_refl) as [Hid Hds].
  destruct (negb (ds_enabled d) || _) eqn:He; [by apply post_ret, Hquiet|].
  destruct (negb (empty expected) && _) eqn:Hexp; [by apply post_ret, Hquiet|].
  apply post_bind. intros a ? [= <- <-].
  destruct (w_active w1 !! sid) as [a|] eqn:Ha; [by apply post_ret, Hquiet|].
  assert (Hnone : w_active w !! sid = None) by (by destruct H1 as [<- _ _ _ _]).
  apply post_bind. intros rec w2 Hrec.
  assert (H2 : quiet lax ∅ sid w1 w2) by (by eapply quiet_read).
  assert (H02 : quiet lax ∅ sid w w2) by (by etrans).
  destruct rec as [rec|e]; [|by apply post_ret, Hquiet].
  assert (Hdep : dr_id rec = ds_active d).
  { revert Hrec. unfold read. intros [= Hrec _]. destruct (a_read _); [done|].
    by apply Deployment_id in Hrec. }
  eapply (quiet_step ∅); [done|apply quiet_call; exact I|]. intros i w3 H3.
  eapply quiet_estep; [done| |by intros; apply Hquiet|].
  { pose proof quiet_pull. unfold call_error. quiet_walk. }
  intros image w4 _ H4.
  destruct (negb (bool_decide (im_Digest image = _))); [by apply post_ret, Hquiet|].
  apply post_ebind. eapply post_mono; [apply create_owed|].
  intros [[c p]|e] w5 H45; simpl in H45; [|apply Hquiet; [by etrans|done]].
  assert (H5 : quiet lax {[ct_ID c]} sid w w5)
    by (eapply (quiet_weaken _ (∅ ∪ {[ct_ID c]})); [set_solver|by eapply quiet_join]).
  apply post_bind. eapply post_mono; [by apply (restoreCandidate_outcome {[ct_ID c]})|].
  intros [[] r] w6 Ho; simpl in Ho.
  - destruct Ho as [Hf H6]. apply post_bind. eapply post_mono; [by apply quiet_remove|].
    intros ? w7 H7. apply post_ret, Hquiet; [done|]. by intros ->.
  - apply post_bind, post_ret, post_ret. unfold empty in *. btrue.
    assert (Hp : pointer sid w = Some (dr_id rec)).
    { apply desired_pointer in Hds; [|done]. rewrite Hdep. destruct H1 as [_ _ [Hp|[_ Hp]] _ _];
        unfold pointer in *; unfold db_pointer in *; congruence. }
    split.
    + right. exists (dr_id rec), (ct_ID c). split; [done|].
      destruct Ho as (_ & _ & _ & [Hq|Hq] & _); [|by right].
      left. congruence.
    + intros _. exists (dr_id rec), (ct_ID c). split; [done|]. intros Hne.
      rewrite bool_decide_eq_false_2 in Hexp by done. simpl in Hexp. btrue. congruence.
Qed.

(** ** Coherence of the active map with the active pointer *)

(** The container the controller runs belongs to the deployment the database
    calls active; a cleared pointer means that another session disabled the
    service and its stop is still to come. *)
Definition coherent (w : World) : Prop :=
  forall a, w_active w !! sid = Some a ->
    pointer sid w = Some (ac_deploymentID a) \/ pointer sid w = None.

(** Coherent, unless the acknowledgement of an activation was lost on the way. *)
Definition intact (w : World) : Prop := lost_activation (w_trace w) \/ coherent w.

Lemma coherent_quiet X w w' : quiet lax X sid w w' -> coherent w -> coherent w'.
Proof. intros [Ha _ Hp _ _] Hc a Hl. rewrite Ha in Hl. apply Hc in Hl. intuition congruence. Qed.

Lemma intact_quiet X w w' : quiet lax X sid w w' -> intact w -> intact w'.
Proof.
  intros Hq [Hl|Hc]; [left|right; by eapply coherent_quiet].
  eapply lost_later; [apply Hq|done].
Qed.

Lemma coherent_committed dep w w' : committed dep w w' -> coherent w'.
Proof.
  intros (c & ready & network & Ha & _ & Hp & _) a. rewrite Ha, lookup_insert_eq. intros [= <-].
  simpl. intuition.
Qed.

Lemma coherent_cleared w w' : cleared w w' -> coherent w'.
Proof. intros (Ha & _) a. by rewrite Ha, lookup_delete_eq. Qed.

Lemma coherent_reinstated X dep w w' :
  reinstated X dep w w' -> pointer sid w' = Some dep \/ pointer sid w' = None -> coherent w'.
Proof.
  intros (_ & (ready & network & Ha) & _) Hp a. rewrite Ha, lookup_insert_eq. by intros [= <-].
Qed.

Lemma intact_restored w w' : restored_ok w w' -> intact w -> intact w'.
Proof.
  intros [Hq|(dep & c & Hr & Hp)] Hc; [by eapply intact_quiet|].
  right. eapply coherent_reinstated; [done|]. intuition.
Qed.

Definition keeps_coherent {A} (m : M A) : Prop :=
  forall w, intact w -> post m (fun _ => intact) w.

Lemma coherent_resp {A} (m : M A) : resp (quiet lax ∅ sid) m -> keeps_coherent m.
Proof. intros Hm w Hc a w' Hr. eapply intact_quiet; [by eapply Hm|done]. Qed.

Lemma coherent_bind {A B} (m : M A) (k : A -> M B) :
  keeps_coherent m -> (forall a, keeps_coherent (k a)) -> keeps_coherent (m ≫= k).
Proof. intros Hm Hk w Hc. apply post_bind. eapply post_mono; [by apply Hm|]. intros; by apply Hk. Qed.

Lemma coherent_ebind {A B} (m : M (result goerr A)) (k : A -> M (result goerr B)) :
  keeps_coherent m -> (forall a, keeps_coherent (k a)) -> keeps_coherent (ebind m k).
Proof.
  intros Hm Hk. apply coherent_bind; [done|]. intros [a|e]; [done|].
  intros w Hc. by apply post_ret.
Qed.

Lemma coherent_clear : keeps_coherent (clearActive sid).
Proof. intros w _ u w' Hr. right. eapply coherent_cleared, clear_cleared. exact Hr. Qed.

Lemma coherent_lease {A} kind id (body : M (result goerr A)) :
  keeps_coherent body -> keeps_coherent (with_lease kind id body).
Proof.
  intros Hb w Hc r w'. unfold with_lease. destruct (Begin kind id (w_gate w)) as [g [lease|e]].
  - destruct (body _) as [[r' w2]|] eqn:E; [|done]. intros [= <- <-].
    assert (intact w2) as Hc2 by (eapply Hb; [|exact E]; exact Hc). exact Hc2.
  - intros [= <- <-]. exact Hc.
Qed.

Lemma coherent_deploy fuel o u f : keeps_coherent (deploy config fuel sid o u f).
Proof.
  apply coherent_lease. intros w Hc. eapply post_mono; [apply deployLocked_outcome|].
  intros r w' [Hq|[[_ Hq]|(dep & _ & [Hq|[_ Hq]])]]; [by eapply intact_quiet|right|right|left].
  - by eapply coherent_cleared.
  - by eapply coherent_committed.
  - apply Hq.
Qed.

Lemma coherent_restore_locked fuel e : keeps_coherent (restoreCurrentLocked config fuel sid e).
Proof.
  intros w Hc. eapply post_mono; [apply restoreCurrentLocked_outcome|].
  intros r w' [Hr _]. by eapply intact_restored.
Qed.

Ltac coherent_walk :=
  repeat lazymatch goal with
    | |- keeps_coherent (mret _) => apply coherent_resp, resp_ret; apply _
    | |- keeps_coherent (throw _) => unfold throw
    | |- keeps_coherent (ebind _ _) => apply coherent_ebind; [|intros]
    | |- keeps_coherent (_ ≫= _) => apply coherent_bind; [|intros]
    | |- keeps_coherent (if ?b then _ else _) => destruct b
    | |- keeps_coherent (match ?x with _ => _ end) => destruct x
    | |- keeps_coherent (clearActive _) => apply coherent_clear
    | |- keeps_coherent (restoreCurrentLocked _ _ _ _) => apply coherent_restore_locked
    | |- keeps_coherent (with_lease _ _ _) => apply coherent_lease
    | |- _ => apply coherent_resp; quiet_leaf
    end.

Lemma coherent_restart fuel e : keeps_coherent (RestartCurrent config fuel sid e).
Proof. unfold RestartCurrent, call_error. coherent_walk. Qed.

Lemma coherent_restore fuel : keeps_coherent (Restore config fuel sid).
Proof. unfold Restore. coherent_walk. Qed.

Lemma coherent_restore_current fuel e : keeps_coherent (RestoreCurrent config fuel sid e).
Proof. unfold RestoreCurrent. coherent_walk. Qed.

Lemma coherent_exit d c : keeps_coherent (PrepareUnexpectedExit sid d c).
Proof. unfold PrepareUnexpectedExit, call_error. coherent_walk. Qed.

Lemma coherent_quiesce : keeps_coherent (quiesceService sid).
Proof. unfold quiesceService, call_error. coherent_walk. Qed.

Lemma coherent_stop d : ds_id d = sid -> keeps_coherent (stopDisabled d).
Proof. intros Hd. unfold stopDisabled, call_error. rewrite Hd. coherent_walk. Qed.

Lemma resume_outcome fuel q w :
  ds_id (q_desired q) = sid ->
  post (resumeService fuel q) (fun _ w' => quiet lax ∅ sid w w' \/
          reinstated ∅ (ac_deploymentID (q_active q)) w w') w.
Proof.
  intros Hd. unfold resumeService, call_error. rewrite Hd.
  apply post_bind. intros a ? [= <- <-].
  destruct (w_active w !! sid) as [a|] eqn:Ha; [by apply post_ret; left|].
  eapply quiet_estep; [reflexivity|apply quiet_start|by left|]. intros [] w1 _ H1.
  eapply quiet_estep; [done|apply quiet_wait|by left|]. intros ready w2 _ H2.
  apply post_bind. intros [] w3 [= <-].
  eapply (resp_post (quiet lax ∅ sid)); [apply quiet_call; exact I|]. intros r w4 H4. right. by eapply set_reinstated.
Qed.

End Quiet.

(** ** The controller's operations on one service *)

Inductive Operation :=
| ODeploy (fuel : nat) (override : string) (uploaded : option SourceResolution) (force : bool)
| ORestore (fuel : nat)
| ORestoreCurrent (fuel : nat) (expected : string)
| ORestart (fuel : nat) (expected : string)
| ODelete (desired : ServiceDesired)
| ODeleteWithProject (desired : ServiceDesired)
| OExit (deploymentID : string) (containerID : string)
| OQuiesce
| OResume (fuel : nat) (service : quiescedService)
(** A transaction of another session. *)
| OOthers (trace : list Call).

(** The service an operation is given, where it is given a whole record. *)
Definition op_service (sid : string) (op : Operation) : string :=
  match op with
  | ODelete d | ODeleteWithProject d => ds_id d
  | OResume _ q => ds_id (q_desired q)
  | _ => sid
  end.

Section Operations.
Context {HT : HostnameTables} {CT : ConfigTables} {env : Env} (config : Config) (sid : string).

Definition runOperation (op : Operation) (w : World) : option World :=
  match op with
  | ODeploy fuel o u f => snd <$> deploy config fuel sid o u f w
  | ORestore fuel => snd <$> Restore config fuel sid w
  | ORestoreCurrent fuel e => snd <$> RestoreCurrent config fuel sid e w
  | ORestart fuel e => snd <$> RestartCurrent config fuel sid e w
  | ODelete d => snd <$> DeleteService d w
  | ODeleteWithProject d => snd <$> DeleteServiceDuringProjectDeletion d w
  | OExit dep c => snd <$> PrepareUnexpectedExit sid dep c w
  | OQuiesce => snd <$> quiesceService sid w
  | OResume fuel q => snd <$> resumeService fuel q w
  | OOthers trace =>
      Some (mkWorld (a_others trace (w_db w)) (w_active w) (w_gate w) (w_trace w))
  end.

Fixpoint history (ops : list Operation) (w : World) : option World :=
  match ops with
  | [] => Some w
  | op :: rest => w1 ← runOperation op w; history rest w1
  end.

(** [resumeService] starts the container it is given without looking at the
    database.  It is timely while the deployment of that container is still the
    current one, or the pointer has been cleared. *)
Definition timely (w : World) (op : Operation) : Prop :=
  match op with
  | OResume _ q => pointer sid w = Some (ac_deploymentID (q_active q)) \/ pointer sid w = None
  | _ => True
  end.

(** Every resume of the history finds its deployment current. *)
Fixpoint resumes_timely (ops : list Operation) (w : World) : Prop :=
  match ops with
  | [] => True
  | op :: rest => timely w op /\ forall w1, runOperation op w = Some w1 -> resumes_timely rest w1
  end.

Lemma ran {A} (m : option (A * World)) w' : snd <$> m = Some w' -> exists r, m = Some (r, w').
Proof. destruct m as [[r w]|]; [|done]. intros [= <-]. by exists r. Qed.

Lemma operation_intact `{!Guarded True sid} op w w' :
  op_service sid op = sid -> timely w op -> runOperation op w = Some w' -> intact sid w -> intact sid w'.
Proof.
  intros Hs Ht Hop Hc. destruct op; simpl in *;
    try (apply ran in Hop as [r Hop]).
  - by eapply (coherent_deploy config True).
  - by eapply (coherent_restore config True).
  - by eapply (coherent_restore_current config True).
  - by eapply (coherent_restart config True).
  - eapply (coherent_lease sid); [|done..]. by apply (coherent_stop True).
  - by eapply (coherent_stop True).
  - by eapply (coherent_exit True).
  - by eapply (coherent_quiesce True).
  - pose proof (resume_outcome True sid fuel service w Hs) as Ho.
    edestruct Ho as [Hq|Hq]; [done..|by eapply intact_quiet|].
    right. eapply coherent_reinstated; [done|]. destruct Hq as (_ & _ & _ & Hp & _). intuition congruence.
  - injection Hop as <-. apply (intact_quiet True sid ∅) with w; [|done].
    split; [done..|apply guarded|set_solver|done].
Qed.

Lemma history_intact `{!Guarded True sid} ops w w' :
  Forall (fun op => op_service sid op = sid) ops -> resumes_timely ops w ->
  history ops w = Some w' -> intact sid w -> intact sid w'.
Proof.
  intros Hs. revert w. induction Hs as [|op ops Hop _ IH]; simpl; intros w Ht Hr Hi.
  { by injection Hr as <-. }
  apply bind_Some in Hr as (w1 & H1 & Hr). destruct Ht as [Ht Hrest].
  eapply IH; [by apply Hrest|done|]. by eapply operation_intact.
Qed.

End Operations.

(** ** A concrete environment *)

Definition demo_image : EngineImage := mkImage "img" "sha256:bb" 5.
Definition demo_container (id : string) : Container :=
  mkContainer id "running" 0 {["net" := ["10.0.0.2"]]}.

(** Every call succeeds; the clock advances a second per call. *)
Definition demo_env : Env := {|
  a_fault := fun _ => no_fault;
  a_read := fun _ => None;
  a_pull := fun _ => Ok demo_image;
  a_image := fun _ => Ok demo_image;
  a_create := fun _ => Ok (demo_container "c1");
  a_orphan := fun _ => None;
  a_inspect := fun trace => match trace with
                            | CInspect id :: _ => Ok (demo_container id)
                            | _ => Err (Msg "no container") end;
  a_credential := fun _ => Ok (mkCredential "" "");
  a_environment := fun _ => Ok ∅;
  a_placement := fun _ => Ok (mkPlacement "net" "10.0.0.1" "search" "cg");
  a_newID := fun _ => Ok "d2";
  a_probe := fun _ => Ok 200;
  a_error := fun _ => None;
  a_close := fun _ => None;
  a_now := fun trace => unix_epoch + (1000000 + Z.of_nat (length trace)) * second;
  a_others := fun _ db => db
|}.

Definition demo_cfg : Config := mkConfig false false false false "/var/lib/volumes".

Definition ctl_db : DB :=
  mkDB {["prj" := "shop"]}
       {["svc" := mkServiceRow "prj" "web" true (Some "d0") demo_snapshot 1]}
       {["d0" := demo_deployment "succeeded"]} ∅ ∅ {["vol" := mkVolumeRow "prj" "svc"]} ∅.

Definition old_active : activeContainer := mkActive "d0" (demo_container "c0") "net".

Definition demo_world : World := mkWorld ctl_db {["svc" := old_active]} Admission.New [].

Definition demo_run (force : bool) :=
  @Deploy demo_hostnames demo_config demo_env demo_cfg 5 "svc" force demo_world.

(** The result, the deployment that runs and the pointer after a run. *)
Definition summary (run : option (result goerr unit * World))
    : option (bool * option string * option string) :=
  match run with
  | Some (r, w) => Some (is_ok r, option_map ac_deploymentID (w_active w !! "svc"), pointer "svc" w)
  | None => None
  end.

Lemma summary_some run b d p : summary run = Some (b, d, p) ->
  exists r w, run = Some (r, w) /\ is_ok r = b /\
    option_map ac_deploymentID (w_active w !! "svc") = d /\ pointer "svc" w = p.
Proof. destruct run as [[r w]|]; [|done]. intros [= <- <- <-]. exists r, w. by split_and!. Qed.

Lemma demo_run_summary force : summary (demo_run force) = Some (true, Some "d2", Some "d2").
Proof. destruct force; vm_compute; reflexivity. Qed.

#[export] Instance demo_guarded lax sid : @Guarded demo_env lax sid.
Proof. intros trace db. by left. Qed.

Lemma demo_world_coherent : coherent "svc" demo_world.
Proof. intros a Ha. left. unfold demo_world in Ha; simpl in Ha.
  rewrite lookup_singleton_eq in Ha. by injection Ha as <-. Qed.

(** ** Theorems *)

(** C1. The runtime never drifts from the database.  From any state in which
    the container the controller runs for a service belongs to the deployment
    the database calls active (or the pointer was just cleared), every
    sequence of controller operations on the service (deploys, forced or not,
    restores, restarts, deletion, crash cleanup, quiescing, resuming),
    interleaved with other sessions' transactions and with every failure of the
    engine, the publisher or the store, ends in such a state, unless the
    acknowledgement of an activation that committed was lost on the way.  The
    other sessions leave the service's active pointer alone or clear it, and
    each resume finds the deployment it was handed still current (or the
    pointer cleared), which [resumeService] itself does not check. *)
Theorem controller_coherent `{HostnameTables} `{ConfigTables} `{Env} config sid ops w w'
    (Hothers : Guarded True sid)
    (Hservice : Forall (fun op => op_service sid op = sid) ops)
    (Hresumes : resumes_timely config sid ops w)
    (Hrun : history config sid ops w = Some w') (Hcoherent : coherent sid w) :
  lost_activation (w_trace w') \/ coherent sid w'.
Proof. eapply history_intact; [done..|]. by right. Qed.

Definition demo_desired : ServiceDesired :=
  mkDesired "svc" "prj" "shop" "web" true "d0" "sha256:aa" "hash" demo_snapshot.

(** Quiescing, resuming and deploying. *)
Definition demo_ops : list Operation :=
  [OQuiesce; OResume 5 (mkQuiesced demo_desired old_active); ODeploy 5 "" None false].

Definition demo_history : option World :=
  @history demo_hostnames demo_config demo_env demo_cfg "svc" demo_ops demo_world.

Lemma demo_history_summary :
  (fun w => (option_map ac_deploymentID (w_active w !! "svc"), pointer "svc" w)) <$> demo_history
  = Some (Some "d2", Some "d2").
Proof. vm_compute. reflexivity. Qed.

Lemma controller_coherent_witness :
  exists w', demo_history = Some w' /\
    option_map ac_deploymentID (w_active w' !! "svc") = Some "d2" /\
    (@lost_activation demo_env (w_trace w') \/ coherent "svc" w').
Proof.
  pose proof demo_history_summary as Hsum. destruct demo_history as [w'|] eqn:E; [|discriminate Hsum].
  exists w'. split; [reflexivity|]. split; [injection Hsum as Hd _; exact Hd|].
  apply (@controller_coherent demo_hostnames demo_config demo_env demo_cfg "svc" demo_ops demo_world w').
  - apply demo_guarded.
  - repeat constructor.
  - split; [exact I|]. intros w1 H1. split; [|intros w2 _; split; [exact I|intros w3 _; exact I]].
    left. injection H1 as <-. vm_compute. reflexivity.
  - exact E.
  - exact demo_world_coherent.
Defined.


Lemma one_more (X Y Z : gset string) c : X ⊆ Y ∪ Z -> X ⊆ {[c]} ∪ Y ∪ Z.
Proof. set_solver. Qed.



(** The world after an attempt "d2" has been recorded. *)
Definition begun_world : World :=
  mkWorld (set_deployments (insert "d2" (mkDeploymentRow "svc" "sha256:bb"
             "docker.io/library/nginx:1" None None None "hash" "{}" "running" None None 10 None))
             ctl_db)
    {["svc" := old_active]} Admission.New [].

Definition demo_cutover :=
  @runDeployment demo_config demo_env demo_cfg 5 demo_desired
    (mkEnvironment "d2" EnvironmentProduction "" "" "") "img" begun_world.

Lemma demo_cutover_summary : summary demo_cutover = Some (true, Some "d2", Some "d2").
Proof. vm_compute. reflexivity. Qed.


(** ** What the provisos exclude *)

(** The demo environment, with other answers to the store's transactions, to
    the creation of containers and to the request for a fresh ID. *)
Definition demo_env_with (fault : list Call -> TxFault) (create : list Call -> result goerr Container)
    (orphan : list Call -> option string) (newID : list Call -> result goerr string) : Env := {|
  a_fault := fault; a_read := @a_read demo_env; a_pull := @a_pull demo_env;
  a_image := @a_image demo_env; a_create := create; a_orphan := orphan;
  a_inspect := @a_inspect demo_env; a_credential := @a_credential demo_env;
  a_environment := @a_environment demo_env; a_placement := @a_placement demo_env;
  a_newID := newID; a_probe := @a_probe demo_env; a_error := @a_error demo_env;
  a_close := @a_close demo_env; a_now := @a_now demo_env; a_others := @a_others demo_env |}.

Definition is_call (name : string) (c : Call) : bool :=
  match c with CStore n => bool_decide (n = name) | _ => false end.
Definition is_new (c : Call) : bool := match c with CNewID => true | _ => false end.

(** The context ends while the first activation waits for its result; nothing
    else ever fails. *)
Definition lossy_env : Env := demo_env_with
  (fun trace => match List.filter (is_call "ActivateDeployment") trace with
                | [_] => mkFault None None (Some (Msg "context canceled"))
                | _ => no_fault end)
  (@a_create demo_env) (@a_orphan demo_env)
  (fun trace => Ok (match List.filter is_new trace with [_] => "d2" | _ => "d3" end)).

Definition lossy_deploy (w : World) :=
  @Deploy demo_hostnames demo_config lossy_env demo_cfg 5 "svc" false w.

(** Losing one acknowledgement is not repaired: the deploy fails, its container
    is removed and the old one is started again, but the database names the new
    deployment; the next deploy finds that its runtime does not match the
    pointer and fails too, although nothing goes wrong any more. *)
Lemma lost_activation_sticks :
  summary (lossy_deploy demo_world) = Some (false, Some "d0", Some "d2") /\
  summary (lossy_deploy demo_world ≫= fun rw => lossy_deploy (snd rw))
    = Some (false, Some "d0", Some "d2").
Proof. split; vm_compute; reflexivity. Qed.

(** A deploy and a crash between quiescing and resuming: the resume starts the
    container of the replaced deployment, and the service runs "d0" while the
    database calls "d2" active. *)
Lemma stale_resume_drifts :
  (fun w => (option_map ac_deploymentID (w_active w !! "svc"), pointer "svc" w)) <$>
    @history demo_hostnames demo_config demo_env demo_cfg "svc"
      [OQuiesce; ODeploy 5 "" None false; OExit "d2" "c1"; OResume 5 (mkQuiesced demo_desired old_active)]
      demo_world
  = Some (Some "d0", Some "d2").
Proof. vm_compute. reflexivity. Qed.

(** A container whose creation failed after the engine had made it stays. *)
Lemma failed_create_leaks :
  (fun rw => (is_ok rw.1, elements (@present (demo_env_with (@a_fault demo_env)
      (fun _ => Err (Msg "read container state")) (fun _ => Some "c9") (@a_newID demo_env)) (w_trace rw.2)))) <$>
    @Deploy demo_hostnames demo_config (demo_env_with (@a_fault demo_env)
      (fun _ => Err (Msg "read container state")) (fun _ => Some "c9") (@a_newID demo_env))
      demo_cfg 5 "svc" false demo_world
  = Some (false, ["c9"]).
Proof. vm_compute. reflexivity. Qed.
