(* ===== verification/ControllerSafety.v ===== *)
(** * Termination, readiness and history of the deployment controller

    Further properties of [Controller.v]: its waiting loops end when the clock
    does, it only cuts over to a container that passed its readiness check, a
    deploy never leaves its own record running, pairs that failed before and
    full disks are kept away from the engine, and restarts do not rewrite
    history. *)

From stdpp Require Import pretty.
From S2P Require Import Prelude Effects Names Admission ServiceConfig DeploymentStore Runtime Controller ControllerProofs.

(** ** Termination *)

(** The clock passes every instant within a bounded number of calls. *)
Definition clock_progress `{Env} : Prop :=
  forall T, exists n, forall trace, (n <= length trace)%nat -> T <= a_now trace.

Section Termination.
Context {HT : HostnameTables} {CT : ConfigTables} {env : Env} (config : Config).

Lemma ends_call {A} c (f : list Call -> A) : terminates (fun _ => call c f).
Proof. by apply terminates_const. Qed.
Lemma ends_read {A} n (q : DB -> result goerr A) : terminates (fun _ => read n q).
Proof. by apply terminates_const. Qed.
Lemma ends_write n op : terminates (fun _ => write n op).
Proof. apply terminates_const. intros w. unfold write. by destruct (op _ _). Qed.
Lemma ends_get s : terminates (fun _ => activeContainerOf s).
Proof. by apply terminates_const. Qed.
Lemma ends_set s a : terminates (fun _ => setActive s a).
Proof. by apply terminates_const. Qed.
Lemma ends_clear s : terminates (fun _ => clearActive s).
Proof. by apply terminates_const. Qed.

Ltac ends_leaf :=
  first [ apply ends_call | apply ends_read | apply ends_write | apply ends_get
        | apply ends_set | apply ends_clear
        | match goal with H : context [terminates] |- _ => apply H end ].
Ltac ends := ends_walk ends_leaf.

(** One pass of the loop makes calls, and settles once the deadline passed. *)
Lemma checkReady_settles h net deadline c w n :
  (forall trace, (n <= length trace)%nat -> deadline <= a_now trace) ->
  exists o w', checkReady h net deadline c w = Some (o, w') /\
    (length (w_trace w) < length (w_trace w'))%nat /\
    ((n <= length (w_trace w))%nat -> o <> None).
Proof.
  intros Hn. unfold checkReady, probeHTTP, now, mbind, Eff_bind, mret, Eff_ret, call; simpl.
  assert (Hlate : forall trace, (n <= length trace)%nat -> (a_now trace <? deadline) = false)
    by (intros; apply Z.ltb_ge; auto).
  destruct h as [h|]; simpl.
  - destruct (default [] _) as [|address [|? ?]]; simpl;
      [| |by eexists _, _; split_and!; [reflexivity|simpl; lia|
            intros; rewrite Hlate by (simpl; lia)]];
      [by eexists _, _; split_and!; [reflexivity|simpl; lia|
            intros; rewrite Hlate by (simpl; lia)]|].
    destruct (a_probe _) as [st|e]; simpl.
    + destruct ((200 <=? st) && (st <? 400)); simpl;
        eexists _, _; split_and!; try reflexivity; simpl; try lia; try done.
      intros. by rewrite Hlate by (simpl; lia).
    + match goal with |- context [if ?b then None else Some (Err e)] => destruct b eqn:E end; simpl;
        eexists _, _; split_and!; try reflexivity; simpl; try lia; try done.
      intros. by rewrite Hlate by (simpl; lia).
  - eexists _, _; split_and!; [reflexivity|simpl; lia|].
    intros. by rewrite Hlate by (simpl; lia).
Qed.

Lemma waitLoop_settles h id net deadline n :
  (forall trace, (n <= length trace)%nat -> deadline <= a_now trace) ->
  forall k w, (n <= length (w_trace w) + k)%nat ->
  exists a w', forall fuel, (S k <= fuel)%nat -> waitLoop fuel h id net deadline w = Some (a, w').
Proof.
  intros Hn. induction k as [|k IH]; intros w Hk;
    (destruct (a_inspect (CInspect id :: w_trace w)) as [c|e] eqn:Hi;
     [|eexists _, _; intros [|fuel] Hf; [lia|]; simpl;
       unfold ebind, mbind, Eff_bind, call; rewrite Hi; reflexivity]);
    (destruct (bool_decide (ct_State c = "running")) eqn:Hrun;
     [|eexists _, _; intros [|fuel] Hf; [lia|]; simpl;
       unfold ebind, mbind, Eff_bind, call; rewrite Hi, Hrun; reflexivity]);
    set (w1 := mkWorld (a_others (CInspect id :: w_trace w) (w_db w)) (w_active w) (w_gate w)
                 (CInspect id :: w_trace w));
    destruct (checkReady_settles h net deadline c w1 n Hn) as (o & w2 & Hc & Hlen & Hsettle);
    simpl in Hlen, Hsettle.
  - destruct o as [r|]; [|by destruct Hsettle; [lia|]].
    exists r, w2. intros [|fuel] Hf; [lia|]. simpl.
    unfold ebind, mbind, Eff_bind, call at 1. rewrite Hi, Hrun. simpl. fold w1. by rewrite Hc.
  - destruct o as [r|].
    { exists r, w2. intros [|fuel] Hf; [lia|]. simpl.
      unfold ebind, mbind, Eff_bind, call at 1. rewrite Hi, Hrun. simpl. fold w1. by rewrite Hc. }
    set (w3 := mkWorld (a_others (CTick :: w_trace w2) (w_db w2)) (w_active w2) (w_gate w2)
                 (CTick :: w_trace w2)).
    destruct (a_error (CTick :: w_trace w2)) as [e|] eqn:Ht.
    + exists (Err e), w3. intros [|fuel] Hf; [lia|]. simpl.
      unfold ebind, mbind, Eff_bind, call_error, call. rewrite Hi, Hrun. simpl. fold w1.
      rewrite Hc, Ht. reflexivity.
    + destruct (IH w3) as (a & w' & Hrest); [simpl; lia|]. exists a, w'.
      intros [|fuel] Hf; [lia|]. simpl.
      unfold ebind, mbind, Eff_bind, call_error, call. rewrite Hi, Hrun. simpl. fold w1.
      rewrite Hc, Ht. simpl. apply Hrest. lia.
Qed.

Lemma ends_wait d id net : clock_progress -> terminates (fun n => waitReady n d id net).
Proof.
  intros Hclock.
  assert (Hloop : forall h deadline, terminates (fun n => waitLoop n h id net deadline)).
  { intros h deadline w. destruct (Hclock deadline) as [n Hn].
    destruct (waitLoop_settles h id net deadline n Hn n w) as (a & w' & Hr); [lia|]. eauto. }
  unfold waitReady, now. ends.
Qed.

Lemma ends_dispatch d i s c m e : terminates (fun _ => dispatchDeployment config d i s c m e).
Proof. unfold dispatchDeployment. ends. Qed.
Lemma ends_start d c i : terminates (fun _ => startContainer d c i).
Proof. unfold startContainer, StartAttached. ends. Qed.
Lemma ends_create d e i : terminates (fun _ => createRuntimeContainer config d e i).
Proof.
  assert (forall l, terminates (fun _ => mount_volumes config d l)) by (induction l; simpl; ends).
  unfold createRuntimeContainer. ends.
Qed.
Lemma ends_volumes d : terminates (fun _ => recordVolumeInitializations d).
Proof. unfold recordVolumeInitializations. induction (VolumeMounts _); simpl; unfold now; ends. Qed.
Lemma ends_fail i c e : terminates (fun _ => fail config i c e).
Proof. pose proof ends_dispatch. unfold fail, now. ends. Qed.
Lemma ends_abandon d o i c e : terminates (fun _ => abandon config d o i c e).
Proof.
  pose proof ends_start. pose proof ends_fail. unfold abandon, restoreOld, call_error. ends.
Qed.

Lemma ends_run d ctx i : clock_progress -> terminates (fun n => runDeployment config n d ctx i).
Proof.
  intros Hclock. pose proof ends_create. pose proof ends_fail. pose proof ends_abandon.
  pose proof ends_volumes. pose proof ends_start. pose proof ends_dispatch.
  pose proof (fun d i n => ends_wait d i n Hclock).
  unfold runDeployment, runCandidate, now, call_error. ends.
Qed.

Lemma ends_lease {A} kind id (body : nat -> M (result goerr A)) :
  terminates body -> terminates (fun n => with_lease kind id (body n)).
Proof.
  intros Hb w. unfold with_lease. destruct (Begin kind id (w_gate w)) as [g [lease|e]].
  - destruct (Hb (mkWorld (w_db w) (w_active w) g (w_trace w))) as (n & a & w2 & Hn).
    eexists n, _, _. intros n' Hle. rewrite Hn by done. reflexivity.
  - by eexists 0%nat, _, _.
Qed.

Lemma ends_deploy sid o u f : clock_progress -> terminates (fun n => deploy config n sid o u f).
Proof.
  intros Hclock. apply ends_lease. pose proof ends_dispatch.
  pose proof (fun d c i => ends_run d c i Hclock).
  assert (Hbegin : forall i j h t l r, terminates (fun _ => beginDeployment config sid i j h t l r))
    by (intros; unfold beginDeployment; ends).
  assert (Hfail : forall A i j h t l c e,
            terminates (fun _ => fail_with (A := A) config sid i j h t l c e))
    by (intros; unfold fail_with, failDeployment, now; ends).
  assert (Hfinish : forall i l s c m, terminates (fun _ => finishAttempt config i l s c m))
    by (intros; unfold finishAttempt, now; ends).
  unfold deployLocked, deployResolved, deployCandidate, deployUnchanged, resolveImage,
    resolveSource, recordResolvedDeployment, stopDisabled, now, call_error. ends.
Qed.

End Termination.

(** ** Readiness *)

(** What made [waitReady] return a container. *)
Definition passed `{Env} (h : option HealthCheck) (id network : string) (c : Container)
    (since : list Call) : Prop :=
  ct_State c = "running" /\
  exists trace, suffix since trace /\ a_inspect (CInspect id :: trace) = Ok c /\
  match h with
  | Some h => exists address status,
      ct_IPs c !! network = Some [address] /\
      a_probe (CProbe address (Port h) (Path h) :: CInspect id :: trace) = Ok status /\
      200 <= status < 400
  | None => exists started, suffix started trace /\
      a_now (CNow :: started) + processStartupGrace <= a_now (CNow :: CInspect id :: trace)
  end.

Section Readiness.
Context {env : Env}.

(** The calls made before are remembered. *)
Definition grows (w w' : World) : Prop := suffix (w_trace w) (w_trace w').
#[local] Instance grows_refl : Reflexive grows.
Proof. intros w. unfold grows. done. Qed.
#[local] Instance grows_trans : Transitive grows.
Proof. intros w1 w2 w3. unfold grows. apply transitivity. Qed.

Lemma grows_call {A} c (f : list Call -> A) : resp grows (call c f).
Proof. intros w a w' [= <- <-]. apply suffix_cons_r. done. Qed.

Lemma checkReady_passed h id network deadline c trace db act g started w' :
  match h with None => deadline = a_now (CNow :: started) + processStartupGrace /\ suffix started trace
             | Some _ => True end ->
  checkReady h network deadline c (mkWorld db act g (CInspect id :: trace)) = Some (Some (Ok c), w') ->
  match h with
  | Some h => exists address status,
      ct_IPs c !! network = Some [address] /\
      a_probe (CProbe address (Port h) (Path h) :: CInspect id :: trace) = Ok status /\
      200 <= status < 400
  | None => exists started, suffix started trace /\
      a_now (CNow :: started) + processStartupGrace <= a_now (CNow :: CInspect id :: trace)
  end.
Proof.
  unfold checkReady, probeHTTP, now, mbind, Eff_bind, mret, Eff_ret, call; simpl.
  destruct h as [h|]; simpl.
  - intros _. destruct (ct_IPs c !! network) as [[|address [|? ?]]|] eqn:Hip; simpl;
      try (intros Hc; by repeat (case_match; simplify_eq/=)).
    destruct (a_probe _) as [st|e] eqn:Hp; simpl.
    + destruct ((200 <=? st) && (st <? 400)) eqn:Hst; simpl.
      * intros _. exists address, st. btrue. split_and!; [done..|lia].
      * intros Hc. by repeat (case_match; simplify_eq/=).
    + intros Hc. by repeat (case_match; simplify_eq/=).
  - intros [-> Hs]. destruct (_ <? _) eqn:Hlt; intros; simplify_eq. btrue. eauto.
Qed.

(** The outcome of a pass names the container that was inspected. *)
Lemma checkReady_same h network deadline c w r w' :
  checkReady h network deadline c w = Some (Some (Ok r), w') -> r = c.
Proof.
  unfold checkReady, probeHTTP, now, mbind, Eff_bind, mret, Eff_ret, call; simpl.
  intros Hc. repeat (case_match; simplify_eq/=; try done).
Qed.

Lemma waitLoop_passed fuel h id network deadline since started :
  match h with None => deadline = a_now (CNow :: started) + processStartupGrace
             | Some _ => True end ->
  forall w r w', suffix since (w_trace w) -> suffix started (w_trace w) ->
  waitLoop fuel h id network deadline w = Some (Ok r, w') -> passed h id network r since.
Proof.
  intros Hd. induction fuel as [|fuel IH]; [done|]. intros w r w' Hs Hst. simpl.
  intros [(e & _ & ?)|(c & w1 & Hi & Hk)]%ebind_inv; [done|].
  injection Hi as Hi <-.
  destruct (bool_decide (ct_State c = "running")) eqn:Hrun; [|done]. simpl in Hk. btrue.
  apply bind_inv in Hk as ([o|] & w2 & Hc & Hk).
  - injection Hk as -> <-. pose proof (checkReady_same _ _ _ _ _ _ _ Hc) as ->.
    apply checkReady_passed with (started := started) in Hc; [|by destruct h].
    split; [done|]. exists (w_trace w). by split_and!.
  - assert (Hg : grows (mkWorld (a_others (CInspect id :: w_trace w) (w_db w)) (w_active w)
              (w_gate w) (CInspect id :: w_trace w)) w2).
    { revert Hc. apply (fun H : resp grows (checkReady h network deadline c) => H _ _ _).
      unfold checkReady, probeHTTP, now. resp_walk ltac:(apply grows_call). }
    apply ebind_inv in Hk as [(e & _ & ?)|([] & w3 & Ht & Hk)]; [done|].
    apply grows_call in Ht. unfold grows in *; simpl in *.
    assert (suffix (w_trace w) (w_trace w3)) by (etrans; [|exact Ht]; etrans; [|exact Hg];
      by apply suffix_cons_r).
    eapply IH; [| |exact Hk]; by etrans.
Qed.

Lemma waitReady_passed fuel d id network w r w' :
  waitReady fuel d id network w = Some (Ok r, w') ->
  passed (HealthCheck_ (ds_snapshot d)) id network r (w_trace w).
Proof.
  unfold waitReady, now. intros (t0 & w1 & H1 & Hk)%bind_inv.
  injection H1 as H1 <-.
  apply bind_inv in Hk as (deadline & w2 & H2 & Hk).
  destruct (HealthCheck_ (ds_snapshot d)) as [h|] eqn:Hh.
  - injection H2 as <- <-. eapply (waitLoop_passed _ (Some h)) with (started := []); [done| | |exact Hk].
    + simpl. by apply suffix_cons_r.
    + apply suffix_nil.
  - apply bind_inv in H2 as (t & w3 & Ht & H2). injection Ht as Ht <-. injection H2 as <- <-.
    eapply (waitLoop_passed _ None) with (started := CNow :: w_trace w); [|  | |exact Hk].
    + rewrite <- Ht. done.
    + simpl. by do 2 apply suffix_cons_r.
    + simpl. by apply suffix_cons_r.
Qed.

End Readiness.

(** ** No attempt is left running *)

Definition settled (id : string) (w : World) : Prop :=
  forall d, deployments (w_db w) !! id = Some d -> d_status d <> "running".

(** The transaction that would have settled an attempt did not take effect, or
    the acknowledgement that an attempt had begun was lost, so that the deploy
    does not know of its row. *)
Definition unsettling `{Env} (trace : list Call) : Prop :=
  exists name rest, CStore name :: rest `suffix_of` trace /\
    let fault := a_fault (CStore name :: rest) in
    ((name = "FailDeployment" \/ name = "FinishDeployment") /\
       (begin_fault fault <> None \/ commit_fault fault <> None) \/
     name = "BeginDeployment" /\ lost_ack fault <> None).

Lemma unsettling_later `{Env} trace trace' : trace `suffix_of` trace' ->
  unsettling trace -> unsettling trace'.
Proof. intros Hs (n & rest & Hr & He). exists n, rest. split; [by etrans|done]. Qed.

(** The clock is past 1970, and other sessions do not write the attempt's row. *)
Class Undisturbed `{Env} (id : string) : Prop := {
  rel_clock : forall trace, unix_epoch + 1000000 <= a_now trace;
  rel_row : forall trace db, deployments (a_others trace db) !! id = deployments db !! id
}.

Section Settled.
Context {HT : HostnameTables} {CT : ConfigTables} {env : Env} (config : Config) (id : string)
        `{!Undisturbed id} (Hid : id <> "").

(** Not left running, unless settling it was impossible. *)
Definition closed (w : World) : Prop := unsettling (w_trace w) \/ settled id w.

Definition keeps (w w' : World) : Prop := closed w -> closed w'.
#[local] Instance keeps_refl : Reflexive keeps.
Proof. intros w Hs. exact Hs. Qed.
#[local] Instance keeps_trans : Transitive keeps.
Proof. intros w1 w2 w3. unfold keeps. auto. Qed.

Lemma others_settled trace w act g c :
  closed w -> closed (mkWorld (a_others trace (w_db w)) act g (c :: w_trace w)).
Proof.
  intros [Hu|Hs]; [left; eapply unsettling_later; [|exact Hu]; by apply suffix_cons_r|right].
  intros d. simpl. rewrite rel_row. apply Hs.
Qed.

Lemma keeps_call {A} c (f : list Call -> A) : resp keeps (call c f).
Proof. intros w a w' [= <- <-] Hs. by apply others_settled. Qed.
Lemma keeps_read {A} n (q : DB -> result goerr A) : resp keeps (read n q).
Proof. intros w a w' [= <- <-] Hs. by apply others_settled. Qed.
Lemma keeps_get s : resp keeps (activeContainerOf s).
Proof. intros w a w' [= <- <-] Hs. exact Hs. Qed.
Lemma keeps_set s a : resp keeps (setActive s a).
Proof. intros w u w' [= <- <-] Hs. exact Hs. Qed.
Lemma keeps_clear s : resp keeps (clearActive s).
Proof. intros w u w' [= <- <-] Hs. exact Hs. Qed.

Lemma keeps_volume n p s v t :
  resp keeps (write n (fun fault => RecordVolumeInitialization fault p s v t)).
Proof.
  intros w a w'. unfold write. destruct (RecordVolumeInitialization _ _ _ _ _ _) as [r db'] eqn:E.
  intros [= <- <-] Hs. apply RecordVolumeInitialization_shape in E as [->|[g ->]];
    exact (others_settled _ w (w_active w) (w_gate w) (CStore n) Hs).
Qed.

Lemma UnixMilli_positive trace : 0 < UnixMilli (a_now trace).
Proof.
  unfold UnixMilli. pose proof (rel_clock trace).
  apply Z.div_str_pos. lia.
Qed.

(** Finishing an attempt always settles it. *)
Lemma finish_settles n status code message t :
  n = "FailDeployment" \/ n = "FinishDeployment" ->
  status ∈ ["failed"; "interrupted"; "skipped"] -> code <> "" -> 0 < t ->
  forall w, post (write n (fun fault => FinishDeployment fault id status code message t))
    (fun _ => closed) w.
Proof.
  intros Hn Hst Hc Ht w r w'. unfold write, FinishDeployment.
  rewrite !(bool_decide_eq_false_2 (_ = "")) by done.
  rewrite (proj2 (Z.leb_gt _ _)) by lia. rewrite (bool_decide_eq_true_2 (status ∈ _)) by done.
  simpl. unfold Write. set (fault := a_fault _).
  assert (Hbad : forall db act g, begin_fault fault <> None \/ commit_fault fault <> None ->
            closed (mkWorld db act g (CStore n :: w_trace w))).
  { intros db act g Hf. left. exists n, (w_trace w). split; [done|]. by left. }
  destruct (begin_fault fault) as [e|] eqn:Hb; [intros [= <- <-]; apply Hbad; by left|].
  destruct (deployments _ !! id) as [d|] eqn:Hd.
  2: { intros [= <- <-]. right. intros d'; simpl. by rewrite Hd. }
  destruct (bool_decide (d_status d = "running")) eqn:Hrun.
  2: { intros [= <- <-]. right. intros d'; simpl. rewrite Hd. intros [= <-]. by btrue. }
  destruct (commit_fault fault) as [e|] eqn:Hcf; [intros [= <- <-]; apply Hbad; by right|].
  assert (Hdone : d_status (finished_row status (Some code) (Some message) t d) <> "running").
  { simpl. intros ->. by repeat (apply elem_of_cons in Hst as [?|Hst]; [done|]); apply elem_of_nil in Hst. }
  destruct (lost_ack fault); intros [= <- <-]; right; intros d'; simpl;
    rewrite lookup_insert_eq; intros [= <-]; exact Hdone.
Qed.

Ltac keeps_leaf :=
  first [ apply keeps_call | apply keeps_read | apply keeps_get | apply keeps_set
        | apply keeps_clear | apply keeps_volume
        | match goal with H : context [resp] |- _ => apply H end ].
Ltac keeps_walk := resp_walk keeps_leaf.

Lemma keeps_dispatch d i s c m e : resp keeps (dispatchDeployment config d i s c m e).
Proof. unfold dispatchDeployment. keeps_walk. Qed.

Lemma settled_post {A} (m : M A) w : closed w -> resp keeps m -> post m (fun _ => closed) w.
Proof. intros Hs Hm a w' Hr. by eapply Hm. Qed.

Lemma fail_settles code cause w :
  code <> "" -> post (fail config id code cause) (fun _ => closed) w.
Proof.
  intros Hc. pose proof keeps_dispatch. unfold fail, now, FailDeployment.
  apply post_bind. intros t w1 Ht. injection Ht as <- <-.
  apply post_bind. eapply post_mono; [apply finish_settles; [auto|set_solver|done|apply UnixMilli_positive]|].
  intros [[]|e] w2 Hs; [|by apply post_ret]. apply settled_post; [done|]. keeps_walk.
Qed.

Lemma abandon_settles d o code cause w :
  code <> "" -> post (abandon config d o id code cause) (fun _ => closed) w.
Proof.
  intros Hc. unfold abandon. apply post_bind. intros u w1 _.
  apply post_bind. eapply post_mono; [by apply fail_settles|]. intros e w2 Hs. by apply post_ret.
Qed.

Lemma activate_settles n sid expected t w :
  post (write n (fun fault => ActivateDeployment fault sid id expected t))
    (fun r w' => r = Ok tt -> closed w') w.
Proof.
  intros r w'. unfold write. destruct (ActivateDeployment _ _ _ _ _ _) as [r' db'] eqn:E.
  intros [= <- <-] ->. apply ActivateDeployment_ok in E as (s & d & _ & _ & _ & _ & _ & _ & _ & Hd & _).
  right. intros d' Hd'. simpl in Hd'. rewrite Hd, lookup_insert_eq in Hd'. by injection Hd' as <-.
Qed.

Lemma run_settles fuel d ctx image w :
  ec_DeploymentID ctx = id ->
  post (runDeployment config fuel d ctx image) (fun _ => closed) w.
Proof.
  intros Hi. pose proof keeps_dispatch. unfold runDeployment. rewrite Hi.
  apply post_bind. intros [[c p]|e] w1 _.
  2: { apply post_bind. eapply post_mono; [by apply fail_settles|]. intros e' w2 Hs. by apply post_ret. }
  apply post_bind. apply (post_mono _ (fun _ => closed)).
  2: { intros [b r] w2 Hs. apply settled_post; [done|]. unfold call_error. keeps_walk. }
  unfold runCandidate. apply post_bind. intros old w2 _.
  match goal with |- post (if ?b then _ else _) _ _ => destruct b end.
  { apply post_bind. eapply post_mono; [by apply fail_settles|]. intros e' w3 Hs. by apply post_ret. }
  apply post_bind. intros wd w3 Hwd.
  assert (Hcode : forall code e, wd = Err (code, e) -> code <> "").
  { intros code e ->. destruct old as [o|]; [|by injection Hwd].
    apply bind_inv in Hwd as ([[]|?] & ? & _ & Hwd); [|by injection Hwd as <-].
    by apply bind_inv in Hwd as ([[]|?] & ? & _ & [= <-]). }
  destruct wd as [[]|[code e]]; [|apply abandon_settles; eauto].
  do 3 (apply post_bind; intros [?|e] ? _; [|by apply abandon_settles]).
  apply post_bind. intros t w7 _.
  apply post_bind. eapply post_mono; [apply activate_settles|].
  intros [[]|e] w8 Hs; [|by apply abandon_settles].
  apply settled_post; [by apply Hs|]. unfold call_error. keeps_walk.
Qed.

(** ** The phases of [deploy] *)

Section Attempt.
Context (sid j h : string) (t0 : Z).

(** An attempt that has not begun is settled. *)
Definition ready_attempt (l : Attempt) (w : World) : Prop := at_started l = false -> closed w.

Lemma begin_settles l x w :
  ready_attempt l w ->
  post (beginDeployment config sid id j h t0 l x)
    (fun r w' => match snd r with
       | None => at_started (fst r) = true
       | Some _ => closed w' end) w.
Proof.
  intros Hl. unfold beginDeployment. destruct (at_started l) eqn:Hst; [by apply post_ret|].
  apply post_bind. intros [[]|e] w1 Hw.
  - apply post_bind. intros u w2 _. by apply post_ret.
  - apply post_ret. simpl. unfold write in Hw.
    match type of Hw with context [BeginDeployment ?f ?i ?d] =>
      destruct (BeginDeployment f i d) as [r db'] eqn:E end.
    injection Hw as -> <-.
    destruct (lost_ack (a_fault (CStore "BeginDeployment" :: w_trace w))) as [e'|] eqn:Hack.
    { left. exists "BeginDeployment", (w_trace w). split; [done|]. right. by rewrite Hack. }
    assert (db' = a_others (CStore "BeginDeployment" :: w_trace w) (w_db w)) as ->.
    { revert E. unfold BeginDeployment. intros E.
      repeat match goal with
        | H : (if ?b then _ else _) = _ |- _ => destruct b; simplify_eq; try done
        | H : match ?x with _ => _ end = _ |- _ => destruct x; simplify_eq; try done
        | H : Write _ _ _ = _ |- _ => apply Write_acknowledged in H as [[-> _]|[? _]]; [done|done|done]
        end. }
    apply others_settled. by apply Hl.
Qed.

Lemma fail_with_settles {A} l code e w :
  code <> "" -> ready_attempt l w ->
  post (fail_with (A := A) config sid id j h t0 l code e) (fun r w' => closed w' /\ is_ok r = false) w.
Proof.
  intros Hc Hl. unfold fail_with. apply post_bind. apply (post_mono _ (fun _ => closed)).
  2: { intros e' w' Hs. by apply post_ret. }
  unfold failDeployment, now. apply post_bind.
  apply (post_mono _ (fun r w' => match snd r with
       | None => True | Some _ => closed w' end)).
  { destruct (at_started l) eqn:Hst; [by apply post_ret|].
    eapply post_mono; [by apply begin_settles|]. intros [l1 [?|]] w1; simpl; auto. }
  intros [l1 [e1|]] w1 H1; simpl in H1; [by apply post_ret|].
  apply post_bind. intros t w2 Ht. injection Ht as <- <-.
  apply post_bind. eapply post_mono; [apply finish_settles; [auto|set_solver|done|apply UnixMilli_positive]|].
  pose proof keeps_dispatch. intros r w3 Hs. apply settled_post; [done|]. keeps_walk.
Qed.

Lemma finish_attempt_settles l status code message w :
  at_started l = true -> status ∈ ["failed"; "interrupted"; "skipped"] -> code <> "" ->
  post (finishAttempt config id l status code message) (fun _ => closed) w.
Proof.
  intros Hst Hs Hc. unfold finishAttempt, now. rewrite Hst. simpl.
  apply post_bind. intros t w2 Ht. injection Ht as <- <-.
  apply post_bind. eapply post_mono; [apply finish_settles; [auto|done|done|apply UnixMilli_positive]|].
  pose proof keeps_dispatch. intros r w3 Hset. apply settled_post; [done|]. keeps_walk.
Qed.

Lemma record_settles l w :
  ready_attempt l w ->
  post (recordResolvedDeployment config sid id j h t0 l)
    (fun r w' => match r with Ok l' => at_started l' = true | Err _ => closed w' end) w.
Proof.
  intros Hl. unfold recordResolvedDeployment. apply post_bind.
  eapply post_mono; [by apply begin_settles|]. intros [l1 [e1|]] w1 H1; simpl in H1;
    [by apply post_ret|].
  apply post_bind. intros [[]|e] w2 _; [by apply post_ret|].
  eapply post_mono; [apply fail_with_settles; [done|]; intros Hf; congruence|].
  by intros [?|?] w3 [Hs ?].
Qed.

Definition unstarted (l : Attempt) (w : World) : Prop := at_started l = false /\ closed w.

Lemma unstarted_ready l w : unstarted l w -> ready_attempt l w.
Proof. intros [_ Hs] _. done. Qed.

(** A phase before the attempt begins: it returns an unstarted attempt or
    ends settled. *)
Definition phase_ok (r : result goerr Attempt) (w : World) : Prop :=
  match r with Ok l => unstarted l w | Err _ => closed w end.

Lemma source_started u l w l' w' :
  resolveSource sid u l w = Some (Ok l', w') -> at_started l' = at_started l.
Proof.
  unfold resolveSource. destruct u; [by intros [= <- <-]|].
  destruct (bool_decide _).
  - intros [(e & _ & ?)|(l1 & w1 & H1 & Hk)]%ebind_inv; [done|].
    apply ebind_inv in Hk as [(e & _ & ?)|(l2 & w2 & H2 & Hk)]; [done|].
    apply ebind_inv in Hk as [(e & _ & ?)|(l3 & w3 & H3 & Hk)]; [done|].
    destruct (missing l3); [done|]. injection Hk as <- _.
    assert (at_started l1 = at_started l) as <-.
    { destruct (empty _); [by injection H1 as <- _|].
      apply ebind_inv in H1 as [(e & _ & ?)|(d & ? & _ & [= <- _])]; [done|].
      by destruct (_ && _). }
    assert (at_started l2 = at_started l1) as <-.
    { destruct (missing l1); simpl in H2; [|by injection H2 as <- _].
      apply bind_inv in H2 as ([d|e] & ? & _ & H2); [by injection H2 as <- _|].
      destruct (errors_Is _ _); [by injection H2 as <- _|done]. }
    destruct (missing l2); simpl in H3; [|by injection H3 as <- _].
    apply bind_inv in H3 as ([[? ?]|e] & ? & _ & H3); [by injection H3 as <- _|].
    by destruct (errors_Is _ _).
  - destruct (empty _); [done|]. by intros [= <- <-].
Qed.

Lemma source_phase u l w : unstarted l w -> post (resolveSource sid u l) phase_ok w.
Proof.
  intros [Hst Hs] r w' Hr.
  assert (closed w') as Hs'.
  { assert (Hk : resp keeps (resolveSource sid u l)) by (unfold resolveSource; keeps_walk).
    by eapply Hk. }
  destruct r as [l'|e]; [|done]. split; [|done]. by erewrite source_started.
Qed.

Lemma fail_phase {A} l code e (Q : result goerr A -> World -> Prop) w :
  code <> "" -> unstarted l w -> (forall e w', closed w' -> Q (Err e) w') ->
  post (fail_with config sid id j h t0 l code e) Q w.
Proof.
  intros Hc Hl HQ. eapply post_mono; [apply fail_with_settles; [done|by apply unstarted_ready]|].
  intros [a|e'] w' [Hs Hr]; [done|auto].
Qed.

Lemma image_phase u l w :
  unstarted l w -> post (resolveImage config sid id j h t0 u l) phase_ok w.
Proof.
  intros Hl. unfold resolveImage.
  apply post_ebind. apply (post_mono _ (fun _ w' => closed w')).
  { destruct (negb (bool_decide _)); [by apply post_ret; destruct Hl|].
    destruct (negb (has_credentials config)); [by apply fail_phase|].
    apply post_bind. intros c w1 Hc. apply keeps_call in Hc. specialize (Hc (proj2 Hl)).
    destruct c; [by apply post_ret|]. apply fail_phase; [done| |done]. split; [apply Hl|done]. }
  intros [cred|e] w1 Hs1; [|done].
  apply post_ebind. apply (post_mono _ phase_ok).
  { destruct u; [apply post_ret; split; [apply Hl|done]|].
    apply post_bind. intros p w2 Hp. apply keeps_call in Hp. specialize (Hp Hs1).
    destruct p as [im|e]; [apply post_ret; split; [apply Hl|done]|].
    apply fail_phase; [done| |done]. split; [apply Hl|done]. }
  intros [l1|e] w2 Hl1; [|done].
  destruct (empty _); [by apply fail_phase|]. destruct (IsImage _); [|by apply post_ret].
  destruct (PinnedReference _ _); [by apply post_ret|]. by apply fail_phase.
Qed.

Lemma unchanged_settles l w :
  unstarted l w -> post (deployUnchanged config sid id j h t0 l) (fun _ => closed) w.
Proof.
  intros Hl. unfold deployUnchanged. apply post_bind. intros a ? [= <- <-].
  destruct (w_active w !! sid) as [a|]; [|by apply fail_phase].
  destruct (negb _); [by apply fail_phase|].
  destruct Hl as [Hst Hs]. rewrite Hst. simpl. apply settled_post; [done|]. unfold call_error.
  keeps_walk.
Qed.

Lemma candidate_settles fuel force l w :
  unstarted l w -> post (deployCandidate config sid id j h t0 fuel force l) (fun _ => closed) w.
Proof.
  intros Hl. unfold deployCandidate. apply post_ebind.
  eapply post_mono; [apply record_settles, unstarted_ready, Hl|].
  intros [l1|e] w1 Hl1; simpl in Hl1; [|done].
  assert (Hfail : forall A code e w (Q : result goerr A -> World -> Prop), code <> "" ->
    (forall e w', closed w' -> Q (Err e) w') ->
    post (fail_with config sid id j h t0 l1 code e) Q w).
  { intros A code e w2 Q Hc HQ. eapply post_mono;
      [apply fail_with_settles; [done|]; intros Hf; congruence|].
    intros [a|e'] w' [Hs Hr]; [done|auto]. }
  apply post_ebind. apply (post_mono _ (fun r w' => is_ok r = false -> closed w')).
  { destruct force; [by apply post_ret|]. apply post_bind. intros [b|e] w2 _; [by apply post_ret|].
    by apply Hfail. }
  intros [proceed|e] w2 H2; [|by apply H2]. destruct (negb proceed).
  { apply post_bind. eapply post_mono; [apply finish_attempt_settles; [done|set_solver|done]|].
    intros r w3 Hs. by apply post_ret. }
  apply post_ebind. apply (post_mono _ (fun r w' => is_ok r = false -> closed w')).
  { destruct (BeforeDeploy_ _); [|by apply post_ret].
    destruct (negb _); [by apply Hfail|].
    apply post_bind. intros [[]|e] w3 _; [by apply post_ret|]. by apply Hfail. }
  intros [[]|e] w3 H3; [|by apply H3]. by apply run_settles.
Qed.

Lemma resolved_settles fuel force l w :
  unstarted l w -> post (deployResolved config sid id j h t0 fuel force l) (fun _ => closed) w.
Proof.
  intros Hl. unfold deployResolved, now. apply post_bind. intros c w1 Hc.
  apply keeps_read in Hc. specialize (Hc (proj2 Hl)).
  assert (Hl1 : unstarted l w1) by (split; [apply Hl|done]).
  destruct c as [current|e]; [|by apply fail_phase].
  destruct (Canonical _) as [[[n' js] hash]|e]; [|by apply fail_phase].
  destruct (negb (ds_enabled current) || _).
  { apply post_ebind. eapply post_mono; [apply record_settles, unstarted_ready, Hl1|].
    intros [l1|e] w2 Hl2; simpl in Hl2; [|done].
    apply post_bind. eapply post_mono; [apply finish_attempt_settles; [done|set_solver|done]|].
    intros r w3 Hs. by apply post_ret. }
  assert (Hd : forall w2, closed w2 ->
    unstarted (with_desired l (with_snapshot current n')) w2) by (split; [apply Hl|done]).
  destruct (negb force && _ && _); [by apply unchanged_settles, Hd|].
  apply post_bind. intros pending w2 Hp.
  assert (Hs2 : closed w2).
  { match type of Hp with ?m w1 = _ => assert (resp keeps m) as Hk by keeps_walk end.
    by eapply Hk. }
  destruct pending; [by apply post_ret|].
  apply post_ebind. apply (post_mono _ phase_ok).
  { destruct (negb (empty (im_ID _))); [by apply post_ret, Hd|].
    apply post_bind. intros [im|e] w3 Hi; apply keeps_call in Hi; specialize (Hi Hs2).
    - destruct (empty (im_ID im) || _); [apply fail_phase; [done|by apply Hd|done]|].
      apply post_ret. by apply Hd.
    - apply fail_phase; [done|by apply Hd|done]. }
  intros [l2|e] w3 Hl2; [|done]. by apply candidate_settles.
Qed.

End Attempt.

Lemma deploy_settles sid fuel u force w :
  closed w -> post (deploy config fuel sid id u force) (fun _ => closed) w.
Proof.
  intros Hs r w'. unfold deploy, with_lease.
  destruct (Begin _ _ _) as [g [lease|e]]; [|intros [= <- <-]; exact Hs].
  destruct (deployLocked _ _ _ _ _ _ _) as [[r2 w2]|] eqn:E; [|done]. intros [= <- <-].
  change (closed w2). revert E.
  generalize (Hs : closed (mkWorld (w_db w) (w_active w) g (w_trace w))).
  generalize (mkWorld (w_db w) (w_active w) g (w_trace w)). clear w Hs. intros w Hs.
  revert r2 w2. change (post (deployLocked config fuel sid id u force) (fun _ => closed) w).
  unfold deployLocked, now.
  apply post_ebind. intros [d|e] w1 Hd; apply keeps_read in Hd; specialize (Hd Hs); [|done].
  destruct (negb _).
  { apply settled_post; [done|]. unfold stopDisabled, call_error. keeps_walk. }
  destruct (Canonical _) as [[[n' js] hash]|e]; [|by apply post_ret].
  apply post_bind. intros t w2 Ht. apply keeps_call in Ht. specialize (Ht Hd).
  unfold empty at 1. rewrite bool_decide_eq_false_2 by done. simpl.
  apply post_ebind, post_ret. apply post_bind.
  intros [[]|e] w3 Hg; apply keeps_call in Hg; specialize (Hg Ht).
  - apply post_ebind. eapply post_mono; [by apply source_phase|].
    intros [l1|e] w4 Hl1; [|done]. apply post_ebind.
    eapply post_mono; [by apply image_phase|]. intros [l2|e] w5 Hl2; [|done].
    by apply resolved_settles.
  - apply settled_post; [done|]. unfold call_error. keeps_walk.
Qed.

End Settled.

(** ** Which calls an operation may make *)

Definition only (P : Call -> Prop) (w w' : World) : Prop :=
  exists new, w_trace w' = new ++ w_trace w /\ Forall P new.

#[export] Instance only_refl P : Reflexive (only P).
Proof. intros w. by exists []. Qed.
#[export] Instance only_trans P : Transitive (only P).
Proof.
  intros w1 w2 w3 (n1 & H1 & F1) (n2 & H2 & F2). exists (n2 ++ n1).
  rewrite H2, H1, app_assoc. split; [done|]. by apply Forall_app.
Qed.

Section Only.
Context {HT : HostnameTables} {CT : ConfigTables} {env : Env} (config : Config) (P : Call -> Prop).

Lemma only_call {A} c (f : list Call -> A) : P c -> resp (only P) (call c f).
Proof. intros Hc w a w' [= <- <-]. exists [c]. split; [done|]. by constructor. Qed.
Lemma only_read {A} n (q : DB -> result goerr A) : P (CStore n) -> resp (only P) (read n q).
Proof. intros Hc w a w' [= <- <-]. exists [CStore n]. split; [done|]. by constructor. Qed.
Lemma only_write n op : P (CStore n) -> resp (only P) (write n op).
Proof.
  intros Hc w a w'. unfold write. destruct (op _ _). intros [= <- <-].
  exists [CStore n]. split; [done|]. by constructor.
Qed.
Lemma only_get s : resp (only P) (activeContainerOf s).
Proof. intros w a w' [= <- <-]. reflexivity. Qed.
Lemma only_set s a : resp (only P) (setActive s a).
Proof. intros w u w' [= <- <-]. by exists []. Qed.
Lemma only_clear s : resp (only P) (clearActive s).
Proof. intros w u w' [= <- <-]. by exists []. Qed.
End Only.

Ltac only_walk side :=
  resp_walk ltac:(first
    [ apply only_call; side | apply only_read; side | apply only_write; side
    | apply only_get | apply only_set | apply only_clear
    | match goal with H : context [resp] |- _ => apply H end ]).

(** Store records, the clock and notifications: no engine, registry,
    publisher or before-deploy command. *)
Definition bookkeeping (c : Call) : Prop :=
  match c with CStore _ | CNow | CDispatch _ => True | _ => False end.

(** Calls of a deploy that is refused disk growth. *)
Definition no_growth_calls (c : Call) : Prop :=
  match c with
  | CStore n => n = "DesiredService"
  | CNow | CNewID | CGrowth | CPublish _ _ | CWithdraw _ | CStop _ | CRemove _ => True
  | _ => False
  end.

Section Refusals.
Context {HT : HostnameTables} {CT : ConfigTables} {env : Env} (config : Config) (sid : string).

Lemma denied_calls fuel o u f :
  (forall trace, a_error (CGrowth :: trace) <> None) ->
  resp (only no_growth_calls) (deployLocked config fuel sid o u f).
Proof.
  intros Hd w r w' Hr. unfold deployLocked, now, call_error in Hr.
  apply ebind_inv in Hr as [(e & Hr & _)|(d & w1 & H1 & Hr)];
    [by eapply only_read; [|exact Hr]; simpl|].
  assert (H01 : only no_growth_calls w w1) by (by eapply only_read; [|exact H1]; simpl).
  trans w1; [done|]. clear H1 H01.
  destruct (negb (ds_enabled d)).
  { revert w1 r w' Hr. change (resp (only no_growth_calls) (stopDisabled d)).
    unfold stopDisabled, call_error. only_walk ltac:(exact I). }
  destruct (Canonical _) as [[[n' js] h]|e]; [|injection Hr as _ <-; reflexivity].
  apply bind_inv in Hr as (t & w2 & H2 & Hr).
  trans w2; [by eapply only_call; [|exact H2]; exact I|]. clear H2.
  apply ebind_inv in Hr as [(e & Hr & _)|(i & w3 & H3 & Hr)].
  { match type of Hr with ?m w2 = _ =>
      assert (resp (only no_growth_calls) m) as Hm by only_walk ltac:(exact I) end.
    by eapply Hm. }
  trans w3.
  { match type of H3 with ?m w2 = _ =>
      assert (resp (only no_growth_calls) m) as Hm by only_walk ltac:(exact I) end.
    by eapply Hm. }
  clear H3. apply bind_inv in Hr as (g & w4 & H4 & Hr).
  trans w4; [by eapply only_call; [|exact H4]; exact I|].
  injection H4 as H4 _. destruct g as [|e].
  { exfalso. unfold of_error in H4. destruct (a_error _) eqn:E; [done|]. by eapply Hd. }
  match type of Hr with ?m w4 = _ =>
    assert (resp (only no_growth_calls) m) as Hm by only_walk ltac:(exact I) end.
  by eapply Hm.
Qed.

(** Rows with a final status survive the records of an attempt. *)
Lemma latest_failed_spec hash digest db :
  LatestFailedDeployment sid hash digest db = true <->
  exists id d, deployments db !! id = Some d /\ d_service d = sid /\ d_hash d = hash /\
    d_digest d = digest /\ d_status d = "failed".
Proof.
  unfold LatestFailedDeployment. rewrite existsb_exists. split.
  - intros ([id d] & Hin & Hb). btrue. exists id, d. split_and!; try done.
    apply elem_of_map_to_list. by apply list_elem_of_In.
  - intros (id & d & Hd & ? & ? & ? & ?). exists (id, d). split.
    + apply list_elem_of_In. by apply elem_of_map_to_list.
    + by rewrite !bool_decide_eq_true_2.
Qed.

Lemma latest_failed_effect hash digest db db' :
  effect db db' -> LatestFailedDeployment sid hash digest db = true ->
  LatestFailedDeployment sid hash digest db' = true.
Proof.
  rewrite !latest_failed_spec. intros He (id & d & Hd & ? & ? & ? & Hst). exists id, d.
  split_and!; [|done..]. eapply effect_terminal; eauto. by rewrite Hst.
Qed.

Section Blocked.
Context (id js hash digest : string) (t0 : Z)
  (Hothers : forall trace db, LatestFailedDeployment sid hash digest db = true ->
               LatestFailedDeployment sid hash digest (a_others trace db) = true).

(** The pair failed before. *)
Definition blocked (w : World) : Prop :=
  LatestFailedDeployment sid hash digest (w_db w) = true.
Definition keeps_blocked (w w' : World) : Prop := blocked w -> blocked w'.
#[local] Instance keeps_blocked_refl : Reflexive keeps_blocked.
Proof. intros w Hb. exact Hb. Qed.
#[local] Instance keeps_blocked_trans : Transitive keeps_blocked.
Proof. intros w1 w2 w3. unfold keeps_blocked. auto. Qed.

Lemma blocked_call {A} c (f : list Call -> A) : resp keeps_blocked (call c f).
Proof. intros w a w' [= <- <-] Hb. by apply Hothers. Qed.
Lemma blocked_write n op :
  (forall f db r db', op f db = (r, db') -> effect db db') -> resp keeps_blocked (write n op).
Proof.
  intros Hop w a w'. unfold write. destruct (op _ _) as [r db'] eqn:E. intros [= <- <-] Hb.
  eapply latest_failed_effect; [by eapply Hop|]. by apply Hothers.
Qed.

Lemma blocked_record l : resp keeps_blocked (recordResolvedDeployment config sid id js hash t0 l).
Proof.
  unfold recordResolvedDeployment, fail_with, failDeployment, beginDeployment, dispatchDeployment, now.
  resp_walk ltac:(first [ apply blocked_call
    | apply blocked_write; intros; eauto using BeginDeployment_effect, FinishDeployment_effect,
        UpdateDeploymentSource_effect ]).
Qed.

Lemma only_record l : resp (only bookkeeping) (recordResolvedDeployment config sid id js hash t0 l).
Proof.
  unfold recordResolvedDeployment, fail_with, failDeployment, beginDeployment, dispatchDeployment, now.
  only_walk ltac:(exact I).
Qed.

Lemma blocked_candidate fuel l w r w' :
  im_Digest (at_image l) = digest -> blocked w ->
  deployCandidate config sid id js hash t0 fuel false l w = Some (r, w') ->
  is_ok r = false /\ only bookkeeping w w'.
Proof.
  intros Hd Hb Hr. unfold deployCandidate in Hr.
  apply ebind_inv in Hr as [(e & Hr & ->)|(l1 & w1 & H1 & Hr)];
    [split; [done|by eapply only_record]|].
  pose proof (blocked_record _ _ _ _ H1 Hb) as Hb1. pose proof (record_ok _ _ _ _ _ _ _ _ _ _ H1) as (_ & Himg & _).
  apply only_record in H1.
  apply ebind_inv in Hr as [(e & Hr & ->)|(proceed & w2 & H2 & Hr)].
  { split; [done|]. trans w1; [done|]. revert Hr.
    match goal with |- ?m w1 = _ -> _ => assert (resp (only bookkeeping) m) as Hm end.
    { unfold fail_with, failDeployment, beginDeployment, dispatchDeployment, now.
      only_walk ltac:(exact I). }
    intros Hr. by eapply Hm. }
  apply bind_inv in H2 as (b & w3 & Hread & H2).
  assert (Hproceed : proceed = false /\ w2 = w3).
  { destruct b as [b|e]; [|by apply bind_inv in H2 as (? & ? & _ & [= ])].
    injection H2 as <- <-. split; [|done]. revert Hread. unfold read. intros [= Hread _].
    destruct (a_read _); [done|]. injection Hread as <-. rewrite Himg, Hd.
    by rewrite (Hothers _ _ Hb1). }
  destruct Hproceed as [-> ->]. simpl in Hr.
  apply bind_inv in Hr as (f & w4 & Hf & Hr). injection Hr as <- <-. split; [done|].
  trans w1; [done|]. trans w3; [by eapply only_read; [|exact Hread]; exact I|].
  match type of Hf with ?m w3 = _ => assert (resp (only bookkeeping) m) as Hm end.
  { unfold finishAttempt, dispatchDeployment, now. only_walk ltac:(exact I). }
  by eapply Hm.
Qed.

End Blocked.

(** A delayed restart of a deployment that is no longer current. *)
Lemma stale_restore lax `{!Guarded lax sid} fuel expected w r w' :
  expected <> "" -> pointer sid w <> Some expected ->
  restoreCurrentLocked config fuel sid expected w = Some (r, w') ->
  r <> Ok true /\ w_active w' = w_active w /\ only (fun c => c = CStore "DesiredService") w w'.
Proof.
  intros Hne Hp Hr. unfold restoreCurrentLocked in Hr.
  apply ebind_inv in Hr as [(e & Hr & ->)|(d & w1 & H1 & Hr)].
  { split; [done|]. split; [by injection Hr as _ <-|]. by eapply only_read; [|exact Hr]. }
  pose proof (read_desired _ _ _ _ H1 d eq_refl) as [_ Hds].
  assert (Ho : only (fun c => c = CStore "DesiredService") w w1)
    by (by eapply only_read; [|exact H1]).
  assert (Ha : w_active w1 = w_active w) by (by injection H1 as _ <-).
  destruct (negb (ds_enabled d) || empty (ds_active d)) eqn:He; [by injection Hr as <- <-|].
  unfold empty in *. btrue.
  rewrite (bool_decide_eq_false_2 (expected = "")) in Hr by done. simpl in Hr.
  destruct (negb (bool_decide (ds_active d = expected))) eqn:Hex; [by injection Hr as <- <-|].
  btrue. exfalso. apply Hp. apply desired_pointer in Hds; [|done].
  injection H1 as _ Hw1. rewrite <- Hw1 in Hds. simpl in Hds.
  destruct (guarded (CStore "DesiredService" :: w_trace w) (w_db w)) as [Hg|[_ Hg]];
    unfold pointer, db_pointer in *; congruence.
Qed.

End Refusals.

(** ** History *)

(** The database changed by transactions of other sessions and by volume
    markers only. *)
Definition history_step `{Env} (db db' : DB) : Prop :=
  (exists trace, db' = a_others trace db) \/ (exists g, db' = set_initializations g db).
Definition history_kept `{Env} (w w' : World) : Prop := rtc history_step (w_db w) (w_db w').

#[export] Instance history_refl `{Env} : Reflexive history_kept.
Proof. intros w. apply rtc_refl. Qed.
#[export] Instance history_trans `{Env} : Transitive history_kept.
Proof. intros w1 w2 w3. unfold history_kept. apply transitivity. Qed.

Section History.
Context {HT : HostnameTables} {CT : ConfigTables} {env : Env} (config : Config).

Lemma history_call {A} c (f : list Call -> A) : resp history_kept (call c f).
Proof. intros w a w' [= <- <-]. apply rtc_once. left. eauto. Qed.
Lemma history_read {A} n (q : DB -> result goerr A) : resp history_kept (read n q).
Proof. intros w a w' [= <- <-]. apply rtc_once. left. eauto. Qed.
Lemma history_volume n p s v t :
  resp history_kept (write n (fun fault => RecordVolumeInitialization fault p s v t)).
Proof.
  intros w a w'. unfold write. destruct (RecordVolumeInitialization _ _ _ _ _ _) as [r db'] eqn:E.
  intros [= <- <-]. unfold history_kept; simpl. eapply rtc_l; [left; eauto|].
  apply RecordVolumeInitialization_shape in E as [->|[g ->]]; [apply rtc_refl|].
  apply rtc_once. right. eauto.
Qed.
Lemma history_get s : resp history_kept (activeContainerOf s).
Proof. intros w a w' [= <- <-]. reflexivity. Qed.
Lemma history_set s a : resp history_kept (setActive s a).
Proof. intros w u w' [= <- <-]. apply rtc_refl. Qed.
Lemma history_clear s : resp history_kept (clearActive s).
Proof. intros w u w' [= <- <-]. apply rtc_refl. Qed.

Lemma history_lease {A} kind id (body : M (result goerr A)) :
  resp history_kept body -> resp history_kept (with_lease kind id body).
Proof.
  intros Hb w r w'. unfold with_lease. destruct (Begin kind id (w_gate w)) as [g [lease|e]].
  - destruct (body _) as [[r' w2]|] eqn:E; [|done]. intros [= <- <-]. by apply Hb in E.
  - intros [= <- <-]. apply rtc_refl.
Qed.

Ltac history_walk := resp_walk ltac:(first
  [ apply history_call | apply history_read | apply history_volume | apply history_get
  | apply history_set | apply history_clear
  | apply history_lease
  | match goal with H : context [resp] |- _ => apply H end ]).

Lemma history_restore fuel sid e : resp history_kept (restoreCurrentLocked config fuel sid e).
Proof.
  assert (forall d l, resp history_kept (mount_volumes config d l))
    by (induction l; simpl; history_walk).
  assert (forall d l, resp history_kept (recordVolumes d l))
    by (induction l; simpl; unfold now; history_walk).
  assert (forall f h c n t, resp history_kept (waitLoop f h c n t)).
  { induction f; intros; simpl; [by intros ? ? ?|].
    unfold checkReady, probeHTTP, now, call_error. history_walk. }
  unfold restoreCurrentLocked, restoreCandidate, createRuntimeContainer, pullActiveImage,
    startContainer, StartAttached, recordVolumeInitializations, waitReady, now, call_error.
  history_walk.
Qed.

Lemma history_resume fuel q : resp history_kept (resumeService fuel q).
Proof.
  assert (forall f h c n t, resp history_kept (waitLoop f h c n t)).
  { induction f; intros; simpl; [by intros ? ? ?|].
    unfold checkReady, probeHTTP, now, call_error. history_walk. }
  unfold resumeService, startContainer, StartAttached, waitReady, now, call_error. history_walk.
Qed.

Lemma history_stop d : resp history_kept (stopDisabled d).
Proof. unfold stopDisabled, call_error. history_walk. Qed.

Lemma operation_history sid op w w' :
  runOperation config sid op w = Some w' ->
  (exists fuel o u f r, deploy config fuel sid o u f w = Some (r, w')) \/ history_kept w w'.
Proof.
  pose proof history_restore. pose proof history_stop.
  destruct op; simpl; intros Hop; try (apply ran in Hop as [r Hop]).
  - left. eauto 10.
  - right. revert Hop. unfold Restore. apply (fun Hm : resp history_kept _ => Hm w r w'). history_walk.
  - right. revert Hop. unfold RestoreCurrent. apply (fun Hm : resp history_kept _ => Hm w r w'). history_walk.
  - right. revert Hop. unfold RestartCurrent, call_error.
    apply (fun Hm : resp history_kept _ => Hm w r w'). history_walk.
  - right. revert Hop. unfold DeleteService. apply (fun Hm : resp history_kept _ => Hm w r w'). history_walk.
  - right. by eapply history_stop.
  - right. revert Hop. unfold PrepareUnexpectedExit, call_error.
    apply (fun Hm : resp history_kept _ => Hm w r w'). history_walk.
  - right. revert Hop. unfold quiesceService, call_error.
    apply (fun Hm : resp history_kept _ => Hm w r w'). history_walk.
  - right. by eapply history_resume.
  - right. injection Hop as <-. apply rtc_once. left. eauto.
Qed.

End History.

(** ** Theorems *)

(** C7. Every deploy ends.  If the clock passes every instant within a bounded
    number of calls, then from every state there is an amount of fuel with
    which the deploy returns, and more fuel changes neither its result nor the
    state it leaves. *)
Theorem deploy_terminates `{HostnameTables} `{ConfigTables} `{Env} config sid override uploaded force w
    (Hclock : clock_progress) :
  exists fuel r w', forall fuel', (fuel <= fuel')%nat ->
    deploy config fuel' sid override uploaded force w = Some (r, w').
Proof. exact (ends_deploy config sid override uploaded force Hclock w). Qed.

Lemma demo_clock : @clock_progress demo_env.
Proof.
  intros T. exists (Z.to_nat (T - unix_epoch)). intros trace Hn. simpl. unfold second. lia.
Qed.

Lemma deploy_terminates_witness :
  exists fuel r w', forall fuel', (fuel <= fuel')%nat ->
    @deploy demo_hostnames demo_config demo_env demo_cfg fuel' "svc" "" None true demo_world
    = Some (r, w').
Proof.
  exact (@deploy_terminates demo_hostnames demo_config demo_env demo_cfg "svc" "" None true
           demo_world demo_clock).
Defined.

(** Only a proven container is cut over to.  If waiting for readiness
    reports a container, then an inspection made during the wait returned it
    in the running state, and right after that inspection either its health
    endpoint, at its only address on the service's network, answered with a
    2xx or 3xx status, or (without a health check) the startup grace period
    had passed. *)
Theorem ready_container_passed `{Env} fuel desired id network w c w'
    (Hrun : waitReady fuel desired id network w = Some (Ok c, w')) :
  passed (HealthCheck_ (ds_snapshot desired)) id network c (w_trace w).
Proof. exact (waitReady_passed fuel desired id network w c w' Hrun). Qed.

Lemma ready_container_passed_witness :
  exists c w', @waitReady demo_env 3 demo_desired "c1" "net" demo_world = Some (Ok c, w') /\
    @passed demo_env (HealthCheck_ demo_snapshot) "c1" "net" c [].
Proof.
  eexists _, _. split; [reflexivity|].
  eapply (@ready_container_passed demo_env 3 demo_desired "c1" "net" demo_world). reflexivity.
Defined.


Lemma demo_undisturbed id : @Undisturbed demo_env id.
Proof.
  split; simpl; try done. intros trace. unfold second. lia.
Qed.

Lemma demo_not_unsettling trace : ~ @unsettling demo_env trace.
Proof. intros (name & rest & _ & [[_ [H|H]]|[_ H]]); by apply H. Qed.

Definition demo_run_as (id : string) :=
  @deploy demo_hostnames demo_config demo_env demo_cfg 5 "svc" id None true demo_world.

Lemma demo_run_as_summary : summary (demo_run_as "d9") = Some (true, Some "d9", Some "d9").
Proof. vm_compute. reflexivity. Qed.


(** The exceptions are real: when the acknowledgement of [BeginDeployment] is
    lost, the deploy fails and its row stays running. *)
Lemma lost_begin_stays_running :
  (fun rw => (is_ok rw.1, d_status <$> deployments (w_db rw.2) !! "d9")) <$>
    @deploy demo_hostnames demo_config (demo_env_with
        (fun trace => match trace with
                      | CStore "BeginDeployment" :: _ => mkFault None None (Some (Msg "context canceled"))
                      | _ => no_fault end)
        (@a_create demo_env) (@a_orphan demo_env) (@a_newID demo_env))
      demo_cfg 5 "svc" "d9" None true demo_world
  = Some (false, Some "running").
Proof. vm_compute. reflexivity. Qed.

(** A pair that failed is not retried.  If a deployment of the service with
    the same configuration hash and image digest has failed, and other
    sessions do not remove that record, then an attempt that is not forced
    returns an error and makes no call but store records, clock reads and
    notifications: no before-deploy command runs, no container is created,
    and the running one is not touched. *)
Theorem blocked_pair_refused `{HostnameTables} `{ConfigTables} `{Env} config sid id js hash t0 fuel l w r w'
    (Hothers : forall trace db,
       LatestFailedDeployment sid hash (im_Digest (at_image l)) db = true ->
       LatestFailedDeployment sid hash (im_Digest (at_image l)) (a_others trace db) = true)
    (Hfailed : LatestFailedDeployment sid hash (im_Digest (at_image l)) (w_db w) = true)
    (Hrun : deployCandidate config sid id js hash t0 fuel false l w = Some (r, w')) :
  is_ok r = false /\ only bookkeeping w w'.
Proof.
  exact (blocked_candidate config sid id js hash (im_Digest (at_image l)) t0 Hothers fuel l w r w'
           eq_refl Hfailed Hrun).
Qed.

Definition failed_world : World :=
  mkWorld (set_deployments (insert "d1" (demo_deployment "failed")) ctl_db)
    {["svc" := old_active]} Admission.New [].

Definition demo_attempt : Attempt :=
  mkAttempt demo_desired (mkImage "img" "sha256:aa" 5) "docker.io/library/nginx:1" "" "" "" false.

Definition demo_candidate :=
  @deployCandidate demo_hostnames demo_config demo_env demo_cfg "svc" "d2" "{}" "hash" unix_epoch 5
    false demo_attempt failed_world.

Lemma demo_candidate_summary : summary demo_candidate = Some (false, Some "d0", Some "d0").
Proof. vm_compute. reflexivity. Qed.

Lemma blocked_pair_refused_witness :
  exists r w', demo_candidate = Some (r, w') /\ is_ok r = false /\ only bookkeeping failed_world w'.
Proof.
  destruct (summary_some _ _ _ _ demo_candidate_summary) as (r & w' & E & _).
  exists r, w'. split; [exact E|].
  apply (@blocked_pair_refused demo_hostnames demo_config demo_env demo_cfg "svc" "d2" "{}" "hash"
           unix_epoch 5 demo_attempt failed_world r w'); [|reflexivity|exact E].
  intros trace db Hdb. exact Hdb.
Defined.

(** Disk pressure keeps deploys away from the registry and the engine.
    While growth is denied, a deploy, forced or not, makes no call but reading
    the desired state, the clock, the ID source and the gate, republishing the
    active container, and stopping and removing the container of a disabled
    service: nothing is pulled, created, started or recorded. *)
Theorem growth_denied_no_pull `{HostnameTables} `{ConfigTables} `{Env} config sid fuel override uploaded
    force w r w' (Hdenied : forall trace, a_error (CGrowth :: trace) <> None)
    (Hrun : deploy config fuel sid override uploaded force w = Some (r, w')) :
  only no_growth_calls w w'.
Proof.
  unfold deploy, with_lease in Hrun. destruct (Begin _ _ _) as [g [lease|e]];
    [|injection Hrun as _ <-; by exists []].
  destruct (deployLocked _ _ _ _ _ _ _) as [[r2 w2]|] eqn:E; [|done]. injection Hrun as <- <-.
  exact (denied_calls config sid fuel override uploaded force Hdenied _ _ _ E).
Qed.

Definition full_disk_env : Env := {|
  a_fault := @a_fault demo_env; a_read := @a_read demo_env; a_pull := @a_pull demo_env;
  a_image := @a_image demo_env; a_create := @a_create demo_env; a_orphan := @a_orphan demo_env; a_inspect := @a_inspect demo_env;
  a_credential := @a_credential demo_env; a_environment := @a_environment demo_env;
  a_placement := @a_placement demo_env; a_newID := @a_newID demo_env; a_probe := @a_probe demo_env;
  a_error := fun trace => match trace with
                          | CGrowth :: _ => Some (Sentinel "diskpressure.ErrGrowthDenied" "denied")
                          | _ => None end;
  a_close := @a_close demo_env; a_now := @a_now demo_env; a_others := @a_others demo_env
|}.

Definition full_disk_run :=
  @deploy demo_hostnames demo_config full_disk_env demo_cfg 5 "svc" "" None true demo_world.

Lemma full_disk_summary : summary full_disk_run = Some (false, Some "d0", Some "d0").
Proof. vm_compute. reflexivity. Qed.

Lemma growth_denied_no_pull_witness :
  exists r w', full_disk_run = Some (r, w') /\ only no_growth_calls demo_world w'.
Proof.
  destruct (summary_some _ _ _ _ full_disk_summary) as (r & w' & E & _).
  exists r, w'. split; [exact E|].
  apply (@growth_denied_no_pull demo_hostnames demo_config full_disk_env demo_cfg "svc" 5 "" None true
           demo_world r w'); [|exact E]. intros trace Hn. discriminate Hn.
Defined.

(** A delayed restart cannot revive an older deployment.  If the active
    pointer no longer names the expected deployment, [RestoreCurrent] restores
    nothing, leaves the running container alone and makes no call but reading
    the desired state. *)
Theorem stale_restart_ignored `{ConfigTables} `{Env} config sid expected fuel w r w'
    (Hothers : Guarded True sid) (Hexpected : expected <> "")
    (Hstale : pointer sid w <> Some expected)
    (Hrun : RestoreCurrent config fuel sid expected w = Some (r, w')) :
  r <> Ok true /\ w_active w' = w_active w /\ only (fun c => c = CStore "DesiredService") w w'.
Proof.
  unfold RestoreCurrent, with_lease in Hrun.
  destruct (Begin _ _ _) as [g [lease|e]];
    [|injection Hrun as <- <-; split_and!; [done..|by exists []]].
  destruct (restoreCurrentLocked _ _ _ _ _) as [[r2 w2]|] eqn:E; [|done]. injection Hrun as <- <-.
  exact (stale_restore config sid True fuel expected
           (mkWorld (w_db w) (w_active w) g (w_trace w)) r2 w2 Hexpected Hstale E).
Qed.

Definition stale_run := @RestoreCurrent demo_config demo_env demo_cfg 5 "svc" "d7" demo_world.

Lemma stale_run_returns : stale_run <> None.
Proof. vm_compute. discriminate. Qed.

Lemma stale_restart_ignored_witness :
  exists r w', stale_run = Some (r, w') /\ r <> Ok true /\ w_active w' = w_active demo_world /\
    only (fun c => c = CStore "DesiredService") demo_world w'.
Proof.
  destruct stale_run as [[r w']|] eqn:E; [|by destruct stale_run_returns].
  exists r, w'. split; [reflexivity|].
  apply (@stale_restart_ignored demo_config demo_env demo_cfg "svc" "d7" 5 demo_world r w');
    [apply demo_guarded|discriminate|vm_compute; discriminate|exact E].
Defined.

(** Restarts do not rewrite history.  Of the controller's operations on a
    service only a deploy writes deployment records or the active pointer; a
    restore, restart, deletion, crash cleanup, quiesce or resume changes the
    database by marking volumes initialised, and everything else that changed
    meanwhile was written by other sessions. *)
Theorem restart_keeps_history `{HostnameTables} `{ConfigTables} `{Env} config sid op w w'
    (Hop : runOperation config sid op w = Some w') :
  (exists fuel o u f r, deploy config fuel sid o u f w = Some (r, w')) \/
  rtc history_step (w_db w) (w_db w').
Proof. exact (operation_history config sid op w w' Hop). Qed.

Lemma restart_keeps_history_witness :
  exists r w', stale_run = Some (r, w') /\
    ((exists fuel o u f r, @deploy demo_hostnames demo_config demo_env demo_cfg fuel "svc" o u f
        demo_world = Some (r, w')) \/ rtc (@history_step demo_env) ctl_db (w_db w')).
Proof.
  destruct stale_run as [[r w']|] eqn:E; [|by destruct stale_run_returns].
  exists r, w'. split; [reflexivity|].
  apply (@restart_keeps_history demo_hostnames demo_config demo_env demo_cfg "svc"
           (ORestoreCurrent 5 "d7") demo_world w').
  simpl. unfold stale_run in E. rewrite E. reflexivity.
Defined.
