(* ===== verification/DiskPressure.v ===== *)
(** * Disk pressure

    [internal/diskpressure/manager.go]: the level of the data disk with
    hysteresis, the emergency reserve file, freezing of workload cgroups, and
    the growth gate that deployments ask before they pull or create anything. *)

From S2P Require Import Prelude.

Definition minimumReserveBytes : Z := 2 ^ 30.
Definition reserveFraction : Z := 50.
Definition percentageScale : Z := 10000.

(** [NoLevel] is the zero value of the string type. *)
Inductive Level := NoLevel | Normal | Low | Critical | Emergency.
#[export] Instance Level_eq_dec : EqDecision Level.
Proof. solve_decision. Defined.

Definition level_name (l : Level) : string :=
  match l with
  | NoLevel => "" | Normal => "normal" | Low => "low"
  | Critical => "critical" | Emergency => "emergency"
  end.

Definition ErrGrowthDenied : goerr :=
  Sentinel "diskpressure.ErrGrowthDenied" "disk-growing operation denied by disk pressure".

(** All fields are uint64. *)
Record Usage := mkUsage {
  TotalBytes : Z; UsedBytes : Z; AvailableBytes : Z; TotalInodes : Z; AvailableInodes : Z;
  ByteBasisPoints : Z; InodeBasisPoints : Z
}.

Record Snapshot := mkSnapshot {
  Level_ : Level; Usage_ : Usage; ReservePresent : bool; CheckedAt : Z
}.

Record Manager := mkManager { state : Snapshot; ready : bool }.

Record Config := mkConfig {
  DataRoot : string; ReservePath : string;
  has_collector : bool; has_reserve : bool; has_freezer : bool;
  has_transitions : bool; has_cleanup : bool
}.

Definition zero_snapshot : Snapshot := mkSnapshot NoLevel (mkUsage 0 0 0 0 0 0 0) false time_zero.

Definition canonicalAbsolute (value : string) : bool :=
  has_prefix "/" value && bool_decide (Clean_rooted value = value)
  && negb (bool_decide (value = "/")).

(** [filepath.Rel] between two cleaned rooted paths does not leave [root] iff
    [value] continues it below a separator. *)
Definition pathWithin (value root : string) : bool := has_prefix (root +:+ "/") value.

Definition New (config : Config) : result goerr Manager :=
  if negb (canonicalAbsolute (DataRoot config)) || negb (canonicalAbsolute (ReservePath config))
     || negb (pathWithin (ReservePath config) (DataRoot config))
  then Err (Msg "disk pressure paths must be canonical absolute paths on the data tree")
  else if negb (has_collector config && has_reserve config && has_freezer config)
  then Err (Msg "disk pressure dependencies are incomplete")
  else Ok (mkManager zero_snapshot false).

(** [bits.Mul64] and [bits.Div64]; [None] is the panic of [Div64] when the
    quotient does not fit or the divisor is zero. *)
Definition Mul64 (x y : Z) : Z * Z := ((x * y) / two64, (x * y) mod two64).
Definition Div64 (hi lo y : Z) : option (Z * Z) :=
  if (y =? 0) || (y <=? hi) then None
  else Some ((hi * two64 + lo) / y, (hi * two64 + lo) mod y).

Definition usedBasisPoints (used total : Z) : option Z :=
  if total =? 0 then Some 0
  else let '(high, low) := Mul64 used percentageScale in
       match Div64 high low total with
       | None => None
       | Some (quotient, _) => Some (Z.min quotient percentageScale)
       end.

Definition reserveSize (total : Z) : result goerr Z :=
  let size := Z.max minimumReserveBytes (total / reserveFraction) in
  if max_int64 <? size then Err (Msg "disk reserve size exceeds int64") else Ok size.

Definition projectedBasisPoints (usage : Usage) (reserve : Z) : option Z :=
  let used := u64 (TotalBytes usage - AvailableBytes usage) in
  if AvailableBytes usage <? reserve then Some percentageScale
  else usedBasisPoints (u64 (used + reserve)) (TotalBytes usage).

Definition validateUsage (usage : Usage) : option goerr :=
  if (TotalBytes usage =? 0) || (TotalBytes usage <? AvailableBytes usage)
     || (TotalInodes usage <? AvailableInodes usage)
  then Some (Msg "disk pressure usage is invalid") else None.

Definition levelRank (level : Level) : Z :=
  match level with
  | Normal => 0 | Low => 1 | Critical => 2 | Emergency => 3 | NoLevel => -1
  end.

Definition entryLevel (usage : Usage) : Level :=
  let worst := Z.max (ByteBasisPoints usage) (InodeBasisPoints usage) in
  if 9700 <=? worst then Emergency
  else if 9500 <=? worst then Critical
  else if 9000 <=? worst then Low
  else Normal.

Definition nextLevel (previous : Level) (usage : Usage) : Level :=
  let entry := entryLevel usage in
  if levelRank previous <? levelRank entry then entry
  else
    let bytes := ByteBasisPoints usage in
    let inodes := InodeBasisPoints usage in
    match previous with
    | Emergency => if (bytes <? 9500) && (inodes <? 9500) then Critical else previous
    | Critical => if (bytes <? 9300) && (inodes <? 9300) then Low else previous
    | Low => if (bytes <? 8800) && (inodes <? 8800) then Normal else previous
    | Normal => entry
    | NoLevel => previous
    end.

(** ** A check

    [Answers] is what the collector, the reserve file, the freezer, the
    transition sink and the cleanup answer during one check.  The world keeps
    whether the workload cgroups are frozen and whether the reserve file
    exists; a [SetFrozen] that fails may leave either state. *)

Record Answers := mkAnswers {
  an_usage : result goerr Usage;
  an_remove : option goerr; an_frozen : option goerr; an_left_frozen : bool;
  an_ensure : option goerr; an_present : result goerr bool; an_now : Z;
  an_transition : option goerr; an_cleanup : option goerr
}.

Record World := mkWorld { manager : Manager; frozen : bool; reserve : bool }.

Definition with_points (u : Usage) (bytes inodes : Z) : Usage :=
  mkUsage (TotalBytes u) (UsedBytes u) (AvailableBytes u) (TotalInodes u) (AvailableInodes u)
    bytes inodes.

(** [reserve.Remove] and [SetFrozen(true)] on entering the emergency level. *)
Definition enterEmergency (a : Answers) (w : World) : World * option goerr :=
  match an_remove a with
  | Some e => (w, Some (Wrap "release emergency disk reserve" e))
  | None =>
      match an_frozen a with
      | Some e => (mkWorld (manager w) (an_left_frozen a) false,
                   Some (Wrap "freeze workload cgroups" e))
      | None => (mkWorld (manager w) true false, None)
      end
  end.

Definition leaveEmergency (a : Answers) (w : World) : World * option goerr :=
  match an_frozen a with
  | Some e => (mkWorld (manager w) (an_left_frozen a) (reserve w),
               Some (Wrap "unfreeze workload cgroups" e))
  | None => (mkWorld (manager w) false (reserve w), None)
  end.

(** The checks and effects before the new state is stored. *)
Definition transition (config : Config) (a : Answers) (usage : Usage) (w : World)
    : option (World * result goerr Snapshot) :=
  let previous := state (manager w) in
  let isReady := ready (manager w) in
  let next := if isReady then nextLevel (Level_ previous) usage else entryLevel usage in
  let '(w1, e1) :=
    if bool_decide (next = Emergency)
       && (negb isReady || negb (bool_decide (Level_ previous = Emergency)))
    then enterEmergency a w else (w, None) in
  match e1 with
  | Some e => Some (w1, Err e)
  | None =>
      let '(w2, e2) :=
        if isReady && bool_decide (Level_ previous = Emergency)
           && negb (bool_decide (next = Emergency))
        then leaveEmergency a w1 else (w1, None) in
      match e2 with
      | Some e => Some (w2, Err e)
      | None =>
          match reserveSize (TotalBytes usage) with
          | Err e => Some (w2, Err e)
          | Ok size =>
              match (if bool_decide (next = Normal) then projectedBasisPoints usage size
                     else Some percentageScale) with
              | None => None
              | Some projected =>
                  let '(w3, e3) :=
                    if bool_decide (next = Normal) && (projected <? 9000)
                    then match an_ensure a with
                         | Some e => (w2, Some (Wrap "ensure disk reserve" e))
                         | None => (mkWorld (manager w2) (frozen w2) true, None)
                         end
                    else (w2, None) in
                  match e3, an_present a with
                  | Some e, _ => Some (w3, Err e)
                  | None, Err e => Some (w3, Err (Wrap "inspect disk reserve" e))
                  | None, Ok present =>
                      let snapshot := mkSnapshot next usage present (an_now a) in
                      if isReady && negb (bool_decide (Level_ previous = next))
                         && has_transitions config
                      then match an_transition a with
                           | Some e => Some (w3, Err e)
                           | None => Some (w3, Ok snapshot)
                           end
                      else Some (w3, Ok snapshot)
                  end
              end
          end
      end
  end.

(** [Check]: the returned snapshot is stored; a failed cleanup afterwards is
    reported but the state stays.  [None] is a panic. *)
Definition Check (config : Config) (a : Answers) (w : World)
    : option (World * Snapshot * option goerr) :=
  match an_usage a with
  | Err e => Some (w, zero_snapshot, Some e)
  | Ok usage0 =>
      match validateUsage usage0 with
      | Some e => Some (w, zero_snapshot, Some e)
      | None =>
          match usedBasisPoints (u64 (TotalBytes usage0 - AvailableBytes usage0)) (TotalBytes usage0),
                usedBasisPoints (u64 (TotalInodes usage0 - AvailableInodes usage0)) (TotalInodes usage0)
          with
          | Some bytes, Some inodes =>
              match transition config a (with_points usage0 bytes inodes) w with
              | None => None
              | Some (w1, Err e) => Some (w1, zero_snapshot, Some e)
              | Some (w1, Ok snapshot) =>
                  let w2 := mkWorld (mkManager snapshot true) (frozen w1) (reserve w1) in
                  Some (w2, snapshot,
                        if negb (bool_decide (Level_ snapshot = Normal)) && has_cleanup config
                        then an_cleanup a else None)
              end
          | _, _ => None
          end
      end
  end.

Definition PermitGrowth (config : Config) (a : Answers) (w : World)
    : option (World * option goerr) :=
  match Check config a w with
  | None => None
  | Some (w', _, Some e) => Some (w', Some e)
  | Some (w', snapshot, None) =>
      if bool_decide (Level_ snapshot = Critical) || bool_decide (Level_ snapshot = Emergency)
      then Some (w', Some (Suffix ErrGrowthDenied (": level " +:+ level_name (Level_ snapshot))))
      else Some (w', None)
  end.

(** ** Basis points *)

Lemma usedBasisPoints_exact used total :
  0 <= used <= total -> total < two64 ->
  usedBasisPoints used total = Some (if total =? 0 then 0 else used * percentageScale / total).
Proof.
  intros Hu Ht. unfold usedBasisPoints, Mul64, Div64, percentageScale.
  destruct (Z.eqb_spec total 0) as [|Hne]; [done|].
  assert (Hpos : 0 < two64) by reflexivity.
  assert (Hhi : used * 10000 / two64 < total).
  { apply Z.div_lt_upper_bound; [done|]. unfold two64 in *. nia. }
  rewrite (proj2 (Z.leb_gt _ _)) by lia. simpl.
  rewrite <- (Z.mul_comm two64), <- Z.div_mod by lia. f_equal.
  apply Z.min_l. apply Z.div_le_upper_bound; nia.
Qed.

Lemma basis_points_range used total p :
  0 <= used <= total -> total < two64 -> usedBasisPoints used total = Some p ->
  0 <= p <= percentageScale.
Proof.
  intros Hu Ht. rewrite usedBasisPoints_exact by done. unfold percentageScale.
  destruct (Z.eqb_spec total 0); intros [= <-]; [lia|]. split.
  - apply Z.div_pos; lia.
  - apply Z.div_le_upper_bound; nia.
Qed.

(** ** Levels *)

Lemma nextLevel_covers previous usage :
  levelRank (entryLevel usage) <= levelRank (nextLevel previous usage).
Proof.
  unfold nextLevel. destruct (Z.ltb_spec (levelRank previous) (levelRank (entryLevel usage)));
    [lia|].
  unfold entryLevel in *. destruct previous; simpl in *; destruct_ifs; btrue; simpl in *; lia.
Qed.

Lemma nextLevel_step previous usage :
  previous <> NoLevel -> levelRank previous - 1 <= levelRank (nextLevel previous usage).
Proof.
  intros Hne. unfold nextLevel.
  destruct (Z.ltb_spec (levelRank previous) (levelRank (entryLevel usage))); [lia|].
  destruct previous; try done; destruct_ifs; simpl in *; try lia.
  unfold entryLevel. destruct_ifs; simpl; lia.
Qed.

Lemma nextLevel_level previous usage : previous <> NoLevel -> nextLevel previous usage <> NoLevel.
Proof.
  intros Hne. unfold nextLevel, entryLevel. destruct previous; destruct_ifs; done.
Qed.

Lemma entryLevel_level usage : entryLevel usage <> NoLevel.
Proof. unfold entryLevel. by destruct_ifs. Qed.

(** ** Checks *)

(** The exit threshold of a level, below its entry threshold by 2 points. *)
Definition exitPoints (level : Level) : Z :=
  match level with
  | Emergency => 9500 | Critical => 9300 | Low => 8800 | _ => 9000
  end.

Lemma nextLevel_drop previous usage :
  levelRank (nextLevel previous usage) < levelRank previous ->
  ByteBasisPoints usage < exitPoints previous /\ InodeBasisPoints usage < exitPoints previous /\
  levelRank (nextLevel previous usage) = levelRank previous - 1.
Proof.
  unfold nextLevel. destruct (Z.ltb_spec (levelRank previous) (levelRank (entryLevel usage)));
    [lia|].
  destruct previous; simpl in *; try (unfold entryLevel; destruct_ifs; simpl; lia);
    destruct_ifs; btrue; simpl; lia.
Qed.

(** What a check that stores its snapshot did. *)
Record stored (usage : Usage) (w w' : World) (s : Snapshot) : Prop := mkStored {
  st_usage : Usage_ s = usage;
  st_level : Level_ s = if ready (manager w) then nextLevel (Level_ (state (manager w))) usage
                        else entryLevel usage;
  st_frozen : frozen w' =
    if bool_decide (Level_ s = Emergency)
    then if ready (manager w) && bool_decide (Level_ (state (manager w)) = Emergency)
         then frozen w else true
    else if ready (manager w) && bool_decide (Level_ (state (manager w)) = Emergency)
         then false else frozen w
}.

Lemma transition_stored config a usage w w1 s :
  transition config a usage w = Some (w1, Ok s) -> stored usage w w1 s.
Proof.
  unfold transition. set (next := if ready (manager w) then _ else _).
  intros Ht. enough (Hs : Usage_ s = usage /\ Level_ s = next /\ frozen w1 =
    if bool_decide (next = Emergency)
    then if ready (manager w) && bool_decide (Level_ (state (manager w)) = Emergency)
         then frozen w else true
    else if ready (manager w) && bool_decide (Level_ (state (manager w)) = Emergency)
         then false else frozen w).
  { destruct Hs as (Hu & Hl & Hf). split; [done..|]. by rewrite Hl. }
  clearbody next. unfold enterEmergency, leaveEmergency in Ht.
  destruct (ready (manager w)), (bool_decide (Level_ (state (manager w)) = Emergency)),
    (bool_decide (next = Emergency)); simpl in *;
    repeat (case_match; simplify_eq/=); done.
Qed.

Definition uint64 (z : Z) : Prop := 0 <= z < two64.

(** What the collector reports: a valid usage. *)
Definition usage_valid (u : Usage) : Prop :=
  uint64 (TotalBytes u) /\ uint64 (AvailableBytes u) /\ uint64 (TotalInodes u) /\
  uint64 (AvailableInodes u) /\ validateUsage u = None.

Lemma valid_ranges u : usage_valid u ->
  0 <= TotalBytes u - AvailableBytes u <= TotalBytes u /\
  0 <= TotalInodes u - AvailableInodes u <= TotalInodes u /\ 0 < TotalBytes u.
Proof.
  unfold usage_valid, uint64, validateUsage. intros (? & ? & ? & ? & Hv). destruct_ifs. btrue. lia.
Qed.

Definition byte_points (u : Usage) : Z :=
  (TotalBytes u - AvailableBytes u) * percentageScale / TotalBytes u.
Definition inode_points (u : Usage) : Z :=
  if TotalInodes u =? 0 then 0
  else (TotalInodes u - AvailableInodes u) * percentageScale / TotalInodes u.

(** No check panics. *)
Lemma transition_total config a u b i w :
  usage_valid u -> transition config a (with_points u b i) w <> None.
Proof.
  intros Hv. destruct (valid_ranges u Hv) as (Hb & _ & Hpos).
  destruct Hv as ((_ & Ht) & (Ha & _) & _).
  assert (Hp : forall n, 0 <= n -> projectedBasisPoints (with_points u b i) n <> None).
  { intros n Hn. unfold projectedBasisPoints, with_points; simpl.
    destruct (Z.ltb_spec (AvailableBytes u) n); [done|].
    rewrite (u64_small (TotalBytes u - _)) by lia. rewrite u64_small by lia.
    by rewrite usedBasisPoints_exact by lia. }
  unfold transition, reserveSize, minimumReserveBytes.
  match goal with |- context [let '(_, _) := ?x in _] => destruct x as [w1 [e1|]] end; [done|].
  match goal with |- context [let '(_, _) := ?x in _] => destruct x as [w2 [e2|]] end; [done|].
  simpl. destruct (max_int64 <? _); [done|].
  match goal with |- context [if bool_decide ?p then projectedBasisPoints ?v ?n else _] =>
    destruct (bool_decide p); [destruct (projectedBasisPoints v n) eqn:E|] end;
    [|exfalso; eapply Hp; [|exact E]; lia|].
  all: repeat case_match; simplify_eq; done.
Qed.

Lemma Check_cases config a w u :
  an_usage a = Ok u -> usage_valid u ->
  exists w' s e, Check config a w = Some (w', s, e) /\
    let usage := with_points u (byte_points u) (inode_points u) in
    ((s = zero_snapshot /\ is_Some e /\ exists e', transition config a usage w = Some (w', Err e')) \/
     (manager w' = mkManager s true /\ stored usage w w' s)).
Proof.
  intros Hu Hv. destruct (valid_ranges u Hv) as (Hb & Hi & Hpos).
  pose proof Hv as ((_ & Ht) & _ & (_ & Hti) & _ & Hval).
  unfold Check. rewrite Hu, Hval. rewrite !u64_small by lia. rewrite !usedBasisPoints_exact by lia.
  rewrite (proj2 (Z.eqb_neq _ _)) by lia. fold (byte_points u) (inode_points u).
  destruct (transition config a _ w) as [[w1 [s|e]]|] eqn:E;
    [| |by apply transition_total in E].
  - eexists _, _, _. split; [reflexivity|]. right. split; [done|].
    apply transition_stored in E as [Hs Hl Hf]. by split.
  - eexists _, _, _. split; [reflexivity|]. left. eauto.
Qed.

(** ** Theorems *)

(** The growth gate is sound.  Whatever the level was before, a permitted
    growth means that less than 95 percent of the bytes and of the inodes are
    in use, and asking never panics. *)
Theorem growth_gate_sound config a w u
    (Hcollected : an_usage a = Ok u) (Hvalid : usage_valid u) :
  exists w' r, PermitGrowth config a w = Some (w', r) /\
    (r = None -> (TotalBytes u - AvailableBytes u) * 100 < 95 * TotalBytes u /\
                 (TotalInodes u = 0 \/
                  (TotalInodes u - AvailableInodes u) * 100 < 95 * TotalInodes u)).
Proof.
  destruct (Check_cases config a w u Hcollected Hvalid) as (w' & s & e & Hc & Hcases).
  destruct (valid_ranges u Hvalid) as (Hb & Hi & Hpos).
  unfold PermitGrowth. rewrite Hc. destruct e as [e|]; [by eexists _, _|].
  destruct Hcases as [(_ & [? ?] & _)|[_ [_ Hl _]]]; [done|].
  destruct (bool_decide (Level_ s = Critical) || bool_decide (Level_ s = Emergency)) eqn:Hlev;
    [by eexists _, _|].
  eexists _, _. split; [reflexivity|]. intros _. btrue.
  assert (Hentry : levelRank (entryLevel (with_points u (byte_points u) (inode_points u))) < 2).
  { destruct (ready (manager w)).
    - pose proof (nextLevel_covers (Level_ (state (manager w)))
                    (with_points u (byte_points u) (inode_points u))) as Hcov.
      rewrite <- Hl in Hcov. destruct (Level_ s); simpl in *; try lia; done.
    - rewrite <- Hl. destruct (Level_ s); simpl; try lia; done. }
  unfold entryLevel in Hentry. simpl in Hentry.
  destruct (9700 <=? _) eqn:E1; [simpl in Hentry; lia|].
  destruct (9500 <=? _) eqn:E2; [simpl in Hentry; lia|]. btrue. split.
  - assert (Hp : byte_points u < 9500) by lia. unfold byte_points, percentageScale in Hp.
    pose proof (Z.mul_succ_div_gt
      ((TotalBytes u - AvailableBytes u) * 10000) (TotalBytes u)). nia.
  - assert (Hp : inode_points u < 9500) by lia. unfold inode_points, percentageScale in Hp.
    destruct (Z.eqb_spec (TotalInodes u) 0); [by left|right].
    pose proof (Z.mul_succ_div_gt ((TotalInodes u - AvailableInodes u) * 10000) (TotalInodes u)). nia.
Qed.

Definition demo_usage (available : Z) : Usage := mkUsage 1000000 0 available 1000 900 0 0.
Definition demo_answers (available : Z) : Answers :=
  mkAnswers (Ok (demo_usage available)) None None false None (Ok true) 5 None None.
Definition demo_config : Config := mkConfig "/data" "/data/reserve" true true true true true.
Definition fresh : World := mkWorld (mkManager zero_snapshot false) false false.

Lemma demo_usage_valid available : 0 <= available <= 1000000 -> usage_valid (demo_usage available).
Proof.
  intros Ha. unfold usage_valid, uint64, demo_usage, validateUsage, two64; simpl.
  split_and!; try lia. rewrite (proj2 (Z.ltb_ge _ _)) by lia. done.
Qed.

Lemma growth_gate_sound_witness :
  exists w' r, PermitGrowth demo_config (demo_answers 500000) fresh = Some (w', r) /\
    (r = None -> 500000 * 100 < 95 * 1000000 /\ (1000 = 0 \/ 100 * 100 < 95 * 1000)).
Proof.
  apply (growth_gate_sound demo_config (demo_answers 500000) fresh (demo_usage 500000));
    [reflexivity|apply demo_usage_valid; lia].
Defined.

(** Hysteresis.  A check that stores a level never stores one below what
    the usage calls for, and it only lowers the level by one step, and only
    when bytes and inodes are both below the exit threshold of the level it
    leaves, two points or more under the threshold that enters it: usage that
    hovers around a threshold does not flap the level. *)
Theorem level_hysteresis config a w u w' s e
    (Hcollected : an_usage a = Ok u) (Hvalid : usage_valid u)
    (Hready : ready (manager w) = true)
    (Hcheck : Check config a w = Some (w', s, e)) (Hstored : s <> zero_snapshot) :
  let usage := with_points u (byte_points u) (inode_points u) in
  let previous := Level_ (state (manager w)) in
  state (manager w') = s /\
  levelRank (entryLevel usage) <= levelRank (Level_ s) /\
  (levelRank (Level_ s) < levelRank previous ->
     byte_points u < exitPoints previous /\ inode_points u < exitPoints previous /\
     levelRank (Level_ s) = levelRank previous - 1).
Proof.
  destruct (Check_cases config a w u Hcollected Hvalid) as (w1 & s1 & e1 & Hc & Hcases).
  rewrite Hcheck in Hc. injection Hc as <- <- <-. simpl.
  destruct Hcases as [(? & _)|[Hm [_ Hl _]]]; [done|].
  rewrite Hready in Hl. split; [by rewrite Hm|]. rewrite Hl. split; [apply nextLevel_covers|].
  intros Hd. by apply nextLevel_drop in Hd.
Qed.

Definition critical_world : World :=
  mkWorld (mkManager (mkSnapshot Critical (demo_usage 45000) false 1) true) false false.

Lemma level_hysteresis_witness :
  exists w' s e, Check demo_config (demo_answers 500000) critical_world = Some (w', s, e) /\
    Level_ s = Low /\ levelRank (Level_ s) = levelRank Critical - 1.
Proof.
  eexists _, _, _. split; [reflexivity|]. split; [reflexivity|].
  edestruct (level_hysteresis demo_config (demo_answers 500000) critical_world (demo_usage 500000))
    as (_ & _ & Hd); [reflexivity|apply demo_usage_valid; lia|reflexivity|reflexivity|discriminate|].
  apply Hd. reflexivity.
Defined.

(** ** Freezing *)

(** Workloads are frozen exactly at the emergency level. *)
Definition freeze_ok (w : World) : Prop :=
  if ready (manager w) then frozen w = bool_decide (Level_ (state (manager w)) = Emergency)
  else frozen w = false.

(** A check that stored its snapshot or changed nothing. *)
Inductive check_step (config : Config) : World -> World -> Prop :=
| step_stored a u w w' s e :
    an_usage a = Ok u -> usage_valid u -> Check config a w = Some (w', s, e) ->
    manager w' = mkManager s true -> s <> zero_snapshot -> check_step config w w'
| step_nothing a w s e :
    Check config a w = Some (w, s, e) -> check_step config w w.

Lemma check_step_freeze config w w' : check_step config w w' -> freeze_ok w -> freeze_ok w'.
Proof.
  intros [a u w1 w2 s e Hu Hv Hc Hm Hs|a w1 s e Hc] Hf; [|done].
  destruct (Check_cases config a w1 u Hu Hv) as (w3 & s3 & e3 & Hc' & Hcases).
  rewrite Hc in Hc'. injection Hc' as <- <- <-.
  destruct Hcases as [(? & _)|[_ [_ _ Hfr]]]; [done|].
  unfold freeze_ok in *. rewrite Hm. simpl. rewrite Hfr.
  destruct (ready (manager w1)), (bool_decide (Level_ (state (manager w1)) = Emergency)),
    (bool_decide (Level_ s = Emergency)); simpl; done.
Qed.

(** Freezing follows the level.  From a state in which the workload cgroups
    are frozen exactly at the emergency level (a new manager among them),
    every sequence of checks that complete, or fail before they change
    anything, leads to such a state: no workload stays frozen after recovery,
    and none runs during an emergency. *)
Theorem freeze_follows_level config w w'
    (Hchecks : rtc (check_step config) w w') (Hok : freeze_ok w) : freeze_ok w'.
Proof.
  induction Hchecks as [|w1 w2 w3 Hstep _ IH]; [done|]. apply IH.
  by eapply check_step_freeze.
Qed.

Definition emergency_world : World :=
  mkWorld (mkManager (mkSnapshot Emergency (with_points (demo_usage 10000) 9900 1000) true 5) true)
    true false.

Lemma freeze_follows_level_witness : frozen emergency_world = true /\ freeze_ok emergency_world.
Proof.
  split; [reflexivity|].
  apply (freeze_follows_level demo_config fresh emergency_world); [|reflexivity].
  apply rtc_once. eapply (step_stored demo_config (demo_answers 10000) (demo_usage 10000));
    [reflexivity|apply demo_usage_valid; lia|reflexivity|reflexivity|discriminate].
Defined.

(** The transition sink fails while the emergency level is entered. *)
Definition failing_answers (available : Z) : Answers :=
  mkAnswers (Ok (demo_usage available)) None None false None (Ok true) 5
    (Some (Msg "sink unavailable")) None.

(** The order of [Check] matters when a later step fails: the freezer runs
    before the new level is stored.  From the critical level, a check that
    enters the emergency level and whose transition sink then fails leaves
    the workloads frozen with the critical level still stored; the disk
    recovers, two checks complete without any error and store the levels low
    and normal, and the workloads are still frozen. *)
Theorem failed_transition_keeps_frozen :
  exists w1 w2 w3 e s2 s3,
    Check demo_config (failing_answers 10000) critical_world = Some (w1, zero_snapshot, Some e) /\
    Check demo_config (demo_answers 500000) w1 = Some (w2, s2, None) /\ Level_ s2 = Low /\
    Check demo_config (demo_answers 500000) w2 = Some (w3, s3, None) /\ Level_ s3 = Normal /\
    frozen w3 = true.
Proof.
  eexists _, _, _, _, _, _. split; [reflexivity|]. split; [reflexivity|]. split; [reflexivity|].
  split; [reflexivity|]. split; reflexivity.
Qed.
