(* ===== verification/ResourceLock.v ===== *)
(** * Resource locks

    [internal/resourcelock/pool.go]: one mutex per resource key, created on
    demand and dropped when nobody holds or waits for it.  A [Lock] object is
    shared by pointer, so the model has a heap of lock objects; callers keep
    the pointers they got from [Get].  The pool mutex makes [Get] and
    [releaseReference] atomic steps. *)

From S2P Require Import Prelude.

Record Lock := mkLock { key : string; refs : Z; held : bool }.

(** [locks] is the pool's map; [heap] holds every lock object ever allocated. *)
Record Pool := mkPool { locks : gmap string nat; heap : gmap nat Lock }.

Definition new_pool : Pool := mkPool ∅ ∅.

Definition set_lock (p : nat) (l : Lock) (pool : Pool) : Pool :=
  mkPool (locks pool) (<[p := l]> (heap pool)).

(** A fresh pointer for a new lock object. *)
Definition alloc (pool : Pool) : nat := fresh (dom (heap pool)).

Definition Get (k : string) (pool : Pool) : Pool * nat :=
  let '(pool1, p) :=
    match locks pool !! k with
    | Some p => (pool, p)
    | None =>
        let p := alloc pool in
        (mkPool (<[k := p]> (locks pool)) (<[p := mkLock k 0 false]> (heap pool)), p)
    end in
  match heap pool1 !! p with
  | Some l => (set_lock p (mkLock (key l) (refs l + 1) (held l)) pool1, p)
  | None => (pool1, p)
  end.

(** The mutex of a lock: [None] when the caller has to wait. *)
Definition Lock_ (p : nat) (pool : Pool) : option Pool :=
  match heap pool !! p with
  | Some l => if held l then None else Some (set_lock p (mkLock (key l) (refs l) true) pool)
  | None => None
  end.

Definition releaseReference (p : nat) (pool : Pool) : Pool :=
  match heap pool !! p with
  | None => pool
  | Some l =>
      let l' := mkLock (key l) (refs l - 1) (held l) in
      let pool1 := set_lock p l' pool in
      if (refs l' =? 0) && bool_decide (locks pool !! key l = Some p)
      then mkPool (delete (key l) (locks pool1)) (heap pool1)
      else pool1
  end.

Definition TryLock (p : nat) (pool : Pool) : Pool * bool :=
  match Lock_ p pool with
  | Some pool' => (pool', true)
  | None => (releaseReference p pool, false)
  end.

Definition unlock_mutex (p : nat) (pool : Pool) : Pool :=
  match heap pool !! p with
  | Some l => set_lock p (mkLock (key l) (refs l) false) pool
  | None => pool
  end.

Definition Unlock (p : nat) (pool : Pool) : Pool := releaseReference p (unlock_mutex p pool).

(** ** Callers

    A caller gets a lock for a key, then waits for it or tries it once, holds
    it, and unlocks it.  [Unlock] and a failed [TryLock] give the mutex and the
    reference up in two steps; a [Releasing] caller is between them.  All but
    [Done] callers keep a reference. *)

Inductive Caller :=
| Waiting (k : string) (p : nat) | Holding (k : string) (p : nat) | Releasing (k : string) (p : nat) | Done.

Definition handle (c : Caller) : option (string * nat) :=
  match c with Waiting k p | Holding k p | Releasing k p => Some (k, p) | Done => None end.

Record Sys := mkSys { pool : Pool; callers : list Caller }.

(** [Lock], and the mutex part of [TryLock], succeed by [step_lock]. *)
Inductive step : Sys -> Sys -> Prop :=
| step_get s k pool' p :
    Get k (pool s) = (pool', p) -> step s (mkSys pool' (callers s ++ [Waiting k p]))
| step_lock s i k p pool' :
    callers s !! i = Some (Waiting k p) -> Lock_ p (pool s) = Some pool' ->
    step s (mkSys pool' (<[i := Holding k p]> (callers s)))
| step_try_failed s i k p :
    callers s !! i = Some (Waiting k p) -> Lock_ p (pool s) = None ->
    step s (mkSys (pool s) (<[i := Releasing k p]> (callers s)))
| step_unlock s i k p :
    callers s !! i = Some (Holding k p) ->
    step s (mkSys (unlock_mutex p (pool s)) (<[i := Releasing k p]> (callers s)))
| step_release s i k p :
    callers s !! i = Some (Releasing k p) ->
    step s (mkSys (releaseReference p (pool s)) (<[i := Done]> (callers s))).

(** Undisturbed, the two steps are the methods. *)
Lemma unlock_steps s i k p :
  callers s !! i = Some (Holding k p) ->
  rtc step s (mkSys (Unlock p (pool s)) (<[i := Done]> (callers s))).
Proof.
  intros Hi. eapply rtc_l; [by apply step_unlock|]. apply rtc_once.
  rewrite <- (list_insert_insert_eq (callers s) i Done (Releasing k p)).
  apply (step_release (mkSys (unlock_mutex p (pool s)) _) i k p). simpl.
  apply list_lookup_insert_eq. by eapply lookup_lt_Some.
Qed.

Lemma trylock_steps s i k p pool' b :
  callers s !! i = Some (Waiting k p) -> TryLock p (pool s) = (pool', b) ->
  rtc step s (mkSys pool' (<[i := if b then Holding k p else Done]> (callers s))).
Proof.
  intros Hi. unfold TryLock. destruct (Lock_ p (pool s)) as [pool1|] eqn:HL; intros [= <- <-].
  - apply rtc_once. by apply step_lock.
  - eapply rtc_l; [by eapply step_try_failed|]. apply rtc_once.
    rewrite <- (list_insert_insert_eq (callers s) i Done (Releasing k p)).
    apply (step_release (mkSys (pool s) _) i k p). simpl.
    apply list_lookup_insert_eq. by eapply lookup_lt_Some.
Qed.

Inductive reachable : Sys -> Prop :=
| reach_init : reachable (mkSys new_pool [])
| reach_step s s' : reachable s -> step s s' -> reachable s'.

(** ** Invariant *)

(** How many callers keep a reference to [p]. *)
Definition uses (p : nat) (c : Caller) : bool :=
  match handle c with Some (_, q) => bool_decide (q = p) | None => false end.
Definition count (p : nat) (cs : list Caller) : Z :=
  foldr (fun c n => n + if uses p c then 1 else 0) 0 cs.

Record refs_ok (s : Sys) : Prop := mkRefsOk {
  inv_handle : forall i c k p, callers s !! i = Some c -> handle c = Some (k, p) ->
    locks (pool s) !! k = Some p;
  inv_map : forall k p, locks (pool s) !! k = Some p ->
    exists l, heap (pool s) !! p = Some l /\ key l = k /\ 0 < refs l;
  inv_refs : forall p l, heap (pool s) !! p = Some l -> refs l = count p (callers s)
}.

Record held_ok (s : Sys) : Prop := mkHeldOk {
  inv_held : forall p l, heap (pool s) !! p = Some l ->
    held l = true <-> exists i k, callers s !! i = Some (Holding k p);
  inv_one : forall i j k k' p, callers s !! i = Some (Holding k p) ->
    callers s !! j = Some (Holding k' p) -> i = j
}.

Definition inv (s : Sys) : Prop := refs_ok s /\ held_ok s.

Lemma count_app p l1 l2 : count p (l1 ++ l2) = count p l1 + count p l2.
Proof. induction l1 as [|c l1 IH]; simpl; [lia|]. rewrite IH. lia. Qed.

Lemma count_nonneg p l : 0 <= count p l.
Proof. induction l as [|c l IH]; simpl; [lia|]. destruct (uses p c); lia. Qed.

Lemma count_insert p l i c c' :
  l !! i = Some c ->
  count p (<[i := c']> l) = count p l - (if uses p c then 1 else 0) + (if uses p c' then 1 else 0).
Proof.
  revert i. induction l as [|d l IH]; intros [|i] Hi; simplify_eq/=; [lia|].
  rewrite (IH i) by done. lia.
Qed.

Lemma count_pos p l : 0 < count p l <-> exists i c, l !! i = Some c /\ uses p c = true.
Proof.
  induction l as [|c l IH]; simpl.
  - split; [lia|]. by intros (i & c & ? & _).
  - pose proof (count_nonneg p l). split.
    + destruct (uses p c) eqn:E; [intros _; by exists 0%nat, c|].
      intros Hc. destruct (proj1 IH) as (i & d & Hi & Hu); [lia|]. by exists (S i), d.
    + intros ([|i] & d & Hi & Hu); simplify_eq/=; [rewrite Hu; lia|].
      assert (0 < count p l) by (apply IH; eauto). destruct (uses p c); lia.
Qed.

Lemma pool_inv_init : inv (mkSys new_pool []).
Proof. split; split; simpl; intros; simplify_map_eq; done. Qed.

Lemma uses_handle p c : uses p c = true <-> exists k, handle c = Some (k, p).
Proof.
  unfold uses. destruct (handle c) as [[k q]|]; [|by split; [|intros [? ?]]].
  rewrite bool_decide_eq_true. naive_solver.
Qed.

Lemma handle_heap s i c k p :
  refs_ok s -> callers s !! i = Some c -> handle c = Some (k, p) ->
  exists l, heap (pool s) !! p = Some l /\ key l = k /\ 0 < refs l.
Proof. intros [Hh Hm _] Hi Hc. eapply Hm, Hh; eauto. Qed.

Lemma fresh_count s p : refs_ok s -> heap (pool s) !! p = None -> count p (callers s) = 0.
Proof.
  intros Hr Hp. pose proof (count_nonneg p (callers s)) as Hn.
  destruct (decide (count p (callers s) = 0)) as [|Hne]; [done|exfalso].
  destruct (proj1 (count_pos p (callers s))) as (i & c & Hi & [k Hk]%uses_handle); [lia|].
  destruct (handle_heap s i c k p Hr Hi Hk) as (l & Hl & _). congruence.
Qed.

(** [Get] either counts a reference to the lock of the key or installs a new
    one. *)
Lemma Get_spec s k pool' p :
  refs_ok s -> Get k (pool s) = (pool', p) ->
  exists l, (heap (pool s) !! p = Some l /\ locks (pool s) !! k = Some p \/
             heap (pool s) !! p = None /\ locks (pool s) !! k = None /\ l = mkLock k 0 false) /\
    key l = k /\ refs l = count p (callers s) /\
    locks pool' = <[k := p]> (locks (pool s)) /\
    heap pool' = <[p := mkLock k (refs l + 1) (held l)]> (heap (pool s)).
Proof.
  intros Hr. unfold Get. destruct (locks (pool s) !! k) as [q|] eqn:Hk.
  - destruct (inv_map s Hr k q Hk) as (l & Hl & Hkey & Hpos). rewrite Hl.
    intros [= <- <-]. exists l. split_and!; auto using inv_refs.
    + by rewrite insert_id.
    + simpl. by rewrite Hkey.
  - assert (Hfresh : heap (pool s) !! alloc (pool s) = None).
    { apply not_elem_of_dom. exact (is_fresh (dom (heap (pool s)))). }
    simpl. rewrite lookup_insert_eq. intros [= <- <-]. exists (mkLock k 0 false). simpl.
    split_and!; auto.
    + by rewrite (fresh_count s).
    + by rewrite insert_insert_eq.
Qed.

Lemma count_snoc p cs c : count p (cs ++ [c]) = count p cs + if uses p c then 1 else 0.
Proof. rewrite count_app. simpl. lia. Qed.

Lemma lookup_snoc_inv {A} (l : list A) x i y :
  (l ++ [x]) !! i = Some y -> l !! i = Some y \/ (i = length l /\ y = x).
Proof.
  intros [?|[? Hi]]%lookup_app_Some; [by left|]. apply list_lookup_singleton_Some in Hi as [? <-].
  right. split; [lia|done].
Qed.

Lemma inv_get s k pool' p :
  inv s -> Get k (pool s) = (pool', p) -> inv (mkSys pool' (callers s ++ [Waiting k p])).
Proof.
  intros [Hr Hh] HG. destruct (Get_spec s k pool' p Hr HG) as (l & Hl & Hkey & Hrefs & Hlocks & Hheap).
  assert (Hold : forall i c k' p', callers s !! i = Some c -> handle c = Some (k', p') ->
            locks pool' !! k' = Some p').
  { intros i c k' p' Hi Hc. pose proof (inv_handle s Hr i c k' p' Hi Hc) as Hk'. rewrite Hlocks.
    rewrite lookup_insert. case_decide; subst; [|done].
    destruct Hl as [[_ ?]|(_ & ? & _)]; congruence. }
  split; split; simpl.
  - intros i c k' p' [Hi|[_ ->]]%lookup_snoc_inv Hc; [eauto|]. simplify_eq/=.
    by rewrite Hlocks, lookup_insert_eq.
  - intros k' p'. rewrite Hlocks, Hheap, !lookup_insert. intros Hk'. repeat case_decide; simplify_eq.
    + eexists. split; [done|]. simpl. split; [done|]. pose proof (count_nonneg p' (callers s)). lia.
    + exfalso. destruct (inv_map s Hr _ _ Hk') as (l' & Hl' & Hkey' & _).
      destruct Hl as [[Hl _]|(Hl & _)]; simplify_eq.
    + by apply (inv_map s Hr).
  - intros p' l'. rewrite Hheap, lookup_insert, count_snoc. unfold uses; simpl.
    case_decide as Hp; intros Hl'; simplify_eq.
    + rewrite bool_decide_eq_true_2 by done. simpl. lia.
    + rewrite bool_decide_eq_false_2 by done. rewrite (inv_refs s Hr _ _ Hl'). lia.
  - intros p' l'. rewrite Hheap, lookup_insert.
    assert (Hsnoc : (exists i k0, (callers s ++ [Waiting k p]) !! i = Some (Holding k0 p')) <->
                    exists i k0, callers s !! i = Some (Holding k0 p')).
    { split; intros (i & k0 & Hi); exists i, k0.
      - apply lookup_snoc_inv in Hi as [?|[_ ?]]; done.
      - by apply lookup_app_l_Some. }
    rewrite Hsnoc. case_decide as Hp; intros Hl'; simplify_eq; simpl; [|by apply (inv_held s Hh)].
    destruct Hl as [[Hl _]|(Hl & _ & ->)]; [by apply (inv_held s Hh)|]. simpl.
    split; [done|]. intros (i & k0 & Hi).
    destruct (handle_heap s i _ k0 p' Hr Hi eq_refl) as (? & ? & _). congruence.
  - intros i j k1 k2 p' [Hi|[_ ?]]%lookup_snoc_inv [Hj|[_ ?]]%lookup_snoc_inv; simplify_eq.
    by eapply (inv_one s Hh).
Qed.

Lemma list_insert_lookup_cases {A} (l : list A) i j x y z :
  l !! i = Some x -> <[i := y]> l !! j = Some z -> (i = j /\ z = y) \/ (i <> j /\ l !! j = Some z).
Proof.
  intros Hi. rewrite list_lookup_insert. case_decide as Hd.
  - intros [= <-]. left. naive_solver.
  - intros Hj. destruct (decide (i = j)) as [->|]; [|auto].
    exfalso. apply Hd. split; [done|]. by eapply lookup_lt_Some.
Qed.

Lemma list_insert_self {A} (l : list A) i x y : l !! i = Some x -> <[i := y]> l !! i = Some y.
Proof. intros Hi. apply list_lookup_insert_eq. by eapply lookup_lt_Some. Qed.

(** Taking the mutex. *)
Lemma inv_lock s i k p pool' :
  inv s -> callers s !! i = Some (Waiting k p) -> Lock_ p (pool s) = Some pool' ->
  inv (mkSys pool' (<[i := Holding k p]> (callers s))).
Proof.
  intros [Hr Hh] Hi. unfold Lock_. destruct (heap (pool s) !! p) as [l|] eqn:Hl; [|done].
  destruct (held l) eqn:Hheld; [done|]. intros [= <-].
  assert (Hnone : forall j k', callers s !! j = Some (Holding k' p) -> False).
  { intros j k' Hj. enough (held l = true) by congruence. apply (inv_held s Hh p l Hl). eauto. }
  split; split; simpl.
  - intros j c k' p' Hj Hc.
    destruct (list_insert_lookup_cases _ _ _ _ _ _ Hi Hj) as [[<- ->]|[_ Hj']].
    + simplify_eq/=. by eapply (inv_handle s Hr).
    + by eapply (inv_handle s Hr).
  - intros k' p' Hk'. destruct (inv_map s Hr k' p' Hk') as (l' & Hl' & ? & ?).
    rewrite lookup_insert. case_decide; simplify_eq; eauto.
  - intros p' l'. rewrite lookup_insert, (count_insert _ _ _ _ _ Hi). unfold uses; simpl.
    case_decide; intros; simplify_eq; simpl.
    + rewrite (inv_refs s Hr _ _ Hl). lia.
    + rewrite (inv_refs s Hr p' l') by done. lia.
  - intros p' l'. rewrite lookup_insert. case_decide as Hp; intros Hl'; simplify_eq; simpl.
    + split; [|done]. intros _. exists i, k. by eapply list_insert_self.
    + rewrite (inv_held s Hh p' l' Hl'). split; intros (j & k' & Hj).
      * exists j, k'. rewrite list_lookup_insert_ne; [done|]. intros ->. congruence.
      * destruct (list_insert_lookup_cases _ _ _ _ _ _ Hi Hj) as [[<- ?]|[_ ?]]; [congruence|eauto].
  - intros j j' k1 k2 p' Hj Hj'.
    destruct (list_insert_lookup_cases _ _ _ _ _ _ Hi Hj) as [[<- ?]|[_ Hj1]],
      (list_insert_lookup_cases _ _ _ _ _ _ Hi Hj') as [[<- ?]|[_ Hj2]]; try done; simplify_eq.
    + by apply Hnone in Hj2.
    + by apply Hnone in Hj1.
    + by eapply (inv_one s Hh).
Qed.

(** Dropping the reference of caller [i]; its mutex, if it held one, is
    already free. *)
Lemma pool_inv_release s i c k p :
  refs_ok s -> callers s !! i = Some c -> handle c = Some (k, p) ->
  held_ok (mkSys (pool s) (<[i := Done]> (callers s))) ->
  inv (mkSys (releaseReference p (pool s)) (<[i := Done]> (callers s))).
Proof.
  intros Hr Hi Hc Hh. destruct (handle_heap s i c k p Hr Hi Hc) as (l & Hl & Hkey & Hpos).
  pose proof (inv_handle s Hr i c k p Hi Hc) as Hk.
  unfold releaseReference. rewrite Hl. simpl. rewrite Hkey, Hk, bool_decide_eq_true_2 by done.
  assert (Hcount : count p (<[i := Done]> (callers s)) = refs l - 1).
  { rewrite (count_insert _ _ _ _ _ Hi), <- (inv_refs s Hr _ _ Hl).
    assert (uses p c = true) as -> by (apply uses_handle; eauto). simpl. lia. }
  assert (Hrefs : forall p' l', <[p := mkLock k (refs l - 1) (held l)]> (heap (pool s)) !! p' = Some l' ->
            refs l' = count p' (<[i := Done]> (callers s))).
  { intros p' l'. rewrite lookup_insert. case_decide as Hp; intros; simplify_eq; [done|].
    rewrite (count_insert _ _ _ _ _ Hi), <- (inv_refs s Hr p' l') by done.
    assert (uses p' c = false) as ->; [|simpl; lia].
    apply not_true_iff_false. intros [k' Hk']%uses_handle. congruence. }
  assert (Hheld : held_ok (mkSys (mkPool (locks (pool s)) (<[p := mkLock k (refs l - 1) (held l)]>
                      (heap (pool s)))) (<[i := Done]> (callers s)))).
  { destruct Hh as [H1 H2]. split; [|done]. simpl. intros p' l'. rewrite lookup_insert.
    case_decide as Hp; intros; simplify_eq; [|by apply H1]. simpl. exact (H1 _ _ Hl). }
  assert (Hold : forall j c' k' p', <[i := Done]> (callers s) !! j = Some c' -> handle c' = Some (k', p') ->
            callers s !! j = Some c').
  { intros j c' k' p' Hj Hc'. destruct (list_insert_lookup_cases _ _ _ _ _ _ Hi Hj) as [[_ ->]|[_ ?]]; done. }
  destruct (Z.eqb_spec (refs l - 1) 0) as [Hz|Hz]; simpl.
  - split; [|by destruct Hheld as [H1 H2]; split].
    split; simpl; [| |exact Hrefs].
    + intros j c' k' p' Hj Hc'. rewrite lookup_delete_ne; [exact (inv_handle s Hr j c' k' p' (Hold _ _ _ _ Hj Hc') Hc')|].
      intros <-. pose proof (inv_handle s Hr j c' k p' (Hold _ _ _ _ Hj Hc') Hc') as Hkp.
      rewrite Hk in Hkp. injection Hkp as <-.
      assert (0 < count p (<[i := Done]> (callers s))); [|lia].
      apply count_pos. exists j, c'. split; [done|]. apply uses_handle. eauto.
    + intros k' p'. rewrite lookup_delete. case_decide; [done|]. intros Hk'.
      destruct (inv_map s Hr k' p' Hk') as (l' & Hl' & ? & ?). exists l'.
      rewrite lookup_insert_ne; [done|]. intros ->. congruence.
  - split; [|done]. split; simpl; [| |exact Hrefs].
    + intros j c' k' p' Hj Hc'. exact (inv_handle s Hr j c' k' p' (Hold _ _ _ _ Hj Hc') Hc').
    + intros k' p' Hk'. destruct (inv_map s Hr k' p' Hk') as (l' & Hl' & ? & ?).
      rewrite lookup_insert. case_decide; simplify_eq; [|eauto]. eexists. split; [done|]. simpl.
      split; [done|lia].
Qed.

(** A caller that holds nothing changes its position. *)
Definition holding (c : Caller) : bool := match c with Holding _ _ => true | _ => false end.

Lemma refs_same s i c c' :
  refs_ok s -> callers s !! i = Some c -> handle c' = handle c ->
  refs_ok (mkSys (pool s) (<[i := c']> (callers s))).
Proof.
  intros [Ha Hb Hc] Hi Hh. split; simpl; [|done|].
  - intros j d k p Hj Hd. destruct (list_insert_lookup_cases _ _ _ _ _ _ Hi Hj) as [[_ ->]|[_ ?]]; [|eauto].
    rewrite Hh in Hd. eauto.
  - intros p l Hl. rewrite (count_insert _ _ _ _ _ Hi). unfold uses. rewrite Hh.
    rewrite (Hc p l Hl). lia.
Qed.

Lemma held_same s i c c' :
  held_ok s -> callers s !! i = Some c -> holding c = false -> holding c' = false ->
  held_ok (mkSys (pool s) (<[i := c']> (callers s))).
Proof.
  intros [H1 H2] Hi Hc Hc'.
  assert (Hlk : forall j k' p', <[i := c']> (callers s) !! j = Some (Holding k' p') <->
            callers s !! j = Some (Holding k' p')).
  { intros j k' p'. split; intros Hj.
    - by destruct (list_insert_lookup_cases _ _ _ _ _ _ Hi Hj) as [[_ <-]|[_ ?]].
    - rewrite list_lookup_insert_ne; [done|]. intros ->. rewrite Hi in Hj. by injection Hj as ->. }
  split; simpl.
  - intros p' l Hl. rewrite (H1 p' l Hl). by setoid_rewrite Hlk.
  - intros j j' k1 k2 p' Hj Hj'. apply Hlk in Hj. apply Hlk in Hj'. by eapply H2.
Qed.

Lemma inv_unlock s i k p :
  inv s -> callers s !! i = Some (Holding k p) ->
  inv (mkSys (unlock_mutex p (pool s)) (<[i := Releasing k p]> (callers s))).
Proof.
  intros [Hr Hh] Hi. destruct (handle_heap s i _ k p Hr Hi eq_refl) as (l & Hl & Hkey & Hpos).
  unfold unlock_mutex. rewrite Hl.
  set (s1 := mkSys (set_lock p (mkLock (key l) (refs l) false) (pool s)) (callers s)).
  assert (Hr1 : refs_ok s1).
  { destruct Hr as [Ha Hb Hc]. split; simpl; [done| |].
    - intros k' p' Hk'. destruct (Hb k' p' Hk') as (l' & Hl' & ? & ?).
      rewrite lookup_insert. case_decide; simplify_eq; eauto.
    - intros p' l'. rewrite lookup_insert. case_decide; intros; simplify_eq; [|by apply Hc].
      simpl. by apply Hc. }
  split; [by apply (refs_same s1 i (Holding k p))|].
  destruct Hh as [H1 H2]. split; simpl.
  - intros p' l'. rewrite lookup_insert. case_decide as Hp; intros Hl'; simplify_eq; simpl.
    + split; [done|]. intros (j & k' & Hj).
      destruct (list_insert_lookup_cases _ _ _ _ _ _ Hi Hj) as [[_ ?]|[Hne Hj']]; [done|].
      exfalso. apply Hne. by eapply H2.
    + rewrite (H1 p' l' Hl'). split; intros (j & k' & Hj); exists j, k'.
      * rewrite list_lookup_insert_ne; [done|]. intros ->. congruence.
      * by destruct (list_insert_lookup_cases _ _ _ _ _ _ Hi Hj) as [[_ ?]|[_ ?]].
  - intros j j' k1 k2 p' Hj Hj'.
    destruct (list_insert_lookup_cases _ _ _ _ _ _ Hi Hj) as [[_ ?]|[_ ?]]; [done|].
    destruct (list_insert_lookup_cases _ _ _ _ _ _ Hi Hj') as [[_ ?]|[_ ?]]; [done|]. by eapply H2.
Qed.

Lemma pool_inv_step s s' : inv s -> step s s' -> inv s'.
Proof.
  intros Hinv Hs. destruct Hs as [s k pool' p HG|s i k p pool' Hi HL|s i k p Hi HL|s i k p Hi|s i k p Hi].
  - by apply inv_get.
  - by eapply inv_lock.
  - destruct Hinv as [Hr Hh]. split; [by eapply refs_same|by eapply held_same].
  - by apply (inv_unlock s i k).
  - destruct Hinv as [Hr Hh]. eapply pool_inv_release; [done|exact Hi|reflexivity|]. by eapply held_same.
Qed.

Lemma pool_reachable_inv s : reachable s -> inv s.
Proof. induction 1; [apply pool_inv_init|by eapply pool_inv_step]. Qed.

(** Mutual exclusion per key.  In every reachable state at most one caller
    holds the lock of a key, even though lock objects are dropped from the
    pool and created again under the same key. *)
Theorem lock_mutual_exclusion s i j k p q
    (Hreach : reachable s)
    (Hi : callers s !! i = Some (Holding k p)) (Hj : callers s !! j = Some (Holding k q)) : i = j.
Proof.
  destruct (pool_reachable_inv s Hreach) as [Hr Hh].
  pose proof (inv_handle s Hr i _ k p Hi eq_refl). pose proof (inv_handle s Hr j _ k q Hj eq_refl).
  simplify_eq. by eapply (inv_one s Hh).
Qed.

Definition one_holder : Sys :=
  mkSys (mkPool {["db" := 0%nat]} {[0%nat := mkLock "db" 1 true]}) [Holding "db" 0].

Lemma one_holder_reachable : reachable one_holder.
Proof.
  eapply reach_step; [eapply reach_step; [apply reach_init|]|].
  - eapply (step_get _ "db"). reflexivity.
  - refine (step_lock _ 0 "db" 0 _ _ _); reflexivity.
Qed.

Lemma lock_mutual_exclusion_witness :
  callers one_holder !! 0%nat = Some (Holding "db" 0) /\ 0%nat = 0%nat.
Proof.
  split; [reflexivity|].
  apply (lock_mutual_exclusion one_holder 0 0 "db" 0 0 one_holder_reachable); reflexivity.
Defined.

(** Idle keys do not accumulate: when no caller waits for or holds a lock,
    the pool's map is empty. *)
Theorem idle_pool_empty s (Hreach : reachable s)
    (Hidle : forall i c, callers s !! i = Some c -> c = Done) : locks (pool s) = ∅.
Proof.
  destruct (pool_reachable_inv s Hreach) as [Hr _]. apply map_eq. intros k. rewrite lookup_empty.
  destruct (locks (pool s) !! k) as [p|] eqn:Hk; [exfalso|done].
  destruct (inv_map s Hr k p Hk) as (l & Hl & _ & Hpos).
  rewrite (inv_refs s Hr p l Hl) in Hpos.
  apply count_pos in Hpos as (i & c & ->%Hidle & Hu). done.
Qed.

Definition released : Sys := mkSys (Unlock 0 (pool one_holder)) [Done].

Lemma released_reachable : reachable released.
Proof.
  eapply reach_step; [eapply reach_step; [exact one_holder_reachable|]|].
  - exact (step_unlock one_holder 0 "db" 0 eq_refl).
  - exact (step_release (mkSys (unlock_mutex 0 (pool one_holder)) [Releasing "db" 0]) 0 "db" 0 eq_refl).
Qed.

Lemma idle_pool_empty_witness : locks (pool released) = ∅.
Proof.
  apply (idle_pool_empty released released_reachable).
  intros [|i] c Hc; [by injection Hc|discriminate Hc].
Defined.

(** ** The specification: one lock per key

    The clients' view has no lock objects and no references: a caller waits
    for a key, holds it, or is gone. *)

Inductive Client := Waits (k : string) | Holds (k : string) | Gone.

Inductive spec_step : list Client -> list Client -> Prop :=
| spec_request cs k : spec_step cs (cs ++ [Waits k])
| spec_acquire cs i k :
    cs !! i = Some (Waits k) -> (forall j, cs !! j <> Some (Holds k)) ->
    spec_step cs (<[i := Holds k]> cs)
| spec_refuse cs i j k :
    cs !! i = Some (Waits k) -> cs !! j = Some (Holds k) -> spec_step cs (<[i := Gone]> cs)
| spec_release cs i k : cs !! i = Some (Holds k) -> spec_step cs (<[i := Gone]> cs).

Definition client (c : Caller) : Client :=
  match c with Waiting k _ => Waits k | Holding k _ => Holds k | Releasing _ _ | Done => Gone end.
Definition view (s : Sys) : list Client := client <$> callers s.

Lemma view_lookup s i c : callers s !! i = Some c -> view s !! i = Some (client c).
Proof. intros Hi. unfold view. by rewrite list_lookup_fmap, Hi. Qed.

Lemma view_holds s j k : view s !! j = Some (Holds k) -> exists p, callers s !! j = Some (Holding k p).
Proof.
  unfold view. rewrite list_lookup_fmap, fmap_Some. intros ([] & Hj & Hc); try done.
  injection Hc as ->. eauto.
Qed.

(** The mutex is taken exactly while the specification has a holder. *)
Lemma mutex_held s i k p l :
  inv s -> callers s !! i = Some (Waiting k p) -> heap (pool s) !! p = Some l ->
  held l = true <-> exists j, view s !! j = Some (Holds k).
Proof.
  intros [Hr Hh] Hi Hl. rewrite (inv_held s Hh p l Hl).
  pose proof (inv_handle s Hr i _ k p Hi eq_refl) as Hk. split.
  - intros (j & k' & Hj). exists j. rewrite (view_lookup _ _ _ Hj). simpl.
    destruct (handle_heap s j _ k' p Hr Hj eq_refl) as (l1 & Hl1 & Hk1 & _).
    destruct (handle_heap s i _ k p Hr Hi eq_refl) as (l2 & Hl2 & Hk2 & _). congruence.
  - intros [j (q & Hj)%view_holds]. pose proof (inv_handle s Hr j _ k q Hj eq_refl). simplify_eq. eauto.
Qed.

(** C40. The pool implements one lock per key.  Every step of the pool and its
    callers, from every reachable state, is a step of the specification or
    invisible to it: a waiting caller acquires only when no caller holds the
    key, and [TryLock] is refused only when some caller does, although lock
    objects come and go. *)
Theorem pool_refines_locks s s' (Hreach : reachable s) (Hstep : step s s') :
  spec_step (view s) (view s') \/ view s' = view s.
Proof.
  apply pool_reachable_inv in Hreach as Hinv. pose proof Hinv as [Hr _].
  destruct Hstep as [s k pool' p HG|s i k p pool' Hi HL|s i k p Hi HL|s i k p Hi|s i k p Hi];
    unfold view; simpl; try (rewrite list_fmap_insert; simpl).
  - left. rewrite fmap_app. apply spec_request.
  - left. apply spec_acquire; [by apply view_lookup in Hi|]. intros j Hj.
    destruct (handle_heap s i _ k p Hr Hi eq_refl) as (l & Hl & _).
    unfold Lock_ in HL. rewrite Hl, (proj2 (mutex_held s i k p l Hinv Hi Hl)) in HL by by exists j. done.
  - left. destruct (handle_heap s i _ k p Hr Hi eq_refl) as (l & Hl & _).
    unfold Lock_ in HL. rewrite Hl in HL. destruct (held l) eqn:Hheld; [|done].
    apply (mutex_held s i k p l Hinv Hi Hl) in Hheld as [j Hj].
    eapply spec_refuse; [by apply view_lookup in Hi|exact Hj].
  - left. eapply spec_release. by apply view_lookup in Hi.
  - right. apply list_insert_id. by apply view_lookup in Hi.
Qed.

Lemma pool_refines_locks_witness :
  step one_holder (mkSys (unlock_mutex 0 (pool one_holder)) [Releasing "db" 0]) /\
  (spec_step [Holds "db"] [Gone] \/ [Gone] = [Holds "db"]).
Proof.
  split; [exact (step_unlock one_holder 0 "db" 0 eq_refl)|].
  exact (pool_refines_locks one_holder _ one_holder_reachable (step_unlock one_holder 0 "db" 0 eq_refl)).
Defined.
