(* ===== verification/ServiceRestart.v ===== *)
(** * Crash restarts

    [internal/servicerestart/manager.go]: a monitor per published container
    waits for its exit; an unexpected exit is cleaned up and the deployment is
    restored after a growing delay.  The manager sees the deployment
    controller only through an interface of two methods, the class
    [Restartable]; the deployment controller of [Controller.v] is its
    instance. *)

From S2P Require Import Prelude Effects Names Admission ServiceConfig DeploymentStore Runtime Controller ControllerProofs.

Definition defaultBackoff : list Z :=
  [second; 2 * second; 4 * second; 8 * second; 16 * second; 30 * second].

(** The methods of [servicerestart.Controller]; [None] is a call that never
    returns. *)
Class Restartable (W : Type) := {
  prepareUnexpectedExit : string -> string -> string -> W -> option ((bool * option goerr) * W);
  restoreCurrent : string -> string -> W -> option (result goerr bool * W)
}.

(** What a monitor's goroutine asks of its surroundings, oldest call last. *)
Inductive RestartCall :=
| RNow | RSleep (delay : Z) | RContext | RWait (containerID : string) | RPrepare | RRestore.

(** [mo_id] names the monitor's cancel function. *)
Record monitor := mkMonitor {
  mo_deploymentID : string; mo_containerID : string; mo_startedAt : Z; mo_id : nat
}.

Record crashState := mkCrash { cr_deploymentID : string; cr_attempts : Z }.

(** The answers, and what the rest of the program does meanwhile: other
    goroutines publish, withdraw, handle exits and close ([r_manager]), and
    operate on the services ([r_target]). *)
Class RestartEnv (Manager W : Type) := {
  r_now : list RestartCall -> Z;
  r_sleep : list RestartCall -> option goerr;
  r_context : list RestartCall -> option goerr;
  r_wait : list RestartCall -> option goerr;
  r_manager : list RestartCall -> Manager -> Manager;
  r_target : list RestartCall -> W -> W
}.

Record Config := mkRestartConfig {
  rc_backoff : list Z; rc_stableRuntime : Z; rc_waitRetry : Z
}.

Record Manager := mkRestartManager {
  closed : bool;
  monitors : gmap string monitor;
  crashes : gmap string crashState;
  cancelled : gset nat;           (* monitors whose context was cancelled *)
  next_monitor : nat
}.

(** The constructor with its defaults for zero values. *)
Definition New (config : Config) : result goerr (Config * Manager) :=
  let backoff := match rc_backoff config with [] => defaultBackoff | b => b end in
  if existsb (fun delay => delay <=? 0) backoff
  then Err (Msg "service restart delays must be positive")
  else
    let stableRuntime := if rc_stableRuntime config =? 0 then 5 * minute else rc_stableRuntime config in
    let waitRetry := if rc_waitRetry config =? 0 then second else rc_waitRetry config in
    if (stableRuntime <? 0) || (waitRetry <? 0)
    then Err (Msg "service restart timing must not be negative")
    else Ok (mkRestartConfig backoff stableRuntime waitRetry, mkRestartManager false ∅ ∅ ∅ 0).

Definition set_monitors (m : Manager) (ms : gmap string monitor) : Manager :=
  mkRestartManager (closed m) ms (crashes m) (cancelled m) (next_monitor m).
Definition set_crashes (m : Manager) (cs : gmap string crashState) : Manager :=
  mkRestartManager (closed m) (monitors m) cs (cancelled m) (next_monitor m).
Definition cancel (id : nat) (m : Manager) : Manager :=
  mkRestartManager (closed m) (monitors m) (crashes m) ({[id]} ∪ cancelled m) (next_monitor m).

Definition crash_of (m : Manager) (serviceID : string) : crashState :=
  default (mkCrash "" 0) (crashes m !! serviceID).

(** [Publish]: the started monitor, if one is started. *)
Definition Publish (startedAt : Z) (serviceID deploymentID containerID : string) (m : Manager)
    : Manager * option monitor :=
  if closed m then (m, None)
  else
    let start (m1 : Manager) :=
      let state := crash_of m1 serviceID in
      let m2 := if negb (empty (cr_deploymentID state))
                   && negb (bool_decide (cr_deploymentID state = deploymentID))
                then set_crashes m1 (delete serviceID (crashes m1)) else m1 in
      let entry := mkMonitor deploymentID containerID startedAt (next_monitor m2) in
      (mkRestartManager (closed m2) (<[serviceID := entry]> (monitors m2)) (crashes m2)
         (cancelled m2) (S (next_monitor m2)), Some entry) in
    match monitors m !! serviceID with
    | Some current =>
        if bool_decide (mo_deploymentID current = deploymentID)
           && bool_decide (mo_containerID current = containerID)
        then (m, None)
        else start (cancel (mo_id current) m)
    | None => start m
    end.

Definition Withdraw (serviceID : string) (m : Manager) : Manager :=
  match monitors m !! serviceID with
  | Some current =>
      let m1 := cancel (mo_id current) m in
      set_monitors m1 (delete serviceID (monitors m1))
  | None => m
  end.

Definition Close (m : Manager) : Manager :=
  if closed m then m
  else mkRestartManager true ∅ (crashes m)
         (list_to_set (mo_id ∘ snd <$> map_to_list (monitors m)) ∪ cancelled m) (next_monitor m).

(** The delay before the next attempt, counted per deployment. *)
Definition nextDelay (config : Config) (serviceID deploymentID : string) (m : Manager) : Manager * Z :=
  let state0 := crash_of m serviceID in
  let state := if bool_decide (cr_deploymentID state0 = deploymentID) then state0
               else mkCrash deploymentID 0 in
  let index := Z.min (cr_attempts state) (Z.of_nat (length (rc_backoff config)) - 1) in
  let delay := nth (Z.to_nat index) (rc_backoff config) 0 in
  (set_crashes m (<[serviceID := mkCrash (cr_deploymentID state) (cr_attempts state + 1)]> (crashes m)),
   delay).

Section Restart.
Context {W : Type} `{Restartable W} `{RestartEnv Manager W} (config : Config).

Record RestartWorld := mkRW {
  rw_manager : Manager;
  rw_target : W;
  rw_trace : list RestartCall;
  rw_results : list (string * option goerr)    (* calls of OnResult, newest first *)
}.

Definition report (serviceID : string) (e : option goerr) (w : RestartWorld) : RestartWorld :=
  mkRW (rw_manager w) (rw_target w) (rw_trace w) ((serviceID, e) :: rw_results w).
Definition ask (c : RestartCall) (w : RestartWorld) : RestartWorld :=
  let trace := c :: rw_trace w in
  mkRW (r_manager trace (rw_manager w)) (r_target trace (rw_target w)) trace (rw_results w).
(** A question asked with the manager's mutex held. *)
Definition ask_locked (c : RestartCall) (w : RestartWorld) : RestartWorld :=
  let trace := c :: rw_trace w in
  mkRW (rw_manager w) (r_target trace (rw_target w)) trace (rw_results w).
Definition set_manager (m : Manager) (w : RestartWorld) : RestartWorld :=
  mkRW m (rw_target w) (rw_trace w) (rw_results w).
Definition set_target (t : W) (w : RestartWorld) : RestartWorld :=
  mkRW (rw_manager w) t (rw_trace w) (rw_results w).

(** The restart loop of [handleExit]; [None] when the fuel runs out. *)
Fixpoint restartLoop (fuel : nat) (serviceID deploymentID : string) (w : RestartWorld)
    : option RestartWorld :=
  match fuel with
  | O => None
  | S fuel' =>
      let '(m1, delay) := nextDelay config serviceID deploymentID (rw_manager w) in
      let w1 := ask (RSleep delay) (set_manager m1 w) in
      match r_sleep (rw_trace w1) with
      | Some _ => Some w1
      | None =>
          match restoreCurrent serviceID deploymentID (rw_target w1) with
          | None => None
          | Some (Err e, t) =>
              restartLoop fuel' serviceID deploymentID
                (report serviceID (Some e) (ask RRestore (set_target t w1)))
          | Some (Ok false, t) => Some (ask RRestore (set_target t w1))
          | Some (Ok true, t) => Some (report serviceID None (ask RRestore (set_target t w1)))
          end
      end
  end.

Definition handleExit (fuel : nat) (serviceID : string) (entry : monitor) (w : RestartWorld)
    : option RestartWorld :=
  let m := rw_manager w in
  match monitors m !! serviceID with
  | None => Some w
  | Some current =>
      if closed m || negb (bool_decide (mo_deploymentID current = mo_deploymentID entry))
         || negb (bool_decide (mo_containerID current = mo_containerID entry))
      then Some w
      else
        let m1 := set_monitors m (delete serviceID (monitors m)) in
        let w1 := ask_locked RNow (set_manager m1 w) in
        let stable := rc_stableRuntime config <=? time_sub (r_now (rw_trace w1)) (mo_startedAt entry) in
        let w2 := if stable then set_manager (set_crashes m1 (delete serviceID (crashes m1))) w1
                  else w1 in
        match prepareUnexpectedExit serviceID (mo_deploymentID entry) (mo_containerID entry)
                (rw_target w2) with
        | None => None
        | Some ((prepared, e), t) =>
            let w3 := ask RPrepare (set_target t w2) in
            let w4 := match e with Some e => report serviceID (Some e) w3 | None => w3 end in
            let w5 := ask RContext w4 in
            if negb prepared then Some w4
            else if match r_context (rw_trace w5) with Some _ => true | None => false end
            then Some w5
            else restartLoop fuel serviceID (mo_deploymentID entry) w5
        end
  end.

(** The goroutine of a monitor: wait for the exit, retry failed waits. *)
Fixpoint wait (fuel : nat) (serviceID : string) (entry : monitor) (w : RestartWorld)
    : option RestartWorld :=
  match fuel with
  | O => None
  | S fuel' =>
      let w1 := ask (RWait (mo_containerID entry)) w in
      let exited := r_wait (rw_trace w1) in
      let w2 := ask RContext w1 in
      if match r_context (rw_trace w2) with Some _ => true | None => false end then Some w2
      else match exited with
           | None => handleExit fuel serviceID entry w2
           | Some _ =>
               let w3 := ask (RSleep (rc_waitRetry config)) w2 in
               match r_sleep (rw_trace w3) with
               | Some _ => Some w3
               | None => wait fuel' serviceID entry w3
               end
           end
  end.

(** ** Backoff *)

Definition attempts_of (m : Manager) (serviceID deploymentID : string) : Z :=
  if bool_decide (cr_deploymentID (crash_of m serviceID) = deploymentID)
  then cr_attempts (crash_of m serviceID) else 0.

Definition backoffAt (n : Z) : Z :=
  nth (Z.to_nat (Z.min n (Z.of_nat (length (rc_backoff config)) - 1))) (rc_backoff config) 0.

Lemma nextDelay_spec sid dep m m' d :
  nextDelay config sid dep m = (m', d) ->
  d = backoffAt (attempts_of m sid dep) /\
  attempts_of m' sid dep = attempts_of m sid dep + 1 /\ monitors m' = monitors m.
Proof.
  unfold nextDelay, backoffAt, attempts_of, crash_of. intros [= <- <-]. simpl.
  rewrite !lookup_insert_eq. simpl. case_bool_decide as Hd; simpl;
    by rewrite bool_decide_eq_true_2.
Qed.

(** The delays slept, oldest first. *)
Fixpoint sleeps (trace : list RestartCall) : list Z :=
  match trace with
  | [] => []
  | RSleep d :: rest => sleeps rest ++ [d]
  | _ :: rest => sleeps rest
  end.

(** The other goroutines leave the service's crash count alone. *)
Definition crash_kept (sid : string) : Prop :=
  forall trace m, crashes (r_manager trace m) !! sid = crashes m !! sid.

Lemma ask_attempts sid dep c w : crash_kept sid ->
  attempts_of (rw_manager (ask c w)) sid dep = attempts_of (rw_manager w) sid dep.
Proof. intros Hk. unfold attempts_of, crash_of. simpl. by rewrite Hk. Qed.

(** The delays the loop sleeps are the backoff table from the recorded number
    of attempts on, its last entry repeated. *)
Definition slept (sid dep : string) (w w' : RestartWorld) : Prop :=
  exists n, (0 < n)%nat /\
    sleeps (rw_trace w') = sleeps (rw_trace w) ++
      ((fun i => backoffAt (attempts_of (rw_manager w) sid dep + Z.of_nat i)) <$> seq 0 n) /\
    attempts_of (rw_manager w') sid dep = attempts_of (rw_manager w) sid dep + Z.of_nat n.

Lemma restartLoop_delays fuel sid dep w w' :
  crash_kept sid -> restartLoop fuel sid dep w = Some w' -> slept sid dep w w'.
Proof.
  intros Hk. revert w. induction fuel as [|fuel IH]; intros w; cbn [restartLoop]; [done|].
  destruct (nextDelay config sid dep (rw_manager w)) as [m1 d] eqn:Hd.
  apply nextDelay_spec in Hd as (-> & Ha & _).
  set (w1 := ask _ (set_manager m1 w)).
  assert (Ha1 : attempts_of (rw_manager w1) sid dep = attempts_of (rw_manager w) sid dep + 1)
    by (rewrite <- Ha; apply (ask_attempts sid dep), Hk).
  assert (Hone : forall w2, sleeps (rw_trace w2) = sleeps (rw_trace w1) ->
            attempts_of (rw_manager w2) sid dep = attempts_of (rw_manager w1) sid dep -> slept sid dep w w2).
  { intros w2 Ht Hm. exists 1%nat. split; [lia|]. rewrite Hm, Ht, Ha1. simpl.
    split; [by rewrite Z.add_0_r|lia]. }
  assert (Hafter : forall t, attempts_of (rw_manager (ask RRestore (set_target t w1))) sid dep
                   = attempts_of (rw_manager w1) sid dep) by (intros t; exact (ask_attempts sid dep RRestore (set_target t w1) Hk)).
  destruct (r_sleep _); [intros [= <-]; by apply Hone|].
  destruct (restoreCurrent _ _ _) as [[[[]|e] t]|]; [intros [= <-]; apply Hone; [done|apply Hafter]..| |done].
  intros (n & Hn & Ht & Hat)%IH. exists (S n). split; [lia|].
  change (rw_manager (report _ _ ?x)) with (rw_manager x) in *.
  rewrite Hafter, Ha1 in Ht, Hat. split; [|lia]. rewrite Ht. simpl.
  rewrite <- fmap_S_seq, <- list_fmap_compose, <- app_assoc. simpl. rewrite Z.add_0_r. do 2 f_equal.
  apply list_fmap_ext. intros i x _. simpl. f_equal. lia.
Qed.

(** ** What the methods of the controller preserve, the manager preserves *)

Class Preserving (I : W -> Prop) (serviceID : string) : Prop := {
  pres_prepare : forall d c w r w',
    prepareUnexpectedExit serviceID d c w = Some (r, w') -> I w -> I w';
  pres_restore : forall e w r w', restoreCurrent serviceID e w = Some (r, w') -> I w -> I w';
  pres_target : forall trace w, I w -> I (r_target trace w)
}.

Lemma restartLoop_preserves I sid `{!Preserving I sid} fuel dep w w' :
  restartLoop fuel sid dep w = Some w' -> I (rw_target w) -> I (rw_target w').
Proof.
  revert w. induction fuel as [|fuel IH]; intros w; cbn [restartLoop]; [done|].
  destruct (nextDelay config sid dep (rw_manager w)) as [m1 d]. simpl.
  destruct (r_sleep _); [intros [= <-]; apply pres_target|].
  destruct (restoreCurrent _ _ _) as [[[[]|e] t]|] eqn:Hr; [..|done];
    intros Hrun Hi; assert (Hr' := pres_restore _ _ _ _ Hr); clear Hr; rename Hr' into Hr.
  - injection Hrun as <-. by apply pres_target, Hr, pres_target.
  - injection Hrun as <-. by apply pres_target, Hr, pres_target.
  - apply IH in Hrun; [done|]. by apply pres_target, Hr, pres_target.
Qed.

Lemma handleExit_preserves I sid `{!Preserving I sid} fuel entry w w' :
  handleExit fuel sid entry w = Some w' -> I (rw_target w) -> I (rw_target w').
Proof.
  unfold handleExit. intros Hrun Hi. destruct (monitors _ !! sid) as [current|]; [|by injection Hrun as <-].
  destruct (closed _ || _ || _); [by injection Hrun as <-|].
  match type of Hrun with context [prepareUnexpectedExit ?a ?b ?c ?d] =>
    destruct (prepareUnexpectedExit a b c d) as [[[prepared e] t]|] eqn:Hp end; [|done].
  apply pres_prepare in Hp; [|destruct (_ <=? _); by repeat apply pres_target].
  destruct (negb prepared); [injection Hrun as <-; destruct e; by repeat apply pres_target|].
  destruct (match r_context _ with Some _ => true | None => false end);
    [injection Hrun as <-; destruct e; by repeat apply pres_target|].
  apply (restartLoop_preserves I) in Hrun; [done..|]. destruct e; by repeat apply pres_target.
Qed.

End Restart.

(** ** The deployment controller as the restart manager's controller *)

Definition controller_restartable `{HostnameTables} `{ConfigTables} `{Env}
    (config : Runtime.Config) (fuel : nat) : Restartable World := {|
  prepareUnexpectedExit := fun s d c w => PrepareUnexpectedExit s d c w;
  restoreCurrent := fun s e w => RestoreCurrent config fuel s e w
|}.

(** Crash handling keeps the runtime on the deployment the database calls
    active, as far as what runs beside it does. *)
Lemma controller_preserving `{HostnameTables} `{ConfigTables} `{Env} `{RestartEnv Manager World}
    config fuel sid `{!Guarded True sid} :
  (forall trace w, intact sid w -> intact sid (r_target trace w)) ->
  @Preserving World (controller_restartable config fuel) _ (intact sid) sid.
Proof.
  intros Hothers. split; [| |done].
  - intros d c w r w' Hr. apply (operation_intact config sid (OExit d c)); [done..|].
    simpl. simpl in Hr. by rewrite Hr.
  - intros e w r w' Hr. apply (operation_intact config sid (ORestoreCurrent fuel e)); [done..|].
    simpl. simpl in Hr. by rewrite Hr.
Qed.

(** ** Theorems *)

Definition demo_restart_env (W : Type) : RestartEnv Manager W := {|
  r_now := fun _ => 100; r_sleep := fun _ => None; r_context := fun _ => None; r_wait := fun _ => None;
  r_manager := fun _ m => m; r_target := fun _ t => t
|}.
Definition demo_restart_config : Config := mkRestartConfig defaultBackoff (5 * minute) second.
Definition demo_monitor : monitor := mkMonitor "d0" "c0" 50 0.
Definition crashed_world : World :=
  mkWorld (set_deployments (insert "d0" (mkDeploymentRow "svc" "sha256:bb"
             "docker.io/library/nginx:1" None None None "hash"
             (@json_Marshal ServiceConfig.demo_config demo_snapshot) "succeeded" None None 10 (Some 11)))
             ctl_db)
    {["svc" := old_active]} Admission.New [].
Definition demo_restart_world : @RestartWorld World :=
  mkRW (mkRestartManager false {["svc" := demo_monitor]} ∅ ∅ 1) crashed_world [] [].

Definition demo_exit : option (@RestartWorld World) :=
  @handleExit World
    (@controller_restartable demo_hostnames ServiceConfig.demo_config demo_env demo_cfg 5)
    (demo_restart_env World) demo_restart_config 3 "svc" demo_monitor demo_restart_world.

(** The crash was cleaned up and the deployment restored in a new container. *)
Lemma demo_exit_returns :
  option_map (fun w => ct_ID ∘ ac_container <$> w_active (rw_target w) !! "svc") demo_exit
  = Some (Some "c1").
Proof. vm_compute. reflexivity. Qed.

Lemma New_backoff c0 config m0 :
  New c0 = Ok (config, m0) -> rc_backoff config <> [] /\ Forall (fun d => 0 < d) (rc_backoff config).
Proof.
  unfold New. set (b := match rc_backoff c0 with [] => _ | _ => _ end). intros HN.
  destruct (existsb _ b) eqn:He; [done|].
  destruct ((_ <? 0) || _); [done|]. injection HN as <- <-. simpl. split.
  - subst b. by destruct (rc_backoff c0).
  - apply Forall_forall. intros d Hd. apply not_true_iff_false in He.
    destruct (Z.ltb_spec 0 d); [done|]. exfalso. apply He.
    apply existsb_exists. exists d. split; [by apply list_elem_of_In|lia].
Qed.

(** Restart delays.  With a manager the constructor accepts, and while no other
    goroutine touches the service's crash count, the restart loop sleeps the
    positive delays of the backoff table in order, from the number of attempts
    recorded for the deployment on, its last entry repeated, and records the
    attempts it made. *)
Theorem restart_delays {W} `{Restartable W} `{RestartEnv Manager W} config0 config m0 fuel sid dep
    (w w' : @RestartWorld W)
    (Hnew : New config0 = Ok (config, m0)) (Hcrash : crash_kept sid)
    (Hrun : restartLoop config fuel sid dep w = Some w') :
  slept config sid dep w w' /\ (forall i, 0 < backoffAt config i).
Proof.
  split; [by eapply restartLoop_delays|].
  intros i. destruct (New_backoff _ _ _ Hnew) as [Hne Hpos]. unfold backoffAt.
  rewrite Forall_forall in Hpos. apply Hpos, list_elem_of_In, nth_In.
  destruct (rc_backoff config); [done|]. simpl. lia.
Qed.

(** A controller that restores at the second attempt. *)
Definition flaky : Restartable nat := {|
  prepareUnexpectedExit := fun _ _ _ n => Some ((true, None), n);
  restoreCurrent := fun _ _ n => match n with
                                 | O => Some (Err (Msg "not yet"), 1%nat)
                                 | _ => Some (Ok true, n) end
|}.

Definition flaky_world : @RestartWorld nat :=
  mkRW (mkRestartManager false ∅ ∅ ∅ 0) 0%nat [] [].

Lemma restart_delays_witness :
  exists w', @restartLoop nat flaky (demo_restart_env nat) demo_restart_config 5 "svc" "d0" flaky_world
             = Some w' /\
    sleeps (rw_trace w') = [second; 2 * second] /\
    forall i, 0 < backoffAt demo_restart_config i.
Proof.
  eexists. split; [reflexivity|]. split; [reflexivity|].
  refine (proj2 (@restart_delays nat flaky (demo_restart_env nat) demo_restart_config demo_restart_config
              (mkRestartManager false ∅ ∅ ∅ 0) 5 "svc" "d0" flaky_world _ eq_refl _ eq_refl)).
  intros trace m. reflexivity.
Defined.

(** A superseded container is not restarted.  When another container is
    published for a service, the old monitor's context is cancelled, the new
    monitor takes its place, the crash count is dropped iff the deployment
    changed, and should the old container's exit still be reported, it changes
    nothing and no controller method is called. *)
Theorem superseded_exit_ignored {W} `{Restartable W} `{RestartEnv Manager W} config fuel startedAt sid dep c
    (w : @RestartWorld W) old m'  entry
    (Hopen : closed (rw_manager w) = false)
    (Hold : monitors (rw_manager w) !! sid = Some old)
    (Hother : mo_deploymentID old <> dep \/ mo_containerID old <> c)
    (Hpublish : Publish startedAt sid dep c (rw_manager w) = (m', Some entry)) :
  mo_id old ∈ cancelled m' /\ monitors m' !! sid = Some entry /\
  crash_of m' sid =
    (if empty (cr_deploymentID (crash_of (rw_manager w) sid))
        || bool_decide (cr_deploymentID (crash_of (rw_manager w) sid) = dep)
     then crash_of (rw_manager w) sid else mkCrash "" 0) /\
  handleExit config fuel sid old (set_manager m' w) = Some (set_manager m' w).
Proof.
  unfold Publish in Hpublish. rewrite Hopen, Hold in Hpublish.
  assert (bool_decide (mo_deploymentID old = dep) && bool_decide (mo_containerID old = c) = false) as Hb.
  { apply andb_false_iff. rewrite !bool_decide_eq_false. tauto. }
  rewrite Hb in Hpublish. change (crash_of (cancel _ _) sid) with (crash_of (rw_manager w) sid) in Hpublish.
  assert (Hin : mo_id old ∈ {[mo_id old]} ∪ cancelled (rw_manager w)) by set_solver.
  assert (Hexit : forall m2 e, monitors m2 !! sid = Some e -> mo_deploymentID e = dep ->
            mo_containerID e = c ->
            handleExit config fuel sid old (set_manager m2 w) = Some (set_manager m2 w)).
  { intros m2 e He Hd Hc. unfold handleExit; simpl. rewrite He, Hd, Hc.
    destruct (bool_decide (dep = mo_deploymentID old)) eqn:E1; [|by rewrite orb_true_r].
    destruct (bool_decide (c = mo_containerID old)) eqn:E2; [|by rewrite !orb_true_r].
    btrue. subst. destruct Hother; done. }
  destruct (empty (cr_deploymentID (crash_of (rw_manager w) sid)));
    destruct (bool_decide (cr_deploymentID (crash_of (rw_manager w) sid) = dep));
    simpl in *; injection Hpublish as <- <-; simpl;
    (split_and!; [done|by rewrite lookup_insert_eq| |by eapply Hexit; [apply lookup_insert_eq|..]]);
    unfold crash_of; simpl; rewrite ?lookup_delete_eq; done.
Qed.

Lemma superseded_exit_ignored_witness :
  exists m' entry,
    Publish 7 "svc" "d1" "c1" (rw_manager demo_restart_world) = (m', Some entry) /\
    0%nat ∈ cancelled m'.
Proof.
  eexists _, _. split; [reflexivity|].
  apply (@superseded_exit_ignored World
           (@controller_restartable demo_hostnames ServiceConfig.demo_config demo_env demo_cfg 5)
           (demo_restart_env World) demo_restart_config 3 7 "svc" "d1" "c1" demo_restart_world demo_monitor _
           (mkMonitor "d1" "c1" 7 1)); try reflexivity. left. discriminate.
Defined.
