(* ===== verification/Civil.v ===== *)
(** * Civil time

    The parts of Go's [time] package that the schedules use, in UTC: the
    proleptic Gregorian calendar over instants counted in nanoseconds from
    0001-01-01T00:00:00Z.  A month is identified by its index, twelve times
    the year plus the zero-based month, which makes [time.Date]'s
    normalisation of month overflow plain arithmetic. *)

From S2P Require Import Prelude.

Definition day : Z := 24 * hour.

Definition is_leap (y : Z) : bool :=
  (y mod 4 =? 0) && (negb (y mod 100 =? 0) || (y mod 400 =? 0)).

(** Days from 0001-01-01 to January 1st of year [y]. *)
Definition year_start (y : Z) : Z :=
  365 * (y - 1) + (y - 1) / 4 - (y - 1) / 100 + (y - 1) / 400.

(** Days before month [m] (0 to 11) in a common year. *)
Definition days_before (m : Z) : Z :=
  match m with
  | 0 => 0 | 1 => 31 | 2 => 59 | 3 => 90 | 4 => 120 | 5 => 151
  | 6 => 181 | 7 => 212 | 8 => 243 | 9 => 273 | 10 => 304 | _ => 334
  end.

(** Days from 0001-01-01 to the first day of the month with index [k]. *)
Definition month_start (k : Z) : Z :=
  let y := k / 12 in
  let m := k mod 12 in
  year_start y + days_before m + (if (2 <=? m) && is_leap y then 1 else 0).

(** The year and the zero-based day of the year of day [d]. *)
Definition year_yday (d : Z) : Z * Z :=
  let n400 := d / 146097 in
  let r := d mod 146097 in
  let n100 := Z.min 3 (r / 36524) in
  let r := r - n100 * 36524 in
  let n4 := r / 1461 in
  let r := r mod 1461 in
  let n1 := Z.min 3 (r / 365) in
  (400 * n400 + 100 * n100 + 4 * n4 + n1 + 1, r - n1 * 365).

(** The zero-based month of day [yday] of year [y]. *)
Definition yday_month (y yday : Z) : Z :=
  let l := if is_leap y then 1 else 0 in
  if yday <? 31 then 0
  else if yday <? 59 + l then 1
  else if yday <? 90 + l then 2
  else if yday <? 120 + l then 3
  else if yday <? 151 + l then 4
  else if yday <? 181 + l then 5
  else if yday <? 212 + l then 6
  else if yday <? 243 + l then 7
  else if yday <? 273 + l then 8
  else if yday <? 304 + l then 9
  else if yday <? 334 + l then 10
  else 11.

(** The index of the month of day [d]. *)
Definition month_index (d : Z) : Z :=
  let '(y, yday) := year_yday d in 12 * y + yday_month y yday.

(** ** Go's accessors *)

Definition days_of (t : Z) : Z := t / day.
Definition Year (t : Z) : Z := month_index (days_of t) / 12.
Definition Month (t : Z) : Z := month_index (days_of t) mod 12 + 1.
Definition Day (t : Z) : Z := days_of t - month_start (month_index (days_of t)) + 1.
Definition Hour (t : Z) : Z := (t mod day) / hour.
Definition Minute (t : Z) : Z := (t mod hour) / minute.
(** 0001-01-01 was a Monday; Sunday is 0. *)
Definition Weekday (t : Z) : Z := (days_of t + 1) mod 7.

(** [time.Date] with zero seconds: month, day, hour and minute may be out of
    range and are normalised. *)
Definition Date (y m d h mi : Z) : Z :=
  (month_start (12 * y + (m - 1)) + (d - 1)) * day + h * hour + mi * minute.

(** [Time.Truncate(time.Minute)] *)
Definition TruncateMinute (t : Z) : Z := t - t mod minute.

(** [Time.AddDate(years, 0, 0)] of a minute-aligned instant. *)
Definition AddYears (t years : Z) : Z :=
  Date (Year t + years) (Month t) (Day t) (Hour t) (Minute t).

(** ** The calendar is consistent *)

(** The quotient steps by one exactly at the multiples. *)
Lemma div_step y n : 0 < n -> y / n = (y - 1) / n + (if y mod n =? 0 then 1 else 0).
Proof.
  intros Hn. pose proof (Z.div_mod y n ltac:(lia)). pose proof (Z.mod_pos_bound y n Hn).
  symmetry. destruct (Z.eqb_spec (y mod n) 0).
  - rewrite <- (Z.div_unique (y - 1) n (y / n - 1) (n - 1)); lia.
  - rewrite <- (Z.div_unique (y - 1) n (y / n) (y mod n - 1)); lia.
Qed.

Lemma mod_of_multiple y n k : 0 < n -> 0 < k -> y mod (n * k) = 0 -> y mod n = 0.
Proof.
  intros Hn Hk Hm. apply Z.mod_divide in Hm as [q ->]; [|lia].
  apply Z.mod_divide; [lia|]. exists (q * k). lia.
Qed.

Lemma year_start_succ y : year_start (y + 1) = year_start y + 365 + (if is_leap y then 1 else 0).
Proof.
  unfold year_start, is_leap. replace (y + 1 - 1) with y by lia.
  rewrite (div_step y 4), (div_step y 100), (div_step y 400) by lia.
  assert (y mod 100 = 0 -> y mod 4 = 0) by (apply (mod_of_multiple y 4 25); lia).
  assert (y mod 400 = 0 -> y mod 100 = 0) by (apply (mod_of_multiple y 100 4); lia).
  destruct (Z.eqb_spec (y mod 4) 0), (Z.eqb_spec (y mod 100) 0), (Z.eqb_spec (y mod 400) 0);
    simpl; lia.
Qed.

(** The year starts at the sum of the cycles before it. *)
Lemma year_start_cycles a b c e :
  0 <= b <= 3 -> 0 <= c <= 24 -> 0 <= e <= 3 ->
  year_start (400 * a + 100 * b + 4 * c + e + 1) = 146097 * a + 36524 * b + 1461 * c + 365 * e.
Proof.
  intros Hb Hc He. unfold year_start.
  replace (400 * a + 100 * b + 4 * c + e + 1 - 1) with (400 * a + 100 * b + 4 * c + e) by lia.
  rewrite <- (Z.div_unique (400 * a + 100 * b + 4 * c + e) 4 (100 * a + 25 * b + c) e) by lia.
  rewrite <- (Z.div_unique (400 * a + 100 * b + 4 * c + e) 100 (4 * a + b) (4 * c + e)) by lia.
  rewrite <- (Z.div_unique (400 * a + 100 * b + 4 * c + e) 400 a (100 * b + 4 * c + e)) by lia.
  lia.
Qed.

Lemma last_year_leap a b c :
  0 <= b <= 3 -> 0 <= c <= 24 -> (c = 24 -> b = 3) -> is_leap (400 * a + 100 * b + 4 * c + 4) = true.
Proof.
  intros Hb Hc Hlast. unfold is_leap.
  assert (Hdiv : forall n q r, 0 <= r < n -> 400 * a + 100 * b + 4 * c + 4 = n * q + r ->
            (400 * a + 100 * b + 4 * c + 4) mod n = r)
    by (intros n q r Hr He; symmetry; by apply (Z.mod_unique_pos _ _ q)).
  rewrite (Hdiv 4 (100 * a + 25 * b + c + 1) 0) by lia. simpl.
  destruct (Z.eq_dec c 24) as [->|].
  - rewrite (Hdiv 400 (a + 1) 0) by lia. apply orb_true_r.
  - rewrite (Hdiv 100 (4 * a + b) (4 * c + 4)) by lia.
    rewrite (proj2 (Z.eqb_neq _ _)) by lia. done.
Qed.

Lemma year_yday_spec d y yd :
  year_yday d = (y, yd) ->
  d = year_start y + yd /\ 0 <= yd < 365 + (if is_leap y then 1 else 0).
Proof.
  unfold year_yday. set (a := d / 146097). set (r := d mod 146097).
  assert (Hd : d = 146097 * a + r) by (apply Z.div_mod; lia).
  assert (Hr : 0 <= r < 146097) by (apply Z.mod_pos_bound; lia).
  pose proof (Z.div_mod r 36524 ltac:(lia)) as Hb. pose proof (Z.mod_pos_bound r 36524 ltac:(lia)).
  set (b := Z.min 3 (r / 36524)). set (r1 := r - b * 36524).
  assert (Hb3 : 0 <= b <= 3 /\ 0 <= r1 <= 36524 /\ (r1 = 36524 -> b = 3)) by lia.
  pose proof (Z.div_mod r1 1461 ltac:(lia)) as Hc. pose proof (Z.mod_pos_bound r1 1461 ltac:(lia)).
  set (c := r1 / 1461) in *. set (r2 := r1 mod 1461) in *.
  assert (Hc24 : 0 <= c <= 24) by lia.
  pose proof (Z.div_mod r2 365 ltac:(lia)) as He. pose proof (Z.mod_pos_bound r2 365 ltac:(lia)).
  set (e := Z.min 3 (r2 / 365)).
  assert (He3 : 0 <= e <= 3) by lia.
  intros [= <- <-]. rewrite year_start_cycles by lia. split; [lia|]. split; [lia|].
  destruct (Z.eq_dec (r2 - e * 365) 365) as [Hlast|]; [|destruct (is_leap _); lia].
  assert (e = 3) as -> by lia.
  replace (400 * a + 100 * b + 4 * c + 3 + 1) with (400 * a + 100 * b + 4 * c + 4) by lia.
  rewrite last_year_leap; lia.
Qed.

Lemma month_start_eq y m :
  0 <= m <= 11 ->
  month_start (12 * y + m) =
  year_start y + days_before m + (if (2 <=? m) && is_leap y then 1 else 0).
Proof.
  intros Hm. unfold month_start.
  rewrite <- (Z.div_unique (12 * y + m) 12 y m) by lia.
  rewrite <- (Z.mod_unique (12 * y + m) 12 y m) by lia. done.
Qed.

Lemma month_start_next_year y : month_start (12 * y + 12) = year_start y + 365 + (if is_leap y then 1 else 0).
Proof.
  replace (12 * y + 12) with (12 * (y + 1) + 0) by lia. rewrite month_start_eq by lia.
  rewrite year_start_succ. simpl. lia.
Qed.

Lemma month_index_spec d : month_start (month_index d) <= d < month_start (month_index d + 1).
Proof.
  unfold month_index. destruct (year_yday d) as [y yd] eqn:E.
  apply year_yday_spec in E as [-> Hyd].
  unfold yday_month. destruct (is_leap y) eqn:Hl;
    repeat (match goal with |- context [yd <? ?n] => destruct (Z.ltb_spec yd n) end;
      [rewrite <- Z.add_assoc, !month_start_eq by lia; rewrite ?Hl; simpl; lia|]);
    rewrite <- Z.add_assoc, month_start_next_year, month_start_eq by lia; rewrite Hl; simpl; lia.
Qed.

Lemma month_start_step k : month_start k + 28 <= month_start (k + 1).
Proof.
  pose proof (Z.div_mod k 12 ltac:(lia)) as Hk. pose proof (Z.mod_pos_bound k 12 ltac:(lia)) as Hm.
  rewrite Hk. generalize dependent (k mod 12). intros m _ Hm. set (y := k / 12).
  rewrite <- Z.add_assoc.
  assert (m = 0 \/ m = 1 \/ m = 2 \/ m = 3 \/ m = 4 \/ m = 5 \/ m = 6 \/ m = 7 \/ m = 8 \/
          m = 9 \/ m = 10 \/ m = 11) as Hcases by lia.
  repeat (destruct Hcases as [->|Hcases]; [rewrite !month_start_eq by lia; destruct (is_leap y); simpl; lia|]).
  subst m. change (11 + 1) with 12. rewrite month_start_next_year, month_start_eq by lia.
  destruct (is_leap y); simpl; lia.
Qed.

Lemma month_start_mono k k' : k <= k' -> month_start k + 28 * (k' - k) <= month_start k'.
Proof.
  intros Hk. replace k' with (k + Z.of_nat (Z.to_nat (k' - k))) by lia.
  induction (Z.to_nat (k' - k)) as [|n IH]; [rewrite Z.add_0_r; lia|].
  pose proof (month_start_step (k + Z.of_nat n)).
  replace (k + Z.of_nat (S n)) with (k + Z.of_nat n + 1) by lia. lia.
Qed.

Lemma month_start_inv k k' : month_start k < month_start k' -> k < k'.
Proof. intros Hlt. destruct (Z.lt_ge_cases k k') as [|Hge]; [done|]. apply month_start_mono in Hge. lia. Qed.

(** A day is before a month iff its own month is. *)
Lemma before_month d k : d < month_start k <-> month_index d < k.
Proof.
  pose proof (month_index_spec d). split; intros Hlt.
  - apply month_start_inv. lia.
  - pose proof (month_start_mono (month_index d + 1) k). lia.
Qed.

Lemma month_index_start k : month_index (month_start k) = k.
Proof.
  pose proof (before_month (month_start k) k). pose proof (before_month (month_start k) (k + 1)).
  pose proof (month_start_step k). lia.
Qed.

Lemma month_index_mono d d' : d <= d' -> month_index d <= month_index d'.
Proof.
  intros Hd. pose proof (before_month d (month_index d' + 1)).
  pose proof (month_index_spec d'). lia.
Qed.

(** ** Instants in minutes, hours and days *)

Lemma minute_split t : t / minute = 60 * (t / hour) + Minute t /\ 0 <= Minute t < 60.
Proof.
  unfold Minute, hour, minute, second. change (60 * 1000000000) with 60000000000.
  change (60 * 60000000000) with 3600000000000.
  pose proof (Z.div_mod t 3600000000000 ltac:(lia)) as H1.
  pose proof (Z.mod_pos_bound t 3600000000000 ltac:(lia)) as H2.
  set (r := t mod 3600000000000) in *. set (q := t / 3600000000000) in *.
  pose proof (Z.div_mod r 60000000000 ltac:(lia)) as H3.
  pose proof (Z.mod_pos_bound r 60000000000 ltac:(lia)) as H4.
  set (m := r / 60000000000) in *. split; [|lia].
  symmetry. apply (Z.div_unique_pos _ _ _ (r mod 60000000000)); lia.
Qed.

Lemma hour_split t : t / hour = 24 * days_of t + Hour t /\ 0 <= Hour t < 24.
Proof.
  unfold days_of, Hour, day, hour, minute, second. change (60 * (60 * 1000000000)) with 3600000000000.
  change (24 * 3600000000000) with 86400000000000.
  pose proof (Z.div_mod t 86400000000000 ltac:(lia)) as H1.
  pose proof (Z.mod_pos_bound t 86400000000000 ltac:(lia)) as H2.
  set (r := t mod 86400000000000) in *. set (q := t / 86400000000000) in *.
  pose proof (Z.div_mod r 3600000000000 ltac:(lia)) as H3.
  pose proof (Z.mod_pos_bound r 3600000000000 ltac:(lia)) as H4.
  set (h := r / 3600000000000) in *. split; [|lia].
  symmetry. apply (Z.div_unique_pos _ _ _ (r mod 3600000000000)); lia.
Qed.

(** The index of the minute of an instant determines its fields. *)
Lemma minute_index t :
  t / minute = 1440 * days_of t + 60 * Hour t + Minute t /\ 0 <= Hour t < 24 /\ 0 <= Minute t < 60.
Proof. pose proof (minute_split t). pose proof (hour_split t). lia. Qed.

Lemma Date_minutes y m d h mi :
  Date y m d h mi = ((month_start (12 * y + (m - 1)) + (d - 1)) * 1440 + h * 60 + mi) * minute.
Proof. unfold Date, day, hour. lia. Qed.

Lemma Date_day t d h mi :
  Date (Year t) (Month t) d h mi = ((days_of t + d - Day t) * 1440 + h * 60 + mi) * minute.
Proof.
  rewrite Date_minutes. unfold Year, Month, Day.
  replace (12 * (month_index (days_of t) / 12) + (month_index (days_of t) mod 12 + 1 - 1))
    with (month_index (days_of t)); [do 3 f_equal; lia|].
  pose proof (Z.div_mod (month_index (days_of t)) 12). lia.
Qed.

Lemma month_fields t :
  month_index (days_of t) = 12 * Year t + (Month t - 1) /\ 1 <= Month t <= 12.
Proof.
  unfold Year, Month. pose proof (Z.div_mod (month_index (days_of t)) 12 ltac:(lia)).
  pose proof (Z.mod_pos_bound (month_index (days_of t)) 12 ltac:(lia)). lia.
Qed.

Lemma minute_positive : 0 < minute.
Proof. reflexivity. Qed.

Lemma aligned_div t : t mod minute = 0 <-> t = t / minute * minute.
Proof.
  pose proof (Z.div_mod t minute ltac:(discriminate)). pose proof minute_positive. lia.
Qed.
