(* ===== verification/Cron.v ===== *)
(** * Backup schedules

    [internal/backupcron/schedule.go]: five-field cron expressions as bit
    sets, and the search for the next and the previous occurrence, which skips
    whole months, days and hours and gives up after eight years. *)

From S2P Require Import Prelude Names Civil.
From Stdlib Require Import Ascii.

Definition searchYears : Z := 8.

(** [bits] is a uint64. *)
Record field := mkField { bits : Z; minimum : Z; maximum : Z; wildcard : bool }.

Record Schedule := mkSchedule {
  s_minute : field; s_hour : field; s_dayOfMonth : field; s_month : field; s_dayOfWeek : field
}.

(** ** Parsing *)

(** [strings.Fields] *)
Fixpoint fields_with (fuel : nat) (token s : string) : list string :=
  let flush := if empty token then [] else [String.rev token] in
  match fuel, s with
  | O, _ | _, EmptyString => flush
  | S f, String c s' =>
      match strip_first space_seqs s with
      | Some rest => flush ++ fields_with f "" rest
      | None => fields_with f (String c token) s'
      end
  end.
Definition Fields (s : string) : list string := fields_with (S (String.length s)) "" s.

(** Digits only, and [strconv.Atoi]; a number too large for an int is above
    every maximum. *)
Definition parseNumber (value : string) (minimum maximum : Z) : result goerr Z :=
  if empty value then Err (Msg "number is empty")
  else if negb (str_forall is_digit value) then Err (Msg "only numeric values are supported")
  else let number := dec_value 0 value in
       if (number <? minimum) || (maximum <? number) then Err (Msg "value must be in range")
       else Ok number.

Definition contains_byte (c : ascii) (s : string) : bool := snd (cut c s).

Definition parseBase (value : string) (minimum maximum : Z) (stepped : bool)
    : result goerr (Z * Z) :=
  if bool_decide (value = "*") then Ok (minimum, maximum)
  else
    let '(low, high, rangeFound) := cut "-"%char value in
    if rangeFound : bool
    then if empty low || empty high || contains_byte "-"%char high
         then Err (Msg "range is malformed")
         else
           match parseNumber low minimum maximum with
           | Err e => Err (Wrap "range start" e)
           | Ok start =>
               match parseNumber high minimum maximum with
               | Err e => Err (Wrap "range end" e)
               | Ok stop =>
                   if stop <? start then Err (Msg "range start exceeds end") else Ok (start, stop)
               end
           end
    else
      let? start := parseNumber value minimum maximum in
      if stepped then Ok (start, maximum) else Ok (start, start).

(** [for current := start; current <= end; current += step] *)
Fixpoint setBits (fuel : nat) (current stop step minimum bits : Z) : Z :=
  match fuel with
  | O => bits
  | S f => if current <=? stop
           then setBits f (current + step) stop step minimum
                  (u64 (Z.lor bits (Z.shiftl 1 (current - minimum))))
           else bits
  end.

Definition parseItem (minimum maximum : Z) (bits : Z) (item : string) : result goerr Z :=
  if empty item then Err (Msg "list contains an empty item")
  else
    let '(base, stepText, hasStep) := cut "/"%char item in
    if (hasStep : bool) && (empty stepText || contains_byte "/"%char stepText)
    then Err (Msg "step is malformed")
    else
      match (if hasStep then parseNumber stepText 1 (maximum - minimum + 1) else Ok 1) with
      | Err e => Err (Wrap "step" e)
      | Ok step =>
          let? bounds := parseBase base minimum maximum hasStep in
          let '(start, stop) := bounds in
          Ok (setBits (Z.to_nat (stop - start + 1)) start stop step minimum bits)
      end.

Fixpoint parseItems (minimum maximum : Z) (bits : Z) (items : list string) : result goerr Z :=
  match items with
  | [] => Ok bits
  | item :: rest =>
      let? bits' := parseItem minimum maximum bits item in
      parseItems minimum maximum bits' rest
  end.

Definition parseField (value : string) (minimum maximum : Z) : result goerr field :=
  if empty value then Err (Msg "field is empty")
  else
    let? bits := parseItems minimum maximum 0 (split ","%char value) in
    if bits =? 0 then Err (Msg "field selects no values")
    else Ok (mkField bits minimum maximum (bool_decide (value = "*"))).

Definition parseNth (index : string) (value : string) (minimum maximum : Z) : result goerr field :=
  match parseField value minimum maximum with
  | Ok f => Ok f
  | Err e => Err (Wrap ("backup cron field " +:+ index) e)
  end.

Definition Parse (value : string) : result goerr Schedule :=
  match Fields value with
  | [p1; p2; p3; p4; p5] =>
      let? f1 := parseNth "1" p1 0 59 in
      let? f2 := parseNth "2" p2 0 23 in
      let? f3 := parseNth "3" p3 1 31 in
      let? f4 := parseNth "4" p4 1 12 in
      let? f5 := parseNth "5" p5 0 6 in
      Ok (mkSchedule f1 f2 f3 f4 f5)
  | _ => Err (Msg "backup cron must contain exactly five space-separated fields")
  end.

Definition Canonical (value : string) : result goerr string :=
  let? _ := Parse value in Ok (join " " (Fields value)).

(** ** Fields *)

Definition contains (f : field) (number : Z) : bool :=
  if (number <? minimum f) || (maximum f <? number) then false
  else negb (Z.land (bits f) (u64 (Z.shiftl 1 (number - minimum f))) =? 0).

(** The selected value after [current], or the first one with the wrap flag;
    [None] is the panic on a field that selects nothing. *)
Definition next (f : field) (current : Z) : option (Z * bool) :=
  match find (contains f) (seqZ (current + 1) (maximum f - current)) with
  | Some candidate => Some (candidate, false)
  | None =>
      match find (contains f) (seqZ (minimum f) (current - minimum f + 1)) with
      | Some candidate => Some (candidate, true)
      | None => None
      end
  end.

Definition previous (f : field) (current : Z) : option (Z * bool) :=
  match find (contains f) (reverse (seqZ (minimum f) (current - minimum f))) with
  | Some candidate => Some (candidate, false)
  | None =>
      match find (contains f) (reverse (seqZ current (maximum f - current + 1))) with
      | Some candidate => Some (candidate, true)
      | None => None
      end
  end.

(** ** Matching *)

Definition matchesDay (s : Schedule) (t : Z) : bool :=
  let dayOfMonth := contains (s_dayOfMonth s) (Day t) in
  let dayOfWeek := contains (s_dayOfWeek s) (Weekday t) in
  if wildcard (s_dayOfMonth s) && wildcard (s_dayOfWeek s) then true
  else if wildcard (s_dayOfMonth s) then dayOfWeek
  else if wildcard (s_dayOfWeek s) then dayOfMonth
  else dayOfMonth || dayOfWeek.

Definition Matches (s : Schedule) (t : Z) : bool :=
  if negb (t mod minute =? 0) then false
  else if negb (contains (s_minute s) (Minute t)) || negb (contains (s_hour s) (Hour t))
          || negb (contains (s_month s) (Month t)) then false
  else
    let dayOfMonth := contains (s_dayOfMonth s) (Day t) in
    let dayOfWeek := contains (s_dayOfWeek s) (Weekday t) in
    if wildcard (s_dayOfMonth s) && wildcard (s_dayOfWeek s) then true
    else if wildcard (s_dayOfMonth s) then dayOfWeek
    else if wildcard (s_dayOfWeek s) then dayOfMonth
    else dayOfMonth || dayOfWeek.

(** ** Searching *)

(** One pass of a search loop: it returns, goes on from another candidate, or
    panics. *)
Inductive Move := Return (t : Z) | Continue (t : Z) | Panic.

Definition nextMove (s : Schedule) (c : Z) : Move :=
  if negb (contains (s_month s) (Month c))
  then match next (s_month s) (Month c) with
       | None => Panic
       | Some (month, wrapped) =>
           Continue (Date (if wrapped then Year c + 1 else Year c) month 1 0 0)
       end
  else if negb (matchesDay s c) then Continue (Date (Year c) (Month c) (Day c + 1) 0 0)
  else if negb (contains (s_hour s) (Hour c))
  then match next (s_hour s) (Hour c) with
       | None => Panic
       | Some (h, wrapped) =>
           Continue (Date (Year c) (Month c) (if wrapped then Day c + 1 else Day c) h 0)
       end
  else if negb (contains (s_minute s) (Minute c))
  then match next (s_minute s) (Minute c) with
       | None => Panic
       | Some (mi, wrapped) =>
           Continue (Date (Year c) (Month c) (Day c) (if wrapped then Hour c + 1 else Hour c) mi)
       end
  else if Matches s c then Return c
  else Continue (c + minute).

Definition previousMove (s : Schedule) (c : Z) : Move :=
  if negb (contains (s_month s) (Month c))
  then match previous (s_month s) (Month c) with
       | None => Panic
       | Some (month, wrapped) =>
           Continue (Date (if wrapped then Year c - 1 else Year c) (month + 1) 0 23 59)
       end
  else if negb (matchesDay s c) then Continue (Date (Year c) (Month c) (Day c - 1) 23 59)
  else if negb (contains (s_hour s) (Hour c))
  then match previous (s_hour s) (Hour c) with
       | None => Panic
       | Some (h, wrapped) =>
           Continue (Date (Year c) (Month c) (if wrapped then Day c - 1 else Day c) h 59)
       end
  else if negb (contains (s_minute s) (Minute c))
  then match previous (s_minute s) (Minute c) with
       | None => Panic
       | Some (mi, wrapped) =>
           Continue (Date (Year c) (Month c) (Day c) (if wrapped then Hour c - 1 else Hour c) mi)
       end
  else if Matches s c then Return c
  else Continue (c - minute).

Inductive Outcome := Occurs (t : Z) | NoOccurrence | Panicked | OutOfFuel.

Fixpoint search (fuel : nat) (move : Z -> Move) (before : Z -> bool) (c : Z) : Outcome :=
  match fuel with
  | O => OutOfFuel
  | S f => if before c
           then match move c with
                | Return t => Occurs t
                | Continue c' => search f move before c'
                | Panic => Panicked
                end
           else NoOccurrence
  end.

Definition nextStart (after : Z) : Z := TruncateMinute after + minute.
Definition nextDeadline (after : Z) : Z := AddYears (nextStart after) searchYears.

(** Every pass moves by at least a minute, so the minutes up to the deadline
    are enough fuel. *)
Definition Next (s : Schedule) (after : Z) : Outcome :=
  let candidate := nextStart after in
  let deadline := nextDeadline after in
  search (Z.to_nat ((deadline - candidate) / minute + 2)) (nextMove s) (fun c => c <? deadline) candidate.

Definition previousStart (before : Z) : Z :=
  let candidate := TruncateMinute before in
  if candidate <? before then candidate else candidate - minute.
Definition previousDeadline (before : Z) : Z := AddYears (previousStart before) (- searchYears).

Definition Previous (s : Schedule) (before : Z) : Outcome :=
  let candidate := previousStart before in
  let deadline := previousDeadline before in
  search (Z.to_nat ((candidate - deadline) / minute + 2)) (previousMove s) (fun c => deadline <? c)
    candidate.

(** ** Well-formed fields *)

(** The field selects something, and only values of its range. *)
Record field_ok (f : field) (lo hi : Z) : Prop := mkFieldOk {
  fo_min : minimum f = lo;
  fo_max : maximum f = hi;
  fo_some : exists n, lo <= n <= hi /\ contains f n = true
}.

Record schedule_ok (s : Schedule) : Prop := mkScheduleOk {
  so_minute : field_ok (s_minute s) 0 59;
  so_hour : field_ok (s_hour s) 0 23;
  so_month : field_ok (s_month s) 1 12
}.

Lemma contains_range f n : contains f n = true -> minimum f <= n <= maximum f.
Proof. unfold contains. destruct (_ || _) eqn:E; [done|]. intros _. btrue. lia. Qed.

Lemma shift_land b i : 0 <= i < 64 ->
  (Z.land b (u64 (Z.shiftl 1 i)) =? 0) = negb (Z.testbit b i).
Proof.
  intros Hi. rewrite u64_small.
  2: { rewrite Z.shiftl_1_l. unfold two64. split; [apply Z.pow_nonneg; lia|].
       apply Z.pow_lt_mono_r; lia. }
  rewrite Z.shiftl_1_l. destruct (Z.testbit b i) eqn:Hb; simpl.
  - apply Z.eqb_neq. intros H0. assert (Z.testbit (Z.land b (2 ^ i)) i = true) as Ht.
    { rewrite Z.land_spec, Hb, Z.pow2_bits_true by lia. done. }
    by rewrite H0, Z.bits_0 in Ht.
  - apply Z.eqb_eq. apply Z.bits_inj'. intros j Hj. rewrite Z.land_spec, Z.bits_0.
    destruct (Z.eq_dec i j) as [<-|]; [by rewrite Hb|].
    rewrite Z.pow2_bits_false by lia. apply andb_false_r.
Qed.

Lemma contains_testbit f n :
  0 <= maximum f - minimum f < 64 ->
  contains f n = (minimum f <=? n) && (n <=? maximum f) && Z.testbit (bits f) (n - minimum f).
Proof.
  intros Hr. unfold contains.
  destruct (Z.ltb_spec n (minimum f)), (Z.ltb_spec (maximum f) n); simpl.
  - by rewrite (proj2 (Z.leb_gt _ _)).
  - by rewrite (proj2 (Z.leb_gt _ _)).
  - rewrite (proj2 (Z.leb_le _ _)), (proj2 (Z.leb_gt _ _)) by lia. done.
  - rewrite !(proj2 (Z.leb_le _ _)) by lia. rewrite shift_land by lia. by rewrite negb_involutive.
Qed.

(** ** What the parser accepts is well formed *)

Definition bits_in (lo hi b : Z) : Prop :=
  0 <= b < two64 /\ forall i, Z.testbit b i = true -> 0 <= i <= hi - lo.

Lemma lor_bits_in lo hi b n :
  bits_in lo hi b -> lo <= n <= hi -> hi - lo < 64 ->
  bits_in lo hi (u64 (Z.lor b (Z.shiftl 1 (n - lo)))).
Proof.
  intros [Hb Hbits] Hn Hr.
  assert (Hlt : 0 <= Z.lor b (Z.shiftl 1 (n - lo)) < two64).
  { split; [apply Z.lor_nonneg; split; [lia|apply Z.shiftl_nonneg; lia]|].
    assert (Z.log2 (Z.lor b (Z.shiftl 1 (n - lo))) < 64) as Hlog.
    { rewrite Z.log2_lor by (try apply Z.shiftl_nonneg; lia).
      apply Z.max_lub_lt.
      - destruct (Z.eq_dec b 0) as [->|]; [done|]. apply Z.log2_lt_pow2; [lia|]. apply Hb.
      - rewrite Z.shiftl_1_l, Z.log2_pow2 by lia. lia. }
    destruct (Z.eq_dec (Z.lor b (Z.shiftl 1 (n - lo))) 0) as [->|Hne]; [done|].
    assert (0 <= Z.lor b (Z.shiftl 1 (n - lo))) by
      (apply Z.lor_nonneg; split; [lia|apply Z.shiftl_nonneg; lia]).
    apply Z.log2_lt_pow2; [lia|done]. }
  rewrite u64_small by done. split; [done|]. intros i. rewrite Z.lor_spec.
  destruct (Z.testbit b i) eqn:Hi; [intros _; auto|]. simpl. intros Ht.
  rewrite Z.shiftl_1_l in Ht.
  destruct (Z.eq_dec i (n - lo)) as [->|Hne]; [lia|].
  rewrite Z.pow2_bits_false in Ht by lia. done.
Qed.

Lemma setBits_in fuel lo hi current stop step b :
  bits_in lo hi b -> lo <= current -> stop <= hi -> 0 < step -> hi - lo < 64 ->
  bits_in lo hi (setBits fuel current stop step lo b).
Proof.
  revert current b. induction fuel as [|fuel IH]; intros current b Hb Hc Hs Hst Hr; simpl; [done|].
  destruct (Z.leb_spec current stop); [|done].
  apply IH; try lia. apply lor_bits_in; [done|lia|done].
Qed.

Lemma parseNumber_range s lo hi n : parseNumber s lo hi = Ok n -> lo <= n <= hi.
Proof. unfold parseNumber. intros Hp. destruct_ifs. btrue. lia. Qed.

Lemma parseBase_range s lo hi b start stop :
  parseBase s lo hi b = Ok (start, stop) -> lo <= hi -> lo <= start /\ stop <= hi.
Proof.
  unfold parseBase. intros Hp Hr. case_bool_decide; [simplify_eq; lia|].
  destruct (cut _ s) as [[low high] []].
  - destruct (empty low || _ || _); [done|].
    destruct (parseNumber low lo hi) eqn:E1; [|done]. destruct (parseNumber high lo hi) eqn:E2; [|done].
    apply parseNumber_range in E1. apply parseNumber_range in E2.
    destruct (_ <? _); simplify_eq. lia.
  - apply rbind_ok in Hp as (n & E1 & Hp). apply parseNumber_range in E1.
    destruct b; simplify_eq; lia.
Qed.

Lemma parseItem_in lo hi b item b' :
  parseItem lo hi b item = Ok b' -> bits_in lo hi b -> lo <= hi -> hi - lo < 64 -> bits_in lo hi b'.
Proof.
  unfold parseItem. intros Hp Hb Hr Hw. destruct (empty item); [done|].
  destruct (cut _ item) as [[base stepText] hasStep]. destruct (hasStep && _); [done|].
  destruct (if hasStep then _ else _) as [step|] eqn:Hstep; [|done].
  apply rbind_ok in Hp as ([start stop] & Hbase & [= <-]).
  apply parseBase_range in Hbase as [? ?]; [|done].
  apply setBits_in; try done.
  destruct hasStep; [apply parseNumber_range in Hstep; lia|by simplify_eq].
Qed.

Lemma parseField_ok s lo hi f :
  parseField s lo hi = Ok f -> 0 <= hi - lo < 64 -> field_ok f lo hi.
Proof.
  unfold parseField. intros Hp Hw. destruct (empty s); [done|].
  apply rbind_ok in Hp as (b & Hitems & Hp). destruct (Z.eqb_spec b 0) as [|Hne]; [done|].
  injection Hp as <-.
  assert (Hin : bits_in lo hi b).
  { assert (bits_in lo hi 0) as H0 by (split; [done|]; intros i; by rewrite Z.bits_0).
    revert Hitems H0. generalize 0. induction (split _ s) as [|item items IH]; intros b0 Hitems H0.
    - by injection Hitems as <-.
    - simpl in Hitems. apply rbind_ok in Hitems as (b1 & H1 & Hitems).
      apply (IH b1 Hitems). eapply parseItem_in; eauto; lia. }
  split; [done..|]. destruct Hin as [Hb Hbits].
  assert (Hlog : Z.testbit b (Z.log2 b) = true) by (apply Z.bit_log2; lia).
  exists (lo + Z.log2 b). pose proof (Hbits _ Hlog). split; [lia|].
  rewrite contains_testbit by done. simpl.
  replace (lo + Z.log2 b - lo) with (Z.log2 b) by lia. rewrite Hlog.
  rewrite !(proj2 (Z.leb_le _ _)) by lia. done.
Qed.

Lemma parsed_schedule_ok value s : Parse value = Ok s -> schedule_ok s.
Proof.
  unfold Parse, parseNth. intros Hp.
  destruct (Fields value) as [|p1 [|p2 [|p3 [|p4 [|p5 [|? ?]]]]]]; try done.
  destruct (parseField p1 0 59) as [f1|] eqn:E1; [|done].
  destruct (parseField p2 0 23) as [f2|] eqn:E2; [|done].
  destruct (parseField p3 1 31) as [f3|] eqn:E3; [|done].
  destruct (parseField p4 1 12) as [f4|] eqn:E4; [|done].
  destruct (parseField p5 0 6) as [f5|] eqn:E5; [|done].
  simpl in Hp. injection Hp as <-.
  split; simpl; eapply parseField_ok; eauto; lia.
Qed.

(** ** The successor and predecessor of a value in a field *)

(** The first hit of a list sorted by [R]. *)
Lemma find_first {A} (p : A -> bool) l x :
  find p l = Some x ->
  p x = true /\ exists l1 l2, l = l1 ++ x :: l2 /\ forall y, y ∈ l1 -> p y = false.
Proof.
  induction l as [|a l IH]; simpl; [done|]. destruct (p a) eqn:Ha.
  - intros [= <-]. split; [done|]. exists [], l. split; [done|]. set_solver.
  - intros (Hx & l1 & l2 & -> & Hl)%IH. split; [done|]. exists (a :: l1), l2. split; [done|].
    intros y [->|Hy]%elem_of_cons; auto.
Qed.

Lemma find_seqZ p a n x :
  find p (seqZ a n) = Some x -> p x = true /\ a <= x < a + n /\ forall y, a <= y < x -> p y = false.
Proof.
  intros (Hx & l1 & l2 & Heq & Hl)%find_first.
  assert (Hlk : forall i z, l1 !! i = Some z -> z = a + Z.of_nat i).
  { intros i z Hi. assert (seqZ a n !! i = Some z) as Hs%lookup_seqZ
      by (rewrite Heq; by apply lookup_app_l_Some). lia. }
  assert (seqZ a n !! length l1 = Some x) as [-> Hn]%lookup_seqZ
    by (rewrite Heq; by apply list_lookup_middle).
  split; [done|]. split; [lia|]. intros y Hy. apply Hl.
  destruct (lookup_lt_is_Some_2 l1 (Z.to_nat (y - a))) as [z Hz]; [lia|].
  pose proof (Hlk _ _ Hz). replace y with z by lia. by eapply list_elem_of_lookup_2.
Qed.

Lemma find_seqZ_rev p a n x :
  find p (reverse (seqZ a n)) = Some x ->
  p x = true /\ a <= x < a + n /\ forall y, x < y < a + n -> p y = false.
Proof.
  intros (Hx & l1 & l2 & Heq & Hl)%find_first.
  assert (Heq' : seqZ a n = reverse l2 ++ x :: reverse l1).
  { rewrite <- (reverse_involutive (seqZ a n)), Heq, reverse_app, reverse_cons, <- app_assoc. done. }
  assert (seqZ a n !! length (reverse l2) = Some x) as [-> Hn]%lookup_seqZ
    by (rewrite Heq'; by apply list_lookup_middle).
  split; [done|]. split; [lia|]. intros y Hy. apply Hl.
  assert (Hin : y ∈ seqZ a n) by (apply elem_of_seqZ; lia).
  rewrite Heq' in Hin. apply elem_of_app in Hin as [Hin|[->|Hin]%elem_of_cons]; [|lia|].
  - apply list_elem_of_lookup_1 in Hin as [i Hi].
    assert (seqZ a n !! i = Some y) as [-> _]%lookup_seqZ
      by (rewrite Heq'; by apply lookup_app_l_Some).
    apply lookup_lt_Some in Hi. lia.
  - by rewrite elem_of_reverse in Hin.
Qed.

Lemma find_none_Z (p : Z -> bool) l y : find p l = None -> y ∈ l -> p y = false.
Proof. intros Hf Hy%list_elem_of_In. by eapply find_none. Qed.

Lemma next_spec f lo hi cur :
  field_ok f lo hi -> lo <= cur <= hi ->
  exists c w, next f cur = Some (c, w) /\ contains f c = true /\ lo <= c <= hi /\
    if w : bool then c <= cur /\ (forall x, cur < x -> contains f x = false) /\
                     (forall x, x < c -> contains f x = false)
    else cur < c /\ (forall x, cur < x < c -> contains f x = false).
Proof.
  intros [Hmin Hmax (n & Hn & Hc)] Hcur. unfold next. rewrite Hmin, Hmax.
  assert (Hout : forall x, x < lo \/ hi < x -> contains f x = false).
  { intros x Hx. destruct (contains f x) eqn:E; [|done]. apply contains_range in E. lia. }
  destruct (find (contains f) (seqZ (cur + 1) _)) as [c|] eqn:E1.
  - apply find_seqZ in E1 as (H1 & H2 & H3). exists c, false.
    split_and!; try done; try lia. intros x Hx. apply H3. lia.
  - assert (Habove : forall x, cur < x -> contains f x = false).
    { intros x Hx. destruct (Z.le_gt_cases x hi); [|apply Hout; lia].
      eapply find_none_Z; [exact E1|]. apply elem_of_seqZ. lia. }
    destruct (find (contains f) (seqZ lo _)) as [c|] eqn:E2.
    + apply find_seqZ in E2 as (H1 & H2 & H3). exists c, true.
      split_and!; try done; try lia. intros x Hx.
      destruct (Z.le_gt_cases lo x); [apply H3; lia|apply Hout; lia].
    + exfalso. assert (contains f n = false); [|congruence].
      destruct (Z.le_gt_cases n cur); [|apply Habove; lia].
      eapply find_none_Z; [exact E2|]. apply elem_of_seqZ. lia.
Qed.

Lemma previous_spec f lo hi cur :
  field_ok f lo hi -> lo <= cur <= hi ->
  exists c w, previous f cur = Some (c, w) /\ contains f c = true /\ lo <= c <= hi /\
    if w : bool then cur <= c /\ (forall x, x < cur -> contains f x = false) /\
                     (forall x, c < x -> contains f x = false)
    else c < cur /\ (forall x, c < x < cur -> contains f x = false).
Proof.
  intros [Hmin Hmax (n & Hn & Hc)] Hcur. unfold previous. rewrite Hmin, Hmax.
  assert (Hout : forall x, x < lo \/ hi < x -> contains f x = false).
  { intros x Hx. destruct (contains f x) eqn:E; [|done]. apply contains_range in E. lia. }
  destruct (find (contains f) (reverse (seqZ lo _))) as [c|] eqn:E1.
  - apply find_seqZ_rev in E1 as (H1 & H2 & H3). exists c, false.
    split_and!; try done; try lia. intros x Hx. apply H3. lia.
  - assert (Hbelow : forall x, x < cur -> contains f x = false).
    { intros x Hx. destruct (Z.le_gt_cases lo x); [|apply Hout; lia].
      eapply find_none_Z; [exact E1|]. apply elem_of_reverse, elem_of_seqZ. lia. }
    destruct (find (contains f) (reverse (seqZ cur _))) as [c|] eqn:E2.
    + apply find_seqZ_rev in E2 as (H1 & H2 & H3). exists c, true.
      split_and!; try done; try lia. intros x Hx.
      destruct (Z.le_gt_cases x hi); [apply H3; lia|apply Hout; lia].
    + exfalso. assert (contains f n = false); [|congruence].
      destruct (Z.le_gt_cases cur n); [|apply Hbelow; lia].
      eapply find_none_Z; [exact E2|]. apply elem_of_reverse, elem_of_seqZ. lia.
Qed.

(** ** One pass of a search *)

Lemma unmatched_month s u : contains (s_month s) (Month u) = false -> Matches s u = false.
Proof. intros Hc. unfold Matches. rewrite Hc, orb_true_r. by destruct (negb _). Qed.
Lemma unmatched_hour s u : contains (s_hour s) (Hour u) = false -> Matches s u = false.
Proof. intros Hc. unfold Matches. rewrite Hc, orb_true_r. by destruct (negb _). Qed.
Lemma unmatched_minute s u : contains (s_minute s) (Minute u) = false -> Matches s u = false.
Proof. intros Hc. unfold Matches. rewrite Hc. by destruct (negb _). Qed.
Lemma unmatched_day s u : matchesDay s u = false -> Matches s u = false.
Proof. intros Hd. unfold Matches. fold (matchesDay s u). rewrite Hd. by destruct_ifs. Qed.
Lemma unaligned s u : u mod minute <> 0 -> Matches s u = false.
Proof. intros Hu. unfold Matches. by rewrite (proj2 (Z.eqb_neq _ _)). Qed.

Lemma matched s u :
  u mod minute = 0 -> contains (s_month s) (Month u) = true -> matchesDay s u = true ->
  contains (s_hour s) (Hour u) = true -> contains (s_minute s) (Minute u) = true ->
  Matches s u = true.
Proof.
  intros Ha Hm Hd Hh Hmi. unfold Matches. fold (matchesDay s u).
  by rewrite Ha, Hm, Hh, Hmi, Hd.
Qed.

Lemma same_day s t u : days_of u = days_of t -> matchesDay s u = matchesDay s t.
Proof. intros Hd. unfold matchesDay, Day, Weekday. by rewrite Hd. Qed.

(** Instants between two minute-aligned ones, by minute index. *)
Lemma between_minutes a b u : a * minute <= u < b * minute -> a <= u / minute < b.
Proof.
  intros [Hl Hu]. pose proof minute_positive. split.
  - apply Z.div_le_lower_bound; lia.
  - apply Z.div_lt_upper_bound; lia.
Qed.

(** A pass moves forward over instants that do not match. *)
Definition forward_ok (s : Schedule) (a : Z) (m : Move) : Prop :=
  match m with
  | Return t => t = a * minute /\ Matches s t = true
  | Continue t => exists b, t = b * minute /\ a < b /\
      forall u, a <= u / minute < b -> Matches s u = false
  | Panic => False
  end.

Lemma nextMove_ok s a : schedule_ok s -> forward_ok s a (nextMove s (a * minute)).
Proof.
  intros [Hmi Hh Hmo]. set (c := a * minute).
  assert (Hc : c / minute = a) by (apply Z.div_mul; discriminate).
  assert (Ha : c mod minute = 0) by (apply Z_mod_mult).
  destruct (minute_index c) as (Hidx & Hhr & Hmr). rewrite Hc in Hidx.
  destruct (month_fields c) as [Hmf Hmr'].
  unfold nextMove. destruct (contains (s_month s) (Month c)) eqn:Emo; simpl.
  2: { destruct (next_spec _ 1 12 (Month c) Hmo Hmr') as (m & w & -> & Hcm & Hr & Hw).
    rewrite Date_minutes. set (k := 12 * (if w then Year c + 1 else Year c) + (m - 1)).
    exists ((month_start k + (1 - 1)) * 1440 + 0 * 60 + 0). split; [done|].
    assert (Hk : month_index (days_of c) < k) by (subst k; destruct w; lia).
    pose proof (proj2 (before_month (days_of c) k) Hk). split; [lia|].
    intros u Hu. apply unmatched_month. destruct (minute_index u) as (Hui & ? & ?).
    destruct (month_fields u) as [Huf Hur].
    assert (month_index (days_of u) < k) by (apply before_month; lia).
    assert (month_index (days_of c) <= month_index (days_of u)) by (apply month_index_mono; lia).
    destruct w.
    - destruct Hw as (? & Habove & Hbelow). subst k.
      destruct (Z.le_gt_cases m (Month u)); [|apply Hbelow; lia].
      destruct (Z.eq_dec (Month u) (Month c)) as [->|]; [done|]. apply Habove. lia.
    - destruct Hw as (? & Hbetween). subst k.
      destruct (Z.eq_dec (Month u) (Month c)) as [->|]; [done|]. apply Hbetween. lia. }
  destruct (matchesDay s c) eqn:Eday; simpl.
  2: { rewrite Date_day. exists ((days_of c + (Day c + 1) - Day c) * 1440 + 0 * 60 + 0).
    split; [done|]. split; [lia|]. intros u Hu. apply unmatched_day.
    destruct (minute_index u) as (Hui & ? & ?).
    rewrite (same_day s c u); [done|lia]. }
  destruct (contains (s_hour s) (Hour c)) eqn:Eh; simpl.
  2: { destruct (next_spec _ 0 23 (Hour c) Hh ltac:(lia)) as (h & w & -> & Hch & Hr & Hw).
    rewrite Date_day. set (dd := if w then Day c + 1 else Day c).
    exists ((days_of c + dd - Day c) * 1440 + h * 60 + 0). split; [done|].
    assert (dd = Day c + (if w then 1 else 0)) as -> by (subst dd; destruct w; lia).
    split; [destruct w; lia|]. intros u Hu. apply unmatched_hour.
    destruct (minute_index u) as (Hui & ? & ?). destruct w.
    - destruct Hw as (? & Habove & Hbelow).
      destruct (Z.eq_dec (days_of u) (days_of c)).
      + destruct (Z.eq_dec (Hour u) (Hour c)) as [->|]; [done|]. apply Habove. lia.
      + apply Hbelow. lia.
    - destruct Hw as (? & Hbetween).
      destruct (Z.eq_dec (Hour u) (Hour c)) as [->|]; [done|]. apply Hbetween. lia. }
  destruct (contains (s_minute s) (Minute c)) eqn:Emi; simpl.
  2: { destruct (next_spec _ 0 59 (Minute c) Hmi ltac:(lia)) as (mi & w & -> & Hcm & Hr & Hw).
    rewrite Date_day. set (hh := if w then Hour c + 1 else Hour c).
    exists ((days_of c + Day c - Day c) * 1440 + hh * 60 + mi). split; [done|].
    assert (hh = Hour c + (if w then 1 else 0)) as -> by (subst hh; destruct w; lia).
    split; [destruct w; lia|]. intros u Hu. apply unmatched_minute.
    destruct (minute_index u) as (Hui & ? & ?). destruct w.
    - destruct Hw as (? & Habove & Hbelow).
      destruct (Z.eq_dec (24 * days_of u + Hour u) (24 * days_of c + Hour c)).
      + destruct (Z.eq_dec (Minute u) (Minute c)) as [->|]; [done|]. apply Habove. lia.
      + apply Hbelow. lia.
    - destruct Hw as (? & Hbetween).
      destruct (Z.eq_dec (Minute u) (Minute c)) as [->|]; [done|]. apply Hbetween. lia. }
  rewrite matched by done. simpl. split; [done|]. by apply matched.
Qed.

(** A pass moves backward over instants that do not match. *)
Definition backward_ok (s : Schedule) (a : Z) (m : Move) : Prop :=
  match m with
  | Return t => t = a * minute /\ Matches s t = true
  | Continue t => exists b, t = b * minute /\ b < a /\
      forall u, b < u / minute <= a -> Matches s u = false
  | Panic => False
  end.

Lemma previousMove_ok s a : schedule_ok s -> backward_ok s a (previousMove s (a * minute)).
Proof.
  intros [Hmi Hh Hmo]. set (c := a * minute).
  assert (Hc : c / minute = a) by (apply Z.div_mul; discriminate).
  assert (Ha : c mod minute = 0) by (apply Z_mod_mult).
  destruct (minute_index c) as (Hidx & Hhr & Hmr). rewrite Hc in Hidx.
  destruct (month_fields c) as [Hmf Hmr'].
  unfold previousMove. destruct (contains (s_month s) (Month c)) eqn:Emo; simpl.
  2: { destruct (previous_spec _ 1 12 (Month c) Hmo Hmr') as (m & w & -> & Hcm & Hr & Hw).
    rewrite Date_minutes. set (k := 12 * (if w then Year c - 1 else Year c) + (m + 1 - 1)).
    exists ((month_start k + (0 - 1)) * 1440 + 23 * 60 + 59). split; [done|].
    assert (Hk : k <= month_index (days_of c)) by (subst k; destruct w; lia).
    assert (month_start k <= days_of c) by (pose proof (before_month (days_of c) k); lia).
    split; [lia|].
    intros u Hu. apply unmatched_month. destruct (minute_index u) as (Hui & ? & ?).
    destruct (month_fields u) as [Huf Hur].
    assert (k <= month_index (days_of u)) by (pose proof (before_month (days_of u) k); lia).
    assert (month_index (days_of u) <= month_index (days_of c)) by (apply month_index_mono; lia).
    destruct w.
    - destruct Hw as (? & Hbelow & Habove). subst k.
      destruct (Z.le_gt_cases (Month u) m); [|apply Habove; lia].
      destruct (Z.eq_dec (Month u) (Month c)) as [->|]; [done|]. apply Hbelow. lia.
    - destruct Hw as (? & Hbetween). subst k.
      destruct (Z.eq_dec (Month u) (Month c)) as [->|]; [done|]. apply Hbetween. lia. }
  destruct (matchesDay s c) eqn:Eday; simpl.
  2: { rewrite Date_day. exists ((days_of c + (Day c - 1) - Day c) * 1440 + 23 * 60 + 59).
    split; [done|]. split; [lia|]. intros u Hu. apply unmatched_day.
    destruct (minute_index u) as (Hui & ? & ?).
    rewrite (same_day s c u); [done|lia]. }
  destruct (contains (s_hour s) (Hour c)) eqn:Eh; simpl.
  2: { destruct (previous_spec _ 0 23 (Hour c) Hh ltac:(lia)) as (h & w & -> & Hch & Hr & Hw).
    rewrite Date_day. set (dd := if w then Day c - 1 else Day c).
    exists ((days_of c + dd - Day c) * 1440 + h * 60 + 59). split; [done|].
    assert (dd = Day c - (if w then 1 else 0)) as -> by (subst dd; destruct w; lia).
    split; [destruct w; lia|]. intros u Hu. apply unmatched_hour.
    destruct (minute_index u) as (Hui & ? & ?). destruct w.
    - destruct Hw as (? & Hbelow & Habove).
      destruct (Z.eq_dec (days_of u) (days_of c)).
      + destruct (Z.eq_dec (Hour u) (Hour c)) as [->|]; [done|]. apply Hbelow. lia.
      + apply Habove. lia.
    - destruct Hw as (? & Hbetween).
      destruct (Z.eq_dec (Hour u) (Hour c)) as [->|]; [done|]. apply Hbetween. lia. }
  destruct (contains (s_minute s) (Minute c)) eqn:Emi; simpl.
  2: { destruct (previous_spec _ 0 59 (Minute c) Hmi ltac:(lia)) as (mi & w & -> & Hcm & Hr & Hw).
    rewrite Date_day. set (hh := if w then Hour c - 1 else Hour c).
    exists ((days_of c + Day c - Day c) * 1440 + hh * 60 + mi). split; [done|].
    assert (hh = Hour c - (if w then 1 else 0)) as -> by (subst hh; destruct w; lia).
    split; [destruct w; lia|]. intros u Hu. apply unmatched_minute.
    destruct (minute_index u) as (Hui & ? & ?). destruct w.
    - destruct Hw as (? & Hbelow & Habove).
      destruct (Z.eq_dec (24 * days_of u + Hour u) (24 * days_of c + Hour c)).
      + destruct (Z.eq_dec (Minute u) (Minute c)) as [->|]; [done|]. apply Hbelow. lia.
      + apply Habove. lia.
    - destruct Hw as (? & Hbetween).
      destruct (Z.eq_dec (Minute u) (Minute c)) as [->|]; [done|]. apply Hbetween. lia. }
  rewrite matched by done. simpl. split; [done|]. by apply matched.
Qed.

(** ** The loops *)

Lemma search_forward s deadline fuel a :
  schedule_ok s -> deadline <= (a + Z.of_nat fuel - 1) * minute -> (0 < fuel)%nat ->
  match search fuel (nextMove s) (fun c => c <? deadline) (a * minute) with
  | Occurs t => Matches s t = true /\ a * minute <= t < deadline /\
      forall u, a <= u / minute -> u < t -> Matches s u = false
  | NoOccurrence => forall u, a <= u / minute -> u < deadline -> Matches s u = false
  | Panicked | OutOfFuel => False
  end.
Proof.
  intros Hs. pose proof minute_positive as Hpos. revert a.
  induction fuel as [|fuel IH]; intros a Hfuel Hf; [lia|]. cbn [search].
  destruct (Z.ltb_spec (a * minute) deadline) as [Hlt|Hge].
  - pose proof (nextMove_ok s a Hs) as Hm. destruct (nextMove s (a * minute)) as [t|t|]; [| |done].
    + destruct Hm as [-> Hm]. split; [done|]. split; [lia|]. intros u Hu Hut.
      assert (u / minute < a) by (apply Z.div_lt_upper_bound; lia). lia.
    + destruct Hm as (b & -> & Hab & Hskip).
      assert (Hfuel' : deadline <= (b + Z.of_nat fuel - 1) * minute) by nia.
      assert (0 < fuel)%nat as Hf'.
      { destruct fuel; [|lia]. exfalso. nia. }
      specialize (IH b Hfuel' Hf').
      destruct (search fuel _ _ _) as [t| | |]; try done.
      * destruct IH as (Ht & Hrange & Hnone). split; [done|]. split; [nia|].
        intros u Hu Hut. destruct (Z.le_gt_cases b (u / minute)); [by apply Hnone|].
        apply Hskip. lia.
      * intros u Hu Hud. destruct (Z.le_gt_cases b (u / minute)); [by apply IH|].
        apply Hskip. lia.
  - intros u Hu Hud. pose proof (Z.mul_div_le u minute Hpos). nia.
Qed.

Lemma search_backward s deadline fuel a :
  schedule_ok s -> (a - Z.of_nat fuel + 1) * minute <= deadline -> (0 < fuel)%nat ->
  match search fuel (previousMove s) (fun c => deadline <? c) (a * minute) with
  | Occurs t => Matches s t = true /\ deadline < t <= a * minute /\
      forall u, u / minute <= a -> t < u -> Matches s u = false
  | NoOccurrence => forall u, u / minute <= a -> deadline < u -> Matches s u = false
  | Panicked | OutOfFuel => False
  end.
Proof.
  intros Hs. pose proof minute_positive as Hpos. revert a.
  induction fuel as [|fuel IH]; intros a Hfuel Hf; [lia|]. cbn [search].
  assert (Hlast : forall b u, u / minute <= b -> b * minute < u -> Matches s u = false).
  { intros b u Hb Hu. apply unaligned. intros Hal%aligned_div. nia. }
  destruct (Z.ltb_spec deadline (a * minute)) as [Hlt|Hge].
  - pose proof (previousMove_ok s a Hs) as Hm.
    destruct (previousMove s (a * minute)) as [t|t|]; [| |done].
    + destruct Hm as [-> Hm]. split; [done|]. split; [lia|]. intros u Hu Hut. by eapply Hlast.
    + destruct Hm as (b & -> & Hab & Hskip).
      assert (Hfuel' : (b - Z.of_nat fuel + 1) * minute <= deadline) by nia.
      assert (0 < fuel)%nat as Hf'.
      { destruct fuel; [|lia]. exfalso. nia. }
      specialize (IH b Hfuel' Hf').
      destruct (search fuel _ _ _) as [t| | |]; try done.
      * destruct IH as (Ht & Hrange & Hnone). split; [done|]. split; [nia|].
        intros u Hu Hut. destruct (Z.le_gt_cases (u / minute) b); [by apply Hnone|].
        apply Hskip. lia.
      * intros u Hu Hud. destruct (Z.le_gt_cases (u / minute) b); [by apply IH|].
        apply Hskip. lia.
  - intros u Hu Hud. eapply Hlast; [exact Hu|]. lia.
Qed.

Lemma AddYears_minutes t years :
  AddYears t years =
  ((month_start (month_index (days_of t) + 12 * years) + Day t - 1) * 1440 + Hour t * 60 + Minute t)
    * minute.
Proof.
  unfold AddYears. rewrite Date_minutes. destruct (month_fields t) as [Hm _].
  replace (12 * (Year t + years) + (Month t - 1)) with (month_index (days_of t) + 12 * years) by lia.
  f_equal. lia.
Qed.

Lemma AddYears_later t years :
  0 < years -> t / minute < AddYears t years / minute.
Proof.
  intros Hy. rewrite AddYears_minutes, Z.div_mul by discriminate.
  destruct (minute_index t) as (Hi & _ & _). rewrite Hi.
  pose proof (month_start_mono (month_index (days_of t)) (month_index (days_of t) + 12 * years) ltac:(lia)).
  unfold Day. lia.
Qed.

Lemma AddYears_earlier t years :
  years < 0 -> AddYears t years / minute < t / minute.
Proof.
  intros Hy. rewrite AddYears_minutes, Z.div_mul by discriminate.
  destruct (minute_index t) as (Hi & _ & _). rewrite Hi.
  pose proof (month_start_mono (month_index (days_of t) + 12 * years) (month_index (days_of t)) ltac:(lia)).
  unfold Day. lia.
Qed.

Lemma nextStart_minute after : nextStart after = (after / minute + 1) * minute.
Proof.
  unfold nextStart, TruncateMinute. pose proof (Z.div_mod after minute ltac:(discriminate)). lia.
Qed.

Lemma previousStart_minute before :
  previousStart before = (if before mod minute =? 0 then before / minute - 1 else before / minute) * minute.
Proof.
  unfold previousStart, TruncateMinute. pose proof (Z.div_mod before minute ltac:(discriminate)).
  pose proof (Z.mod_pos_bound before minute minute_positive).
  destruct (Z.eqb_spec (before mod minute) 0), (Z.ltb_spec (before - before mod minute) before); lia.
Qed.

(** The loop of [Next] from a start to any later deadline. *)
Lemma next_window s after deadline :
  schedule_ok s -> after / minute + 1 < deadline / minute ->
  match search (Z.to_nat ((deadline - (after / minute + 1) * minute) / minute + 2)) (nextMove s)
          (fun c => c <? deadline) ((after / minute + 1) * minute) with
  | Occurs t => after < t < deadline /\ Matches s t = true /\
                forall u, after < u < t -> Matches s u = false
  | NoOccurrence => forall u, after < u < deadline -> Matches s u = false
  | Panicked | OutOfFuel => False
  end.
Proof.
  intros Hok Hlater. pose proof minute_positive as Hpos.
  assert (Ha : after < (after / minute + 1) * minute).
  { pose proof (Z.mul_succ_div_gt after minute Hpos). lia. }
  assert (Hu : forall u, after < u -> after / minute + 1 <= u / minute \/ Matches s u = false).
  { intros u Hu. destruct (Z.le_gt_cases (after / minute + 1) (u / minute)); [by left|right].
    apply unaligned. intros Hal%aligned_div.
    assert (u / minute <= after / minute) by lia. pose proof (Z.mul_div_le after minute Hpos). nia. }
  revert Hlater Ha Hu. generalize (after / minute + 1) as a. intros a Hlater Ha Hu.
  pose proof (Z.mul_succ_div_gt deadline minute Hpos) as Hd.
  replace (deadline - a * minute) with (deadline + (- a) * minute) by lia.
  rewrite Z.div_add by lia.
  pose proof (search_forward s deadline (Z.to_nat (deadline / minute + - a + 2)) a Hok) as Hs.
  rewrite Z2Nat.id in Hs by lia. specialize (Hs ltac:(nia) ltac:(lia)).
  destruct (search _ _ _ _) as [t| | |]; try done.
  - destruct Hs as (Ht & Hr & Hnone). split; [lia|]. split; [done|]. intros u Hur.
    destruct (Hu u ltac:(lia)); [|done]. apply Hnone; [done|lia].
  - intros u Hur. destruct (Hu u ltac:(lia)); [|done]. apply Hs; [done|lia].
Qed.

(** The loop of [Previous] from [a], the last whole minute before the instant. *)
Lemma previous_window s before a deadline :
  schedule_ok s -> deadline / minute < a -> a * minute < before <= (a + 1) * minute ->
  match search (Z.to_nat ((a * minute - deadline) / minute + 2)) (previousMove s)
          (fun c => deadline <? c) (a * minute) with
  | Occurs t => deadline < t < before /\ Matches s t = true /\
                forall u, t < u < before -> Matches s u = false
  | NoOccurrence => forall u, deadline < u < before -> Matches s u = false
  | Panicked | OutOfFuel => False
  end.
Proof.
  intros Hok Hearlier Ha. pose proof minute_positive as Hpos.
  pose proof (Z.mul_div_le deadline minute Hpos) as Hd1.
  pose proof (Z.mul_succ_div_gt deadline minute Hpos) as Hd2.
  assert (Hdiv : a - deadline / minute - 1 <= (a * minute - deadline) / minute).
  { apply Z.div_le_lower_bound; nia. }
  pose proof (search_backward s deadline (Z.to_nat ((a * minute - deadline) / minute + 2)) a Hok) as Hs.
  rewrite Z2Nat.id in Hs by lia. specialize (Hs ltac:(nia) ltac:(lia)).
  assert (Hu : forall u, u < before -> u / minute <= a).
  { intros u Hu. assert (u / minute < a + 1); [|lia]. apply Z.div_lt_upper_bound; lia. }
  destruct (search _ _ _ _) as [t| | |]; try done.
  - destruct Hs as (Ht & Hr & Hnone). split; [lia|]. split; [done|]. intros u Hur.
    apply Hnone; [apply Hu; lia|lia].
  - intros u Hur. apply Hs; [apply Hu; lia|lia].
Qed.

(** ** Theorems *)

(** C8. The next occurrence is the least one.  For every expression the parser
    accepts, [Next] never panics and never loops; what it returns is strictly
    later than the given instant, matches the schedule, and no instant in
    between matches.  It only reports that there is none when no instant of
    the following eight calendar years matches. *)
Theorem next_occurrence_least value s after (Hparse : Parse value = Ok s) :
  match Next s after with
  | Occurs t => after < t < nextDeadline after /\ Matches s t = true /\
                forall u, after < u < t -> Matches s u = false
  | NoOccurrence => forall u, after < u < nextDeadline after -> Matches s u = false
  | Panicked | OutOfFuel => False
  end.
Proof.
  apply parsed_schedule_ok in Hparse. unfold Next.
  pose proof (AddYears_later (nextStart after) searchYears eq_refl) as Hlater.
  revert Hlater. unfold nextDeadline. generalize (AddYears (nextStart after) searchYears).
  intros deadline. rewrite nextStart_minute, Z.div_mul by discriminate.
  by apply next_window.
Qed.

Definition leap_day : Schedule :=
  mkSchedule (mkField 1 0 59 false) (mkField 1 0 23 false) (mkField 268435456 1 31 false)
    (mkField 2 1 12 false) (mkField 127 0 6 true).

Lemma next_occurrence_least_witness :
  match Next leap_day (Date 2028 2 29 0 0) with
  | Occurs t => Date 2028 2 29 0 0 < t < nextDeadline (Date 2028 2 29 0 0) /\
                Matches leap_day t = true /\
                forall u, Date 2028 2 29 0 0 < u < t -> Matches leap_day u = false
  | NoOccurrence => forall u, Date 2028 2 29 0 0 < u < nextDeadline (Date 2028 2 29 0 0) ->
                      Matches leap_day u = false
  | Panicked | OutOfFuel => False
  end.
Proof. apply (next_occurrence_least "0 0 29 2 *"). reflexivity. Defined.

(** The search backwards ends at the greatest occurrence; clients use this form. *)
Lemma Previous_greatest value s before (Hparse : Parse value = Ok s) :
  match Previous s before with
  | Occurs t => previousDeadline before < t < before /\ Matches s t = true /\
                forall u, t < u < before -> Matches s u = false
  | NoOccurrence => forall u, previousDeadline before < u < before -> Matches s u = false
  | Panicked | OutOfFuel => False
  end.
Proof.
  apply parsed_schedule_ok in Hparse. unfold Previous.
  pose proof (AddYears_earlier (previousStart before) (- searchYears) eq_refl) as Hearlier.
  revert Hearlier. unfold previousDeadline. generalize (AddYears (previousStart before) (- searchYears)).
  intros deadline. rewrite previousStart_minute, Z.div_mul by discriminate.
  intros Hearlier. apply previous_window; [done|done|].
  pose proof (Z.div_mod before minute ltac:(discriminate)) as Hb.
  pose proof (Z.mod_pos_bound before minute minute_positive) as Hm.
  revert Hb Hm. generalize (before mod minute) (before / minute). intros r q -> Hm.
  destruct (Z.eqb_spec r 0); lia.
Qed.

(** C9. The previous occurrence is the greatest one before the given instant,
    with the same guarantees backwards. *)
Theorem previous_occurrence_greatest value s before (Hparse : Parse value = Ok s) :
  match Previous s before with
  | Occurs t => previousDeadline before < t < before /\ Matches s t = true /\
                forall u, t < u < before -> Matches s u = false
  | NoOccurrence => forall u, previousDeadline before < u < before -> Matches s u = false
  | Panicked | OutOfFuel => False
  end.
Proof. by apply (Previous_greatest value). Qed.

Lemma previous_occurrence_greatest_witness :
  match Previous leap_day (Date 2028 2 29 0 0) with
  | Occurs t => previousDeadline (Date 2028 2 29 0 0) < t < Date 2028 2 29 0 0 /\
                Matches leap_day t = true /\
                forall u, t < u < Date 2028 2 29 0 0 -> Matches leap_day u = false
  | NoOccurrence => forall u, previousDeadline (Date 2028 2 29 0 0) < u < Date 2028 2 29 0 0 ->
                      Matches leap_day u = false
  | Panicked | OutOfFuel => False
  end.
Proof. apply (previous_occurrence_greatest "0 0 29 2 *"). reflexivity. Defined.
