(* ===== verification/Semver.v ===== *)
(** * Versions: internal/semver

    Strict SemVer without build metadata, as releases and self-updates compare
    it.  [Parse] and [Compare] follow semver.go; [precedence] is the order the
    SemVer document describes, on numbers and identifiers instead of strings.
    The theorems show that the string comparison computes that order and that
    the order is total and separates different version strings. *)

From S2P Require Import Prelude.
From Stdlib Require Import Ascii.

Record Version := mkVersion { core : list string; prerelease : list string }.

(** The rune loop compares code points; a byte outside ASCII belongs to a rune
    that is no digit or letter. *)
Definition numeric (value : string) : bool :=
  negb (empty value) && str_forall is_digit value.

Definition leading_zero (value : string) : bool :=
  match value with String c _ => Ascii.eqb c "0"%char | EmptyString => false end.

Definition validNumeric (value : string) : bool :=
  numeric value && ((zlen value =? 1) || negb (leading_zero value)).

Definition validIdentifier (value : string) : bool :=
  negb (empty value)
  && str_forall (fun c => is_digit c || is_upper c || is_lower c || Ascii.eqb c "-"%char) value.

Definition Parse (value : string) : result goerr Version :=
  if empty value || contains "+" value
  then Err (Msg "version must be strict SemVer without build metadata")
  else
    let '(coreValue, prereleaseValue, hasPrerelease) := cut "-"%char value in
    let coreParts := split "."%char coreValue in
    if negb (Nat.eqb (length coreParts) 3)
    then Err (Msg "version core must contain major.minor.patch")
    else if negb (forallb validNumeric coreParts)
    then Err (Msg "version core has an invalid numeric identifier")
    else if negb hasPrerelease then Ok (mkVersion coreParts [])
    else
      let parts := split "."%char prereleaseValue in
      if existsb (fun part => negb (validIdentifier part)
                     || (numeric part && (1 <? zlen part) && leading_zero part)) parts
      then Err (Msg "version prerelease has an invalid identifier")
      else Ok (mkVersion coreParts parts).

(** [<] and [>] on Go strings: bytewise, a proper prefix is smaller. *)
Definition compareNumeric (left right : string) : Z :=
  if zlen left <? zlen right then -1
  else if zlen right <? zlen left then 1
  else if String.ltb left right then -1
  else if String.ltb right left then 1
  else 0.

Fixpoint compareCore (left right : list string) : Z :=
  match left, right with
  | l :: left', r :: right' =>
      let compared := compareNumeric l r in
      if negb (compared =? 0) then compared else compareCore left' right'
  | _, _ => 0
  end.

(** The loop over the common length; [None] when it ends without a return. *)
Fixpoint comparePrerelease (left right : list string) : option Z :=
  match left, right with
  | leftPart :: left', rightPart :: right' =>
      let leftNumeric := numeric leftPart in
      let rightNumeric := numeric rightPart in
      if leftNumeric && rightNumeric then
        let compared := compareNumeric leftPart rightPart in
        if negb (compared =? 0) then Some compared else comparePrerelease left' right'
      else if leftNumeric then Some (-1)
      else if rightNumeric then Some 1
      else if String.ltb leftPart rightPart then Some (-1)
      else if String.ltb rightPart leftPart then Some 1
      else comparePrerelease left' right'
  | _, _ => None
  end.

Definition Compare (left right : Version) : Z :=
  let compared := compareCore (core left) (core right) in
  if negb (compared =? 0) then compared
  else
    let nl := length (prerelease left) in
    let nr := length (prerelease right) in
    if (Nat.eqb nl 0 && Nat.eqb nr 0)%bool then 0
    else if Nat.eqb nl 0 then 1
    else if Nat.eqb nr 0 then -1
    else match comparePrerelease (prerelease left) (prerelease right) with
         | Some compared => compared
         | None => if Nat.ltb nl nr then -1 else if Nat.ltb nr nl then 1 else 0
         end.

(** ** Three-way comparisons that are total orders *)

Class TotalCompare {A} (cmp : A -> A -> comparison) : Prop := {
  cmp_eq : forall x y, cmp x y = Eq <-> x = y;
  cmp_opp : forall x y, cmp y x = CompOpp (cmp x y);
  cmp_lt : forall x y z, cmp x y = Lt -> cmp y z = Lt -> cmp x z = Lt
}.

Lemma cmp_refl {A} (cmp : A -> A -> comparison) `{!TotalCompare cmp} x : cmp x x = Eq.
Proof. by apply cmp_eq. Qed.

Lemma cmp_le_trans {A} (cmp : A -> A -> comparison) `{!TotalCompare cmp} x y z :
  cmp x y <> Gt -> cmp y z <> Gt -> cmp x z <> Gt.
Proof.
  intros Hxy Hyz. destruct (cmp x y) eqn:E1; [|destruct (cmp y z) eqn:E2|done].
  - by apply cmp_eq in E1 as ->.
  - apply cmp_eq in E2 as <-. by rewrite E1.
  - by rewrite (cmp_lt (cmp := cmp) x y z E1 E2).
  - done.
Qed.

#[export] Instance Z_total : TotalCompare Z.compare.
Proof.
  split; [apply Z.compare_eq_iff|intros; apply Z.compare_antisym|].
  intros x y z. rewrite !Z.compare_lt_iff. lia.
Qed.

Lemma ascii_code_inj a b : N_of_ascii a = N_of_ascii b -> a = b.
Proof. intros Hab. rewrite <- (ascii_N_embedding a), <- (ascii_N_embedding b). by rewrite Hab. Qed.

#[export] Instance ascii_total : TotalCompare Ascii.compare.
Proof.
  split.
  - intros x y. unfold Ascii.compare. rewrite N.compare_eq_iff. split; [apply ascii_code_inj|by intros ->].
  - intros x y. apply N.compare_antisym.
  - intros x y z. unfold Ascii.compare. rewrite !N.compare_lt_iff. lia.
Qed.

Section Lexicographic.
Context {A : Type} (cmp : A -> A -> comparison) `{!TotalCompare cmp}.

Fixpoint lex (l r : list A) : comparison :=
  match l, r with
  | [], [] => Eq
  | [], _ :: _ => Lt
  | _ :: _, [] => Gt
  | x :: l', y :: r' => match cmp x y with Eq => lex l' r' | c => c end
  end.

#[export] Instance lex_total : TotalCompare lex.
Proof.
  split.
  - induction x as [|a x IH]; intros [|b y]; simpl; try done.
    destruct (cmp a b) eqn:E.
    + apply cmp_eq in E as ->. rewrite IH. split; [by intros ->|by intros [= ->]].
    + split; [done|]. intros [= -> _]. by rewrite cmp_refl in E.
    + split; [done|]. intros [= -> _]. by rewrite cmp_refl in E.
  - induction x as [|a x IH]; intros [|b y]; simpl; try done.
    rewrite (cmp_opp a b). destruct (cmp a b); simpl; [apply IH|done|done].
  - induction x as [|a x IH]; intros [|b y] [|c z]; simpl; try done.
    destruct (cmp a b) eqn:E1; [|destruct (cmp b c) eqn:E2|done].
    + apply cmp_eq in E1 as ->. destruct (cmp b c); [apply IH|done|done].
    + apply cmp_eq in E2 as <-. by rewrite E1.
    + intros _ _. by rewrite (cmp_lt (cmp := cmp) a b c E1 E2).
    + done.
Qed.
End Lexicographic.

Lemma string_lex l r : String.compare l r = lex Ascii.compare (String.list_ascii_of_string l) (String.list_ascii_of_string r).
Proof.
  revert r. induction l as [|a l IH]; intros [|b r]; simpl; try done.
  destruct (Ascii.compare a b); [apply IH|done|done].
Qed.

Lemma ascii_list_inj l r : String.list_ascii_of_string l = String.list_ascii_of_string r -> l = r.
Proof.
  intros Hlr. rewrite <- (String.string_of_list_ascii_of_string l), Hlr.
  apply String.string_of_list_ascii_of_string.
Qed.

#[export] Instance string_total : TotalCompare String.compare.
Proof.
  split; intros x y; rewrite ?string_lex.
  - rewrite cmp_eq. split; [apply ascii_list_inj|by intros ->].
  - apply cmp_opp.
  - intros z. rewrite !string_lex. apply cmp_lt.
Qed.

(** ** The order of the SemVer document *)

(** The number a digit string denotes. *)
Fixpoint decimal (acc : Z) (s : string) : Z :=
  match s with
  | EmptyString => acc
  | String c s' => decimal (10 * acc + (Z.of_N (byte_code c) - 48)) s'
  end.

Inductive identifier := Number (n : Z) | Word (s : string).

(** Numbers compare numerically and are below words, words compare bytewise. *)
Definition compare_identifier (l r : identifier) : comparison :=
  match l, r with
  | Number m, Number n => m ?= n
  | Number _, Word _ => Lt
  | Word _, Number _ => Gt
  | Word s, Word t => String.compare s t
  end.

#[export] Instance identifier_total : TotalCompare compare_identifier.
Proof.
  split.
  - intros [m|s] [n|t]; simpl; try done; rewrite cmp_eq; split; [by intros ->|by intros [=]|by intros ->|by intros [=]].
  - intros [m|s] [n|t]; simpl; try done; apply cmp_opp.
  - intros [m|s] [n|t] [k|u]; simpl; try done; apply cmp_lt.
Qed.

Definition identify (part : string) : identifier :=
  if numeric part then Number (decimal 0 part) else Word part.

(** A version without prerelease is above those with one; a longer list of
    identifiers is above its prefixes. *)
Definition compare_release (l r : list identifier) : comparison :=
  match l, r with
  | [], [] => Eq
  | [], _ :: _ => Gt
  | _ :: _, [] => Lt
  | _, _ => lex compare_identifier l r
  end.

#[export] Instance release_total : TotalCompare compare_release.
Proof.
  split.
  - intros [|a x] [|b y]; try done. apply (cmp_eq (cmp := lex compare_identifier)).
  - intros [|a x] [|b y]; try done. apply (cmp_opp (cmp := lex compare_identifier)).
  - intros [|a x] [|b y] [|c z]; try done. apply (cmp_lt (cmp := lex compare_identifier)).
Qed.

Definition meaning (v : Version) : list Z * list identifier :=
  (decimal 0 <$> core v, identify <$> prerelease v).

Definition precedence (l r : list Z * list identifier) : comparison :=
  match lex Z.compare l.1 r.1 with Eq => compare_release l.2 r.2 | c => c end.

#[export] Instance precedence_total : TotalCompare precedence.
Proof.
  split.
  - intros [a x] [b y]. unfold precedence; simpl. destruct (lex Z.compare a b) eqn:E.
    + apply cmp_eq in E as ->. rewrite cmp_eq. split; [by intros ->|by intros [=]].
    + split; [done|]. intros [= -> _]. by rewrite cmp_refl in E; [|apply _].
    + split; [done|]. intros [= -> _]. by rewrite cmp_refl in E; [|apply _].
  - intros [a x] [b y]. unfold precedence; simpl. rewrite (cmp_opp (cmp := lex Z.compare) a b).
    destruct (lex Z.compare a b); simpl; [apply cmp_opp|done|done].
  - intros [a x] [b y] [c z]. unfold precedence; simpl.
    destruct (lex Z.compare a b) eqn:E1; [|destruct (lex Z.compare b c) eqn:E2|done].
    + apply cmp_eq in E1 as ->. destruct (lex Z.compare b c); [apply cmp_lt|done|done].
    + apply cmp_eq in E2 as <-. by rewrite E1.
    + intros _ _. by rewrite (cmp_lt (cmp := lex Z.compare) a b c E1 E2).
    + done.
Qed.

Definition sign (c : comparison) : Z := match c with Lt => -1 | Eq => 0 | Gt => 1 end.

Lemma sign_opp c : sign (CompOpp c) = - sign c.
Proof. by destruct c. Qed.

(** ** Digit strings *)

Definition canonical (s : string) : bool :=
  numeric s && negb ((1 <? zlen s) && leading_zero s).

Lemma validNumeric_canonical s : validNumeric s = canonical s.
Proof.
  unfold validNumeric, canonical, numeric. destruct s as [|c s]; [done|].
  assert (1 <= zlen (String c s)) by (unfold zlen; simpl; lia).
  destruct (Z.eqb_spec (zlen (String c s)) 1), (Z.ltb_spec 1 (zlen (String c s))); try lia;
    by destruct (leading_zero _).
Qed.

Definition digit (c : ascii) : Z := Z.of_N (byte_code c) - 48.

Lemma digit_range c : is_digit c = true -> 0 <= digit c <= 9.
Proof. unfold is_digit, in_range, digit. intros [?%N.leb_le ?%N.leb_le]%andb_true_iff. lia. Qed.

Lemma digit_zero c : is_digit c = true -> Ascii.eqb c "0"%char = false -> 1 <= digit c.
Proof.
  intros Hd%digit_range Hz. destruct (Z.eq_dec (digit c) 0) as [H0|]; [|lia].
  apply Ascii.eqb_neq in Hz. exfalso. apply Hz, ascii_code_inj. unfold digit in H0.
  change (N_of_ascii "0"%char) with 48%N. lia.
Qed.

Lemma zlen_cons c s : zlen (String c s) = zlen s + 1.
Proof. unfold zlen. simpl. lia. Qed.
Lemma zlen_nonneg s : 0 <= zlen s.
Proof. unfold zlen. lia. Qed.

Lemma decimal_shift a s : decimal a s = a * 10 ^ zlen s + decimal 0 s.
Proof.
  revert a. induction s as [|c s IH]; intros a; [simpl; unfold zlen; simpl; lia|].
  cbn [decimal]. rewrite zlen_cons, (IH (10 * a + _)), (IH (10 * 0 + _)).
  rewrite Z.pow_add_r by (pose proof (zlen_nonneg s); lia). ring.
Qed.

Lemma decimal_range s : str_forall is_digit s = true -> 0 <= decimal 0 s < 10 ^ zlen s.
Proof.
  induction s as [|c s IH]; [done|]. simpl. intros [Hc%digit_range Hs%IH]%andb_true_iff.
  rewrite decimal_shift, zlen_cons, Z.pow_add_r by (pose proof (zlen_nonneg s); lia).
  rewrite Z.mul_0_r, Z.add_0_l. fold (digit c). nia.
Qed.

Lemma decimal_cons c s : decimal 0 (String c s) = digit c * 10 ^ zlen s + decimal 0 s.
Proof. cbn [decimal]. rewrite decimal_shift. unfold digit. lia. Qed.

Lemma decimal_lex l r :
  str_forall is_digit l = true -> str_forall is_digit r = true -> zlen l = zlen r ->
  String.compare l r = (decimal 0 l ?= decimal 0 r).
Proof.
  revert r. induction l as [|a l IH]; intros [|b r] Hl Hr Hn;
    try (unfold zlen in Hn; simpl in Hn; lia); [done|].
  simpl in Hl, Hr. apply andb_true_iff in Hl as [Ha Hl], Hr as [Hb Hr].
  rewrite !zlen_cons in Hn. assert (Hn' : zlen l = zlen r) by lia.
  rewrite !decimal_cons, <- Hn'. pose proof (decimal_range l Hl) as Rl.
  pose proof (decimal_range r Hr) as Rr. rewrite <- Hn' in Rr. cbn [String.compare].
  destruct (Ascii.compare a b) eqn:E; unfold Ascii.compare in E.
  - apply N.compare_eq_iff, ascii_code_inj in E as ->. rewrite (IH r Hl Hr Hn').
    symmetry. destruct (Z.compare_spec (decimal 0 l) (decimal 0 r));
      [apply Z.compare_eq_iff|apply Z.compare_lt_iff|apply Z.compare_gt_iff]; lia.
  - symmetry. rewrite N.compare_lt_iff in E. apply Z.compare_lt_iff.
    assert (digit a + 1 <= digit b) by (unfold digit; lia). nia.
  - symmetry. rewrite N.compare_gt_iff in E. apply Z.compare_gt_iff.
    assert (digit b + 1 <= digit a) by (unfold digit; lia). nia.
Qed.

(** A canonical digit string has at least the value its length tells. *)
Lemma canonical_floor s :
  canonical s = true -> 1 < zlen s -> 10 ^ (zlen s - 1) <= decimal 0 s.
Proof.
  unfold canonical, numeric. intros [[_ Hd]%andb_true_iff Hz]%andb_true_iff Hlen.
  rewrite (proj2 (Z.ltb_lt _ _) Hlen) in Hz. destruct s as [|c s]; [done|]. simpl in Hz, Hd.
  apply andb_true_iff in Hd as [Hc Hs]. apply negb_true_iff in Hz.
  pose proof (digit_zero c Hc Hz). pose proof (decimal_range s Hs).
  rewrite decimal_cons, zlen_cons, Z.add_simpl_r. nia.
Qed.

Lemma canonical_digits s : canonical s = true -> str_forall is_digit s = true /\ 1 <= zlen s.
Proof.
  unfold canonical, numeric. intros [[Hne Hd]%andb_true_iff _]%andb_true_iff. split; [done|].
  destruct s; [done|]. rewrite zlen_cons. pose proof (zlen_nonneg s). lia.
Qed.

Lemma canonical_shorter l r :
  canonical l = true -> canonical r = true -> zlen l < zlen r -> decimal 0 l < decimal 0 r.
Proof.
  intros Hl Hr Hlt. destruct (canonical_digits l Hl) as [Dl Nl].
  pose proof (canonical_floor r Hr ltac:(lia)). pose proof (decimal_range l Dl).
  assert (10 ^ zlen l <= 10 ^ (zlen r - 1)) by (apply Z.pow_le_mono_r; lia). lia.
Qed.

Lemma compareNumeric_decimal l r :
  canonical l = true -> canonical r = true ->
  compareNumeric l r = sign (decimal 0 l ?= decimal 0 r).
Proof.
  intros Hl Hr. unfold compareNumeric.
  destruct (Z.ltb_spec (zlen l) (zlen r)) as [Hlt|Hge].
  { pose proof (canonical_shorter l r Hl Hr Hlt) as ->%Z.compare_lt_iff. done. }
  destruct (Z.ltb_spec (zlen r) (zlen l)) as [Hgt|Hle].
  { pose proof (canonical_shorter r l Hr Hl Hgt) as ->%Z.compare_gt_iff. done. }
  destruct (canonical_digits l Hl) as [Dl _], (canonical_digits r Hr) as [Dr _].
  rewrite <- decimal_lex by (done || lia). unfold String.ltb. rewrite (cmp_opp l r).
  by destruct (String.compare l r).
Qed.

Lemma compareNumeric_zero l r : compareNumeric l r = 0 <-> l = r.
Proof.
  unfold compareNumeric, String.ltb. split.
  - destruct (zlen l <? zlen r); [done|]. destruct (zlen r <? zlen l); [done|].
    rewrite (cmp_opp l r). destruct (String.compare l r) eqn:E; try done. by apply cmp_eq in E.
  - intros ->. by rewrite Z.ltb_irrefl, (cmp_refl String.compare).
Qed.

Lemma decimal_inj l r :
  canonical l = true -> canonical r = true -> decimal 0 l = decimal 0 r -> l = r.
Proof.
  intros Hl Hr Hd. apply compareNumeric_zero. rewrite compareNumeric_decimal by done.
  by rewrite Hd, Z.compare_refl.
Qed.

(** ** Parsed versions *)

Definition part_ok (part : string) : bool :=
  validIdentifier part && negb (numeric part && (1 <? zlen part) && leading_zero part).

Record version_ok (v : Version) : Prop := mkVersionOk {
  vo_core : Forall (fun s => canonical s = true) (core v);
  vo_length : length (core v) = 3%nat;
  vo_parts : Forall (fun s => part_ok s = true) (prerelease v)
}.

(** The string a version was parsed from. *)
Definition print (v : Version) : string :=
  join "." (core v) +:+
  match prerelease v with [] => "" | parts => "-" +:+ join "." parts end.

Lemma parsed_version_ok value v : Parse value = Ok v -> version_ok v /\ print v = value.
Proof.
  unfold Parse. destruct (empty value || contains "+" value); [done|].
  destruct (cut _ value) as [[coreValue preValue] found] eqn:Hcut. apply cut_spec in Hcut.
  destruct (Nat.eqb_spec (length (split "."%char coreValue)) 3) as [Hlen|]; [simpl|done].
  destruct (forallb validNumeric (split "."%char coreValue)) eqn:Hnum; [simpl|done].
  assert (Hcore : Forall (fun s => canonical s = true) (split "."%char coreValue)).
  { apply Forall_forall. intros s Hs%list_elem_of_In. rewrite <- validNumeric_canonical.
    rewrite forallb_forall in Hnum. auto. }
  destruct found; simpl.
  - destruct (existsb _ _) eqn:Hex; [done|]. intros [= <-]. split.
    + split; [done|done|]. apply Forall_forall. intros s Hs%list_elem_of_In. simpl in *.
      apply not_true_iff_false in Hex. unfold part_ok. apply andb_true_iff.
      rewrite negb_true_iff. split.
      * destruct (validIdentifier s) eqn:E; [done|]. exfalso. apply Hex.
        apply existsb_exists. exists s. split; [done|]. by rewrite E.
      * destruct (numeric s && _ && _) eqn:E; [|done]. exfalso. apply Hex.
        apply existsb_exists. exists s. split; [done|]. rewrite E. apply orb_true_r.
    + unfold print. cbn [core prerelease]. rewrite join_split, Hcut. f_equal.
      pose proof (split_nonempty "."%char preValue). pose proof (join_split "."%char preValue) as Hj.
      destruct (split "."%char preValue); [done|]. cbv zeta. by rewrite Hj.
  - intros [= <-]. split; [split; [done|done|constructor]|]. unfold print. simpl.
    by rewrite join_split, app_empty_r, Hcut.
Qed.

Lemma part_canonical part : part_ok part = true -> numeric part = true -> canonical part = true.
Proof. unfold part_ok, canonical. intros [_ Hz]%andb_true_iff Hn. rewrite Hn in Hz. by rewrite Hn. Qed.

Lemma identify_inj l r : part_ok l = true -> part_ok r = true -> identify l = identify r -> l = r.
Proof.
  intros Hl Hr. unfold identify. destruct (numeric l) eqn:El, (numeric r) eqn:Er; try done.
  - intros [= Hd]. apply decimal_inj; [by apply part_canonical..|done].
  - by intros [=].
Qed.

Lemma fmap_inj_on {A B} (P : A -> Prop) (f : A -> B) l r :
  (forall x y, P x -> P y -> f x = f y -> x = y) -> Forall P l -> Forall P r ->
  f <$> l = f <$> r -> l = r.
Proof.
  intros Hf Hl. revert r. induction Hl as [|x l Hx Hl IH]; intros [|y r] Hr; try done.
  inversion_clear Hr. simpl. intros [= Hxy Hlr]. f_equal; auto.
Qed.

Lemma meaning_inj l r : version_ok l -> version_ok r -> meaning l = meaning r -> l = r.
Proof.
  intros [Cl _ Pl] [Cr _ Pr] [= Hc Hp]. destruct l as [cl pl], r as [cr pr]; simpl in *. f_equal.
  - eapply (fmap_inj_on (fun s => canonical s = true)); [|done..]. apply decimal_inj.
  - eapply (fmap_inj_on (fun s => part_ok s = true)); [|done..]. apply identify_inj.
Qed.

Lemma compareCore_lex l r :
  Forall (fun s => canonical s = true) l -> Forall (fun s => canonical s = true) r ->
  length l = length r ->
  compareCore l r = sign (lex Z.compare (decimal 0 <$> l) (decimal 0 <$> r)).
Proof.
  intros Hl. revert r. induction Hl as [|x l Hx Hl IH]; intros [|y r] Hr Hn; try done.
  inversion_clear Hr. simpl in *. rewrite compareNumeric_decimal by done.
  destruct (decimal 0 x ?= decimal 0 y); simpl; [|done..]. apply IH; [done|lia].
Qed.

Lemma comparePrerelease_lex l r :
  Forall (fun s => part_ok s = true) l -> Forall (fun s => part_ok s = true) r ->
  match comparePrerelease l r with
  | Some compared => compared
  | None => if Nat.ltb (length l) (length r) then -1
            else if Nat.ltb (length r) (length l) then 1 else 0
  end = sign (lex compare_identifier (identify <$> l) (identify <$> r)).
Proof.
  intros Hl. revert r. induction Hl as [|x l Hx Hl IH]; intros [|y r] Hr; try done.
  inversion_clear Hr as [|? ? Hy Hr']. specialize (IH r Hr'). rewrite !fmap_cons.
  cbn [comparePrerelease lex length]. unfold Nat.ltb in *. cbn [Nat.leb].
  assert (Hid : compare_identifier (identify x) (identify y) =
    match numeric x, numeric y with
    | true, true => decimal 0 x ?= decimal 0 y | true, false => Lt
    | false, true => Gt | false, false => String.compare x y end).
  { unfold identify. by destruct (numeric x), (numeric y). }
  rewrite Hid. destruct (numeric x) eqn:Ex, (numeric y) eqn:Ey; simpl; try done.
  - rewrite compareNumeric_decimal by (by apply part_canonical).
    destruct (decimal 0 x ?= decimal 0 y); simpl; [apply IH|done..].
  - unfold String.ltb. rewrite (cmp_opp x y). destruct (String.compare x y); simpl; [apply IH|done..].
Qed.

Lemma Compare_precedence l r :
  version_ok l -> version_ok r -> Compare l r = sign (precedence (meaning l) (meaning r)).
Proof.
  intros [Cl Nl Pl] [Cr Nr Pr]. unfold Compare, precedence, meaning; simpl.
  rewrite compareCore_lex by (done || lia).
  destruct (lex Z.compare _ _); simpl; [|done..].
  pose proof (comparePrerelease_lex (prerelease l) (prerelease r) Pl Pr) as Hp.
  destruct (prerelease l) as [|x pl], (prerelease r) as [|y pr]; try done.
Qed.

(** ** Theorems *)

(** The comparison is SemVer precedence.  On versions the parser accepts,
    comparing digit strings by length and bytes gives what the SemVer document
    prescribes: numeric core and identifiers by value (whatever their size),
    numbers below words, words by ASCII order, a longer prerelease above its
    prefix, a release above its prereleases. *)
Theorem compare_is_precedence left right l r
    (Hleft : Parse left = Ok l) (Hright : Parse right = Ok r) :
  Compare l r = sign (precedence (meaning l) (meaning r)).
Proof. apply parsed_version_ok in Hleft as [? _], Hright as [? _]. by apply Compare_precedence. Qed.

Definition rc1 : Version := mkVersion ["1"; "20"; "0"] ["rc"; "1"].
Definition rc10 : Version := mkVersion ["1"; "20"; "0"] ["rc"; "10"].

Lemma compare_is_precedence_witness :
  Compare rc1 rc10 = -1 /\ Compare rc1 rc10 = sign (precedence (meaning rc1) (meaning rc10)).
Proof.
  split; [reflexivity|].
  apply (compare_is_precedence "1.20.0-rc.1" "1.20.0-rc.10"); reflexivity.
Defined.

(** Versions are totally ordered.  On parsed versions the comparison is
    antisymmetric and transitive, and it separates different version strings:
    two strings compare equal only if they are the same string, so an update
    check never takes a different release for the installed one. *)
Theorem compare_total_order a b c va vb vc
    (Ha : Parse a = Ok va) (Hb : Parse b = Ok vb) (Hc : Parse c = Ok vc) :
  Compare vb va = - Compare va vb /\
  (Compare va vb <= 0 -> Compare vb vc <= 0 -> Compare va vc <= 0) /\
  (Compare va vb = 0 <-> a = b).
Proof.
  destruct (parsed_version_ok _ _ Ha) as [Oa Pa], (parsed_version_ok _ _ Hb) as [Ob Pb], (parsed_version_ok _ _ Hc) as [Oc _].
  rewrite !Compare_precedence by done.
  assert (Hle : forall x, sign x <= 0 <-> x <> Gt) by (intros []; simpl; split; (done || lia)).
  split; [|split].
  - rewrite <- sign_opp. f_equal. apply cmp_opp.
  - rewrite !Hle. apply (cmp_le_trans precedence).
  - transitivity (precedence (meaning va) (meaning vb) = Eq).
    { by destruct (precedence _ _). }
    rewrite cmp_eq. split.
    + intros ->%meaning_inj; [|done..]. by rewrite <- Pa, Pb.
    + intros <-. rewrite Ha in Hb. by injection Hb as ->.
Qed.

Definition v1 : Version := mkVersion ["1"; "0"; "0"] [].

Lemma compare_total_order_witness :
  Compare rc10 rc1 = - Compare rc1 rc10 /\ (Compare rc1 rc10 <= 0 -> Compare rc10 v1 <= 0 -> Compare rc1 v1 <= 0) /\ (Compare rc1 rc10 = 0 <-> "1.20.0-rc.1" = "1.20.0-rc.10").
Proof.
  apply (compare_total_order "1.20.0-rc.1" "1.20.0-rc.10" "1.0.0"); reflexivity.
Defined.
