(* ===== verification/Tunnel.v ===== *)
(** * The host tunnel: internal/hosttunnel

    One websocket between two hosts carries many TCP streams.  [Peer] is one
    end: its stream table, its frames and the goroutines that work on it.

    Streams are shared between goroutines by pointer, so they live in a heap;
    the table of the peer maps identifiers to pointers, and a goroutine keeps
    its pointer after the table has dropped the stream.  A [Sys] is a peer with
    the positions of its goroutines; [step] interleaves them.  One step is one
    region under a lock, one channel operation or one call on a connection.
    The websocket, the local dialer and the piped connections are outside: what
    they answer is an argument of the rules. *)

From stdpp Require Import pretty.
From S2P Require Import Prelude.
From Stdlib Require Import Ascii.

Abbreviation bytes := (list Z).

Definition frameOpen : Z := 1.
Definition frameAck : Z := 2.
Definition frameData : Z := 3.
Definition frameClose : Z := 4.
Definition frameError : Z := 5.
Definition frameKeepalive : Z := 6.

Definition maxFrameBytes : Z := Z.shiftl 64 10.
Definition maxStreams : nat := 256.
Definition headerSize : Z := 5.
Definition incomingCapacity : nat := 16.
Definition pumpBuffer : Z := Z.shiftl 32 10.

Definition errPeerClosed : goerr := Sentinel "errPeerClosed" "internal tunnel is closed".
Definition errTooMany : goerr := Msg "internal tunnel has too many connections".

(** [encoding/json] on [openPayload]. *)
Class OpenCodec := {
  marshal_open : string -> Z -> bytes;
  unmarshal_open : bytes -> option (string * Z)
}.

Definition bytes_of (s : string) : bytes :=
  (fun c => Z.of_N (byte_code c)) <$> String.list_ascii_of_string s.
Definition string_of (b : bytes) : string :=
  String.string_of_list_ascii ((fun n => ascii_of_N (Z.to_N n)) <$> b).

(** [incoming] is a channel of capacity 16, [ready] one of capacity 1, [done]
    says that the channel of that name is closed (and the pipe with it), and
    [written] is what the pipe has accepted so far. *)
Record stream := mkStream {
  s_id : Z;
  s_ready : list (option goerr);
  s_incoming : list bytes;
  s_done : bool;
  s_written : list bytes
}.

Record Peer := mkPeer {
  nextID : Z;
  streams : gmap Z nat;
  heap : gmap nat stream;
  closed : bool;
  sent : list bytes
}.

Definition newPeer (firstID : Z) : Peer := mkPeer firstID ∅ ∅ false [].
Definition NewPeer : Peer := newPeer 1.
Definition NewServerPeer : Peer := newPeer 2.

Definition set_heap (h : gmap nat stream) (peer : Peer) : Peer :=
  mkPeer (nextID peer) (streams peer) h (closed peer) (sent peer).
Definition set_streams (m : gmap Z nat) (peer : Peer) : Peer :=
  mkPeer (nextID peer) m (heap peer) (closed peer) (sent peer).

(** ** Frames *)

(** [binary.BigEndian] on 32 bits. *)
Definition PutUint32 (v : Z) : bytes :=
  [Z.land (Z.shiftr v 24) 255; Z.land (Z.shiftr v 16) 255;
   Z.land (Z.shiftr v 8) 255; Z.land v 255].
Definition Uint32 (b0 b1 b2 b3 : Z) : Z :=
  Z.lor b3 (Z.lor (Z.shiftl b2 8) (Z.lor (Z.shiftl b1 16) (Z.shiftl b0 24))).

(** [wrote] is the answer of the connection. *)
Definition writeFrame (wrote : option goerr) (kind id : Z) (payload : bytes) (peer : Peer)
    : Peer * option goerr :=
  if maxFrameBytes - headerSize <? Z.of_nat (length payload)
  then (peer, Some (Msg "internal tunnel frame is too large"))
  else if closed peer then (peer, Some errPeerClosed)
  else match wrote with
       | Some e => (peer, Some e)
       | None =>
           let frame := kind :: PutUint32 id ++ payload in
           (mkPeer (nextID peer) (streams peer) (heap peer) (closed peer) (sent peer ++ [frame]), None)
       end.

Definition decodeFrame (frame : bytes) : result goerr (Z * Z * bytes) :=
  match frame with
  | kind :: b0 :: b1 :: b2 :: b3 :: payload =>
      if maxFrameBytes <? Z.of_nat (length frame)
      then Err (Msg "internal tunnel frame is invalid")
      else Ok (kind, Uint32 b0 b1 b2 b3, payload)
  | _ => Err (Msg "internal tunnel frame is invalid")
  end.

(** ** Streams *)

(** The scan for a free identifier, at most [fuel] candidates in steps of two;
    it gives up when the 32-bit counter wraps to zero. *)
Fixpoint freeID (fuel : nat) (candidate : Z) (table : gmap Z nat) : option Z :=
  match fuel with
  | O => None
  | S f => match table !! candidate with
           | None => Some candidate
           | Some _ => let next := u32 (candidate + 2) in
                       if next =? 0 then None else freeID f next table
           end
  end.

Definition addStream (id next : Z) (peer : Peer) : Peer * result goerr nat :=
  let p := fresh (dom (heap peer)) in
  (mkPeer next (<[id := p]> (streams peer))
     (<[p := mkStream id [] [] false []]> (heap peer)) (closed peer) (sent peer), Ok p).

Definition allocate (id : Z) (peer : Peer) : Peer * result goerr nat :=
  if Nat.leb maxStreams (size (streams peer)) then (peer, Err errTooMany)
  else if id =? 0 then
    if nextID peer =? 0 then (peer, Err errTooMany)
    else match freeID (maxStreams + 1) (nextID peer) (streams peer) with
         | None => (peer, Err errTooMany)
         | Some found => addStream found (u32 (found + 2)) peer
         end
  else if bool_decide (is_Some (streams peer !! id))
  then (peer, Err (Msg ("internal tunnel id " +:+ pretty id +:+ " is already used")))
  else addStream id (nextID peer) peer.

Definition lookupStream (id : Z) (peer : Peer) : option nat := streams peer !! id.

(** The send on [ready] that does not wait. *)
Definition signal (p : nat) (e : option goerr) (peer : Peer) : Peer :=
  set_heap (alter (fun s => match s_ready s with
                            | [] => mkStream (s_id s) [e] (s_incoming s) (s_done s) (s_written s)
                            | _ => s
                            end) p (heap peer)) peer.

Definition shutdown_stream (s : stream) : stream :=
  mkStream (s_id s) (s_ready s) (s_incoming s) true (s_written s).
Definition shutdown (p : nat) (peer : Peer) : Peer :=
  set_heap (alter shutdown_stream p (heap peer)) peer.

Definition drop (id : Z) (peer : Peer) : Peer :=
  let peer' := set_streams (delete id (streams peer)) peer in
  match streams peer !! id with
  | Some p => shutdown p peer'
  | None => peer'
  end.

(** [Close] in its two parts: the swap of the flag, and the streams. *)
Definition Close_swap (peer : Peer) : Peer * bool :=
  (mkPeer (nextID peer) (streams peer) (heap peer) true (sent peer), negb (closed peer)).
Definition Close_streams (peer : Peer) : Peer :=
  set_streams ∅ (foldr shutdown peer (snd <$> map_to_list (streams peer))).

(** ** Received frames *)

(** What the serving loop does after [handle] looked at a frame: go on or
    return, dial for an open request, hand over data, or drop a stream. *)
Inductive Handled :=
| Return_ (e : option goerr)
| Refuse (id : Z) (message : string)
| DialFor (id : Z) (hostname : string) (port : Z)
| Deliver (p : nat) (payload : bytes)
| DropThen (id : Z).

Section Operations.
Context `{OpenCodec}.

Definition acceptOpen (id : Z) (payload : bytes) : Handled :=
  match unmarshal_open payload with
  | Some (hostname, port) =>
      if empty hostname || (port =? 0) then Refuse id "tunnel open is invalid"
      else DialFor id hostname port
  | None => Refuse id "tunnel open is invalid"
  end.

Definition handle (frame : bytes) (peer : Peer) : Peer * Handled :=
  match decodeFrame frame with
  | Err e => (peer, Return_ (Some e))
  | Ok (kind, id, payload) =>
      if kind =? frameOpen then (peer, acceptOpen id payload)
      else if kind =? frameAck then
        match lookupStream id peer with
        | Some p => (signal p None peer, Return_ None)
        | None => (peer, Return_ None)
        end
      else if kind =? frameError then
        match lookupStream id peer with
        | Some p =>
            let message := if empty (string_of payload) then "internal tunnel open failed"
                           else string_of payload in
            (signal p (Some (Msg message)) peer, DropThen id)
        | None => (peer, Return_ None)
        end
      else if kind =? frameData then
        match lookupStream id peer with
        | Some p => (peer, Deliver p payload)
        | None => (peer, Return_ None)
        end
      else if kind =? frameClose then (peer, DropThen id)
      else if kind =? frameKeepalive then (peer, Return_ None)
      else (peer, Return_ (Some (Msg ("unknown internal tunnel frame " +:+ pretty kind))))
  end.

(** Channel operations of [handle] and [pump] on [incoming]. *)
Definition enqueue (payload : bytes) (s : stream) : stream :=
  mkStream (s_id s) (s_ready s) (s_incoming s ++ [payload]) (s_done s) (s_written s).
Definition dequeue (s : stream) : stream :=
  mkStream (s_id s) (s_ready s) (tail (s_incoming s)) (s_done s) (s_written s).
Definition write_pipe (payload : bytes) (s : stream) : stream :=
  mkStream (s_id s) (s_ready s) (s_incoming s) (s_done s) (s_written s ++ [payload]).
Definition take_ready (s : stream) : stream :=
  mkStream (s_id s) (tail (s_ready s)) (s_incoming s) (s_done s) (s_written s).
Definition update (f : stream -> stream) (p : nat) (peer : Peer) : Peer :=
  set_heap (alter f p (heap peer)) peer.

(** ** The goroutines *)

(** The two goroutines of [pump]. *)
Inductive Reader := Reading | Sending (data : bytes) (more : bool) | Closing | DroppingLast | ReaderDone.
Inductive Writer := Selecting | Writing (payload : bytes) | WriterDone.

(** Where the call that allocated a stream is: [Dial] writing its open frame,
    waiting for the answer, giving up or failed; then [pump].  [acceptOpen]
    runs in the serving loop until it starts [pump]. *)
Inductive Phase :=
| Opening (hostname : string) (port : Z)
| Waiting
| GivingUp
| DialFailed
| Pumping (r : Reader) (w : Writer).

Inductive Serving :=
| Idle
| Delivering (p : nat) (payload : bytes)
| Dialing (id : Z)
| Acknowledging (id : Z) (p : nat)
| Dropping (id : Z) (stop : bool)
| Stopping
| Stopped.

(** [starting]: the calls of [Dial] that found the peer open.  [closing]: a
    [Close] between its two parts.  [log]: the data frames that arrived, with
    the stream they were for. *)
Record Sys := mkSys {
  peer : Peer;
  starting : list (string * Z);
  phases : gmap nat Phase;
  serving : Serving;
  closing : bool;
  log : list (nat * bytes)
}.

Definition new_sys (firstID : Z) : Sys := mkSys (newPeer firstID) [] ∅ Idle false [].

(** The serving loop after [handle]; [wrote] answers the refusal it may send. *)
Definition serve_frame (wrote : option goerr) (frame : bytes) (s : Sys) : Sys :=
  let '(peer', handled) := handle frame (peer s) in
  match handled with
  | Return_ None => mkSys peer' (starting s) (phases s) Idle (closing s) (log s)
  | Return_ (Some _) => mkSys peer' (starting s) (phases s) Stopping (closing s) (log s)
  | Refuse id message =>
      mkSys (fst (writeFrame wrote frameError id (bytes_of message) peer'))
        (starting s) (phases s) Idle (closing s) (log s)
  | DialFor id _ _ => mkSys peer' (starting s) (phases s) (Dialing id) (closing s) (log s)
  | Deliver p payload =>
      mkSys peer' (starting s) (phases s) (Delivering p payload) (closing s) (log s ++ [(p, payload)])
  | DropThen id => mkSys peer' (starting s) (phases s) (Dropping id false) (closing s) (log s)
  end.

Definition with_peer (p : Peer) (s : Sys) : Sys :=
  mkSys p (starting s) (phases s) (serving s) (closing s) (log s).
Definition with_serving (v : Serving) (s : Sys) : Sys :=
  mkSys (peer s) (starting s) (phases s) v (closing s) (log s).
Definition with_phase (p : nat) (ph : Phase) (s : Sys) : Sys :=
  mkSys (peer s) (starting s) (<[p := ph]> (phases s)) (serving s) (closing s) (log s).
(** [Close] begins: only the first call goes on to the streams. *)
Definition start_close (s : Sys) : Sys :=
  let '(peer', first) := Close_swap (peer s) in
  mkSys peer' (starting s) (phases s) (serving s) (closing s || first) (log s).

(** A label [Some p] is the cancellation of the context of the [Dial] that
    waits for stream [p]. *)
Inductive dial_step : option nat -> Sys -> Sys -> Prop :=
| dial_begin hostname port s :
    closed (peer s) = false ->
    dial_step None s (mkSys (peer s) (starting s ++ [(hostname, port)]) (phases s) (serving s) (closing s) (log s))
| dial_allocate i hostname port s peer' p :
    starting s !! i = Some (hostname, port) -> allocate 0 (peer s) = (peer', Ok p) ->
    dial_step None s (mkSys peer' (list_delete i (starting s)) (<[p := Opening hostname port]> (phases s))
                   (serving s) (closing s) (log s))
| dial_refused i request s peer' e :
    starting s !! i = Some request -> allocate 0 (peer s) = (peer', Err e) ->
    dial_step None s (mkSys peer' (list_delete i (starting s)) (phases s) (serving s) (closing s) (log s))
| dial_open p hostname port st wrote s peer' :
    phases s !! p = Some (Opening hostname port) -> heap (peer s) !! p = Some st ->
    writeFrame wrote frameOpen (s_id st) (marshal_open hostname port) (peer s) = (peer', None) ->
    dial_step None s (with_phase p Waiting (with_peer peer' s))
| dial_open_failed p hostname port st wrote s peer' e :
    phases s !! p = Some (Opening hostname port) -> heap (peer s) !! p = Some st ->
    writeFrame wrote frameOpen (s_id st) (marshal_open hostname port) (peer s) = (peer', Some e) ->
    dial_step None s (with_phase p GivingUp (with_peer peer' s))
| dial_ready p st rest s :
    phases s !! p = Some Waiting -> heap (peer s) !! p = Some st -> s_ready st = None :: rest ->
    dial_step None s (with_phase p (Pumping Reading Selecting) (with_peer (update take_ready p (peer s)) s))
| dial_rejected p st e rest s :
    phases s !! p = Some Waiting -> heap (peer s) !! p = Some st -> s_ready st = Some e :: rest ->
    dial_step None s (with_phase p DialFailed (with_peer (update take_ready p (peer s)) s))
| dial_cancel p s :
    phases s !! p = Some Waiting -> dial_step (Some p) s (with_phase p GivingUp s)
| dial_drop p st s :
    phases s !! p = Some GivingUp -> heap (peer s) !! p = Some st ->
    dial_step None s (with_phase p DialFailed (with_peer (drop (s_id st) (peer s)) s)).

(** [Serve], [handle] and [acceptOpen]. *)
Inductive serve_step : Sys -> Sys -> Prop :=
| serve_read wrote frame s :
    serving s = Idle -> serve_step s (serve_frame wrote frame s)
| serve_failed s :
    serving s = Idle -> serve_step s (with_serving Stopping s)
| serve_enqueue p payload st s :
    serving s = Delivering p payload -> heap (peer s) !! p = Some st ->
    (length (s_incoming st) < incomingCapacity)%nat ->
    serve_step s (with_serving Idle (with_peer (update (enqueue payload) p (peer s)) s))
| serve_discard p payload st s :
    serving s = Delivering p payload -> heap (peer s) !! p = Some st -> s_done st = true ->
    serve_step s (with_serving Idle s)
| serve_drop id stop s :
    serving s = Dropping id stop ->
    serve_step s (with_serving (if stop : bool then Stopping else Idle) (with_peer (drop id (peer s)) s))
| serve_dial_failed id e wrote s :
    serving s = Dialing id ->
    serve_step s (with_serving Idle
      (with_peer (fst (writeFrame wrote frameError id (bytes_of (error_text e)) (peer s))) s))
| serve_dialed id s peer' p :
    serving s = Dialing id -> allocate id (peer s) = (peer', Ok p) ->
    serve_step s (with_serving (Acknowledging id p) (with_peer peer' s))
| serve_allocate_failed id wrote s peer' e :
    serving s = Dialing id -> allocate id (peer s) = (peer', Err e) ->
    serve_step s (with_serving Idle
      (with_peer (fst (writeFrame wrote frameError id (bytes_of (error_text e)) peer')) s))
| serve_acked id p wrote s peer' :
    serving s = Acknowledging id p -> writeFrame wrote frameAck id [] (peer s) = (peer', None) ->
    serve_step s (with_phase p (Pumping Reading Selecting) (with_serving Idle (with_peer peer' s)))
| serve_ack_failed id p wrote s peer' e :
    serving s = Acknowledging id p -> writeFrame wrote frameAck id [] (peer s) = (peer', Some e) ->
    serve_step s (with_serving (Dropping id true) (with_peer peer' s))
| serve_stop s :
    serving s = Stopping -> serve_step s (start_close (with_serving Stopped s)).

(** [Close] and [keepalive]. *)
Inductive close_step : Sys -> Sys -> Prop :=
| close_begin s : close_step s (start_close s)
| close_end s :
    closing s = true ->
    close_step s (mkSys (Close_streams (peer s)) (starting s) (phases s) (serving s) false (log s))
| keepalive_ok wrote s peer' :
    writeFrame wrote frameKeepalive 0 [] (peer s) = (peer', None) -> close_step s (with_peer peer' s)
| keepalive_failed wrote s peer' e :
    writeFrame wrote frameKeepalive 0 [] (peer s) = (peer', Some e) ->
    close_step s (start_close (with_peer peer' s)).

(** [pump]: from the pipe to the tunnel and from the tunnel to the pipe. *)
Inductive pump_step : Sys -> Sys -> Prop :=
| pump_read p w data more st s :
    phases s !! p = Some (Pumping Reading w) -> heap (peer s) !! p = Some st -> s_done st = false ->
    0 < Z.of_nat (length data) <= pumpBuffer ->
    pump_step s (with_phase p (Pumping (Sending data more) w) s)
| pump_read_failed p w s :
    phases s !! p = Some (Pumping Reading w) -> pump_step s (with_phase p (Pumping Closing w) s)
| pump_send p w data more st wrote s peer' e :
    phases s !! p = Some (Pumping (Sending data more) w) -> heap (peer s) !! p = Some st ->
    writeFrame wrote frameData (s_id st) data (peer s) = (peer', e) ->
    pump_step s (with_phase p (Pumping (if more && negb (bool_decide (is_Some e)) then Reading else Closing) w)
                   (with_peer peer' s))
| pump_close p w st wrote s :
    phases s !! p = Some (Pumping Closing w) -> heap (peer s) !! p = Some st ->
    pump_step s (with_phase p (Pumping DroppingLast w)
                   (with_peer (fst (writeFrame wrote frameClose (s_id st) [] (peer s))) s))
| pump_drop p w st s :
    phases s !! p = Some (Pumping DroppingLast w) -> heap (peer s) !! p = Some st ->
    pump_step s (with_phase p (Pumping ReaderDone w) (with_peer (drop (s_id st) (peer s)) s))
| pump_take p r x rest st s :
    phases s !! p = Some (Pumping r Selecting) -> heap (peer s) !! p = Some st ->
    s_incoming st = x :: rest ->
    pump_step s (with_phase p (Pumping r (Writing x)) (with_peer (update dequeue p (peer s)) s))
| pump_written p r x st s :
    phases s !! p = Some (Pumping r (Writing x)) -> heap (peer s) !! p = Some st -> s_done st = false ->
    pump_step s (with_phase p (Pumping r Selecting) (with_peer (update (write_pipe x) p (peer s)) s))
| pump_write_failed p r x s :
    phases s !! p = Some (Pumping r (Writing x)) -> pump_step s (with_phase p (Pumping r WriterDone) s)
| pump_writer_done p r s :
    phases s !! p = Some (Pumping r Selecting) -> pump_step s (with_phase p (Pumping r WriterDone) s).

Inductive step : option nat -> Sys -> Sys -> Prop :=
| step_dial l s s' : dial_step l s s' -> step l s s'
| step_serve s s' : serve_step s s' -> step None s s'
| step_close s s' : close_step s s' -> step None s s'
| step_pump s s' : pump_step s s' -> step None s s'.

Definition any_step (s s' : Sys) : Prop := exists l, step l s s'.
Definition reachable (firstID : Z) (s : Sys) : Prop := rtc any_step (new_sys firstID) s.
End Operations.

(** ** Frames *)

Lemma Uint32_PutUint32 v : 0 <= v < two32 ->
  match PutUint32 v with [b0; b1; b2; b3] => Uint32 b0 b1 b2 b3 = v | _ => False end.
Proof.
  intros Hv. simpl. unfold Uint32. apply Z.bits_inj'. intros n Hn.
  change 255 with (Z.ones 8). rewrite !Z.lor_spec, !Z.shiftl_spec by done. rewrite !Z.land_spec.
  destruct (Z.lt_ge_cases n 32) as [Hlt|Hge].
  - destruct (Z.lt_ge_cases n 8); [|destruct (Z.lt_ge_cases n 16); [|destruct (Z.lt_ge_cases n 24)]];
      rewrite ?Z.shiftr_spec by lia;
      repeat match goal with
             | |- context [Z.testbit (Z.ones 8) ?k] =>
                 first [rewrite (Z.ones_spec_low 8 k) by lia | rewrite (Z.ones_spec_high 8 k) by lia
                       |rewrite (Z.testbit_neg_r _ k) by lia]
             end;
      rewrite ?andb_false_r, ?andb_true_r, ?orb_false_r, ?orb_false_l; f_equal; lia.
  - rewrite (Z.bits_above_log2 v) by (lia || (destruct (Z.eq_dec v 0) as [->|]; [simpl; lia|];
      apply Z.log2_lt_pow2; [lia|]; unfold two32 in Hv; apply (Z.lt_le_trans _ (2 ^ 32)); [lia|];
      apply Z.pow_le_mono_r; lia)).
    rewrite !Z.ones_spec_high by lia. by rewrite !andb_false_r.
Qed.

Lemma decode_encode kind id payload :
  0 <= id < two32 -> Z.of_nat (length payload) <= maxFrameBytes - headerSize ->
  decodeFrame (kind :: PutUint32 id ++ payload) = Ok (kind, id, payload).
Proof.
  intros Hid Hlen. pose proof (Uint32_PutUint32 id Hid) as Hu. unfold PutUint32 in *.
  cbn [app] in *. unfold decodeFrame. rewrite Hu. cbn [length].
  rewrite (proj2 (Z.ltb_ge _ _)); [done|]. unfold headerSize in Hlen. lia.
Qed.

(** ** What the operations change *)

Lemma writeFrame_same wrote kind id payload p p' e :
  writeFrame wrote kind id payload p = (p', e) ->
  heap p' = heap p /\ streams p' = streams p /\ closed p' = closed p /\ nextID p' = nextID p.
Proof.
  unfold writeFrame. destruct (_ <? _); [by intros [= <- _]|]. destruct (closed p) eqn:Hc; [by intros [= <- _]|].
  by destruct wrote; intros [= <- _].
Qed.

Lemma freeID_free fuel c table id : freeID fuel c table = Some id -> table !! id = None.
Proof.
  revert c. induction fuel as [|fuel IH]; intros c; simpl; [done|].
  destruct (table !! c) eqn:E; [|by intros [= <-]]. destruct (_ =? 0); [done|]. apply IH.
Qed.

(** A new stream under an identifier the table did not have. *)
Record allocated (p : Peer) (p' : Peer) (id : Z) (q : nat) : Prop := mkAllocated {
  al_free : streams p !! id = None;
  al_new : heap p !! q = None;
  al_streams : streams p' = <[id := q]> (streams p);
  al_heap : heap p' = <[q := mkStream id [] [] false []]> (heap p);
  al_size : (size (streams p) < maxStreams)%nat
}.

Lemma allocate_ok id p p' q :
  allocate id p = (p', Ok q) ->
  exists id', allocated p p' id' q /\ (id <> 0 -> id' = id /\ nextID p' = nextID p) /\
    (id = 0 -> freeID (maxStreams + 1) (nextID p) (streams p) = Some id' /\ nextID p <> 0 /\
               nextID p' = u32 (id' + 2)).
Proof.
  assert (Hadd : forall i n, streams p !! i = None -> (size (streams p) < maxStreams)%nat ->
    addStream i n p = (p', Ok q) -> allocated p p' i q /\ nextID p' = n).
  { intros i n Hi Hs. unfold addStream. intros [= <- <-]. split; [|done].
    split; try done. apply not_elem_of_dom, is_fresh. }
  unfold allocate. destruct (Nat.leb_spec maxStreams (size (streams p))); [done|].
  destruct (Z.eqb_spec id 0) as [->|Hid].
  - destruct (Z.eqb_spec (nextID p) 0); [done|]. destruct (freeID _ _ _) as [i|] eqn:E; [|done].
    intros [Ha Hn]%Hadd; [|by eapply freeID_free|done]. exists i. split; [done|]. split; [done|]. done.
  - destruct (bool_decide (is_Some _)) eqn:E; [done|]. btrue. intros [Ha Hn]%Hadd; [|by apply eq_None_not_Some|done].
    exists id. split; [done|]. split; done.
Qed.

Lemma allocate_err id p p' e : allocate id p = (p', Err e) -> p' = p.
Proof.
  unfold allocate, addStream. destruct (Nat.leb _ _); [by intros [= <- _]|].
  destruct (id =? 0).
  - destruct (nextID p =? 0); [by intros [= <- _]|]. by destruct (freeID _ _ _); intros [= <- _].
  - by destruct (bool_decide _); intros [= <- _].
Qed.

Lemma drop_heap id p q :
  heap (drop id p) !! q =
  (if bool_decide (streams p !! id = Some q) then shutdown_stream <$> heap p !! q else heap p !! q).
Proof.
  unfold drop. destruct (streams p !! id) as [q'|] eqn:E; simpl.
  - case_bool_decide as Hq.
    + injection Hq as ->. apply lookup_alter_eq.
    + apply lookup_alter_ne. congruence.
  - done.
Qed.

Lemma drop_streams id p : streams (drop id p) = delete id (streams p).
Proof. unfold drop. by destruct (streams p !! id). Qed.

Lemma shutdown_streams ps p : streams (foldr shutdown p ps) = streams p.
Proof. induction ps; [done|]. done. Qed.

Lemma shutdown_heap ps p q :
  heap (foldr shutdown p ps) !! q =
  (if bool_decide (q ∈ ps) then shutdown_stream <$> heap p !! q else heap p !! q).
Proof.
  induction ps as [|x ps IH]; [done|]. simpl. destruct (decide (q = x)) as [->|Hne].
  - rewrite lookup_alter_eq, IH, (bool_decide_eq_true_2 (x ∈ x :: ps)) by set_solver.
    case_bool_decide; [|done]. by destruct (heap p !! x).
  - rewrite lookup_alter_ne, IH by done. repeat case_bool_decide; set_solver.
Qed.

Lemma Close_heap p q :
  heap (Close_streams p) !! q =
  (if bool_decide (q ∈ snd <$> map_to_list (streams p)) then shutdown_stream <$> heap p !! q
   else heap p !! q).
Proof. unfold Close_streams. simpl. apply shutdown_heap. Qed.

Lemma in_table q (table : gmap Z nat) :
  q ∈ snd <$> map_to_list table <-> exists id, table !! id = Some q.
Proof.
  rewrite list_elem_of_fmap. split.
  - intros ([id q'] & -> & Hin%elem_of_map_to_list). by exists id.
  - intros [id Hid]. exists (id, q). split; [done|]. by apply elem_of_map_to_list.
Qed.

(** ** Delivery invariant *)

Definition received (p : nat) (l : list (nat * bytes)) : list bytes :=
  snd <$> filter (fun e => e.1 = p) l.

(** The payload a goroutine holds between two channel operations. *)
Definition inflight (w : Writer) : list bytes := match w with Writing x => [x] | _ => [] end.
Definition writer_of (s : Sys) (p : nat) : Writer :=
  match phases s !! p with Some (Pumping _ w) => w | _ => Selecting end.
Definition serving_of (s : Sys) (p : nat) : list bytes :=
  match serving s with
  | Delivering q x => if bool_decide (q = p) then [x] else []
  | _ => []
  end.

(** What the pipe got is a prefix of what arrived; while the stream is open and
    its writer runs, the rest is queued in order. *)
Definition delivery (arrived : list bytes) (w : Writer) (held : list bytes) (st : stream) : Prop :=
  s_written st `prefix_of` arrived /\
  (s_done st = false -> w <> WriterDone ->
   arrived = s_written st ++ inflight w ++ s_incoming st ++ held).

Definition serving_ok (s : Sys) : Prop :=
  match serving s with
  | Delivering p _ => is_Some (heap (peer s) !! p)
  | Acknowledging _ p => is_Some (heap (peer s) !! p) /\ phases s !! p = None
  | _ => True
  end.

Definition table_ok (p : Peer) : Prop :=
  forall id q, streams p !! id = Some q ->
    exists st, heap p !! q = Some st /\ s_id st = id /\ s_done st = false.

Record inv (s : Sys) : Prop := mkInv {
  inv_table : table_ok (peer s);
  inv_phase : forall p, is_Some (phases s !! p) -> is_Some (heap (peer s) !! p);
  inv_log : forall p x, (p, x) ∈ log s -> is_Some (heap (peer s) !! p);
  inv_serving : serving_ok s;
  inv_delivery : forall p st, heap (peer s) !! p = Some st ->
    delivery (received p (log s)) (writer_of s p) (serving_of s p) st
}.

(** Steps that keep the table, the log and the flags of the streams. *)
Lemma inv_update s s' :
  inv s -> streams (peer s') = streams (peer s) -> log s' = log s ->
  (forall p, is_Some (heap (peer s) !! p) -> is_Some (heap (peer s') !! p)) ->
  (forall p st', heap (peer s') !! p = Some st' ->
     exists st, heap (peer s) !! p = Some st /\ s_id st' = s_id st /\ s_done st' = s_done st /\
       forall arrived, delivery arrived (writer_of s p) (serving_of s p) st ->
                       delivery arrived (writer_of s' p) (serving_of s' p) st') ->
  (forall p, is_Some (phases s' !! p) -> is_Some (heap (peer s) !! p)) ->
  serving_ok s' -> inv s'.
Proof.
  intros [It Ip Il Is Id] Hs Hl Hdom Hst Hph Hsv. split; [| |by rewrite Hl; eauto|done|].
  - intros id q Hq. rewrite Hs in Hq. destruct (It _ _ Hq) as (st & Hst0 & Hid & Hdone).
    destruct (Hdom q) as [st' Hst']; [by eexists|]. exists st'.
    destruct (Hst q st' Hst') as (st1 & H1 & Hid1 & Hd1 & _). rewrite Hst0 in H1.
    injection H1 as <-. split; [done|]. by rewrite Hid1, Hd1.
  - eauto.
  - intros p st' Hst'. destruct (Hst p st' Hst') as (st & H1 & _ & _ & Hd). rewrite Hl. auto.
Qed.

Lemma inv_same s s' :
  inv s -> streams (peer s') = streams (peer s) -> log s' = log s ->
  heap (peer s') = heap (peer s) ->
  (forall p, writer_of s' p = writer_of s p \/ writer_of s' p = WriterDone) ->
  (forall p, serving_of s' p = serving_of s p) ->
  (forall p, is_Some (phases s' !! p) -> is_Some (heap (peer s) !! p)) ->
  serving_ok s' -> inv s'.
Proof.
  intros Hi Hs Hl Hh Hw Hv Hp Hk. eapply (inv_update s); try done.
  - intros p. by rewrite Hh.
  - intros p st. rewrite Hh. intros Hst. exists st. do 3 (split; [done|]). rewrite Hv.
    intros arrived [Ha Hb]. split; [done|]. destruct (Hw p) as [->| ->]; [done|]. done.
Qed.

Lemma with_phase_phase p ph s :
  inv s -> is_Some (phases s !! p) ->
  forall q, is_Some (<[p := ph]> (phases s) !! q) -> is_Some (heap (peer s) !! q).
Proof.
  intros Hi Hp q Hq. apply (inv_phase s Hi). destruct (decide (p = q)) as [<-|]; [done|].
  by rewrite lookup_insert_ne in Hq.
Qed.

(** A goroutine of stream [p] moves; the peer's table and heap stay. *)
Lemma inv_move s p ph ph' peer' :
  inv s -> phases s !! p = Some ph -> heap peer' = heap (peer s) -> streams peer' = streams (peer s) ->
  writer_of (with_phase p ph' s) p = writer_of s p \/ writer_of (with_phase p ph' s) p = WriterDone ->
  inv (with_phase p ph' (with_peer peer' s)).
Proof.
  intros Hi Hp Hh Hs Hw. eapply (inv_same s); try done.
  - intros q. destruct (decide (p = q)) as [<-|Hne]; [done|]. left. unfold writer_of. simpl.
    by rewrite lookup_insert_ne.
  - simpl. apply (with_phase_phase p ph' s Hi). by eexists.
  - pose proof (inv_serving s Hi) as Hk. unfold serving_ok in *. simpl. rewrite Hh.
    destruct (serving s); try done. destruct Hk as [? Hn]. split; [done|].
    rewrite lookup_insert_ne; [done|]. intros ->. congruence.
Qed.

(** The serving loop moves; the table and heap stay. *)
Lemma inv_serve s v peer' :
  inv s -> heap peer' = heap (peer s) -> streams peer' = streams (peer s) ->
  (forall p, serving_of (with_serving v s) p = serving_of s p) ->
  serving_ok (with_serving v s) -> inv (with_serving v (with_peer peer' s)).
Proof.
  intros Hi Hh Hs Hv Hk. eapply (inv_same s); try done; [by left|apply (inv_phase s Hi)|].
  unfold serving_ok in *. simpl in *. by rewrite Hh.
Qed.

(** A goroutine of stream [p] moves and changes that stream. *)
Lemma inv_touch s p ph ph' f st :
  inv s -> phases s !! p = Some ph -> heap (peer s) !! p = Some st ->
  s_id (f st) = s_id st -> s_done (f st) = s_done st ->
  (forall arrived, delivery arrived (writer_of s p) (serving_of s p) st ->
     delivery arrived (writer_of (with_phase p ph' s) p) (serving_of s p) (f st)) ->
  inv (with_phase p ph' (with_peer (update f p (peer s)) s)).
Proof.
  intros Hi Hp Hst Hid Hdone Hdel.
  eapply (inv_update s); try done; simpl.
  - intros q Hq. destruct (decide (p = q)) as [<-|]; [rewrite lookup_alter_eq|by rewrite lookup_alter_ne].
    by rewrite Hst.
  - intros q st'. destruct (decide (p = q)) as [<-|Hne].
    + rewrite lookup_alter_eq, Hst. intros [= <-]. exists st. repeat split; try done; by apply Hdel.
    + rewrite lookup_alter_ne by done. intros Hq. exists st'. do 3 (split; [done|]).
      unfold writer_of. simpl. by rewrite lookup_insert_ne.
  - apply (with_phase_phase p ph' s Hi). by eexists.
  - pose proof (inv_serving s Hi) as Hk. unfold serving_ok in *. simpl.
    assert (Hd : forall q, is_Some (heap (peer s) !! q) -> is_Some (alter f p (heap (peer s)) !! q)).
    { intros q. rewrite lookup_alter_is_Some. done. }
    destruct (serving s); try done; [by apply Hd|]. destruct Hk as [? Hn]. split; [by apply Hd|].
    rewrite lookup_insert_ne; [done|]. intros ->. congruence.
Qed.

(** Streams are shut down and leave the table. *)
Lemma inv_shutdown s peer' (hit : nat -> bool) :
  inv s ->
  (forall q, heap peer' !! q = if hit q then shutdown_stream <$> heap (peer s) !! q else heap (peer s) !! q) ->
  (forall id q, streams peer' !! id = Some q -> streams (peer s) !! id = Some q /\ hit q = false) ->
  inv (with_peer peer' s).
Proof.
  intros [It Ip Il Is Id] Hh Hs.
  assert (Hdom : forall q, is_Some (heap (peer s) !! q) -> is_Some (heap peer' !! q)).
  { intros q. rewrite Hh. destruct (hit q); [|done]. by rewrite fmap_is_Some. }
  split; simpl.
  - intros id q Hq. destruct (Hs _ _ Hq) as [Hq' Hhit]. rewrite Hh, Hhit. by apply It.
  - eauto.
  - eauto.
  - unfold serving_ok in *. simpl. destruct (serving s); try done; [by apply Hdom|].
    destruct Is. split; [by apply Hdom|done].
  - intros q st. rewrite Hh. destruct (hit q); [|by apply Id].
    destruct (heap (peer s) !! q) as [st0|] eqn:E; [|done]. intros [= <-].
    destruct (Id q st0 E) as [Hp _]. by split.
Qed.

Lemma inv_drop s id : inv s -> inv (with_peer (drop id (peer s)) s).
Proof.
  intros Hi. apply (inv_shutdown s _ (fun q => bool_decide (streams (peer s) !! id = Some q))); [done| |].
  - intros q. apply drop_heap.
  - intros id' q. rewrite drop_streams. rewrite lookup_delete_Some. intros [Hne Hq]. split; [done|].
    apply bool_decide_eq_false. intros Hq'. apply Hne.
    destruct (inv_table s Hi _ _ Hq) as (st & Hst & <- & _).
    destruct (inv_table s Hi _ _ Hq') as (st' & Hst' & <- & _). congruence.
Qed.

Lemma inv_Close_streams s : inv s -> inv (with_peer (Close_streams (peer s)) s).
Proof.
  intros Hi. eapply inv_shutdown; [done|apply Close_heap|]. intros id q. simpl. by rewrite lookup_empty.
Qed.

Lemma received_none s p : inv s -> heap (peer s) !! p = None -> received p (log s) = [].
Proof.
  intros Hi Hp. unfold received. enough (filter (fun e => e.1 = p) (log s) = []) as -> by done.
  destruct (filter _ _) as [|[q x] l] eqn:E; [done|]. exfalso.
  assert (Hin : (q, x) ∈ filter (fun e => e.1 = p) (log s)) by (rewrite E; set_solver).
  apply list_elem_of_filter in Hin as [Hq Hin]. simpl in Hq. subst.
  apply (inv_log s Hi) in Hin as [st Hst]. congruence.
Qed.

Lemma phases_none s p : inv s -> heap (peer s) !! p = None -> phases s !! p = None.
Proof.
  intros Hi Hp. destruct (phases s !! p) eqn:E; [|done].
  destruct (inv_phase s Hi p) as [st Hst]; [by rewrite E|]. congruence.
Qed.

Lemma inv_allocate s peer' id q :
  inv s -> allocated (peer s) peer' id q -> inv (with_peer peer' s).
Proof.
  intros Hi [Hfree Hnew Hs Hh _]. pose proof (received_none s q Hi Hnew) as Hrec.
  pose proof (phases_none s q Hi Hnew) as Hph. destruct Hi as [It Ip Il Is Id].
  assert (Hdom : forall p, is_Some (heap (peer s) !! p) -> is_Some (heap peer' !! p)).
  { intros p Hp. rewrite Hh. rewrite lookup_insert_is_Some. destruct (decide (q = p)); [by left|by right]. }
  split; simpl.
  - intros id' q'. rewrite Hs, Hh. destruct (decide (id = id')) as [<-|Hne].
    + rewrite lookup_insert_eq. intros [= <-]. rewrite lookup_insert_eq. eauto.
    + rewrite lookup_insert_ne by done. intros Hq'. destruct (It _ _ Hq') as (st & Hst & Hid).
      rewrite lookup_insert_ne by congruence. eauto.
  - eauto.
  - eauto.
  - unfold serving_ok in *. simpl. destruct (serving s); try done; [by apply Hdom|].
    destruct Is. split; [by apply Hdom|done].
  - intros p st. rewrite Hh. destruct (decide (q = p)) as [<-|Hne].
    + rewrite lookup_insert_eq. intros [= <-]. rewrite Hrec. split; [done|]. intros _ _. simpl.
      unfold writer_of, serving_of. simpl. rewrite Hph. simpl.
      destruct (serving s) eqn:E; try done. case_bool_decide; [|done]. subst.
      unfold serving_ok in Is. rewrite E in Is. rewrite Hnew in Is. by destruct Is.
    + rewrite lookup_insert_ne by done. apply Id.
Qed.

Lemma received_app p l l' : received p (l ++ l') = received p l ++ received p l'.
Proof. unfold received. by rewrite filter_app, fmap_app. Qed.

Lemma received_one p q x : received p [(q, x)] = if bool_decide (q = p) then [x] else [].
Proof. unfold received, filter. simpl. case_bool_decide; by case_decide. Qed.

Lemma inv_deliver s p x :
  inv s -> (forall q, serving_of s q = []) -> is_Some (heap (peer s) !! p) ->
  inv (mkSys (peer s) (starting s) (phases s) (Delivering p x) (closing s) (log s ++ [(p, x)])).
Proof.
  intros [It Ip Il Is Id] Hsv Hp. split; simpl; try done.
  - intros q y [Hin|Hin%list_elem_of_singleton]%elem_of_app; [eauto|]. by injection Hin as -> ->.
  - intros q st Hst. destruct (Id q st Hst) as [Ha Hb]. rewrite received_app, received_one. split.
    + by apply prefix_app_r.
    + intros Hd Hw. change (writer_of _ q) with (writer_of s q) in *. rewrite (Hb Hd Hw), Hsv.
      unfold serving_of. simpl. by rewrite app_nil_r, !app_assoc.
Qed.

Lemma inv_enqueue s p x st :
  inv s -> serving s = Delivering p x -> heap (peer s) !! p = Some st ->
  inv (with_serving Idle (with_peer (update (enqueue x) p (peer s)) s)).
Proof.
  intros Hi Hsv Hst. eapply (inv_update s); try done; simpl.
  - intros q. by rewrite lookup_alter_is_Some.
  - intros q st'. destruct (decide (p = q)) as [<-|Hne].
    + rewrite lookup_alter_eq, Hst. intros [= <-]. exists st. do 3 (split; [done|]).
      intros arrived [Ha Hb]. split; [done|]. intros Hd Hw. simpl in *.
      change (writer_of _ p) with (writer_of s p) in *. rewrite (Hb Hd Hw).
      unfold serving_of. simpl. rewrite Hsv. rewrite bool_decide_eq_true_2 by done.
      by rewrite app_nil_r.
    + rewrite lookup_alter_ne by done. intros Hq. exists st'. do 3 (split; [done|]).
      intros arrived [Ha Hb]. split; [done|]. intros Hd Hw.
      change (writer_of _ q) with (writer_of s q) in *. rewrite (Hb Hd Hw).
      unfold serving_of. simpl. by rewrite Hsv, bool_decide_eq_false_2.
  - apply (inv_phase s Hi).
Qed.

Lemma inv_discard s p x st :
  inv s -> serving s = Delivering p x -> heap (peer s) !! p = Some st -> s_done st = true ->
  inv (with_serving Idle s).
Proof.
  intros Hi Hsv Hst Hdone. eapply (inv_update s); try done; simpl; [|apply (inv_phase s Hi)].
  intros q st' Hq. exists st'. do 3 (split; [done|]). intros arrived [Ha Hb]. split; [done|].
  intros Hd Hw. change (writer_of _ q) with (writer_of s q) in *. rewrite (Hb Hd Hw).
  unfold serving_of. simpl. rewrite Hsv. rewrite bool_decide_eq_false_2; [done|]. intros ->. congruence.
Qed.

Lemma inv_alter s p f :
  inv s ->
  (forall st, s_id (f st) = s_id st /\ s_done (f st) = s_done st /\
              s_incoming (f st) = s_incoming st /\ s_written (f st) = s_written st) ->
  inv (with_peer (update f p (peer s)) s).
Proof.
  intros Hi Hf. assert (Hdom : forall q, is_Some (heap (peer s) !! q) ->
    is_Some (alter f p (heap (peer s)) !! q)) by (intros q; by rewrite lookup_alter_is_Some).
  eapply (inv_update s); try done; simpl.
  - intros q st'. destruct (decide (p = q)) as [<-|Hne].
    + rewrite lookup_alter_eq. destruct (heap (peer s) !! p) as [st|]; [|done]. intros [= <-].
      destruct (Hf st) as (H1 & H2 & H3 & H4). exists st. do 3 (split; [done|]).
      unfold delivery. rewrite H2, H3, H4. done.
    + rewrite lookup_alter_ne by done. intros Hq. by exists st'.
  - apply (inv_phase s Hi).
  - pose proof (inv_serving s Hi) as Hk. unfold serving_ok in *. simpl.
    destruct (serving s); try done; [by apply Hdom|]. destruct Hk. split; [by apply Hdom|done].
Qed.

Lemma inv_signal s p e : inv s -> inv (with_peer (signal p e (peer s)) s).
Proof. intros Hi. apply inv_alter; [done|]. intros st. by destruct (s_ready st). Qed.

(** Two systems that agree on what the invariant reads. *)
Lemma inv_agree s s' :
  inv s -> heap (peer s') = heap (peer s) -> streams (peer s') = streams (peer s) ->
  phases s' = phases s -> serving s' = serving s -> log s' = log s -> inv s'.
Proof.
  intros Hi Hh Hs Hp Hv Hl. eapply (inv_same s); try done.
  - intros p. left. unfold writer_of. by rewrite Hp.
  - intros p. unfold serving_of. by rewrite Hv.
  - rewrite Hp. apply (inv_phase s Hi).
  - pose proof (inv_serving s Hi) as Hk. unfold serving_ok in *. by rewrite Hv, Hh, Hp.
Qed.

Lemma inv_start_close s : inv s -> inv (start_close s).
Proof. intros Hi. by eapply inv_agree. Qed.

(** The serving loop goes to a position that holds no stream. *)
Definition plain (v : Serving) : bool :=
  match v with Delivering _ _ | Acknowledging _ _ => false | _ => true end.

Lemma inv_to_plain s v peer' :
  inv s -> (forall p, serving_of s p = []) -> plain v = true ->
  heap peer' = heap (peer s) -> streams peer' = streams (peer s) ->
  inv (with_serving v (with_peer peer' s)).
Proof.
  intros Hi Hs Hv Hh Ht. apply inv_serve; try done.
  - intros p. rewrite Hs. unfold serving_of. simpl. by destruct v.
  - unfold serving_ok. simpl. by destruct v.
Qed.

Lemma inv_serve_frame `{OpenCodec} wrote frame s :
  inv s -> serving s = Idle -> inv (serve_frame wrote frame s).
Proof.
  intros Hi Hv. assert (Hsv : forall p, serving_of s p = []) by (intros; unfold serving_of; by rewrite Hv).
  assert (Hplain : forall v, plain v = true -> inv (with_serving v s)).
  { intros v Hp. by apply (inv_to_plain s v (peer s)). }
  assert (Hsig : forall v p e, plain v = true -> inv (with_serving v (with_peer (signal p e (peer s)) s))).
  { intros v p e Hp. apply (inv_to_plain (with_peer (signal p e (peer s)) s) v (signal p e (peer s)));
      [by apply inv_signal|done..]. }
  assert (Hrefuse : forall id m, inv (with_serving Idle
    (with_peer (fst (writeFrame wrote frameError id (bytes_of m) (peer s))) s))).
  { intros id m. destruct (writeFrame _ _ _ _ _) as [p' e] eqn:E.
    apply writeFrame_same in E as (E1 & E2 & _). by apply inv_to_plain. }
  unfold serve_frame, handle. destruct (decodeFrame frame) as [[[kind id] payload]|e]; [|by apply Hplain].
  unfold acceptOpen, lookupStream. destruct (kind =? frameOpen).
  { destruct (unmarshal_open payload) as [[h port]|]; [|by apply Hrefuse].
    destruct (_ || _); [by apply Hrefuse|by apply Hplain]. }
  destruct (kind =? frameAck).
  { destruct (streams _ !! id); [by apply Hsig|by apply Hplain]. }
  destruct (kind =? frameError).
  { destruct (streams _ !! id); [by apply Hsig|by apply Hplain]. }
  destruct (kind =? frameData).
  { destruct (streams _ !! id) as [p|] eqn:Ep; [|by apply Hplain]. apply inv_deliver; [done|done|].
    destruct (inv_table s Hi _ _ Ep) as (st & Hst & _). by eexists. }
  destruct (kind =? frameClose); [by apply Hplain|].
  destruct (kind =? frameKeepalive); by apply Hplain.
Qed.

Lemma serving_none s : plain (serving s) = true -> forall p, serving_of s p = [].
Proof. intros Hp p. unfold serving_of. by destruct (serving s). Qed.

Lemma inv_allocated_phase s p ph peer' id starts :
  inv s -> allocated (peer s) peer' id p -> (forall r w, ph <> Pumping r w) ->
  inv (mkSys peer' starts (<[p := ph]> (phases s)) (serving s) (closing s) (log s)).
Proof.
  intros Hi Ha Hph. pose proof (inv_allocate s peer' id p Hi Ha) as Hi'.
  pose proof (phases_none s p Hi (al_new _ _ _ _ Ha)) as Hn.
  eapply (inv_same (with_peer peer' s)); try done.
  - intros q. left. unfold writer_of. simpl. destruct (decide (p = q)) as [<-|Hne].
    + rewrite lookup_insert_eq, Hn. destruct ph; try done. by destruct (Hph r w).
    + by rewrite lookup_insert_ne.
  - intros q. simpl. rewrite lookup_insert_is_Some. intros [<-|[_ Hq]].
    + rewrite (al_heap _ _ _ _ Ha). by rewrite lookup_insert_eq.
    + by apply (inv_phase _ Hi').
  - pose proof (inv_serving _ Hi') as Hk. unfold serving_ok in *. simpl in *.
    destruct (serving s) eqn:Ev; try done. destruct Hk as [? Hk]. split; [done|].
    rewrite lookup_insert_ne; [done|]. intros <-.
    pose proof (inv_serving s Hi) as Hk'. unfold serving_ok in Hk'. rewrite Ev in Hk'.
    destruct Hk' as [[st Hst] _]. rewrite (al_new _ _ _ _ Ha) in Hst. done.
Qed.

Lemma inv_serve_dialed s id peer' id' p :
  inv s -> serving s = Dialing id -> allocated (peer s) peer' id' p ->
  inv (with_serving (Acknowledging id p) (with_peer peer' s)).
Proof.
  intros Hi Hv Ha. apply (inv_serve (with_peer peer' s) (Acknowledging id p) peer').
  - by eapply inv_allocate.
  - done.
  - done.
  - intros q. unfold serving_of. simpl. by rewrite Hv.
  - unfold serving_ok. simpl. rewrite (al_heap _ _ _ _ Ha), lookup_insert_eq.
    split; [done|]. apply phases_none; [done|]. apply Ha.
Qed.

Lemma inv_serve_acked s id p peer' :
  inv s -> serving s = Acknowledging id p ->
  heap peer' = heap (peer s) -> streams peer' = streams (peer s) ->
  inv (with_phase p (Pumping Reading Selecting) (with_serving Idle (with_peer peer' s))).
Proof.
  intros Hi Hv Hh Hs. pose proof (inv_serving s Hi) as Hk. unfold serving_ok in Hk. rewrite Hv in Hk.
  destruct Hk as [Hp Hn]. eapply (inv_same s); try done.
  - intros q. left. unfold writer_of. simpl. destruct (decide (p = q)) as [<-|Hne].
    + by rewrite lookup_insert_eq, Hn.
    + by rewrite lookup_insert_ne.
  - intros q. unfold serving_of. simpl. by rewrite Hv.
  - intros q. simpl. rewrite lookup_insert_is_Some. intros [<-|[_ Hq]]; [done|].
    by apply (inv_phase _ Hi).
Qed.

Ltac writes :=
  match goal with
  | H : writeFrame _ _ _ _ _ = _ |- _ => apply writeFrame_same in H as (? & ? & _)
  end.
Ltac moves := eapply inv_move; [done|eassumption|done|done|];
  unfold writer_of; simpl; rewrite lookup_insert_eq; simplify_option_eq;
  repeat match goal with H : phases _ !! _ = _ |- _ => rewrite H end; auto.

Lemma inv_dial_step `{OpenCodec} l s s' : inv s -> dial_step l s s' -> inv s'.
Proof.
  intros Hi Hstep.
  destruct Hstep as [| |i request s peer' e Hi0 Hal| | |p st rest s Hp Hst Hr|p st e rest s Hp Hst Hr
    | |p st s Hp Hst].
  - by eapply inv_agree.
  - match goal with H : allocate _ _ = _ |- _ => apply allocate_ok in H as (id & Ha & _) end.
    by eapply inv_allocated_phase.
  - apply allocate_err in Hal as ->. by eapply inv_agree.
  - writes. moves.
  - writes. moves.
  - eapply inv_touch; [done|done|done|done|done|]. intros arrived. unfold writer_of. simpl.
    by rewrite lookup_insert_eq, Hp.
  - eapply inv_touch; [done|done|done|done|done|]. intros arrived. unfold writer_of. simpl.
    by rewrite lookup_insert_eq, Hp.
  - eapply (inv_move _ _ _ _ (peer s)); [done|done|done|done|].
    unfold writer_of. simpl. rewrite lookup_insert_eq. simplify_option_eq. auto.
  - eapply (inv_move (with_peer (drop (s_id st) (peer s)) s)); [by apply inv_drop|done|done|done|].
    unfold writer_of. simpl. rewrite lookup_insert_eq, Hp. auto.
Qed.

Lemma inv_serve_step `{OpenCodec} s s' : inv s -> serve_step s s' -> inv s'.
Proof.
  intros Hi Hstep.
  destruct Hstep as [wrote frame s Hv|s Hv|p payload st s Hv|p payload st s Hv|id stop s Hv|id e wrote s Hv
    |id s peer' p Hv Hal|id wrote s peer' e Hv Hal|id p wrote s peer' Hv|id p wrote s peer' e Hv|s Hv].
  - by apply inv_serve_frame.
  - apply (inv_to_plain s Stopping (peer s)); try done. apply serving_none. by rewrite Hv.
  - by eapply inv_enqueue.
  - by eapply inv_discard.
  - apply (inv_to_plain (with_peer (drop id (peer s)) s) _ (drop id (peer s))); try done.
    + by apply inv_drop.
    + apply serving_none. simpl. by rewrite Hv.
    + by destruct stop.
  - destruct (writeFrame _ _ _ _ _) eqn:E. writes. apply inv_to_plain; try done.
    apply serving_none. by rewrite Hv.
  - apply allocate_ok in Hal as (id' & Ha & _). by eapply inv_serve_dialed.
  - apply allocate_err in Hal as ->. destruct (writeFrame _ _ _ _ _) eqn:E. writes.
    apply inv_to_plain; try done. apply serving_none. by rewrite Hv.
  - writes. by eapply inv_serve_acked.
  - writes. apply inv_serve; try done. intros q. unfold serving_of. simpl. by rewrite Hv.
  - apply inv_start_close. apply (inv_to_plain s Stopped (peer s)); try done.
    apply serving_none. by rewrite Hv.
Qed.

Lemma inv_close_step s s' : inv s -> close_step s s' -> inv s'.
Proof.
  intros Hi Hstep. destruct Hstep.
  - by apply inv_start_close.
  - eapply inv_agree; [by apply (inv_Close_streams s)|done..].
  - writes. by eapply inv_agree.
  - writes. apply inv_start_close. by eapply inv_agree.
Qed.

Lemma inv_pump_step s s' : inv s -> pump_step s s' -> inv s'.
Proof.
  intros Hi Hstep.
  destruct Hstep as [| | |p w st wrote s Hp Hst|p w st s Hp Hst|p r x rest st s Hp Hst Hx|p r x st s Hp Hst Hd| |].
  - eapply (inv_move _ _ _ _ (peer s)); [done|eassumption|done|done|].
    unfold writer_of. simpl. rewrite lookup_insert_eq. simplify_option_eq. auto.
  - eapply (inv_move _ _ _ _ (peer s)); [done|eassumption|done|done|].
    unfold writer_of. simpl. rewrite lookup_insert_eq. simplify_option_eq. auto.
  - writes. moves.
  - destruct (writeFrame _ _ _ _ _) eqn:E. writes. moves.
  - eapply (inv_move (with_peer (drop (s_id st) (peer s)) s)); [by apply inv_drop|done|done|done|].
    unfold writer_of. simpl. rewrite lookup_insert_eq, Hp. auto.
  - eapply inv_touch; [done|done|done|done|done|]. intros arrived. unfold writer_of, delivery. simpl.
    rewrite lookup_insert_eq, Hp, Hx. simpl. intros [? Hb]. split; [done|].
    intros Hd _. by apply Hb.
  - eapply inv_touch; [done|done|done|done|done|]. intros arrived. unfold writer_of, delivery. simpl.
    rewrite lookup_insert_eq, Hp. simpl. intros [? Hb].
    assert (Hb' := Hb Hd ltac:(discriminate)). rewrite Hb'. split.
    + apply prefix_app. by exists (s_incoming st ++ serving_of s p).
    + intros _ _. by rewrite <- app_assoc.
  - eapply (inv_move _ _ _ _ (peer s)); [done|eassumption|done|done|].
    unfold writer_of. simpl. rewrite lookup_insert_eq. auto.
  - eapply (inv_move _ _ _ _ (peer s)); [done|eassumption|done|done|].
    unfold writer_of. simpl. rewrite lookup_insert_eq. auto.
Qed.

Lemma tunnel_inv_step `{OpenCodec} l s s' : inv s -> step l s s' -> inv s'.
Proof.
  intros Hi Hstep. destruct Hstep as [l s s' Hs|s s' Hs|s s' Hs|s s' Hs];
    [by eapply inv_dial_step|by eapply inv_serve_step|by eapply inv_close_step|by eapply inv_pump_step].
Qed.

Lemma tunnel_inv_init firstID : inv (new_sys firstID).
Proof.
  split; simpl; try done.
  - intros p [? Hp]. by rewrite lookup_empty in Hp.
  - intros p x Hin. by apply not_elem_of_nil in Hin.
Qed.

Lemma inv_reachable `{OpenCodec} firstID s : reachable firstID s -> inv s.
Proof.
  unfold reachable. generalize (tunnel_inv_init firstID). generalize (new_sys firstID).
  intros s0 Hi Hr. induction Hr as [|s1 s2 s3 [l Hs] _ IH]; [done|]. apply IH. by eapply tunnel_inv_step.
Qed.

(** ** What a step can no longer change *)

(** A stream that is done stays so and its pipe gets nothing more; a stream the
    table has dropped does not come back, and nobody signals it. *)
Definition evolves (a b : Peer) : Prop :=
  forall p st, heap a !! p = Some st ->
    (forall id, streams b !! id = Some p -> streams a !! id = Some p) /\
    exists st', heap b !! p = Some st' /\
      (s_done st = true -> s_done st' = true /\ s_written st' = s_written st) /\
      ((forall id, streams a !! id <> Some p) -> s_ready st = [] -> s_ready st' = []).

Lemma evolves_same a b : heap b = heap a -> streams b = streams a -> evolves a b.
Proof. intros Hh Hs p st Hp. rewrite Hh, Hs. split; [done|]. eauto. Qed.

Lemma evolves_drop id p : evolves p (drop id p).
Proof.
  intros q st Hq. split.
  - intros id'. rewrite drop_streams, lookup_delete_Some. tauto.
  - rewrite drop_heap, Hq. case_bool_decide; simpl; eauto.
Qed.

Lemma evolves_close p : evolves p (Close_streams p).
Proof.
  intros q st Hq. split; [intros id; simpl; by rewrite lookup_empty|].
  rewrite Close_heap, Hq. case_bool_decide; simpl; eauto.
Qed.

Lemma evolves_allocate id p p' q : allocate id p = (p', Ok q) -> evolves p p'.
Proof.
  intros (id' & [_ Hn Hs Hh _] & _)%allocate_ok r st Hr. rewrite Hh, Hs.
  assert (q <> r) by congruence. rewrite lookup_insert_ne by done. split; [|eauto].
  intros i. destruct (decide (id' = i)) as [<-|]; [rewrite lookup_insert_eq; congruence|].
  by rewrite lookup_insert_ne.
Qed.

Lemma evolves_update f p (a : Peer) :
  (forall st, heap a !! p = Some st ->
     (s_done st = true -> s_done (f st) = true /\ s_written (f st) = s_written st) /\
     ((forall id, streams a !! id <> Some p) -> s_ready st = [] -> s_ready (f st) = [])) ->
  evolves a (update f p a).
Proof.
  intros Hf q st Hq. split; [done|]. simpl. destruct (decide (p = q)) as [<-|].
  - rewrite lookup_alter_eq, Hq. eexists. split; [done|]. by apply Hf.
  - rewrite lookup_alter_ne by done. eauto.
Qed.

(** The ways in which a step changes the peer. *)
Definition quiet (f : stream -> stream) (p : nat) (a : Peer) : Prop :=
  forall st, heap a !! p = Some st ->
    (s_done st = true -> s_done (f st) = true /\ s_written (f st) = s_written st) /\
    ((forall id, streams a !! id <> Some p) -> s_ready st = [] -> s_ready (f st) = []).

Inductive changes : Peer -> Peer -> Prop :=
| ch_same a b : heap b = heap a -> streams b = streams a -> nextID b = nextID a -> changes a b
| ch_drop id a : changes a (drop id a)
| ch_close a : changes a (Close_streams a)
| ch_allocate id a b q : allocate id a = (b, Ok q) -> changes a b
| ch_update f p a : quiet f p a -> changes a (update f p a).

Lemma changes_evolves a b : changes a b -> evolves a b.
Proof.
  destruct 1; [by apply evolves_same|apply evolves_drop|apply evolves_close|by eapply evolves_allocate
              |by apply evolves_update].
Qed.

Lemma ch_write wrote kind id payload p p' e :
  writeFrame wrote kind id payload p = (p', e) -> changes p p'.
Proof. intros (? & ? & _ & ?)%writeFrame_same. by apply ch_same. Qed.

Lemma ch_signal p e id (a : Peer) : streams a !! id = Some p -> changes a (signal p e a).
Proof.
  intros Hp. apply ch_update. intros st _. split; [by destruct (s_ready st)|].
  intros Hnot. by destruct (Hnot id).
Qed.

Create HintDb tunnel.
#[local] Hint Resolve ch_same ch_drop ch_close ch_allocate ch_write ch_signal : tunnel.

Ltac settle :=
  repeat match goal with
         | H : allocate _ _ = (_, Err _) |- _ => apply allocate_err in H as ->
         | |- context [fst (writeFrame ?w ?k ?i ?d ?p)] => destruct (writeFrame w k i d p) eqn:?
         end; eauto with tunnel.

Lemma serve_frame_changes `{OpenCodec} wrote frame s : changes (peer s) (peer (serve_frame wrote frame s)).
Proof.
  unfold serve_frame, handle, acceptOpen, lookupStream.
  destruct (decodeFrame frame) as [[[kind id] payload]|e]; [|settle].
  destruct (kind =? frameOpen).
  { destruct (unmarshal_open payload) as [[h port]|]; [destruct (_ || _)|]; simpl; settle. }
  destruct (kind =? frameAck); [destruct (streams _ !! id) eqn:E; settle|].
  destruct (kind =? frameError); [destruct (streams _ !! id) eqn:E; settle|].
  destruct (kind =? frameData); [destruct (streams _ !! id); settle|].
  destruct (kind =? frameClose); [settle|]. destruct (kind =? frameKeepalive); settle.
Qed.

Lemma take_ready_quiet p a : quiet take_ready p a.
Proof. intros st _. split; [done|]. intros _ Hr. simpl. by rewrite Hr. Qed.
#[local] Hint Resolve take_ready_quiet serve_frame_changes : tunnel.

Lemma close_keeps s : changes (peer s) (peer (start_close s)).
Proof. by apply ch_same. Qed.
#[local] Hint Resolve close_keeps : tunnel.

Lemma step_changes `{OpenCodec} l s s' : step l s s' -> changes (peer s) (peer s').
Proof.
  destruct 1 as [l s s' Hs|s s' Hs|s s' Hs|s s' Hs]; destruct Hs; simpl; settle;
    try (apply ch_update; by auto with tunnel).
  - match goal with H : writeFrame _ _ _ _ _ = _ |- _ => apply writeFrame_same in H as (? & ? & _ & ?) end.
    by apply ch_same.
  - apply ch_update. intros st' Hst'. split; [|done]. congruence.
Qed.

Lemma step_evolves `{OpenCodec} l s s' : step l s s' -> evolves (peer s) (peer s').
Proof. intros Hs. by eapply changes_evolves, step_changes. Qed.

(** ** Identifiers *)

(** The counter keeps the parity it started with, and the table its bound. *)
Definition ids_ok (firstID : Z) (p : Peer) : Prop :=
  0 <= nextID p < two32 /\ nextID p mod 2 = firstID mod 2 /\ (size (streams p) <= maxStreams)%nat.

Lemma u32_parity z : u32 z mod 2 = z mod 2.
Proof.
  unfold u32. apply Z.mod_mod_divide. exists (2 ^ 31). reflexivity.
Qed.

Lemma freeID_range fuel c table id :
  0 < c < two32 -> freeID fuel c table = Some id -> 0 < id < two32 /\ id mod 2 = c mod 2.
Proof.
  revert c. induction fuel as [|fuel IH]; intros c Hc; simpl; [done|].
  destruct (table !! c); [|by intros [= <-]].
  destruct (Z.eqb_spec (u32 (c + 2)) 0) as [|Hne]; [done|]. intros Hid.
  pose proof (u32_range (c + 2)). apply IH in Hid as [? Hp]; [|lia]. split; [done|].
  rewrite Hp, u32_parity. replace (c + 2) with (c + 1 * 2) by lia. apply Z.mod_add. lia.
Qed.

Lemma allocate_ids firstID id p p' q :
  ids_ok firstID p -> allocate id p = (p', Ok q) ->
  ids_ok firstID p' /\
  exists id', allocated p p' id' q /\ (id = 0 -> 0 < id' < two32 /\ id' mod 2 = firstID mod 2).
Proof.
  intros (Hr & Hp & Hsize) (id' & Ha & Hgiven & Hlocal)%allocate_ok.
  assert (Hs : (size (streams p') <= maxStreams)%nat).
  { rewrite (al_streams _ _ _ _ Ha), map_size_insert_None by apply Ha.
    pose proof (al_size _ _ _ _ Ha). lia. }
  destruct (Z.eq_dec id 0) as [Hz|Hnz].
  - destruct (Hlocal Hz) as (Hf & Hne & Hn). apply freeID_range in Hf as [Hid Hpar]; [|lia].
    split; [|exists id'; split; [done|split; [done|congruence]]]. split; [rewrite Hn; apply u32_range|].
    split; [|done]. rewrite Hn, u32_parity. replace (id' + 2) with (id' + 1 * 2) by lia.
    rewrite Z.mod_add by lia. congruence.
  - destruct (Hgiven Hnz) as [-> Hn]. split; [|exists id; by split]. unfold ids_ok. by rewrite Hn.
Qed.

Lemma changes_ids firstID a b : changes a b -> ids_ok firstID a -> ids_ok firstID b.
Proof.
  intros Hc Hok. pose proof Hok as (Hr & Hp & Hs).
  destruct Hc as [a b Hh Ht Hn|id a|a|id a b q Ha|f p a _].
  - unfold ids_ok. by rewrite Ht, Hn.
  - unfold ids_ok. rewrite drop_streams. assert (nextID (drop id a) = nextID a) as ->.
    { unfold drop. by destruct (streams a !! id). }
    split; [done|]. split; [done|]. rewrite map_size_delete. destruct (streams a !! id); simpl; lia.
  - unfold ids_ok, Close_streams. simpl. assert (Hn : forall ps, nextID (foldr shutdown a ps) = nextID a).
    { intros ps. induction ps; done. }
    rewrite Hn. split; [done|]. split; [done|]. rewrite map_size_empty. lia.
  - by eapply allocate_ids.
  - done.
Qed.

Lemma ids_reachable `{OpenCodec} firstID s :
  0 <= firstID < two32 -> reachable firstID s -> ids_ok firstID (peer s).
Proof.
  intros Hf Hr. assert (Hi : ids_ok firstID (peer (new_sys firstID))).
  { split; [done|]. split; [done|]. simpl. rewrite map_size_empty. unfold maxStreams. lia. }
  unfold reachable in Hr. revert Hi Hr. generalize (new_sys firstID). intros s0 Hi Hr.
  induction Hr as [|s1 s2 s3 [l Hs] _ IH]; [done|]. apply IH.
  by eapply changes_ids; [eapply step_changes|].
Qed.

(** Once a stream is done its pipe is final. *)
Lemma done_final `{OpenCodec} s s' p st :
  rtc any_step s s' -> heap (peer s) !! p = Some st -> s_done st = true ->
  exists st', heap (peer s') !! p = Some st' /\ s_written st' = s_written st.
Proof.
  intros Hr. revert st. induction Hr as [|s1 s2 s3 [l Hs] _ IH]; intros st Hst Hd; [eauto|].
  destruct (step_evolves _ _ _ Hs p st Hst) as [_ (st' & Hst' & Hdone & _)].
  destruct (Hdone Hd) as [Hd' Hw]. destruct (IH st' Hst' Hd') as (st2 & ? & ?).
  exists st2. split; [done|]. congruence.
Qed.

(** A [Dial] that waits for a stream the table has lost. *)
Definition orphan (p : nat) (s : Sys) : Prop :=
  phases s !! p = Some Waiting /\
  (forall id, streams (peer s) !! id <> Some p) /\
  exists st, heap (peer s) !! p = Some st /\ s_ready st = [].

Lemma phase_kept p q ph ph' s :
  phases s !! p = Some Waiting -> phases s !! q = Some ph' -> ph' <> Waiting ->
  <[q := ph]> (phases s) !! p = Some Waiting.
Proof. intros Hp Hq Hne. rewrite lookup_insert_ne; [done|]. intros ->. congruence. Qed.

Lemma serve_frame_phases `{OpenCodec} wrote frame s : phases (serve_frame wrote frame s) = phases s.
Proof. unfold serve_frame. destruct (handle frame (peer s)) as [? []]; try done. by destruct e. Qed.

Lemma waiting_phase `{OpenCodec} p s s' :
  inv s -> orphan p s -> step None s s' -> phases s' !! p = Some Waiting.
Proof.
  intros Hi (Hp & _ & st & Hst & Hready) Hstep.
  inversion Hstep as [l s1 s2 Hs|s1 s2 Hs|s1 s2 Hs|s1 s2 Hs]; subst; inversion Hs; subst; simpl;
    try done; try (by eapply phase_kept); try (rewrite serve_frame_phases; done).
  - match goal with H : allocate _ _ = _ |- _ => apply allocate_ok in H as (id & [_ Hn _ _ _] & _) end.
    rewrite lookup_insert_ne; [done|]. intros ->. congruence.
  - destruct (decide (p0 = p)) as [->|]; [|by rewrite lookup_insert_ne]. congruence.
  - destruct (decide (p0 = p)) as [->|]; [|by rewrite lookup_insert_ne]. congruence.
  - pose proof (inv_serving s Hi) as Hk. unfold serving_ok in Hk.
    match goal with H : serving s = _ |- _ => rewrite H in Hk end. destruct Hk as [_ Hn].
    rewrite lookup_insert_ne; [done|]. intros ->. congruence.
Qed.

Lemma orphan_step `{OpenCodec} p s s' : inv s -> orphan p s -> step None s s' -> orphan p s'.
Proof.
  intros Hi Ho Hs. pose proof (waiting_phase p s s' Hi Ho Hs) as Hw.
  destruct Ho as (_ & Hnot & st & Hst & Hready). split; [done|].
  destruct (step_evolves _ _ _ Hs p st Hst) as [Htab (st' & Hst' & _ & Hr)]. split.
  - intros id Hid%Htab. by apply (Hnot id).
  - eauto.
Qed.

Lemma orphan_waits `{OpenCodec} p s s' : inv s -> orphan p s -> rtc (step None) s s' -> orphan p s'.
Proof.
  intros Hi Ho Hr. induction Hr as [|s1 s2 s3 Hs _ IH]; [done|]. apply IH.
  - by eapply tunnel_inv_step.
  - by eapply orphan_step.
Qed.

(** ** Theorems *)

(** C6. Streams deliver in order.  In every interleaving of the serving loop,
    the pumps, dials, drops and closes, what a stream's pipe has accepted is a
    prefix of the payloads that arrived for the stream, each once and in order;
    and as long as the stream is open and its writer runs, nothing is missing:
    what is not written yet is held by the writer, queued, or held by the
    serving loop. *)
Theorem stream_delivery `{OpenCodec} firstID s p st
    (Hreach : reachable firstID s) (Hst : heap (peer s) !! p = Some st) :
  s_written st `prefix_of` received p (log s) /\
  (s_done st = false -> writer_of s p <> WriterDone ->
   received p (log s) = s_written st ++ inflight (writer_of s p) ++ s_incoming st ++ serving_of s p).
Proof. by apply (inv_delivery s (inv_reachable firstID s Hreach)). Qed.

(** A concrete encoding of open requests, a port and a name. *)
Definition demo_codec : OpenCodec := {|
  marshal_open := fun hostname port => port :: bytes_of hostname;
  unmarshal_open := fun b => match b with port :: name => Some (string_of name, port) | [] => None end
|}.

Definition frame_of (kind id : Z) (payload : bytes) : bytes := kind :: PutUint32 id ++ payload.
Definition open_frame : bytes := frame_of frameOpen 1 (@marshal_open demo_codec "db.internal" 5432).
Definition hello : bytes := [104; 105].

(** A remote peer opens stream 1 and sends two bytes. *)
Definition serve (frame : bytes) (s : Sys) : Sys := @serve_frame demo_codec None frame s.
Definition accepted : Sys :=
  let s1 := serve open_frame (new_sys 2) in
  let s2 := with_serving (Acknowledging 1 0) (with_peer (fst (allocate 1 (peer s1))) s1) in
  with_phase 0 (Pumping Reading Selecting)
    (with_serving Idle (with_peer (fst (writeFrame None frameAck 1 [] (peer s2))) s2)).
Definition queued : Sys :=
  let s1 := serve (frame_of frameData 1 hello) accepted in
  with_serving Idle (with_peer (update (enqueue hello) 0 (peer s1)) s1).

Lemma serve_one (s s' : Sys) : @serve_step demo_codec s s' -> @any_step demo_codec s s'.
Proof. intros Hs. exists None. by apply step_serve. Qed.

Lemma queued_reachable : @reachable demo_codec 2 queued.
Proof.
  unfold reachable.
  eapply rtc_l; [apply serve_one, (@serve_read demo_codec None open_frame); reflexivity|].
  eapply rtc_l; [apply serve_one, (@serve_dialed demo_codec 1 _ (fst (allocate 1 (peer (serve open_frame (new_sys 2))))) 0); reflexivity|].
  eapply rtc_l; [apply serve_one; refine (@serve_acked demo_codec 1 0 None _ _ _ _); reflexivity|].
  eapply rtc_l; [apply serve_one, (@serve_read demo_codec None (frame_of frameData 1 hello)); reflexivity|].
  eapply rtc_l; [apply serve_one; refine (@serve_enqueue demo_codec 0 hello (mkStream 1 [] [] false []) _ _ _ _);
    [reflexivity|reflexivity|simpl; unfold incomingCapacity; lia]|].
  apply rtc_refl.
Qed.

Lemma stream_delivery_witness :
  heap (peer queued) !! 0%nat = Some (mkStream 1 [] [hello] false []) /\
  received 0 (log queued) = [] ++ [] ++ [hello] ++ [].
Proof.
  split; [reflexivity|].
  apply (@stream_delivery demo_codec 2 queued 0 (mkStream 1 [] [hello] false []) queued_reachable);
    [reflexivity|reflexivity|discriminate].
Defined.

(** A close frame truncates the stream.  [handle] answers it with [drop],
    which closes the pipe at once, while data that arrived before the close
    frame may still be queued: there is a run in which the remote side sends
    two bytes and closes, the bytes are in the queue of the accepted stream,
    and no continuation of any kind ever writes them to the pipe. *)
Theorem close_frame_truncates :
  exists s st, @reachable demo_codec 2 s /\ closed (peer s) = false /\
    received 0 (log s) = [hello] /\ heap (peer s) !! 0%nat = Some st /\ s_incoming st = [hello] /\
    forall s', rtc (@any_step demo_codec) s s' ->
      exists st', heap (peer s') !! 0%nat = Some st' /\ s_written st' = [].
Proof.
  set (s1 := serve (frame_of frameClose 1 []) queued).
  exists (with_serving Idle (with_peer (drop 1 (peer s1)) s1)), (mkStream 1 [] [hello] true []).
  split; [|split; [reflexivity|split; [reflexivity|split; [reflexivity|split; [reflexivity|]]]]].
  - eapply rtc_r; [eapply rtc_r; [exact queued_reachable|]|].
    + apply serve_one, (@serve_read demo_codec None (frame_of frameClose 1 [])). reflexivity.
    + apply serve_one, (@serve_drop demo_codec 1 false). reflexivity.
  - intros s' Hr. by apply (@done_final demo_codec _ s' 0 (mkStream 1 [] [hello] true []) Hr).
Qed.

Definition dialed : Sys :=
  let s1 := mkSys (newPeer 1) [("db.internal", 5432)] ∅ Idle false [] in
  let s2 := mkSys (fst (allocate 0 (peer s1))) [] {[0%nat := Opening "db.internal" 5432]} Idle false [] in
  let s3 := with_phase 0 Waiting
    (with_peer (fst (writeFrame None frameOpen 1 (@marshal_open demo_codec "db.internal" 5432) (peer s2))) s2) in
  start_close s3.

Lemma dialed_reachable : @reachable demo_codec 1 dialed.
Proof.
  unfold reachable.
  eapply rtc_l; [exists None; apply step_dial, (@dial_begin demo_codec "db.internal" 5432); reflexivity|].
  eapply rtc_l; [exists None; apply step_dial;
    refine (@dial_allocate demo_codec 0 "db.internal" 5432 _ (fst (allocate 0 (newPeer 1))) 0 _ _); reflexivity|].
  eapply rtc_l; [exists None; apply step_dial;
    refine (@dial_open demo_codec 0 "db.internal" 5432 (mkStream 1 [] [] false []) None _ _ _ _ _); reflexivity|].
  eapply rtc_l; [exists None; apply step_close, close_begin|]. apply rtc_refl.
Qed.

(** A dial can outlive its tunnel.  [Dial] waits for its context and for the
    answer, not for the end of the stream: in a run in which the tunnel closes
    between the open frame and the answer, no step of any goroutine lets the
    call return, only the cancellation of the context it was given. *)
Theorem dial_waits_after_close :
  exists s, @reachable demo_codec 1 s /\ closed (peer s) = true /\ streams (peer s) = ∅ /\
    phases s !! 0%nat = Some Waiting /\
    forall s', rtc (@step demo_codec None) s s' -> phases s' !! 0%nat = Some Waiting.
Proof.
  set (s := mkSys (Close_streams (peer dialed)) (starting dialed) (phases dialed) Idle false []).
  assert (Hr : @reachable demo_codec 1 s).
  { eapply rtc_r; [exact dialed_reachable|]. exists None. apply step_close, (close_end dialed). reflexivity. }
  exists s. split; [done|]. split; [reflexivity|]. split; [reflexivity|]. split; [reflexivity|].
  intros s' Hs'. apply (@orphan_waits demo_codec 0 s s' (inv_reachable 1 s Hr)); [|done].
  split; [reflexivity|]. split.
  - intros id. change (streams (peer s)) with (∅ : gmap Z nat). by rewrite lookup_empty.
  - exists (mkStream 1 [] [] true []). split; reflexivity.
Qed.

(** Identifiers of the two ends do not collide.  The client starts at 1 and
    the server at 2: in all their reachable states the identifiers they choose
    for the streams they open are valid non-zero 32-bit numbers, free in their
    own table, and never the same on both ends, also after the counter has
    wrapped around; and neither table exceeds 256 streams. *)
Theorem local_ids_disjoint `{OpenCodec} s t s' t' p q
    (Hclient : reachable 1 s) (Hserver : reachable 2 t)
    (Hs : allocate 0 (peer s) = (s', Ok p)) (Ht : allocate 0 (peer t) = (t', Ok q)) :
  exists i j, streams (peer s) !! i = None /\ streams s' !! i = Some p /\ 0 < i < two32 /\
    streams (peer t) !! j = None /\ streams t' !! j = Some q /\ 0 < j < two32 /\ i <> j /\
    (size (streams s') <= maxStreams)%nat /\ (size (streams t') <= maxStreams)%nat.
Proof.
  apply ids_reachable in Hclient; [|by split]. apply ids_reachable in Hserver; [|by split].
  destruct (allocate_ids _ _ _ _ _ Hclient Hs) as [(_ & _ & Zs) (i & Ai & Hi)].
  destruct (allocate_ids _ _ _ _ _ Hserver Ht) as [(_ & _ & Zt) (j & Aj & Hj)].
  destruct (Hi eq_refl) as [Ri Pi], (Hj eq_refl) as [Rj Pj].
  assert (i <> j). { intros ->. rewrite Pi in Pj. discriminate Pj. }
  exists i, j. rewrite (al_streams _ _ _ _ Ai) at 1. rewrite (al_streams _ _ _ _ Aj) at 1.
  rewrite !lookup_insert_eq. destruct Ri, Rj. split_and!; try done; [apply Ai|apply Aj].
Qed.

Lemma local_ids_disjoint_witness :
  exists i j : Z, streams (fst (allocate 0 NewPeer)) !! i = Some 0%nat /\
    streams (fst (allocate 0 (peer queued))) !! j = Some 1%nat /\ i <> j.
Proof.
  destruct (@local_ids_disjoint demo_codec (new_sys 1) queued (fst (allocate 0 NewPeer))
    (fst (allocate 0 (peer queued))) 0 1 (rtc_refl _ _) queued_reachable) as
    (i & j & _ & Hi & _ & _ & Hj & _ & Hne & _); [reflexivity|reflexivity|].
  by exists i, j.
Defined.

(** Frames round-trip.  A frame the peer reports as sent is the one appended
    to the connection, fits the receiver's limit, and decodes to the same
    kind, identifier and payload. *)
Theorem frame_roundtrip wrote kind id payload p p'
    (Hid : 0 <= id < two32) (Hsent : writeFrame wrote kind id payload p = (p', None)) :
  exists frame, sent p' = sent p ++ [frame] /\ Z.of_nat (length frame) <= maxFrameBytes /\
    decodeFrame frame = Ok (kind, id, payload).
Proof.
  unfold writeFrame in Hsent. destruct (Z.ltb_spec (maxFrameBytes - headerSize) (Z.of_nat (length payload)))
    as [|Hlen]; [done|]. destruct (closed p); [done|]. destruct wrote; [done|]. injection Hsent as <-.
  eexists. split; [done|]. split; [|by apply decode_encode].
  simpl. unfold headerSize in Hlen. lia.
Qed.

Lemma frame_roundtrip_witness :
  exists frame, sent (fst (writeFrame None frameData 4294967295 hello NewServerPeer)) = [] ++ [frame] /\
    Z.of_nat (length frame) <= maxFrameBytes /\ decodeFrame frame = Ok (frameData, 4294967295, hello).
Proof.
  apply (frame_roundtrip None frameData 4294967295 hello NewServerPeer
           (fst (writeFrame None frameData 4294967295 hello NewServerPeer))); [done|reflexivity].
Defined.
