(* ===== verification/ServiceWatcher.v ===== *)
(** * Service watcher: internal/servicewatcher

    One goroutine per watched service redeploys it on a timer, after a wake-up
    or with another delay, at most [Concurrency] deploys at a time; [Reconcile]
    asks for one immediate deploy of any service.  A loop object (its channels
    and its generation) is shared by pointer between the table, the callers and
    its goroutine, so loops live in a heap.  [Sys] adds the positions of the
    goroutines and of the callers that have left the mutex but not yet used the
    channel; [step] interleaves them.  The store and the deployer are outside:
    what they answer is an argument of the rules. *)

From S2P Require Import Prelude Names ServiceConfig DeploymentStore.

Definition defaultConcurrency : Z := 4.
Definition RemoteInterval : Z := minute.
Definition RemoteMaximumBackoff : Z := 15 * minute.

Record Config := mkWatchConfig {
  c_RemoteInterval : Z; c_RemoteMaximumBackoff : Z; c_Concurrency : Z
}.

(** [New] fills the zero fields of its configuration and checks it. *)
Definition New (config : Config) : result goerr Config :=
  let interval := if c_RemoteInterval config =? 0 then RemoteInterval else c_RemoteInterval config in
  let backoff := if c_RemoteMaximumBackoff config =? 0 then RemoteMaximumBackoff
                 else c_RemoteMaximumBackoff config in
  let concurrency := if c_Concurrency config =? 0 then defaultConcurrency else c_Concurrency config in
  if (interval <=? 0) || (backoff <? interval) || (concurrency <? 1)
  then Err (Msg "service watcher timing or concurrency configuration is invalid")
  else Ok (mkWatchConfig interval backoff concurrency).

(** ** Delays *)

(** The doubling loop of [exponentialDelay]; durations are int64. *)
Fixpoint doubling (count : nat) (maximum delay : Z) : Z + Z :=
  match count with
  | O => inl delay
  | S n => if Z.quot maximum 2 <=? delay then inr maximum else doubling n maximum (i64 (delay * 2))
  end.
Definition exponentialDelay (base maximum failures : Z) : Z :=
  if failures <? 1 then base
  else match doubling (Z.to_nat (failures - 1)) maximum base with
       | inr d => d
       | inl d => if maximum <? d then maximum else d
       end.

(** ** Loops and the table *)

(** [wake] and [reset] are channels of capacity one, [stopped] says that the
    channel [stop] is closed. *)
Record loop := mkLoop { wake : bool; reset : option Z; stopped : bool; generation : Z }.
Definition new_loop (g : Z) : loop := mkLoop false None false g.

Record Watcher := mkWatcher {
  started : bool;
  runContext : option nat;
  contexts : nat;
  cancelled : gset nat;
  services : gmap string nat;
  loops : gmap nat loop;
  slots : Z
}.
Definition new_watcher : Watcher := mkWatcher false None 0 ∅ ∅ ∅ 0.

Definition set_services (m : gmap string nat) (w : Watcher) : Watcher :=
  mkWatcher (started w) (runContext w) (contexts w) (cancelled w) m (loops w) (slots w).
Definition set_loops (m : gmap nat loop) (w : Watcher) : Watcher :=
  mkWatcher (started w) (runContext w) (contexts w) (cancelled w) (services w) m (slots w).
Definition set_slots (n : Z) (w : Watcher) : Watcher :=
  mkWatcher (started w) (runContext w) (contexts w) (cancelled w) (services w) (loops w) n.

Definition coalesce (l : loop) : loop := mkLoop true (reset l) (stopped l) (generation l).
(** Undisturbed, the three selects of [resetDelay] leave the new delay. *)
Definition resetDelay (delay : Z) (l : loop) : loop :=
  mkLoop (wake l) (Some delay) (stopped l) (generation l).
Definition take_wake (l : loop) : loop := mkLoop false (reset l) (stopped l) (generation l).
Definition take_reset (l : loop) : loop := mkLoop (wake l) None (stopped l) (generation l).
Definition close_stop (l : loop) : loop := mkLoop (wake l) (reset l) true (generation l).
Definition bump (l : loop) : loop := mkLoop (wake l) (reset l) (stopped l) (u64 (generation l + 1)).
Definition update (f : loop -> loop) (p : nat) (w : Watcher) : Watcher :=
  set_loops (alter f p (loops w)) w.

(** Only services whose image can change are watched. *)
Definition unwatched `{HostnameTables} `{ConfigTables} (desired : ServiceDesired) : bool :=
  let source := Source_ (ds_snapshot desired) in
  let reference := ImageReference source in
  negb (ds_enabled desired) || negb (AutoUpdate source)
  || (negb (empty reference) && IsDigestReference reference).

Definition stopService (serviceID : string) (w : Watcher) : Watcher :=
  match services w !! serviceID with
  | Some p => update close_stop p (set_services (delete serviceID (services w)) w)
  | None => w
  end.

Definition remove (serviceID : string) (p : nat) (w : Watcher) : Watcher :=
  if bool_decide (services w !! serviceID = Some p)
  then set_services (delete serviceID (services w)) w else w.

Definition finishOneShot (serviceID : string) (p : nat) (g : Z) (w : Watcher) : Watcher * bool :=
  if bool_decide (services w !! serviceID = Some p)
     && bool_decide (generation <$> loops w !! p = Some g)
  then (set_services (delete serviceID (services w)) w, true)
  else (w, false).

(** [Start] under the mutex, and [Close]. *)
Definition Start_locked (w : Watcher) : result goerr Watcher :=
  if started w then Err (Msg "service watcher is already started")
  else Ok (mkWatcher true (Some (contexts w)) (S (contexts w)) (cancelled w) (services w) (loops w) (slots w)).

Definition Close (w : Watcher) : Watcher :=
  mkWatcher false (runContext w) (contexts w)
    (if started w then match runContext w with Some c => {[c]} ∪ cancelled w | None => cancelled w end
     else cancelled w)
    ∅ (loops w) (slots w).

(** The context given to [Start] is done, and with it the one made from it. *)
Definition cancel (c : nat) (w : Watcher) : Watcher :=
  mkWatcher (started w) (runContext w) (contexts w) ({[c]} ∪ cancelled w) (services w) (loops w) (slots w).

(** ** Goroutines *)

Inductive Deployed := DeployOk | DeployBlocked | DeployFailed.
Inductive Why := Cancelled | Stopped | LoadFailed | Completed.
#[global] Instance Why_eq_dec : EqDecision Why.
Proof. solve_decision. Defined.

(** Positions of [runService]: waiting for an action, for a slot, about to read
    the generation, deploying, loading the service, finishing a one-shot loop,
    and in the deferred [remove]. *)
Inductive Pos :=
| Waiting (delay failures : Z)
| Acquiring (failures : Z)
| Reading (failures : Z)
| Deploying (g failures : Z)
| Loading (g : Z) (outcome : Deployed) (failures : Z)
| Finishing (g failures : Z)
| Leaving (why : Why)
| Gone (why : Why).

Record Routine := mkRoutine { r_service : string; r_context : nat; r_pos : Pos }.

(** [wakers] and [resetters]: callers between the mutex and the channel.
    [deploys]: the loops whose deploys have begun, in the order in which they
    did.  [requests]: the loops of the accepted calls of [Reconcile], with the
    number of deploys that had begun by then.  The code keeps neither. *)
Record Sys := mkSys {
  watcher : Watcher;
  routines : gmap nat Routine;
  wakers : list nat;
  resetters : list (nat * Z);
  requests : list (nat * nat);
  deploys : list nat
}.

Definition new_sys : Sys := mkSys new_watcher ∅ [] [] [] [].

Definition with_watcher (w : Watcher) (s : Sys) : Sys :=
  mkSys w (routines s) (wakers s) (resetters s) (requests s) (deploys s).
Definition with_pos (p : nat) (pos : Pos) (s : Sys) : Sys :=
  mkSys (watcher s)
    (alter (fun r => mkRoutine (r_service r) (r_context r) pos) p (routines s))
    (wakers s) (resetters s) (requests s) (deploys s).

(** A new loop in the table with its goroutine. *)
Definition spawn (serviceID : string) (c : nat) (g delay : Z) (s : Sys) : Sys * nat :=
  let w := watcher s in
  let p := fresh (dom (loops w)) in
  (mkSys (mkWatcher (started w) (runContext w) (contexts w) (cancelled w)
            (<[serviceID := p]> (services w)) (<[p := new_loop g]> (loops w)) (slots w))
     (<[p := mkRoutine serviceID c (Waiting delay 0)]> (routines s))
     (wakers s) (resetters s) (requests s) (deploys s), p).

Section Watcher.
Context {HT : HostnameTables} {CT : ConfigTables}.
Context (config : Config).

Definition normalDelay : Z := c_RemoteInterval config.
Definition failureDelay (failures : Z) : Z :=
  exponentialDelay (c_RemoteInterval config) (c_RemoteMaximumBackoff config) failures.
Definition initialDelay (retry : bool) : Z := if retry then failureDelay 1 else normalDelay.

(** [Track] after the store answered. *)
Definition Track (serviceID : string) (retry : bool) (desired : ServiceDesired) (s : Sys)
    : Sys * option goerr :=
  let w := watcher s in
  if unwatched desired then (with_watcher (stopService serviceID w) s, None)
  else match started w, runContext w with
       | true, Some c =>
           match services w !! serviceID with
           | Some p => (mkSys w (routines s) (wakers s) (resetters s ++ [(p, initialDelay retry)])
                          (requests s) (deploys s), None)
           | None => (fst (spawn serviceID c 0 (initialDelay retry) s), None)
           end
       | _, _ => (s, Some (Msg "service watcher is not started"))
       end.

(** [NotifyService] and [Reconcile] under the mutex; the wake-up follows. *)
Definition NotifyService (serviceID : string) (s : Sys) : Sys :=
  match services (watcher s) !! serviceID with
  | Some p => mkSys (watcher s) (routines s) (wakers s ++ [p]) (resetters s) (requests s) (deploys s)
  | None => s
  end.

Definition request (p : nat) (s : Sys) : Sys :=
  mkSys (watcher s) (routines s) (wakers s ++ [p]) (resetters s)
    (requests s ++ [(p, length (deploys s))]) (deploys s).

Definition Reconcile (serviceID : string) (s : Sys) : Sys * option goerr :=
  let w := watcher s in
  match started w, runContext w with
  | true, Some c =>
      match services w !! serviceID with
      | None => let '(s', p) := spawn serviceID c 1 (initialDelay false) s in (request p s', None)
      | Some p => (request p (with_watcher (update bump p w) s), None)
      end
  | _, _ => (s, Some (Msg "service watcher is not started"))
  end.

(** ** Steps *)

Inductive api_step : Sys -> Sys -> Prop :=
| api_start s w : Start_locked (watcher s) = Ok w -> api_step s (with_watcher w s)
| api_close s : api_step s (with_watcher (Close (watcher s)) s)
| api_cancel c s : api_step s (with_watcher (cancel c (watcher s)) s)
| api_track serviceID retry desired s s' e :
    Track serviceID retry desired s = (s', e) -> api_step s s'
| api_notify serviceID s : api_step s (NotifyService serviceID s)
| api_reconcile serviceID s s' e : Reconcile serviceID s = (s', e) -> api_step s s'
| api_wake i p s :
    wakers s !! i = Some p ->
    api_step s (mkSys (update coalesce p (watcher s)) (routines s) (list_delete i (wakers s))
                  (resetters s) (requests s) (deploys s))
| api_reset i p delay s :
    resetters s !! i = Some (p, delay) ->
    api_step s (mkSys (update (resetDelay delay) p (watcher s)) (routines s) (wakers s)
                  (list_delete i (resetters s)) (requests s) (deploys s)).

(** The next delay after a deploy of a service that is still watched. *)
Definition settle (outcome : Deployed) (failures : Z) : Pos :=
  match outcome with
  | DeployBlocked | DeployOk => Waiting normalDelay 0
  | DeployFailed => Waiting (failureDelay (failures + 1)) (failures + 1)
  end.

(** The steps of the goroutine of loop [p]; [waitForAction] has no timer when
    the delay is zero. *)
Inductive run_step (p : nat) : Sys -> Sys -> Prop :=
| run_cancelled sid c delay f s :
    routines s !! p = Some (mkRoutine sid c (Waiting delay f)) -> c ∈ cancelled (watcher s) ->
    run_step p s (with_pos p (Leaving Cancelled) s)
| run_stopped sid c delay f l s :
    routines s !! p = Some (mkRoutine sid c (Waiting delay f)) ->
    loops (watcher s) !! p = Some l -> stopped l = true ->
    run_step p s (with_pos p (Leaving Stopped) s)
| run_woken sid c delay f l s :
    routines s !! p = Some (mkRoutine sid c (Waiting delay f)) ->
    loops (watcher s) !! p = Some l -> wake l = true ->
    run_step p s (with_pos p (Acquiring f) (with_watcher (update take_wake p (watcher s)) s))
| run_reset sid c delay f l d s :
    routines s !! p = Some (mkRoutine sid c (Waiting delay f)) ->
    loops (watcher s) !! p = Some l -> reset l = Some d ->
    run_step p s (with_pos p (Waiting d f) (with_watcher (update take_reset p (watcher s)) s))
| run_timer sid c delay f s :
    routines s !! p = Some (mkRoutine sid c (Waiting delay f)) -> delay <> 0 ->
    run_step p s (with_pos p (Acquiring f) s)
| run_acquired sid c f s :
    routines s !! p = Some (mkRoutine sid c (Acquiring f)) -> slots (watcher s) < c_Concurrency config ->
    run_step p s (with_pos p (Reading f) (with_watcher (set_slots (slots (watcher s) + 1) (watcher s)) s))
| run_given_up sid c f s :
    routines s !! p = Some (mkRoutine sid c (Acquiring f)) -> c ∈ cancelled (watcher s) ->
    run_step p s (with_pos p (Leaving Cancelled) s)
| run_begin sid c f l s :
    routines s !! p = Some (mkRoutine sid c (Reading f)) -> loops (watcher s) !! p = Some l ->
    run_step p s (mkSys (watcher s) (routines (with_pos p (Deploying (generation l) f) s)) (wakers s)
                    (resetters s) (requests s) (deploys s ++ [p]))
| run_deployed sid c g f outcome s :
    routines s !! p = Some (mkRoutine sid c (Deploying g f)) ->
    run_step p s (with_pos p (Loading g outcome f)
                    (with_watcher (set_slots (slots (watcher s) - 1) (watcher s)) s))
| run_load_failed sid c g outcome f s :
    routines s !! p = Some (mkRoutine sid c (Loading g outcome f)) ->
    run_step p s (with_pos p (Leaving LoadFailed) s)
| run_loaded sid c g outcome f desired s :
    routines s !! p = Some (mkRoutine sid c (Loading g outcome f)) ->
    run_step p s (with_pos p (if unwatched desired then Finishing g f else settle outcome f) s)
| run_finish sid c g f s w finished :
    routines s !! p = Some (mkRoutine sid c (Finishing g f)) ->
    finishOneShot sid p g (watcher s) = (w, finished) ->
    run_step p s (with_pos p (if finished : bool then Leaving Completed else Waiting 0 f) (with_watcher w s))
| run_leave sid c why s :
    routines s !! p = Some (mkRoutine sid c (Leaving why)) ->
    run_step p s (with_pos p (Gone why) (with_watcher (remove sid p (watcher s)) s)).

Definition step (s s' : Sys) : Prop := api_step s s' \/ exists p, run_step p s s'.
Definition reachable (s : Sys) : Prop := rtc step new_sys s.
End Watcher.

(** ** Requests are kept *)

(** A deploy of loop [p] began after the first [t] deploys had. *)
Definition covered (s : Sys) (p t : nat) : Prop := exists i, (t <= i)%nat /\ deploys s !! i = Some p.

Definition leaving (pos : Pos) : Prop := match pos with Leaving _ | Gone _ => True | _ => False end.
Definition live (s : Sys) (p : nat) : Prop := exists r, routines s !! p = Some r /\ ~ leaving (r_pos r).

(** The loop still runs, and a wake-up is on its way or it is about to read its
    generation. *)
Definition scheduled (s : Sys) (p : nat) : Prop :=
  live s p /\
  (p ∈ wakers s \/ (exists l, loops (watcher s) !! p = Some l /\ wake l = true) \/
   exists f, r_pos <$> routines s !! p = Some (Acquiring f) \/ r_pos <$> routines s !! p = Some (Reading f)).

Definition left_early (s : Sys) (p : nat) : Prop :=
  exists why, why <> Completed /\
    (r_pos <$> routines s !! p = Some (Leaving why) \/ r_pos <$> routines s !! p = Some (Gone why)).

Definition kept (s : Sys) (p t : nat) : Prop := covered s p t \/ scheduled s p \/ left_early s p.

(** What a position promises about the loop [p]: after the generation [g] was
    read, all requests are covered unless the generation has moved on. *)
Definition pos_ok (s : Sys) (p : nat) (pos : Pos) : Prop :=
  match pos with
  | Deploying g _ | Loading g _ _ | Finishing g _ =>
      forall l, loops (watcher s) !! p = Some l ->
        g <= generation l /\ (generation l = g -> forall t, (p, t) ∈ requests s -> covered s p t)
  | Leaving Completed | Gone Completed =>
      (forall sid, services (watcher s) !! sid <> Some p) /\
      forall t, (p, t) ∈ requests s -> covered s p t
  | _ => True
  end.

Record winv (s : Sys) : Prop := mkWinv {
  wi_dom : forall p, is_Some (routines s !! p) <-> is_Some (loops (watcher s) !! p);
  wi_table : forall sid p, services (watcher s) !! sid = Some p ->
    exists c pos, routines s !! p = Some (mkRoutine sid c pos);
  wi_request : forall p t, (p, t) ∈ requests s ->
    is_Some (loops (watcher s) !! p) /\ (t <= length (deploys s))%nat;
  wi_bound : forall p l, loops (watcher s) !! p = Some l ->
    0 <= generation l <= Z.of_nat (length (requests s));
  wi_pos : forall p r, routines s !! p = Some r -> pos_ok s p (r_pos r);
  wi_kept : forall p t, (p, t) ∈ requests s -> kept s p t
}.

Lemma covered_mono s s' p t : deploys s `prefix_of` deploys s' -> covered s p t -> covered s' p t.
Proof. intros Hd (i & Hle & Hi). exists i. split; [done|]. by eapply prefix_lookup_Some. Qed.

Lemma pos_ok_mono s s' p pos :
  requests s' = requests s -> deploys s `prefix_of` deploys s' ->
  (forall sid q, services (watcher s') !! sid = Some q -> services (watcher s) !! sid = Some q) ->
  (forall l', loops (watcher s') !! p = Some l' ->
     exists l, loops (watcher s) !! p = Some l /\ generation l' = generation l) ->
  pos_ok s p pos -> pos_ok s' p pos.
Proof.
  intros Hr Hd Hs Hl.
  assert (forall g, pos_ok s p (Deploying g 0) -> pos_ok s' p (Deploying g 0)) as Hg.
  { intros g Hok l' Hl'. destruct (Hl l' Hl') as (l & Hlp & ->). destruct (Hok l Hlp) as [Hle Hc].
    split; [done|]. intros E t Ht. rewrite Hr in Ht. eapply covered_mono; [done|by apply Hc]. }
  destruct pos as [| | |g f|g o f|g f|[]|[]]; simpl; auto; try (apply (Hg g));
    rewrite Hr; intros [Hn Hc]; split; eauto using covered_mono; intros sid Hsid; by apply (Hn sid), Hs.
Qed.

(** A caller or [Close] works on channels and the table. *)
Lemma winv_callers s s' :
  winv s -> requests s' = requests s -> deploys s' = deploys s -> routines s' = routines s ->
  (forall sid q, services (watcher s') !! sid = Some q -> services (watcher s) !! sid = Some q) ->
  (forall p, is_Some (loops (watcher s) !! p) <-> is_Some (loops (watcher s') !! p)) ->
  (forall p l', loops (watcher s') !! p = Some l' -> exists l, loops (watcher s) !! p = Some l /\
     generation l' = generation l /\ (wake l = true -> wake l' = true)) ->
  (forall p, p ∈ wakers s -> p ∈ wakers s' \/
     forall l', loops (watcher s') !! p = Some l' -> wake l' = true) ->
  winv s'.
Proof.
  intros [Id It Ig Ib Ip Ik] Hr Hd Hro Hs Hdom Hl Hw. split.
  - intros p. by rewrite Hro, Id.
  - intros sid p Hp. rewrite Hro. eauto.
  - intros p g Hg. rewrite Hr in Hg. destruct (Ig p g Hg) as [Hlp Hle]. rewrite Hd. split; [|done]. by apply Hdom.
  - intros p l' Hl'. destruct (Hl p l' Hl') as (l & Hlp & -> & _). rewrite Hr. eauto.
  - intros p r Hp. rewrite Hro in Hp. eapply pos_ok_mono; [done|by rewrite Hd|done| |by apply Ip].
    intros l' Hl'. destruct (Hl p l' Hl') as (l & ? & ? & _). eauto.
  - intros p g Hg. rewrite Hr in Hg. destruct (Ig p g Hg) as [[l Hlp] _].
    destruct (proj1 (Hdom p)) as [l' Hl']; [by rewrite Hlp|].
    destruct (Hl p l' Hl') as (l0 & Hl0 & _ & Hwake). rewrite Hlp in Hl0. injection Hl0 as <-.
    unfold kept, scheduled, left_early, live. rewrite Hro.
    destruct (Ik p g Hg) as [Hc|[[Hlive [Hin|[(l1 & Hl1 & Hw1)|Hf]]]|Hleft]].
    + left. eapply covered_mono; [|done]. by rewrite Hd.
    + right; left. split; [done|]. destruct (Hw p Hin) as [?|Hall]; [by left|]. right; left. eauto.
    + right; left. split; [done|]. right; left. rewrite Hlp in Hl1. injection Hl1 as <-. eauto.
    + right; left. split; [done|]. by right; right.
    + by right; right.
Qed.

(** The goroutine of loop [p] moves. *)
Lemma winv_move s s' p r r' :
  winv s -> routines s !! p = Some r -> routines s' !! p = Some r' ->
  r_service r' = r_service r -> r_context r' = r_context r ->
  requests s' = requests s -> wakers s' = wakers s ->
  deploys s `prefix_of` deploys s' ->
  (forall sid q, services (watcher s') !! sid = Some q -> services (watcher s) !! sid = Some q) ->
  (forall q, q <> p -> routines s' !! q = routines s !! q /\
                       loops (watcher s') !! q = loops (watcher s) !! q) ->
  (generation <$> loops (watcher s') !! p = generation <$> loops (watcher s) !! p) ->
  pos_ok s' p (r_pos r') ->
  (forall g, (p, g) ∈ requests s -> kept s p g -> kept s' p g) ->
  winv s'.
Proof.
  intros [Id It Ig Ib Ip Ik] Hp Hp' Hsv Hcx Hr Hw Hd Hs Hother Hgen Hpos Hkept.
  assert (Hloop : forall q l', loops (watcher s') !! q = Some l' ->
            exists l, loops (watcher s) !! q = Some l /\ generation l' = generation l).
  { intros q l' Hq. destruct (decide (q = p)) as [->|Hne]; [|destruct (Hother q Hne) as [_ E]; rewrite E in Hq; eauto].
    rewrite Hq in Hgen. simpl in Hgen. destruct (loops (watcher s) !! p) as [l|]; [|done].
    injection Hgen as Hgen. eauto. }
  assert (Hback : forall q l, loops (watcher s) !! q = Some l ->
            exists l', loops (watcher s') !! q = Some l' /\ generation l' = generation l).
  { intros q l Hq. destruct (decide (q = p)) as [->|Hne]; [|destruct (Hother q Hne) as [_ E]; rewrite <- E in Hq; eauto].
    rewrite Hq in Hgen. simpl in Hgen. destruct (loops (watcher s') !! p) as [l'|]; [|done].
    injection Hgen as Hgen. eauto. }
  split.
  - intros q. destruct (decide (q = p)) as [->|Hne].
    + rewrite Hp'. split; [intros _|done]. destruct (proj1 (Id p)) as [l Hl]; [by rewrite Hp|].
      destruct (Hback p l Hl) as (l' & -> & _). done.
    + destruct (Hother q Hne) as [-> ->]. apply Id.
  - intros sid q Hq. destruct (It sid q (Hs sid q Hq)) as (c & pos & Hrt).
    destruct (decide (q = p)) as [->|Hne]; [|destruct (Hother q Hne) as [-> _]; eauto].
    rewrite Hp in Hrt. injection Hrt as ->. destruct r' as [sv cx pos']. simpl in *. subst. eauto.
  - intros q g Hg. rewrite Hr in Hg. destruct (Ig q g Hg) as [[l Hl] Hle].
    destruct (Hback q l Hl) as (l' & Hl' & _). apply prefix_length in Hd. split; [done|lia].
  - intros q l' Hl'. destruct (Hloop q l' Hl') as (l & Hl & ->). rewrite Hr. eauto.
  - intros q r0 Hq. destruct (decide (q = p)) as [->|Hne]; [rewrite Hp' in Hq; by injection Hq as <-|].
    destruct (Hother q Hne) as [E _]. rewrite E in Hq. eapply pos_ok_mono; [done..|apply Hloop|by apply Ip].
  - intros q g Hg. rewrite Hr in Hg. destruct (decide (q = p)) as [->|Hne]; [by apply Hkept, Ik|].
    destruct (Hother q Hne) as [E1 E2]. unfold kept, scheduled, left_early, live. rewrite E1, E2, Hw.
    destruct (Ik q g Hg) as [Hc|?]; [left; by eapply covered_mono|by right].
Qed.

(** *** Steps of the callers *)

Lemma delete_still {A} (l : list A) i x y : l !! i = Some x -> y ∈ l -> y ∈ delete i l \/ y = x.
Proof.
  intros Hi Hy. rewrite (delete_take_drop l i), elem_of_app.
  rewrite <- (take_drop_middle l i x Hi) in Hy. set_solver.
Qed.

Lemma winv_update s s' f p :
  winv s -> requests s' = requests s -> deploys s' = deploys s -> routines s' = routines s ->
  (forall sid q, services (watcher s') !! sid = Some q -> services (watcher s) !! sid = Some q) ->
  loops (watcher s') = alter f p (loops (watcher s)) ->
  (forall l, generation (f l) = generation l /\ (wake l = true -> wake (f l) = true)) ->
  (forall q, q ∈ wakers s -> q ∈ wakers s' \/ (q = p /\ forall l, wake (f l) = true)) ->
  winv s'.
Proof.
  intros I Hr Hd Hro Hs Hl Hf Hw. eapply winv_callers; try done.
  - intros q. rewrite Hl, lookup_alter_is_Some. done.
  - intros q l' Hq. rewrite Hl, lookup_alter_Some in Hq.
    destruct Hq as [(-> & l & Hq & ->)|[_ Hq]]; [|eauto]. exists l. destruct (Hf l). auto.
  - intros q Hq. destruct (Hw q Hq) as [Hx|[-> Hall]]; [by left|right].
    intros l' Hl'. rewrite Hl, lookup_alter_Some in Hl'. destruct Hl' as [(_ & l & _ & ->)|[? _]]; auto.
Qed.

(** A new loop in the table, by [Track] or by [Reconcile]. *)
Lemma winv_spawn s s' sid c delay p g :
  winv s -> loops (watcher s) !! p = None -> services (watcher s) !! sid = None ->
  services (watcher s') = <[sid := p]> (services (watcher s)) ->
  loops (watcher s') = <[p := new_loop g]> (loops (watcher s)) ->
  routines s' = <[p := mkRoutine sid c (Waiting delay 0)]> (routines s) ->
  deploys s' = deploys s ->
  (g = 0 /\ requests s' = requests s /\ wakers s' = wakers s \/
   g = 1 /\ requests s' = requests s ++ [(p, length (deploys s))] /\ wakers s' = wakers s ++ [p]) ->
  winv s'.
Proof.
  intros [Id It Ig Ib Ip Ik] Hp Hsid Hs Hl Hr Hd Hg.
  assert (Hrp : routines s !! p = None).
  { destruct (routines s !! p) eqn:E; [|done]. destruct (proj1 (Id p)) as [? ?]; [by rewrite E|congruence]. }
  assert (Hq : forall q g', (q, g') ∈ requests s -> q <> p).
  { intros q g' Hin ->. destruct (Ig p g' Hin) as [[? ?] _]. congruence. }
  assert (Hreq : forall q g', (q, g') ∈ requests s' -> (q, g') ∈ requests s \/ q = p /\ g' = length (deploys s) /\ p ∈ wakers s').
  { intros q g' Hin. destruct Hg as [(-> & E1 & E2)|(-> & E1 & E2)]; rewrite E1 in Hin; [by left|].
    rewrite E2. apply elem_of_app in Hin as [?|Hin]; [by left|right]. set_solver. }
  assert (Hlen : (length (requests s) <= length (requests s'))%nat /\ 0 <= g <= Z.of_nat (length (requests s'))).
  { destruct Hg as [(-> & E1 & _)|(-> & E1 & _)]; rewrite E1, ?length_app; simpl; lia. }
  split.
  - intros q. rewrite Hr, Hl, !lookup_insert. case_decide; [split; eauto|apply Id].
  - intros sid' q. rewrite Hs, Hr, lookup_insert_Some. intros [[<- <-]|[Hne Hq']].
    + rewrite lookup_insert_eq. eauto.
    + destruct (It _ _ Hq') as (c' & pos & E). rewrite lookup_insert_ne by congruence. eauto.
  - intros q g' Hin. rewrite Hl, Hd. destruct (Hreq q g' Hin) as [Hold|(-> & -> & _)].
    + rewrite lookup_insert_ne by (apply not_eq_sym; eauto). eauto.
    + rewrite lookup_insert_eq. eauto.
  - intros q l. rewrite Hl, lookup_insert_Some. intros [[<- <-]|[_ Hq']]; [simpl; lia|].
    specialize (Ib q l Hq'). lia.
  - intros q r. rewrite Hr, lookup_insert_Some. intros [[<- <-]|[Hne Hq']]; [done|].
    assert (forall t, (q, t) ∈ requests s' -> (q, t) ∈ requests s) as Hqr
      by (intros t Ht; destruct (Hreq q t Ht) as [?|[? _]]; [done|congruence]).
    assert (forall t, covered s q t -> covered s' q t) as Hcov by (intros t; apply covered_mono; by rewrite Hd).
    specialize (Ip q r Hq'). destruct (r_pos r) as [| | |g' f|g' o f|g' f|[]|[]]; simpl in *; auto;
      try (rewrite Hl, lookup_insert_ne by done; naive_solver);
      destruct Ip as [Hn Hc]; (split; [|by eauto]); intros sid'; rewrite Hs, lookup_insert_Some;
      intros [[_ ?]|[_ ?]]; [congruence|by apply (Hn sid')|congruence|by apply (Hn sid')].
  - intros q g' Hin. destruct (Hreq q g' Hin) as [Hold|(-> & -> & Hw)]; [|right; left].
    + pose proof (Hq q g' Hold) as Hne. unfold kept, scheduled, left_early, live.
      rewrite Hl, Hr, !lookup_insert_ne by congruence. destruct (Ik q g' Hold) as [Hc|[[Ha [Hw|Hsch]]|He]].
      * left. eapply covered_mono; [|done]. by rewrite Hd.
      * right; left. split; [done|]. left. destruct Hg as [(_ & _ & ->)|(_ & _ & ->)]; set_solver.
      * right; left. split; [done|]. by right.
      * by right; right.
    + split; [|by left]. exists (mkRoutine sid c (Waiting delay 0)). rewrite Hr, lookup_insert_eq. by split; [|intros []].
Qed.

(** [Reconcile] of a service with a loop: its generation moves on, so what its
    goroutine read before no longer promises anything. *)
Lemma pos_ok_request s sid p l q pos :
  services (watcher s) !! sid = Some p -> loops (watcher s) !! p = Some l -> u64 (generation l + 1) = generation l + 1 ->
  pos_ok s q pos -> pos_ok (request p (with_watcher (update bump p (watcher s)) s)) q pos.
Proof.
  intros Hsid Hl Hgen.
  assert (forall g, pos_ok s q (Deploying g 0) ->
            pos_ok (request p (with_watcher (update bump p (watcher s)) s)) q (Deploying g 0)) as Hg.
  { intros g Hok l' Hl'. simpl in Hl'. apply lookup_alter_Some in Hl' as [(<- & l0 & Hl0 & ->)|[Hne Hq]].
    - replace l0 with l in * by congruence. destruct (Hok l Hl) as [Hle _]. simpl. rewrite Hgen. split; lia.
    - destruct (Hok l' Hq) as [Hle Hc]. split; [done|]. intros E t Ht. simpl in Ht.
      apply elem_of_app in Ht as [Ht|Ht]; [by apply Hc|].
      apply list_elem_of_singleton in Ht as E0; injection E0 as -> _. done. }
  destruct pos as [| | |g f|g o f|g f|[]|[]]; try exact (fun H => H); try (apply (Hg g));
    intros [Hn Hc]; (split; [done|]); intros t Ht; simpl in Ht;
    (apply elem_of_app in Ht as [Ht|Ht]; [by apply Hc|]);
    apply list_elem_of_singleton in Ht as E0; injection E0 as -> _; by destruct (Hn sid).
Qed.

Lemma winv_request s sid p :
  winv s -> services (watcher s) !! sid = Some p ->
  Z.of_nat (length (requests s)) + 1 < two64 ->
  winv (request p (with_watcher (update bump p (watcher s)) s)).
Proof.
  intros [Id It Ig Ib Ip Ik] Hsid Hb. destruct (It sid p Hsid) as (c & pos & Hp).
  destruct (proj1 (Id p)) as [l Hl]; [by rewrite Hp|].
  pose proof (Ib p l Hl) as Hgl.
  assert (Hgen : u64 (generation l + 1) = generation l + 1) by (apply Z.mod_small; lia).
  split; simpl.
  - intros q. by rewrite lookup_alter_is_Some.
  - eauto.
  - intros q g. rewrite elem_of_app, lookup_alter_is_Some. intros [Hin|Hin]; [by apply (Ig q g)|].
    apply list_elem_of_singleton in Hin as E0; injection E0 as -> ->. by rewrite Hl.
  - intros q l' Hq. rewrite length_app. simpl. apply lookup_alter_Some in Hq as [(<- & l0 & Hl0 & ->)|[_ Hq]].
    + replace l0 with l in * by congruence. simpl. rewrite Hgen. lia.
    + specialize (Ib q l' Hq). lia.
  - intros q r Hq. specialize (Ip q r Hq). by apply (pos_ok_request s sid p l).
  - intros q g Hin. apply elem_of_app in Hin as [Hin|Hin].
    + destruct (Ik q g Hin) as [Hc|[[Ha [Hw|[(l0 & Hl0 & Hw)|Hf]]]|He]]; [by left| | |by right; left; split; [|right; right]|by right; right].
      * right; left. split; [done|]. left. simpl. set_solver.
      * right; left. split; [done|]. right; left. simpl. rewrite lookup_alter.
        case_decide; [subst; rewrite Hl0; exists (bump l0)|]; eauto.
    + apply list_elem_of_singleton in Hin as E0; injection E0 as -> _. right.
      pose proof (Ip p _ Hp) as Hpos. destruct pos as [| | | | | |why|why]; simpl in Hpos;
        try (left; split; [eexists; split; [exact Hp|by intros []]|left; simpl; set_solver]).
      all: right; exists why; simpl; rewrite Hp; split; [|by auto]; intros ->; destruct Hpos as [Hn _]; by apply (Hn sid).
Qed.

Section Invariant.
Context {HT : HostnameTables} {CT : ConfigTables} (config : Config).

Lemma winv_reconcile sid s s' e :
  winv s -> Z.of_nat (length (requests s')) < two64 -> Reconcile config sid s = (s', e) -> winv s'.
Proof.
  intros I Hb. unfold Reconcile. destruct (started (watcher s)); [|intros E0; by injection E0 as <- _].
  destruct (runContext (watcher s)) as [c|]; [|intros E0; by injection E0 as <- _].
  destruct (services (watcher s) !! sid) as [p|] eqn:E; intros E0; injection E0 as <- _.
  - apply (winv_request s sid p); try done. revert Hb. simpl. rewrite length_app. simpl. lia.
  - eapply (winv_spawn s _ sid c (initialDelay config false) (fresh (dom (loops (watcher s)))) 1); try done.
    + apply not_elem_of_dom, is_fresh.
    + by right.
Qed.

Lemma winv_track sid retry desired s s' e :
  winv s -> Track config sid retry desired s = (s', e) -> winv s'.
Proof.
  intros I. unfold Track. destruct (unwatched desired).
  { intros E0;injection E0 as <- _. unfold stopService. destruct (services (watcher s) !! sid) as [p|] eqn:E; [|by destruct s].
    eapply (winv_update s _ close_stop p); try done; simpl; [|auto].
    intros sid' q. rewrite lookup_delete_Some. by intros [_ ?]. }
  destruct (started (watcher s)); [|intros E0; by injection E0 as <- _].
  destruct (runContext (watcher s)) as [c|]; [|intros E0; by injection E0 as <- _].
  destruct (services (watcher s) !! sid) as [p|] eqn:E; intros E0; injection E0 as <- _.
  - eapply winv_callers; try done; simpl; auto. intros q l Hq. eauto.
  - eapply (winv_spawn s _ sid c (initialDelay config retry) (fresh (dom (loops (watcher s)))) 0); try done; [|auto].
    apply not_elem_of_dom, is_fresh.
Qed.

Lemma winv_api s s' :
  api_step config s s' -> winv s -> Z.of_nat (length (requests s')) < two64 -> winv s'.
Proof.
  intros Hs I Hb. destruct Hs as [s w Hw|s|c s|sid retry desired s s' e Ht|sid s|sid s s' e Hr|i p s Hi|i p d s Hi].
  - eapply winv_callers; try done; unfold Start_locked in Hw; destruct (started (watcher s)); simplify_eq/=; eauto.
  - eapply winv_callers; try done; simpl; eauto. 
  - eapply winv_callers; try done; simpl; eauto.
  - by eapply winv_track.
  - unfold NotifyService. destruct (services (watcher s) !! sid) as [p|]; [|done].
    eapply winv_callers; try done; simpl; eauto. intros q Hq. left. set_solver.
  - by eapply winv_reconcile.
  - eapply (winv_update s _ coalesce p); try done; simpl. intros q Hq.
    destruct (delete_still _ _ _ q Hi Hq) as [Hx|Hx]; subst; auto.
  - eapply (winv_update s _ (resetDelay d) p); try done; simpl; auto.
Qed.

(** *** Steps of the goroutines *)

(** In these positions a request is kept by its wake-up or an earlier deploy. *)
Definition plain (pos : Pos) : Prop :=
  match pos with Acquiring _ | Reading _ | Leaving _ | Gone _ => False | _ => True end.

Lemma kept_plain s s' p g r :
  kept s p g -> routines s !! p = Some r -> plain (r_pos r) ->
  deploys s `prefix_of` deploys s' -> wakers s' = wakers s -> live s' p ->
  (wake <$> loops (watcher s') !! p = wake <$> loops (watcher s) !! p) -> kept s' p g.
Proof.
  intros Hk Hr Hpl Hd Hw Hlive Hl. destruct Hk as [Hc|[[_ [Hin|[(l & Hlp & Hwk)|[f Hf]]]]|(why & _ & Hf)]].
  - left. by eapply covered_mono.
  - right; left. split; [done|]. left. by rewrite Hw.
  - right; left. split; [done|]. right; left. rewrite Hlp in Hl. destruct (loops (watcher s') !! p) as [l'|]; [|done].
    exists l'. split; [done|]. injection Hl as ->. done.
  - rewrite Hr in Hf. simpl in Hf. destruct Hf as [Hf|Hf]; injection Hf as Hf; by rewrite Hf in Hpl.
  - rewrite Hr in Hf. simpl in Hf. destruct Hf as [Hf|Hf]; injection Hf as Hf; by rewrite Hf in Hpl.
Qed.

Lemma with_pos_lookup p pos s r :
  routines s !! p = Some r ->
  routines (with_pos p pos s) !! p = Some (mkRoutine (r_service r) (r_context r) pos).
Proof. intros Hp. simpl. by rewrite lookup_alter_eq, Hp. Qed.

(** A move that keeps the deploys: the shape of every rule but [run_begin]. *)
Lemma winv_with_pos s w p sid c pos pos' :
  winv s -> routines s !! p = Some (mkRoutine sid c pos) ->
  (forall sid' q, services w !! sid' = Some q -> services (watcher s) !! sid' = Some q) ->
  (forall q, q <> p -> loops w !! q = loops (watcher s) !! q) ->
  (generation <$> loops w !! p = generation <$> loops (watcher s) !! p) ->
  pos_ok (with_pos p pos' (with_watcher w s)) p pos' ->
  (forall g, (p, g) ∈ requests s -> kept s p g -> kept (with_pos p pos' (with_watcher w s)) p g) ->
  winv (with_pos p pos' (with_watcher w s)).
Proof.
  intros I Hp Hs Hl Hg Hpos Hk. apply (winv_move s _ p (mkRoutine sid c pos) (mkRoutine sid c pos')); try done.
  - by apply (with_pos_lookup p pos' (with_watcher w s) (mkRoutine sid c pos)).
  - intros q Hne. simpl. split; [by rewrite lookup_alter_ne|by apply Hl].
Qed.

Lemma scheduled_with_pos s p pos f r :
  routines s !! p = Some r -> pos = Acquiring f \/ pos = Reading f -> scheduled (with_pos p pos s) p.
Proof.
  intros Hp Hpos. pose proof (with_pos_lookup p pos s r Hp) as Hp'. split.
  - eexists. split; [exact Hp'|]. by destruct Hpos as [-> | ->]; intros [].
  - right; right. exists f. rewrite Hp'. simpl. destruct Hpos as [-> | ->]; auto.
Qed.

Lemma live_with_pos s p pos r : routines s !! p = Some r -> ~ leaving pos -> live (with_pos p pos s) p.
Proof. intros Hp Hn. eexists. split; [by apply (with_pos_lookup p pos s r)|done]. Qed.

Lemma left_with_pos s p why pos r :
  routines s !! p = Some r -> why <> Completed -> pos = Leaving why \/ pos = Gone why ->
  left_early (with_pos p pos s) p.
Proof.
  intros Hp Hw Hpos. exists why. split; [done|]. rewrite (with_pos_lookup p pos s r Hp). simpl.
  destruct Hpos as [-> | ->]; auto.
Qed.

Lemma finishOneShot_inv sid p g w w' b :
  finishOneShot sid p g w = (w', b) ->
  loops w' = loops w /\ slots w' = slots w /\
  (forall sid' q, services w' !! sid' = Some q -> services w !! sid' = Some q) /\
  (b = true -> services w !! sid = Some p /\ services w' = delete sid (services w) /\
               generation <$> loops w !! p = Some g).
Proof.
  unfold finishOneShot. destruct (_ && _) eqn:E; intros E0; injection E0 as <- <-; simpl.
  - btrue. do 2 (split; [done|]). split; [|done]. intros sid' q. rewrite lookup_delete_Some. by intros [_ ?].
  - done.
Qed.

Lemma remove_inv sid p w :
  loops (remove sid p w) = loops w /\ slots (remove sid p w) = slots w /\
  forall sid' q, services (remove sid p w) !! sid' = Some q -> services w !! sid' = Some q.
Proof.
  unfold remove. case_bool_decide; [|done]. do 2 (split; [done|]). intros sid' q. simpl.
  rewrite lookup_delete_Some. by intros [_ ?].
Qed.

Lemma begun_covers s s' p t :
  (t <= length (deploys s))%nat -> deploys s' = deploys s ++ [p] -> covered s' p t.
Proof. intros Ht Hd. exists (length (deploys s)). by rewrite Hd, list_lookup_middle. Qed.

Lemma winv_run p s s' : run_step config p s s' -> winv s -> winv s'.
Proof.
  intros Hs I. pose proof I as [Id It Ig Ib Ip Ik].
  destruct Hs as [sid c d f s Hp Hc|sid c d f l s Hp Hl Hst|sid c d f l s Hp Hl Hwk|sid c d f l d' s Hp Hl Hrs
    |sid c d f s Hp Hd|sid c f s Hp Hsl|sid c f s Hp Hc|sid c f l s Hp Hl|sid c g f o s Hp|sid c g o f s Hp
    |sid c g o f desired s Hp|sid c g f s w b Hp Hf|sid c why s Hp]; pose proof (Ip p _ Hp) as Hpo; simpl in Hpo.
  - apply (winv_with_pos s (watcher s) p sid c _ (Leaving Cancelled) I Hp); try done.
    intros g _ _. right; right. by eapply left_with_pos; [exact Hp| |by left].
  - apply (winv_with_pos s (watcher s) p sid c _ (Leaving Stopped) I Hp); try done.
    intros g _ _. right; right. by eapply left_with_pos; [exact Hp| |by left].
  - eapply (winv_with_pos s _ p sid c _ (Acquiring f) I Hp); simpl; try done.
    + intros q Hne. by rewrite lookup_alter_ne.
    + by rewrite lookup_alter_eq, Hl.
    + intros g _ _. right; left. eapply scheduled_with_pos; [exact Hp|by left].
  - eapply (winv_with_pos s _ p sid c _ (Waiting d' f) I Hp); simpl; try done.
    + intros q Hne. by rewrite lookup_alter_ne.
    + by rewrite lookup_alter_eq, Hl.
    + intros g _ Hk. eapply kept_plain; [exact Hk|exact Hp|done|done|done|by eapply live_with_pos; [exact Hp|intros []]|].
      simpl. by rewrite lookup_alter_eq, Hl.
  - apply (winv_with_pos s (watcher s) p sid c _ (Acquiring f) I Hp); try done.
    intros g _ _. right; left. eapply scheduled_with_pos; [exact Hp|by left].
  - eapply (winv_with_pos s _ p sid c _ (Reading f) I Hp); try done.
    intros g _ _. right; left. eapply scheduled_with_pos; [exact Hp|by right].
  - apply (winv_with_pos s (watcher s) p sid c _ (Leaving Cancelled) I Hp); try done.
    intros g _ _. right; right. by eapply left_with_pos; [exact Hp| |by left].
  - eapply (winv_move s _ p _ (mkRoutine sid c (Deploying (generation l) f)) I Hp); simpl; try done.
    + by rewrite lookup_alter_eq, Hp.
    + by eexists.
    + intros q Hne. by rewrite lookup_alter_ne.
    + intros l' Hl'. replace l' with l by congruence. split; [done|]. intros _ t Hin.
      by apply (begun_covers s); [apply (Ig p t)|].
    + intros t Hin _. left. by apply (begun_covers s); [apply (Ig p t)|].
  - eapply (winv_with_pos s _ p sid c _ (Loading g o f) I Hp); try done.
    intros g' _ Hk. by eapply kept_plain; [exact Hk|exact Hp|done|done|done|eapply live_with_pos; [exact Hp|intros []]|].
  - apply (winv_with_pos s (watcher s) p sid c _ (Leaving LoadFailed) I Hp); try done.
    intros g' _ _. right; right. by eapply left_with_pos; [exact Hp| |by left].
  - eapply (winv_with_pos s (watcher s) p sid c _ _ I Hp); try done.
    + destruct (unwatched desired); [done|]. by destruct o.
    + intros g' _ Hk. eapply kept_plain; [exact Hk|exact Hp|done|done|done|eapply live_with_pos; [exact Hp|]|done].
      destruct (unwatched desired), o; by intros [].
  - destruct (finishOneShot_inv _ _ _ _ _ _ Hf) as (Hlo & _ & Hsv & Hb).
    assert (b = true -> forall t, (p, t) ∈ requests s -> covered s p t) as Hall.
    { intros Hbt. destruct (Hb Hbt) as (_ & _ & Hgen). destruct (loops (watcher s) !! p) as [l|] eqn:El; [|done].
      injection Hgen as Hgen. by apply (Hpo l eq_refl). }
    eapply (winv_with_pos s w p sid c _ _ I Hp); [done|by rewrite Hlo..| |].
    + destruct b; [|done]. destruct (Hb eq_refl) as (Hs1 & Hs2 & Hgen). simpl. rewrite Hs2. split.
      * intros sid'. rewrite lookup_delete_Some. intros [Hne Hq]. destruct (It _ _ Hq) as (? & ? & E). congruence.
      * by apply Hall.
    + intros g' Hin Hk. destruct b; [left; by apply Hall, Hin|].
      eapply kept_plain; [exact Hk|exact Hp|done|done|done|by eapply live_with_pos; [exact Hp|intros []]|].
      simpl. by rewrite Hlo.
  - destruct (remove_inv sid p (watcher s)) as (Hlo & _ & Hsv).
    eapply (winv_with_pos s _ p sid c _ (Gone why) I Hp); [done|by rewrite Hlo..| |].
    + destruct why; try done. destruct Hpo as [Hn Hc]. split; [|done]. intros sid' Hq. by apply (Hn sid'), Hsv.
    + intros g' Hin _. destruct (decide (why = Completed)) as [->|Hne].
      * left. by apply Hpo.
      * right; right. by eapply left_with_pos; [exact Hp|exact Hne|by right].
Qed.

(** *** Reachable states *)

Lemma requests_grow s s' : step config s s' -> requests s `prefix_of` requests s'.
Proof.
  intros [Ha|[p Hr]].
  - destruct Ha as [| | |sid retry desired s s' e Ht|sid s|sid s s' e Hr| |]; try done.
    + unfold Track, spawn in Ht. repeat case_match; simplify_eq/=; done.
    + unfold NotifyService. by case_match.
    + unfold Reconcile, request, spawn in Hr. repeat case_match; simplify_eq/=; try done; by eexists.
  - by destruct Hr.
Qed.

Lemma requests_grows s s' : rtc (step config) s s' -> (length (requests s) <= length (requests s'))%nat.
Proof.
  intros Hr. apply prefix_length. induction Hr; [done|]. etrans; [by apply requests_grow|done].
Qed.

Lemma winv_step s s' :
  step config s s' -> winv s -> Z.of_nat (length (requests s')) < two64 -> winv s'.
Proof. intros [Ha|[p Hr]] I Hb; [by eapply winv_api|by eapply winv_run]. Qed.

Lemma winv_new_sys : winv new_sys.
Proof.
  split; simpl; intros.
  - split; intros [x Hx]; by rewrite lookup_empty in Hx.
  - by rewrite lookup_empty in H.
  - by apply not_elem_of_nil in H.
  - by rewrite lookup_empty in H.
  - by rewrite lookup_empty in H.
  - by apply not_elem_of_nil in H.
Qed.

Lemma winv_steps s s' :
  rtc (step config) s s' -> winv s -> Z.of_nat (length (requests s')) < two64 -> winv s'.
Proof.
  induction 1 as [s|s s1 s' Hs Hrtc IH]; [done|]. intros I Hb. apply IH; [|done].
  apply (winv_step s s1 Hs I). pose proof (requests_grows s1 s' Hrtc). lia.
Qed.

(** C29. No accepted [Reconcile] is lost: in every reachable state a deploy of
    its loop began after it was accepted, or its loop still runs and its wake-up
    is on its way or it is about to deploy, or its loop ended because the watcher
    closed, the service was stopped or loading it failed.  A deploy that had
    begun before the request does not count, so a loop whose service is deployed
    once does not end on it. *)
Theorem reconcile_kept s p t :
  reachable config s -> Z.of_nat (length (requests s)) < two64 -> (p, t) ∈ requests s -> kept s p t.
Proof. intros Hr Hb. apply wi_kept. by apply (winv_steps new_sys s Hr winv_new_sys). Qed.

(** ** At most [Concurrency] deploys at a time *)

Definition holds_slot (pos : Pos) : bool :=
  match pos with Reading _ | Deploying _ _ => true | _ => false end.

Definition deploying (s : Sys) : gset nat :=
  dom (filter (fun x => holds_slot (r_pos x.2) = true) (routines s)).

Lemma elem_of_deploying s p :
  p ∈ deploying s <-> exists r, routines s !! p = Some r /\ holds_slot (r_pos r) = true.
Proof.
  unfold deploying. rewrite elem_of_dom. split.
  - intros [r Hr]. apply map_lookup_filter_Some in Hr. eauto.
  - intros (r & Hr & Hh). exists r. by apply map_lookup_filter_Some.
Qed.

Record slots_inv (s : Sys) : Prop := mkSlotsInv {
  si_dom : forall p, is_Some (routines s !! p) -> is_Some (loops (watcher s) !! p);
  si_count : slots (watcher s) = Z.of_nat (size (deploying s));
  si_bound : slots (watcher s) <= c_Concurrency config
}.

Lemma slots_other s s' :
  slots_inv s -> slots (watcher s') = slots (watcher s) -> deploying s' = deploying s ->
  (forall p, is_Some (routines s' !! p) -> is_Some (loops (watcher s') !! p)) -> slots_inv s'.
Proof. intros [? Hc Hb] H1 H2 H3. split; [done|by rewrite H1, H2|by rewrite H1]. Qed.

Lemma slots_spawn s s' p r l :
  slots_inv s -> slots (watcher s') = slots (watcher s) -> loops (watcher s) !! p = None ->
  routines s' = <[p := r]> (routines s) -> loops (watcher s') = <[p := l]> (loops (watcher s)) ->
  holds_slot (r_pos r) = false -> slots_inv s'.
Proof.
  intros I Hs Hp Hr Hl Hh. pose proof I as [Hd _ _]. apply (slots_other s s' I Hs).
  - apply set_eq. intros q. rewrite !elem_of_deploying, Hr. split; intros (r' & Hq & Hh').
    + apply lookup_insert_Some in Hq as [[-> ->]|[_ Hq]]; [congruence|eauto].
    + exists r'. rewrite lookup_insert_ne; [done|]. intros ->. destruct (Hd q) as [? ?]; [by rewrite Hq|congruence].
  - intros q. rewrite Hr, Hl, !lookup_insert. case_decide; eauto.
Qed.

Lemma deploying_move s s' p r r' :
  routines s !! p = Some r -> routines s' !! p = Some r' ->
  (forall q, q <> p -> routines s' !! q = routines s !! q) ->
  deploying s' = if holds_slot (r_pos r') then {[p]} ∪ deploying s else deploying s ∖ {[p]}.
Proof.
  intros Hp Hp' Ho. apply set_eq. intros q. destruct (holds_slot (r_pos r')) eqn:E;
    rewrite ?elem_of_union, ?elem_of_difference, !elem_of_singleton, !elem_of_deploying;
    destruct (decide (q = p)) as [->|Hne]; rewrite ?Hp', ?(Ho q Hne) by done; naive_solver congruence.
Qed.

(** The positions before and after decide how the slots change. *)
Lemma slots_move s s' p r r' :
  slots_inv s -> routines s !! p = Some r -> routines s' !! p = Some r' ->
  (forall q, q <> p -> routines s' !! q = routines s !! q) ->
  (forall q, is_Some (loops (watcher s) !! q) -> is_Some (loops (watcher s') !! q)) ->
  slots (watcher s') = slots (watcher s) + Z.b2z (holds_slot (r_pos r')) - Z.b2z (holds_slot (r_pos r)) ->
  slots (watcher s') <= c_Concurrency config -> slots_inv s'.
Proof.
  intros [Hd Hc Hb] Hp Hp' Ho Hl Hs Hb'. split; [|rewrite Hs, (deploying_move s s' p r r') by done|done].
  - intros q Hq. apply Hl, Hd. destruct (decide (q = p)) as [->|Hne]; [by rewrite Hp|by rewrite <- (Ho q Hne)].
  - destruct (decide (p ∈ deploying s)) as [Hin|Hin]; pose proof Hin as Hin'; rewrite elem_of_deploying in Hin'.
    + destruct Hin' as (r0 & Hr0 & Hh). replace r0 with r in * by congruence. rewrite Hh.
      destruct (holds_slot (r_pos r')); simpl.
      * rewrite subseteq_union_1_L by set_solver. lia.
      * rewrite size_difference by set_solver. rewrite size_singleton.
        assert (size (deploying s) <> 0%nat) by (rewrite size_non_empty_iff; set_solver). lia.
    + assert (Hh : holds_slot (r_pos r) = false) by (apply not_true_is_false; eauto). rewrite Hh.
      destruct (holds_slot (r_pos r')); simpl.
      * rewrite size_union by set_solver. rewrite size_singleton. lia.
      * rewrite difference_disjoint_L by set_solver. lia.
Qed.

Lemma slots_api s s' : api_step config s s' -> slots_inv s -> slots_inv s'.
Proof.
  intros Hs I. pose proof I as [Hd _ _].
  destruct Hs as [s w Hw|s|c s|sid retry desired s s' e Ht|sid s|sid s s' e Hr|i p s Hi|i p d s Hi].
  - unfold Start_locked in Hw. destruct (started (watcher s)); [done|]. injection Hw as <-. by apply (slots_other s).
  - by apply (slots_other s).
  - by apply (slots_other s).
  - unfold Track in Ht. destruct (unwatched desired).
    { injection Ht as <- _. unfold stopService. case_match; [|by destruct s].
      apply (slots_other s); try done. intros q Hq. simpl. rewrite lookup_alter_is_Some. by apply Hd. }
    repeat case_match; injection Ht as <- _; try done; [by apply (slots_other s)|].
    eapply (slots_spawn s); try done. apply not_elem_of_dom, is_fresh.
  - unfold NotifyService. case_match; [by apply (slots_other s)|done].
  - unfold Reconcile, spawn in Hr. repeat case_match; simplify_eq; try done.
    + apply (slots_other s); try done. intros q Hq. simpl. rewrite lookup_alter_is_Some. by apply Hd.
    + eapply (slots_spawn s); try done. apply not_elem_of_dom, is_fresh.
  - apply (slots_other s); try done. intros q Hq. simpl. rewrite lookup_alter_is_Some. by apply Hd.
  - apply (slots_other s); try done. intros q Hq. simpl. rewrite lookup_alter_is_Some. by apply Hd.
Qed.

Lemma slots_run p s s' : run_step config p s s' -> slots_inv s -> slots_inv s'.
Proof.
  intros Hs I. pose proof I as [_ Hc Hb]. pose proof (Zle_0_nat (size (deploying s))) as Hnn.
  destruct Hs as [sid c d f s Hp _|sid c d f l s Hp _ _|sid c d f l s Hp _ _|sid c d f l d' s Hp _ _
    |sid c d f s Hp _|sid c f s Hp Hsl|sid c f s Hp _|sid c f l s Hp _|sid c g f o s Hp|sid c g o f s Hp
    |sid c g o f desired s Hp|sid c g f s w b Hp Hf|sid c why s Hp].
  12: destruct (finishOneShot_inv _ _ _ _ _ _ Hf) as (Hlo & Hslo & _); destruct b.
  14: destruct (remove_inv sid p (watcher s)) as (Hlo & Hslo & _).
  11: destruct (unwatched desired); [|destruct o].
  all: eapply (slots_move s _ p _ _ I Hp);
    [simpl; by rewrite lookup_alter_eq, Hp|intros q Hne; simpl; by rewrite lookup_alter_ne|
     intros q; simpl; rewrite ?Hlo, ?lookup_alter_is_Some; done|simpl; lia|simpl; lia].
Qed.

Lemma slots_reachable s : 1 <= c_Concurrency config -> reachable config s -> slots_inv s.
Proof.
  intros Hc. apply (rtc_ind_r slots_inv).
  - split; [intros p [r Hr]; simpl in Hr; by rewrite lookup_empty in Hr|done|simpl; lia].
  - intros s1 s2 _ [Ha|[p Hr]] I; [by eapply slots_api|by eapply slots_run].
Qed.

Lemma concurrency_aux raw s :
  New raw = Ok config -> reachable config s ->
  1 <= c_Concurrency config /\ slots (watcher s) = Z.of_nat (size (deploying s)) /\
  Z.of_nat (size (deploying s)) <= c_Concurrency config.
Proof.
  intros Hn Hr. assert (Hc : 1 <= c_Concurrency config).
  { unfold New in Hn. destruct (_ || _) eqn:E in Hn; [done|]. injection Hn as <-. btrue. simpl. lia. }
  destruct (slots_reachable s Hc Hr) as [_ Hcount Hb]. by rewrite <- Hcount.
Qed.

(** A watcher that [New] accepts never runs more than [Concurrency] deploys
    at the same time, in every interleaving of its goroutines and callers, and
    no slot is lost: the ones in use are exactly those of running deploys. *)
Theorem concurrency_bound raw s :
  New raw = Ok config -> reachable config s ->
  slots (watcher s) = Z.of_nat (size (deploying s)) /\ Z.of_nat (size (deploying s)) <= c_Concurrency config.
Proof. intros Hn Hr. by apply (concurrency_aux raw). Qed.

(** ** A pending request is served *)

Definition done (s : Sys) (p t : nat) : Prop := covered s p t \/ left_early s p.

(** The wake-up is in the channel, or the loop has already taken it. *)
Definition imminent (s : Sys) (p : nat) : Prop :=
  exists l r, loops (watcher s) !! p = Some l /\ routines s !! p = Some r /\
    match r_pos r with
    | Acquiring _ | Reading _ => True
    | Leaving _ | Gone _ => False
    | _ => wake l = true
    end.

Definition has_reset (p : nat) (s : Sys) : bool :=
  match loops (watcher s) !! p with Some l => bool_decide (is_Some (reset l)) | None => false end.

(** How many steps of its own the loop is away from reading its generation. *)
Definition distance (pos : Pos) : nat :=
  match pos with
  | Deploying _ _ => 7 | Loading _ _ _ => 6 | Finishing _ _ => 5 | Waiting _ _ => 3
  | Acquiring _ => 2 | Reading _ => 1 | Leaving _ | Gone _ => 0
  end.
Definition potential (s : Sys) (p : nat) : nat :=
  match routines s !! p with Some r => distance (r_pos r) | None => 0 end + Nat.b2n (has_reset p s).

(** A run with [n] steps of loop [p] in which [k] new delays are sent to it;
    everything else may happen in between. *)
Inductive run (p : nat) : nat -> nat -> Sys -> Sys -> Prop :=
| run_done s : run p 0 0 s s
| run_own n k s s1 s' : run_step config p s s1 -> run p n k s1 s' -> run p (S n) k s s'
| run_other q n k s s1 s' : q <> p -> run_step config q s s1 -> run p n k s1 s' -> run p n k s s'
| run_api n k s s1 s' : api_step config s s1 -> run p n k s1 s' ->
    run p n (k + Nat.b2n (has_reset p s1 && negb (has_reset p s))) s s'.

Lemma run_steps p n k s s' : run p n k s s' -> rtc (step config) s s'.
Proof. induction 1; [done|..]; (eapply rtc_l; [|done]); unfold step; eauto. Qed.

Lemma other_frame q p s s' :
  run_step config q s s' -> q <> p ->
  routines s' !! p = routines s !! p /\ loops (watcher s') !! p = loops (watcher s) !! p.
Proof.
  intros Hs Hne. destruct Hs as [| | | | | | | | | | |sid c g f s w b Hp Hf|sid c why s Hp]; simpl;
    rewrite ?lookup_alter_ne by done; try done.
  - destruct (finishOneShot_inv _ _ _ _ _ _ Hf) as (-> & _). done.
  - destruct (remove_inv sid q (watcher s)) as (-> & _). done.
Qed.

Lemma api_frame p s s' r l :
  api_step config s s' -> routines s !! p = Some r -> loops (watcher s) !! p = Some l ->
  routines s' !! p = Some r /\
  exists l', loops (watcher s') !! p = Some l' /\ (wake l = true -> wake l' = true).
Proof.
  assert (Halter : forall f q w, (forall l0, wake l0 = true -> wake (f l0) = true) ->
    loops w !! p = Some l ->
    exists l', loops (update f q w) !! p = Some l' /\ (wake l = true -> wake l' = true)).
  { intros f q w Hf Hl. simpl. rewrite lookup_alter. case_decide; subst; rewrite ?Hl; simpl; eauto. }
  assert (Hfresh : forall w, loops w !! p = Some l -> fresh (dom (loops w)) <> p).
  { intros w Hl E. apply (is_fresh (dom (loops w))). rewrite E, elem_of_dom, Hl. done. }
  intros Hs Hr Hl.
  destruct Hs as [s w Hw|s|c s|sid retry desired s s' e Ht|sid s|sid s s' e Hc|i q s Hi|i q d s Hi]; simpl; eauto.
  - unfold Start_locked in Hw. destruct (started (watcher s)); [done|]. injection Hw as <-. eauto.
  - unfold Track, stopService in Ht. repeat case_match; simplify_eq; simpl in *; eauto.
    rewrite !lookup_insert_ne by eauto. eauto.
  - unfold NotifyService. case_match; eauto.
  - unfold Reconcile, spawn in Hc. repeat case_match; simplify_eq; simpl; eauto.
    + split; [done|]. by apply (Halter bump).
    + rewrite !lookup_insert_ne by eauto. eauto.
  - split; [done|]. by apply (Halter coalesce).
  - split; [done|]. by apply (Halter (resetDelay d)).
Qed.

Lemma deploys_grow s s' : step config s s' -> deploys s `prefix_of` deploys s'.
Proof.
  intros [Ha|[p Hr]].
  - destruct Ha as [| | |sid retry desired s s' e Ht|sid s|sid s s' e Hc| |]; try done.
    + unfold Track, spawn in Ht. repeat case_match; simplify_eq; done.
    + unfold NotifyService. by case_match.
    + unfold Reconcile, spawn in Hc. repeat case_match; simplify_eq; done.
  - destruct Hr; simpl; try done. by eexists.
Qed.

Lemma left_own p s s' : run_step config p s s' -> left_early s p -> left_early s' p.
Proof.
  intros Hs (why & Hne & Hpos).
  destruct Hs as [sid c d f s Hp _|sid c d f l s Hp _ _|sid c d f l s Hp _ _|sid c d f l d' s Hp _ _
    |sid c d f s Hp _|sid c f s Hp Hsl|sid c f s Hp _|sid c f l s Hp _|sid c g f o s Hp|sid c g o f s Hp
    |sid c g o f desired s Hp|sid c g f s w b Hp Hf|sid c why' s Hp]; rewrite Hp in Hpos; simpl in Hpos;
    destruct Hpos as [E|E]; try done. injection E as ->.
  by eapply left_with_pos; [exact Hp|exact Hne|by right].
Qed.

Lemma left_step s s' p : winv s -> step config s s' -> left_early s p -> left_early s' p.
Proof.
  intros I [Ha|[q Hr]] Hl.
  - assert (exists r, routines s !! p = Some r) as [r Hr].
    { destruct Hl as (why & _ & Hpos). destruct (routines s !! p); [eauto|]. by destruct Hpos. }
    destruct (proj1 (wi_dom s I p)) as [l Hlp]; [by rewrite Hr|].
    destruct (api_frame p s s' r l Ha Hr Hlp) as [Hr' _]. unfold left_early. by rewrite Hr', <- Hr.
  - destruct (decide (q = p)) as [->|Hne]; [by eapply left_own|].
    destruct (other_frame q p s s' Hr Hne) as [E _]. unfold left_early. by rewrite E.
Qed.

Lemma done_step s s' p g : winv s -> step config s s' -> done s p g -> done s' p g.
Proof.
  intros I Hs [Hc|Hl]; [left|right; by eapply left_step].
  eapply covered_mono; [|done]. by apply deploys_grow.
Qed.

(** The step is taken and the distance is computed. *)
Ltac closer Hp Hl :=
  right; unfold imminent, potential, has_reset; simpl; rewrite ?lookup_alter_eq, ?Hp, ?Hl; simpl;
  (split; [do 2 eexists; split_and!; done|]); repeat case_bool_decide; simpl; try lia.

(** Each step of the loop brings it closer or settles the request. *)
Lemma imminent_own p s s' g :
  run_step config p s s' -> winv s -> (p, g) ∈ requests s -> imminent s p ->
  done s' p g \/ imminent s' p /\ (S (potential s' p) <= potential s p)%nat.
Proof.
  intros Hs I Hin (l & r & Hl & Hr & Hpos). pose proof (winv_run p s s' Hs I) as I'.
  destruct Hs as [sid c d f s Hp _|sid c d f l0 s Hp _ _|sid c d f l0 s Hp Hl0 Hw0|sid c d f l0 d' s Hp Hl0 Hrs
    |sid c d f s Hp _|sid c f s Hp Hsl|sid c f s Hp _|sid c f l0 s Hp Hl0|sid c g0 f o s Hp|sid c g0 o f s Hp
    |sid c g0 o f desired s Hp|sid c g0 f s w b Hp Hf|sid c why s Hp];
    rewrite Hp in Hr; injection Hr as <-; simpl in Hpos; try done.
  - left; right. by eapply left_with_pos; [exact Hp| |by left].
  - left; right. by eapply left_with_pos; [exact Hp| |by left].
  - closer Hp Hl.
  - replace l0 with l in * by congruence. closer Hp Hl. naive_solver.
  - closer Hp Hl.
  - closer Hp Hl.
  - left; right. by eapply left_with_pos; [exact Hp| |by left].
  - left; left. by apply (begun_covers s); [apply (wi_request s I p g)|].
  - closer Hp Hl.
  - left; right. by eapply left_with_pos; [exact Hp| |by left].
  - destruct (unwatched desired); [|destruct o]; closer Hp Hl.
  - destruct b.
    + left; left. pose proof (wi_pos _ I' p _ (with_pos_lookup p _ (with_watcher w s) _ Hp)) as [_ Hc]. by apply Hc.
    + destruct (finishOneShot_inv _ _ _ _ _ _ Hf) as (Hlo & _).
      rewrite <- Hlo in Hl. closer Hp Hl; rewrite Hlo in *; congruence.
Qed.

Lemma imminent_other p q s s' :
  run_step config q s s' -> q <> p -> imminent s p -> imminent s' p /\ potential s' p = potential s p.
Proof.
  intros Hs Hne Hi. destruct (other_frame q p s s' Hs Hne) as [E1 E2].
  unfold imminent, potential, has_reset in *. by rewrite E1, E2.
Qed.

Lemma imminent_api p s s' :
  api_step config s s' -> imminent s p ->
  imminent s' p /\
  (potential s' p <= potential s p + Nat.b2n (has_reset p s' && negb (has_reset p s)))%nat.
Proof.
  intros Hs (l & r & Hl & Hr & Hpos). destruct (api_frame p s s' r l Hs Hr Hl) as (Hr' & l' & Hl' & Hw). split.
  - exists l', r. do 2 (split; [done|]). destruct (r_pos r); auto.
  - unfold potential. rewrite Hr, Hr'. destruct (has_reset p s), (has_reset p s'); simpl; lia.
Qed.

Lemma potential_positive s p : imminent s p -> (1 <= potential s p <= 8)%nat.
Proof.
  intros (l & r & Hl & Hr & Hpos). unfold potential. rewrite Hr.
  destruct (r_pos r); simpl; try done; destruct (has_reset p s); simpl; lia.
Qed.

Lemma winv_next s s1 s' :
  step config s s1 -> rtc (step config) s1 s' -> winv s ->
  Z.of_nat (length (requests s')) < two64 -> winv s1.
Proof. intros Hs Hr I Hb. apply (winv_step s s1 Hs I). pose proof (requests_grows s1 s' Hr). lia. Qed.

Lemma done_steps p g s s' :
  rtc (step config) s s' -> winv s -> Z.of_nat (length (requests s')) < two64 -> done s p g -> done s' p g.
Proof. induction 1; [done|]. eauto using done_step, winv_next. Qed.

Lemma request_stays p g s s1 : step config s s1 -> (p, g) ∈ requests s -> (p, g) ∈ requests s1.
Proof. intros Hs Hin. destruct (requests_grow s s1 Hs) as [tl ->]. set_solver. Qed.

Lemma run_potential p g n k s s' :
  run p n k s s' -> winv s -> Z.of_nat (length (requests s')) < two64 -> (p, g) ∈ requests s ->
  imminent s p -> done s' p g \/ imminent s' p /\ (n + potential s' p <= potential s p + k)%nat.
Proof.
  induction 1 as [s|n k s s1 s' Hs Hrun IH|q n k s s1 s' Hne Hs Hrun IH|n k s s1 s' Hs Hrun IH]; intros I Hb Hin Hi.
  { right. split; [done|lia]. }
  all: assert (Hst : step config s s1) by (unfold step; eauto);
    pose proof (run_steps _ _ _ _ _ Hrun) as Hrtc; pose proof (winv_next s s1 s' Hst Hrtc I Hb) as I1;
    specialize (IH I1 Hb (request_stays _ _ _ _ Hst Hin)).
  - destruct (imminent_own p s s1 g Hs I Hin Hi) as [Hd|[Hi1 Hp]]; [left; by eapply done_steps|].
    destruct (IH Hi1) as [?|[? ?]]; [by left|right]. split; [done|lia].
  - destruct (imminent_other p q s s1 Hs Hne Hi) as [Hi1 Hp].
    destruct (IH Hi1) as [?|[? ?]]; [by left|right]. split; [done|lia].
  - destruct (imminent_api p s s1 Hs Hi) as [Hi1 Hp].
    destruct (IH Hi1) as [?|[? ?]]; [by left|right]. split; [done|lia].
Qed.

(** C30. A pending [Reconcile] is served: once its wake-up is in the channel, then
    after every run in which its loop takes [n] steps of its own and is sent [k]
    new delays, whatever the other goroutines and callers do in between, a deploy
    of the loop began after the request was accepted, or the loop left because of
    [Close], a stop or a failed load, or the deploy is still to come and [n] is
    less than eight and one more for each delay; so the loop neither ends without
    it nor goes on for longer. *)
Theorem reconcile_served s s' p t n k :
  reachable config s -> (p, t) ∈ requests s -> imminent s p ->
  run p n k s s' -> Z.of_nat (length (requests s')) < two64 ->
  covered s' p t \/ left_early s' p \/ (imminent s' p /\ (n < 8 + k)%nat).
Proof.
  intros Hr Hin Hi Hrun Hb. assert (I : winv s).
  { apply (winv_steps new_sys s Hr winv_new_sys). pose proof (requests_grows _ _ (run_steps _ _ _ _ _ Hrun)). lia. }
  destruct (run_potential p t n k s s' Hrun I Hb Hin Hi) as [[?|?]|[Hi' Hp]]; [by auto|by auto|].
  pose proof (potential_positive s p Hi). pose proof (potential_positive s' p Hi'). right; right. split; [done|lia].
Qed.

(** Such a run can go on: the loop can move, or a deploy that holds a slot can. *)
Lemma imminent_progress raw s p :
  New raw = Ok config -> reachable config s -> Z.of_nat (length (requests s)) < two64 -> imminent s p ->
  exists q s', run_step config q s s' /\ (q = p \/ q ∈ deploying s).
Proof.
  intros Hn Hr Hb (l & [sid c pos] & Hl & Hp & Hpos). simpl in Hpos.
  destruct pos as [d f|f|f|g f|g o f|g f|why|why]; try done.
  - exists p. eexists. split; [by eapply run_woken|by left].
  - destruct (decide (slots (watcher s) < c_Concurrency config)) as [Hs|Hs].
    { exists p. eexists. split; [by eapply run_acquired|by left]. }
    destruct (concurrency_aux raw s Hn Hr) as (Hc1 & Hc & Hle).
    destruct (decide (deploying s = ∅)) as [E|E]; [rewrite E, size_empty in Hc; simpl in Hc; lia|].
    apply set_choose_L in E as [q Hq]. exists q. pose proof Hq as Hq'. apply elem_of_deploying in Hq' as ([sid' c' pos'] & Hq' & Hh).
    destruct pos'; try done.
    + destruct (proj1 (wi_dom s (winv_steps new_sys s Hr winv_new_sys Hb) q)) as [l' Hl']; [by rewrite Hq'|].
      eexists. split; [by eapply run_begin|by right].
    + eexists. split; [eapply (run_deployed config q sid' c' _ _ DeployOk); done|by right].
  - exists p. eexists. split; [by eapply run_begin|by left].
  - exists p. eexists. split; [by eapply (run_deployed config p sid c g f DeployOk)|by left].
  - exists p. eexists. split; [by eapply run_load_failed|by left].
  - destruct (finishOneShot sid p g (watcher s)) as [w b] eqn:E. exists p. eexists.
    split; [by eapply run_finish|by left].
Qed.
End Invariant.

(** ** Delays *)

Lemma doubling_min n maximum delay :
  0 < delay <= maximum -> maximum <= max_int64 -> Z.even maximum = true ->
  match doubling n maximum delay with
  | inr d => d = maximum /\ maximum <= delay * 2 ^ Z.of_nat n
  | inl d => d = delay * 2 ^ Z.of_nat n /\ d <= maximum
  end.
Proof.
  revert delay. induction n as [|n IH]; intros delay Hd Hm He; [simpl; lia|].
  assert (Hhalf : maximum = 2 * Z.quot maximum 2).
  { rewrite Z.quot_div_nonneg by lia. apply Z.even_spec in He as [k ->]. rewrite Z.mul_comm, Z.div_mul by lia. lia. }
  rewrite Nat2Z.inj_succ, Z.pow_succ_r by lia. simpl. destruct (Z.leb_spec (Z.quot maximum 2) delay).
  - split; [done|]. pose proof (Z.pow_pos_nonneg 2 (Z.of_nat n)). nia.
  - rewrite i64_small by (unfold min_int64; lia).
    specialize (IH (delay * 2) ltac:(lia) Hm He). rewrite Z.mul_assoc. done.
Qed.

(** The retry delay is the base doubled once per further failure and capped
    at the maximum, without overflow, for every number of failures. *)
Theorem exponential_delay_min base maximum failures :
  0 < base <= maximum -> maximum <= max_int64 -> Z.even maximum = true -> 1 <= failures ->
  exponentialDelay base maximum failures = Z.min (base * 2 ^ (failures - 1)) maximum.
Proof.
  intros Hb Hm He Hf. unfold exponentialDelay. destruct (Z.ltb_spec failures 1); [lia|].
  pose proof (doubling_min (Z.to_nat (failures - 1)) maximum base Hb Hm He) as Hd.
  rewrite Z2Nat.id in Hd by lia.
  destruct (doubling _ maximum base) as [d|d]; [|lia]. destruct (Z.ltb_spec maximum d); lia.
Qed.

Lemma exponential_delay_min_witness : exponentialDelay RemoteInterval RemoteMaximumBackoff 4 = 8 * minute.
Proof. rewrite (exponential_delay_min RemoteInterval RemoteMaximumBackoff 4); [reflexivity|done..]. Defined.

(** ** Runs *)

Definition demo_watch : Config := mkWatchConfig RemoteInterval RemoteMaximumBackoff 1.
Definition demo_desired : ServiceDesired := mkDesired "svc" "project" "p" "web" true "" "" "" demo_snapshot.

#[local] Notation demo_step := (@step demo_hostnames demo_config demo_watch).
#[local] Notation demo_reachable := (@reachable demo_hostnames demo_config demo_watch).

(** The watcher is started and asked for one deploy of an unknown service. *)
Definition demo_pending : Sys :=
  mkSys (mkWatcher true (Some 0%nat) 1 ∅ {["svc" := 0%nat]} {[0%nat := mkLoop true None false 1]} 0)
    {[0%nat := mkRoutine "svc" 0 (Waiting minute 0)]} [] [] [(0%nat, 0%nat)] [].

Lemma demo_pending_reachable : demo_reachable demo_pending.
Proof.
  eapply rtc_l; [left; by eapply api_start|].
  eapply rtc_l; [left; by eapply (api_reconcile _ "svc")|].
  eapply rtc_l; [left; by eapply (api_wake _ 0 0)|]. apply rtc_refl.
Qed.

Lemma reconcile_kept_witness : kept demo_pending 0 0.
Proof.
  apply (@reconcile_kept demo_hostnames demo_config demo_watch demo_pending 0 0);
    [exact demo_pending_reachable|reflexivity|apply list_elem_of_here].
Defined.

Lemma concurrency_bound_witness : slots (watcher demo_pending) = Z.of_nat (size (deploying demo_pending)).
Proof.
  apply (@concurrency_bound demo_hostnames demo_config demo_watch (mkWatchConfig 0 0 1));
    [reflexivity|exact demo_pending_reachable].
Defined.

(** The loop deploys, loads a service that is still watched, waits for its timer
    and deploys again: eight steps. *)
Lemma demo_eight_steps : exists s,
  @run demo_hostnames demo_config demo_watch 0 8 0 demo_pending s /\ requests s = [(0%nat, 0%nat)].
Proof.
  eexists. split.
  - eapply run_own; [by eapply run_woken|]. eapply run_own; [by eapply run_acquired|].
    eapply run_own; [by eapply run_begin|]. eapply run_own; [by eapply (run_deployed _ _ _ _ _ _ DeployOk)|].
    eapply run_own; [by eapply (run_loaded _ _ _ _ _ _ _ demo_desired)|].
    eapply run_own; [by eapply run_timer|]. eapply run_own; [by eapply run_acquired|].
    eapply run_own; [by eapply run_begin|]. apply run_done.
  - reflexivity.
Qed.

Lemma reconcile_served_witness : exists s,
  @run demo_hostnames demo_config demo_watch 0 8 0 demo_pending s /\ (covered s 0 0 \/ left_early s 0).
Proof.
  destruct demo_eight_steps as (s & Hrun & Hreq). exists s. split; [exact Hrun|].
  destruct (@reconcile_served demo_hostnames demo_config demo_watch demo_pending s 0 0 8 0) as [?|[?|[_ ?]]];
    [exact demo_pending_reachable|apply list_elem_of_here| |exact Hrun|by rewrite Hreq|by left|by right|lia].
  exists (mkLoop true None false 1), (mkRoutine "svc" 0 (Waiting minute 0)). done.
Defined.

(** What [reconcile_kept] allows does happen: a second [Reconcile] arrives while
    the first deploy runs, [DesiredService] then fails once, and the goroutine
    leaves without the deploy it was asked for; the service has no loop left. *)
Definition demo_lost : Sys :=
  mkSys (mkWatcher true (Some 0%nat) 1 ∅ ∅ {[0%nat := mkLoop true None false 2]} 0)
    {[0%nat := mkRoutine "svc" 0 (Gone LoadFailed)]} [] [] [(0%nat, 0%nat); (0%nat, 1%nat)] [0%nat].

Lemma reconcile_lost :
  demo_reachable demo_lost /\ (0%nat, 1%nat) ∈ requests demo_lost /\ ~ covered demo_lost 0 1 /\
  services (watcher demo_lost) !! "svc" = None.
Proof.
  split_and!; [| set_solver | |done].
  - unfold reachable. etrans; [exact demo_pending_reachable|].
    eapply rtc_l; [right; exists 0%nat; by eapply run_woken|].
    eapply rtc_l; [right; exists 0%nat; by eapply run_acquired|].
    eapply rtc_l; [right; exists 0%nat; by eapply run_begin|].
    eapply rtc_l; [left; by eapply (api_reconcile _ "svc")|].
    eapply rtc_l; [left; by eapply (api_wake _ 0 0)|].
    eapply rtc_l; [right; exists 0%nat; by eapply (run_deployed _ _ _ _ _ _ DeployOk)|].
    eapply rtc_l; [right; exists 0%nat; by eapply run_load_failed|].
    eapply rtc_l; [right; exists 0%nat; by eapply run_leave|]. apply rtc_refl.
  - intros (i & Hle & Hi). apply lookup_lt_Some in Hi. simpl in Hi. lia.
Qed.
