(* ===== verification/ProjectNetwork.v ===== *)
(** * Project networks: internal/projectnetwork/plan.go

    Every project gets a bridge with a /24 subnet of a private pool.  [netip]
    addresses are a family and a value, prefixes an address and a length (-1 when
    invalid).  The hash behind the bridge names and the sort of [slices.SortFunc],
    which is not stable, are parameters. *)

From Stdlib Require Import Ascii.
From S2P Require Import Prelude.

(** ** net/netip *)

Inductive Addr := ZeroAddr | V4 (value : Z) | V6 (value : Z).
Record Prefix := mkPrefix { p_Addr : Addr; p_Bits : Z }.
Definition ZeroPrefix : Prefix := mkPrefix ZeroAddr (-1).

Definition BitLen (a : Addr) : Z := match a with ZeroAddr => 0 | V4 _ => 32 | V6 _ => 128 end.
Definition value (a : Addr) : Z := match a with ZeroAddr => 0 | V4 v | V6 v => v end.
Definition Is4 (a : Addr) : bool := match a with V4 _ => true | _ => false end.
Definition with_value (a : Addr) (v : Z) : Addr :=
  match a with ZeroAddr => ZeroAddr | V4 _ => V4 v | V6 _ => V6 v end.

Definition IsPrivate (a : Addr) : bool :=
  match a with
  | V4 v => (Z.shiftr v 24 =? 10)
            || ((Z.shiftr v 24 =? 172) && (Z.land (Z.shiftr v 16) 240 =? 16))
            || ((Z.shiftr v 24 =? 192) && (Z.land (Z.shiftr v 16) 255 =? 168))
  | V6 v => Z.land (Z.shiftr v 120) 254 =? 252
  | ZeroAddr => false
  end.

Definition PrefixFrom (a : Addr) (bits : Z) : Prefix :=
  match a with
  | ZeroAddr => mkPrefix a (-1)
  | _ => if (0 <=? bits) && (bits <=? BitLen a) then mkPrefix a bits else mkPrefix a (-1)
  end.
Definition IsValid (p : Prefix) : bool := 0 <=? p_Bits p.

Definition host_bits (p : Prefix) : Z := BitLen (p_Addr p) - p_Bits p.
Definition Masked (p : Prefix) : Prefix :=
  if IsValid p
  then mkPrefix (with_value (p_Addr p) (Z.shiftl (Z.shiftr (value (p_Addr p)) (host_bits p)) (host_bits p)))
         (p_Bits p)
  else ZeroPrefix.
Definition Contains (p : Prefix) (a : Addr) : bool :=
  IsValid p && negb (BitLen a =? 0) && (BitLen (p_Addr p) =? BitLen a)
  && (Z.shiftr (Z.lxor (value a) (value (p_Addr p))) (host_bits p) =? 0).
Definition Next (a : Addr) : Addr :=
  if value a =? 2 ^ BitLen a - 1 then ZeroAddr else with_value a (value a + 1).

(** ** Plans *)

Definition defaultPool : Prefix := mkPrefix (V4 (10 * 2 ^ 24 + 80 * 2 ^ 16)) 12.

Definition ContainerLeaseFirstHost : Z := 2.
Definition ContainerLeaseLastHost : Z := 159.
Definition RemoteVIPFirstHost : Z := 160.
Definition RemoteVIPLastHost : Z := 191.
Definition GatewayFirstHost : Z := 192.
Definition GatewayLastHost : Z := 254.
Definition remoteVIPPrefixBits : Z := 27.

Record Project := mkProject { pr_ID : string; pr_Name : string }.
Record Assignment := mkAssignment {
  a_ProjectID : string; a_ProjectName : string; a_NetworkName : string; a_Bridge : string;
  a_Subnet : Prefix; a_Gateway : Addr
}.
Inductive FailureErr := BridgeCollision (owner : string) | ErrPoolExhausted.
Record Failure := mkFailure { f_ProjectID : string; f_Err : FailureErr }.
Record Result := mkResult { Assignments : list Assignment; Failures : list Failure }.

Inductive PlanError :=
| InvalidPool (pool : Prefix)
| MissingIDOrName
| DuplicateID (id : string)
| InvalidOccupied (prefix : Prefix)
| InvalidHost (subnet : Prefix) (host : Z)
| InvalidVIP (subnet : Prefix).

Class NetworkLibrary := {
  sha256 : string -> list Z;
  SortFunc : list Project -> list Project
}.
Class NetworkLaws `{NetworkLibrary} := {
  sha256_bytes : forall s, length (sha256 s) = 32%nat /\ Forall (fun b => 0 <= b < 256) (sha256 s);
  SortFunc_perm : forall l, SortFunc l ≡ₚ l;
  SortFunc_sorted : forall l, Sorted String.le (pr_ID <$> SortFunc l)
}.

(** base32 without padding: the bits of the bytes in groups of five, the last
    group filled with zeros, each a letter of the alphabet. *)
Definition base32_alphabet : list ascii := String.list_ascii_of_string "ABCDEFGHIJKLMNOPQRSTUVWXYZ234567".
Definition byte_bits (b : Z) : list bool := (fun i => Z.testbit b (7 - Z.of_nat i)) <$> seq 0 8.
Definition bits_value (bits : list bool) : Z := foldl (fun v (b : bool) => 2 * v + Z.b2z b) 0 bits.
Definition letter (group : list bool) : ascii :=
  default "A"%char
    (base32_alphabet !! Z.to_nat (bits_value (take 5 (group ++ replicate 5 false)))).
Fixpoint groups_of_five (fuel : nat) (bits : list bool) : list (list bool) :=
  match fuel, bits with
  | S n, _ :: _ => take 5 bits :: groups_of_five n (drop 5 bits)
  | _, _ => []
  end.
Definition base32 (bytes : list Z) : list ascii :=
  let bits := mjoin (byte_bits <$> bytes) in letter <$> groups_of_five (length bits) bits.

Definition subnetAt (pool : Prefix) (index : Z) : Prefix :=
  let v := value (p_Addr (Masked pool)) in
  PrefixFrom (V4 (u32 (v + u32 (Z.shiftl index 8)))) 24.

Definition overlapsAny (candidate : Prefix) (blocked : list Prefix) : bool :=
  existsb (fun prefix => Contains candidate (p_Addr prefix) || Contains prefix (p_Addr candidate)) blocked.

(** The inner loop: the first free candidate from [index] on, and the index
    after it.  [left] is how many candidates are left. *)
Fixpoint nextFree (left : nat) (pool : Prefix) (index : Z) (blocked : list Prefix) : Z * option Prefix :=
  match left with
  | O => (index, None)
  | S n =>
      let candidate := subnetAt pool index in
      if overlapsAny candidate blocked then nextFree n pool (u32 (index + 1)) blocked
      else (u32 (index + 1), Some candidate)
  end.

Fixpoint checkProjects (previous : option string) (projects : list Project) : option PlanError :=
  match projects with
  | [] => None
  | p :: rest =>
      if empty (pr_ID p) || empty (pr_Name p) then Some MissingIDOrName
      else if bool_decide (previous = Some (pr_ID p)) then Some (DuplicateID (pr_ID p))
      else checkProjects (Some (pr_ID p)) rest
  end.

Fixpoint blockOccupied (occupied : list Prefix) : result PlanError (list Prefix) :=
  match occupied with
  | [] => Ok []
  | p :: rest =>
      if negb (IsValid p) || negb (Is4 (p_Addr p)) then Err (InvalidOccupied p)
      else let? blocked := blockOccupied rest in
           Ok (if p_Bits p =? 0 then blocked else Masked p :: blocked)
  end.

Section Plan.
Context `{NetworkLibrary}.

Definition BridgeName (projectID : string) : string :=
  "pd" +:+ String.string_of_list_ascii (to_lower_ascii <$> take 13 (base32 (sha256 projectID))).

Fixpoint assign (pool : Prefix) (count : Z) (projects : list Project)
    (used : gmap string string) (index : Z) (blocked : list Prefix) : Result :=
  match projects with
  | [] => mkResult [] []
  | p :: rest =>
      let bridge := BridgeName (pr_ID p) in
      match used !! bridge with
      | Some owner =>
          let r := assign pool count rest used index blocked in
          mkResult (Assignments r) (mkFailure (pr_ID p) (BridgeCollision owner) :: Failures r)
      | None =>
          let used := <[bridge := pr_ID p]> used in
          let '(index, subnet) := nextFree (Z.to_nat (count - index)) pool index blocked in
          match subnet with
          | None =>
              let r := assign pool count rest used index blocked in
              mkResult (Assignments r) (mkFailure (pr_ID p) ErrPoolExhausted :: Failures r)
          | Some subnet =>
              let r := assign pool count rest used index (blocked ++ [subnet]) in
              mkResult (mkAssignment (pr_ID p) (pr_Name p) bridge bridge subnet (Next (p_Addr subnet))
                        :: Assignments r) (Failures r)
          end
      end
  end.

Definition planWithPool (projects : list Project) (occupied : list Prefix) (pool : Prefix)
    : result PlanError Result :=
  if negb (IsValid pool) || negb (Is4 (p_Addr pool)) || negb (IsPrivate (p_Addr pool)) || (24 <? p_Bits pool)
  then Err (InvalidPool pool)
  else
    let canonicalProjects := SortFunc projects in
    match checkProjects None canonicalProjects with
    | Some e => Err e
    | None =>
        let? blocked := blockOccupied occupied in
        Ok (assign pool (u32 (Z.shiftl 1 (24 - p_Bits pool))) canonicalProjects ∅ 0 blocked)
    end.

Definition Plan (projects : list Project) (occupied : list Prefix) : result PlanError Result :=
  planWithPool projects occupied defaultPool.
End Plan.

Definition HostAddress (subnet : Prefix) (host : Z) : result PlanError Addr :=
  if negb (IsValid subnet) || negb (Is4 (p_Addr subnet)) || negb (p_Bits subnet =? 24)
     || (host <? 1) || (254 <? host)
  then Err (InvalidHost subnet host)
  else Ok (V4 (Z.lor (Z.shiftl (Z.shiftr (value (p_Addr (Masked subnet))) 8) 8) (Z.land host 255))).

Definition RemoteVIPPrefix (subnet : Prefix) : result PlanError Prefix :=
  let? address := HostAddress subnet RemoteVIPFirstHost in
  let prefix := PrefixFrom address remoteVIPPrefixBits in
  if negb (IsValid prefix) || negb (Contains prefix address) then Err (InvalidVIP subnet)
  else
    let? last := HostAddress subnet RemoteVIPLastHost in
    if negb (Contains prefix last) then Err (InvalidVIP subnet) else Ok (Masked prefix).

(** ** Prefixes as sets of addresses *)

(** What [netip] guarantees of a value. *)
Definition prefix_ok (p : Prefix) : Prop :=
  0 <= value (p_Addr p) < 2 ^ BitLen (p_Addr p) /\ p_Bits p <= BitLen (p_Addr p).

Definition disjoint_prefixes (p q : Prefix) : Prop :=
  forall a, Contains p a = true -> Contains q a = false.

Lemma Contains_spec p a :
  Contains p a = true <->
  0 <= p_Bits p /\ BitLen a <> 0 /\ BitLen (p_Addr p) = BitLen a /\
  Z.shiftr (value a) (host_bits p) = Z.shiftr (value (p_Addr p)) (host_bits p).
Proof.
  unfold Contains, IsValid.
  rewrite !andb_true_iff, negb_true_iff, Z.leb_le, Z.eqb_neq, !Z.eqb_eq, Z.shiftr_lxor, Z.lxor_eq_0_iff. tauto.
Qed.

Lemma shiftr_weaken x y k k' : 0 <= k <= k' -> Z.shiftr x k = Z.shiftr y k -> Z.shiftr x k' = Z.shiftr y k'.
Proof.
  intros Hk E. replace k' with (k + (k' - k)) by lia. by rewrite <- !Z.shiftr_shiftr, E by lia.
Qed.

(** Two prefixes share an address only if one contains the other's address. *)
Lemma nested_or_disjoint p q :
  p_Bits p <= BitLen (p_Addr p) -> p_Bits q <= BitLen (p_Addr q) ->
  Contains p (p_Addr q) = false -> Contains q (p_Addr p) = false -> disjoint_prefixes p q.
Proof.
  intros Hp Hq Hpq Hqp a Ha. apply not_true_is_false. intros Hb.
  apply Contains_spec in Ha as (Hp0 & Hz & Hfp & Ea), Hb as (Hq0 & _ & Hfq & Eb).
  assert (Hh : 0 <= host_bits p /\ 0 <= host_bits q) by (unfold host_bits; lia).
  destruct (decide (host_bits q <= host_bits p)) as [Hle|Hle].
  - apply eq_true_false_abs in Hpq; [done|]. apply Contains_spec. split_and!; [done|congruence..|].
    rewrite <- Ea. symmetry. apply (shiftr_weaken _ _ (host_bits q)); [lia|done].
  - apply eq_true_false_abs in Hqp; [done|]. apply Contains_spec. split_and!; [done|congruence..|].
    rewrite <- Eb. symmetry. apply (shiftr_weaken _ _ (host_bits p)); [lia|done].
Qed.

Lemma overlapsAny_false c blocked :
  overlapsAny c blocked = false <->
  forall p, p ∈ blocked -> Contains c (p_Addr p) = false /\ Contains p (p_Addr c) = false.
Proof.
  unfold overlapsAny. rewrite <- not_true_iff_false, existsb_exists. split.
  - intros Hn p Hp. apply orb_false_iff, not_true_is_false. intros Hc. apply Hn.
    exists p. split; [by apply list_elem_of_In|done].
  - intros Hall (p & Hp & Hc). apply list_elem_of_In in Hp. destruct (Hall p Hp) as [E1 E2].
    by rewrite E1, E2 in Hc.
Qed.

Lemma overlapsAny_app c l1 l2 : overlapsAny c (l1 ++ l2) = overlapsAny c l1 || overlapsAny c l2.
Proof. apply existsb_app. Qed.

(** ** Candidates *)

Section Pool.
Context (pool : Prefix).
Context (Hpool : prefix_ok pool) (H4 : Is4 (p_Addr pool) = true) (Hbits : 0 <= p_Bits pool <= 24).

Lemma pool_base :
  exists v base, p_Addr pool = V4 v /\ value (p_Addr (Masked pool)) = base * 2 ^ (32 - p_Bits pool) /\
    Z.shiftr v (32 - p_Bits pool) = base /\ 0 <= base < 2 ^ p_Bits pool.
Proof.
  destruct Hpool as [Hv _]. unfold Masked, IsValid, host_bits. destruct (p_Addr pool) as [|v|]; try done.
  exists v, (Z.shiftr v (32 - p_Bits pool)). destruct (Z.leb_spec 0 (p_Bits pool)); [|lia]. simpl in *.
  rewrite Z.shiftl_mul_pow2 by lia. split_and!; [done|done|done|..].
  - apply Z.shiftr_nonneg. lia.
  - rewrite Z.shiftr_div_pow2 by lia. apply Z.div_lt_upper_bound; [by apply Z.pow_pos_nonneg; lia|].
    rewrite <- Z.pow_add_r by lia. replace (32 - p_Bits pool + p_Bits pool) with 32 by lia. lia.
Qed.

Lemma pool_pow : 2 ^ (32 - p_Bits pool) = 2 ^ (24 - p_Bits pool) * 256.
Proof. replace (32 - p_Bits pool) with ((24 - p_Bits pool) + 8) by lia. by rewrite Z.pow_add_r by lia. Qed.

(** A candidate is a /24 made without overflow. *)
Lemma subnetAt_value index :
  0 <= index < 2 ^ (24 - p_Bits pool) ->
  exists base, subnetAt pool index = mkPrefix (V4 (base * 2 ^ (32 - p_Bits pool) + index * 256)) 24 /\
    0 <= base < 2 ^ p_Bits pool /\ base = Z.shiftr (value (p_Addr pool)) (32 - p_Bits pool).
Proof.
  intros Hi. destruct pool_base as (v & base & Hv & Hm & Hb & Hr). exists base.
  pose proof pool_pow as Hpow.
  assert (Hall : 2 ^ p_Bits pool * 2 ^ (32 - p_Bits pool) = two32).
  { rewrite <- Z.pow_add_r by lia. by replace (p_Bits pool + (32 - p_Bits pool)) with 32 by lia. }
  split; [|split; [done|by rewrite Hv]]. unfold subnetAt. rewrite Hm, Z.shiftl_mul_pow2 by lia. change (2 ^ 8) with 256.
  rewrite (u32_small (index * 256)) by nia. rewrite u32_small by nia. done.
Qed.

Lemma subnetAt_in_pool index a :
  0 <= index < 2 ^ (24 - p_Bits pool) -> Contains (subnetAt pool index) a = true -> Contains pool a = true.
Proof.
  intros Hi Ha. destruct (subnetAt_value index Hi) as (base & E & Hb & Hs). rewrite E in Ha.
  apply Contains_spec in Ha as (_ & Hz & Hf & Ea). simpl in Hf. unfold host_bits in Ea. simpl in Ea.
  assert (Hf' : BitLen (p_Addr pool) = 32) by (by destruct (p_Addr pool)).
  apply Contains_spec. unfold host_bits. rewrite Hf'. split_and!; [lia|done|lia|].
  rewrite (shiftr_weaken _ _ 8 (32 - p_Bits pool) ltac:(lia) Ea), <- Hs, Z.shiftr_div_pow2 by lia.
  pose proof pool_pow as Hpow.
  rewrite Z.add_comm, Z.div_add by lia. rewrite Z.div_small by lia. done.
Qed.

Lemma subnetAt_self index :
  0 <= index < 2 ^ (24 - p_Bits pool) ->
  Contains (subnetAt pool index) (p_Addr (subnetAt pool index)) = true.
Proof.
  intros Hi. destruct (subnetAt_value index Hi) as (base & -> & _). by apply Contains_spec.
Qed.

(** The first address is free for the gateway. *)
Lemma subnetAt_gateway index :
  0 <= index < 2 ^ (24 - p_Bits pool) ->
  Contains (subnetAt pool index) (Next (p_Addr (subnetAt pool index))) = true.
Proof.
  intros Hi. destruct (subnetAt_value index Hi) as (base & -> & Hb & _).
  pose proof pool_pow as Hpow.
  rewrite Hpow. unfold Next. simpl.
  replace (base * (2 ^ (24 - p_Bits pool) * 256) + index * 256)
    with ((base * 2 ^ (24 - p_Bits pool) + index) * 256) by ring.
  set (n := base * 2 ^ (24 - p_Bits pool) + index).
  destruct (Z.eqb_spec (n * 256) (2 ^ 32 - 1)) as [E|_]; [lia|].
  apply Contains_spec. unfold host_bits. simpl. split_and!; [done..|].
  rewrite !Z.shiftr_div_pow2 by lia. change (2 ^ 8) with 256.
  rewrite Z.div_mul by lia. rewrite Z.add_comm, Z.div_add by lia. done.
Qed.

Notation count := (2 ^ (24 - p_Bits pool)).

Lemma count_small : 0 < count <= 2 ^ 24.
Proof. split; [apply Z.pow_pos_nonneg; lia|apply Z.pow_le_mono_r; lia]. Qed.

Lemma nextFree_spec n index blocked :
  0 <= index -> index + Z.of_nat n = count ->
  match nextFree n pool index blocked with
  | (index', Some c) => exists j, index <= j < count /\ index' = j + 1 /\ c = subnetAt pool j /\
      overlapsAny c blocked = false /\
      forall k, index <= k < j -> overlapsAny (subnetAt pool k) blocked = true
  | (index', None) => index' = count /\
      forall k, index <= k < count -> overlapsAny (subnetAt pool k) blocked = true
  end.
Proof.
  pose proof count_small as Hc. revert index. induction n as [|n IH]; intros index Hi Hn; simpl.
  - split; [lia|]. intros k Hk. lia.
  - rewrite u32_small by (unfold two32; lia). destruct (overlapsAny (subnetAt pool index) blocked) eqn:E.
    + specialize (IH (index + 1) ltac:(lia) ltac:(lia)). destruct (nextFree n pool (index + 1) blocked) as [i' [c|]].
      * destruct IH as (j & Hj & -> & -> & Hf & Hk). exists j. split_and!; [lia..|done|done|done|].
        intros k Hk'. destruct (decide (k = index)) as [->|]; [done|apply Hk; lia].
      * destruct IH as [-> Hk]. split; [done|]. intros k Hk'.
        destruct (decide (k = index)) as [->|]; [done|apply Hk; lia].
    + exists index. split_and!; try done; try lia.
Qed.

(** What a run of the planning loop from an intermediate state gives. *)
Record run_ok `{NetworkLibrary} (projects : list Project) (used : gmap string string) (index : Z)
    (blocked : list Prefix) (r : Result) : Prop := mkRunOk {
  ro_subnet : forall a, a ∈ Assignments r -> exists j, index <= j < count /\ a_Subnet a = subnetAt pool j /\
    overlapsAny (a_Subnet a) blocked = false /\ a_Gateway a = Next (p_Addr (a_Subnet a)) /\
    a_Bridge a = BridgeName (a_ProjectID a) /\ used !! a_Bridge a = None;
  ro_pairwise : forall i j a b, Assignments r !! i = Some a -> Assignments r !! j = Some b -> (i < j)%nat ->
    overlapsAny (a_Subnet b) [a_Subnet a] = false /\ a_Bridge a <> a_Bridge b;
  ro_all : (a_ProjectID <$> Assignments r) ++ (f_ProjectID <$> Failures r) ≡ₚ (pr_ID <$> projects);
  ro_exhausted : forall f, f ∈ Failures r -> f_Err f = ErrPoolExhausted ->
    forall k, 0 <= k < count ->
      overlapsAny (subnetAt pool k) (blocked ++ (a_Subnet <$> Assignments r)) = true;
  ro_collision : forall f owner, f ∈ Failures r -> f_Err f = BridgeCollision owner ->
    used !! BridgeName (f_ProjectID f) = Some owner \/
    owner ∈ pr_ID <$> projects /\ BridgeName owner = BridgeName (f_ProjectID f)
}.

Section Assign.
Context `{NetworkLibrary}.

Lemma run_collision p projects used index blocked r owner :
  used !! BridgeName (pr_ID p) = Some owner -> run_ok projects used index blocked r ->
  run_ok (p :: projects) used index blocked
    (mkResult (Assignments r) (mkFailure (pr_ID p) (BridgeCollision owner) :: Failures r)).
Proof.
  intros Hu [Rs Rp Ra Re Rc]. split; simpl; try done.
  - by rewrite <- Permutation_middle, Ra.
  - intros f Hf. apply elem_of_cons in Hf as [->|Hf]; [done|eauto].
  - intros f owner' Hf. apply elem_of_cons in Hf as [->|Hf]; simpl.
    + intros [= <-]. by left.
    + intros He. destruct (Rc f owner' Hf He) as [?|[? ?]]; [by left|right]. split; [by right|done].
Qed.

Lemma used_next b bridge id (used : gmap string string) :
  <[bridge := id]> used !! b = None -> b <> bridge /\ used !! b = None.
Proof. rewrite lookup_insert_None. naive_solver. Qed.

Lemma collision_next p projects (used : gmap string string) f owner :
  <[BridgeName (pr_ID p) := pr_ID p]> used !! BridgeName f = Some owner \/
    owner ∈ pr_ID <$> projects /\ BridgeName owner = BridgeName f ->
  used !! BridgeName f = Some owner \/
    owner ∈ pr_ID <$> (p :: projects) /\ BridgeName owner = BridgeName f.
Proof.
  intros [Hu|[? ?]]; [|right; split; [by right|done]].
  apply lookup_insert_Some in Hu as [[? <-]|[_ ?]]; [right|by left]. split; [by left|done].
Qed.

Lemma run_exhausted p projects used index index' blocked r :
  index <= index' ->
  (forall k, 0 <= k < count -> overlapsAny (subnetAt pool k) blocked = true) ->
  run_ok projects (<[BridgeName (pr_ID p) := pr_ID p]> used) index' blocked r ->
  run_ok (p :: projects) used index blocked
    (mkResult (Assignments r) (mkFailure (pr_ID p) ErrPoolExhausted :: Failures r)).
Proof.
  intros Hi Hall [Rs Rp Ra Re Rc]. split; simpl; try done.
  - intros a Ha. destruct (Rs a Ha) as (j & Hj & ? & ? & ? & ? & Hu). apply used_next in Hu as [_ Hu].
    exists j. split_and!; try done; lia.
  - by rewrite <- Permutation_middle, Ra.
  - intros f Hf He k Hk. rewrite overlapsAny_app, (Hall k Hk). done.
  - intros f owner Hf. apply elem_of_cons in Hf as [->|Hf]; [done|].
    intros He. by apply collision_next, Rc.
Qed.

Lemma run_assigned p projects used index j blocked r :
  let c := subnetAt pool j in let bridge := BridgeName (pr_ID p) in
  index <= j < count -> used !! bridge = None -> overlapsAny c blocked = false ->
  run_ok projects (<[bridge := pr_ID p]> used) (j + 1) (blocked ++ [c]) r ->
  run_ok (p :: projects) used index blocked
    (mkResult (mkAssignment (pr_ID p) (pr_Name p) bridge bridge c (Next (p_Addr c)) :: Assignments r) (Failures r)).
Proof.
  intros c bridge Hj Hu Hfree [Rs Rp Ra Re Rc]. split; simpl.
  - intros a Ha. apply elem_of_cons in Ha as [->|Ha]; [exists j; split_and!; done || lia|].
    destruct (Rs a Ha) as (i & Hi & ? & Ho & ? & ? & Hu'). apply used_next in Hu' as [_ Hu'].
    rewrite overlapsAny_app in Ho. apply orb_false_iff in Ho as [Ho _]. exists i. split_and!; try done; lia.
  - intros [|i] [|j'] a b Ha Hb Hlt; try lia; simpl in *; [|by apply (Rp i j' a b Ha Hb); lia].
    injection Ha as <-. apply list_elem_of_lookup_2 in Hb.
    destruct (Rs b Hb) as (i & Hi & ? & Ho & ? & ? & Hu'). apply used_next in Hu' as [Hne _].
    rewrite overlapsAny_app in Ho. apply orb_false_iff in Ho as [_ Ho]. done.
  - by rewrite Ra.
  - intros f Hf He k Hk. specialize (Re f Hf He k Hk). by rewrite <- app_assoc in Re.
  - intros f owner Hf He. by apply collision_next, Rc.
Qed.

Lemma assign_ok projects used index blocked :
  0 <= index <= count -> (forall k, 0 <= k < index -> overlapsAny (subnetAt pool k) blocked = true) ->
  run_ok projects used index blocked (assign pool count projects used index blocked).
Proof.
  revert used index blocked. induction projects as [|p projects IH]; intros used index blocked Hi Hall; simpl.
  { split; simpl; try done; intros; by apply not_elem_of_nil in H0. }
  destruct (used !! BridgeName (pr_ID p)) as [owner|] eqn:Eu; [by apply run_collision, IH|].
  pose proof (nextFree_spec (Z.to_nat (count - index)) index blocked ltac:(lia) ltac:(lia)) as Hn.
  destruct (nextFree _ pool index blocked) as [index' [c|]].
  - destruct Hn as (j & Hj & -> & -> & Hfree & Hk). apply run_assigned; try done.
    apply IH; [lia|]. intros k Hk'. rewrite overlapsAny_app. apply orb_true_iff.
    destruct (decide (k < index)); [left; apply Hall; lia|]. destruct (decide (k < j)); [left; apply Hk; lia|].
    right. replace k with j by lia. apply orb_true_iff. left. apply orb_true_iff. left. apply subnetAt_self. lia.
  - destruct Hn as [-> Hk].
    assert (Hfull : forall k, 0 <= k < count -> overlapsAny (subnetAt pool k) blocked = true).
    { intros k Hk'. destruct (decide (k < index)); [apply Hall|apply Hk]; lia. }
    apply (run_exhausted p projects used index count); [lia|done|]. apply IH; [lia|]. intros k Hk'. apply Hfull. lia.
Qed.
End Assign.
End Pool.

(** ** Properties *)

Lemma Masked_Contains p a : p_Bits p <= BitLen (p_Addr p) -> Contains (Masked p) a = Contains p a.
Proof.
  intros Hp. unfold Masked. destruct (IsValid p) eqn:E; [|unfold Contains; by rewrite E].
  unfold IsValid in E. apply Z.leb_le in E. apply eq_true_iff_eq. rewrite !Contains_spec. unfold host_bits. simpl.
  assert (Hb : forall v, BitLen (with_value (p_Addr p) v) = BitLen (p_Addr p)) by (by destruct (p_Addr p)).
  destruct (decide (BitLen (p_Addr p) = 0)) as [Hz|Hz].
  { rewrite Hb. split; intros (? & ? & ? & _); congruence. }
  assert (Hv : forall v, value (with_value (p_Addr p) v) = v) by (by destruct (p_Addr p)).
  rewrite Hb, Hv, Z.shiftr_shiftl_l, Z.sub_diag, Z.shiftl_0_r by lia. done.
Qed.

Lemma blockOccupied_spec occupied blocked :
  blockOccupied occupied = Ok blocked ->
  (forall o, o ∈ occupied -> p_Bits o <> 0 -> Masked o ∈ blocked) /\
  forall b, b ∈ blocked -> exists o, o ∈ occupied /\ b = Masked o /\ p_Bits o <> 0 /\ IsValid o = true.
Proof.
  revert blocked. induction occupied as [|o occupied IH]; simpl; intros blocked Hb.
  { injection Hb as <-. split; intros ? Hx; by apply not_elem_of_nil in Hx. }
  destruct (_ || _) eqn:E in Hb; [done|]. btrue. apply rbind_ok in Hb as (rest & Hr & Hb).
  destruct (IH rest Hr) as [IH1 IH2]. injection Hb as <-. destruct (Z.eqb_spec (p_Bits o) 0) as [E0|E0]; split.
  - intros x Hx Hne. apply elem_of_cons in Hx as [->|Hx]; [done|auto].
  - intros b Hb. destruct (IH2 b Hb) as (x & ? & ? & ? & ?). exists x. split; [by right|done].
  - intros x Hx Hne. apply elem_of_cons in Hx as [->|Hx]; [by left|right; auto].
  - intros b Hb. apply elem_of_cons in Hb as [->|Hb]; [exists o; by repeat split; [left|..]|].
    destruct (IH2 b Hb) as (x & ? & ? & ? & ?). exists x. split; [by right|done].
Qed.

Section Properties.
Context `{NetworkLaws}.

Lemma planWithPool_ok projects occupied pool r :
  planWithPool projects occupied pool = Ok r ->
  Is4 (p_Addr pool) = true /\ 0 <= p_Bits pool <= 24 /\ checkProjects None (SortFunc projects) = None /\
  exists blocked, blockOccupied occupied = Ok blocked /\
    r = assign pool (2 ^ (24 - p_Bits pool)) (SortFunc projects) ∅ 0 blocked.
Proof.
  unfold planWithPool, IsValid. destruct (_ || _) eqn:E; [done|]. btrue.
  destruct (checkProjects None (SortFunc projects)) eqn:Ec; [done|]. intros Hr.
  apply rbind_ok in Hr as (blocked & Hb & Hr). injection Hr as <-. split_and!; try done.
  exists blocked. split; [done|]. rewrite Z.shiftl_1_l, u32_small; [done|].
  pose proof (count_small pool ltac:(lia)). unfold two32. lia.
Qed.

Lemma plan_run projects occupied pool r :
  prefix_ok pool -> planWithPool projects occupied pool = Ok r ->
  exists blocked, blockOccupied occupied = Ok blocked /\ run_ok pool (SortFunc projects) ∅ 0 blocked r.
Proof.
  intros Hp Hr. destruct (planWithPool_ok _ _ _ _ Hr) as (H4 & Hb & _ & blocked & Hbl & ->).
  exists blocked. split; [done|]. apply assign_ok; try done; [|lia].
  pose proof (count_small pool Hb). lia.
Qed.

(** C33. The planned networks are isolated: every assigned subnet is a /24 whose
    addresses lie in the pool and in no occupied route (the default route apart),
    it contains its gateway, and two projects share neither an address nor a
    bridge name. *)
Theorem plan_isolated projects occupied pool r :
  prefix_ok pool -> Forall prefix_ok occupied -> planWithPool projects occupied pool = Ok r ->
  (forall a, a ∈ Assignments r -> p_Bits (a_Subnet a) = 24 /\ Contains (a_Subnet a) (a_Gateway a) = true /\
     forall x, Contains (a_Subnet a) x = true ->
       Contains pool x = true /\ forall o, o ∈ occupied -> p_Bits o <> 0 -> Contains o x = false) /\
  (forall i j a b, Assignments r !! i = Some a -> Assignments r !! j = Some b -> (i < j)%nat ->
     disjoint_prefixes (a_Subnet b) (a_Subnet a) /\ a_Bridge a <> a_Bridge b).
Proof.
  intros Hp Ho Hr. destruct (planWithPool_ok _ _ _ _ Hr) as (H4 & Hb & _).
  destruct (plan_run _ _ _ _ Hp Hr) as (blocked & Hbl & [Rs Rp _ _ _]).
  assert (Hsub : forall a, a ∈ Assignments r -> p_Bits (a_Subnet a) = 24 /\ BitLen (p_Addr (a_Subnet a)) = 32).
  { intros a Ha. destruct (Rs a Ha) as (j & Hj & -> & _).
    by destruct (subnetAt_value pool Hp H4 Hb j Hj) as (base & -> & _). }
  split.
  - intros a Ha. destruct (Rs a Ha) as (j & Hj & Ej & Hfree & -> & _). destruct (Hsub a Ha) as [Hs24 Hs32].
    split_and!; [done|rewrite Ej; by apply subnetAt_gateway|]. intros x Hx. split.
    + rewrite Ej in Hx. by apply (subnetAt_in_pool pool Hp H4 Hb j).
    + intros o Hin Hne. destruct (blockOccupied_spec _ _ Hbl) as [Hm _].
      rewrite Forall_forall in Ho. destruct (Ho o Hin) as [_ Hob]. rewrite <- (Masked_Contains o x Hob).
      rewrite overlapsAny_false in Hfree. destruct (Hfree _ (Hm o Hin Hne)) as [F1 F2].
      refine (nested_or_disjoint _ _ _ _ F1 F2 x Hx); [lia|]. unfold Masked. destruct (IsValid o); simpl; [|lia].
      by destruct (p_Addr o).
  - intros i j a b Ha Hb' Hlt. destruct (Rp i j a b Ha Hb' Hlt) as [Hov Hbr]. split; [|done].
    apply list_elem_of_lookup_2 in Ha, Hb'. destruct (Hsub a Ha), (Hsub b Hb').
    rewrite overlapsAny_false in Hov. destruct (Hov (a_Subnet a)) as [F1 F2]; [by left|].
    apply nested_or_disjoint; [lia|lia|done|done].
Qed.

(** The plan is complete: every project is assigned a network or reported
    exactly once; a project is refused for lack of space only when every /24 of
    the pool overlaps an occupied route or an assigned subnet, and for its bridge
    name only when another project has the same one. *)
Theorem plan_complete projects occupied pool r :
  prefix_ok pool -> planWithPool projects occupied pool = Ok r ->
  (a_ProjectID <$> Assignments r) ++ (f_ProjectID <$> Failures r) ≡ₚ (pr_ID <$> projects) /\
  (forall f, f ∈ Failures r ->
     match f_Err f with
     | ErrPoolExhausted => forall k, 0 <= k < 2 ^ (24 - p_Bits pool) ->
         overlapsAny (subnetAt pool k)
           ((Masked <$> filter (fun o => p_Bits o <> 0) occupied) ++ (a_Subnet <$> Assignments r)) = true
     | BridgeCollision owner => owner ∈ pr_ID <$> projects /\ BridgeName owner = BridgeName (f_ProjectID f)
     end).
Proof.
  intros Hp Hr. destruct (plan_run _ _ _ _ Hp Hr) as (blocked & Hbl & [_ _ Ra Re Rc]).
  destruct (blockOccupied_spec _ _ Hbl) as [_ Hm]. split; [by rewrite Ra, SortFunc_perm|].
  intros f Hf. destruct (f_Err f) as [owner|] eqn:Ef.
  - destruct (Rc f owner Hf Ef) as [E|[Hin E]]; [by rewrite lookup_empty in E|]. by rewrite SortFunc_perm in Hin.
  - intros k Hk. specialize (Re f Hf Ef k Hk). rewrite overlapsAny_app in *. apply orb_true_iff in Re as [Re|Re].
    + apply orb_true_iff. left. unfold overlapsAny in *. apply existsb_exists in Re as (b & Hb & Hc).
      apply existsb_exists. exists b. split; [|done]. apply list_elem_of_In in Hb. apply list_elem_of_In.
      destruct (Hm b Hb) as (o & Ho & -> & Hne & _). apply list_elem_of_fmap. exists o. split; [done|].
      by apply list_elem_of_filter.
    + by rewrite Re, orb_true_r.
Qed.

(** *** The order of the projects *)

Lemma checkProjects_distinct previous projects :
  checkProjects previous projects = None -> Sorted String.le (pr_ID <$> projects) ->
  (forall q, previous = Some q -> Forall (String.le q) (pr_ID <$> projects)) ->
  NoDup (pr_ID <$> projects) /\ forall q, previous = Some q -> q ∉ pr_ID <$> projects.
Proof.
  revert previous. induction projects as [|p projects IH]; intros previous Hc Hs Hle; simpl in *.
  { split; [apply NoDup_nil_2|]. intros q _. apply not_elem_of_nil. }
  destruct (_ || _) in Hc; [done|]. case_bool_decide as Hne; [done|].
  apply Sorted_StronglySorted in Hs; [|apply _]. apply StronglySorted_inv in Hs as [Hs Hall].
  destruct (IH (Some (pr_ID p)) Hc (StronglySorted_Sorted Hs)) as [Hnd Hout]; [by intros q [= <-]|].
  split; [by apply NoDup_cons_2; [apply Hout|]|].
  intros q Hq Hin. specialize (Hle q Hq). apply Forall_cons in Hle as [Hqp _].
  apply elem_of_cons in Hin as [->|Hin]; [done|]. rewrite Forall_forall in Hall.
  assert (E : q = pr_ID p) by (apply (anti_symm String.le); [done|by apply Hall]). by rewrite <- E in Hne.
Qed.

Lemma SortFunc_unique l1 l2 :
  l1 ≡ₚ l2 -> checkProjects None (SortFunc l1) = None -> SortFunc l1 = SortFunc l2.
Proof.
  intros Hp Hc. destruct (checkProjects_distinct None _ Hc (SortFunc_sorted l1)) as [Hnd _]; [done|].
  assert (Hperm : SortFunc l1 ≡ₚ SortFunc l2) by (by rewrite !SortFunc_perm).
  assert (Hss : forall l, StronglySorted (fun x y => String.le (pr_ID x) (pr_ID y)) (SortFunc l)).
  { intros l. pose proof (SortFunc_sorted l) as Hs. apply Sorted_StronglySorted in Hs; [|apply _].
    revert Hs. generalize (SortFunc l). clear. induction l as [|x l IH]; intros Hs; [constructor|].
    apply StronglySorted_inv in Hs as [Hs Hall]. constructor; [by apply IH|].
    exact (proj1 (Forall_fmap pr_ID _ l) Hall). }
  apply (StronglySorted_unique_strong (fun x y => String.le (pr_ID x) (pr_ID y))); [|apply Hss..|done].
  intros x y Hx Hy Hxy Hyx. rewrite <- Hperm in Hy. apply list_elem_of_lookup in Hx as [i Hi], Hy as [j Hj].
  assert (E : pr_ID x = pr_ID y) by (by apply (anti_symm String.le)).
  assert (i = j); [|congruence]. apply (NoDup_lookup _ i j (pr_ID x) Hnd).
  - by rewrite list_lookup_fmap, Hi.
  - rewrite list_lookup_fmap, Hj. simpl. by rewrite E.
Qed.

(** The plan is a function of the set of projects: listing the same projects
    in another order gives the same networks. *)
Theorem plan_order_independent projects projects' occupied pool r :
  projects ≡ₚ projects' -> planWithPool projects occupied pool = Ok r ->
  planWithPool projects' occupied pool = Ok r.
Proof.
  intros Hp Hr. destruct (planWithPool_ok _ _ _ _ Hr) as (_ & _ & Hc & _).
  unfold planWithPool in *. by rewrite <- (SortFunc_unique projects projects' Hp Hc).
Qed.

(** *** Bridge names *)

Lemma groups_length n k bits :
  (k <= n)%nat -> (5 * k <= length bits)%nat -> (k <= length (groups_of_five n bits))%nat.
Proof.
  revert k bits. induction n as [|n IH]; intros k bits Hk Hl; simpl; [lia|].
  destruct bits as [|b bits]; [simpl in *; lia|]. destruct k as [|k]; [lia|]. cbn [length].
  apply le_n_S, IH; [lia|]. rewrite length_drop. lia.
Qed.

Lemma string_of_list_length l : String.length (String.string_of_list_ascii l) = length l.
Proof. induction l; simpl; congruence. Qed.

(** A bridge name fills the fifteen bytes of an interface name. *)
Lemma bridge_name_length id : String.length (BridgeName id) = 15%nat.
Proof.
  unfold BridgeName. rewrite app_length_str, string_of_list_length, length_fmap, length_take.
  assert (Hb : (13 <= length (base32 (sha256 id)))%nat); [|rewrite Nat.min_l by done; done].
  destruct (sha256_bytes id) as [Hl _]. unfold base32. rewrite length_fmap.
  assert (Hbits : length (mjoin (byte_bits <$> sha256 id)) = 256%nat).
  { change 256%nat with (8 * 32)%nat. rewrite <- Hl. clear. induction (sha256 id) as [|b l IH]; [done|].
    change (length (byte_bits b ++ mjoin (byte_bits <$> l)) = (8 * S (length l))%nat).
    rewrite length_app, IH. unfold byte_bits. rewrite length_fmap, length_seq. lia. }
  apply groups_length; lia.
Qed.
End Properties.

(** *** Hosts of a subnet *)

Lemma HostAddress_value subnet host v :
  p_Addr subnet = V4 v -> p_Bits subnet = 24 -> 1 <= host <= 254 ->
  HostAddress subnet host = Ok (V4 (v / 256 * 256 + host)).
Proof.
  intros Hv Hb Hh. unfold HostAddress, IsValid, Masked, IsValid, host_bits. rewrite Hv, Hb. simpl.
  destruct (Z.ltb_spec host 1); [lia|]. destruct (Z.ltb_spec 254 host); [lia|]. simpl. do 2 f_equal.
  rewrite Z.shiftr_shiftl_l, Z.sub_diag, Z.shiftl_0_r by lia.
  rewrite Z.shiftl_mul_pow2, Z.shiftr_div_pow2 by lia. change (2 ^ 8) with 256.
  change 255 with (Z.ones 8). rewrite Z.land_ones by lia. rewrite Z.mod_small by lia.
  assert (Hland : Z.land (v / 256 * 256) host = 0); [|by rewrite Z.add_nocarry_lxor, Z.lxor_lor].
  apply Z.bits_inj'. intros n Hn. rewrite Z.land_spec, Z.bits_0.
  destruct (decide (n < 8)).
  - replace (v / 256 * 256) with (Z.shiftl (v / 256) 8) by (by rewrite Z.shiftl_mul_pow2 by lia).
    by rewrite Z.shiftl_spec_low by lia.
  - replace host with (host mod 2 ^ 8) by (apply Z.mod_small; lia). rewrite Z.mod_pow2_bits_high by lia. apply andb_false_r.
Qed.

Lemma Contains_v4 v bits a :
  0 <= bits <= 32 ->
  Contains (mkPrefix (V4 v) bits) (V4 a) = (a / 2 ^ (32 - bits) =? v / 2 ^ (32 - bits)).
Proof.
  intros Hb. apply eq_true_iff_eq. rewrite Contains_spec, Z.eqb_eq. unfold host_bits. simpl.
  rewrite !Z.shiftr_div_pow2 by lia. naive_solver lia.
Qed.

(** The address plan of a /24: hosts 1 to 254 are distinct addresses of the
    subnet and other hosts are refused, the remote VIP prefix exists and holds
    exactly the hosts 160 to 191, hence neither the gateway .1, nor a container
    lease (2 to 159), nor a network gateway (192 to 254). *)
Theorem host_ranges subnet v :
  p_Addr subnet = V4 v -> p_Bits subnet = 24 ->
  (exists vip, RemoteVIPPrefix subnet = Ok vip /\ forall host, 1 <= host <= 254 ->
     exists a, HostAddress subnet host = Ok a /\ Contains subnet a = true /\
       Contains vip a = (RemoteVIPFirstHost <=? host) && (host <=? RemoteVIPLastHost)) /\
  (forall host, host < 1 \/ 254 < host -> HostAddress subnet host = Err (InvalidHost subnet host)) /\
  (forall h1 h2 a, HostAddress subnet h1 = Ok a -> HostAddress subnet h2 = Ok a -> h1 = h2).
Proof.
  intros Hv Hb. destruct subnet as [av bits]. simpl in Hv, Hb. subst.
  set (subnet := mkPrefix (V4 v) 24). set (n := v / 256).
  assert (Hhost : forall h, 1 <= h <= 254 -> HostAddress subnet h = Ok (V4 (n * 256 + h)))
    by (intros h Hh; by apply HostAddress_value).
  assert (Hbad : forall h, h < 1 \/ 254 < h -> HostAddress subnet h = Err (InvalidHost subnet h)).
  { intros h Hh. unfold HostAddress. simpl. destruct (Z.ltb_spec h 1), (Z.ltb_spec 254 h); try done; lia. }
  assert (Hdiv : forall h, (n * 256 + h) / 32 = n * 8 + h / 32).
  { intros h. replace (n * 256 + h) with (h + (n * 8) * 32) by ring. rewrite Z.div_add by lia. lia. }
  assert (Hvip : forall h, Contains (mkPrefix (V4 (n * 256 + 160)) 27) (V4 (n * 256 + h)) = (h / 32 =? 5)).
  { intros h. rewrite Contains_v4 by lia. change (2 ^ (32 - 27)) with 32. rewrite !Hdiv. change (160 / 32) with 5.
    apply eq_true_iff_eq. rewrite !Z.eqb_eq. lia. }
  split_and!; [|done|].
  - exists (Masked (mkPrefix (V4 (n * 256 + 160)) 27)). split.
    { unfold RemoteVIPPrefix, RemoteVIPFirstHost, RemoteVIPLastHost. rewrite !Hhost by lia. simpl.
      unfold PrefixFrom. simpl. by rewrite !Hvip. }
    intros h Hh. exists (V4 (n * 256 + h)). split_and!; [by apply Hhost|..].
    + unfold subnet. rewrite Contains_v4 by lia. change (2 ^ (32 - 24)) with 256.
      rewrite Z.add_comm, Z.div_add, Z.div_small by lia. apply Z.eqb_refl.
    + rewrite Masked_Contains by (simpl; lia). rewrite Hvip. unfold RemoteVIPFirstHost, RemoteVIPLastHost.
      apply eq_true_iff_eq. rewrite andb_true_iff, !Z.leb_le, Z.eqb_eq. split; intros E.
      * pose proof (Z.div_mod h 32 ltac:(lia)). pose proof (Z.mod_pos_bound h 32 ltac:(lia)). lia.
      * symmetry. apply (Z.div_unique h 32 5 (h - 160)); lia.
  - intros h1 h2 a H1 H2.
    destruct (decide (1 <= h1 <= 254)); [|by rewrite Hbad in H1 by lia].
    destruct (decide (1 <= h2 <= 254)); [|by rewrite Hbad in H2 by lia].
    rewrite Hhost in H1, H2 by lia. rewrite <- H1 in H2. injection H2 as H2. lia.
Qed.

(** ** Runs *)

Definition demo_project_le : relation Project := fun x y => String.le (pr_ID x) (pr_ID y).
#[local] Instance demo_project_le_dec : RelDecision demo_project_le.
Proof. intros x y. unfold demo_project_le. apply _. Defined.
#[local] Instance demo_project_le_trans : Transitive demo_project_le.
Proof. intros x y z. unfold demo_project_le. by etrans. Qed.
#[local] Instance demo_project_le_total : Total demo_project_le.
Proof. intros x y. unfold demo_project_le. apply (total String.le). Qed.

Definition demo_library : NetworkLibrary := {|
  sha256 := fun s => replicate 32 (zlen s mod 256);
  SortFunc := merge_sort demo_project_le
|}.

Lemma demo_network_laws : @NetworkLaws demo_library.
Proof.
  split.
  - intros s. split; [apply length_replicate|]. apply Forall_replicate. apply Z.mod_pos_bound. lia.
  - intros l. apply merge_sort_Permutation.
  - intros l. pose proof (Sorted_merge_sort demo_project_le l) as Hs. revert Hs.
    change (SortFunc l) with (merge_sort demo_project_le l).
    generalize (merge_sort demo_project_le l). clear. induction 1 as [|x l' Hs IH Hx]; simpl; constructor; [done|].
    destruct Hx; simpl; by constructor.
Qed.

Definition demo_projects : list Project := [mkProject "zz" "z"; mkProject "a" "a"].
Definition demo_occupied : list Prefix := [mkPrefix (V4 (10 * 2 ^ 24 + 80 * 2 ^ 16)) 23].
Definition demo_plan : Result :=
  Eval vm_compute in
    match @Plan demo_library demo_projects demo_occupied with Ok r => r | Err _ => mkResult [] [] end.

Lemma demo_plan_ok : @Plan demo_library demo_projects demo_occupied = Ok demo_plan.
Proof. reflexivity. Qed.

Lemma plan_isolated_witness : exists a b, Assignments demo_plan = [a; b] /\
  disjoint_prefixes (a_Subnet b) (a_Subnet a).
Proof.
  do 2 eexists. split; [reflexivity|].
  refine (proj1 (proj2 (@plan_isolated demo_library demo_projects demo_occupied defaultPool demo_plan
    _ _ demo_plan_ok) 0 1 _ _ eq_refl eq_refl _)%nat).
  - split; [done|simpl; lia].
  - apply Forall_singleton. split; [done|simpl; lia].
  - lia.
Defined.

Lemma plan_complete_witness :
  (a_ProjectID <$> Assignments demo_plan) ++ (f_ProjectID <$> Failures demo_plan) ≡ₚ ["zz"; "a"].
Proof.
  apply (@plan_complete demo_library demo_network_laws demo_projects demo_occupied defaultPool demo_plan);
    [split; [done|simpl; lia]|exact demo_plan_ok].
Defined.

Lemma plan_order_independent_witness :
  @Plan demo_library (reverse demo_projects) demo_occupied = Ok demo_plan.
Proof.
  apply (@plan_order_independent demo_library demo_network_laws demo_projects);
    [symmetry; apply reverse_Permutation|exact demo_plan_ok].
Defined.

Lemma host_ranges_witness : exists a,
  HostAddress (mkPrefix (V4 173025792) 24) 200 = Ok a.
Proof.
  destruct (host_ranges (mkPrefix (V4 173025792) 24) 173025792 eq_refl eq_refl) as [(vip & _ & Hh) _].
  destruct (Hh 200 ltac:(lia)) as (a & Ha & _). exists a. exact Ha.
Defined.
