(* ===== verification/Resp.v ===== *)
(** * The Redis client: internal/managedredis/resp.go

    Commands are written as RESP arrays of bulk strings, replies are read through
    a [bufio.Reader] of 32 KiB with limits on depth, lengths and total size.  The
    reader is what the server will have sent when the stream ends, with the
    budget that is left; every read is a state transformer that keeps the
    position it reached, also when it fails. *)

From Stdlib Require Import Ascii.
From S2P Require Import Prelude.

Definition CR : ascii := "013".
Definition LF : ascii := "010".
Definition crlf : bytes := [CR; LF].

Definition maximumCommandBytes : Z := 2 ^ 20.
Definition maximumLineBytes : Z := 65536.
Definition maximumBulkBytes : Z := 2 ^ 20.
Definition maximumArrayElements : Z := 4096.
Definition maximumResponseBytes : Z := 2 * 2 ^ 20.
Definition maximumNestingDepth : nat := 8.
Definition readerSize : nat := Z.to_nat 32768.
Definition maximumErrorBytes : nat := 512.

(** ** Numbers: [strconv] *)

Definition digit_value (c : ascii) : option Z :=
  if is_digit c then Some (Z.of_N (N_of_ascii c) - 48) else None.
Fixpoint parse_digits (acc : Z) (s : bytes) : option Z :=
  match s with
  | [] => Some acc
  | c :: rest => match digit_value c with Some d => parse_digits (acc * 10 + d) rest | None => None end
  end.

(** [strconv.ParseInt] in base 10. *)
Definition ParseInt (s : bytes) (bitSize : Z) : option Z :=
  let '(negative, digits) :=
    match s with
    | c :: rest => if Ascii.eqb c "-" then (true, rest) else if Ascii.eqb c "+" then (false, rest) else (false, s)
    | [] => (false, [])
    end in
  match digits, parse_digits 0 digits with
  | _ :: _, Some n =>
      let v := if negative : bool then - n else n in
      if (- 2 ^ (bitSize - 1) <=? v) && (v <=? 2 ^ (bitSize - 1) - 1) then Some v else None
  | _, _ => None
  end.

(** [strconv.Itoa] of an int64. *)
Definition digit_char (d : Z) : ascii := ascii_of_N (Z.to_N (48 + d)).
Fixpoint digits (fuel : nat) (n : Z) : bytes :=
  match fuel with
  | O => []
  | S f => if n <? 10 then [digit_char n] else digits f (n / 10) ++ [digit_char (n mod 10)]
  end.
Definition Itoa (n : Z) : bytes := if n <? 0 then "-"%char :: digits 20 (- n) else digits 20 n.

(** ** Replies *)

Inductive response :=
| RString (t : bytes)
| RInteger (n : Z)
| RBulk (b : bytes)
| RArray (l : list response)
| RNull.

Inductive RespError :=
| TooDeep | ReadFailed | Oversized | UnsupportedPrefix (c : ascii) | LineTooLong | BadLineEnd
| BadLength | BadInteger | BadBulkEnd | CommandError (message : bytes).

(** ** The reader *)

Record Reader := mkReader { rest : bytes; budget : Z }.
Definition RM (A : Type) : Type := Reader -> result RespError A * Reader.
Definition ret {A} (a : A) : RM A := fun r => (Ok a, r).
Definition fail {A} (e : RespError) : RM A := fun r => (Err e, r).
Definition bind {A B} (m : RM A) (k : A -> RM B) : RM B :=
  fun r => match m r with (Ok a, r') => k a r' | (Err e, r') => (Err e, r') end.
#[local] Notation "'let!' x ':=' m 'in' k" := (bind m (fun x => k))
  (at level 10, x name, m at level 100, k at level 200).

Definition consumeBudget (amount : Z) : RM unit := fun r =>
  if (amount <? 0) || (budget r <? amount) then (Err Oversized, r)
  else (Ok tt, mkReader (rest r) (budget r - amount)).

Definition ReadByte : RM ascii := fun r =>
  match rest r with
  | [] => (Err ReadFailed, r)
  | c :: tl => (Ok c, mkReader tl (budget r))
  end.

(** [io.ReadFull]: what is there is consumed even when it is too short. *)
Definition ReadFull (n : Z) : RM bytes := fun r =>
  if n <=? blen (rest r)
  then (Ok (take (Z.to_nat n) (rest r)), mkReader (drop (Z.to_nat n) (rest r)) (budget r))
  else (Err ReadFailed, mkReader [] (budget r)).

(** The bytes up to and including the first line feed. *)
Fixpoint to_line_feed (s : bytes) : option bytes :=
  match s with
  | [] => None
  | c :: tl => if Ascii.eqb c LF then Some [c] else cons c <$> to_line_feed tl
  end.

Inductive Sliced := Line (line : bytes) | BufferFull | StreamEnds.
(** [bufio.Reader.ReadSlice]: without a line feed in a full buffer it gives the
    buffer up, at the end of the stream what is left. *)
Definition ReadSlice (r : Reader) : Sliced * Reader :=
  match to_line_feed (take readerSize (rest r)) with
  | Some line => (Line line, mkReader (drop (length line) (rest r)) (budget r))
  | None => (if (readerSize <=? length (rest r))%nat then BufferFull else StreamEnds,
             mkReader (drop readerSize (rest r)) (budget r))
  end.

Definition readLine : RM bytes := fun r =>
  match ReadSlice r with
  | (Line line, r') =>
      if maximumLineBytes <? blen line then (Err LineTooLong, r')
      else bind (consumeBudget (blen line)) (fun _ =>
             if (blen line <? 2) || bool_decide (line !! (length line - 2)%nat <> Some CR)
             then fail BadLineEnd else ret (take (length line - 2) line)) r'
  | (BufferFull, r') => (Err LineTooLong, r')
  | (StreamEnds, r') => (Err ReadFailed, r')
  end.

Definition parseLength (value : bytes) (maximum : Z) : result RespError Z :=
  match ParseInt value 32 with
  | Some parsed => if (parsed <? -1) || (maximum <? parsed) then Err BadLength else Ok parsed
  | None => Err BadLength
  end.
Definition parseDecimal (value : bytes) : result RespError Z :=
  match ParseInt value 64 with Some parsed => Ok parsed | None => Err BadInteger end.
Definition lift {A} (m : result RespError A) : RM A := fun r => (m, r).

(** ** Error messages *)

(** [utf8.DecodeRune]: the code point and how many bytes it takes; 65533 with
    one byte for an invalid encoding. *)
Definition RuneError : Z := 65533.
Definition code (c : ascii) : Z := Z.of_N (N_of_ascii c).
Definition between (lo hi : Z) (c : ascii) : bool := (lo <=? code c) && (code c <=? hi).
Definition low6 (c : ascii) : Z := Z.land (code c) 63.
Definition second_range (c : ascii) : Z * Z :=
  if code c =? 224 then (160, 191) else if code c =? 237 then (128, 159)
  else if code c =? 240 then (144, 191) else if code c =? 244 then (128, 143) else (128, 191).
Definition DecodeRune (s : bytes) : Z * nat :=
  match s with
  | [] => (RuneError, 0%nat)
  | a :: tl =>
      if code a <? 128 then (code a, 1%nat)
      else
        let '(lo, hi) := second_range a in
        match tl with
        | b :: tl' =>
            if negb (between lo hi b) then (RuneError, 1%nat)
            else if between 194 223 a then (Z.lor (Z.shiftl (Z.land (code a) 31) 6) (low6 b), 2%nat)
            else match tl' with
                 | c :: tl'' =>
                     if negb (between 128 191 c) then (RuneError, 1%nat)
                     else if between 224 239 a
                     then (Z.lor (Z.shiftl (Z.land (code a) 15) 12) (Z.lor (Z.shiftl (low6 b) 6) (low6 c)), 3%nat)
                     else match tl'' with
                          | d :: _ =>
                              if negb (between 128 191 d) then (RuneError, 1%nat)
                              else if between 240 244 a
                              then (Z.lor (Z.shiftl (Z.land (code a) 7) 18)
                                      (Z.lor (Z.shiftl (low6 b) 12) (Z.lor (Z.shiftl (low6 c) 6) (low6 d))), 4%nat)
                              else (RuneError, 1%nat)
                          | [] => (RuneError, 1%nat)
                          end
                 | [] => (RuneError, 1%nat)
                 end
        | [] => (RuneError, 1%nat)
        end
  end.

Definition replacement : bytes := ["239"; "191"; "189"]%char.

(** [strings.Map] of the replacement function: valid runes that are kept stay as
    they are, everything else becomes U+FFFD. *)
Fixpoint sanitize_runes (fuel : nat) (s : bytes) : bytes :=
  match fuel, s with
  | S n, _ :: _ =>
      let '(rune, width) := DecodeRune s in
      (if (rune <? 32) || (rune =? 127) || ((rune =? RuneError) && (width =? 1)%nat)
       then replacement else take width s) ++ sanitize_runes n (drop width s)
  | _, _ => []
  end.
Definition sanitizeError (value : bytes) : bytes :=
  let value := take maximumErrorBytes value in sanitize_runes (length value) value.

(** ** Reading a reply *)

Fixpoint readMany (read : RM response) (n : nat) : RM (list response) :=
  match n with
  | O => ret []
  | S n => let! value := read in let! values := readMany read n in ret (value :: values)
  end.

Definition readBulk (length : Z) : RM response :=
  if length =? -1 then ret RNull
  else
    let! _ := consumeBudget (length + 2) in
    let! value := ReadFull (length + 2) in
    if bool_decide (value !! Z.to_nat length <> Some CR) || bool_decide (value !! Z.to_nat (length + 1) <> Some LF)
    then fail BadBulkEnd else ret (RBulk (take (Z.to_nat length) value)).

(** [levels] is how many nested replies may still follow: the depth check of the
    code is its ninth level. *)
Fixpoint readResponse (levels : nat) : RM response :=
  match levels with
  | O => fail TooDeep
  | S deeper =>
      let! prefix := ReadByte in
      let! _ := consumeBudget 1 in
      if negb (bool_decide (prefix ∈ text "+-:$*")) then fail (UnsupportedPrefix prefix)
      else
        let! line := readLine in
        if Ascii.eqb prefix "+" then ret (RString line)
        else if Ascii.eqb prefix "-" then fail (CommandError (sanitizeError line))
        else if Ascii.eqb prefix ":" then let! value := lift (parseDecimal line) in ret (RInteger value)
        else if Ascii.eqb prefix "$" then
          let! length := lift (parseLength line maximumBulkBytes) in readBulk length
        else
          let! length := lift (parseLength line maximumArrayElements) in
          if length =? -1 then ret RNull
          else let! values := readMany (readResponse deeper) (Z.to_nat length) in ret (RArray values)
  end.

(** ** Commands *)

Definition writeCommand (arguments : list bytes) : bytes :=
  ("*"%char :: Itoa (Z.of_nat (length arguments)) ++ crlf) ++
  mjoin ((fun argument => ("$"%char :: Itoa (blen argument) ++ crlf) ++ argument ++ crlf) <$> arguments).

(** The size loop of [command], which stops at the first argument too many. *)
Fixpoint commandSize (encodedSize : Z) (arguments : list bytes) : option Z :=
  match arguments with
  | [] => Some encodedSize
  | argument :: rest =>
      let encodedSize := encodedSize + (blen (Itoa (blen argument)) + blen argument + 5) in
      if maximumCommandBytes <? encodedSize then None else commandSize encodedSize rest
  end.

Inductive ClientError :=
| ContextDone (e : goerr) | InvalidCommand | CommandTooLarge | DeadlineFailed (e : goerr)
| WriteFailed (e : goerr) | ReadError (e : RespError) | Unexpected (what : bytes) | MalformedInfo.

(** The connection: what the server will have sent and what was written to it. *)
Record Conn := mkConn { incoming : bytes; outgoing : bytes }.
(** What can go wrong around one command; a failed write has written a part. *)
Record Faults := mkFaults {
  contextError : option goerr; contextErrorLocked : option goerr;
  deadlineError : option goerr; writeError : option (nat * goerr)
}.
Definition no_faults : Faults := mkFaults None None None None.

Definition command (faults : Faults) (arguments : list bytes) (c : Conn) : result ClientError response * Conn :=
  match contextError faults with
  | Some e => (Err (ContextDone e), c)
  | None =>
      if (Z.of_nat (length arguments) =? 0) || (maximumArrayElements <? Z.of_nat (length arguments))
      then (Err InvalidCommand, c)
      else match commandSize (blen (Itoa (Z.of_nat (length arguments))) + 3) arguments with
      | None => (Err CommandTooLarge, c)
      | Some _ =>
          match contextErrorLocked faults, deadlineError faults, writeError faults with
          | Some e, _, _ => (Err (ContextDone e), c)
          | None, Some e, _ => (Err (DeadlineFailed e), c)
          | None, None, Some (n, e) =>
              (Err (WriteFailed e), mkConn (incoming c) (outgoing c ++ take n (writeCommand arguments)))
          | None, None, None =>
              let '(value, r) := readResponse (S maximumNestingDepth) (mkReader (incoming c) maximumResponseBytes) in
              (match value with Ok v => Ok v | Err e => Err (ReadError e) end,
               mkConn (rest r) (outgoing c ++ writeCommand arguments))
          end
      end
  end.

Definition expectOK (faults : Faults) (expected : bytes) (arguments : list bytes) (c : Conn)
    : option ClientError * Conn :=
  let '(value, c) := command faults arguments c in
  (match value with
   | Err e => Some e
   | Ok (RString t) => if bool_decide (t = expected) then None else Some (Unexpected (default [] (head arguments)))
   | Ok _ => Some (Unexpected (default [] (head arguments)))
   end, c).

Definition Ping (faults : Faults) := expectOK faults (text "PONG") [text "PING"].
Definition Save (faults : Faults) := expectOK faults (text "OK") [text "SAVE"].
Definition BeginBackgroundSave (faults : Faults) :=
  expectOK faults (text "Background saving started") [text "BGSAVE"].
Definition authenticate (faults : Faults) (password : bytes) := expectOK faults (text "OK") [text "AUTH"; password].

Definition KillNormalClients (faults : Faults) (c : Conn) : option ClientError * Conn :=
  let '(value, c) := command faults (text <$> ["CLIENT"; "KILL"; "TYPE"; "normal"; "SKIPME"; "yes"]) c in
  (match value with
   | Err e => Some e
   | Ok (RInteger n) => if n <? 0 then Some (Unexpected (text "CLIENT KILL")) else None
   | Ok _ => Some (Unexpected (text "CLIENT KILL"))
   end, c).

(** ** INFO persistence *)

Record PersistenceStatus_ := mkPersistence {
  BackgroundSaveInProgress : bool; LastBackgroundSaveOK : bool; LastSuccessfulSaveUnixSeconds : Z
}.

(** [strings.Split] at carriage return and line feed. *)
Fixpoint split_crlf (s : bytes) : list bytes :=
  match s with
  | [] => [[]]
  | c :: tl =>
      match tl with
      | d :: tl' =>
          if Ascii.eqb c CR && Ascii.eqb d LF then [] :: split_crlf tl'
          else match split_crlf tl with l :: ls => (c :: l) :: ls | [] => [[c]] end
      | [] => [[c]]
      end
  end.

Fixpoint cut_colon (s : bytes) : option (bytes * bytes) :=
  match s with
  | [] => None
  | c :: tl => if Ascii.eqb c ":" then Some ([], tl)
               else match cut_colon tl with Some (k, v) => Some (c :: k, v) | None => None end
  end.

Fixpoint readFields (lines : list bytes) (fields : gmap (list ascii) bytes) : option (gmap (list ascii) bytes) :=
  match lines with
  | [] => Some fields
  | line :: more =>
      if bool_decide (line = []) || bool_decide (head line = Some "#"%char) then readFields more fields
      else match cut_colon line with
           | Some (k :: key, v :: value) => readFields more (<[k :: key := v :: value]> fields)
           | _ => None
           end
  end.

Definition parsePersistenceStatus (value : bytes) : result ClientError PersistenceStatus_ :=
  match readFields (split_crlf value) ∅ with
  | None => Err MalformedInfo
  | Some fields =>
      match fields !! text "rdb_bgsave_in_progress", fields !! text "rdb_last_bgsave_status",
            fields !! text "rdb_last_save_time" with
      | Some inProgress, Some lastStatus, Some lastSave =>
          match ParseInt lastSave 64 with
          | Some lastSaveUnix =>
              if (bool_decide (inProgress <> text "0") && bool_decide (inProgress <> text "1"))
                 || (bool_decide (lastStatus <> text "ok") && bool_decide (lastStatus <> text "err"))
                 || (lastSaveUnix <=? 0)
              then Err MalformedInfo
              else Ok (mkPersistence (bool_decide (inProgress = text "1")) (bool_decide (lastStatus = text "ok"))
                         lastSaveUnix)
          | None => Err MalformedInfo
          end
      | _, _, _ => Err MalformedInfo
      end
  end.

Definition PersistenceStatus (faults : Faults) (c : Conn) : result ClientError PersistenceStatus_ * Conn :=
  let '(value, c) := command faults [text "INFO"; text "persistence"] c in
  (match value with
   | Err e => Err e
   | Ok (RBulk b) => parsePersistenceStatus b
   | Ok _ => Err (Unexpected (text "INFO persistence"))
   end, c).

(** ** Numbers *)

Lemma digit_value_char d : 0 <= d < 10 -> digit_value (digit_char d) = Some d.
Proof.
  intros Hd. assert (Hc : d = 0 \/ d = 1 \/ d = 2 \/ d = 3 \/ d = 4 \/ d = 5 \/ d = 6 \/ d = 7 \/ d = 8 \/ d = 9) by lia.
  by repeat destruct Hc as [->|Hc]; [..|rewrite Hc].
Qed.

Lemma parse_digits_snoc acc s c v d :
  parse_digits acc s = Some v -> digit_value c = Some d -> parse_digits acc (s ++ [c]) = Some (v * 10 + d).
Proof.
  revert acc. induction s as [|x s IH]; intros acc Hs Hc; simpl in *.
  - injection Hs as ->. by rewrite Hc.
  - destruct (digit_value x); [by apply IH|done].
Qed.

Lemma digits_parse fuel n :
  0 <= n < 10 ^ Z.of_nat fuel -> (0 < fuel)%nat -> parse_digits 0 (digits fuel n) = Some n.
Proof.
  revert n. induction fuel as [|fuel IH]; intros n Hn Hf; [lia|]. simpl.
  destruct (Z.ltb_spec n 10) as [Hlt|Hge]; [simpl; by rewrite digit_value_char by lia|].
  rewrite Nat2Z.inj_succ, Z.pow_succ_r in Hn by lia.
  assert (Hq : 0 <= n / 10 < 10 ^ Z.of_nat fuel) by (split; [apply Z.div_pos|apply Z.div_lt_upper_bound]; lia).
  assert (Hf' : (0 < fuel)%nat) by (destruct fuel; [change (10 ^ Z.of_nat 0) with 1 in Hn; lia|lia]).
  pose proof (Z.mod_pos_bound n 10 ltac:(lia)).
  rewrite (parse_digits_snoc 0 _ _ (n / 10) (n mod 10)); [|by apply IH|by apply digit_value_char].
  f_equal. pose proof (Z.div_mod n 10 ltac:(lia)). lia.
Qed.

Definition digit_bytes (s : bytes) : Prop := Forall (fun c => is_digit c = true) s.

Lemma digits_are_digits fuel n : 0 <= n -> digit_bytes (digits fuel n).
Proof.
  assert (Hd : forall d, 0 <= d < 10 -> is_digit (digit_char d) = true).
  { intros d Hd. pose proof (digit_value_char d Hd) as E. unfold digit_value in E. by destruct (is_digit _). }
  revert n. induction fuel as [|fuel IH]; intros n Hn; simpl; [constructor|].
  destruct (Z.ltb_spec n 10); [repeat constructor; apply Hd; lia|].
  apply Forall_app. split; [apply IH, Z.div_pos; lia|]. repeat constructor. apply Hd, Z.mod_pos_bound. lia.
Qed.

Lemma digits_cons fuel n : exists c s, digits (S fuel) n = c :: s.
Proof.
  revert n. induction fuel as [|fuel IH]; intros n; cbn [digits].
  - destruct (n <? 10); simpl; eauto.
  - destruct (n <? 10); [eauto|]. destruct (IH (n / 10)) as (c & s & E). cbn [digits] in E. rewrite E. eauto.
Qed.

Lemma digit_not c x : is_digit c = true -> is_digit x = false -> Ascii.eqb c x = false.
Proof. intros Hc Hx. apply Ascii.eqb_neq. congruence. Qed.

Lemma ParseInt_Itoa n bits :
  - 10 ^ 20 < n < 10 ^ 20 -> - 2 ^ (bits - 1) <= n <= 2 ^ (bits - 1) - 1 -> ParseInt (Itoa n) bits = Some n.
Proof.
  intros Hn Hr. unfold ParseInt, Itoa.
  assert (Hin : (- 2 ^ (bits - 1) <=? n) && (n <=? 2 ^ (bits - 1) - 1) = true) by lia.
  destruct (Z.ltb_spec n 0) as [Hneg|Hpos].
  - simpl (Ascii.eqb _ _). cbv iota beta.
    destruct (digits_cons 19 (- n)) as (c & s & E). pose proof (digits_parse 20 (- n) ltac:(lia) ltac:(lia)) as Hp.
    rewrite E in *. rewrite Hp, Z.opp_involutive, Hin. done.
  - pose proof (digits_parse 20 n ltac:(lia) ltac:(lia)) as Hp. pose proof (digits_are_digits 20 n Hpos) as Hd.
    destruct (digits_cons 19 n) as (c & s & E). rewrite E in *. apply Forall_cons in Hd as [Hc _].
    rewrite !(digit_not c) by done. rewrite Hp, Hin. done.
Qed.

Lemma Itoa_no_LF n : LF ∉ Itoa n.
Proof.
  assert (Hd : forall s, digit_bytes s -> LF ∉ s).
  { intros s Hs Hin. unfold digit_bytes in Hs. rewrite Forall_forall in Hs. by specialize (Hs _ Hin). }
  unfold Itoa. destruct (Z.ltb_spec n 0).
  - rewrite not_elem_of_cons. split; [done|]. apply Hd, digits_are_digits. lia.
  - apply Hd, digits_are_digits. lia.
Qed.

Lemma digits_length fuel n : (length (digits fuel n) <= fuel)%nat.
Proof.
  revert n. induction fuel as [|fuel IH]; intros n; simpl; [lia|]. destruct (n <? 10); simpl; [lia|].
  rewrite length_app. specialize (IH (n / 10)). simpl. lia.
Qed.

Lemma Itoa_length n : (length (Itoa n) <= 21)%nat.
Proof. unfold Itoa. destruct (n <? 0); cbn [length]; pose proof (digits_length 20 n); pose proof (digits_length 20 (- n)); lia. Qed.

(** ** Lines *)

Lemma readerSize_value : Z.of_nat readerSize = 32768.
Proof. by apply Z2Nat.id. Qed.

Lemma to_line_feed_found l r : LF ∉ l -> to_line_feed (l ++ LF :: r) = Some (l ++ [LF]).
Proof.
  induction l as [|c l IH]; intros Hl; simpl; [done|]. apply not_elem_of_cons in Hl as [Hc Hl].
  destruct (Ascii.eqb_spec c LF) as [->|_]; [done|]. by rewrite IH.
Qed.

Lemma to_line_feed_inv s line :
  to_line_feed s = Some line -> exists l r, line = l ++ [LF] /\ LF ∉ l /\ s = line ++ r.
Proof.
  revert line. induction s as [|c s IH]; intros line; simpl; [done|].
  destruct (Ascii.eqb_spec c LF) as [->|Hc].
  - intros [= <-]. exists [], s. split_and!; [done|apply not_elem_of_nil|done].
  - destruct (to_line_feed s) as [line'|]; [|done]. intros [= <-].
    destruct (IH line' eq_refl) as (l & r & -> & Hl & ->). exists (c :: l), r.
    split_and!; [done|by apply not_elem_of_cons|done].
Qed.

Lemma readLine_found l r b :
  LF ∉ l -> (length l + 2 <= readerSize)%nat -> blen l + 2 <= b ->
  readLine (mkReader (l ++ crlf ++ r) b) = (Ok l, mkReader r (b - (blen l + 2))).
Proof.
  intros Hl Hlen Hb.
  assert (Hcr : LF ∉ l ++ [CR]) by (rewrite not_elem_of_app, not_elem_of_cons; split_and!; [done|done|apply not_elem_of_nil]).
  replace (l ++ crlf ++ r) with ((l ++ [CR]) ++ LF :: r) by (by rewrite <- app_assoc).
  unfold readLine, ReadSlice. cbn [rest budget].
  rewrite take_app_ge by (rewrite length_app; simpl; lia). rewrite length_app.
  destruct (readerSize - (length l + length [CR]))%nat as [|k] eqn:Ek; [simpl in Ek; lia|].
  rewrite firstn_cons, to_line_feed_found by done. cbn [budget].
  assert (Hline : length ((l ++ [CR]) ++ [LF]) = (length l + 2)%nat) by (rewrite !length_app; simpl; lia).
  assert (Hbl : blen ((l ++ [CR]) ++ [LF]) = blen l + 2) by (unfold blen; lia).
  rewrite Hline, Hbl.
  replace ((l ++ [CR]) ++ LF :: r) with (((l ++ [CR]) ++ [LF]) ++ r) by (by rewrite <- app_assoc).
  rewrite drop_app_length' by done.
  assert (Hmax : (maximumLineBytes <? blen l + 2) = false).
  { apply Z.ltb_ge. pose proof readerSize_value. unfold blen, maximumLineBytes. lia. }
  unfold bind, consumeBudget. rewrite Hmax. simpl budget.
  assert (H0 : 0 <= blen l) by (unfold blen; lia).
  destruct (Z.ltb_spec (blen l + 2) 0); [lia|]. destruct (Z.ltb_spec b (blen l + 2)); [lia|].
  destruct (Z.ltb_spec (blen l + 2) 2); [lia|]. simpl orb.
  replace (length l + 2 - 2)%nat with (length l) by lia.
  rewrite <- app_assoc. assert (Ecr : (l ++ [CR] ++ [LF]) !! length l = Some CR) by (by apply list_lookup_middle).
  rewrite bool_decide_eq_false_2 by (intros Hne; by apply Hne). unfold ret. by rewrite take_app_length.
Qed.

(** What a read did to the reader when it succeeded. *)
Definition advances (used : bytes) (r r' : Reader) : Prop :=
  rest r = used ++ rest r' /\ budget r' = budget r - blen used /\ 0 <= budget r'.

Lemma advances_trans u1 u2 r1 r2 r3 : advances u1 r1 r2 -> advances u2 r2 r3 -> advances (u1 ++ u2) r1 r3.
Proof.
  intros (E1 & B1 & _) (E2 & B2 & P2). unfold advances, blen in *.
  split_and!; [by rewrite E1, E2, app_assoc|rewrite length_app; lia|done].
Qed.

Lemma readLine_inv l r r' :
  readLine r = (Ok l, r') ->
  advances (l ++ crlf) r r' /\ LF ∉ l /\ (length l + 2 <= readerSize)%nat.
Proof.
  unfold readLine, ReadSlice. destruct (to_line_feed (take readerSize (rest r))) as [line|] eqn:E;
    [|by destruct (readerSize <=? length (rest r))%nat].
  destruct (maximumLineBytes <? blen line); [done|]. unfold bind, consumeBudget. cbn [budget rest].
  destruct (_ || _) eqn:Eb; [done|]. btrue. destruct (_ || _) eqn:El; [done|]. btrue.
  unfold ret. intros Hr. injection Hr as Hl <-.
  destruct (to_line_feed_inv _ _ E) as (l0 & tl & -> & Hl0 & Et).
  assert (Hlen : length (l0 ++ [LF]) = S (length l0)) by (rewrite length_app; simpl; lia).
  assert (Hc : (l0 ++ [LF]) !! (length (l0 ++ [LF]) - 2)%nat = Some CR) by (apply dec_stable; done).
  unfold blen in *. rewrite Hlen in *. replace (S (length l0) - 2)%nat with (length l0 - 1)%nat in * by lia.
  rewrite lookup_app_l in Hc by lia. rewrite take_app_le in Hl by lia.
  assert (Hl0' : l0 = l ++ [CR]).
  { rewrite <- Hl. rewrite <- (take_drop (length l0 - 1) l0) at 1. f_equal.
    rewrite (drop_S _ CR) by done. rewrite drop_ge by lia. done. }
  assert (Hsize : (length (l0 ++ [LF]) <= readerSize)%nat).
  { pose proof (length_take_le (rest r) readerSize) as Ht. apply (f_equal length) in Et.
    rewrite length_app, length_take in Et. lia. }
  subst l0. split_and!.
  - unfold advances, blen. cbn [rest budget]. split_and!.
    + rewrite <- Hlen. assert (Er : rest r = ((l ++ [CR]) ++ [LF]) ++ (tl ++ drop readerSize (rest r))).
      { rewrite <- (take_drop readerSize (rest r)) at 1. by rewrite Et, <- app_assoc. }
      rewrite Er at 2. rewrite drop_app_length, Er at 1. by rewrite <- (app_assoc l [CR] [LF]).
    + rewrite !length_app in *. simpl in *. lia.
    + rewrite !length_app in *. simpl in *. lia.
  - intros Hin. apply Hl0. apply elem_of_app. by left.
  - rewrite !length_app in *. simpl in *. lia.
Qed.

(** ** Replies on the wire *)

Fixpoint encode (v : response) : bytes :=
  match v with
  | RString t => ("+"%char :: t) ++ crlf
  | RInteger n => (":"%char :: Itoa n) ++ crlf
  | RBulk b => (("$"%char :: Itoa (blen b)) ++ crlf) ++ b ++ crlf
  | RArray l => (("*"%char :: Itoa (Z.of_nat (length l))) ++ crlf) ++ mjoin (encode <$> l)
  | RNull => ("$"%char :: text "-1") ++ crlf
  end.

(** The replies the client can represent: at most [levels] levels of nesting,
    lines that fit the reader's buffer, bounded bulk strings and arrays. *)
Fixpoint sendable (levels : nat) (v : response) : Prop :=
  match levels with
  | O => False
  | S deeper =>
      match v with
      | RString t => LF ∉ t /\ (length t + 2 <= readerSize)%nat
      | RInteger n => min_int64 <= n <= max_int64
      | RBulk b => blen b <= maximumBulkBytes
      | RArray l => Z.of_nat (length l) <= maximumArrayElements /\ Forall (sendable deeper) l
      | RNull => True
      end
  end.

(** [readResponse] on the first bytes of a reply. *)
Lemma readResponse_line deeper c l r b :
  c ∈ text "+-:$*" -> LF ∉ l -> (length l + 2 <= readerSize)%nat -> blen l + 3 <= b ->
  readResponse (S deeper) (mkReader ((c :: l) ++ crlf ++ r) b) =
  (if Ascii.eqb c "+" then ret (RString l)
   else if Ascii.eqb c "-" then fail (CommandError (sanitizeError l))
   else if Ascii.eqb c ":" then let! value := lift (parseDecimal l) in ret (RInteger value)
   else if Ascii.eqb c "$" then let! length := lift (parseLength l maximumBulkBytes) in readBulk length
   else let! length := lift (parseLength l maximumArrayElements) in
        if length =? -1 then ret RNull
        else let! values := readMany (readResponse deeper) (Z.to_nat length) in ret (RArray values))
    (mkReader r (b - (blen l + 3))).
Proof.
  intros Hc Hl Hs Hb. cbn [readResponse]. unfold bind at 1, ReadByte. cbn [rest budget app].
  unfold bind at 1, consumeBudget. cbn [rest budget]. assert (0 <= blen l) by (unfold blen; lia).
  destruct (Z.ltb_spec 1 0); [lia|]. destruct (Z.ltb_spec b 1); [lia|]. cbn [orb].
  rewrite bool_decide_eq_true_2 by done. cbn [negb]. unfold bind at 1. rewrite readLine_found by (done || lia).
  replace (b - 1 - (blen l + 2)) with (b - (blen l + 3)) by lia. done.
Qed.

Lemma parseLength_Itoa n maximum :
  0 <= n <= maximum -> maximum < 2 ^ 31 -> parseLength (Itoa n) maximum = Ok n.
Proof.
  intros Hn Hm. unfold parseLength. rewrite ParseInt_Itoa by (change (2 ^ (32 - 1)) with (2 ^ 31); lia).
  destruct (Z.ltb_spec n (-1)); [lia|]. by destruct (Z.ltb_spec maximum n); [lia|].
Qed.

Lemma readBulk_found v r b :
  blen v + 2 <= b ->
  readBulk (blen v) (mkReader (v ++ crlf ++ r) b) = (Ok (RBulk v), mkReader r (b - (blen v + 2))).
Proof.
  intros Hb. assert (Hv : 0 <= blen v) by (unfold blen; lia). unfold readBulk.
  destruct (Z.eqb_spec (blen v) (-1)); [lia|]. unfold bind at 1, consumeBudget. cbn [rest budget].
  destruct (Z.ltb_spec (blen v + 2) 0); [lia|]. destruct (Z.ltb_spec b (blen v + 2)); [lia|]. cbn [orb].
  unfold bind, ReadFull. cbn [rest budget].
  assert (Hlen : length (v ++ crlf) = Z.to_nat (blen v + 2)) by (rewrite length_app; unfold blen; simpl; lia).
  rewrite app_assoc. destruct (Z.leb_spec (blen v + 2) (blen ((v ++ crlf) ++ r))) as [_|Hn];
    [|unfold blen in *; rewrite !length_app in Hn; simpl in *; lia].
  rewrite take_app_length', drop_app_length' by done.
  assert (E1 : (v ++ crlf) !! Z.to_nat (blen v) = Some CR)
    by (rewrite lookup_app_r by (unfold blen; lia); by replace (Z.to_nat (blen v) - length v)%nat with 0%nat by (unfold blen; lia)).
  assert (E2 : (v ++ crlf) !! Z.to_nat (blen v + 1) = Some LF)
    by (rewrite lookup_app_r by (unfold blen; lia); by replace (Z.to_nat (blen v + 1) - length v)%nat with 1%nat by (unfold blen; lia)).
  rewrite bool_decide_eq_false_2 by (intros Hne; by apply Hne). rewrite bool_decide_eq_false_2 by (intros Hne; by apply Hne).
  cbn [orb]. unfold ret. rewrite take_app_length' by (unfold blen; lia). done.
Qed.

Lemma Itoa_line n : LF ∉ Itoa n /\ (length (Itoa n) + 2 <= readerSize)%nat.
Proof. split; [apply Itoa_no_LF|]. pose proof (Itoa_length n). pose proof readerSize_value. lia. Qed.

Lemma readMany_found (read : RM response) l r b :
  (forall v r b, v ∈ l -> blen (encode v) <= b ->
     read (mkReader (encode v ++ r) b) = (Ok v, mkReader r (b - blen (encode v)))) ->
  blen (mjoin (encode <$> l)) <= b ->
  readMany read (length l) (mkReader (mjoin (encode <$> l) ++ r) b) =
  (Ok l, mkReader r (b - blen (mjoin (encode <$> l)))).
Proof.
  revert b. induction l as [|v l IH]; intros b Hread Hb.
  { cbn. unfold ret. do 2 f_equal. unfold blen. simpl. lia. }
  change (mjoin (encode <$> v :: l)) with (encode v ++ mjoin (encode <$> l)) in *.
  assert (Hlen : blen (encode v ++ mjoin (encode <$> l)) = blen (encode v) + blen (mjoin (encode <$> l)))
    by (unfold blen; rewrite length_app; lia).
  rewrite Hlen in *. assert (0 <= blen (mjoin (encode <$> l))) by (unfold blen; lia).
  cbn [readMany length]. unfold bind at 1. rewrite <- app_assoc, Hread by (by left || lia).
  unfold bind. rewrite IH; [|intros; apply Hread; [by right|done]|lia]. unfold ret. do 2 f_equal. lia.
Qed.

Lemma read_encoded levels v r b :
  sendable levels v -> blen (encode v) <= b ->
  readResponse levels (mkReader (encode v ++ r) b) = (Ok v, mkReader r (b - blen (encode v))).
Proof.
  revert v r b. induction levels as [|deeper IH]; intros v r b Hv Hb; [done|].
  assert (Hn : forall n, blen (Itoa n) = Z.of_nat (length (Itoa n))) by done.
  assert (Happ : forall x y : bytes, blen (x ++ y) = blen x + blen y) by (intros; unfold blen; rewrite length_app; lia).
  assert (Hcons : forall c (x : bytes), blen (c :: x) = blen x + 1) by (intros; unfold blen; simpl; lia).
  assert (Hnn : forall x : bytes, 0 <= blen x) by (intros; unfold blen; lia).
  assert (Hcr : blen crlf = 2) by done.
  destruct v as [t|n|v|l|]; cbn [encode sendable] in *; rewrite ?Happ, ?Hcons, ?Hcr in Hb |- *.
  - destruct Hv as [Hl Hs]. rewrite <- app_assoc, readResponse_line; [|set_solver|done|done|lia].
    unfold ret. simpl. do 2 f_equal. lia.
  - destruct (Itoa_line n). unfold min_int64, max_int64 in Hv.
    rewrite <- app_assoc, readResponse_line; [|set_solver|done|done|lia].
    simpl. unfold bind, lift, parseDecimal. rewrite ParseInt_Itoa by (change (64 - 1) with 63; lia).
    unfold ret. do 2 f_equal. lia.
  - destruct (Itoa_line (blen v)). pose proof (Hnn v). pose proof (Hnn (Itoa (blen v))).
    rewrite <- !app_assoc, readResponse_line; [|set_solver|done|done|lia].
    cbn -[app bind readBulk]. unfold bind, lift. rewrite parseLength_Itoa by (unfold maximumBulkBytes in *; lia).
    rewrite readBulk_found by lia. do 2 f_equal. lia.
  - destruct Hv as [Hlen Hall]. destruct (Itoa_line (Z.of_nat (length l))).
    pose proof (Hnn (mjoin (encode <$> l))). pose proof (Hnn (Itoa (Z.of_nat (length l)))).
    rewrite <- !app_assoc, readResponse_line; [|set_solver|done|done|lia].
    cbn -[app bind readMany readResponse]. unfold bind at 1, lift.
    rewrite parseLength_Itoa by (unfold maximumArrayElements in *; lia).
    destruct (Z.eqb_spec (Z.of_nat (length l)) (-1)); [lia|]. rewrite Nat2Z.id. unfold bind.
    rewrite readMany_found; [|intros v r' b' Hin Hb'; rewrite Forall_forall in Hall; by apply IH; [apply Hall|]|lia].
    unfold ret. do 2 f_equal. lia.
  - rewrite <- app_assoc, readResponse_line; [| set_solver | | |].
    + done.
    + apply (bool_decide_unpack _). done.
    + pose proof readerSize_value. simpl. lia.
    + lia.
Qed.

(** ** Whatever the server sends *)

Lemma bind_ok {A B} (m : RM A) (k : A -> RM B) r b r' :
  bind m k r = (Ok b, r') -> exists a r1, m r = (Ok a, r1) /\ k a r1 = (Ok b, r').
Proof. unfold bind. destruct (m r) as [[a|e] r1]; [eauto|done]. Qed.

Lemma consumeBudget_inv n r u r' :
  consumeBudget n r = (Ok u, r') -> rest r' = rest r /\ budget r' = budget r - n /\ 0 <= budget r' /\ 0 <= n.
Proof.
  unfold consumeBudget. destruct (_ || _) eqn:E; [done|]. btrue. intros Hr. injection Hr as _ <-. simpl. split_and!; done || lia.
Qed.

Lemma ReadByte_inv r c r' : ReadByte r = (Ok c, r') -> rest r = c :: rest r' /\ budget r' = budget r.
Proof. unfold ReadByte. destruct (rest r) as [|x tl] eqn:E; [done|]. intros Hr. injection Hr as -> <-. done. Qed.

Lemma ParseInt_range s bits v :
  ParseInt s bits = Some v -> - 2 ^ (bits - 1) <= v <= 2 ^ (bits - 1) - 1.
Proof. unfold ParseInt. intros Hp. repeat case_match; try done; simplify_eq; btrue; lia. Qed.

Lemma parseLength_range s maximum n : parseLength s maximum = Ok n -> -1 <= n <= maximum.
Proof.
  unfold parseLength. destruct (ParseInt s 32); [|done]. destruct (_ || _) eqn:E; [done|]. btrue. intros Hn.
  injection Hn as <-. lia.
Qed.

Lemma readBulk_inv n r v r' :
  readBulk n r = (Ok v, r') -> 0 <= budget r -> -1 <= n ->
  exists used, advances used r r' /\ (v = RNull \/ exists b, v = RBulk b /\ blen b = n).
Proof.
  unfold readBulk. destruct (Z.eqb_spec n (-1)) as [->|Hne].
  { intros Hr Hb _. injection Hr as <- <-. exists []. split; [|by left]. unfold advances, blen. simpl. split_and!; [done|lia|lia]. }
  intros Hr Hb Hn. apply bind_ok in Hr as (u & r1 & H1 & Hr). apply consumeBudget_inv in H1 as (E1 & B1 & P1 & _).
  apply bind_ok in Hr as (value & r2 & H2 & Hr). unfold ReadFull in H2.
  destruct (Z.leb_spec (n + 2) (blen (rest r1))) as [Hle|]; [|done]. injection H2 as <- <-.
  destruct (_ || _) in Hr; [done|]. injection Hr as <- <-. exists (take (Z.to_nat (n + 2)) (rest r1)). split.
  - unfold advances, blen in *. cbn [rest budget]. rewrite take_drop, length_take. split_and!; [done|lia|lia].
  - right. eexists. split; [done|]. unfold blen in *. rewrite !length_take. lia.
Qed.

Lemma readMany_inv (read : RM response) (P : response -> Prop) n r l r' :
  (forall r v r', read r = (Ok v, r') -> 0 <= budget r -> exists used, advances used r r' /\ P v) ->
  readMany read n r = (Ok l, r') -> 0 <= budget r ->
  exists used, advances used r r' /\ length l = n /\ Forall P l.
Proof.
  intros Hread. revert r l. induction n as [|n IH]; intros r l Hr Hb; simpl in Hr.
  - injection Hr as <- <-. exists []. unfold advances, blen. simpl. split_and!; [done|lia|lia|done|constructor].
  - apply bind_ok in Hr as (v & r1 & H1 & Hr). apply bind_ok in Hr as (vs & r2 & H2 & Hr). injection Hr as <- <-.
    destruct (Hread r v r1 H1 Hb) as (u1 & A1 & Pv). pose proof A1 as (_ & _ & B1).
    destruct (IH r1 vs H2 B1) as (u2 & A2 & Hl & HP). exists (u1 ++ u2).
    split_and!; [by eapply advances_trans|simpl; lia|by constructor].
Qed.

Lemma read_sendable levels r v r' :
  readResponse levels r = (Ok v, r') -> 0 <= budget r -> exists used, advances used r r' /\ sendable levels v.
Proof.
  revert r v r'. induction levels as [|deeper IH]; intros r v r' Hr Hb; cbn [readResponse] in Hr; [done|].
  apply bind_ok in Hr as (c & r1 & H1 & Hr). apply ReadByte_inv in H1 as [E1 B1].
  apply bind_ok in Hr as (u & r2 & H2 & Hr). apply consumeBudget_inv in H2 as (E2 & B2 & P2 & _).
  destruct (negb _) in Hr; [done|]. apply bind_ok in Hr as (line & r3 & H3 & Hr).
  apply readLine_inv in H3 as (A3 & Hlf & Hsize). pose proof A3 as (_ & _ & P3).
  assert (A0 : advances [c] r r2) by (unfold advances, blen; rewrite E1, E2; simpl; split_and!; [done|lia|done]).
  pose proof (advances_trans _ _ _ _ _ A0 A3) as A. clear A0 A3.
  destruct (Ascii.eqb c "+"); [injection Hr as <- <-; eexists; split; [exact A|done]|].
  destruct (Ascii.eqb c "-"); [done|]. destruct (Ascii.eqb c ":").
  { apply bind_ok in Hr as (n & r4 & H4 & Hr). injection Hr as <- <-. unfold lift, parseDecimal in H4.
    destruct (ParseInt line 64) as [z|] eqn:Ez; [|done]. injection H4 as <- <-. eexists. split; [exact A|].
    apply ParseInt_range in Ez. exact Ez. }
  destruct (Ascii.eqb c "$"); apply bind_ok in Hr as (n & r4 & H4 & Hr); injection H4 as H4 <-;
    apply parseLength_range in H4.
  - destruct (readBulk_inv n r3 v r' Hr P3 ltac:(lia)) as (used & A4 & Hv). eexists.
    split; [by eapply advances_trans|]. destruct Hv as [->|(b & -> & Hlen)]; cbn [sendable]; [done|lia].
  - destruct (n =? -1); [injection Hr as <- <-; eexists; by split|].
    apply bind_ok in Hr as (l & r4 & H5 & Hr). injection Hr as <- <-.
    destruct (readMany_inv _ (sendable deeper) _ _ _ _ IH H5 P3) as (used & A4 & Hlen & HP). eexists.
    split; [by eapply advances_trans|]. simpl. split; [|done]. rewrite Hlen. unfold maximumArrayElements in *. lia.
Qed.

(** ** Commands *)

Lemma writeCommand_encode arguments : writeCommand arguments = encode (RArray (RBulk <$> arguments)).
Proof.
  unfold writeCommand. cbn [encode]. rewrite length_fmap. f_equal. f_equal. by rewrite <- list_fmap_compose.
Qed.

Lemma commandSize_spec size arguments :
  commandSize size arguments =
  (let total := size + blen (mjoin ((fun a => ("$"%char :: Itoa (blen a) ++ crlf) ++ a ++ crlf) <$> arguments)) in
   if (maximumCommandBytes <? total) && negb (bool_decide (arguments = [])) then None else Some total).
Proof.
  revert size. induction arguments as [|a l IH]; intros size; cbn [commandSize].
  { rewrite andb_false_r. f_equal. unfold blen. simpl. lia. }
  rewrite IH. clear IH. set (tl := mjoin (_ <$> l)). rewrite fmap_cons.
  change (mjoin (?x :: ?y)) with (x ++ mjoin y). fold tl. cbv zeta. rewrite (bool_decide_eq_false_2 (a :: l = [])) by done.
  rewrite andb_true_r.
  assert (E : blen ((("$"%char :: Itoa (blen a) ++ crlf) ++ a ++ crlf) ++ tl) = blen (Itoa (blen a)) + blen a + 5 + blen tl).
  { unfold blen. rewrite !length_app. cbn [length]. rewrite !length_app. simpl. lia. }
  rewrite E. assert (Ht : 0 <= blen tl) by (unfold blen; lia).
  destruct (Z.ltb_spec maximumCommandBytes (size + (blen (Itoa (blen a)) + blen a + 5))) as [H1|H1].
  - destruct (Z.ltb_spec maximumCommandBytes (size + (blen (Itoa (blen a)) + blen a + 5 + blen tl))); [done|lia].
  - rewrite !Z.add_assoc. destruct (decide (l = [])) as [->|Hl].
    + rewrite (bool_decide_eq_true_2) by done. rewrite andb_false_r. change (blen tl) with 0 in *.
      by destruct (Z.ltb_spec maximumCommandBytes (size + blen (Itoa (blen a)) + blen a + 5 + 0)); [lia|].
    + rewrite (bool_decide_eq_false_2) by done. by rewrite andb_true_r.
Qed.

Lemma command_accepted arguments :
  arguments <> [] -> Z.of_nat (length arguments) <= maximumArrayElements ->
  blen (writeCommand arguments) <= maximumCommandBytes ->
  (Z.of_nat (length arguments) =? 0) || (maximumArrayElements <? Z.of_nat (length arguments)) = false /\
  is_Some (commandSize (blen (Itoa (Z.of_nat (length arguments))) + 3) arguments).
Proof.
  intros Hne Hlen Hsize. split.
  - destruct arguments; [done|]. apply orb_false_iff. cbn [length] in *.
    split; [apply Z.eqb_neq; lia|apply Z.ltb_ge; lia].
  - rewrite commandSize_spec. cbv zeta. set (tl := mjoin _) in *.
    replace (blen (Itoa (Z.of_nat (length arguments))) + 3 + blen tl) with (blen (writeCommand arguments)).
    + destruct (Z.ltb_spec maximumCommandBytes (blen (writeCommand arguments))); [lia|eauto].
    + unfold writeCommand. fold tl. unfold blen. rewrite !length_app. cbn [length]. rewrite length_app. simpl. lia.
Qed.

(** What [command] accepts has at most a mebibyte on the wire. *)
Lemma command_size arguments n :
  arguments <> [] -> commandSize (blen (Itoa (Z.of_nat (length arguments))) + 3) arguments = Some n ->
  n = blen (writeCommand arguments) /\ n <= maximumCommandBytes.
Proof.
  intros Hne. rewrite commandSize_spec. cbv zeta. rewrite (bool_decide_eq_false_2 (arguments = [])) by done.
  rewrite andb_true_r. destruct (Z.ltb_spec maximumCommandBytes (blen (Itoa (Z.of_nat (length arguments))) + 3 +
    blen (mjoin ((fun a => ("$"%char :: Itoa (blen a) ++ crlf) ++ a ++ crlf) <$> arguments)))) as [?|Hle]; [done|].
  intros [= <-]. split; [|done]. unfold writeCommand, blen. rewrite !length_app. cbn [length]. rewrite length_app. simpl. lia.
Qed.

(** ** Properties *)

(** C37. A command and its reply: a command within the limits is written whole,
    and when the server answers with a reply within the limits, whatever follows
    it on the stream, the client returns exactly that reply and leaves what
    follows for the next command. *)
Theorem command_reply arguments v more out :
  arguments <> [] -> Z.of_nat (length arguments) <= maximumArrayElements ->
  blen (writeCommand arguments) <= maximumCommandBytes ->
  sendable (S maximumNestingDepth) v -> blen (encode v) <= maximumResponseBytes ->
  command no_faults arguments (mkConn (encode v ++ more) out) =
  (Ok v, mkConn more (out ++ writeCommand arguments)).
Proof.
  intros Hne Hlen Hsize Hv Hb. destruct (command_accepted arguments Hne Hlen Hsize) as [E1 [n E2]].
  unfold command. cbn [contextError no_faults]. rewrite E1, E2. cbn [contextErrorLocked deadlineError writeError no_faults incoming outgoing].
  by rewrite read_encoded.
Qed.

(** C38. Whatever a server sends: a reply the client returns is within its limits
    (at most nine levels of nesting, arrays of 4096, bulk strings of a mebibyte,
    lines of the buffer's size, integers of 64 bits), was read from a prefix of
    the stream of at most two mebibytes, and answers a command that was written
    whole and has at most one mebibyte. *)
Theorem reply_bounded faults arguments c v c' :
  command faults arguments c = (Ok v, c') ->
  sendable (S maximumNestingDepth) v /\
  (exists used, incoming c = used ++ incoming c' /\ blen used <= maximumResponseBytes) /\
  outgoing c' = outgoing c ++ writeCommand arguments /\ blen (writeCommand arguments) <= maximumCommandBytes.
Proof.
  unfold command. destruct (contextError faults); [done|]. destruct (_ || _) eqn:El; [done|].
  destruct (commandSize _ arguments) as [n|] eqn:En; [|done].
  destruct (contextErrorLocked faults); [done|]. destruct (deadlineError faults); [done|].
  destruct (writeError faults) as [[? ?]|]; [done|].
  destruct (readResponse _ _) as [[v'|e] r] eqn:Er; [|done]. intros Hc. injection Hc as -> <-. cbn [incoming outgoing].
  apply read_sendable in Er as (used & (E & B & P) & Hs); [|by vm_compute]. cbn [rest budget] in *.
  apply orb_false_iff in El as [El _]. apply Z.eqb_neq in El.
  assert (Hne : arguments <> []) by (by intros ->). apply (command_size arguments n Hne) in En as [-> Hn].
  split_and!; [done| |done|done]. exists used. split; [done|]. lia.
Qed.

(** Commands cannot run into each other: whatever bytes the arguments hold,
    the bytes written determine the list of arguments and where the next command
    begins. *)
Theorem commands_unambiguous a b x y :
  Forall (fun s => blen s <= maximumBulkBytes) a -> Forall (fun s => blen s <= maximumBulkBytes) b ->
  Z.of_nat (length a) <= maximumArrayElements -> Z.of_nat (length b) <= maximumArrayElements ->
  writeCommand a ++ x = writeCommand b ++ y -> a = b /\ x = y.
Proof.
  assert (Hread : forall l z budget, Forall (fun s => blen s <= maximumBulkBytes) l ->
            Z.of_nat (length l) <= maximumArrayElements -> blen (writeCommand l) <= budget ->
            readResponse 2 (mkReader (writeCommand l ++ z) budget) =
            (Ok (RArray (RBulk <$> l)), mkReader z (budget - blen (writeCommand l)))).
  { intros l z budget Hall Hlen Hb. rewrite writeCommand_encode in *. apply read_encoded; [|done].
    cbn [sendable]. rewrite length_fmap. split; [done|]. by apply Forall_fmap. }
  intros Ha Hb Hla Hlb E.
  set (budget := Z.max (blen (writeCommand a)) (blen (writeCommand b))).
  pose proof (Hread a x budget Ha Hla ltac:(lia)) as R1. pose proof (Hread b y budget Hb Hlb ltac:(lia)) as R2.
  rewrite E, R2 in R1. injection R1 as R1 R3 _. split; [|done].
  symmetry. revert R1. clear. revert a. induction b as [|s b IH]; intros [|t a] R1; try done.
  injection R1 as -> R1. f_equal. by apply IH.
Qed.

Lemma to_line_feed_none s : LF ∉ s -> to_line_feed s = None.
Proof.
  induction s as [|c s IH]; intros Hs; simpl; [done|]. apply not_elem_of_cons in Hs as [Hc Hs].
  destruct (Ascii.eqb_spec c LF) as [->|_]; [done|]. by rewrite IH.
Qed.

(** The limit of 64 KiB on a line is never reached: the buffer of the reader is
    full after 32 KiB, and a longer line is refused, also when it is shorter than
    the limit the error message states. *)
Lemma long_line_refused l r b :
  LF ∉ l -> (readerSize <= length l)%nat ->
  exists r', readLine (mkReader (l ++ crlf ++ r) b) = (Err LineTooLong, r').
Proof.
  intros Hl Hs. unfold readLine, ReadSlice. cbn [rest budget]. rewrite take_app_le by done.
  rewrite to_line_feed_none by (intros Hin; apply Hl; by apply (subseteq_take readerSize l)).
  destruct (Nat.leb_spec readerSize (length (l ++ crlf ++ r))) as [_|Hn]; [eauto|].
  rewrite length_app in Hn. lia.
Qed.

(** ** Error messages *)

Definition printable_byte (c : ascii) : Prop := 32 <= code c /\ code c <> 127.

Lemma DecodeRune_bytes a tl rune width :
  DecodeRune (a :: tl) = (rune, width) ->
  (1 <= width)%nat /\
  (rune = RuneError /\ width = 1%nat \/ width = 1%nat /\ rune = code a \/
   Forall (fun c => 128 <= code c) (take width (a :: tl))).
Proof.
  assert (Hb : forall lo hi c, between lo hi c = true -> lo <= code c) by (intros lo hi c; unfold between; lia).
  assert (Hs : forall lo hi, second_range a = (lo, hi) -> 128 <= lo)
    by (intros lo hi; unfold second_range; repeat case_match; intros [= <- _]; lia).
  unfold DecodeRune. destruct (Z.ltb_spec (code a) 128) as [Ha|Ha]; [intros [= <- <-]; auto|].
  destruct (second_range a) as [lo hi] eqn:Er. specialize (Hs lo hi eq_refl).
  intros H. repeat case_match; injection H as <- <-; (split; [lia|]); try (by left); right; right; simpl;
    repeat match goal with E : negb (between _ _ _) = false |- _ => apply negb_false_iff, Hb in E end;
    repeat (constructor; [lia|]); constructor.
Qed.

Lemma sanitize_runes_printable fuel s : Forall printable_byte (sanitize_runes fuel s).
Proof.
  revert s. induction fuel as [|n IH]; intros s; [constructor|]. cbn [sanitize_runes]. destruct s as [|a tl]; [constructor|].
  destruct (DecodeRune (a :: tl)) as [rune width] eqn:E. apply Forall_app. split; [|apply IH].
  destruct (_ || _) eqn:Ec; [by repeat constructor|]. btrue.
  apply DecodeRune_bytes in E as [Hw [[-> ->]|[[-> ->]|Hall]]].
  - done.
  - rewrite firstn_cons, take_0. repeat constructor; lia.
  - eapply Forall_impl; [exact Hall|]. intros c Hc. cbv beta in Hc. unfold printable_byte. lia.
Qed.

(** The message of an error reply is safe to log: it has no control
    characters, whatever bytes the server put into the line. *)
Theorem error_message_printable deeper line more b e r' :
  LF ∉ line -> (length line + 2 <= readerSize)%nat -> blen line + 3 <= b ->
  readResponse (S deeper) (mkReader (("-"%char :: line) ++ crlf ++ more) b) = (Err e, r') ->
  exists message, e = CommandError message /\ Forall printable_byte message /\ rest r' = more.
Proof.
  intros Hl Hs Hb. rewrite readResponse_line; [|set_solver|done|done|done]. unfold fail. simpl.
  intros Hr. injection Hr as <- <-. eexists. split_and!; [done|apply sanitize_runes_printable|done].
Qed.

(** ** Witnesses *)

Definition demo_reply : response :=
  RArray [RString (text "OK"); RInteger (-7); RArray [RNull; RBulk (text "x" ++ crlf)]].

Lemma demo_reply_sendable : sendable (S maximumNestingDepth) demo_reply.
Proof.
  pose proof readerSize_value. unfold demo_reply, maximumNestingDepth. cbn [sendable].
  split; [by apply Z.leb_le|]. repeat (apply Forall_cons; split); try apply Forall_nil_2; cbn [sendable].
  - split; [by apply (bool_decide_unpack _)|simpl; lia].
  - unfold min_int64, max_int64. lia.
  - split; [by apply Z.leb_le|]. repeat (apply Forall_cons; split); try apply Forall_nil_2; cbn [sendable];
      [exact I|by apply Z.leb_le].
Qed.

Lemma command_reply_witness :
  command no_faults [text "INFO"] (mkConn (encode demo_reply ++ text "+PONG") []) =
  (Ok demo_reply, mkConn (text "+PONG") (writeCommand [text "INFO"])).
Proof.
  apply (command_reply [text "INFO"] demo_reply (text "+PONG") []);
    [done|done|done|exact demo_reply_sendable|done].
Defined.

Lemma reply_bounded_witness : sendable (S maximumNestingDepth) (RString (text "PONG")).
Proof.
  refine (proj1 (reply_bounded no_faults [text "PING"] (mkConn (text "+PONG" ++ crlf) []) (RString (text "PONG"))
    (mkConn [] (writeCommand [text "PING"])) _)).
  apply (command_reply [text "PING"] (RString (text "PONG")) [] []); [done|done|done| |done].
  split; [by apply (bool_decide_unpack _)|]. pose proof readerSize_value. simpl. lia.
Defined.

Lemma commands_unambiguous_witness : [text "GET"; crlf] = [text "GET"; crlf] /\ text "x" = text "x".
Proof.
  apply (commands_unambiguous [text "GET"; crlf] [text "GET"; crlf] (text "x") (text "x"));
    [repeat constructor; done|repeat constructor; done|done|done|reflexivity].
Defined.

Lemma error_message_printable_witness : exists message r',
  readResponse 9 (mkReader (("-"%char :: "007"%char :: text "ERR") ++ crlf ++ text "+OK") 100) =
    (Err (CommandError message), r') /\ Forall printable_byte message.
Proof.
  assert (Hlf : LF ∉ ("007"%char :: text "ERR")) by (by apply (bool_decide_unpack _)).
  assert (Hlen : (length ("007"%char :: text "ERR") + 2 <= readerSize)%nat) by (pose proof readerSize_value; simpl; lia).
  destruct (readResponse 9 (mkReader (("-"%char :: "007"%char :: text "ERR") ++ crlf ++ text "+OK") 100))
    as [[v|e] r'] eqn:E.
  - exfalso. rewrite (readResponse_line 8) in E; [done|set_solver|done|done|done].
  - destruct (error_message_printable 8 ("007"%char :: text "ERR") (text "+OK") 100 e r' Hlf Hlen ltac:(done) E)
      as (m & -> & Hp & _). exists m, r'. split; [reflexivity|exact Hp].
Defined.
