(* ===== verification/Base64.v ===== *)
(** * Base64: the unpadded encodings of encoding/base64

    [base64.RawURLEncoding], which API tokens and terminal tokens are written in.
    The decoder is the library's: it skips carriage returns and line feeds and
    does not look at the unused bits of the last letter, so that decoding is not
    injective; the encoder gives each byte string one text. *)

From Stdlib Require Import Ascii.
From S2P Require Import Prelude.

(** Six bits, most significant first. *)
Record sextet := mkSextet { x5 : bool; x4 : bool; x3 : bool; x2 : bool; x1 : bool; x0 : bool }.
#[global] Instance sextet_eq_dec : EqDecision sextet.
Proof. solve_decision. Defined.

Definition sextet_index (x : sextet) : nat :=
  let bit (b : bool) (w : nat) : nat := if b then w else O in
  (bit (x5 x) 32 + bit (x4 x) 16 + bit (x3 x) 8 + bit (x2 x) 4 + bit (x1 x) 2 + bit (x0 x) 1)%nat.
Definition bits : list bool := [false; true].
Definition all_sextets : list sextet :=
  b5 ← bits; b4 ← bits; b3 ← bits; b2 ← bits; b1 ← bits; b0 ← bits; [mkSextet b5 b4 b3 b2 b1 b0].

Definition alphabet : string := "ABCDEFGHIJKLMNOPQRSTUVWXYZabcdefghijklmnopqrstuvwxyz0123456789-_".
Definition letter (x : sextet) : ascii := default "A"%char (String.get (sextet_index x) alphabet).
Definition value_of (c : ascii) : option sextet :=
  List.find (fun x => Ascii.eqb (letter x) c) all_sextets.
Definition is_letter (c : ascii) : bool :=
  is_upper c || is_lower c || is_digit c || Ascii.eqb c "-" || Ascii.eqb c "_".

Fixpoint sextets (s : string) : list sextet :=
  match s with
  | EmptyString => []
  | String (Ascii a0 a1 a2 a3 a4 a5 a6 a7) EmptyString =>
      [mkSextet a7 a6 a5 a4 a3 a2; mkSextet a1 a0 false false false false]
  | String (Ascii a0 a1 a2 a3 a4 a5 a6 a7) (String (Ascii b0 b1 b2 b3 b4 b5 b6 b7) EmptyString) =>
      [mkSextet a7 a6 a5 a4 a3 a2; mkSextet a1 a0 b7 b6 b5 b4; mkSextet b3 b2 b1 b0 false false]
  | String (Ascii a0 a1 a2 a3 a4 a5 a6 a7) (String (Ascii b0 b1 b2 b3 b4 b5 b6 b7)
      (String (Ascii c0 c1 c2 c3 c4 c5 c6 c7) rest)) =>
      mkSextet a7 a6 a5 a4 a3 a2 :: mkSextet a1 a0 b7 b6 b5 b4 :: mkSextet b3 b2 b1 b0 c7 c6
        :: mkSextet c5 c4 c3 c2 c1 c0 :: sextets rest
  end.

(** A last group of one letter is corrupt. *)
Fixpoint octets (l : list sextet) : option string :=
  match l with
  | [] => Some ""
  | [_] => None
  | [a; b] => Some (String (Ascii (x4 b) (x5 b) (x0 a) (x1 a) (x2 a) (x3 a) (x4 a) (x5 a)) "")
  | [a; b; c] =>
      Some (String (Ascii (x4 b) (x5 b) (x0 a) (x1 a) (x2 a) (x3 a) (x4 a) (x5 a))
              (String (Ascii (x2 c) (x3 c) (x4 c) (x5 c) (x0 b) (x1 b) (x2 b) (x3 b)) ""))
  | a :: b :: c :: d :: rest =>
      r ← octets rest;
      Some (String (Ascii (x4 b) (x5 b) (x0 a) (x1 a) (x2 a) (x3 a) (x4 a) (x5 a))
              (String (Ascii (x2 c) (x3 c) (x4 c) (x5 c) (x0 b) (x1 b) (x2 b) (x3 b))
                 (String (Ascii (x0 d) (x1 d) (x2 d) (x3 d) (x4 d) (x5 d) (x0 c) (x1 c)) r)))
  end.

Definition string_of (l : list ascii) : string := foldr String EmptyString l.
Fixpoint chars (s : string) : list ascii :=
  match s with EmptyString => [] | String c s => c :: chars s end.
Definition line_break (c : ascii) : bool := Ascii.eqb c "010" || Ascii.eqb c "013".

Definition base64url_Encode (s : string) : string := string_of (letter <$> sextets s).
Definition base64url_Decode (s : string) : option string :=
  mapM value_of (List.filter (fun c => negb (line_break c)) (chars s)) ≫= octets.

(** ** Lemmas *)

Lemma all_sextets_complete x : In x all_sextets.
Proof. destruct x as [[] [] [] [] [] []]; vm_compute; tauto. Qed.
Lemma letter_facts x : value_of (letter x) = Some x /\ is_letter (letter x) = true /\ line_break (letter x) = false.
Proof. destruct x as [[] [] [] [] [] []]; by vm_compute. Qed.

Lemma chars_string_of l : chars (string_of l) = l.
Proof. induction l; simpl; congruence. Qed.
Lemma letters_kept l : List.filter (fun c => negb (line_break c)) (letter <$> l) = letter <$> l.
Proof.
  induction l as [|x l IH]; [done|]. rewrite fmap_cons. simpl List.filter.
  destruct (letter_facts x) as (_ & _ & ->). simpl. by rewrite IH.
Qed.
Lemma letters_valued l : mapM value_of (letter <$> l) = Some l.
Proof.
  induction l as [|x l IH]; [done|]. rewrite fmap_cons. simpl mapM.
  destruct (letter_facts x) as (-> & _). simpl. by rewrite IH.
Qed.

(** Strings three bytes at a time. *)
Lemma string3_ind (P : string -> Prop) :
  P "" -> (forall a, P (String a "")) -> (forall a b, P (String a (String b ""))) ->
  (forall a b c s, P s -> P (String a (String b (String c s)))) -> forall s, P s.
Proof.
  intros H0 H1 H2 H3.
  fix IH 1. intros [|a [|b [|c s]]]; [exact H0|apply H1|apply H2|apply H3, IH].
Qed.

Lemma octets_sextets s : octets (sextets s) = Some s.
Proof.
  induction s as [|[]|[] []|[] [] [] s IH] using string3_ind; [done..|]. cbn. by rewrite IH.
Qed.

Lemma base64_roundtrip s : base64url_Decode (base64url_Encode s) = Some s.
Proof.
  unfold base64url_Decode, base64url_Encode.
  rewrite chars_string_of, letters_kept, letters_valued. apply octets_sextets.
Qed.

Lemma base64_letters s : str_forall is_letter (base64url_Encode s) = true.
Proof.
  unfold base64url_Encode. induction (sextets s) as [|x l IH]; [done|]. rewrite fmap_cons.
  change (is_letter (letter x) && str_forall is_letter (string_of (letter <$> l)) = true).
  destruct (letter_facts x) as (_ & -> & _). done.
Qed.

Lemma string_of_length l : String.length (string_of l) = length l.
Proof. induction l; simpl; congruence. Qed.

(** Four letters for three bytes, rounded up. *)
Lemma sextets_length s :
  (4 * String.length s <= 3 * length (sextets s) <= 4 * String.length s + 2)%nat.
Proof. induction s as [|[]|[] []|[] [] [] s IH] using string3_ind; simpl in *; lia. Qed.
Lemma base64_length s : 4 * zlen s <= 3 * zlen (base64url_Encode s) <= 4 * zlen s + 2.
Proof.
  unfold zlen, base64url_Encode. rewrite string_of_length, length_fmap.
  pose proof (sextets_length s). lia.
Qed.

#[export] Hint Rewrite base64_roundtrip base64_letters : go.
