(* ===== verification/ReleaseManifest.v ===== *)
(** * Release manifests: internal/releasemanifest/manifest.go

    A release is described by a signed JSON manifest in one canonical form.  The
    JSON decoder, [url.Parse], [strconv.Quote], the hash and the
    signature scheme are the class [ManifestLibrary]; [ManifestLaws] says what
    the signing tool and the daemon rely on together. *)

From stdpp Require Import pretty.
From Stdlib Require Import Ascii.
From S2P Require Import Prelude Semver Base64.

Definition FormatVersion : Z := 1.
Definition maximumManifestSize : Z := 65536.
Definition maximumBinarySize : Z := 2 ^ 30.
Definition maximumSupported : Z := 256.
Definition PublicKeySize : Z := 32.
Definition PrivateKeySize : Z := 64.
Definition SignatureSize : Z := 64.

Record Manifest := mkManifest {
  Architecture : string; BinarySHA256 : string; BinarySize : Z; BinaryURL : string; Format : Z;
  OS : string; SupportedFrom : list string; Version_ : string; Signature : string
}.
Definition set_signature (s : string) (m : Manifest) : Manifest :=
  mkManifest (Architecture m) (BinarySHA256 m) (BinarySize m) (BinaryURL m) (Format m) (OS m)
    (SupportedFrom m) (Version_ m) s.

Record URL := mkURL { Scheme : string; Host : string; has_User : bool; Fragment : string }.

Class ManifestLibrary := {
  (** The token loop of [rejectDuplicateTopLevelKeys] accepts the text. *)
  json_distinct_keys : string -> bool;
  (** [Decode] with unknown fields disallowed, and whether the input ends there. *)
  json_Decode : string -> option Manifest;
  json_ends : string -> bool;
  url_Parse : string -> option URL;
  strconv_Quote : string -> string;
  hex_Decode_ok : string -> bool;
  sha256_hex : string -> string;
  ed25519_Sign : string -> string -> string;
  ed25519_Verify : string -> string -> string -> bool
}.

Section Manifest.
Context `{ManifestLibrary}.

Definition canonicalHead (m : Manifest) : string :=
  "{" +:+ chr 34 +:+ "architecture" +:+ chr 34 +:+ ":" +:+ strconv_Quote (Architecture m)
  +:+ "," +:+ chr 34 +:+ "binarySha256" +:+ chr 34 +:+ ":" +:+ strconv_Quote (BinarySHA256 m)
  +:+ "," +:+ chr 34 +:+ "binarySize" +:+ chr 34 +:+ ":" +:+ pretty (BinarySize m)
  +:+ "," +:+ chr 34 +:+ "binaryUrl" +:+ chr 34 +:+ ":" +:+ strconv_Quote (BinaryURL m)
  +:+ "," +:+ chr 34 +:+ "formatVersion" +:+ chr 34 +:+ ":" +:+ pretty (Format m)
  +:+ "," +:+ chr 34 +:+ "os" +:+ chr 34 +:+ ":" +:+ strconv_Quote (OS m).
Definition canonicalTail (m : Manifest) : string :=
  "," +:+ chr 34 +:+ "supportedFrom" +:+ chr 34 +:+ ":[" +:+ join "," (strconv_Quote <$> SupportedFrom m)
  +:+ "]," +:+ chr 34 +:+ "version" +:+ chr 34 +:+ ":" +:+ strconv_Quote (Version_ m) +:+ "}".
Definition canonicalUnsigned (m : Manifest) : string := canonicalHead m +:+ canonicalTail m.
Definition canonicalSigned (m : Manifest) : string :=
  canonicalHead m +:+ "," +:+ chr 34 +:+ "signature" +:+ chr 34 +:+ ":" +:+ strconv_Quote (Signature m)
  +:+ canonicalTail m.

(** [strings.ToLower] leaves a string alone exactly if it has no upper case
    letter; with hexadecimal digits only ASCII letters count. *)
Definition validSHA256 (value : string) : bool :=
  (zlen value =? 64) && str_forall (fun c => negb (is_upper c)) value && hex_Decode_ok value.

(** A rune outside the range is a byte outside it: printable ASCII is one byte. *)
Definition printableASCII (value : string) : bool := str_forall (in_range 32 126) value.

Fixpoint checkSupported (previous : option Version) (values : list string) : option goerr :=
  match values with
  | [] => None
  | value :: rest =>
      match Parse value with
      | Err e => Some (Wrap "release supportedFrom" e)
      | Ok parsed =>
          if match previous with Some p => 0 <=? Compare p parsed | None => false end
          then Some (Msg "release supportedFrom must be strictly SemVer-sorted")
          else checkSupported (Some parsed) rest
      end
  end.

Definition Validate (m : Manifest) : option goerr :=
  if negb (Format m =? FormatVersion) || bool_decide (OS m <> "linux") || bool_decide (Architecture m <> "amd64")
  then Some (Msg "release manifest target or format is unsupported")
  else if (BinarySize m <=? 0) || (maximumBinarySize <? BinarySize m)
  then Some (Msg "release binary size is outside bounds")
  else if negb (validSHA256 (BinarySHA256 m)) then Some (Msg "release binary SHA-256 is invalid")
  else if match url_Parse (BinaryURL m) with
          | None => true
          | Some u => bool_decide (Scheme u <> "https") || empty (Host u) || has_User u || negb (empty (Fragment u))
                      || (2048 <? zlen (BinaryURL m)) || negb (printableASCII (BinaryURL m))
          end
  then Some (Msg "release binary URL must be bounded HTTPS without userinfo or fragment")
  else match Parse (Version_ m) with
  | Err e => Some (Wrap "release version" e)
  | Ok _ =>
      if maximumSupported <? Z.of_nat (length (SupportedFrom m)) then Some (Msg "release supportedFrom exceeds limit")
      else match checkSupported None (SupportedFrom m) with
      | Some e => Some e
      | None => if empty (Signature m) || (128 <? zlen (Signature m))
                then Some (Msg "release manifest signature is missing or too large") else None
      end
  end.

Definition ParseAndVerify (value publicKey : string) : result goerr Manifest :=
  if (zlen value =? 0) || (maximumManifestSize <? zlen value)
  then Err (Msg "release manifest size is outside bounds")
  else if negb (zlen publicKey =? PublicKeySize) then Err (Msg "release public key is invalid")
  else if negb (json_distinct_keys value) then Err (Msg "release manifest object is malformed")
  else match json_Decode value with
  | None => Err (Msg "decode release manifest")
  | Some m =>
      if negb (json_ends value) then Err (Msg "release manifest contains trailing JSON")
      else match Validate m with
      | Some e => Err e
      | None =>
          if bool_decide (value <> canonicalSigned m) then Err (Msg "release manifest JSON is not canonical")
          else match base64url_Decode (Signature m) with
          | None => Err (Msg "release manifest signature is invalid")
          | Some signature =>
              if negb (zlen signature =? SignatureSize) then Err (Msg "release manifest signature is invalid")
              else if negb (ed25519_Verify publicKey (canonicalUnsigned m) signature)
              then Err (Msg "release manifest signature verification failed")
              else Ok m
          end
      end
  end.

Definition AllowsUpdateFrom (m : Manifest) (installed : string) : option goerr :=
  match Parse installed with
  | Err e => Some (Wrap "installed version" e)
  | Ok installedVersion =>
      match Parse (Version_ m) with
      | Err e => Some (Wrap "target version" e)
      | Ok targetVersion =>
          if Compare targetVersion installedVersion <=? 0
          then Some (Msg "release version is not strictly newer than installed version")
          else if bool_decide (installed ∈ SupportedFrom m) then None
          else Some (Msg "installed version is absent from release supportedFrom")
      end
  end.

(** [VerifyBinary] of a regular file with this content. *)
Definition VerifyBinary (m : Manifest) (content : string) : option goerr :=
  if negb (zlen content =? BinarySize m) then Some (Msg "release binary type or size mismatch")
  else if bool_decide (sha256_hex content <> BinarySHA256 m) then Some (Msg "release binary SHA-256 mismatch")
  else None.

Definition zero_signature : string := String.string_of_list_ascii (replicate 64 Ascii.zero).
Definition Sign (m : Manifest) (privateKey : string) : result goerr string :=
  if negb (zlen privateKey =? PrivateKeySize) then Err (Msg "release private key is invalid")
  else
    let m := set_signature (base64url_Encode zero_signature) m in
    match Validate m with
    | Some e => Err e
    | None => Ok (canonicalSigned (set_signature (base64url_Encode (ed25519_Sign privateKey (canonicalUnsigned m))) m))
    end.
End Manifest.

(** The decoder reads a canonical text back as the manifest it was printed from. *)
Definition reads_back `{ManifestLibrary} (m : Manifest) : Prop :=
  json_distinct_keys (canonicalSigned m) = true /\ json_Decode (canonicalSigned m) = Some m /\
  json_ends (canonicalSigned m) = true.

(** Base64 of 64 bytes has 86 letters; a signature verifies under the key of its
    pair. *)
Class ManifestLaws `{ManifestLibrary} := {
  key_pair : string -> string -> Prop;
  key_pair_size : forall sk pk, key_pair sk pk -> zlen pk = PublicKeySize;
  signature_size : forall sk message, zlen (ed25519_Sign sk message) = SignatureSize;
  signature_verifies : forall sk pk message, key_pair sk pk ->
    ed25519_Verify pk message (ed25519_Sign sk message) = true
}.

Section Properties.
Context `{ManifestLibrary}.

Lemma parse_verified value publicKey m :
  ParseAndVerify value publicKey = Ok m ->
  value = canonicalSigned m /\ Validate m = None /\ zlen value <= maximumManifestSize /\
  exists signature, base64url_Decode (Signature m) = Some signature /\
    ed25519_Verify publicKey (canonicalUnsigned m) signature = true.
Proof.
  unfold ParseAndVerify. intros Hp. repeat case_match; try done. injection Hp as ->. btrue.
  split_and!; [by apply dec_stable|done|done|]. eexists. split; [done|]. done.
Qed.

Lemma Validate_version m : Validate m = None -> exists v, Parse (Version_ m) = Ok v.
Proof. unfold Validate. intros Hv. repeat case_match; try done. eauto. Qed.

Lemma Validate_signature m s :
  Validate m = None -> empty s = false -> zlen s <= 128 -> Validate (set_signature s m) = None.
Proof.
  intros Hv He Hs. unfold Validate in *. cbn [set_signature Format OS Architecture BinarySize BinarySHA256 BinaryURL Version_ SupportedFrom Signature].
  rewrite He. apply Z.ltb_ge in Hs as ->. cbn [orb]. repeat case_match; done.
Qed.

Lemma AllowsUpdateFrom_newer m installed :
  AllowsUpdateFrom m installed = None ->
  installed ∈ SupportedFrom m /\ exists target current,
    Parse (Version_ m) = Ok target /\ Parse installed = Ok current /\ 0 < Compare target current.
Proof.
  unfold AllowsUpdateFrom. intros Ha. repeat case_match; try done. btrue.
  split; [done|]. do 2 eexists. split_and!; done || lia.
Qed.
End Properties.

(** The manifest with the signature of its unsigned form. *)
Definition signed `{ManifestLibrary} (m : Manifest) (privateKey : string) : Manifest :=
  set_signature (base64url_Encode (ed25519_Sign privateKey (canonicalUnsigned m))) m.

(** What the signing tool produces the daemon accepts: a manifest signed with
    a private key parses and verifies under the public key of its pair, as the
    same manifest with the signature filled in, as long as it has at most 64 KiB. *)
Theorem signed_manifest_accepted `{ManifestLaws} m privateKey publicKey value :
  key_pair privateKey publicKey -> reads_back (signed m privateKey) ->
  Sign m privateKey = Ok value -> zlen value <= maximumManifestSize ->
  ParseAndVerify value publicKey = Ok (signed m privateKey).
Proof.
  intros Hk (D1 & D2 & D3) Hs Hlen. unfold Sign in Hs. destruct (negb _) in Hs; [done|].
  destruct (Validate (set_signature (base64url_Encode zero_signature) m)) eqn:Ev; [done|].
  change (Ok (canonicalSigned (signed m privateKey)) = Ok (E:=goerr) value) in Hs. injection Hs as <-.
  set (s := base64url_Encode (ed25519_Sign privateKey (canonicalUnsigned m))).
  assert (Hslen : zlen s = 86) by (unfold s; pose proof (base64_length (ed25519_Sign privateKey (canonicalUnsigned m))) as Hb; rewrite signature_size in Hb; unfold SignatureSize in Hb; lia).
  assert (He : empty s = false) by (unfold empty; apply bool_decide_eq_false; intros E; by rewrite E in Hslen).
  assert (Hvalid : Validate (signed m privateKey) = None).
  { apply (Validate_signature _ s) in Ev; [done|done|lia]. }
  assert (Hdec : base64url_Decode (Signature (signed m privateKey)) =
                 Some (ed25519_Sign privateKey (canonicalUnsigned m))) by apply base64_roundtrip.
  assert (Hpos : zlen (canonicalSigned (signed m privateKey)) <> 0) by (unfold zlen, canonicalSigned, canonicalHead; simpl; lia).
  unfold ParseAndVerify. apply Z.eqb_neq in Hpos as ->. apply Z.ltb_ge in Hlen as ->. cbn [orb].
  rewrite (key_pair_size _ _ Hk), Z.eqb_refl, D1, D2, D3, Hvalid, Hdec, signature_size, Z.eqb_refl. cbn [negb].
  rewrite bool_decide_eq_false_2 by tauto.
  change (canonicalUnsigned (signed m privateKey)) with (canonicalUnsigned m). by rewrite signature_verifies.
Qed.

(** ** Witness *)

Definition demo_manifest : Manifest :=
  mkManifest "amd64" (String.string_of_list_ascii (replicate 64 "a"%char)) 3 "https://example.org/p" 1 "linux"
    ["1.0.0"] "1.1.0" "".
Definition demo_signature : string := String.string_of_list_ascii (replicate 64 "s"%char).

Definition demo_manifests : ManifestLibrary := {|
  json_distinct_keys := fun _ => true;
  json_Decode := fun _ => Some (set_signature (base64url_Encode demo_signature) demo_manifest);
  json_ends := fun _ => true;
  url_Parse := fun _ => Some (mkURL "https" "example.org" false "");
  strconv_Quote := fun s => chr 34 +:+ s +:+ chr 34;
  hex_Decode_ok := fun _ => true;
  sha256_hex := fun _ => String.string_of_list_ascii (replicate 64 "a"%char);
  ed25519_Sign := fun _ _ => demo_signature;
  ed25519_Verify := fun _ _ _ => true
|}.

Definition demo_manifest_laws : @ManifestLaws demo_manifests.
Proof. by unshelve refine {| key_pair := fun _ pk => zlen pk = PublicKeySize |}. Defined.

Lemma signed_manifest_accepted_witness :
  exists value m, @Sign demo_manifests demo_manifest demo_signature = Ok value /\
    @ParseAndVerify demo_manifests value "01234567890123456789012345678901" = Ok m.
Proof.
  eexists _, _. split; [reflexivity|].
  refine (@signed_manifest_accepted demo_manifests demo_manifest_laws demo_manifest demo_signature
    "01234567890123456789012345678901" _ _ _ _ _); [reflexivity|split_and!; reflexivity|reflexivity|].
  by apply Z.leb_le.
Defined.
