(* ===== verification/ReleaseSlots.v ===== *)
(** * Release slots: internal/bootstrap/publish.go

    A release lives in a directory of its own under the releases root, the links
    [current] and [previous] select two of them.  The root is a map from names to
    entries.  Every system call takes one tick of the clock [ops]; the class
    [SlotLibrary] says for each tick whether the call works, fails or is the last
    thing the process does, so a theorem over all instances covers every failure
    and a crash at every point.  Deferred calls run on every return and not on a
    crash. *)

From S2P Require Import Prelude Semver ReleaseManifest.

Inductive Fault := Fine | Fails | Crashes.

(** Files of a slot; [Tree] is the extracted runtime directory. *)
Inductive Leaf := File (mode : Z) (owned : bool) (content : string) | Tree (content : string) | OddLeaf.
Inductive Entry :=
| Slot (mode : Z) (owned : bool) (files : gmap string Leaf)
| Link (target : string)
| Plain (content : string)
| OddEntry.

Record World := mkWorld { root_private : bool; entries : gmap string Entry; ops : nat }.
Definition set_entries (es : gmap string Entry) (w : World) : World := mkWorld (root_private w) es (ops w).

Class SlotLibrary := {
  fault : nat -> Fault;
  temp_name : string -> gmap string Entry -> string;
  (** [releasebundle]: open and verify a binary, extract its runtime, compare. *)
  bundle_verified : string -> bool;
  bundle_Extract : string -> option string;
  bundle_VerifyExtracted : string -> string -> bool;
  (** The helpers of the runtime answer their version probe. *)
  probe_runtime : string -> bool;
  releaseconfig_PublicKey : result goerr string
}.
(** [os.CreateTemp] and [os.MkdirTemp] make something new. *)
Class SlotLaws `{SlotLibrary} := {
  temp_fresh : forall prefix es, es !! temp_name prefix es = None;
  temp_prefix : forall prefix es, has_prefix prefix (temp_name prefix es) = true
}.

(** ** Running with faults *)

Inductive Out (A : Type) := Ret (r : result goerr A) | Crash.
Arguments Ret {A} r.
Arguments Crash {A}.
Definition M (A : Type) : Type := World -> Out A * World.
Definition ret {A} (a : A) : M A := fun w => (Ret (Ok a), w).
Definition throw {A} (e : goerr) : M A := fun w => (Ret (Err e), w).
Definition bind {A B} (m : M A) (k : A -> M B) : M B := fun w =>
  match m w with
  | (Ret (Ok a), w') => k a w'
  | (Ret (Err e), w') => (Ret (Err e), w')
  | (Crash, w') => (Crash, w')
  end.
(** [if err := m; err != nil { return handler(err) }] *)
Definition catch {A} (m : M A) (handler : goerr -> M A) : M A := fun w =>
  match m w with
  | (Ret (Err e), w') => handler e w'
  | other => other
  end.
(** [defer cleanup()], whose result is ignored. *)
Definition deferred {A} (cleanup : M unit) (m : M A) : M A := fun w =>
  match m w with
  | (Crash, w') => (Crash, w')
  | (Ret r, w') => match cleanup w' with (Crash, w'') => (Crash, w'') | (Ret _, w'') => (Ret r, w'') end
  end.
Definition of_result {A} (r : result goerr A) : M A := fun w => (Ret r, w).
Definition check (e : option goerr) : M unit := match e with Some e => throw e | None => ret tt end.
Definition guard (b : bool) (text : string) : M unit := if b then ret tt else throw (Msg text).

#[local] Notation "'let!' x ':=' m 'in' k" := (bind m (fun x => k))
  (at level 10, x name, m at level 100, k at level 200).
#[local] Notation "m ';;' k" := (bind m (fun _ => k)) (at level 100, k at level 200, right associativity).

Definition os_error : goerr := Msg "operating system error".

Section Slots.
Context `{ManifestLibrary} `{SlotLibrary}.

Definition tick (w : World) : World := mkWorld (root_private w) (entries w) (S (ops w)).
Definition sys {A} (f : gmap string Entry -> result goerr A * gmap string Entry) : M A := fun w =>
  match fault (ops w) with
  | Crashes => (Crash, tick w)
  | Fails => (Ret (Err os_error), tick w)
  | Fine => let '(r, es) := f (entries w) in (Ret r, set_entries es (tick w))
  end.
(** Calls that do not change the directory. *)
Definition query {A} (f : gmap string Entry -> result goerr A) : M A := sys (fun es => (f es, es)).
Definition nop : M unit := query (fun _ => Ok tt).

(** ** Directories and files *)

Definition Lstat (name : string) : M (option Entry) := query (fun es => Ok (es !! name)).
Definition Readlink (name : string) : M string :=
  query (fun es => match es !! name with Some (Link t) => Ok t | _ => Err os_error end).
Definition Remove (name : string) : M unit :=
  sys (fun es => match es !! name with
                 | Some (Slot _ _ _) | None => (Err os_error, es)
                 | Some _ => (Ok tt, delete name es)
                 end).
Definition RemoveAll (name : string) : M unit := sys (fun es => (Ok tt, delete name es)).
Definition CreateTemp (prefix : string) : M string :=
  sys (fun es => let name := temp_name prefix es in (Ok name, <[name := Plain ""]> es)).
Definition MkdirTemp (prefix : string) : M string :=
  sys (fun es => let name := temp_name prefix es in (Ok name, <[name := Slot 448 true ∅]> es)).
Definition Symlink (target name : string) : M unit :=
  sys (fun es => match es !! name with
                 | None => (Ok tt, <[name := Link target]> es)
                 | Some _ => (Err os_error, es)
                 end).
(** [rename]: a directory does not replace what exists, a link does not replace
    a directory. *)
Definition Rename (old new : string) : M unit :=
  sys (fun es =>
    match es !! old, es !! new with
    | None, _ => (Err os_error, es)
    | Some (Slot m o f), None => (Ok tt, <[new := Slot m o f]> (delete old es))
    | Some (Slot _ _ _), Some _ => (Err os_error, es)
    | Some _, Some (Slot _ _ _) => (Err os_error, es)
    | Some e, _ => (Ok tt, <[new := e]> (delete old es))
    end).
(** Writing a new file into a slot directory. *)
Definition write_leaf (slot name : string) (leaf : Leaf) : M unit :=
  sys (fun es => match es !! slot with
                 | Some (Slot m o files) =>
                     match files !! name with
                     | None => (Ok tt, <[slot := Slot m o (<[name := leaf]> files)]> es)
                     | Some _ => (Err os_error, es)
                     end
                 | _ => (Err os_error, es)
                 end).
Definition Chmod (slot : string) (mode : Z) : M unit :=
  sys (fun es => match es !! slot with
                 | Some (Slot _ o files) => (Ok tt, <[slot := Slot mode o files]> es)
                 | _ => (Err os_error, es)
                 end).

Definition validReleaseName (value : string) : bool :=
  negb (empty value) && negb (contains "/" value) && bool_decide (value <> ".") && bool_decide (value <> "..").

Definition ensurePrivateDirectory : M unit :=
  nop ;; (fun w => match nop w with
                   | (Ret (Ok _), w') => guard (root_private w') "directory type/mode or ownership is unsafe" w'
                   | other => other
                   end).
Definition syncDirectory : M unit := nop.
Definition syncDirectoryTree : M unit := nop.

Definition leaf_of (slot name : string) (es : gmap string Entry) : result goerr Leaf :=
  match es !! slot with
  | Some (Slot _ _ files) => match files !! name with Some l => Ok l | None => Err os_error end
  | _ => Err os_error
  end.
Definition verifyRegularFile (slot name : string) (mode : Z) : M unit :=
  let! leaf := query (leaf_of slot name) in
  match leaf with
  | File m owned _ => guard ((m =? mode) && owned) "file type/mode or ownership is unsafe"
  | _ => throw (Msg "file type/mode is unsafe")
  end.
Definition read_leaf (slot name : string) : M string :=
  query (fun es => match leaf_of slot name es with Ok (File _ _ c) => Ok c | _ => Err os_error end).
Definition readBoundedFile (slot name : string) (maximum : Z) : M string :=
  let! value := read_leaf slot name in
  if maximum <? zlen value then throw (Msg "file exceeds size limit") else ret value.

Definition allowed_entries : list string := ["platformd"; "release-manifest.json"; "runtime"].
Definition maximumReleaseManifestBytes : Z := 65536.

(** ** Slots *)

Definition VerifyReleaseSlot (slot : string) (expectedManifest : option string) (publicKey : option string) : M unit :=
  let! entry := Lstat slot in
  match entry with
  | Some (Slot mode owned _) =>
      guard ((mode =? 448) && owned) "directory type/mode or ownership is unsafe" ;;
      let! files := query (fun es => match es !! slot with Some (Slot _ _ files) => Ok files | _ => Err os_error end) in
      guard (forallb (fun name => bool_decide (name ∈ allowed_entries)) (map_to_list files).*1)
        "release slot contains unexpected entry" ;;
      guard (Nat.eqb (size files) (length allowed_entries)) "release slot is incomplete" ;;
      verifyRegularFile slot "release-manifest.json" 420 ;;
      let! value := readBoundedFile slot "release-manifest.json" maximumReleaseManifestBytes in
      guard (match expectedManifest with Some e => bool_decide (value = e) | None => true end)
        "installed release manifest differs from verified manifest" ;;
      let! key := of_result (match publicKey with Some k => Ok k | None => releaseconfig_PublicKey end) in
      let! manifest := of_result (ParseAndVerify value key) in
      guard (bool_decide (Version_ manifest = slot)) "release slot directory does not match manifest version" ;;
      verifyRegularFile slot "platformd" 493 ;;
      let! binary := read_leaf slot "platformd" in
      check (VerifyBinary manifest binary) ;;
      let! binary := read_leaf slot "platformd" in
      guard (bundle_verified binary) "release bundle is invalid" ;;
      let! runtime := query (fun es => match leaf_of slot "runtime" es with Ok (Tree c) => Ok c | _ => Err os_error end) in
      guard (bundle_VerifyExtracted binary runtime) "extracted runtime differs from the bundle"
  | Some _ => throw (Msg "directory type/mode is unsafe")
  | None => throw os_error
  end.

Definition probeReleaseRuntime (slot : string) : M unit :=
  let! runtime := query (fun es => match leaf_of slot "runtime" es with Ok (Tree c) => Ok c | _ => Err os_error end) in
  guard (probe_runtime runtime) "runtime helper is incompatible with this host".

Record VerifiedRelease := mkRelease {
  ExecutablePath : string; rel_Manifest : Manifest; ManifestBytes : string; PublicKey : string
}.

(** [copyRegularFile] of the downloaded executable into the staging slot. *)
Definition copyExecutable (source slot : string) (expectedSize : Z) : M unit :=
  let! content := query (fun es => match es !! source with Some (Plain c) => Ok c | _ => Err os_error end) in
  guard (zlen content =? expectedSize) "release source binary is not the verified regular file" ;;
  write_leaf slot "platformd" (File 493 true content).

Definition ExtractRuntime (release : VerifiedRelease) (slot : string) : M unit :=
  let! content := query (fun es => match es !! ExecutablePath release with Some (Plain c) => Ok c | _ => Err os_error end) in
  match bundle_Extract content with
  | Some runtime => write_leaf slot "runtime" (Tree runtime)
  | None => throw (Msg "release bundle is invalid")
  end.

Definition verifyPublished (release : VerifiedRelease) : M unit :=
  let target := Version_ (rel_Manifest release) in
  VerifyReleaseSlot target (Some (ManifestBytes release)) (Some (PublicKey release)) ;; probeReleaseRuntime target.

(** Staging a slot and moving it to its name. *)
Definition stageRelease (release : VerifiedRelease) : M unit :=
  let target := Version_ (rel_Manifest release) in
  let! staging := MkdirTemp ".staging-" in
  deferred (RemoveAll staging) (
    Chmod staging 448 ;;
    copyExecutable (ExecutablePath release) staging (BinarySize (rel_Manifest release)) ;;
    write_leaf staging "release-manifest.json" (File 420 true (ManifestBytes release)) ;;
    ExtractRuntime release staging ;;
    probeReleaseRuntime staging ;;
    syncDirectoryTree ;;
    let! renamed := catch (Rename staging target ;; ret true) (fun e =>
      let! found := catch (Lstat target) (fun _ => ret None) in
      match found with
      | Some _ => verifyPublished release ;; ret false
      | None => throw (Wrap "publish release slot" e)
      end) in
    if renamed : bool
    then syncDirectory ;; VerifyReleaseSlot target (Some (ManifestBytes release)) (Some (PublicKey release))
    else ret tt).

Definition PublishReleaseSlot (release : VerifiedRelease) : M unit :=
  ensurePrivateDirectory ;;
  let! existing := Lstat (Version_ (rel_Manifest release)) in
  match existing with
  | Some _ => verifyPublished release
  | None => stageRelease release
  end.

(** ** Links *)

Definition current_link : string := "current".
Definition previous_link : string := "previous".

Definition replaceSymlink (target destination : string) : M unit :=
  nop ;;
  let! temporary := CreateTemp ".platformd-link-" in
  nop ;;
  Remove temporary ;;
  deferred (Remove temporary) (
    Symlink target temporary ;; Rename temporary destination ;; syncDirectory).

Definition SwitchCurrentRelease (version : string) : M unit :=
  guard (validReleaseName version) "release version is not a safe slot name" ;; replaceSymlink version current_link.

Definition CurrentReleaseManifest (publicKey : option string) : M Manifest :=
  let! info := Lstat current_link in
  match info with
  | Some (Link _) =>
      let! target := Readlink current_link in
      guard (validReleaseName target) "current release link target is invalid" ;;
      VerifyReleaseSlot target None publicKey ;;
      let! value := readBoundedFile target "release-manifest.json" maximumReleaseManifestBytes in
      let! key := of_result (match publicKey with Some k => Ok k | None => releaseconfig_PublicKey end) in
      of_result (ParseAndVerify value key)
  | Some _ => throw (Msg "current release path is not a symlink")
  | None => throw os_error
  end.

Definition SwitchToRelease (expectedCurrent target : string) (publicKey : option string) : M unit :=
  guard (validReleaseName expectedCurrent && validReleaseName target && bool_decide (expectedCurrent <> target))
    "release switch versions are invalid" ;;
  let! current := Readlink current_link in
  guard (bool_decide (current = expectedCurrent)) "current release changed while update was staged" ;;
  VerifyReleaseSlot expectedCurrent None publicKey ;;
  VerifyReleaseSlot target None publicKey ;;
  replaceSymlink expectedCurrent previous_link ;;
  SwitchCurrentRelease target.

(** ** Cleaning up *)

Fixpoint removeObsolete (current : string) (names : list (string * Entry)) : M unit :=
  match names with
  | [] => ret tt
  | (name, entry) :: rest =>
      if bool_decide (name = current_link) || bool_decide (name = current) then removeObsolete current rest
      else match entry with
      | Link _ => throw (Msg "release root contains unexpected entry")
      | Slot _ _ _ => RemoveAll name ;; removeObsolete current rest
      | Plain _ => if has_prefix ".download-" name then Remove name ;; removeObsolete current rest
                   else throw (Msg "release root contains unexpected entry")
      | OddEntry => throw (Msg "release root contains unexpected entry")
      end
  end.

Definition sorted_entries (es : gmap string Entry) : list (string * Entry) :=
  omap (fun name => pair name <$> es !! name) (merge_sort String.le (map_to_list es).*1).

Definition FinalizeSuccessfulUpdate (publicKey : option string) : M unit :=
  let! current := Readlink current_link in
  guard (validReleaseName current) "current release link is invalid during readiness cleanup" ;;
  VerifyReleaseSlot current None publicKey ;;
  let! info := Lstat previous_link in
  match info with
  | Some (Link _) =>
      let! previous := Readlink previous_link in
      guard (validReleaseName previous && bool_decide (previous <> current)) "previous release link is invalid" ;;
      Remove previous_link ;; syncDirectory
  | Some _ => throw (Msg "previous release path is not a symlink")
  | None => ret tt
  end ;;
  let! names := query (fun es => Ok (sorted_entries es)) in
  removeObsolete current names ;;
  syncDirectory.

(** ** Rolling back: internal/bootstrap/rollback.go

    The checks around the root are answers: the effective user, the daemon lock,
    whether the command runs from the previous slot's binary, the schema version
    of the database, closing the lock and starting the service. *)
Record RollbackAnswers := mkRollback {
  rb_owner : bool; rb_lock : option goerr; rb_executable : string -> result goerr bool;
  rb_schema : result goerr Z; rb_required : Z; rb_close : option goerr; rb_start : option goerr
}.

Definition UpdateRollback_Run (answers : RollbackAnswers) (publicKey : string) : M unit :=
  guard (zlen publicKey =? PublicKeySize) "update rollback configuration is incomplete" ;;
  guard (rb_owner answers) "update rollback must run as the installation owner" ;;
  check (Wrap "require stopped platformd unit" <$> rb_lock answers) ;;
  let! current := CurrentReleaseManifest (Some publicKey) in
  let! previousName := Readlink previous_link in
  guard (validReleaseName previousName && bool_decide (previousName <> Version_ current))
    "previous release link is unavailable or invalid" ;;
  VerifyReleaseSlot previousName None (Some publicKey) ;;
  let! same := of_result (rb_executable answers previousName) in
  guard same "rollback command must be executed by the saved previous binary" ;;
  let! version := of_result (rb_schema answers) in
  guard (version =? rb_required answers) "SQLite schema version differs; rollback is forbidden" ;;
  SwitchCurrentRelease previousName ;;
  Remove previous_link ;;
  syncDirectory ;;
  check (rb_close answers) ;;
  check (rb_start answers).
End Slots.

(** ** Triples with a crash condition

    [triple P m Q E C]: from a root that satisfies [P], [m] returns in [Q], fails
    in [E] or crashes in [C]. *)

Notation root := (gmap string Entry).
Definition triple {A} (P : root -> Prop) (m : M A) (Q : A -> root -> Prop) (E C : root -> Prop) : Prop :=
  forall w, P (entries w) ->
    match m w with
    | (Ret (Ok a), w') => Q a (entries w')
    | (Ret (Err _), w') => E (entries w')
    | (Crash, w') => C (entries w')
    end.
(** The same condition holds whatever happens. *)
Notation stable P m Q := (triple P m Q P P).

Lemma triple_bind {A B} P (m : M A) (k : A -> M B) R Q E C :
  triple P m R E C -> (forall a, triple (R a) (k a) Q E C) -> triple P (bind m k) Q E C.
Proof.
  intros Hm Hk w Hw. specialize (Hm w Hw). unfold bind. destruct (m w) as [[[a|e]|] w']; [|done|done].
  by apply Hk.
Qed.

Lemma triple_conseq {A} (P P' : root -> Prop) (m : M A) (Q Q' : A -> root -> Prop) (E E' C C' : root -> Prop) :
  triple P m Q E C -> (forall es, P' es -> P es) -> (forall a es, Q a es -> Q' a es) ->
  (forall es, E es -> E' es) -> (forall es, C es -> C' es) -> triple P' m Q' E' C'.
Proof.
  intros Hm HP HQ HE HC w Hw. specialize (Hm w (HP _ Hw)). destruct (m w) as [[[a|e]|] w']; auto.
Qed.

Lemma triple_ret {A} (a : A) P (Q : A -> root -> Prop) E C : (forall es, P es -> Q a es) -> triple P (ret a) Q E C.
Proof. intros HQ w Hw. by apply HQ. Qed.
Lemma triple_throw {A} e P (Q : A -> root -> Prop) (E C : root -> Prop) :
  (forall es, P es -> E es) -> triple P (throw e) Q E C.
Proof. intros HE w Hw. by apply HE. Qed.
Lemma triple_guard b t P (E C : root -> Prop) :
  (forall es, P es -> E es) -> triple P (guard b t) (fun _ es => P es /\ b = true) E C.
Proof. intros HE w Hw. unfold guard. destruct b; simpl; auto. Qed.
Lemma triple_catch {A} P (m : M A) h (Q : A -> root -> Prop) R E C :
  triple P m Q R C -> (forall e, triple R (h e) Q E C) -> triple P (catch m h) Q E C.
Proof.
  intros Hm Hh w Hw. specialize (Hm w Hw). unfold catch. destruct (m w) as [[[a|e]|] w']; [done| |done].
  by apply Hh.
Qed.
Lemma triple_deferred {A} P (m : M A) cleanup (Q Q' : A -> root -> Prop) (E E' C : root -> Prop) :
  triple P m Q E C ->
  (forall a, triple (Q a) cleanup (fun _ => Q' a) (Q' a) C) -> triple E cleanup (fun _ => E') E' C ->
  triple P (deferred cleanup m) Q' E' C.
Proof.
  intros Hm Hq He w Hw. specialize (Hm w Hw). unfold deferred. destruct (m w) as [[[a|e]|] w']; [| |done].
  - specialize (Hq a w' Hm). by destruct (cleanup w') as [[[u|e]|] w''].
  - specialize (He w' Hm). by destruct (cleanup w') as [[[u|e']|] w''].
Qed.

Section Logic.
Context `{ManifestLibrary} `{SlotLaws}.

Lemma triple_sys {A} (f : root -> result goerr A * root) (P : root -> Prop) (Q : A -> root -> Prop) (E C : root -> Prop) :
  (forall es, P es -> E es /\ C es) ->
  (forall es, P es -> match f es with (Ok a, es') => Q a es' | (Err _, es') => E es' end) ->
  triple P (sys f) Q E C.
Proof.
  intros HP Hf w Hw. unfold sys. destruct (fault (ops w)); simpl; [|by apply HP..].
  specialize (Hf _ Hw). destruct (f (entries w)) as [[a|e] es']; done.
Qed.

Lemma triple_query {A} (f : root -> result goerr A) (P : root -> Prop) :
  stable P (query f) (fun a es => P es /\ f es = Ok a).
Proof.
  apply triple_sys; [done|]. intros es Hes. destruct (f es) eqn:Ef; done.
Qed.

Lemma triple_nop (P : root -> Prop) : stable P nop (fun _ => P).
Proof. eapply triple_conseq; [apply triple_query|done|by intros a es [? _]|done|done]. Qed.

Lemma triple_of_result {A} (r : result goerr A) (P : root -> Prop) :
  stable P (of_result r) (fun a es => P es /\ r = Ok a).
Proof. intros w Hw. unfold of_result. destruct r; done. Qed.

Lemma triple_check e (P : root -> Prop) : stable P (check e) (fun _ es => P es /\ e = None).
Proof. destruct e; [by apply triple_throw|by apply triple_ret]. Qed.

End Logic.

(** A call that leaves the root alone, in a sequence whose failures only need a
    weaker condition. *)
Lemma stable_step {A B} (P0 P : root -> Prop) (m : M A) (k : A -> M B) R Q :
  stable P m R -> (forall es, P es -> P0 es) -> (forall a, triple (R a) (k a) Q P0 P0) ->
  triple P (bind m k) Q P0 P0.
Proof. intros Hm HP Hk. eapply triple_bind; [eapply triple_conseq; [exact Hm|done|done|exact HP|exact HP]|exact Hk]. Qed.

Section SlotProofs.
Context `{ManifestLibrary} `{SlotLaws}.

(** What [VerifyReleaseSlot] establishes: exactly the three files, a manifest
    with this version that verifies under the key, a binary that matches it and
    a runtime that was extracted from the binary. *)
Record slot_verified (es : root) (key slot : string) (m : Manifest) : Prop := mkVerified {
  sv_slot : exists files value binary runtime,
    es !! slot = Some (Slot 448 true files) /\
    (forall name, is_Some (files !! name) -> name ∈ allowed_entries) /\ size files = 3%nat /\
    files !! "release-manifest.json" = Some (File 420 true value) /\ ParseAndVerify value key = Ok m /\
    files !! "platformd" = Some (File 493 true binary) /\ VerifyBinary m binary = None /\
    bundle_verified binary = true /\ files !! "runtime" = Some (Tree runtime) /\
    bundle_VerifyExtracted binary runtime = true;
  sv_version : Version_ m = slot
}.

Lemma slot_verified_entry es es' key slot m :
  es' !! slot = es !! slot -> slot_verified es key slot m -> slot_verified es' key slot m.
Proof. intros E [Hs Hv]. split; [by rewrite E|done]. Qed.

Lemma slot_verified_mono es es' key slot m : es ⊆ es' -> slot_verified es key slot m -> slot_verified es' key slot m.
Proof.
  intros Hsub Hv. pose proof Hv as [(files & value & binary & runtime & E & _) _].
  apply (slot_verified_entry es); [|done]. rewrite E. by eapply lookup_weaken.
Qed.

(** A version is not one of the names of the links. *)
Lemma slot_verified_name es key slot m : slot_verified es key slot m -> slot <> current_link /\ slot <> previous_link.
Proof.
  intros [(files & value & binary & runtime & _ & _ & _ & _ & Hp & _) Hv].
  apply parse_verified in Hp as (_ & Hval & _). apply Validate_version in Hval as (v & Hpv). rewrite Hv in Hpv.
  split; intros ->; vm_compute in Hpv; done.
Qed.

Definition key_of (publicKey : option string) : result goerr string :=
  match publicKey with Some k => Ok k | None => releaseconfig_PublicKey end.

(** *** Calls that leave the root alone *)

Definition readonly {A} (m : M A) : Prop := forall w, entries (m w).2 = entries w.

Lemma readonly_bind {A B} (m : M A) (k : A -> M B) : readonly m -> (forall a, readonly (k a)) -> readonly (bind m k).
Proof.
  intros Hm Hk w. specialize (Hm w). unfold bind. destruct (m w) as [[[a|e]|] w']; simpl in *; [|done|done].
  by rewrite Hk.
Qed.
Lemma readonly_query {A} (f : root -> result goerr A) : readonly (query f).
Proof. intros w. unfold query, sys. by destruct (fault (ops w)). Qed.
Lemma readonly_ret {A} (a : A) : readonly (ret a).
Proof. done. Qed.
Lemma readonly_throw {A} e : readonly (throw (A:=A) e).
Proof. done. Qed.
Lemma readonly_guard b t : readonly (guard b t).
Proof. by destruct b. Qed.
Lemma readonly_check e : readonly (check e).
Proof. by destruct e. Qed.
Lemma readonly_of_result {A} (r : result goerr A) : readonly (of_result r).
Proof. done. Qed.

Lemma bind_Ok {A B} (m : M A) (k : A -> M B) w b w' :
  bind m k w = (Ret (Ok b), w') -> exists a w1, m w = (Ret (Ok a), w1) /\ k a w1 = (Ret (Ok b), w').
Proof. unfold bind. destruct (m w) as [[[a|e]|] w1]; [eauto|done|done]. Qed.
Lemma query_Ok {A} (f : root -> result goerr A) w a w' :
  query f w = (Ret (Ok a), w') -> f (entries w) = Ok a /\ entries w' = entries w.
Proof. unfold query, sys. destruct (fault (ops w)); [|done|done]. intros E. by injection E as -> <-. Qed.
Lemma guard_Ok b t w u w' : guard b t w = (Ret (Ok u), w') -> b = true /\ entries w' = entries w.
Proof. destruct b; [|done]. intros E. by injection E as _ <-. Qed.
Lemma check_Ok e w u w' : check e w = (Ret (Ok u), w') -> e = None /\ entries w' = entries w.
Proof. destruct e; [done|]. intros E. by injection E as _ <-. Qed.
Lemma of_result_Ok {A} (r : result goerr A) w a w' :
  of_result r w = (Ret (Ok a), w') -> r = Ok a /\ entries w' = entries w.
Proof. intros E. by injection E as -> <-. Qed.

Lemma verifyRegularFile_Ok slot name mode w u w' :
  verifyRegularFile slot name mode w = (Ret (Ok u), w') ->
  entries w' = entries w /\ exists c, leaf_of slot name (entries w) = Ok (File mode true c).
Proof.
  intros Hv. apply bind_Ok in Hv as (leaf & w1 & Hq & Hv). apply query_Ok in Hq as [Hl E].
  destruct leaf as [m o c| |]; [|done|done]. apply guard_Ok in Hv as [Hb E']. btrue. subst. split; [congruence|eauto].
Qed.

Lemma readBoundedFile_Ok slot name maximum w v w' :
  readBoundedFile slot name maximum w = (Ret (Ok v), w') ->
  entries w' = entries w /\ exists m o, leaf_of slot name (entries w) = Ok (File m o v).
Proof.
  intros Hv. apply bind_Ok in Hv as (c & w1 & Hq & Hv). apply query_Ok in Hq as [Hl E].
  destruct (maximum <? zlen c); [done|]. injection Hv as <- <-. split; [done|].
  destruct (leaf_of slot name (entries w)) as [[]|]; naive_solver.
Qed.

Lemma VerifyReleaseSlot_readonly slot expected publicKey : readonly (VerifyReleaseSlot slot expected publicKey).
Proof.
  unfold VerifyReleaseSlot, verifyRegularFile, readBoundedFile, read_leaf.
  repeat first [apply readonly_bind; [|intros ?] | apply readonly_query | apply readonly_guard | apply readonly_check
    | apply readonly_of_result | apply readonly_throw | apply readonly_ret | case_match].
Qed.

Lemma VerifyReleaseSlot_Ok slot expected publicKey w u w' :
  VerifyReleaseSlot slot expected publicKey w = (Ret (Ok u), w') ->
  exists key m, key_of publicKey = Ok key /\ slot_verified (entries w) key slot m.
Proof.
  intros Hv. apply bind_Ok in Hv as (entry & w1 & Hq & Hv). apply query_Ok in Hq as [Hl E1]. injection Hl as Hl.
  destruct entry as [[mode owned files0| | |]|]; try done.
  apply bind_Ok in Hv as (? & w2 & Hq & Hv). apply guard_Ok in Hq as [Hmode E2]. btrue. subst mode owned.
  apply bind_Ok in Hv as (files & w3 & Hq & Hv). apply query_Ok in Hq as [Hf E3].
  apply bind_Ok in Hv as (? & w4 & Hq & Hv). apply guard_Ok in Hq as [Hallowed E4].
  apply bind_Ok in Hv as (? & w5 & Hq & Hv). apply guard_Ok in Hq as [Hsize E5].
  apply bind_Ok in Hv as (? & w6 & Hq & Hv). apply verifyRegularFile_Ok in Hq as [E6 [c6 L6]].
  apply bind_Ok in Hv as (value & w7 & Hq & Hv). apply readBoundedFile_Ok in Hq as [E7 (m7 & o7 & L7)].
  apply bind_Ok in Hv as (? & w8 & Hq & Hv). apply guard_Ok in Hq as [_ E8].
  apply bind_Ok in Hv as (key & w9 & Hq & Hv). apply of_result_Ok in Hq as [Hkey E9].
  apply bind_Ok in Hv as (m & w10 & Hq & Hv). apply of_result_Ok in Hq as [Hm E10].
  apply bind_Ok in Hv as (? & w11 & Hq & Hv). apply guard_Ok in Hq as [Hver E11]. apply bool_decide_eq_true in Hver.
  apply bind_Ok in Hv as (? & w12 & Hq & Hv). apply verifyRegularFile_Ok in Hq as [E12 [c12 L12]].
  apply bind_Ok in Hv as (b1 & w13 & Hq & Hv). apply query_Ok in Hq as [L13 E13].
  apply bind_Ok in Hv as (? & w14 & Hq & Hv). apply check_Ok in Hq as [Hbin E14].
  apply bind_Ok in Hv as (b2 & w15 & Hq & Hv). apply query_Ok in Hq as [L15 E15].
  apply bind_Ok in Hv as (? & w16 & Hq & Hv). apply guard_Ok in Hq as [Hbundle E16].
  apply bind_Ok in Hv as (runtime & w17 & Hq & Hv). apply query_Ok in Hq as [L17 E17]. apply guard_Ok in Hv as [Hext _].
  assert (Eall : entries w5 = entries w /\ entries w6 = entries w /\ entries w11 = entries w /\
                 entries w12 = entries w /\ entries w14 = entries w /\ entries w16 = entries w /\ entries w2 = entries w)
    by (split_and!; congruence).
  destruct Eall as (F5 & F6 & F11 & F12 & F14 & F16 & F2). rewrite F5 in L6. rewrite F6 in L7. rewrite F11 in L12.
  rewrite F12 in L13. rewrite F14 in L15. rewrite F16 in L17. rewrite F2 in Hf.
  exists key, m. split; [done|]. split; [|done]. exists files, c6, c12, runtime.
  unfold leaf_of in *. rewrite Hl in *. injection Hf as ->.
  destruct (files !! "release-manifest.json") as [lf|] eqn:Efm; [|done]. injection L6 as ->. injection L7 as _ _ ->.
  destruct (files !! "platformd") as [lp|] eqn:Efp; [|done]. injection L12 as ->. injection L13 as <-. injection L15 as <-.
  destruct (files !! "runtime") as [lr|] eqn:Efr; [|done]. destruct lr; [done| |done]. injection L17 as ->.
  split_and!; try done; [|by apply Nat.eqb_eq in Hsize].
  intros name [lf Hlf]. rewrite forallb_forall in Hallowed. apply (bool_decide_eq_true (name ∈ _)), Hallowed.
  apply list_elem_of_In, list_elem_of_fmap. exists (name, lf). split; [done|]. by apply elem_of_map_to_list.
Qed.

Lemma VerifyReleaseSlot_triple (P : root -> Prop) slot expected publicKey :
  stable P (VerifyReleaseSlot slot expected publicKey)
    (fun _ es => P es /\ exists key m, key_of publicKey = Ok key /\ slot_verified es key slot m).
Proof.
  intros w Hw. pose proof (VerifyReleaseSlot_readonly slot expected publicKey w) as E.
  destruct (VerifyReleaseSlot slot expected publicKey w) as [[[u|e]|] w'] eqn:Ev; simpl in E; rewrite E; [|done|done].
  split; [done|]. by eapply VerifyReleaseSlot_Ok.
Qed.

(** *** Publishing keeps what is there *)

Lemma sub_insert (es0 es : root) n e : es0 !! n = None -> es0 ⊆ es -> es0 ⊆ <[n := e]> es.
Proof. intros Hn Hs. by apply insert_subseteq_r. Qed.
Lemma sub_delete (es0 es : root) n : es0 !! n = None -> es0 ⊆ es -> es0 ⊆ delete n es.
Proof.
  intros Hn Hs. apply map_subseteq_spec. intros i x Hi. rewrite lookup_delete_ne by congruence. by eapply lookup_weaken.
Qed.

(** A call whose effect stays outside [es0]. *)
Lemma triple_off {A} (es0 : root) (f : root -> result goerr A * root) :
  (forall es, es0 ⊆ es -> es0 ⊆ (f es).2) ->
  stable (fun es => es0 ⊆ es) (sys f) (fun _ es => es0 ⊆ es).
Proof.
  intros Hf. apply triple_sys; [done|]. intros es Hes. specialize (Hf es Hes). by destruct (f es) as [[a|e] es'].
Qed.

Lemma triple_readonly {A} (m : M A) (P : root -> Prop) : readonly m -> stable P m (fun _ => P).
Proof. intros Hm w Hw. specialize (Hm w). destruct (m w) as [[[a|e]|] w']; simpl in Hm; by rewrite Hm. Qed.

Lemma write_leaf_off es0 slot name leaf :
  es0 !! slot = None -> stable (fun es => es0 ⊆ es) (write_leaf slot name leaf) (fun _ es => es0 ⊆ es).
Proof.
  intros Hn. apply triple_off. intros es Hes. destruct (es !! slot) as [[m o files| | |]|]; try done.
  destruct (files !! name); [done|]. by apply sub_insert.
Qed.
Lemma Chmod_off es0 slot mode :
  es0 !! slot = None -> stable (fun es => es0 ⊆ es) (Chmod slot mode) (fun _ es => es0 ⊆ es).
Proof.
  intros Hn. apply triple_off. intros es Hes. destruct (es !! slot) as [[m o files| | |]|]; try done. by apply sub_insert.
Qed.
Lemma Remove_off es0 name : es0 !! name = None -> stable (fun es => es0 ⊆ es) (Remove name) (fun _ es => es0 ⊆ es).
Proof.
  intros Hn. apply triple_off. intros es Hes. destruct (es !! name) as [[]|]; try done; by apply sub_delete.
Qed.
Lemma RemoveAll_off es0 name : es0 !! name = None -> stable (fun es => es0 ⊆ es) (RemoveAll name) (fun _ es => es0 ⊆ es).
Proof. intros Hn. apply triple_off. intros es Hes. by apply sub_delete. Qed.
Lemma Symlink_off es0 target name :
  es0 !! name = None -> stable (fun es => es0 ⊆ es) (Symlink target name) (fun _ es => es0 ⊆ es).
Proof.
  intros Hn. apply triple_off. intros es Hes. destruct (es !! name) as [e|] eqn:E; [done|]. by apply sub_insert.
Qed.
Lemma temp_off es0 prefix (k : string -> Entry) :
  stable (fun es => es0 ⊆ es) (sys (fun es => let name := temp_name prefix es in (Ok name, <[name := k name]> es)))
    (fun name es => es0 ⊆ es /\ es0 !! name = None /\ has_prefix prefix name = true).
Proof.
  apply triple_sys; [done|]. intros es Hes. cbv zeta. pose proof (temp_fresh prefix es) as Hf.
  assert (Hn : es0 !! temp_name prefix es = None) by (by eapply lookup_weaken_None).
  split_and!; [by apply sub_insert|done|apply temp_prefix].
Qed.
(** Publishing a directory under a name that is not taken. *)
Lemma Rename_slot_off es0 old new :
  es0 !! old = None -> es0 !! new = None -> stable (fun es => es0 ⊆ es) (Rename old new) (fun _ es => es0 ⊆ es).
Proof.
  intros Ho Hn. apply triple_off. intros es Hes.
  destruct (es !! old) as [e|]; [|done].
  destruct e, (es !! new) as [[]|]; simpl; try done; apply sub_insert; try done; by apply sub_delete.
Qed.

Lemma probe_readonly slot : readonly (probeReleaseRuntime slot).
Proof. apply readonly_bind; [apply readonly_query|intros ?; apply readonly_guard]. Qed.
Lemma nop_readonly : readonly nop.
Proof. apply readonly_query. Qed.
Lemma ensurePrivateDirectory_readonly : readonly ensurePrivateDirectory.
Proof.
  apply readonly_bind; [apply nop_readonly|intros _ w]. pose proof (nop_readonly w) as E.
  destruct (nop w) as [[[u|e]|] w']; simpl in *; [|done|done]. by rewrite readonly_guard.
Qed.
Lemma verifyPublished_readonly release : readonly (verifyPublished release).
Proof. apply readonly_bind; [apply VerifyReleaseSlot_readonly|intros _; apply probe_readonly]. Qed.

(** Sequencing under the invariant that [es0] is still there. *)
Lemma off_bind {A B} (es0 : root) (m : M A) (k : A -> M B) :
  stable (fun es => es0 ⊆ es) m (fun _ es => es0 ⊆ es) ->
  (forall a, stable (fun es => es0 ⊆ es) (k a) (fun _ es => es0 ⊆ es)) ->
  stable (fun es => es0 ⊆ es) (bind m k) (fun _ es => es0 ⊆ es).
Proof. intros Hm Hk. eapply triple_bind; [exact Hm|exact Hk]. Qed.
Lemma off_readonly {A} (es0 : root) (m : M A) : readonly m -> stable (fun es => es0 ⊆ es) m (fun _ es => es0 ⊆ es).
Proof. apply triple_readonly. Qed.

Lemma triple_pure {A} (phi : Prop) P (m : M A) Q E C :
  (forall es, P es -> phi) -> (phi -> triple P m Q E C) -> triple P m Q E C.
Proof. intros Hphi Hm w Hw. by apply (Hm (Hphi _ Hw)). Qed.

Lemma stageRelease_triple es0 release :
  es0 !! Version_ (rel_Manifest release) = None ->
  stable (fun es => es0 ⊆ es) (stageRelease release) (fun _ es => es0 ⊆ es).
Proof.
  intros Ht. unfold stageRelease. eapply triple_bind; [exact (temp_off es0 ".staging-" (fun _ => Slot 448 true ∅))|]. intros staging. cbv beta.
  apply (triple_pure (es0 !! staging = None)); [by intros es [_ [? _]]|intros Hst].
  apply (triple_conseq (fun es => es0 ⊆ es) _ _ (fun _ es => es0 ⊆ es) _ (fun es => es0 ⊆ es) _ (fun es => es0 ⊆ es) _);
    [|by intros es [? _]|done..].
  eapply triple_deferred; [|intros ?; by apply RemoveAll_off|by apply RemoveAll_off].
  apply off_bind; [by apply Chmod_off|intros _].
  apply off_bind; [apply off_bind; [apply off_readonly, readonly_query|intros c]|intros _].
  { apply off_bind; [apply off_readonly, readonly_guard|intros _]. by apply write_leaf_off. }
  apply off_bind; [by apply write_leaf_off|intros _].
  apply off_bind; [apply off_bind; [apply off_readonly, readonly_query|intros c]|intros _].
  { destruct (bundle_Extract c); [by apply write_leaf_off|apply off_readonly, readonly_throw]. }
  apply off_bind; [apply off_readonly, probe_readonly|intros _].
  apply off_bind; [apply off_readonly, nop_readonly|intros _].
  apply off_bind.
  - eapply triple_catch; [apply off_bind; [by apply Rename_slot_off|intros _; apply off_readonly, readonly_ret]|intros e].
    apply off_bind; [eapply triple_catch; [apply off_readonly, readonly_query|intros _; apply off_readonly, readonly_ret]|].
    intros [found|]; [|apply off_readonly, readonly_throw].
    apply off_bind; [apply off_readonly, verifyPublished_readonly|intros _; apply off_readonly, readonly_ret].
  - intros [|]; [|apply off_readonly, readonly_ret].
    apply off_bind; [apply off_readonly, nop_readonly|intros _]. apply off_readonly, VerifyReleaseSlot_readonly.
Qed.

Lemma PublishReleaseSlot_triple es0 release :
  stable (fun es => es0 ⊆ es) (PublishReleaseSlot release) (fun _ es => es0 ⊆ es).
Proof.
  apply off_bind; [apply off_readonly, ensurePrivateDirectory_readonly|intros _].
  eapply triple_bind; [apply triple_query|]. intros [e|]; cbv beta.
  - eapply triple_conseq; [apply (triple_readonly _ (fun es => es0 ⊆ es)), verifyPublished_readonly|by intros es [? _]|done..].
  - apply (triple_pure (es0 !! Version_ (rel_Manifest release) = None)).
    { intros es [Hes Hn]. injection Hn as Hn. by eapply lookup_weaken_None. }
    intros Hn. eapply triple_conseq; [by apply stageRelease_triple|by intros es [? _]|done..].
Qed.

(** *** Links *)

(** Replacing a link changes nothing but the link, and the link only from its
    old value to the new one. *)
Definition relinked (es0 : root) (destination target : string) (es : root) : Prop :=
  delete destination es0 ⊆ es /\ (es !! destination = es0 !! destination \/ es !! destination = Some (Link target)).

Lemma relinked_delete es0 d target n es :
  es0 !! n = None -> n <> d -> relinked es0 d target es -> relinked es0 d target (delete n es).
Proof.
  intros Hn Hne [Hs Hd]. split; [|by rewrite lookup_delete_ne].
  apply sub_delete; [|done]. by rewrite lookup_delete_ne.
Qed.

Lemma relinked_Remove es0 d target n (Q : root -> Prop) :
  es0 !! n = None -> n <> d -> (forall es, Q es -> relinked es0 d target es) ->
  (forall es, Q es -> Q (delete n es)) -> stable Q (Remove n) (fun _ => Q).
Proof.
  intros Hn Hne HQ Hdel. apply triple_sys; [done|]. intros es Hes. destruct (es !! n) as [[]|]; auto.
Qed.

(** The state in which the link still has its old value. *)
Definition unlinked (es0 : root) (d target : string) (es : root) : Prop :=
  relinked es0 d target es /\ es !! d = es0 !! d.

(** The new link is made beside and moved over the old one. *)
Lemma link_body es0 d target n :
  es0 !! n = None -> n <> d ->
  triple (unlinked es0 d target) (Symlink target n ;; Rename n d ;; syncDirectory)
    (fun _ es => relinked es0 d target es /\ es !! d = Some (Link target))
    (relinked es0 d target) (relinked es0 d target).
Proof.
  intros Hn Hne. assert (HU : forall es, unlinked es0 d target es -> relinked es0 d target es) by (by intros es [? _]).
  apply (triple_bind _ _ _ (fun _ es => unlinked es0 d target es /\ es !! n = Some (Link target))).
  { apply triple_sys; [auto|]. intros es [[Hs Hd] Hd']. destruct (es !! n) eqn:En; [by split|].
    split; [|by rewrite lookup_insert_eq]. split; [split|]; rewrite ?lookup_insert_ne by done; [|auto|done].
    apply sub_insert; [by rewrite lookup_delete_ne|done]. }
  intros ?. apply (triple_bind _ _ _ (fun _ es => relinked es0 d target es /\ es !! d = Some (Link target))).
  { apply triple_sys; [intros es [? _]; auto|]. intros es [[[Hs Hd] Hd'] En]. rewrite En.
    assert (Hok : relinked es0 d target (<[d:=Link target]> (delete n es)) /\
                  <[d:=Link target]> (delete n es) !! d = Some (Link target)).
    { rewrite lookup_insert_eq. split; [|done]. split; [|right; by rewrite lookup_insert_eq].
      apply sub_insert; [by rewrite lookup_delete_eq|]. apply sub_delete; [by rewrite lookup_delete_ne|done]. }
    assert (Hre : relinked es0 d target es) by (by split). clear Hd Hd'.
    by destruct (es !! d) as [[]|]. }
  intros ?. eapply triple_conseq;
    [apply (triple_readonly _ (fun es => relinked es0 d target es /\ es !! d = Some (Link target))), nop_readonly
    |done|done|by intros es [? _]|by intros es [? _]].
Qed.

Lemma replaceSymlink_triple es0 target d :
  has_prefix ".platformd-link-" d = false ->
  triple (fun es => es = es0) (replaceSymlink target d)
    (fun _ es => relinked es0 d target es /\ es !! d = Some (Link target)) (relinked es0 d target) (relinked es0 d target).
Proof.
  intros Hd. assert (Hstart : forall es, es = es0 -> relinked es0 d target es).
  { intros es ->. split; [apply delete_subseteq|by left]. }
  eapply stable_step; [apply triple_readonly, nop_readonly|exact Hstart|intros ?].
  eapply (triple_bind _ _ _ (fun n es => unlinked es0 d target es /\ es0 !! n = None /\ n <> d)).
  { apply triple_sys; [auto|]. intros es ->. cbv zeta.
    set (n := temp_name ".platformd-link-" es0). assert (Hn : es0 !! n = None) by apply temp_fresh.
    assert (Hne : n <> d) by (intros E; pose proof (temp_prefix ".platformd-link-" es0) as Hp; fold n in Hp; congruence).
    split; [|done]. split; [split|]; rewrite ?lookup_insert_ne by done; [|auto|done].
    apply sub_insert; [by rewrite lookup_delete_ne|apply delete_subseteq]. }
  intros n. apply (triple_pure (es0 !! n = None /\ n <> d)); [by intros es [_ ?]|intros [Hn Hne]].
  set (U := unlinked es0 d target). assert (HU : forall es, U es -> relinked es0 d target es) by (by intros es [? _]).
  apply (triple_conseq U _ _ (fun _ es => relinked es0 d target es /\ es !! d = Some (Link target)) _
           (relinked es0 d target) _ (relinked es0 d target) _); [|by intros es [? _]|done..].
  eapply stable_step; [apply triple_readonly, nop_readonly|exact HU|intros ?].
  eapply stable_step; [apply (relinked_Remove es0 d target n U); try done|exact HU|intros ?].
  { intros es [? ?]. split; [by apply relinked_delete|by rewrite lookup_delete_ne]. }
  eapply triple_deferred; [by apply link_body|intros ?|].
  - eapply triple_conseq; [apply (relinked_Remove es0 d target n (fun es => relinked es0 d target es /\ es !! d = Some (Link target)));
      [done|done|by intros es [? _]|]|done|done|done|by intros es [? _]].
    intros es [? ?]. split; [by apply relinked_delete|by rewrite lookup_delete_ne].
  - apply (relinked_Remove es0 d target n); [done|done|done|]. intros es Hes. by apply relinked_delete.
Qed.

(** *** Switching *)

Lemma triple_all {A} (P : root -> Prop) (m : M A) Q E C :
  (forall es1, P es1 -> triple (fun es => es = es1) m Q E C) -> triple P m Q E C.
Proof. intros Hm w Hw. by apply (Hm (entries w) Hw w). Qed.

Definition verified_slot (es : root) (publicKey : option string) (slot : string) : Prop :=
  exists key m, key_of publicKey = Ok key /\ slot_verified es key slot m.

(** Apart from the two links everything is still there; [current] has its old
    value, or it was moved from a verified slot to another one and [previous]
    names the one it came from. *)
Definition links_only (es0 es : root) : Prop := delete current_link (delete previous_link es0) ⊆ es.
Definition moved (es0 : root) (publicKey : option string) (old target : string) (es : root) : Prop :=
  links_only es0 es /\ es !! current_link = Some (Link target) /\ es !! previous_link = Some (Link old) /\
  es0 !! current_link = Some (Link old) /\ old <> target /\
  verified_slot es0 publicKey old /\ verified_slot es0 publicKey target.
Definition still (es0 es : root) : Prop := links_only es0 es /\ es !! current_link = es0 !! current_link.

Lemma links_only_refl es : links_only es es.
Proof. unfold links_only. etrans; apply delete_subseteq. Qed.

Lemma switch_links es0 publicKey old target :
  es0 !! current_link = Some (Link old) -> old <> target ->
  verified_slot es0 publicKey old -> verified_slot es0 publicKey target ->
  triple (fun es => es = es0) (replaceSymlink old previous_link ;; SwitchCurrentRelease target)
    (fun _ => moved es0 publicKey old target)
    (fun es => still es0 es \/ moved es0 publicKey old target es)
    (fun es => still es0 es \/ moved es0 publicKey old target es).
Proof.
  intros Hcur Hne Hold Htgt.
  assert (Hfirst : forall es, relinked es0 previous_link old es -> still es0 es).
  { intros es [Hs _]. assert (Hc : es !! current_link = Some (Link old)).
    { eapply lookup_weaken; [|exact Hs]. by rewrite lookup_delete_ne. }
    split; [|by rewrite Hcur]. unfold links_only. etrans; [apply delete_subseteq|exact Hs]. }
  eapply triple_bind.
  { eapply triple_conseq; [by apply (replaceSymlink_triple es0 old previous_link)|done|intros a es Hes; exact Hes|..];
      intros es Hes; left; by apply Hfirst. }
  intros ?. apply triple_all. intros es1 [Hre1 Hp1]. pose proof (Hfirst es1 Hre1) as Hstill1.
  assert (Hsecond : forall es, relinked es1 current_link target es ->
            still es0 es \/ moved es0 publicKey old target es).
  { intros es [Hs Hc]. assert (Hl : links_only es0 es).
    { unfold links_only. etrans; [apply delete_mono, (proj1 Hre1)|exact Hs]. }
    assert (Hp : es !! previous_link = Some (Link old)) by (eapply lookup_weaken; [|exact Hs]; by rewrite lookup_delete_ne).
    destruct Hc as [Hc|Hc]; [left; split; [done|]; rewrite Hc; apply Hstill1|right; by split_and!]. }
  eapply stable_step; [apply (triple_guard _ _ (fun es => es = es1)); done| |intros ?].
  { intros es ->. by left. }
  eapply triple_conseq; [by apply (replaceSymlink_triple es1 target current_link)|by intros es [? _]| |exact Hsecond|exact Hsecond].
  intros ? es [Hre Hc]. destruct (Hsecond es Hre) as [[Hl Hsame]|Hm]; [|done].
  exfalso. rewrite Hc, Hcur in Hsame. injection Hsame as ->. done.
Qed.

Lemma SwitchToRelease_triple es0 publicKey old target :
  triple (fun es => es = es0) (SwitchToRelease old target publicKey)
    (fun _ => moved es0 publicKey old target)
    (fun es => still es0 es \/ moved es0 publicKey old target es)
    (fun es => still es0 es \/ moved es0 publicKey old target es).
Proof.
  assert (Hrefl : forall es, es = es0 -> still es0 es \/ moved es0 publicKey old target es).
  { intros es ->. left. split; [apply links_only_refl|done]. }
  eapply stable_step; [by apply triple_guard|exact Hrefl|intros ?]. cbv beta.
  eapply stable_step; [apply triple_query|by intros es [? _]; apply Hrefl|intros current]. cbv beta.
  eapply stable_step; [by apply triple_guard|by intros es [[? _] _]; apply Hrefl|intros ?]. cbv beta.
  eapply stable_step; [apply VerifyReleaseSlot_triple|by intros es [[[? _] _] _]; apply Hrefl|intros ?]. cbv beta.
  eapply stable_step; [apply VerifyReleaseSlot_triple|by intros es [[[[? _] _] _] _]; apply Hrefl|intros ?]. cbv beta.
  apply triple_all. intros es1 [[[[[-> Hnames] Hlink] Hcur] Hold] Htgt]. apply bool_decide_eq_true in Hcur as ->.
  btrue. apply switch_links; try done.
  destruct (es0 !! current_link) as [[]|]; try done. by injection Hlink as ->.
Qed.

Lemma CurrentReleaseManifest_triple (P : root -> Prop) publicKey :
  stable P (CurrentReleaseManifest publicKey)
    (fun m es => P es /\ es !! current_link = Some (Link (Version_ m)) /\
       exists key, key_of publicKey = Ok key /\ slot_verified es key (Version_ m) m).
Proof.
  eapply stable_step; [apply triple_query|done|]. intros [[| | |]|]; cbv beta; try (apply triple_throw; by intros es [? _]).
  eapply stable_step; [apply triple_query|by intros es [? _]|intros name]; cbv beta.
  eapply stable_step; [by apply triple_guard|by intros es [[? _] _]|intros ?]; cbv beta.
  eapply stable_step; [apply VerifyReleaseSlot_triple|by intros es [[[? _] _] _]|intros ?]; cbv beta.
  intros w [[[[Hp _] Hlink] _] (key & m & Hkey & Hv)].
  assert (Hl : entries w !! current_link = Some (Link name)).
  { destruct (entries w !! current_link) as [[]|]; try done. by injection Hlink as ->. }
  set (rest := bind (readBoundedFile name "release-manifest.json" maximumReleaseManifestBytes) _).
  assert (Hro : readonly rest).
  { unfold rest, readBoundedFile, read_leaf. repeat first [apply readonly_bind; [|intros ?] | apply readonly_query
      | apply readonly_of_result | apply readonly_throw | apply readonly_ret | case_match]. }
  pose proof (Hro w) as E. destruct (rest w) as [[[m'|e]|] w'] eqn:Er; simpl in E; rewrite E; [|done|done].
  apply bind_Ok in Er as (value & w1 & Hq & Er). apply readBoundedFile_Ok in Hq as [E1 (mo & ow & L1)].
  apply bind_Ok in Er as (key' & w2 & Hq & Er). apply of_result_Ok in Hq as [Hkey' E2].
  apply of_result_Ok in Er as [Hm' _]. replace key' with key in * by (unfold key_of in Hkey; congruence).
  assert (m' = m).
  { destruct Hv as [(files & value' & binary & runtime & Es & _ & _ & Ef & Hm & _) _].
    unfold leaf_of in L1. rewrite Es, Ef in L1. injection L1 as _ _ ->. congruence. }
  subst m'. pose proof Hv as [_ Hver]. rewrite Hver. split_and!; [done|done|]. eauto.
Qed.

(** *** Cleaning up *)

(** The selected slot and its link are as they were, nothing was added. *)
Definition keeps_selected (es0 : root) (current : string) (es : root) : Prop :=
  es !! current_link = es0 !! current_link /\ es !! current = es0 !! current /\ es ⊆ es0.

Lemma keeps_delete es0 current es name :
  name <> current_link -> name <> current -> keeps_selected es0 current es -> keeps_selected es0 current (delete name es).
Proof.
  intros N1 N2 (K1 & K2 & K3). split_and!; [by rewrite lookup_delete_ne|by rewrite lookup_delete_ne|].
  etrans; [apply delete_subseteq|done].
Qed.

Lemma remove_keeps es0 current name (all : bool) (gone : list string) :
  name <> current_link -> name <> current ->
  let P es := keeps_selected es0 current es /\ forall n, n ∈ gone -> es !! n = None in
  triple P (if all then RemoveAll name else Remove name)
    (fun _ es => keeps_selected es0 current es /\ forall n, n ∈ name :: gone -> es !! n = None) P P.
Proof.
  intros N1 N2 P. assert (Hd : forall es, P es -> keeps_selected es0 current (delete name es) /\
                               forall n, n ∈ name :: gone -> delete name es !! n = None).
  { intros es [HK Hg]. split; [by apply keeps_delete|]. intros n Hn. apply lookup_delete_None.
    apply elem_of_cons in Hn as [->|Hn]; auto. }
  destruct all; (apply triple_sys; [done|]); intros es Hes; [by apply Hd|].
  destruct (es !! name) as [[]|]; try done; by apply Hd.
Qed.

Lemma removeObsolete_triple es0 current (names : list (string * Entry)) (gone : list string) :
  let P es := keeps_selected es0 current es /\ forall n, n ∈ gone -> es !! n = None in
  triple P (removeObsolete current names)
    (fun _ es => keeps_selected es0 current es /\
       forall n, (n ∈ gone \/ n ∈ names.*1 /\ n <> current_link /\ n <> current) -> es !! n = None)
    (keeps_selected es0 current) (keeps_selected es0 current).
Proof.
  revert gone. induction names as [|[name entry] names IH]; intros gone P; cbn [removeObsolete].
  { apply triple_ret. intros es [HK Hg]. split; [done|]. intros n [Hn|[Hn _]]; [auto|]. by apply not_elem_of_nil in Hn. }
  destruct (bool_decide (name = current_link)) eqn:E1; [|destruct (bool_decide (name = current)) eqn:E2]; cbn [orb].
  1-2: (eapply triple_conseq; [apply (IH gone)|done| |done|done]);
    intros _ es [HK Hg]; split; [done|]; intros n [Hn|(Hn & Hn1 & Hn2)]; [auto|];
    apply elem_of_cons in Hn as [Hn|Hn]; [simpl in Hn; subst; btrue; congruence|apply Hg; auto].
  btrue. assert (Hstep : forall all : bool, triple P (bind (if all then RemoveAll name else Remove name) (fun _ => removeObsolete current names))
    (fun _ es => keeps_selected es0 current es /\
       forall n, (n ∈ gone \/ n ∈ ((name, entry) :: names).*1 /\ n <> current_link /\ n <> current) -> es !! n = None)
    (keeps_selected es0 current) (keeps_selected es0 current)).
  { intros all. eapply triple_bind.
    - eapply triple_conseq; [by apply (remove_keeps es0 current name all gone)|done|intros a es Hes; exact Hes|..];
        by intros es [? _].
    - intros ?. cbv beta. eapply triple_conseq; [apply (IH (name :: gone))|done| |done|done].
      intros _ es [HK Hg]. split; [done|]. intros n Hn. apply Hg. rewrite fmap_cons, elem_of_cons in Hn.
      rewrite elem_of_cons. naive_solver. }
  destruct entry; [exact (Hstep true)|apply triple_throw; by intros es [? _]| |apply triple_throw; by intros es [? _]].
  destruct (has_prefix ".download-" name); [exact (Hstep false)|apply triple_throw; by intros es [? _]].
Qed.

Lemma sorted_entries_names es n : is_Some (es !! n) -> n ∈ (sorted_entries es).*1.
Proof.
  intros [e He]. apply list_elem_of_fmap. exists (n, e). split; [done|]. apply list_elem_of_omap.
  exists n. rewrite He. split; [|done]. rewrite merge_sort_Permutation. apply list_elem_of_fmap.
  exists (n, e). split; [done|]. by apply elem_of_map_to_list.
Qed.

Lemma keeps_refl es current : keeps_selected es current es.
Proof. done. Qed.
Lemma keeps_trans es0 es1 es2 current :
  keeps_selected es0 current es1 -> keeps_selected es1 current es2 -> keeps_selected es0 current es2.
Proof. intros (? & ? & ?) (? & ? & ?). split_and!; [congruence|congruence|by etrans]. Qed.

(** The end of the cleanup: everything but the selected slot is removed. *)
Lemma sweep_triple es0 es1 current :
  keeps_selected es0 current es1 ->
  triple (fun es => es = es1)
    (bind (query (fun es => Ok (sorted_entries es))) (fun names => removeObsolete current names ;; syncDirectory))
    (fun _ es => keeps_selected es0 current es /\ forall n, n <> current_link -> n <> current -> es !! n = None)
    (keeps_selected es0 current) (keeps_selected es0 current).
Proof.
  intros HK. eapply stable_step; [apply triple_query|by intros es ->|]. intros names. cbv beta.
  apply triple_all. intros es [-> Hn]. injection Hn as <-.
  eapply triple_bind.
  - eapply triple_conseq; [apply (removeObsolete_triple es1 current (sorted_entries es1) [])| | | |].
    + intros es ->. split; [done|]. intros n Hn. by apply not_elem_of_nil in Hn.
    + intros a es Hes. exact Hes.
    + intros es Hes. by eapply keeps_trans.
    + intros es Hes. by eapply keeps_trans.
  - intros ?. cbv beta. eapply triple_conseq;
      [apply (triple_readonly _ (fun es => keeps_selected es0 current es /\
                forall n, n <> current_link -> n <> current -> es !! n = None)), nop_readonly
      | |done|by intros es [? _]|by intros es [? _]].
    intros es [HK' Hgone]. split; [by eapply keeps_trans|]. intros n N1 N2.
    destruct (es1 !! n) as [e|] eqn:E.
    + apply Hgone. right. split_and!; [apply sorted_entries_names; by rewrite E|done|done].
    + destruct HK' as (_ & _ & Hsub). by eapply lookup_weaken_None.
Qed.

(** [FinalizeSuccessfulUpdate] at any point. *)
Lemma FinalizeSuccessfulUpdate_triple es0 publicKey current :
  es0 !! current_link = Some (Link current) ->
  triple (fun es => es = es0) (FinalizeSuccessfulUpdate publicKey)
    (fun _ es => keeps_selected es0 current es /\ verified_slot es publicKey current /\
       forall n, n <> current_link -> n <> current -> es !! n = None)
    (keeps_selected es0 current) (keeps_selected es0 current).
Proof.
  intros Hcur. eapply stable_step; [apply triple_query|by intros es ->|]. intros name. cbv beta.
  apply triple_all. intros es [-> Hl]. rewrite Hcur in Hl. injection Hl as <-.
  eapply stable_step; [by apply triple_guard|by intros es ->|intros ?]. cbv beta.
  eapply stable_step; [apply VerifyReleaseSlot_triple|by intros es [-> _]|intros ?]. cbv beta.
  apply triple_all. intros es [[-> _] Hver]. pose proof Hver as (key & m & Hkey & Hv).
  assert (Hprev : previous_link <> current) by (apply slot_verified_name in Hv as [_ ?]; congruence).
  apply (triple_conseq (fun es => es = es0) _ _
    (fun _ es => keeps_selected es0 current es /\ forall n, n <> current_link -> n <> current -> es !! n = None) _
    (keeps_selected es0 current) _ (keeps_selected es0 current) _); [|done| |done|done].
  2: { intros _ es [HK Hg]. split_and!; [done| |done]. exists key, m. split; [done|].
       apply (slot_verified_entry es0); [apply HK|done]. }
  eapply stable_step; [apply triple_query|by intros es ->|]. intros info. cbv beta.
  apply (triple_conseq (fun es => es = es0) _ _
    (fun _ es => keeps_selected es0 current es /\ forall n, n <> current_link -> n <> current -> es !! n = None) _
    (keeps_selected es0 current) _ (keeps_selected es0 current) _); [|by intros es [-> _]|done|done|done].
  eapply (triple_bind _ _ _ (fun _ es => keeps_selected es0 current es));
    [|intros ?; apply triple_all; intros es1 HK; by apply sweep_triple].
  destruct info as [[| | |]|]; try (by apply triple_throw; intros es ->); [|by apply triple_ret; intros es ->].
  eapply stable_step; [apply triple_query|by intros es ->|intros previous]. cbv beta.
  eapply stable_step; [by apply triple_guard|by intros es [-> _]|intros ?]. cbv beta.
  eapply triple_bind; [|intros ?; apply (triple_readonly _ (keeps_selected es0 current)), nop_readonly].
  apply triple_sys; [by intros es [[-> _] _]|]. intros es [[-> _] _].
  destruct (es0 !! previous_link) as [[]|]; try done; by apply keeps_delete.
Qed.

(** Cleaning up after an update never touches the release that runs: whatever
    system call fails and wherever the process stops, [current] and the slot it
    names are as they were; and when the cleanup succeeds the releases root holds
    nothing else, and that slot verifies. *)
Theorem finalize_keeps_current publicKey current w :
  entries w !! current_link = Some (Link current) ->
  let '(out, w') := FinalizeSuccessfulUpdate publicKey w in
  entries w' !! current_link = Some (Link current) /\ entries w' !! current = entries w !! current /\
  (out = Ret (Ok tt) -> verified_slot (entries w') publicKey current /\
     forall n, n <> current_link -> n <> current -> entries w' !! n = None).
Proof.
  intros Hc. pose proof (FinalizeSuccessfulUpdate_triple (entries w) publicKey current Hc w eq_refl) as Ht.
  destruct (FinalizeSuccessfulUpdate publicKey w) as [[[u|e]|] w'].
  - destruct Ht as ((K1 & K2 & _) & Hv & Hg). rewrite K1, K2. auto.
  - destruct Ht as (K1 & K2 & _). rewrite K1, K2. done.
  - destruct Ht as (K1 & K2 & _). rewrite K1, K2. done.
Qed.

Lemma removeObsolete_link current names name target w u w' :
  (name, Link target) ∈ names -> name <> current_link -> name <> current ->
  removeObsolete current names w <> (Ret (Ok u), w').
Proof.
  intros Hin N1 N2. revert w. induction names as [|[n e] names IH]; intros w Hr; [by apply not_elem_of_nil in Hin|].
  cbn [removeObsolete] in Hr. apply elem_of_cons in Hin as [Heq|Hin].
  - injection Heq as <- <-. rewrite !bool_decide_eq_false_2 in Hr by done. done.
  - destruct (_ || _); [by apply (IH Hin w)|].
    destruct e; [|done| |done]; [|destruct (has_prefix ".download-" n); [|done]];
      apply bind_Ok in Hr as (? & w1 & _ & Hr); by apply (IH Hin w1).
Qed.

(** A link that is neither [current] nor [previous] blocks the cleanup for good. *)
Lemma finalize_blocked_by_link publicKey current w name target u w' :
  entries w !! current_link = Some (Link current) -> entries w !! name = Some (Link target) ->
  name <> current_link -> name <> current -> name <> previous_link ->
  FinalizeSuccessfulUpdate publicKey w <> (Ret (Ok u), w').
Proof.
  intros Hc Hn N1 N2 N3 Hf.
  apply bind_Ok in Hf as (c & w1 & Hq & Hf). apply query_Ok in Hq as [Hl E1]. rewrite Hc in Hl. injection Hl as <-.
  apply bind_Ok in Hf as (? & w2 & Hq & Hf). apply guard_Ok in Hq as [_ E2].
  apply bind_Ok in Hf as (? & w3 & Hq & Hf).
  pose proof (VerifyReleaseSlot_readonly current None publicKey w2) as E3. rewrite Hq in E3. simpl in E3.
  apply bind_Ok in Hf as (info & w4 & Hq' & Hf). apply query_Ok in Hq' as [Hi E4].
  apply bind_Ok in Hf as (? & w5 & Hp & Hf).
  apply bind_Ok in Hf as (names & w6 & Hq' & Hf). apply query_Ok in Hq' as [Hnames E6]. injection Hnames as <-.
  apply bind_Ok in Hf as (? & w7 & Hr & _).
  assert (E : entries w4 = entries w) by congruence.
  assert (Hstill : entries w5 !! name = Some (Link target)).
  { destruct info as [[| | |]|]; try done; [|injection Hp as _ <-; by rewrite E].
    apply bind_Ok in Hp as (p & w8 & Hq' & Hp). apply query_Ok in Hq' as [_ E8].
    apply bind_Ok in Hp as (? & w9 & Hq' & Hp). apply guard_Ok in Hq' as [_ E9].
    apply bind_Ok in Hp as (? & w10 & Hq' & Hp). apply query_Ok in Hp as [_ E10]. rewrite E10.
    assert (E9' : entries w9 = entries w) by congruence. revert Hq'. unfold Remove, sys. rewrite E9'.
    destruct (fault (ops w9)); [|done|done]. destruct (entries w !! previous_link) as [[]|]; try done;
      intros Hx; injection Hx as _ <-; simpl; by rewrite lookup_delete_ne. }
  eapply (removeObsolete_link current (sorted_entries (entries w5)) name target w6); try done.
  apply list_elem_of_omap. exists name. rewrite Hstill. split; [|done]. rewrite merge_sort_Permutation.
  apply list_elem_of_fmap. exists (name, Link target). split; [done|]. by apply elem_of_map_to_list.
Qed.

Lemma links_only_verified es0 es publicKey slot :
  links_only es0 es -> verified_slot es0 publicKey slot -> verified_slot es publicKey slot.
Proof.
  intros Hl (key & m & Hk & Hv). exists key, m. split; [done|]. pose proof (slot_verified_name _ _ _ _ Hv) as [N1 N2].
  pose proof Hv as [(files & value & binary & runtime & E & _) _].
  apply (slot_verified_entry es0); [|done]. rewrite E. eapply lookup_weaken; [|exact Hl].
  by rewrite !lookup_delete_ne by congruence.
Qed.

Lemma verified_slot_mono es es' publicKey slot : es ⊆ es' -> verified_slot es publicKey slot -> verified_slot es' publicKey slot.
Proof. intros Hs (key & m & Hk & Hv). exists key, m. split; [done|]. by eapply slot_verified_mono. Qed.

(** Removing a file or a link does not remove a slot. *)
Lemma verified_slot_Remove es publicKey slot name e :
  es !! name = Some e -> (forall m o f, e <> Slot m o f) -> verified_slot es publicKey slot ->
  verified_slot (delete name es) publicKey slot.
Proof.
  intros He Hne (key & m & Hk & Hv). exists key, m. split; [done|].
  pose proof Hv as [(files & value & binary & runtime & E & _) _].
  apply (slot_verified_entry es); [|done]. rewrite lookup_delete_ne; [done|]. intros ->. rewrite He in E.
  injection E as ->. by eapply Hne.
Qed.

(** A property of the root that does not look at plain files survives their removal. *)
Lemma Remove_triple (R : root -> Prop) name :
  (forall es e, R es -> es !! name = Some e -> (forall m o f, e <> Slot m o f) -> R (delete name es)) ->
  stable R (Remove name) (fun _ => R).
Proof.
  intros HR. apply triple_sys; [done|]. intros es Hes. destruct (es !! name) as [[]|] eqn:E; try done; by eapply HR.
Qed.
End SlotProofs.
