(* ===== verification/SelfUpdate.v ===== *)
(** * Self-update: internal/selfupdate/updater.go

    An update downloads and verifies a release, takes the update lease of the
    admission gate, publishes the release slot, stops the workloads and switches
    the links.  The world adds the gate and whether workloads are stopped to the
    releases root; what the disk pressure gate, the release server and the
    workload manager answer is an argument, system calls fail or crash as in
    [ReleaseSlots]. *)

From Stdlib Require Import Ascii.
From S2P Require Import Prelude Semver Admission Base64 ReleaseManifest ReleaseSlots.

Record UWorld := mkUWorld { fs : World; gate : Gate; stopped : bool }.
Definition UM (A : Type) : Type := UWorld -> Out A * UWorld.
Definition uret {A} (a : A) : UM A := fun u => (Ret (Ok a), u).
Definition uthrow {A} (e : goerr) : UM A := fun u => (Ret (Err e), u).
Definition ubind {A B} (m : UM A) (k : A -> UM B) : UM B := fun u =>
  match m u with
  | (Ret (Ok a), u') => k a u'
  | (Ret (Err e), u') => (Ret (Err e), u')
  | (Crash, u') => (Crash, u')
  end.
Definition ucatch {A} (m : UM A) (handler : goerr -> UM A) : UM A := fun u =>
  match m u with
  | (Ret (Err e), u') => handler e u'
  | other => other
  end.
Definition udeferred {A} (cleanup : UM unit) (m : UM A) : UM A := fun u =>
  match m u with
  | (Crash, u') => (Crash, u')
  | (Ret r, u') => match cleanup u' with (Crash, u'') => (Crash, u'') | (Ret _, u'') => (Ret r, u'') end
  end.
Definition on_fs {A} (m : M A) : UM A := fun u =>
  let '(out, w) := m (fs u) in (out, mkUWorld w (gate u) (stopped u)).
#[local] Notation "'let!' x ':=' m 'in' k" := (bind m (fun x => k))
  (at level 10, x name, m at level 100, k at level 200).
#[local] Notation "m ';;' k" := (bind m (fun _ => k)) (at level 100, k at level 200, right associativity).
#[local] Notation "'let+' x ':=' m 'in' k" := (ubind m (fun x => k))
  (at level 10, x name, m at level 100, k at level 200).

Definition maximumManifestBytes : Z := 65536.
Definition ErrUpToDate : goerr := Sentinel "ErrUpToDate" "platform is already up to date".

(** ** The release server *)

Inductive Response :=
| RequestFailed (e : goerr)
| Answered (https : bool) (status : Z) (body : result goerr string).

Record Answers := mkAnswers {
  growth : option goerr;
  manifest_response : Response;
  binary_response : Response;
  (** [QuiesceWorkloads]: whether it gave a function to resume, and its error. *)
  quiesce_resumable : bool; quiesce_error : option goerr;
  resume_error : option goerr
}.

Definition get (r : Response) : result goerr (result goerr string) :=
  match r with
  | RequestFailed e => Err e
  | Answered https status body =>
      if negb https || negb (status =? 200) then Err (Msg "release response status or transport is invalid") else Ok body
  end.
(** [io.LimitReader] *)
Definition limit (n : Z) (s : string) : string := String.substring 0 (Z.to_nat n) s.

Definition fetch (r : Response) (maximum : Z) : result goerr string :=
  let? body := get r in
  let? content := body in
  let content := limit (maximum + 1) content in
  if maximum <? zlen content then Err (Msg "release response exceeds size limit") else Ok content.

Definition newerThan (candidateVersion currentVersion : string) : result goerr bool :=
  match Parse candidateVersion with
  | Err e => Err (Wrap "candidate version" e)
  | Ok candidate =>
      match Parse currentVersion with
      | Err e => Err (Wrap "current version" e)
      | Ok current => Ok (0 <? Compare candidate current)
      end
  end.

Record Candidate := mkCandidate {
  c_current : Manifest; c_target : Manifest; c_manifestBytes : string; c_binaryPath : string; c_publicKey : string
}.
Record Result := mkResult { PreviousVersion : string; TargetVersion : string }.
Record Status := mkStatus {
  CurrentVersion : string; LatestVersion : string; UpdateAvailable : bool; UpdateSupported : bool
}.

Section Updater.
Context `{ManifestLibrary} `{SlotLibrary}.
Context (answers : Answers) (publicKey : string).

Definition validateHTTPS (value : string) : option goerr :=
  match url_Parse value with
  | Some u => if bool_decide (Scheme u <> "https") || empty (Host u) || has_User u || negb (empty (Fragment u))
              then Some (Msg "URL must be HTTPS without userinfo or fragment") else None
  | None => Some (Msg "URL must be HTTPS without userinfo or fragment")
  end.

(** The calls on the open file all happen, and their errors are joined. *)
Definition attempt (m : M unit) : M (option goerr) := fun w =>
  match m w with
  | (Ret (Ok _), w') => (Ret (Ok None), w')
  | (Ret (Err e), w') => (Ret (Ok (Some e)), w')
  | (Crash, w') => (Crash, w')
  end.
Definition write_plain (name content : string) : M unit :=
  sys (fun es => match es !! name with
                 | Some (Plain _) => (Ok tt, <[name := Plain content]> es)
                 | _ => (Err os_error, es)
                 end).
Definition read_plain (name : string) : M string :=
  query (fun es => match es !! name with Some (Plain c) => Ok c | _ => Err os_error end).

Definition downloadBinary (manifest : Manifest) (destination : string) : M unit :=
  check (validateHTTPS (BinaryURL manifest)) ;;
  let! body := of_result (get (binary_response answers)) in
  let! _ := read_plain destination in
  let! chmodErr := attempt nop in
  let written := limit (BinarySize manifest + 1) (match body with Ok s => s | Err _ => "" end) in
  let! writeErr := attempt (write_plain destination written) in
  let copyErr := errors_Join writeErr (err_of body) in
  let! syncErr := attempt nop in
  let! closeErr := attempt nop in
  check (errors_Join (errors_Join chmodErr copyErr) (errors_Join syncErr closeErr)) ;;
  guard (zlen written =? BinarySize manifest) "release binary response size differs from the manifest" ;;
  let! content := read_plain destination in
  check (VerifyBinary manifest content).

Definition manifests : M (Manifest * Manifest * string) :=
  let! current := catch (CurrentReleaseManifest (Some publicKey)) (fun e => throw (Wrap "verify current release" e)) in
  let! manifestBytes := of_result (fetch (manifest_response answers) maximumManifestBytes) in
  let! target := of_result (ParseAndVerify manifestBytes publicKey) in
  ret (current, target, manifestBytes).

Definition Check : M Status :=
  let! ms := manifests in
  let '(current, target, _) := ms in
  let! available := of_result (newerThan (Version_ target) (Version_ current)) in
  ret (mkStatus (Version_ current) (Version_ target) available
         (negb (available && bool_decide (is_Some (AllowsUpdateFrom target (Version_ current)))))).

(** [cleanup(err)]: the download is removed. *)
Definition cleanup {A} (binaryPath : string) (m : M A) : M A :=
  catch m (fun e => let! _ := attempt (Remove binaryPath) in throw e).

Definition prepare : M Candidate :=
  let! ms := manifests in
  let '(current, target, manifestBytes) := ms in
  let! available := of_result (newerThan (Version_ target) (Version_ current)) in
  (if available : bool then ret tt else throw ErrUpToDate) ;;
  check (AllowsUpdateFrom target (Version_ current)) ;;
  nop ;;
  let! binaryPath := CreateTemp ".download-" in
  cleanup binaryPath (
    nop ;;
    downloadBinary target binaryPath ;;
    let! content := read_plain binaryPath in
    guard (bundle_verified content) "release bundle is invalid" ;;
    ret (mkCandidate current target manifestBytes binaryPath publicKey)).

(** ** Applying an update *)

Definition releaseUpdate (lease : Lease) : UM unit := fun u =>
  (Ret (Ok tt), mkUWorld (fs u) (Release lease (gate u)).2 (stopped u)).
(** Workloads that could not be resumed stay stopped. *)
Definition resumeWorkloads : UM unit := fun u =>
  match resume_error answers with
  | Some e => (Ret (Err e), u)
  | None => (Ret (Ok tt), mkUWorld (fs u) (gate u) false)
  end.
Definition uattempt (m : UM unit) : UM (option goerr) := fun u =>
  match m u with
  | (Ret (Ok _), u') => (Ret (Ok None), u')
  | (Ret (Err e), u') => (Ret (Ok (Some e)), u')
  | (Crash, u') => (Crash, u')
  end.
(** On failure after the lease: give it back, then resume what was stopped. *)
Definition undo {A} (lease : Lease) (resumable : bool) (wrap : goerr -> goerr) (e : goerr) : UM A :=
  let+ _ := releaseUpdate lease in
  if resumable : bool
  then let+ resumed := uattempt resumeWorkloads in
       uthrow (wrap (match resumed with Some e' => Joined e e' | None => e end))
  else uthrow (wrap e).

Definition quiesceWorkloads : UM (option goerr) := fun u =>
  (Ret (Ok (quiesce_error answers)), mkUWorld (fs u) (gate u) (stopped u || quiesce_resumable answers)).

Definition installCandidate (candidate : Candidate) (lease : Lease) : UM Result :=
  let release := mkRelease (c_binaryPath candidate) (c_target candidate) (c_manifestBytes candidate) (c_publicKey candidate) in
  let+ _ := ucatch (on_fs (PublishReleaseSlot release)) (undo lease false (Wrap "stage release slot")) in
  let+ failed := quiesceWorkloads in
  match failed with
  | Some e => undo lease (quiesce_resumable answers) (Wrap "stop workloads before update") e
  | None =>
      let+ _ := ucatch (on_fs (SwitchToRelease (Version_ (c_current candidate)) (Version_ (c_target candidate))
                                 (Some (c_publicKey candidate))))
                  (undo lease (quiesce_resumable answers) (fun e => e)) in
      uret (mkResult (Version_ (c_current candidate)) (Version_ (c_target candidate)))
  end.

Definition busy_error : goerr := Sentinel "ErrBusy" "platform has active operations".
Definition updating_error : goerr := Sentinel "ErrUpdating" "platform is updating".

Definition tryUpdate : UM Lease := fun u =>
  match TryUpdate (gate u) with
  | (g, Ok lease) => (Ret (Ok lease), mkUWorld (fs u) g (stopped u))
  | (g, Err (ErrBusy, _)) => (Ret (Err busy_error), mkUWorld (fs u) g (stopped u))
  | (g, Err _) => (Ret (Err updating_error), mkUWorld (fs u) g (stopped u))
  end.

Definition Apply : UM Result :=
  match growth answers with
  | Some e => uthrow e
  | None =>
      let+ candidate := on_fs prepare in
      udeferred (on_fs (Remove (c_binaryPath candidate))) (
        let+ lease := tryUpdate in
        installCandidate candidate lease)
  end.
End Updater.

(** ** Triples over the whole world *)

Definition utriple {A} (P : UWorld -> Prop) (m : UM A) (Q : A -> UWorld -> Prop) (E C : UWorld -> Prop) : Prop :=
  forall u, P u ->
    match m u with
    | (Ret (Ok a), u') => Q a u'
    | (Ret (Err _), u') => E u'
    | (Crash, u') => C u'
    end.

Lemma utriple_bind {A B} P (m : UM A) (k : A -> UM B) R Q E C :
  utriple P m R E C -> (forall a, utriple (R a) (k a) Q E C) -> utriple P (ubind m k) Q E C.
Proof.
  intros Hm Hk u Hu. specialize (Hm u Hu). unfold ubind. destruct (m u) as [[[a|e]|] u']; [|done|done].
  by apply Hk.
Qed.
Lemma utriple_catch {A} P (m : UM A) h Q R E C :
  utriple P m Q R C -> (forall e, utriple R (h e) Q E C) -> utriple P (ucatch m h) Q E C.
Proof.
  intros Hm Hh u Hu. specialize (Hm u Hu). unfold ucatch. destruct (m u) as [[[a|e]|] u']; [done| |done].
  by apply Hh.
Qed.
Lemma utriple_conseq {A} (P P' : UWorld -> Prop) (m : UM A) (Q Q' : A -> UWorld -> Prop) (E E' C C' : UWorld -> Prop) :
  utriple P m Q E C -> (forall u, P' u -> P u) -> (forall a u, Q a u -> Q' a u) ->
  (forall u, E u -> E' u) -> (forall u, C u -> C' u) -> utriple P' m Q' E' C'.
Proof. intros Hm HP HQ HE HC u Hu. specialize (Hm u (HP _ Hu)). destruct (m u) as [[[a|e]|] u']; auto. Qed.
Lemma utriple_deferred {A} P (m : UM A) c (Q Q' : A -> UWorld -> Prop) (E E' C : UWorld -> Prop) :
  utriple P m Q E C -> (forall a, utriple (Q a) c (fun _ => Q' a) (Q' a) C) -> utriple E c (fun _ => E') E' C ->
  utriple P (udeferred c m) Q' E' C.
Proof.
  intros Hm Hq He u Hu. specialize (Hm u Hu). unfold udeferred. destruct (m u) as [[[a|e]|] u']; [| |done].
  - specialize (Hq a u' Hm). by destruct (c u') as [[[x|e]|] u''].
  - specialize (He u' Hm). by destruct (c u') as [[[x|e']|] u''].
Qed.
Lemma utriple_all {A} (P : UWorld -> Prop) (m : UM A) Q E C :
  (forall u1, P u1 -> utriple (fun u => u = u1) m Q E C) -> utriple P m Q E C.
Proof. intros Hm u Hu. by apply (Hm u Hu u). Qed.

(** Calls on the releases root leave the gate and the workloads alone. *)
Lemma utriple_fs {A} (P : root -> Prop) (m : M A) (Q : A -> root -> Prop) (E C : root -> Prop) (I : Gate -> bool -> Prop) :
  triple P m Q E C ->
  utriple (fun u => P (entries (fs u)) /\ I (gate u) (stopped u)) (on_fs m)
    (fun a u => Q a (entries (fs u)) /\ I (gate u) (stopped u))
    (fun u => E (entries (fs u)) /\ I (gate u) (stopped u)) (fun u => C (entries (fs u)) /\ I (gate u) (stopped u)).
Proof.
  intros Hm u [Hp Hi]. specialize (Hm (fs u) Hp). unfold on_fs. destruct (m (fs u)) as [[[a|e]|] w']; done.
Qed.

Definition newer (a b : string) : Prop :=
  exists va vb, Parse a = Ok va /\ Parse b = Ok vb /\ 0 < Compare va vb.

Section Proofs.
Context `{ManifestLibrary} `{SlotLaws}.
Context (answers : Answers) (publicKey : string).

Lemma attempt_off es0 (m : M unit) :
  stable (fun es => es0 ⊆ es) m (fun _ es => es0 ⊆ es) ->
  stable (fun es => es0 ⊆ es) (attempt m) (fun _ es => es0 ⊆ es).
Proof. intros Hm w Hw. specialize (Hm w Hw). unfold attempt. destruct (m w) as [[[a|e]|] w']; done. Qed.

Lemma write_plain_off es0 name content :
  es0 !! name = None -> stable (fun es => es0 ⊆ es) (write_plain name content) (fun _ es => es0 ⊆ es).
Proof.
  intros Hn. apply triple_off. intros es Hes. destruct (es !! name) as [[]|]; try done. by apply sub_insert.
Qed.

Lemma downloadBinary_off es0 manifest name :
  es0 !! name = None ->
  stable (fun es => es0 ⊆ es) (downloadBinary answers manifest name) (fun _ es => es0 ⊆ es).
Proof.
  intros Hn. unfold downloadBinary, read_plain.
  repeat (apply off_bind; [first [apply off_readonly, readonly_check | apply off_readonly, readonly_of_result
    | apply off_readonly, readonly_query | apply off_readonly, readonly_guard
    | apply attempt_off, off_readonly, nop_readonly | by apply attempt_off, write_plain_off]|intros ?]).
  apply off_readonly, readonly_check.
Qed.

Lemma manifests_triple (P : root -> Prop) :
  stable P (manifests answers publicKey)
    (fun ms es => P es /\ es !! current_link = Some (Link (Version_ (ms.1.1))) /\
       slot_verified es publicKey (Version_ (ms.1.1)) ms.1.1).
Proof.
  eapply stable_step; [|done|].
  - eapply triple_catch; [apply CurrentReleaseManifest_triple|intros e; by apply triple_throw].
  - intros current. cbv beta.
    eapply stable_step; [apply triple_of_result|by intros es [? _]|intros bytes]. cbv beta.
    eapply stable_step; [apply triple_of_result|by intros es [[? _] _]|intros target]. cbv beta.
    apply triple_ret. intros es [[(Hp & Hl & key & Hk & Hv) _] _]. injection Hk as <-. done.
Qed.

Lemma prepare_triple es0 :
  triple (fun es => es = es0) (prepare answers publicKey)
    (fun c es => es0 ⊆ es /\ (es0 !! c_binaryPath c = None /\ has_prefix ".download-" (c_binaryPath c) = true) /\
       es0 !! current_link = Some (Link (Version_ (c_current c))) /\ c_publicKey c = publicKey /\
       newer (Version_ (c_target c)) (Version_ (c_current c)) /\
       Version_ (c_current c) ∈ SupportedFrom (c_target c))
    (fun es => es0 ⊆ es) (fun es => es0 ⊆ es).
Proof.
  assert (Hrefl : forall es, es = es0 -> es0 ⊆ es) by (by intros es ->).
  eapply stable_step; [apply manifests_triple|exact Hrefl|]. intros [[current target] bytes]. cbv beta. cbn [fst snd].
  eapply stable_step; [apply triple_of_result|by intros es [-> _]|intros available]. cbv beta.
  apply triple_all. intros es1 [(-> & Hl & _) _].
  destruct available; [|by apply triple_throw; intros es ->].
  eapply stable_step; [apply (triple_readonly _ (fun es => es = es0)), readonly_ret|exact Hrefl|intros ?].
  eapply stable_step; [apply triple_check|exact Hrefl|intros ?]. cbv beta.
  apply triple_all. intros es1 [-> Hallow]. apply AllowsUpdateFrom_newer in Hallow as [Hsup (vt & vc & Hvt & Hvc & Hgt)].
  apply (triple_conseq (fun es => es0 ⊆ es) _ _
    (fun c es => es0 ⊆ es /\ (es0 !! c_binaryPath c = None /\ has_prefix ".download-" (c_binaryPath c) = true) /\
       c_current c = current /\ c_target c = target /\ c_publicKey c = publicKey)
    _ (fun es => es0 ⊆ es) _ (fun es => es0 ⊆ es) _); [|exact Hrefl| |done|done].
  2: { intros c es (Hs & [Hn Hpre] & -> & -> & Hk). split_and!; try done. by exists vt, vc. }
  eapply triple_bind; [apply off_readonly, nop_readonly|intros ?].
  eapply triple_bind; [exact (temp_off es0 ".download-" (fun _ => Plain ""))|]. intros n. cbv beta.
  apply (triple_pure (es0 !! n = None /\ has_prefix ".download-" n = true)); [by intros es [_ ?]|intros [Hn Hpre]].
  apply (triple_conseq (fun es => es0 ⊆ es) _ _
    (fun c es => es0 ⊆ es /\ (es0 !! c_binaryPath c = None /\ has_prefix ".download-" (c_binaryPath c) = true) /\
       c_current c = current /\ c_target c = target /\ c_publicKey c = publicKey)
    _ (fun es => es0 ⊆ es) _ (fun es => es0 ⊆ es) _); [|by intros es [? _]|done|done|done].
  eapply triple_catch.
  - eapply triple_bind; [apply off_readonly, nop_readonly|intros ?].
    eapply triple_bind; [by apply downloadBinary_off|intros ?].
    eapply triple_bind; [apply off_readonly, readonly_query|intros ?].
    eapply triple_bind; [apply off_readonly, readonly_guard|intros ?].
    by apply triple_ret.
  - intros e. eapply triple_bind; [apply attempt_off; by apply Remove_off|intros ?]. by apply triple_throw.
Qed.

(** *** The selected release *)

Notation key := (Some publicKey).

(** The release that a restart would run: verified, and the old one or newer. *)
Definition selects (old : string) (es : root) : Prop :=
  exists name, es !! current_link = Some (Link name) /\ verified_slot es key name /\ (name = old \/ newer name old).
(** The update is complete, and the old release can be rolled back to. *)
Definition switched (old target : string) (es : root) : Prop :=
  es !! current_link = Some (Link target) /\ es !! previous_link = Some (Link old) /\
  verified_slot es key old /\ verified_slot es key target.

Lemma selects_start old es0 es :
  es0 !! current_link = Some (Link old) -> verified_slot es0 key old -> es0 ⊆ es -> selects old es.
Proof.
  intros Hc Hv Hs. exists old. split_and!; [by eapply lookup_weaken|by eapply verified_slot_mono|by left].
Qed.

Lemma switched_moved old target es0 es : moved es0 key old target es -> switched old target es.
Proof.
  intros (Hl & Hc & Hp & _ & _ & Ho & Ht). split_and!; [done|done|by eapply links_only_verified..].
Qed.

Lemma selects_switched old target es : newer target old -> switched old target es -> selects old es.
Proof. intros Hn (Hc & _ & _ & Ht). exists target. auto. Qed.

Lemma selects_after old target es0 es :
  es0 !! current_link = Some (Link old) -> verified_slot es0 key old -> newer target old ->
  still es0 es \/ moved es0 key old target es -> selects old es.
Proof.
  intros Hc Hv Hn [[Hl Hsame]|Hm]; [|by eapply selects_switched, switched_moved].
  exists old. split_and!; [by rewrite Hsame|by eapply links_only_verified|by left].
Qed.

(** Removing the download leaves both alone. *)
Lemma selects_Remove old name : name <> current_link -> stable (selects old) (Remove name) (fun _ => selects old).
Proof.
  intros Hne. apply Remove_triple. intros es e (n & Hc & Hv & Hn) He Hs. exists n.
  split_and!; [by rewrite lookup_delete_ne|by eapply verified_slot_Remove|done].
Qed.
Lemma switched_Remove old target name :
  name <> current_link -> name <> previous_link -> stable (switched old target) (Remove name) (fun _ => switched old target).
Proof.
  intros N1 N2. apply Remove_triple. intros es e (Hc & Hp & Ho & Ht) He Hs.
  split_and!; [by rewrite lookup_delete_ne|by rewrite lookup_delete_ne|by eapply verified_slot_Remove..].
Qed.

(** *** Lease and workloads *)

Definition locked (g : Gate) : Gate := mkGate (next g) true (active g).
Definition lease0 : Lease := mkLease false FinishUpdate.
(** Nothing is stopped any more, unless resuming failed. *)
Definition resumed (stopped : bool) : Prop := stopped = true -> is_Some (resume_error answers).
Lemma not_stopped s : s = false -> resumed s.
Proof. intros ->. discriminate. Qed.
#[local] Hint Resolve not_stopped : core.

Lemma undo_triple {A} (P E : UWorld -> Prop) g resumable wrap e (Q : A -> UWorld -> Prop) C :
  updating g = false ->
  (forall u, P u -> gate u = locked g /\ (resumable = false -> stopped u = false)) ->
  (forall u s, P u -> resumed s -> E (mkUWorld (fs u) g s)) ->
  utriple P (undo answers lease0 resumable wrap e) Q E C.
Proof.
  intros Hg HP HE u Hu. destruct (HP u Hu) as [Hl Hs]. specialize (fun s => HE u s Hu).
  unfold undo, ubind, releaseUpdate. simpl. rewrite Hl.
  assert (Hgate : finishUpdate (locked g) = g) by (destruct g; simpl in *; by subst).
  destruct resumable; simpl.
  - unfold uattempt, resumeWorkloads. destruct (resume_error answers) eqn:Hr; simpl; rewrite Hgate; apply HE; unfold resumed; rewrite Hr; [by eexists|done].
  - rewrite Hgate, Hs by done. by apply HE.
Qed.

Lemma installCandidate_triple es0 old c g :
  es0 !! current_link = Some (Link old) -> verified_slot es0 key old -> updating g = false ->
  Version_ (c_current c) = old -> c_publicKey c = publicKey -> newer (Version_ (c_target c)) old ->
  utriple (fun u => es0 ⊆ entries (fs u) /\ gate u = locked g /\ stopped u = false)
    (installCandidate answers c lease0)
    (fun r u => switched old (Version_ (c_target c)) (entries (fs u)) /\ r = mkResult old (Version_ (c_target c)) /\
                gate u = locked g)
    (fun u => selects old (entries (fs u)) /\ gate u = g /\ resumed (stopped u))
    (fun u => selects old (entries (fs u))).
Proof.
  intros Hc Hv Hg Hold Hkey Hnew. unfold installCandidate.
  assert (Hsel : forall es, es0 ⊆ es -> selects old es) by (intros es Hes; by eapply selects_start).
  eapply (utriple_bind _ _ _ (fun _ u => es0 ⊆ entries (fs u) /\ gate u = locked g /\ stopped u = false)).
  { eapply utriple_catch.
    - eapply utriple_conseq; [exact (utriple_fs _ _ _ _ _ (fun g' s => g' = locked g /\ s = false) (PublishReleaseSlot_triple es0 _))|..];
        [done|done|intros u Hu; exact Hu|intros u [Hs _]; by apply Hsel].
    - intros e. apply (undo_triple _ _ g); [done|by intros u (? & ? & ?)|]. intros u st (Hs & _) Hst. simpl. auto. }
  intros ?. cbv beta.
  eapply (utriple_bind _ _ _ (fun failed u => es0 ⊆ entries (fs u) /\ gate u = locked g /\
            (quiesce_resumable answers = false -> stopped u = false) /\ failed = quiesce_error answers)).
  { intros u (Hs & Hl & Hst). unfold quiesceWorkloads. simpl. rewrite Hst. done. }
  intros failed. cbv beta. destruct failed as [e|].
  { apply (undo_triple _ _ g); [done|by intros u (? & ? & ? & _)|]. intros u st (Hs & _) Hst. simpl. auto. }
  apply utriple_all. intros u1 (Hs1 & Hl1 & Hst1 & _). set (es1 := entries (fs u1)) in *.
  assert (Hc1 : es1 !! current_link = Some (Link old)) by (by eapply lookup_weaken).
  assert (Hv1 : verified_slot es1 key old) by (by eapply verified_slot_mono).
  rewrite Hold, Hkey. set (target := Version_ (c_target c)) in *.
  set (I g' s := g' = locked g /\ (quiesce_resumable answers = false -> s = false)).
  eapply (utriple_bind _ _ _ (fun _ u => switched old target (entries (fs u)) /\ gate u = locked g)).
  - eapply utriple_catch.
    + eapply utriple_conseq; [exact (utriple_fs _ _ _ _ _ I (SwitchToRelease_triple es1 key old target))|..].
      * intros u ->. split; [done|]. by split.
      * intros ? u [Hm [? _]]. split; [by eapply switched_moved|done].
      * intros u Hu. exact Hu.
      * intros u [Hm _]. by eapply (selects_after old target es1).
    + intros e. apply (undo_triple _ _ g); [done|by intros u [_ [? ?]]|].
      intros u st [Hm _] Hst. simpl. split; [by eapply (selects_after old target es1)|done].
  - intros ?. cbv beta. intros u [Hsw Hl]. simpl. done.
Qed.

Lemma Apply_triple es0 old g :
  es0 !! current_link = Some (Link old) -> verified_slot es0 key old ->
  utriple (fun u => entries (fs u) = es0 /\ gate u = g /\ stopped u = false) (Apply answers publicKey)
    (fun r u => switched old (TargetVersion r) (entries (fs u)) /\ PreviousVersion r = old /\
                newer (TargetVersion r) old /\ updating g = false /\ gate u = locked g)
    (fun u => selects old (entries (fs u)) /\ gate u = g /\ resumed (stopped u))
    (fun u => selects old (entries (fs u))).
Proof.
  intros Hc Hv. unfold Apply.
  assert (Hsel : forall es, es0 ⊆ es -> selects old es) by (intros es Hes; by eapply selects_start).
  destruct (growth answers) as [e|].
  { intros u (Hes & Hg & Hs). simpl. split_and!; [apply Hsel; by rewrite Hes|done|by apply not_stopped]. }
  eapply utriple_bind.
  { eapply utriple_conseq; [exact (utriple_fs _ _ _ _ _ (fun g' s => g' = g /\ s = false) (prepare_triple es0))|..];
      [by intros u (? & ? & ?)|intros ? u Hu; exact Hu|intros u [Hs [? ?]]; split_and!; [by apply Hsel|done|by apply not_stopped]
      |intros u [Hs _]; by apply Hsel]. }
  intros c. apply utriple_all. intros u1 [(Hs & [Hn Hpre] & Hlink & Hk & Hnew & _) [Hg Hst]].
  assert (Hold : Version_ (c_current c) = old) by (rewrite Hc in Hlink; by injection Hlink as ->). rewrite Hold in Hnew.
  assert (Hne : c_binaryPath c <> current_link /\ c_binaryPath c <> previous_link).
  { split; intros E; rewrite E in Hpre; done. }
  apply (utriple_conseq (fun u => es0 ⊆ entries (fs u) /\ gate u = g /\ stopped u = false) _ _
    (fun r u => (switched old (Version_ (c_target c)) (entries (fs u)) /\ gate u = locked g) /\
                r = mkResult old (Version_ (c_target c)) /\ updating g = false) _
    (fun u => selects old (entries (fs u)) /\ gate u = g /\ resumed (stopped u)) _
    (fun u => selects old (entries (fs u))) _);
    [|by intros u ->|by intros r u ([? ?] & -> & ?)|done|done].
  eapply (utriple_deferred _ _ _ (fun r u => (switched old (Version_ (c_target c)) (entries (fs u)) /\ gate u = locked g) /\
                r = mkResult old (Version_ (c_target c)) /\ updating g = false)
    _ (fun u => selects old (entries (fs u)) /\ gate u = g /\ resumed (stopped u))).
  - apply utriple_all. intros u2 (Hs2 & Hg2 & Hst2). destruct (updating g) eqn:Hu.
    { intros u ->. unfold ubind, tryUpdate, TryUpdate. rewrite Hg2, Hu. simpl. auto. }
    destruct (decide (active g = ∅)) as [Ha|Ha].
    2: { intros u ->. unfold ubind, tryUpdate, TryUpdate. rewrite Hg2, Hu, bool_decide_eq_false_2 by done. simpl. auto. }
    eapply (utriple_bind _ _ _ (fun lease u => lease = lease0 /\ es0 ⊆ entries (fs u) /\ gate u = locked g /\ stopped u = false)).
    { intros u ->. unfold tryUpdate, TryUpdate. rewrite Hg2, Hu, bool_decide_eq_true_2 by done. done. }
    intros lease. apply utriple_all. intros u3 (-> & Hs3 & Hg3 & Hst3).
    eapply utriple_conseq; [by apply (installCandidate_triple es0 old c g)|by intros u ->| |done|done].
    by intros r u (? & ? & ?).
  - intros r. eapply utriple_conseq;
      [exact (utriple_fs _ _ _ _ _ (fun g' s => g' = locked g /\ r = mkResult old (Version_ (c_target c)) /\ updating g = false)
         (switched_Remove old (Version_ (c_target c)) (c_binaryPath c) (proj1 Hne) (proj2 Hne)))|..].
    + by intros u ([? ?] & ? & ?).
    + by intros ? u (? & ? & ? & ?).
    + by intros u (? & ? & ? & ?).
    + intros u [Hsw _]. by eapply selects_switched.
  - eapply utriple_conseq;
      [exact (utriple_fs _ _ _ _ _ (fun g' s => g' = g /\ resumed s) (selects_Remove old (c_binaryPath c) (proj1 Hne)))|..];
      [done|done|done|by intros u [? _]].
Qed.

(** C23. An update is atomic whatever fails and wherever the process stops: a
    restart finds [current] on a verified slot, the old release or a strictly
    newer one.  A reported success means that the new release is selected and
    verified, that [previous] names the old one for a rollback, that the version
    is newer and that the update lease is still held; a reported failure means
    that the lease was given back and that no workload is left stopped, unless
    resuming them failed (it does not mean that the old release is selected). *)
Theorem update_atomic u old out u' :
  entries (fs u) !! current_link = Some (Link old) -> verified_slot (entries (fs u)) key old ->
  stopped u = false -> Apply answers publicKey u = (out, u') ->
  selects old (entries (fs u')) /\
  match out with
  | Ret (Ok r) => switched old (TargetVersion r) (entries (fs u')) /\ PreviousVersion r = old /\
                  newer (TargetVersion r) old /\ updating (gate u) = false /\ updating (gate u') = true
  | Ret (Err _) => gate u' = gate u /\ (stopped u' = true -> is_Some (resume_error answers))
  | Crash => True
  end.
Proof.
  intros Hc Hv Hs Ha. pose proof (Apply_triple (entries (fs u)) old (gate u) Hc Hv u) as Ht. rewrite Ha in Ht.
  specialize (Ht (conj eq_refl (conj eq_refl Hs))). destruct out as [[r|e]|].
  - destruct Ht as (Hsw & Hp & Hn & Hu & Hg). split; [by eapply selects_switched|]. rewrite Hg. done.
  - destruct Ht as (Hsel & Hg & Hst). done.
  - done.
Qed.
End Proofs.

(** ** Runs *)

(** A name longer than every name in the directory is new. *)
Definition longest (es : root) : nat := map_fold (fun name _ n => Nat.max (String.length name) n) 0%nat es.
Definition demo_temp (prefix : string) (es : root) : string :=
  prefix +:+ String.string_of_list_ascii (replicate (S (longest es)) "x"%char).

Lemma longest_le es name e : es !! name = Some e -> (String.length name <= longest es)%nat.
Proof.
  unfold longest. revert name e. apply (map_fold_weak_ind (fun n es => forall name e, es !! name = Some e -> (String.length name <= n)%nat)).
  - intros name e Hl. by rewrite lookup_empty in Hl.
  - intros k x m n Hk IH name e. rewrite lookup_insert_Some. intros [[<- _]|[_ Hl]]; [lia|]. specialize (IH name e Hl). lia.
Qed.

Lemma demo_temp_fresh prefix es : es !! demo_temp prefix es = None.
Proof.
  destruct (es !! demo_temp prefix es) as [e|] eqn:E; [|done]. apply longest_le in E. unfold demo_temp in E.
  assert (Hlen : forall l, String.length (String.string_of_list_ascii l) = length l) by (induction l; simpl; congruence).
  rewrite app_length_str, Hlen, length_replicate in E. lia.
Qed.

Definition demo_hash : string := String.string_of_list_ascii (replicate 64 "a"%char).
Definition demo_release (version : string) (from : list string) : Manifest :=
  mkManifest "amd64" demo_hash 3 "https://example.org/p" 1 "linux" from version
    (base64url_Encode demo_signature).
Definition demo_old : Manifest := demo_release "1.0.0" [].
Definition demo_new : Manifest := demo_release "1.1.0" ["1.0.0"].
Definition demo_key : string := "01234567890123456789012345678901".

Definition demo_release_library : ManifestLibrary := {|
  json_distinct_keys := fun _ => true;
  json_Decode := fun s => Some (if contains "1.1.0" s then demo_new else demo_old);
  json_ends := fun _ => true;
  url_Parse := fun _ => Some (mkURL "https" "example.org" false "");
  strconv_Quote := fun s => chr 34 +:+ s +:+ chr 34;
  hex_Decode_ok := fun _ => true;
  sha256_hex := fun _ => demo_hash;
  ed25519_Sign := fun _ _ => demo_signature;
  ed25519_Verify := fun _ _ _ => true
|}.
#[local] Existing Instance demo_release_library.

(** Everything works but, if given, one system call. *)
Definition demo_slots (faulty : option (nat * Fault)) : SlotLibrary := {|
  fault := fun n => match faulty with Some (k, f) => if Nat.eqb n k then f else Fine | None => Fine end;
  temp_name := demo_temp;
  bundle_verified := fun _ => true;
  bundle_Extract := fun _ => Some "rt";
  bundle_VerifyExtracted := fun _ _ => true;
  probe_runtime := fun _ => true;
  releaseconfig_PublicKey := Ok demo_key
|}.
Lemma demo_slot_laws faulty : @SlotLaws (demo_slots faulty).
Proof. split; [apply demo_temp_fresh|]. intros prefix es. apply has_prefix_spec. by eexists. Qed.

Definition demo_slot (m : Manifest) : Entry :=
  Slot 448 true {["platformd" := File 493 true "bin"; "release-manifest.json" := File 420 true (canonicalSigned m);
                  "runtime" := Tree "rt"]}.
Definition demo_root : root := {["current" := Link "1.0.0"; "1.0.0" := demo_slot demo_old]}.
Definition demo_world : UWorld := mkUWorld (mkWorld true demo_root 0) New false.
Definition demo_answers : Answers :=
  mkAnswers None (Answered true 200 (Ok (canonicalSigned demo_new))) (Answered true 200 (Ok "bin")) true None None.
Definition demo_apply (faulty : option (nat * Fault)) : Out Result * UWorld :=
  @Apply demo_release_library (demo_slots faulty) demo_answers demo_key demo_world.

Lemma demo_verified faulty : @verified_slot demo_release_library (demo_slots faulty) demo_root (Some demo_key) "1.0.0".
Proof.
  exists demo_key, demo_old. split; [done|]. split; [|done].
  exists {["platformd" := File 493 true "bin"; "release-manifest.json" := File 420 true (canonicalSigned demo_old);
           "runtime" := Tree "rt"]}, (canonicalSigned demo_old), "bin", "rt".
  split_and!; try reflexivity. intros name [l Hl].
  rewrite !lookup_insert_Some, lookup_singleton_Some in Hl. set_solver.
Qed.

Lemma update_atomic_witness :
  exists out u', demo_apply None = (out, u') /\ @selects demo_release_library (demo_slots None) demo_key "1.0.0" (entries (fs u')).
Proof.
  destruct (demo_apply None) as [out u'] eqn:E. exists out, u'. split; [reflexivity|].
  exact (proj1 (@update_atomic demo_release_library (demo_slots None) (demo_slot_laws None) demo_answers demo_key
    demo_world "1.0.0" out u' eq_refl (demo_verified None) eq_refl E)).
Defined.

Lemma finalize_keeps_current_witness :
  let '(out, w') := @FinalizeSuccessfulUpdate demo_release_library (demo_slots None) (Some demo_key) (mkWorld true demo_root 0) in
  entries w' !! "current" = Some (Link "1.0.0").
Proof.
  pose proof (@finalize_keeps_current demo_release_library (demo_slots None) (Some demo_key) "1.0.0"
    (mkWorld true demo_root 0) eq_refl) as Hf.
  destruct (@FinalizeSuccessfulUpdate demo_release_library (demo_slots None) (Some demo_key) (mkWorld true demo_root 0)) as [out w'].
  exact (proj1 Hf).
Defined.

(** What is left of a run: its outcome, the link [current], the names that are
    there and whether workloads are stopped. *)
Definition demo_outcome (faulty : option (nat * Fault)) : option (result unit unit) * option Entry * list string * bool :=
  let '(out, u) := demo_apply faulty in
  (match out with Ret (Ok _) => Some (Ok tt) | Ret (Err _) => Some (Err tt) | Crash => None end,
   entries (fs u) !! "current", (map_to_list (entries (fs u))).*1, stopped u).

Lemma demo_apply_succeeds :
  demo_outcome None = (Some (Ok tt), Some (Link "1.1.0"), ["current"; "1.1.0"; "1.0.0"; "previous"], true).
Proof. vm_compute. reflexivity. Qed.

(** The directory sync after the last rename fails: the update is reported as
    failed and the workloads are resumed, but the new release is selected. *)
Lemma failed_update_selects_new :
  demo_outcome (Some (75%nat, Fails)) =
  (Some (Err tt), Some (Link "1.1.0"), ["current"; "1.1.0"; "1.0.0"; "previous"], false).
Proof. vm_compute. reflexivity. Qed.

(** The process stops before the last rename: the temporary link stays, and by
    [finalize_blocked_by_link] no later cleanup of this root succeeds. *)
Lemma crashed_update_leaves_link :
  demo_outcome (Some (74%nat, Crashes)) =
  (None, Some (Link "1.0.0"),
   ["current"; "1.1.0"; "1.0.0"; ".download-xxxxxxxx"; ".platformd-link-xxxxxxxxxxxxxxxxxxx"; "previous"], true).
Proof. vm_compute. reflexivity. Qed.
