(* ===== verification/Authentication.v ===== *)
(** * Authentication: internal/apitoken, internal/automationauth, internal/terminalauth

    API tokens and the failure limiter of the automation API, and the short-lived
    tokens of the server terminal behind a passphrase.  Keyed hashes, JSON, address
    parsing and the CUID2 pattern are parameters.  Times are nanoseconds since the zero
    time of Go. *)

From Stdlib Require Import Ascii.
From S2P Require Import Prelude Base64.

Class AuthLibrary := {
  hmac_sha256 : string -> string -> string;
  cuid2_IsCuid : string -> bool;
  (** [netip.ParseAddr] with [Unmap] and [String], and [net.SplitHostPort]. *)
  canonical_address : string -> option string;
  SplitHostPort : string -> option string
}.

(** ** The failure limiter: automationauth/limiter.go *)

Module Limiter.
Definition failureWindow : Z := minute.
Definition retryAfter : Z := minute.
Definition pairFailureLimit : Z := 10.
Definition sourceFailureLimit : Z := 100.

Record failureWindowState := mkWindow { startedAt : Z; count : Z }.
Definition zeroWindow : failureWindowState := mkWindow time_zero 0.
Record Limiter := mkLimiter {
  pairs : gmap (string * string) failureWindowState;
  sources : gmap string failureWindowState;
  lastSweep : Z
}.
Definition newLimiter (now : Z) : Limiter := mkLimiter ∅ ∅ now.

Definition currentFailureWindow (state : failureWindowState) (now : Z) : failureWindowState :=
  if is_zero (startedAt state) || negb (now <? startedAt state + failureWindow) then mkWindow now 0 else state.
Definition increment (state : failureWindowState) : failureWindowState := mkWindow (startedAt state) (count state + 1).

Definition fresh_at (now : Z) (state : failureWindowState) : bool := now <? startedAt state + failureWindow.
Definition sweep (now : Z) (l : Limiter) : Limiter :=
  if now <? lastSweep l + failureWindow then l
  else mkLimiter (filter (fun x => fresh_at now x.2 = true) (pairs l))
         (filter (fun x => fresh_at now x.2 = true) (sources l)) now.

(** A missing key reads as the zero state. *)
Definition pair_state (l : Limiter) (publicID source : string) : failureWindowState :=
  default zeroWindow (pairs l !! (publicID, source)).
Definition source_state (l : Limiter) (source : string) : failureWindowState :=
  default zeroWindow (sources l !! source).

Definition permitted (l : Limiter) (publicID source : string) (now : Z) : bool :=
  let sourceState := currentFailureWindow (source_state l source) now in
  let pairLimited := negb (empty publicID)
                     && (pairFailureLimit <=? count (currentFailureWindow (pair_state l publicID source) now)) in
  negb (pairLimited || (sourceFailureLimit <=? count sourceState)).
Definition Permit (publicID source : string) (now : Z) (l : Limiter) : Limiter * (bool * Z) :=
  let l := sweep now l in
  (l, if permitted l publicID source now then (true, 0) else (false, retryAfter)).

Definition Failed (publicID source : string) (now : Z) (l : Limiter) : Limiter :=
  let pairs' := if empty publicID then pairs l
                else <[(publicID, source) := increment (currentFailureWindow (pair_state l publicID source) now)]> (pairs l) in
  mkLimiter pairs' (<[source := increment (currentFailureWindow (source_state l source) now)]> (sources l)) (lastSweep l).
Definition Succeeded (publicID source : string) (l : Limiter) : Limiter := l.
End Limiter.
Import Limiter.

(** ** API tokens: apitoken/token.go *)

Module Token.
Definition prefix : string := "ptk_".
Definition secretSize : Z := 32.
Definition publicSize : Z := 24.
Definition encodedSecretSize : Z := 43.
Definition tokenSize : Z := zlen prefix + publicSize + 1 + encodedSecretSize.

Section Token.
Context `{AuthLibrary}.

Definition Valid (value : string) : bool := (zlen value =? publicSize) && cuid2_IsCuid value.

(** [random] is what the random source gives for 32 bytes. *)
Definition Generate (publicID : string) (random : result goerr string) : result goerr (string * string) :=
  if negb (Valid publicID) then Err (Msg "API token public ID is invalid")
  else match random with
  | Err e => Err (Wrap "generate API token secret" e)
  | Ok secretBytes =>
      let secret := base64url_Encode secretBytes in Ok (prefix +:+ publicID +:+ "_" +:+ secret, secret)
  end.

Definition Parse (value : string) : result goerr (string * string) :=
  match strip_prefix prefix value with
  | None => Err (Msg "API token prefix is invalid")
  | Some rest =>
      if negb (zlen value =? tokenSize) then Err (Msg "API token prefix is invalid")
      else
        let '(publicID, secret, found) := cut "_"%char rest in
        if negb found || negb (Valid publicID) || negb (zlen secret =? encodedSecretSize)
        then Err (Msg "API token format is invalid")
        else match base64url_Decode secret with
        | Some decoded =>
            if negb (zlen decoded =? secretSize) || bool_decide (base64url_Encode decoded <> secret)
            then Err (Msg "API token secret is invalid") else Ok (publicID, secret)
        | None => Err (Msg "API token secret is invalid")
        end
  end.

Definition Digest (key publicID secret : string) : string := hmac_sha256 key (publicID +:+ chr 0 +:+ secret).
Definition Verify (key publicID secret expected : string) : bool :=
  (zlen expected =? 32) && bool_decide (Digest key publicID secret = expected).
End Token.
End Token.

(** ** Requests: automationauth/authenticator.go *)

Module Authenticator.
Record APIToken := mkAPIToken {
  t_ID : string; t_Role : string; t_ProjectID : option string; t_SecretHMAC : string; t_RevokedAtMillis : option Z
}.
Record Identity := mkIdentity { TokenID : string; Role : string; ProjectID : option string }.
Record Request := mkRequest { Authorization : list string; CF_Connecting_IP : list string; RemoteAddr : string }.

Section Authenticator.
Context `{AuthLibrary}.
Context (key : string) (APITokenCredential : string -> result goerr APIToken).

Definition sourceAddress (request : Request) : string :=
  let remote := match SplitHostPort (RemoteAddr request) with
                | Some host => default "unknown" (canonical_address host)
                | None => "unknown"
                end in
  match CF_Connecting_IP request with
  | [value] => match canonical_address (trim_space value) with Some a => a | None => remote end
  | _ => remote
  end.

(** [strings.EqualFold] with a word whose letters fold only within ASCII. *)
Fixpoint map_string (f : ascii -> ascii) (s : string) : string :=
  match s with EmptyString => EmptyString | String c s => String (f c) (map_string f s) end.
Definition equal_fold_bearer (scheme : string) : bool := bool_decide (map_string to_lower_ascii scheme = "bearer").
Definition is_blank (c : ascii) : bool :=
  Ascii.eqb c " " || Ascii.eqb c "009" || Ascii.eqb c "013" || Ascii.eqb c "010".

Definition bearerCredential (values : list string) : string * string * option goerr :=
  match values with
  | [header] =>
      let '(scheme, value, found) := cut " "%char header in
      if negb found || negb (equal_fold_bearer scheme) || empty value || negb (str_forall (fun c => negb (is_blank c)) value)
      then ("", "", Some (Msg "Authorization must contain one Bearer token"))
      else match Token.Parse value with
      | Ok (publicID, secret) => (publicID, secret, None)
      | Err e => ("", "", Some (Wrap "parse Bearer token" e))
      end
  | _ => ("", "", Some (Msg "exactly one Authorization header is required"))
  end.

(** The limiter is asked at [now] and told at [later]; a zero retry time means
    that the caller was not limited. *)
Definition authenticate (request : Request) (now later : Z) (l : Limiter) : Limiter * (result goerr Identity * Z) :=
  let source := sourceAddress request in
  let '(publicID, secret, parseErr) := bearerCredential (Authorization request) in
  let '(l, (allowed, retry)) := Permit publicID source now l in
  if negb allowed then (l, (Err (Msg "automation authentication rate limited"), retry))
  else match parseErr with
  | Some e => (Failed publicID source later l, (Err e, 0))
  | None =>
      match APITokenCredential publicID with
      | Ok credential =>
          if bool_decide (t_ID credential <> publicID) || bool_decide (is_Some (t_RevokedAtMillis credential))
             || negb (Token.Verify key publicID secret (t_SecretHMAC credential))
          then (Failed publicID source later l, (Err (Msg "invalid API token"), 0))
          else (Succeeded publicID source l,
                (Ok (mkIdentity (t_ID credential) (t_Role credential) (t_ProjectID credential)), 0))
      | Err _ => (Failed publicID source later l, (Err (Msg "invalid API token"), 0))
      end
  end.
End Authenticator.
End Authenticator.

(** ** Terminal tokens: terminalauth/service.go *)

Module Terminal.
Definition tokenPurpose : string := "server_terminal".
Definition tokenLifetime : Z := 30 * second.
Definition failureDelay : Z := 2 * second.
Definition cooldownDuration : Z := 60 * second.
Definition maximumFailures : Z := 5.
Definition maximumSubjectLen : Z := 512.
Definition maximumTokenLen : Z := 4096.
Definition WebSocketProtocol : string := "platformd-terminal-v1".
Definition WebSocketBearerPrefix : string := "platformd-bearer.".

Definition ErrInvalidPassphrase : goerr := Sentinel "ErrInvalidPassphrase" "invalid console passphrase".
Definition ErrCooldown : goerr := Sentinel "ErrCooldown" "console passphrase verification is cooling down".
Definition ErrInvalidToken : goerr := Sentinel "ErrInvalidToken" "invalid server terminal token".

Record claims := mkClaims { Version : Z; Purpose : string; Subject : string; IssuedAt : Z; ExpiresAt : Z }.
Record IssuedToken := mkIssued { Value : string; Expires : Z }.
Record Service := mkService { failures : Z; cooldownEnds : Z }.
Definition new_service : Service := mkService 0 time_zero.

(** Seconds since 1970, as [time.Time.Unix] counts them. *)
Definition Unix (t : Z) : Z := t / second - 62135596800.
Definition FromUnix (s : Z) : Z := (s + 62135596800) * second.

Class TokenCodec := {
  claims_Marshal : claims -> string;
  (** [Decode] of the strict decoder, and that nothing follows. *)
  claims_Decode : string -> option claims
}.

Definition validSubject (subject : string) : bool :=
  negb (empty subject) && (zlen subject <=? maximumSubjectLen) && bool_decide (trim_space subject = subject).

Section Terminal.
Context `{AuthLibrary} `{TokenCodec}.
Context (key : string).

Definition sign (subject : string) (now : Z) : IssuedToken :=
  let issuedAt := Unix now in
  let expiresAt := FromUnix issuedAt + tokenLifetime in
  let payload := claims_Marshal (mkClaims 1 tokenPurpose subject issuedAt (Unix expiresAt)) in
  let signingInput := "v1." +:+ base64url_Encode payload in
  mkIssued (signingInput +:+ "." +:+ base64url_Encode (hmac_sha256 key signingInput)) expiresAt.

Definition Verify (token subject : string) (now : Z) : option goerr :=
  if negb (validSubject subject) || empty token || (maximumTokenLen <? zlen token) then Some ErrInvalidToken
  else match split "."%char token with
  | [version; encoded; mac] =>
      if bool_decide (version <> "v1") || empty encoded || empty mac then Some ErrInvalidToken
      else match base64url_Decode mac with
      | None => Some ErrInvalidToken
      | Some signature =>
          if negb (zlen signature =? 32) || bool_decide (signature <> hmac_sha256 key (version +:+ "." +:+ encoded))
          then Some ErrInvalidToken
          else match base64url_Decode encoded with
          | None => Some ErrInvalidToken
          | Some payload =>
              match claims_Decode payload with
              | None => Some ErrInvalidToken
              | Some decoded =>
                  let now := Unix now in
                  if negb (Version decoded =? 1) || bool_decide (Purpose decoded <> tokenPurpose)
                     || bool_decide (Subject decoded <> subject)
                     || negb (i64 (ExpiresAt decoded - IssuedAt decoded) =? tokenLifetime / second)
                     || (now + 1 <? IssuedAt decoded) || (ExpiresAt decoded <=? now)
                  then Some ErrInvalidToken else None
              end
          end
      end
  | _ => Some ErrInvalidToken
  end.

(** The two values of Sec-WebSocket-Protocol, in any order and any split into
    headers. *)
Fixpoint pickProtocols (fixedFound : bool) (bearer : string) (protocols : list string) : option (bool * string) :=
  match protocols with
  | [] => Some (fixedFound, bearer)
  | p :: rest =>
      if bool_decide (p = WebSocketProtocol) && negb fixedFound then pickProtocols true bearer rest
      else match strip_prefix WebSocketBearerPrefix p with
      | Some b => if empty bearer then pickProtocols fixedFound b rest else None
      | None => None
      end
  end.
Definition VerifyWebSocketRequest (headers : list string) (subject : string) (now : Z) : option goerr :=
  let protocols := trim_space <$> mjoin (split ","%char <$> headers) in
  if existsb empty protocols || negb (Nat.eqb (length protocols) 2) then Some ErrInvalidToken
  else match pickProtocols false "" protocols with
  | Some (true, bearer) => if empty bearer then Some ErrInvalidToken else Verify bearer subject now
  | _ => Some ErrInvalidToken
  end.

(** What one call of [Issue] meets: the clock at its start, after the check and
    when it returns, the result of the passphrase check and of the sleep. *)
Record Attempt := mkAttempt {
  at_start : Z; at_checked : Z; at_end : Z; at_valid : result goerr bool; at_sleep : option goerr
}.

Definition startCooldownIfNeeded (now : Z) (s : Service) : Service :=
  if maximumFailures <=? failures s then mkService (failures s) (now + cooldownDuration) else s.

(** Whether the passphrase was checked is reported beside the result. *)
Definition Issue (subject : string) (value : string) (a : Attempt) (s : Service)
    : Service * result goerr IssuedToken * bool :=
  if negb (validSubject subject) || empty value then (s, Err ErrInvalidPassphrase, false)
  else if negb (is_zero (cooldownEnds s)) && (at_start a <? cooldownEnds s) then (s, Err ErrCooldown, false)
  else
    let s := if is_zero (cooldownEnds s) then s else mkService 0 time_zero in
    match at_valid a with
    | Ok true => (new_service, Ok (sign subject (at_checked a)), true)
    | _ =>
        let s := mkService (failures s + 1) (cooldownEnds s) in
        let remaining := failureDelay - time_sub (at_checked a) (at_start a) in
        let s' := startCooldownIfNeeded (at_end a) s in
        match at_sleep a with
        | Some e => if 0 <? remaining then (s', Err e, true) else (s', Err ErrInvalidPassphrase, true)
        | None => (s', Err ErrInvalidPassphrase, true)
        end
    end.
End Terminal.
End Terminal.

(** ** The limiter against the history of failures

    Abstractly the limiter is a function of the failures it was told of: a key's
    window is what replaying its own failures gives, newest first in the list.
    The maps and their sweeping are an implementation of that. *)

Module LimiterSpec.
Record Failure := mkFailure { f_at : Z; f_public : string; f_source : string }.

Fixpoint replay (mine : Failure -> bool) (history : list Failure) : failureWindowState :=
  match history with
  | [] => zeroWindow
  | f :: older =>
      let state := replay mine older in
      if mine f then increment (currentFailureWindow state (f_at f)) else state
  end.
Definition of_pair (publicID source : string) (f : Failure) : bool :=
  bool_decide (f_public f = publicID) && bool_decide (f_source f = source).
Definition of_source (source : string) (f : Failure) : bool := bool_decide (f_source f = source).

Definition spec_Permit (history : list Failure) (publicID source : string) (now : Z) : bool * Z :=
  let failures_of mine := count (currentFailureWindow (replay mine history) now) in
  if (negb (empty publicID) && (pairFailureLimit <=? failures_of (of_pair publicID source)))
     || (sourceFailureLimit <=? failures_of (of_source source))
  then (false, retryAfter) else (true, 0).

Inductive event :=
| EPermit (publicID source : string)
| EFailed (publicID source : string)
| ESucceeded (publicID source : string).

(** The answers of the [Permit] calls of a run. *)
Fixpoint run (l : Limiter) (events : list (Z * event)) : list (bool * Z) :=
  match events with
  | [] => []
  | (now, EPermit p s) :: rest => let '(l, answer) := Permit p s now l in answer :: run l rest
  | (now, EFailed p s) :: rest => run (Failed p s now l) rest
  | (now, ESucceeded p s) :: rest => run (Succeeded p s l) rest
  end.
Fixpoint spec_run (history : list Failure) (events : list (Z * event)) : list (bool * Z) :=
  match events with
  | [] => []
  | (now, EPermit p s) :: rest => spec_Permit history p s now :: spec_run history rest
  | (now, EFailed p s) :: rest => spec_run (mkFailure now p s :: history) rest
  | (_, ESucceeded _ _) :: rest => spec_run history rest
  end.
Fixpoint times_from (clock : Z) (events : list (Z * event)) : Prop :=
  match events with [] => True | (now, _) :: rest => clock <= now /\ times_from now rest end.

(** Two states are interchangeable from [clock] on. *)
Definition agree_from (clock : Z) (a b : failureWindowState) : Prop :=
  forall t, clock <= t -> currentFailureWindow a t = currentFailureWindow b t.

Definition tracks (clock : Z) (l : Limiter) (history : list Failure) : Prop :=
  (forall p s, p <> "" -> agree_from clock (pair_state l p s) (replay (of_pair p s) history))
  /\ (forall s, agree_from clock (source_state l s) (replay (of_source s) history)).

Lemma agree_from_later c c' a b : c <= c' -> agree_from c a b -> agree_from c' a b.
Proof. intros Hc Hab t Ht. apply Hab. lia. Qed.

Lemma expired_agrees now st : fresh_at now st = false -> agree_from now zeroWindow st.
Proof.
  unfold fresh_at, agree_from, currentFailureWindow. intros Hf%Z.ltb_ge t Ht.
  rewrite (proj2 (Z.ltb_ge t (startedAt st + failureWindow))) by lia.
  by rewrite orb_true_r.
Qed.

(** Sweeping a map changes no key's window from then on. *)
Lemma sweep_map_agrees `{Countable K} (m : gmap K failureWindowState) now k :
  agree_from now (default zeroWindow (filter (fun x => fresh_at now x.2 = true) m !! k)) (default zeroWindow (m !! k)).
Proof.
  rewrite map_lookup_filter. destruct (m !! k) as [st|]; [|done]. simpl.
  destruct (fresh_at now st) eqn:Hf; simpl.
  - by simplify_option_eq.
  - simplify_option_eq. by apply expired_agrees.
Qed.

Lemma sweep_tracks clock now l h :
  clock <= now -> tracks clock l h -> tracks now (sweep now l) h.
Proof.
  intros Hc [Hp Hs]. unfold sweep. destruct (now <? _).
  - split; intros; eapply agree_from_later; eauto.
  - split; intros; intros t Ht; unfold pair_state, source_state; simpl;
      rewrite sweep_map_agrees by done; [by apply Hp; [|lia]|apply Hs; lia].
Qed.

Lemma permit_tracks clock now l h p s :
  clock <= now -> tracks clock l h ->
  tracks now (Permit p s now l).1 h /\ (Permit p s now l).2 = spec_Permit h p s now.
Proof.
  intros Hc Ht. pose proof (sweep_tracks _ _ _ _ Hc Ht) as Ht'. split; [done|].
  destruct Ht' as [Hp Hs]. unfold Permit, permitted, spec_Permit. simpl.
  rewrite (Hs s now) by lia. unfold empty. case_bool_decide as He; simpl.
  - by destruct (_ <=? _).
  - rewrite (Hp p s He now) by lia. by destruct ((_ <=? _) || (_ <=? _)).
Qed.

Lemma failed_tracks clock now l h p s :
  clock <= now -> tracks clock l h -> tracks now (Failed p s now l) (mkFailure now p s :: h).
Proof.
  intros Hc [Hp Hs]. split.
  - intros p' s' Hne t Ht. unfold pair_state, Failed, of_pair. simpl. unfold empty.
    destruct (decide ((p, s) = (p', s'))) as [Heq|Hneq].
    + simplify_eq. rewrite (bool_decide_eq_false_2 (p' = "")), !bool_decide_eq_true_2 by done. simpl.
      rewrite lookup_insert_eq. simpl. fold (of_pair p' s'). by rewrite (Hp p' s' Hne now) by lia.
    + assert (bool_decide (p = p') && bool_decide (s = s') = false) as ->
        by (apply andb_false_iff; rewrite !bool_decide_eq_false; destruct (decide (p = p')); [right|left]; congruence).
      etrans; [|apply (Hp p' s' Hne t); lia]. unfold pair_state.
      case_bool_decide; [done|]. by rewrite lookup_insert_ne.
  - intros s' t Ht. unfold source_state, Failed, of_source. simpl. case_bool_decide as He.
    + subst. rewrite lookup_insert_eq. simpl. fold (of_source s'). by rewrite (Hs s' now) by lia.
    + rewrite lookup_insert_ne by done. apply (Hs s' t). lia.
Qed.

Lemma run_tracks clock l h events :
  times_from clock events -> tracks clock l h -> run l events = spec_run h events.
Proof.
  revert clock l h. induction events as [|[now e] rest IH]; [done|]. intros clock l h [Hc Hr] Ht.
  destruct e as [p s|p s|p s]; simpl.
  - destruct (permit_tracks _ _ _ _ p s Hc Ht) as [Ht' Ha].
    f_equal; [exact Ha|exact (IH _ _ _ Hr Ht')].
  - eapply IH; [done|]. by eapply failed_tracks.
  - eapply IH; [done|]. destruct Ht as [Hp Hs]. split; intros; eapply agree_from_later; eauto.
Qed.

(** C35. The limiter answers by the history of failures alone.  In any run of Permit,
    Failed and Succeeded calls whose clock does not go back, every Permit answers
    what replaying the failures of that pair and of that source gives: sweeping
    never forgets a failure that still counts, the calls for other keys change
    nothing, and a success resets nothing. *)
Theorem limiter_refines_history (created : Z) (events : list (Z * event)) :
  times_from created events -> run (newLimiter created) events = spec_run [] events.
Proof. intros Ht. by eapply run_tracks. Qed.

Definition at_second (n : Z) : Z := 1000 * minute + n * second.
Definition guessing : list (Z * event) :=
  ((fun i => (at_second i, EFailed "a" "s")) <$> seqZ 0 10)
  ++ [(at_second 20, EPermit "a" "s"); (at_second 21, ESucceeded "a" "s"); (at_second 22, EPermit "a" "s");
      (at_second 23, EPermit "b" "s"); (at_second 59, EPermit "a" "s"); (at_second 60, EPermit "a" "s")].
Lemma limiter_refines_history_witness :
  run (newLimiter (at_second (-30))) guessing = spec_run [] guessing
  /\ spec_run [] guessing = [(false, minute); (false, minute); (true, 0); (false, minute); (true, 0)].
Proof.
  split; [|by vm_compute].
  apply limiter_refines_history. vm_compute. repeat split; discriminate.
Defined.
End LimiterSpec.

(** ** Guessing against the limiter

    Requests run concurrently: each asks [Permit], checks its credential outside
    the lock and then reports.  A server that runs at most [K] of them at a time
    can let that many through before the failures of the others are counted. *)

Module Guessing.
Import LimiterSpec.
(** [attempts] is every failed attempt, newest first; the code does not keep it. *)
Record system := mkSystem {
  limiter : Limiter; clock : Z; inflight : list (string * string); attempts : list Failure
}.
Definition fresh_system (created : Z) : system := mkSystem (newLimiter created) created [] [].

Inductive step (K : Z) : system -> system -> Prop :=
| StepPermit y p s now l r :
    clock y <= now -> Z.of_nat (length (inflight y)) < K -> Permit p s now (limiter y) = (l, (true, r)) ->
    step K y (mkSystem l now ((p, s) :: inflight y) (attempts y))
| StepDeny y p s now l r :
    clock y <= now -> Permit p s now (limiter y) = (l, (false, r)) -> step K y (mkSystem l now (inflight y) (attempts y))
| StepFailed y p s now before after :
    clock y <= now -> inflight y = before ++ (p, s) :: after ->
    step K y (mkSystem (Failed p s now (limiter y)) now (before ++ after) (mkFailure now p s :: attempts y))
| StepSucceeded y p s now before after :
    clock y <= now -> inflight y = before ++ (p, s) :: after ->
    step K y (mkSystem (Succeeded p s (limiter y)) now (before ++ after) (attempts y)).

Definition pending (mine : string * string -> bool) (requests : list (string * string)) : Z :=
  Z.of_nat (length (List.filter mine requests)).
Definition pair_is (p s : string) (x : string * string) : bool := bool_decide (x = (p, s)).
Definition source_is (s : string) (x : string * string) : bool := bool_decide (x.2 = s).

Lemma pending_cons mine x l : pending mine (x :: l) = (if mine x then 1 else 0) + pending mine l.
Proof. unfold pending. simpl. destruct (mine x); simpl; lia. Qed.
Lemma pending_middle mine b x a : pending mine (b ++ x :: a) = (if mine x then 1 else 0) + pending mine (b ++ a).
Proof. induction b as [|y b IH]; simpl; rewrite !pending_cons; lia. Qed.
Lemma pending_nonneg mine l : 0 <= pending mine l.
Proof. unfold pending. lia. Qed.
Lemma pending_le mine l : pending mine l <= Z.of_nat (length l).
Proof.
  induction l as [|x l IH]; [done|]. rewrite pending_cons. simpl length. destruct (mine x); lia.
Qed.

(** A key that has [n] requests in flight cannot pass its limit by more than [K]. *)
Definition bounded (K limit t : Z) (state : failureWindowState) (n : Z) : Prop :=
  n <= K /\ count (currentFailureWindow state t) + n <= limit - 1 + K.

Lemma window_count_cases state t :
  count (currentFailureWindow state t) = count state \/ count (currentFailureWindow state t) = 0.
Proof. unfold currentFailureWindow. destruct (_ || _); auto. Qed.

Lemma window_later state t t' : t <= t' ->
  count (currentFailureWindow state t') = count (currentFailureWindow state t) \/ count (currentFailureWindow state t') = 0.
Proof.
  intros Ht. unfold currentFailureWindow. destruct (is_zero _); simpl; [auto|].
  repeat case_match; simpl; auto; lia.
Qed.

Section bounded.
Context (K limit t : Z) (Hlimit : 1 <= limit).

Lemma bounded_later t' state n : t <= t' -> bounded K limit t state n -> bounded K limit t' state n.
Proof. intros Ht [Hn Hb]. split; [done|]. destruct (window_later state t t' Ht); lia. Qed.
Lemma bounded_admit state n :
  n < K -> count (currentFailureWindow state t) < limit -> bounded K limit t state (1 + n).
Proof. unfold bounded. lia. Qed.
Lemma bounded_fail state n :
  bounded K limit t state (1 + n) -> bounded K limit t (increment (currentFailureWindow state t)) n.
Proof.
  intros [Hn Hb]. split; [lia|].
  destruct (window_count_cases (increment (currentFailureWindow state t)) t) as [E|E]; rewrite E; simpl; lia.
Qed.
Lemma bounded_release state n : bounded K limit t state (1 + n) -> bounded K limit t state n.
Proof. unfold bounded. lia. Qed.
Lemma bounded_agree state state' n :
  agree_from t state state' -> bounded K limit t state' n -> bounded K limit t state n.
Proof. intros Ha. unfold bounded. by rewrite (Ha t) by lia. Qed.
End bounded.

(** The failed attempts of a key from [from] up to but not at [to]. *)
Definition failed_between (mine : Failure -> bool) (from to : Z) (h : list Failure) : Z :=
  Z.of_nat (length (List.filter (fun f => mine f && ((from <=? f_at f) && (f_at f <? to))) h)).

Section counting.
Context (mine : Failure -> bool).
Notation between := (failed_between mine).

Lemma between_cons f from to h :
  between from to (f :: h) = (if mine f && ((from <=? f_at f) && (f_at f <? to)) then 1 else 0) + between from to h.
Proof. unfold failed_between. simpl. destruct (_ && _); simpl; lia. Qed.
Lemma between_split from mid to h : from <= mid <= to -> between from to h = between from mid h + between mid to h.
Proof.
  intros Hm. induction h as [|f h IH]; [done|]. rewrite !between_cons, IH.
  destruct (mine f); simpl; [|lia].
  destruct (Z.leb_spec from (f_at f)), (Z.ltb_spec (f_at f) mid), (Z.leb_spec mid (f_at f)), (Z.ltb_spec (f_at f) to); simpl; lia.
Qed.
Lemma between_wider from to from' to' h : from' <= from -> to <= to' -> between from to h <= between from' to' h.
Proof.
  intros Hf Ht. induction h as [|f h IH]; [done|]. rewrite !between_cons.
  destruct (mine f); simpl; [|lia].
  destruct (Z.leb_spec from (f_at f)), (Z.ltb_spec (f_at f) to), (Z.leb_spec from' (f_at f)), (Z.ltb_spec (f_at f) to'); simpl; lia.
Qed.
Lemma between_none from to h : (forall f, f ∈ h -> mine f = true -> f_at f < from) -> between from to h = 0.
Proof.
  intros Hh. induction h as [|f h IH]; [done|]. rewrite between_cons, IH by (intros; apply Hh; [by right|done]).
  destruct (mine f) eqn:E; [|done]. specialize (Hh f ltac:(by left) E). simpl.
  by rewrite (proj2 (Z.leb_gt _ _)).
Qed.

(** The window [(a, c)] of a key accounts for its failed attempts: it holds the
    latest [c] of them, at most [M], the minute before it holds at most [M], and
    so any minute holds at most twice that. *)
Record accounts (M t a c : Z) (h : list Failure) : Prop := {
  ac_zero : is_zero a = true -> forall f, f ∈ h -> mine f = false;
  ac_start : a <= t;
  ac_latest : forall f, f ∈ h -> mine f = true -> f_at f < a + failureWindow;
  ac_window : between a (a + failureWindow) h = c;
  ac_count : c <= M;
  ac_before : between (a - failureWindow) a h <= M;
  ac_minute : forall from, between from (from + failureWindow) h <= 2 * M
}.

Lemma accounts_later M t t' a c h : t <= t' -> accounts M t a c h -> accounts M t' a c h.
Proof. intros Ht []. split; try done. lia. Qed.

Lemma accounts_other M t a c h f : mine f = false -> accounts M t a c h -> accounts M t a c (f :: h).
Proof.
  intros Hf []. assert (forall from to, between from to (f :: h) = between from to h) as Hb
    by (intros; rewrite between_cons, Hf; done).
  split; intros *; rewrite ?Hb; auto.
  - intros Hz f' [->|Hin]%elem_of_cons; eauto.
  - intros [->|Hin]%elem_of_cons; [congruence|eauto].
Qed.

(** One more failure, in the window or as the first of the next one. *)
Lemma accounts_fail M t a c h f :
  0 < t -> f_at f = t -> mine f = true -> count (currentFailureWindow (mkWindow a c) t) + 1 <= M ->
  accounts M t a c h ->
  accounts M t (startedAt (currentFailureWindow (mkWindow a c) t)) (count (currentFailureWindow (mkWindow a c) t) + 1) (f :: h).
Proof.
  intros Hpos Hf Hm HM [Hz Hs Hl Hw Hc Hb Hmin]. unfold currentFailureWindow in *. simpl in *.
  assert (Hone : forall from to, between from to (f :: h) =
            (if (from <=? t) && (t <? to) then 1 else 0) + between from to h)
    by (intros; rewrite between_cons, Hm, Hf; done).
  assert (Hwindow : 0 < failureWindow) by done.
  destruct (is_zero a || negb (t <? a + failureWindow)) eqn:E; simpl in *.
  - assert (Hold : forall f', f' ∈ h -> mine f' = true -> f_at f' < t).
    { intros f' Hin Hm'. apply orb_true_iff in E as [E|E%negb_true_iff%Z.ltb_ge]; [by rewrite (Hz E f' Hin) in Hm'|].
      specialize (Hl f' Hin Hm'). lia. }
    assert (Hprev : between (t - failureWindow) t h <= M).
    { apply orb_true_iff in E as [E|E%negb_true_iff%Z.ltb_ge].
      - rewrite between_none; [lia|]. intros f' Hin Hm'. by rewrite (Hz E f' Hin) in Hm'.
      - etrans; [apply (between_wider _ _ a t); lia|]. rewrite (between_split a (a + failureWindow)) by lia.
        rewrite (between_none (a + failureWindow)) by done. lia. }
    split.
    + unfold is_zero, time_zero in *. lia.
    + done.
    + intros f' [->|Hin]%elem_of_cons Hm'; [lia|]. specialize (Hold f' Hin Hm'). lia.
    + rewrite Hone, between_none by done. destruct (Z.leb_spec t t), (Z.ltb_spec t (t + failureWindow)); simpl; lia.
    + done.
    + rewrite Hone. destruct (Z.ltb_spec t t); [lia|]. rewrite andb_false_r. lia.
    + intros from. rewrite Hone. destruct (Z.leb_spec from t), (Z.ltb_spec t (from + failureWindow)); simpl; try (specialize (Hmin from); lia).
      rewrite (between_split from t) by lia. rewrite (between_none t) by done.
      pose proof (between_wider from t (t - failureWindow) t h). lia.
  - apply orb_false_iff in E as [E1 E2%negb_false_iff%Z.ltb_lt]. split.
    + by rewrite E1.
    + done.
    + intros f' [->|Hin]%elem_of_cons Hm'; [lia|]. eauto.
    + rewrite Hone. destruct (Z.leb_spec a t), (Z.ltb_spec t (a + failureWindow)); simpl; lia.
    + done.
    + rewrite Hone. destruct (Z.ltb_spec t a); [lia|]. rewrite andb_false_r. lia.
    + intros from. rewrite Hone. destruct (Z.leb_spec from t), (Z.ltb_spec t (from + failureWindow)); simpl; try (specialize (Hmin from); lia).
      destruct (Z.leb_spec from a).
      * rewrite (between_split from a) by lia.
        pose proof (between_wider from a (a - failureWindow) a h). pose proof (between_wider a (from + failureWindow) a (a + failureWindow) h). lia.
      * rewrite (between_split from (a + failureWindow)) by lia. rewrite (between_none (a + failureWindow)) by done.
        pose proof (between_wider from (a + failureWindow) a (a + failureWindow) h).
        assert (0 <= between a (a + failureWindow) h) by (unfold failed_between; lia). lia.
Qed.
End counting.

Definition tally (mine : Failure -> bool) (M t : Z) (state : failureWindowState) (h : list Failure) : Prop :=
  exists a c, agree_from t state (mkWindow a c) /\ accounts mine M t a c h.

(** A key's state bounds the requests in flight and accounts for the failures. *)
Definition within (K limit t : Z) (state : failureWindowState) (n : Z) (mine : Failure -> bool) (h : list Failure) : Prop :=
  bounded K limit t state n /\ tally mine (limit - 1 + K) t state h.

Section within.
Context (K limit t : Z) (mine : Failure -> bool).

Lemma within_initial : 0 <= K -> 1 <= limit -> 0 < t -> within K limit t zeroWindow 0 mine [].
Proof.
  intros HK Hl Ht. split; [split; [done|]; simpl; lia|]. exists time_zero, 0. split; [done|].
  split; unfold failed_between, time_zero; simpl; try done; try lia.
  - by intros _ f Hf%not_elem_of_nil.
  - by intros f Hf%not_elem_of_nil.
Qed.
Lemma within_later t' state n h : 1 <= limit -> t <= t' -> within K limit t state n mine h -> within K limit t' state n mine h.
Proof.
  intros Hl Ht [Hb (a & c & Ha & Hc)]. split; [by apply (bounded_later K limit t)|].
  exists a, c. split; [by eapply agree_from_later|by eapply accounts_later].
Qed.
Lemma within_agree state state' n h :
  agree_from t state state' -> within K limit t state' n mine h -> within K limit t state n mine h.
Proof.
  intros Ha [Hb (a & c & Ha' & Hc)]. split; [by eapply bounded_agree|]. exists a, c. split; [|done].
  intros u Hu. by rewrite (Ha u Hu), (Ha' u Hu).
Qed.
Lemma within_admit state n h :
  n < K -> count (currentFailureWindow state t) < limit -> within K limit t state n mine h ->
  within K limit t state (1 + n) mine h.
Proof. intros Hn Hc [_ Ht]. split; [by apply bounded_admit|done]. Qed.
Lemma within_release state n h : within K limit t state (1 + n) mine h -> within K limit t state n mine h.
Proof. intros [Hb Ht]. split; [by apply bounded_release|done]. Qed.
Lemma within_other state n h f : mine f = false -> within K limit t state n mine h -> within K limit t state n mine (f :: h).
Proof. intros Hf [Hb (a & c & Ha & Hc)]. split; [done|]. exists a, c. split; [done|by apply accounts_other]. Qed.
Lemma within_fail state n h f :
  1 <= limit -> 0 <= n -> 0 < t -> f_at f = t -> mine f = true -> within K limit t state (1 + n) mine h ->
  within K limit t (increment (currentFailureWindow state t)) n mine (f :: h).
Proof.
  intros Hl Hn Ht Hf Hm [Hb (a & c & Ha & Hc)]. split; [by apply bounded_fail|].
  destruct Hb as [_ Hb]. rewrite (Ha t) in * by lia. do 2 eexists.
  split; [|apply accounts_fail; [done|done|done| |exact Hc]; lia]. done.
Qed.
End within.

Definition inv (K : Z) (y : system) : Prop :=
  0 < clock y
  /\ Z.of_nat (length (inflight y)) <= K
  /\ (forall p s, p <> "" -> within K pairFailureLimit (clock y) (pair_state (limiter y) p s)
                               (pending (pair_is p s) (inflight y)) (of_pair p s) (attempts y))
  /\ (forall s, within K sourceFailureLimit (clock y) (source_state (limiter y) s)
                  (pending (source_is s) (inflight y)) (of_source s) (attempts y)).

Lemma inv_initial K now : 0 <= K -> 0 < now -> inv K (fresh_system now).
Proof.
  intros HK Hn. split_and!; [done|done|..]; intros; unfold pair_state, source_state; simpl; rewrite lookup_empty;
    by apply within_initial.
Qed.

Lemma inv_later K y now : clock y <= now -> inv K y -> inv K (mkSystem (limiter y) now (inflight y) (attempts y)).
Proof.
  intros Hc (Hpos & Hl & Hp & Hs). split_and!; simpl; [lia|done|..]; intros; eapply within_later; try done; eauto.
Qed.

Lemma inv_sweep K y : inv K y -> inv K (mkSystem (sweep (clock y) (limiter y)) (clock y) (inflight y) (attempts y)).
Proof.
  intros (Hpos & Hl & Hp & Hs). unfold sweep. destruct (_ <? _); [done|].
  split_and!; [done|done|..]; intros; eapply within_agree; try apply sweep_map_agrees; [by apply Hp|apply Hs].
Qed.

Lemma inv_admit K y p s :
  inv K y -> Z.of_nat (length (inflight y)) < K -> permitted (limiter y) p s (clock y) = true ->
  inv K (mkSystem (limiter y) (clock y) ((p, s) :: inflight y) (attempts y)).
Proof.
  intros (Hpos & Hl & Hp & Hs) HK Hok. unfold permitted in Hok.
  apply negb_true_iff, orb_false_iff in Hok as [Hpair Hsource%Z.leb_gt].
  split_and!; [done|simpl; lia|..].
  - intros p' s' Hne. simpl. rewrite pending_cons. unfold pair_is at 1. case_bool_decide as E; [|by apply Hp].
    simplify_eq. apply within_admit; [pose proof (pending_le (pair_is p' s') (inflight y)); lia| |by apply Hp].
    unfold empty in Hpair. rewrite bool_decide_eq_false_2 in Hpair by done. simpl in Hpair. lia.
  - intros s'. simpl. rewrite pending_cons. unfold source_is at 1. case_bool_decide as E; [|by apply Hs].
    simpl in E. subst. apply within_admit; [pose proof (pending_le (source_is s') (inflight y)); lia|done|by apply Hs].
Qed.

Lemma of_pair_is t p s p' s' : of_pair p s (mkFailure t p' s') = pair_is p s (p', s').
Proof. unfold of_pair, pair_is. simpl. do 3 case_bool_decide; simpl; congruence. Qed.
Lemma of_source_is t s p' s' : of_source s (mkFailure t p' s') = source_is s (p', s').
Proof. done. Qed.

Lemma pair_state_Failed l p s now p' s' : p' <> "" ->
  pair_state (Failed p s now l) p' s'
  = if pair_is p' s' (p, s) then increment (currentFailureWindow (pair_state l p' s') now) else pair_state l p' s'.
Proof.
  intros Hne. unfold pair_state at 1, Failed, pair_is. simpl. unfold empty. case_bool_decide as Hp; case_bool_decide as E.
  - by simplify_eq.
  - done.
  - simplify_eq. by rewrite lookup_insert_eq.
  - by rewrite lookup_insert_ne.
Qed.
Lemma source_state_Failed l p s now s' :
  source_state (Failed p s now l) s'
  = if source_is s' (p, s) then increment (currentFailureWindow (source_state l s') now) else source_state l s'.
Proof.
  unfold source_state at 1, Failed, source_is. simpl. case_bool_decide as E.
  - subst. by rewrite lookup_insert_eq.
  - by rewrite lookup_insert_ne.
Qed.

Lemma inv_failed K y p s before after :
  inflight y = before ++ (p, s) :: after -> inv K y ->
  inv K (mkSystem (Failed p s (clock y) (limiter y)) (clock y) (before ++ after) (mkFailure (clock y) p s :: attempts y)).
Proof.
  intros E (Hpos & Hl & Hp & Hs). rewrite E in Hl. split_and!; [done|..].
  - simpl. rewrite length_app in *. simpl in Hl. lia.
  - intros p' s' Hne. specialize (Hp p' s' Hne). rewrite E, pending_middle in Hp. simpl.
    rewrite pair_state_Failed by done. destruct (pair_is p' s' (p, s)) eqn:Hm.
    + apply within_fail; [done|apply pending_nonneg|done|done|by rewrite of_pair_is|done].
    + apply within_other; [by rewrite of_pair_is|done].
  - intros s'. specialize (Hs s'). rewrite E, pending_middle in Hs. simpl.
    rewrite source_state_Failed. destruct (source_is s' (p, s)) eqn:Hm.
    + apply within_fail; [done|apply pending_nonneg|done..].
    + by apply within_other.
Qed.

Lemma inv_succeeded K y p s before after :
  inflight y = before ++ (p, s) :: after -> inv K y ->
  inv K (mkSystem (limiter y) (clock y) (before ++ after) (attempts y)).
Proof.
  intros E (Hpos & Hl & Hp & Hs). rewrite E in Hl. split_and!; [done|..].
  - simpl. rewrite length_app in *. simpl in Hl. lia.
  - intros p' s' Hne. specialize (Hp p' s' Hne). rewrite E, pending_middle in Hp. simpl.
    destruct (pair_is _ _ _); [by apply within_release|done].
  - intros s'. specialize (Hs s'). rewrite E, pending_middle in Hs. simpl.
    destruct (source_is _ _); [by apply within_release|done].
Qed.

Lemma Permit_split p s now l l' ok r :
  Permit p s now l = (l', (ok, r)) -> l' = sweep now l /\ permitted l' p s now = ok.
Proof. unfold Permit. intros [= <- E]. split; [done|]. by destruct (permitted _ _ _ _); simplify_eq. Qed.

Lemma guess_inv_step K y y' : step K y y' -> inv K y -> inv K y'.
Proof.
  intros Hstep Hinv.
  destruct Hstep as [y p s now l r Hc HK HP|y p s now l r Hc HP|y p s now b a Hc E|y p s now b a Hc E];
    pose proof (inv_later K y now Hc Hinv) as Hl.
  - apply Permit_split in HP as [-> Hok]. apply inv_sweep in Hl. simpl in Hl.
    by apply (inv_admit K _ p s) in Hl.
  - apply Permit_split in HP as [-> _]. by apply inv_sweep in Hl.
  - exact (inv_failed K (mkSystem _ now _ _) p s b a E Hl).
  - exact (inv_succeeded K (mkSystem _ now _ _) p s b a E Hl).
Qed.

Lemma guess_inv_reachable K y y' : rtc (step K) y y' -> inv K y -> inv K y'.
Proof. induction 1; eauto using guess_inv_step. Qed.

(** C36. The failure limiter bounds guessing under any interleaving.  However
    requests arrive, at most K of them in flight, and however their checks
    interleave with the limiter, within any one minute fewer than 2 (10 + K)
    attempts fail for one public ID from one source, and fewer than 2 (100 + K)
    from one source over all public IDs.  The factor two is the minute that
    spans the end of one window and the start of the next. *)
Theorem guesses_bounded (K created from : Z) (y : system) (p s : string) :
  0 <= K -> 0 < created -> p <> "" -> rtc (step K) (fresh_system created) y ->
  failed_between (of_pair p s) from (from + minute) (attempts y) < 2 * (10 + K)
  /\ failed_between (of_source s) from (from + minute) (attempts y) < 2 * (100 + K).
Proof.
  intros HK Hcr Hne Hr. destruct (guess_inv_reachable _ _ _ Hr (inv_initial K created HK Hcr)) as (_ & _ & Hp & Hs).
  destruct (Hp p s Hne) as [_ (a & c & _ & Hpa)], (Hs s) as [_ (a' & c' & _ & Hsa)].
  pose proof (ac_minute _ _ _ _ _ _ Hpa from) as H1. pose proof (ac_minute _ _ _ _ _ _ Hsa from) as H2.
  unfold pairFailureLimit, sourceFailureLimit, failureWindow in *. lia.
Qed.

(** A whole [authenticate] call is such a run, so that the bound is about requests. *)
Lemma authenticate_steps `{AuthLibrary} K key credential y request now later :
  clock y <= now -> now <= later -> Z.of_nat (length (inflight y)) < K ->
  exists c h, rtc (step K) y (mkSystem (Authenticator.authenticate key credential request now later (limiter y)).1 c (inflight y) h).
Proof.
  intros Hc Hl HK. unfold Authenticator.authenticate.
  set (source := Authenticator.sourceAddress request).
  destruct (Authenticator.bearerCredential (Authenticator.Authorization request)) as [[p secret] parseErr].
  destruct (Permit p source now (limiter y)) as [l [[|] r]] eqn:HP; simpl.
  - assert (Hfail : exists c h, rtc (step K) y (mkSystem (Failed p source later l) c (inflight y) h)).
    { do 2 eexists. eapply rtc_l; [exact (StepPermit K y p source now l r Hc HK HP)|].
      apply rtc_once. exact (StepFailed K (mkSystem l now _ _) p source later [] (inflight y) Hl eq_refl). }
    destruct parseErr; [done|].
    destruct (credential p) as [cred|]; [|done].
    destruct (_ || _); [done|]. do 2 eexists.
    eapply rtc_l; [exact (StepPermit K y p source now l r Hc HK HP)|].
    apply rtc_once. exact (StepSucceeded K (mkSystem l now _ _) p source later [] (inflight y) Hl eq_refl).
  - do 2 eexists. apply rtc_once. exact (StepDeny K y p source now l r Hc HP).
Qed.

(** Two concurrent guesses of one token, both failing. *)
Definition two_guesses : system :=
  mkSystem (Failed "a" "s" (at_second 2) (Failed "a" "s" (at_second 1) (newLimiter (at_second 0)))) (at_second 2) []
    [mkFailure (at_second 2) "a" "s"; mkFailure (at_second 1) "a" "s"].
Lemma guesses_bounded_witness :
  failed_between (of_pair "a" "s") (at_second 0) (at_second 0 + minute) (attempts two_guesses) = 2
  /\ failed_between (of_pair "a" "s") (at_second 0) (at_second 0 + minute) (attempts two_guesses) < 2 * (10 + 2).
Proof.
  split; [by vm_compute|].
  refine (proj1 (guesses_bounded 2 (at_second 0) (at_second 0) two_guesses "a" "s" ltac:(lia) ltac:(done) ltac:(done) _)).
  eapply rtc_l; [eapply (StepPermit _ _ "a" "s" (at_second 0)); [reflexivity|reflexivity|reflexivity]|].
  eapply rtc_l; [eapply (StepPermit _ _ "a" "s" (at_second 0)); [reflexivity|reflexivity|reflexivity]|].
  eapply rtc_l; [eapply (StepFailed _ _ "a" "s" (at_second 1) [] [("a", "s")]); [by vm_compute|reflexivity]|].
  eapply rtc_l; [eapply (StepFailed _ _ "a" "s" (at_second 2) [] []); [by vm_compute|reflexivity]|].
  apply rtc_refl.
Defined.
End Guessing.

(** ** API tokens are what was generated *)

Module TokenProofs.
Section TokenProofs.
Context `{AuthLibrary}.

(** The pattern of CUID2: lower-case letters and digits. *)
Definition cuid_byte (c : ascii) : bool := is_lower c || is_digit c.
Definition CuidPattern : Prop := forall v, cuid2_IsCuid v = true -> str_forall cuid_byte v = true.

Lemma secret_length bytes :
  zlen bytes = Token.secretSize -> zlen (base64url_Encode bytes) = Token.encodedSecretSize.
Proof. intros Hb. pose proof (base64_length bytes). unfold Token.secretSize, Token.encodedSecretSize in *. lia. Qed.

Lemma zlen_app s t : zlen (s +:+ t) = zlen s + zlen t.
Proof. unfold zlen. rewrite app_length_str. lia. Qed.

(** API tokens round trip.  Parse accepts a text exactly when Generate gives it
    for that public ID, that secret and some 32 random bytes; so a generated token
    is read back as its own public ID and secret, and no second text of a token is
    accepted. *)
Theorem token_roundtrip (value publicID secret : string) :
  CuidPattern ->
  Token.Parse value = Ok (publicID, secret)
  <-> exists bytes, zlen bytes = Token.secretSize /\ Token.Generate publicID (Ok bytes) = Ok (value, secret).
Proof.
  intros Hcuid. unfold Token.Parse, Token.Generate. split.
  - destruct (strip_prefix Token.prefix value) as [rest|] eqn:Hpre; [|done].
    apply strip_prefix_app in Hpre as ->. destruct (zlen _ =? Token.tokenSize); [simpl|done].
    destruct (cut _ rest) as [[p s] found] eqn:Hcut. apply cut_spec in Hcut as ->.
    destruct found; [simpl|done]. destruct (Token.Valid p) eqn:Hv; [simpl|done].
    destruct (zlen s =? _); [simpl|done]. destruct (base64url_Decode s) as [bytes|] eqn:Hd; [|done].
    destruct (Z.eqb_spec (zlen bytes) Token.secretSize); [simpl|done]. case_bool_decide as Hs; [done|].
    intros [= <- <-]. exists bytes. split; [done|]. rewrite Hv. simpl.
    by rewrite Hs.
  - intros (bytes & Hb & Hg). destruct (Token.Valid publicID) eqn:Hv; [|done]. simpl in Hg.
    assert (value = Token.prefix +:+ (publicID +:+ String "_" (base64url_Encode bytes))
            /\ secret = base64url_Encode bytes) as [-> ->] by (injection Hg as <- <-; done).
    rewrite strip_prefix_self. pose proof (secret_length bytes Hb) as Hlen.
    pose proof Hv as Hv'. unfold Token.Valid in Hv'. apply andb_true_iff in Hv' as [Hpl%Z.eqb_eq Hpc].
    assert (Hz : zlen (Token.prefix +:+ (publicID +:+ String "_" (base64url_Encode bytes))) = Token.tokenSize).
    { change (String "_" (base64url_Encode bytes)) with ("_" +:+ base64url_Encode bytes).
      rewrite !zlen_app, Hpl, Hlen. reflexivity. }
    rewrite Hz, Z.eqb_refl. simpl. rewrite (cut_app cuid_byte) by auto.
    rewrite Hv, Hlen. simpl. rewrite base64_roundtrip, Hb. simpl. by rewrite bool_decide_eq_false_2 by auto.
Qed.
End TokenProofs.
End TokenProofs.

(** ** Terminal tokens and passphrase guesses *)

Module TerminalProofs.
Import Terminal.
Section TerminalProofs.
Context `{AuthLibrary} `{TokenCodec}.
Context (key : string).

(** What the code relies on: HMAC-SHA-256 gives 32 bytes, and JSON gives back
    claims whose subject it can carry unchanged. *)
Definition MacLength : Prop := forall k d, zlen (hmac_sha256 k d) = 32.
Definition json_exact (subject : string) : Prop :=
  forall issued expires, let c := mkClaims 1 tokenPurpose subject issued expires in
  claims_Decode (claims_Marshal c) = Some c.

Lemma Unix_expires s : Unix (FromUnix s + tokenLifetime) = s + 30.
Proof.
  unfold Unix, FromUnix, tokenLifetime.
  rewrite <- Z.mul_add_distr_r, Z.div_mul by done. lia.
Qed.

Lemma letter_not_dot : is_letter "."%char = false.
Proof. reflexivity. Qed.

Lemma encoded_nonempty s : s <> "" -> empty (base64url_Encode s) = false.
Proof.
  intros Hs. apply bool_decide_eq_false_2. intros E.
  pose proof (base64_roundtrip s) as Hr. rewrite E in Hr. by injection Hr as <-.
Qed.

(** The parts of a signed token. *)
Lemma sign_split subject now :
  let encoded := base64url_Encode (claims_Marshal (mkClaims 1 tokenPurpose subject (Unix now) (Unix now + 30))) in
  Value (sign key subject now) = "v1." +:+ encoded +:+ "." +:+ base64url_Encode (hmac_sha256 key ("v1." +:+ encoded))
  /\ split "."%char (Value (sign key subject now))
     = ["v1"; encoded; base64url_Encode (hmac_sha256 key ("v1." +:+ encoded))].
Proof.
  intros encoded. unfold sign. rewrite Unix_expires. fold encoded. simpl Value.
  rewrite app_assoc_str. split; [done|].
  set (mac := base64url_Encode (hmac_sha256 key _)).
  change ("v1." +:+ encoded +:+ "." +:+ mac) with ("v1" +:+ String "." (encoded +:+ String "." mac)).
  rewrite (split_app (fun c => negb (Ascii.eqb c "."))) by done.
  rewrite (split_app is_letter), (split_single is_letter) by (apply base64_letters || done). done.
Qed.

(** A terminal token works for its subject and its half minute.  A token signed
    at [issued] verifies at [now] exactly when the subject is the same, the clock
    is at most one second behind the second of issue, and thirty seconds from
    that second are not over. *)
Theorem issued_token_window (subject subject' : string) (issued now : Z) :
  MacLength -> json_exact subject -> claims_Marshal (mkClaims 1 tokenPurpose subject (Unix issued) (Unix issued + 30)) <> "" ->
  validSubject subject = true -> zlen (Value (sign key subject issued)) <= maximumTokenLen ->
  Verify key (Value (sign key subject issued)) subject' now = None
  <-> subject' = subject /\ Unix issued <= Unix now + 1 /\ Unix now < Unix issued + 30.
Proof.
  intros Hmac Hjson Hne Hsub Hlen. destruct (sign_split subject issued) as [Hv Hsplit].
  set (encoded := base64url_Encode _) in *. set (mac := base64url_Encode (hmac_sha256 _ _)) in *.
  unfold Verify. rewrite Hsplit.
  assert (empty (Value (sign key subject issued)) = false) as -> by (apply bool_decide_eq_false_2; by rewrite Hv).
  rewrite (proj2 (Z.ltb_ge _ _) Hlen), !orb_false_r, bool_decide_eq_false_2 by auto.
  assert (empty encoded = false) as -> by by apply encoded_nonempty.
  assert (empty mac = false) as ->.
  { apply encoded_nonempty. intros E. pose proof (Hmac key ("v1." +:+ encoded)) as Hl. by rewrite E in Hl. }
  unfold mac, encoded. rewrite !base64_roundtrip, Hmac. fold encoded. simpl.
  rewrite (bool_decide_eq_false_2 (hmac_sha256 _ _ <> _)) by (intros Hx; by apply Hx).
  rewrite Hjson. simpl.
  replace (Unix issued + 30 - Unix issued) with 30 by lia. simpl.
  destruct (decide (subject' = subject)) as [->|Hd].
  - rewrite Hsub, bool_decide_eq_false_2 by (intros Hx; by apply Hx). simpl.
    destruct (Z.ltb_spec (Unix now + 1) (Unix issued)), (Z.leb_spec (Unix issued + 30) (Unix now)); simpl;
      (split; [intros; try done; split_and!; try done; lia|intros (_ & ? & ?); try done; lia]).
  - rewrite bool_decide_eq_true_2 by congruence. simpl.
    split; [by destruct (negb _)|intros [? _]; congruence].
Qed.

(** Only the holder of the key makes tokens: an accepted one carries a signature of
    its own text, and its claims are those [sign] writes. *)
Lemma accepted_token_signed token subject now :
  Verify key token subject now = None ->
  exists encoded mac payload c,
    token = "v1." +:+ encoded +:+ "." +:+ mac
    /\ base64url_Decode mac = Some (hmac_sha256 key ("v1." +:+ encoded))
    /\ base64url_Decode encoded = Some payload /\ claims_Decode payload = Some c
    /\ Version c = 1 /\ Purpose c = tokenPurpose /\ Subject c = subject
    /\ IssuedAt c <= Unix now + 1 /\ Unix now < ExpiresAt c.
Proof.
  unfold Verify. destruct (_ || _ || _); [done|].
  destruct (split _ token) as [|version [|encoded [|mac [|]]]] eqn:Hsplit; try done.
  pose proof (join_split "."%char token) as Hj. rewrite Hsplit in Hj.
  case_bool_decide as Hv; [done|]. simplify_eq. destruct (empty encoded || empty mac) eqn:He; [|].
  { simpl. by rewrite He. }
  simpl. rewrite He. destruct (base64url_Decode mac) as [signature|] eqn:Hm; [|done].
  destruct (_ =? 32); [simpl|done]. case_bool_decide as Hs; [done|]. simplify_eq.
  destruct (base64url_Decode encoded) as [payload|] eqn:Hp; [|done].
  destruct (claims_Decode payload) as [c|] eqn:Hc; [|done].
  destruct (_ || _ || _ || _ || _ || _) eqn:Hbad; [done|]. intros _. btrue.
  exists encoded, mac, payload, c.
  split_and!; done || lia || by apply dec_stable.
Qed.

(** A series of calls of [Issue], one after the other as the mutex has them, and
    how many of them check a passphrase. *)
Record Call := mkCall { c_subject : string; c_value : string; c_attempt : Attempt }.
Fixpoint issue_run (calls : list Call) (s : Service) : Service * Z :=
  match calls with
  | [] => (s, 0)
  | c :: rest =>
      let '(s, _, checked) := Issue key (c_subject c) (c_value c) (c_attempt c) s in
      let '(s, n) := issue_run rest s in (s, (if checked then 1 else 0) + n)
  end.
Fixpoint ordered_from (t : Z) (calls : list Call) (finish : Z) : Prop :=
  match calls with
  | [] => t <= finish
  | c :: rest =>
      let a := c_attempt c in
      t <= at_start a /\ at_start a <= at_checked a /\ at_checked a <= at_end a /\ ordered_from (at_end a) rest finish
  end.
Definition wrong (c : Call) : Prop := at_valid (c_attempt c) <> Ok true.

(** After [n] checks since [t0], [k] cooldowns have passed by the time [t]. *)
Definition paced (t0 t : Z) (s : Service) (n : Z) : Prop :=
  exists k, 0 <= k /\ k * cooldownDuration <= t - t0 /\
  ((cooldownEnds s = 0 /\ 0 <= failures s < maximumFailures /\ n = maximumFailures * k + failures s)
   \/ (failures s = maximumFailures /\ n = maximumFailures * (k + 1)
       /\ t0 + (k + 1) * cooldownDuration <= cooldownEnds s)).

Lemma paced_later t0 t t' s n : t <= t' -> paced t0 t s n -> paced t0 t' s n.
Proof. intros Ht (k & Hk & Hb & Hc). exists k. split_and!; [done|lia|done]. Qed.

Lemma paced_failure t0 t0' t s n f :
  0 < t0 -> t0' <= t -> 0 <= f < maximumFailures ->
  (exists k, 0 <= k /\ k * cooldownDuration <= t0' - t0 /\ n = maximumFailures * k + f) ->
  s = startCooldownIfNeeded t (mkService (f + 1) 0) -> paced t0 t s (n + 1).
Proof.
  intros Hpos Ht Hf (k & Hk & Hb & ->) ->. exists k. unfold startCooldownIfNeeded. simpl.
  split_and!; [done|lia|].
  unfold maximumFailures, cooldownDuration, second in *.
  destruct (Z.leb_spec 5 (f + 1)); simpl; [right|left]; split_and!; lia.
Qed.

Lemma paced_issue t0 t s n c :
  0 < t0 -> t <= at_start (c_attempt c) -> at_start (c_attempt c) <= at_checked (c_attempt c) ->
  at_checked (c_attempt c) <= at_end (c_attempt c) -> wrong c -> paced t0 t s n ->
  let '(s', _, checked) := Issue key (c_subject c) (c_value c) (c_attempt c) s in
  paced t0 (at_end (c_attempt c)) s' (n + if checked then 1 else 0).
Proof.
  intros Hpos Hs Hc He Hw Hp. unfold Issue.
  assert (Hlater : paced t0 (at_end (c_attempt c)) s n) by (eapply paced_later; [|done]; lia).
  destruct (_ || _); [by rewrite Z.add_0_r|].
  destruct (negb (is_zero (cooldownEnds s)) && _) eqn:Hcool; [by rewrite Z.add_0_r|].
  set (s1 := if is_zero (cooldownEnds s) then s else mkService 0 time_zero).
  assert (Hs1 : cooldownEnds s1 = 0 /\ 0 <= failures s1 < maximumFailures /\
    exists k, 0 <= k /\ k * cooldownDuration <= at_start (c_attempt c) - t0 /\ n = maximumFailures * k + failures s1).
  { destruct Hp as (k & Hk & Hb & Hcase). unfold s1, is_zero, time_zero in *.
    destruct (Z.eqb_spec (cooldownEnds s) 0) as [Hz|Hz]; simpl in Hcool.
    - destruct Hcase as [(_ & Hf & Hn)|(_ & _ & Hends)].
      + split_and!; try done; try lia. exists k. split_and!; lia.
      + unfold cooldownDuration, second in *. lia.
    - apply Z.ltb_ge in Hcool. destruct Hcase as [[Hz' _]|(_ & Hn & Hends)]; [done|].
      split_and!; try done. exists (k + 1). simpl. split_and!; lia. }
  destruct Hs1 as (Hz & Hf & Hk). rewrite Hz.
  assert (Hnext : paced t0 (at_end (c_attempt c))
    (startCooldownIfNeeded (at_end (c_attempt c)) (mkService (failures s1 + 1) 0)) (n + 1)).
  { eapply (paced_failure t0 (at_start (c_attempt c))); [done|lia|done|done|done]. }
  unfold wrong in Hw. destruct (at_valid (c_attempt c)) as [[|]|]; [done|..];
    destruct (at_sleep _); try destruct (0 <? failureDelay - _); exact Hnext.
Qed.

(** Guessing the console passphrase is slow.  However many calls of Issue are
    made one after the other from a fresh service, as long as none has the right
    passphrase at most five are checked per started minute: in [finish - t0] no
    more than 5 * (1 + minutes) passphrases are tried. *)
Theorem passphrase_guess_rate (t0 finish : Z) (calls : list Call) :
  0 < t0 -> ordered_from t0 calls finish -> Forall wrong calls ->
  (issue_run calls new_service).2 <= maximumFailures * (1 + (finish - t0) / cooldownDuration).
Proof.
  intros Hpos Hord Hw.
  assert (Hgen : forall t s n, ordered_from t calls finish -> paced t0 t s n ->
    paced t0 finish (issue_run calls s).1 (n + (issue_run calls s).2)).
  { clear Hord. induction Hw as [|c rest Hwc Hw IH]; intros t s n Hord Hp; simpl in *.
    - rewrite Z.add_0_r. by eapply paced_later.
    - destruct Hord as (H1 & H2 & H3 & H4). pose proof (paced_issue _ _ _ _ c Hpos H1 H2 H3 Hwc Hp) as Hn.
      destruct (Issue _ _ _ _ s) as [[s' r] checked]. specialize (IH _ _ _ H4 Hn).
      destruct (issue_run rest s') as [s'' n']. simpl in *. by rewrite Z.add_assoc. }
  destruct (Hgen t0 new_service 0 Hord) as (k & Hk & Hb & Hc).
  { exists 0. split_and!; [done|lia|]. left. done. }
  rewrite Z.add_0_l in Hc. assert (k <= (finish - t0) / cooldownDuration) by (apply Z.div_le_lower_bound; [done|lia]).
  unfold maximumFailures in *. lia.
Qed.
End TerminalProofs.
End TerminalProofs.

(** ** A concrete instance *)

Module AuthDemo.
Import Terminal TerminalProofs TokenProofs.
Fixpoint pad_to (n : nat) (s : string) : string :=
  match n, s with
  | O, _ => ""
  | S n, String c s => String c (pad_to n s)
  | S n, EmptyString => String "x" (pad_to n "")
  end.
(** The last bytes of the data, which are enough here to tell two texts apart. *)
Definition demo_mac (key data : string) : string := pad_to 32 (key +:+ String.rev data).
Definition demo_cuid (v : string) : bool := (2 <=? zlen v) && (zlen v <=? 32) && str_forall cuid_byte v.
Definition demo_library : AuthLibrary :=
  {| hmac_sha256 := demo_mac; cuid2_IsCuid := demo_cuid;
     canonical_address := Some; SplitHostPort := fun s => Some s |}.

Fixpoint digits_of (p : positive) : string :=
  match p with xH => "" | xO p => String "0" (digits_of p) | xI p => String "1" (digits_of p) end.
Fixpoint of_digits (s : string) : positive :=
  match s with
  | EmptyString => xH
  | String c s => if Ascii.eqb c "0" then xO (of_digits s) else xI (of_digits s)
  end.
Definition demo_codec : TokenCodec :=
  {| claims_Marshal := fun c => String "{" (digits_of (encode (IssuedAt c, ExpiresAt c, Subject c)));
     claims_Decode := fun s => match s with
       | String _ s => (fun '(i, e, sub) => mkClaims 1 tokenPurpose sub i e) <$> decode (of_digits s)
       | EmptyString => None
       end |}.
#[local] Existing Instances demo_library demo_codec.

Lemma of_digits_of p : of_digits (digits_of p) = p.
Proof. induction p; simpl; congruence. Qed.
Lemma pad_to_length n s : String.length (pad_to n s) = n.
Proof. revert s. induction n; intros [|c s]; simpl; auto. Qed.
Lemma demo_mac_length : MacLength.
Proof. intros k d. unfold zlen. simpl hmac_sha256. unfold demo_mac. by rewrite pad_to_length. Qed.
Lemma demo_json subject : json_exact subject.
Proof. intros i e. simpl. by rewrite of_digits_of, decode_encode. Qed.
Lemma demo_cuid_pattern : CuidPattern.
Proof. intros v Hv. simpl in Hv. unfold demo_cuid in Hv. btrue. done. Qed.

Definition demo_time : Z := 63900000000 * second + 700000000.
Lemma issued_token_window_witness :
  Verify "k" (Value (sign "k" "admin@example.com" demo_time)) "admin@example.com" (demo_time + 29 * second) = None
  /\ Verify "k" (Value (sign "k" "admin@example.com" demo_time)) "admin@example.com" (demo_time + 30 * second) = Some ErrInvalidToken
  /\ Verify "k" (Value (sign "k" "admin@example.com" demo_time)) "root@example.com" demo_time = Some ErrInvalidToken.
Proof.
  split_and!; [|by vm_compute..].
  apply (issued_token_window "k" "admin@example.com" "admin@example.com" demo_time (demo_time + 29 * second)
    demo_mac_length (demo_json _)); [done|by vm_compute..|split_and!; by vm_compute].
Defined.

Definition demo_secret : string := pad_to 32 "0123456789".
Definition demo_token : string := "ptk_abcdefghijklmnopqrstuvwx_" +:+ base64url_Encode demo_secret.
Lemma token_roundtrip_witness :
  Token.Parse demo_token = Ok ("abcdefghijklmnopqrstuvwx", base64url_Encode demo_secret)
  /\ Token.Parse (demo_token +:+ "A") = Err (Msg "API token prefix is invalid").
Proof.
  split; [|by vm_compute]. apply (token_roundtrip _ _ _ demo_cuid_pattern).
  exists demo_secret. split; by vm_compute.
Defined.

(** Seven wrong guesses, ten seconds apart: the cooldown stops the sixth. *)
Definition demo_guess (i : Z) : Call :=
  let t := demo_time + i * (10 * second) in
  mkCall "admin@example.com" "guess" (mkAttempt t (t + second) (t + 2 * second) (Ok false) None).
Definition demo_guesses : list Call := demo_guess <$> seqZ 0 7.
Lemma passphrase_guess_rate_witness :
  (issue_run "k" demo_guesses new_service).2 = 5
  /\ (issue_run "k" demo_guesses new_service).2
     <= maximumFailures * (1 + (demo_time + 70 * second - demo_time) / cooldownDuration).
Proof.
  split; [by vm_compute|].
  apply passphrase_guess_rate; [by vm_compute|vm_compute; repeat split; discriminate|].
  repeat constructor; discriminate.
Defined.
End AuthDemo.
