(* ===== verification/Variables.v ===== *)
(** * Variables: internal/variableexpression, resourcevariables, domainvariables
    and the resolution of internal/daemon/resource_variables.go

    Environment values may refer to outputs of the project's resources as
    [${{resource.OUTPUT}}].  The resolver expands them recursively, with a cache
    and a set of the variables being resolved that stops cycles. *)

From stdpp Require Import pretty.
From Stdlib Require Import Ascii.
From S2P Require Import Prelude Names ServiceConfig DeploymentStore.

(** ** variableexpression/expression.go *)

Record Reference := mkReference { Resource : string; Output : string }.
#[global] Instance reference_eq_dec : EqDecision Reference.
Proof. solve_decision. Defined.

(** The text before the first occurrence of [sub] and the text after it. *)
Fixpoint break_on (sub s : string) : option (string * string) :=
  match strip_prefix sub s with
  | Some rest => Some ("", rest)
  | None =>
      match s with
      | EmptyString => None
      | String c s' => '(before, after) ← break_on sub s'; Some (String c before, after)
      end
  end.

(** The regular expressions [resourceName] and [outputName]. *)
Definition lower_alnum (c : ascii) : bool := is_lower c || is_digit c.
Definition last_char (s : string) : option ascii := String.get (String.length s - 1) s.
Definition resourceName (s : string) : bool :=
  (1 <=? zlen s) && (zlen s <=? 63) && str_forall (fun c => lower_alnum c || Ascii.eqb c "-") s
  && match String.get 0 s, last_char s with Some a, Some b => lower_alnum a && lower_alnum b | _, _ => false end.
Definition word_byte (c : ascii) : bool := is_lower c || is_upper c || is_digit c || Ascii.eqb c "_".
Definition outputName (s : string) : bool :=
  match s with
  | EmptyString => false
  | String c _ => negb (is_digit c) && str_forall word_byte s
  end.

Definition Parse (value : string) : result goerr Reference :=
  let '(resource, output, ok) := cut "."%char value in
  if negb ok || contains "." output || negb (resourceName resource) || negb (outputName output)
  then Err (Msg ("invalid variable reference " +:+ value)) else Ok (mkReference resource output).

(** [Expand] reads a value as literals and expressions from left to right; the
    length of the value is enough fuel, each expression takes five bytes. *)
Inductive token := Literal (s : string) | Expression (s : string) | Unterminated.
Fixpoint tokens (fuel : nat) (s : string) : list token :=
  match fuel with
  | O => [Literal s]
  | S fuel =>
      match break_on "${{" s with
      | None => [Literal s]
      | Some (before, rest) =>
          Literal before :: match break_on "}}" rest with
                            | None => [Unterminated]
                            | Some (inner, rest) => Expression inner :: tokens fuel rest
                            end
      end
  end.
Definition tokenize (s : string) : list token := tokens (String.length s) s.

(** The callback may have effects on a state [S]. *)
Section Expand.
Context {S : Type}.
Fixpoint expand (resolve : Reference -> S -> result goerr string * S) (ts : list token) (s : S) : result goerr string * S :=
  match ts with
  | [] => (Ok "", s)
  | Literal text :: rest =>
      match expand resolve rest s with (Ok more, s) => (Ok (text +:+ more), s) | (Err e, s) => (Err e, s) end
  | Unterminated :: _ => (Err (Msg "unterminated variable reference"), s)
  | Expression text :: rest =>
      match Parse (trim_space text) with
      | Err e => (Err e, s)
      | Ok reference =>
          match resolve reference s with
          | (Err e, s) => (Err e, s)
          | (Ok value, s) =>
              match expand resolve rest s with (Ok more, s) => (Ok (value +:+ more), s) | (Err e, s) => (Err e, s) end
          end
      end
  end.
Definition Expand (value : string) (resolve : Reference -> S -> result goerr string * S) (s : S) : result goerr string * S :=
  expand resolve (tokenize value) s.
End Expand.

Definition References (value : string) : list Reference * option goerr :=
  let '(r, seen) := Expand value (fun reference seen => (Ok "", seen ++ [reference])) [] in
  (seen, match r with Ok _ => None | Err e => Some e end).

(** ** resourcevariables/catalog.go *)

Definition outputs (kind : string) : list string :=
  if bool_decide (kind = "postgres")
  then ["PGHOST"; "PGPORT"; "PGDATABASE"; "PGUSER"; "PGPASSWORD"; "DATABASE_URL"; "POSTGRES_URL"]
  else if bool_decide (kind = "redis") then ["REDISHOST"; "REDISPORT"; "REDISPASSWORD"; "REDIS_URL"]
  else if bool_decide (kind = "object_store")
  then ["S3_ENDPOINT"; "S3_REGION"; "S3_BUCKET"; "S3_ACCESS_KEY_ID"; "S3_SECRET_ACCESS_KEY"]
  else if bool_decide (kind = "network_gateway") then ["HOST"; "PORT"; "ADDRESS"]
  else if bool_decide (kind = "service")
  then ["PLATFORMD_PROJECT_ID"; "PLATFORMD_PROJECT_NAME"; "PLATFORMD_SERVICE_ID";
        "PLATFORMD_SERVICE_NAME"; "PLATFORMD_PRIVATE_DOMAIN"; "PLATFORMD_PUBLIC_URLS"]
  else [].
Definition Supports (kind outputName : string) : bool := bool_decide (outputName ∈ outputs kind).

(** ** domainvariables/outputs.go *)

Record DomainNames := mkDomainNames { Public : string; Internal : string }.

Section DomainVariables.
Context `{HostnameTables}.

(** Upper-case letters and digits, and single underscores for runs of anything
    else; host names in the store are ASCII. *)
Definition to_upper_ascii (c : ascii) : ascii := if is_lower c then ascii_of_N (byte_code c - 32) else c.
Fixpoint underscored (s : string) : string :=
  match s with
  | EmptyString => EmptyString
  | String c s' => String (if is_lower c || is_upper c || is_digit c then to_upper_ascii c else "_"%char) (underscored s')
  end.
Definition normalize (value : string) : string :=
  let normalized := join "_" (List.filter (fun s => negb (empty s)) (split "_"%char (underscored value))) in
  match normalized with
  | String c _ => if is_digit c then "_" +:+ normalized else normalized
  | EmptyString => normalized
  end.
Definition OutputNames (hostname : string) : result goerr DomainNames :=
  let hostname := strings_ToLower (trim_space hostname) in
  match EffectiveTLDPlusOne hostname with
  | None => Err (Msg ("find domain root for " +:+ hostname))
  | Some root =>
      let prefix := if bool_decide (hostname <> root) then trim_suffix ("." +:+ root) hostname else hostname in
      let normalized := normalize prefix in
      if empty normalized then Err (Msg ("domain " +:+ hostname +:+ " has no variable name"))
      else Ok (mkDomainNames (normalized +:+ "_URL") (normalized +:+ "_URL_INTERNAL"))
  end.
End DomainVariables.

(** ** net/url: a URL with user information *)

Inductive encoding := encodePath | encodeUserPassword | encodeHost.
Definition one_of (s : string) (c : ascii) : bool := existsb (Ascii.eqb c) (text s).
Definition shouldEscape (mode : encoding) (c : ascii) : bool :=
  if is_lower c || is_upper c || is_digit c || one_of "-_.~" c then false
  else match mode with
  | encodeHost => negb (one_of "!$&'()*+,;=:[]<>" c || Ascii.eqb c "034")
  | encodePath => negb (one_of "$&+,/:;=@" c)
  | encodeUserPassword => negb (one_of "$&+,;=" c)
  end.
Definition hex_upper (n : N) : ascii := default "0"%char (String.get (N.to_nat n) "0123456789ABCDEF").
Fixpoint escape (mode : encoding) (s : string) : string :=
  match s with
  | EmptyString => EmptyString
  | String c s' =>
      if shouldEscape mode c
      then String "%" (String (hex_upper (byte_code c / 16)) (String (hex_upper (byte_code c mod 16)) (escape mode s')))
      else String c (escape mode s')
  end.
Definition url_String (scheme user password host path : string) : string :=
  scheme +:+ "://" +:+ escape encodeUserPassword user +:+ ":" +:+ escape encodeUserPassword password +:+ "@"
  +:+ escape encodeHost host +:+ escape encodePath path.

(** ** daemon/resource_variables.go: outputs of the managed resources *)

Definition internal_host (name projectName : string) : string := name +:+ "." +:+ projectName +:+ ".internal".
Definition lookup_output (values : list (string * string)) (kind output : string) : result goerr string :=
  match List.find (fun x => bool_decide (x.1 = output)) values with
  | Some (_, value) => Ok value
  | None => Err (Msg ("unsupported " +:+ kind +:+ " output " +:+ output))
  end.

Record ManagedPostgres := mkPostgres { pg_Name : string; pg_ProjectName : string; pg_DatabaseName : string; pg_OwnerUsername : string }.
Record ManagedRedis := mkRedis { rd_Name : string; rd_ProjectName : string }.
Record ObjectStore := mkObjectStore { os_ID : string; os_Name : string; os_ProjectName : string; os_BucketName : string }.
Record NetworkGateway := mkGateway { gw_Name : string; gw_ProjectName : string; gw_Mode : string; gw_ListenPort : Z }.

Definition postgresOutput (r : ManagedPostgres) (password output : string) : result goerr string :=
  let host := internal_host (pg_Name r) (pg_ProjectName r) in
  let connection := url_String "postgresql" (pg_OwnerUsername r) password (host +:+ ":5432") ("/" +:+ pg_DatabaseName r) in
  lookup_output [("PGHOST", host); ("PGPORT", "5432"); ("PGDATABASE", pg_DatabaseName r); ("PGUSER", pg_OwnerUsername r);
                 ("PGPASSWORD", password); ("DATABASE_URL", connection); ("POSTGRES_URL", connection)] "PostgreSQL" output.
Definition redisOutput (r : ManagedRedis) (password output : string) : result goerr string :=
  let host := internal_host (rd_Name r) (rd_ProjectName r) in
  lookup_output [("REDISHOST", host); ("REDISPORT", "6379"); ("REDISPASSWORD", password);
                 ("REDIS_URL", url_String "redis" "" password (host +:+ ":6379") "/0")] "Redis" output.
Definition objectStoreOutput (r : ObjectStore) (accessKey secret output : string) : result goerr string :=
  lookup_output [("S3_ENDPOINT", "http://" +:+ internal_host (os_Name r) (os_ProjectName r) +:+ ":9000");
                 ("S3_REGION", "us-east-1"); ("S3_BUCKET", os_BucketName r);
                 ("S3_ACCESS_KEY_ID", accessKey); ("S3_SECRET_ACCESS_KEY", secret)] "object store" output.
Definition networkGatewayOutput (r : NetworkGateway) (output : string) : result goerr string :=
  if bool_decide (gw_Mode r <> "import") then Err (Msg ("export gateway " +:+ gw_Name r +:+ " has no internal endpoint"))
  else
    let host := internal_host (gw_Name r) (gw_ProjectName r) in
    let port := pretty (gw_ListenPort r) in
    lookup_output [("HOST", host); ("PORT", port); ("ADDRESS", host +:+ ":" +:+ port)] "network gateway" output.

(** ** daemon/resource_variables.go: resolution *)

Record ProjectResource := mkResource { pr_ID : string; pr_Kind : string; pr_Name : string }.

(** What the store answers within one resolution, passwords and secrets decrypted;
    of a credential the store keeps its ID. *)
Class VariableStore := {
  ProjectResources : string -> result goerr (list ProjectResource);
  load_Service : string -> result goerr ServiceDesired;
  ServiceDomains : string -> result goerr (list (string * Z));
  load_Postgres : string -> result goerr (ManagedPostgres * string);
  load_Redis : string -> result goerr (ManagedRedis * string);
  ObjectStoreInProject : string -> result goerr ObjectStore;
  S3CredentialsByObjectStore : string -> result goerr (list string);
  OpenSecret : string -> string -> result goerr string;
  load_NetworkGateway : string -> result goerr NetworkGateway;
  cuid2_IsCuid : string -> bool
}.

Record environmentResolution := mkResolution {
  resources : gmap string ProjectResource;
  services : gmap string ServiceDesired;
  cache : gmap string string;
  resolving : gset string
}.
Definition set_services f (s : environmentResolution) := mkResolution (resources s) (f (services s)) (cache s) (resolving s).
Definition set_cache f (s : environmentResolution) := mkResolution (resources s) (services s) (f (cache s)) (resolving s).
Definition set_resolving f (s : environmentResolution) := mkResolution (resources s) (services s) (cache s) (f (resolving s)).

Definition environment (service : ServiceDesired) : gmap string string := Environment (ds_snapshot service).
Definition variable_key (id name : string) : string := id +:+ "." +:+ name.

(** [deployment.EnvironmentContext]; the resolver reads these fields of it. *)
Record EnvironmentContext := mkEnvironmentContext { ec_DeploymentID : string; ec_Kind : string; ec_PreviewURL : string }.
Definition is_preview (environmentContext : EnvironmentContext) : bool := bool_decide (ec_Kind environmentContext = "preview").

Section Resolution.
Context `{HostnameTables} `{VariableStore}.

Definition publicURLs (desired : ServiceDesired) (environmentContext : EnvironmentContext) : result goerr string :=
  if is_preview environmentContext then Ok (ec_PreviewURL environmentContext)
  else
    let? domains := ServiceDomains (ds_id desired) in
    Ok (join "," (merge_sort String.le ((fun d => "https://" +:+ d.1) <$> domains))).

Definition staticServiceOutput (service : ServiceDesired) (output : string) : result goerr string :=
  match List.find (fun x => bool_decide (x.1 = output))
          [("PLATFORMD_PROJECT_ID", ds_project service); ("PLATFORMD_PROJECT_NAME", ds_project_name service);
           ("PLATFORMD_SERVICE_ID", ds_id service); ("PLATFORMD_SERVICE_NAME", ds_name service);
           ("PLATFORMD_PRIVATE_DOMAIN", internal_host (ds_name service) (ds_project_name service))] with
  | Some (_, value) => Ok value
  | None => if bool_decide (output = "PLATFORMD_PUBLIC_URLS") then publicURLs service (mkEnvironmentContext "" "production" "")
            else Err (Msg ("service " +:+ ds_name service +:+ " does not export " +:+ output))
  end.

(** The outputs of the service's domains; one name for two domains is an error. *)
Fixpoint domainOutputs (service : ServiceDesired) (domains : list (string * Z)) (values : gmap string string)
    : result goerr (gmap string string) :=
  match domains with
  | [] => Ok values
  | (hostname, targetPort) :: rest =>
      let? names := OutputNames hostname in
      let ambiguous name := Err (Msg ("service " +:+ ds_name service +:+ " has ambiguous domain output " +:+ name)) in
      if bool_decide (is_Some (values !! Public names)) then ambiguous (Public names)
      else
        let values := <[Public names := "https://" +:+ hostname]> values in
        if bool_decide (is_Some (values !! Internal names)) then ambiguous (Internal names)
        else domainOutputs service rest
               (<[Internal names := "http://" +:+ internal_host (ds_name service) (ds_project_name service)
                                    +:+ ":" +:+ pretty targetPort]> values)
  end.
(** What a service exports beside its own variables. *)
Definition derivedOutput (service : ServiceDesired) (output : string) : result goerr string :=
  if Supports "service" output then staticServiceOutput service output
  else
    let? domains := ServiceDomains (ds_id service) in
    let? values := domainOutputs service domains ∅ in
    match values !! output with
    | Some value => Ok value
    | None => Err (Msg ("service " +:+ ds_name service +:+ " does not export " +:+ output))
    end.

Definition AccessKeyID (credentialID : string) : result goerr string :=
  if (zlen credentialID =? 24) && cuid2_IsCuid credentialID then Ok ("ps3_" +:+ credentialID)
  else Err (Msg "S3 credential ID must be a CUID2").
Definition objectStoreOutputOf (resourceID output : string) : result goerr string :=
  let? resource := ObjectStoreInProject resourceID in
  let? credentials := S3CredentialsByObjectStore (os_ID resource) in
  match credentials with
  | [credential] =>
      let? accessKey := AccessKeyID credential in
      let? secret := OpenSecret (os_ID resource) credential in
      objectStoreOutput resource accessKey secret output
  | _ => Err (Msg "object store must have exactly one active credential")
  end.

Definition managedOutput (resource : ProjectResource) (output : string) : result goerr string :=
  let kind := pr_Kind resource in
  let unsupported what := Err (Msg (what +:+ " " +:+ pr_Name resource +:+ " does not export " +:+ output)) in
  if bool_decide (kind = "postgres") then
    if negb (Supports kind output) then unsupported "PostgreSQL"
    else let? loaded := load_Postgres (pr_ID resource) in postgresOutput loaded.1 loaded.2 output
  else if bool_decide (kind = "redis") then
    if negb (Supports kind output) then unsupported "Redis"
    else let? loaded := load_Redis (pr_ID resource) in redisOutput loaded.1 loaded.2 output
  else if bool_decide (kind = "object_store") then
    if negb (Supports kind output) then unsupported "object store"
    else objectStoreOutputOf (pr_ID resource) output
  else if bool_decide (kind = "network_gateway") then
    if negb (Supports kind output) then unsupported "network gateway"
    else let? loaded := load_NetworkGateway (pr_ID resource) in networkGatewayOutput loaded output
  else Err (Msg ("unsupported resource kind " +:+ kind)).

Definition service (serviceID : string) (s : environmentResolution) : result goerr ServiceDesired * environmentResolution :=
  match services s !! serviceID with
  | Some found => (Ok found, s)
  | None => match load_Service serviceID with
            | Err e => (Err e, s)
            | Ok loaded => (Ok loaded, set_services (insert serviceID loaded) s)
            end
  end.

(** [serviceVariable] and [reference] call each other; [fuel] bounds the depth. *)
Section Reference.
Context (serviceVariable : ServiceDesired -> string -> environmentResolution -> result goerr string * environmentResolution).

Definition serviceOutput (svc : ServiceDesired) (output : string) (s : environmentResolution)
    : result goerr string * environmentResolution :=
  match environment svc !! output with
  | Some _ => serviceVariable svc output s
  | None => (derivedOutput svc output, s)
  end.

Definition reference (r : Reference) (s : environmentResolution) : result goerr string * environmentResolution :=
  match resources s !! Resource r with
  | None => (Err (Msg ("resource " +:+ Resource r +:+ " does not exist in this project")), s)
  | Some resource =>
      let cacheKey := variable_key (pr_ID resource) (Output r) in
      match cache s !! cacheKey with
      | Some value => (Ok value, s)
      | None =>
          let '(res, s) :=
            if bool_decide (pr_Kind resource = "service") then
              match service (pr_ID resource) s with
              | (Err e, s) => (Err e, s)
              | (Ok svc, s) => serviceOutput svc (Output r) s
              end
            else (managedOutput resource (Output r), s) in
          match res with
          | Ok value => (Ok value, set_cache (insert cacheKey value) s)
          | Err e => (Err e, s)
          end
      end
  end.
End Reference.

Definition out_of_fuel : goerr := Sentinel "OutOfFuel" "out of fuel".
Fixpoint serviceVariable (fuel : nat) (svc : ServiceDesired) (name : string) (s : environmentResolution)
    : result goerr string * environmentResolution :=
  match fuel with
  | O => (Err out_of_fuel, s)
  | S fuel =>
      let key := variable_key (ds_id svc) name in
      match cache s !! key with
      | Some value => (Ok value, s)
      | None =>
          if bool_decide (key ∈ resolving s)
          then (Err (Msg ("variable reference cycle at " +:+ ds_name svc +:+ "." +:+ name)), s)
          else match environment svc !! name with
          | None => (Err (Msg ("service " +:+ ds_name svc +:+ " does not export " +:+ name)), s)
          | Some raw =>
              let s := set_resolving (union {[key]}) s in
              let '(res, s) := Expand raw (reference (serviceVariable fuel)) s in
              let s := match res with Ok value => set_cache (insert key value) s | Err _ => s end in
              (res, set_resolving (fun r => r ∖ {[key]}) s)
          end
      end
  end.

(** Later resources replace earlier ones of the same name. *)
Definition byName (listed : list ProjectResource) : gmap string ProjectResource :=
  foldl (fun m r => <[pr_Name r := r]> m) ∅ listed.
Definition resolution (desired : ServiceDesired) : result goerr environmentResolution :=
  let? listed := ProjectResources (ds_project desired) in
  Ok (mkResolution (byName listed) {[ds_id desired := desired]} ∅ ∅).

(** The loop of [Resolve] over the service's own variables, in the order [names]
    in which Go's map iteration presents them. *)
Fixpoint resolveAll (fuel : nat) (desired : ServiceDesired) (names : list string) (s : environmentResolution)
    (result : gmap string string) : Prelude.result goerr (gmap string string) :=
  match names with
  | [] => Ok result
  | name :: names =>
      match serviceVariable fuel desired name s with
      | (Err e, _) => Err (Wrap name e)
      | (Ok value, s) => resolveAll fuel desired names s (<[name := value]> result)
      end
  end.

(** *** The runtime environment *)

Definition addDefault (name value : string) (result : gmap string string) : gmap string string :=
  if bool_decide (is_Some (result !! name)) then result else <[name := value]> result.
Definition SentryDSN (scheme hostname serviceID : string) : string := scheme +:+ "://" +:+ serviceID +:+ "@" +:+ hostname +:+ "/1".
Definition InternalDSN (desired : ServiceDesired) : string :=
  SentryDSN "http" (internal_host ("errors-" +:+ ds_name desired) (ds_project_name desired) +:+ ":9001") (ds_id desired).
Definition InternalOTLPEndpoint (desired : ServiceDesired) : string :=
  "http://" +:+ internal_host ("otel-" +:+ ds_name desired) (ds_project_name desired) +:+ ":4318".
Definition telemetryResourceAttributes (desired : ServiceDesired) (environmentContext : EnvironmentContext) : string :=
  join "," (["service.namespace=" +:+ ds_project_name desired; "deployment.environment.name=" +:+ ec_Kind environmentContext]
            ++ if empty (ec_DeploymentID environmentContext) then [] else ["deployment.id=" +:+ ec_DeploymentID environmentContext]).
(** The five names are distinct, so the order of Go's iteration does not matter. *)
Definition addTelemetryEnvironmentDefaults (desired : ServiceDesired) (environmentContext : EnvironmentContext)
    (result : gmap string string) : gmap string string :=
  foldr (fun d => addDefault d.1 d.2) result
    [("SENTRY_DSN", InternalDSN desired); ("OTEL_EXPORTER_OTLP_ENDPOINT", InternalOTLPEndpoint desired);
     ("OTEL_EXPORTER_OTLP_PROTOCOL", "http/protobuf"); ("OTEL_SERVICE_NAME", ds_name desired);
     ("OTEL_RESOURCE_ATTRIBUTES", telemetryResourceAttributes desired environmentContext)].
Definition addEnvironmentIdentity (desired : ServiceDesired) (environmentContext : EnvironmentContext)
    (result : gmap string string) : gmap string string :=
  let result := <["PLATFORMD_ENVIRONMENT" := ec_Kind environmentContext]> result in
  let result := <["PLATFORMD_PROJECT_ID" := ds_project desired]> result in
  let result := <["PLATFORMD_PROJECT_NAME" := ds_project_name desired]> result in
  let result := <["PLATFORMD_SERVICE_ID" := ds_id desired]> result in
  let result := <["PLATFORMD_SERVICE_NAME" := ds_name desired]> result in
  let result := <["PLATFORMD_PRIVATE_DOMAIN" := internal_host (ds_name desired) (ds_project_name desired)]> result in
  if is_preview environmentContext then <["PLATFORMD_PREVIEW" := "true"]> result else result.
Definition addRuntimeEnvironment (desired : ServiceDesired) (environmentContext : EnvironmentContext)
    (result : gmap string string) : Prelude.result goerr (gmap string string) :=
  let result := addDefault "NODE_ENV" "production" result in
  let result := addTelemetryEnvironmentDefaults desired environmentContext result in
  let result := addEnvironmentIdentity desired environmentContext result in
  let? urls := publicURLs desired environmentContext in
  let result := <["PLATFORMD_DEPLOYMENT_ID" := ec_DeploymentID environmentContext]> result in
  let result := <["PLATFORMD_PUBLIC_URLS" := urls]> result in
  Ok (if is_preview environmentContext then <["PLATFORMD_PREVIEW_URL" := ec_PreviewURL environmentContext]> result else result).

Definition Resolve (fuel : nat) (desired : ServiceDesired) (names : list string) (environmentContext : EnvironmentContext)
    : result goerr (gmap string string) :=
  let? s := resolution desired in
  let? values := resolveAll fuel desired names s ∅ in
  addRuntimeEnvironment desired environmentContext values.
End Resolution.
