(* ===== verification/RuntimeDeployments.v ===== *)
(** * Runtime deployments: internal/state/runtime_deployments.go

    The history of the containers that ran a managed database, shared by the
    controllers of Redis and PostgreSQL.  At most one row of a resource is active;
    it names the deployment a start reuses.  Operations return the table after the
    transaction or the error that rolls it back. *)

From S2P Require Import Prelude.

Definition ErrRuntimeDeploymentNotFound : goerr := Sentinel "state.ErrRuntimeDeploymentNotFound" "runtime deployment not found".
Definition ErrRuntimeDeploymentInvalid : goerr := Sentinel "state.ErrRuntimeDeploymentInvalid" "runtime deployment is invalid".

Record RuntimeDeployment := mkRuntimeDeployment {
  rt_ID : string; rt_ResourceKind : string; rt_ResourceID : string; rt_ImageTag : string; rt_ImageDigest : string;
  rt_Status : string; rt_Active : bool; rt_ErrorCode : string; rt_ErrorMessage : string;
  rt_CreatedAtMillis : Z; rt_FinishedAtMillis : Z
}.
Notation Table := (gmap string RuntimeDeployment).

(** What the updates set: status, active, error and end. *)
Definition update_row (status : string) (active : bool) (code message : string) (finished : Z) (d : RuntimeDeployment) : RuntimeDeployment :=
  mkRuntimeDeployment (rt_ID d) (rt_ResourceKind d) (rt_ResourceID d) (rt_ImageTag d) (rt_ImageDigest d)
    status active code message (rt_CreatedAtMillis d) finished.
Definition clear_active (d : RuntimeDeployment) : RuntimeDeployment :=
  update_row (rt_Status d) false (rt_ErrorCode d) (rt_ErrorMessage d) (rt_FinishedAtMillis d) d.
Definition of_resource (kind resourceID : string) (d : RuntimeDeployment) : bool :=
  bool_decide (rt_ResourceKind d = kind) && bool_decide (rt_ResourceID d = resourceID).

Definition BeginRuntimeDeployment (d : RuntimeDeployment) (t : Table) : result goerr Table :=
  if empty (rt_ID d) || empty (rt_ResourceID d) || empty (rt_ImageTag d) || empty (rt_ImageDigest d)
     || (rt_CreatedAtMillis d <=? 0)
     || (negb (bool_decide (rt_ResourceKind d = "postgres")) && negb (bool_decide (rt_ResourceKind d = "redis")))
  then Err ErrRuntimeDeploymentInvalid
  else match t !! rt_ID d with
       | Some _ => Err (Msg "UNIQUE constraint failed: runtime_deployments.id")
       | None => Ok (<[rt_ID d := update_row "running" false "" "" 0 d]> t)
       end.

Definition ActivateRuntimeDeployment (kind resourceID deploymentID : string) (finishedAt : Z) (t : Table) : result goerr Table :=
  let cleared := (fun d => if of_resource kind resourceID d then clear_active d else d) <$> t in
  match t !! deploymentID with
  | Some d => if of_resource kind resourceID d
              then Ok (<[deploymentID := update_row "succeeded" true "" "" finishedAt d]> cleared)
              else Err ErrRuntimeDeploymentNotFound
  | None => Err ErrRuntimeDeploymentNotFound
  end.

Definition FailRuntimeDeployment (deploymentID code message : string) (finishedAt : Z) (t : Table) : result goerr Table :=
  match t !! deploymentID with
  | Some d => Ok (<[deploymentID := update_row "failed" (rt_Active d) code message finishedAt d]> t)
  | None => Err ErrRuntimeDeploymentNotFound
  end.

(** The active row of the resource is changed by [f]. *)
Definition update_active (kind resourceID deploymentID : string) (f : RuntimeDeployment -> RuntimeDeployment) (t : Table)
    : result goerr Table :=
  match t !! deploymentID with
  | Some d => if of_resource kind resourceID d && rt_Active d then Ok (<[deploymentID := f d]> t)
              else Err ErrRuntimeDeploymentNotFound
  | None => Err ErrRuntimeDeploymentNotFound
  end.
Definition StopRuntimeDeployment (kind resourceID deploymentID : string) (finishedAt : Z) : Table -> result goerr Table :=
  update_active kind resourceID deploymentID (fun d => update_row "removed" (rt_Active d) "" "" finishedAt d).
Definition RestartRuntimeDeployment (kind resourceID deploymentID : string) : Table -> result goerr Table :=
  update_active kind resourceID deploymentID (fun d => update_row "running" (rt_Active d) "" "" 0 d).

Definition DeleteRuntimeDeployment (kind resourceID deploymentID : string) (t : Table) : result goerr Table :=
  match t !! deploymentID with
  | Some d => if of_resource kind resourceID d && negb (rt_Active d) then Ok (delete deploymentID t)
              else Err ErrRuntimeDeploymentNotFound
  | None => Err ErrRuntimeDeploymentNotFound
  end.

Definition activeRow (kind resourceID : string) (t : Table) : option RuntimeDeployment :=
  snd <$> List.find (fun x => of_resource kind resourceID x.2 && rt_Active x.2) (map_to_list t).
Definition ActiveRuntimeDeployment (kind resourceID : string) (t : Table) : result goerr RuntimeDeployment :=
  match activeRow kind resourceID t with Some d => Ok d | None => Err ErrRuntimeDeploymentNotFound end.
Definition findRuntimeDeployment (kind resourceID deploymentID : string) (t : Table) : result goerr RuntimeDeployment :=
  match t !! deploymentID with
  | Some d => if of_resource kind resourceID d then Ok d else Err ErrRuntimeDeploymentNotFound
  | None => Err ErrRuntimeDeploymentNotFound
  end.

(** ** The unique index on active rows *)

Definition one_active (t : Table) : Prop := forall i j d e,
  t !! i = Some d -> t !! j = Some e -> rt_Active d = true -> rt_Active e = true ->
  rt_ResourceKind d = rt_ResourceKind e -> rt_ResourceID d = rt_ResourceID e -> i = j.

Lemma one_active_insert t i d d' :
  one_active t -> (t !! i = None /\ rt_Active d' = false) \/
    (t !! i = Some d /\ rt_Active d' = rt_Active d /\ rt_ResourceKind d' = rt_ResourceKind d /\ rt_ResourceID d' = rt_ResourceID d) ->
  one_active (<[i := d']> t).
Proof.
  intros Ht Hd j k x y Hx Hy Ax Ay Ek Er.
  apply lookup_insert_Some in Hx as [[<- <-]|[Hnx Hx]], Hy as [[<- <-]|[Hny Hy]].
  all: try done; destruct Hd as [[_ ?]|(Hi & Ea & Ek' & Er')]; try congruence;
    eapply Ht; try done; congruence.
Qed.

Lemma activate_one_active kind resourceID deploymentID at_ t t' :
  one_active t -> ActivateRuntimeDeployment kind resourceID deploymentID at_ t = Ok t' -> one_active t'.
Proof.
  intros Ht. unfold ActivateRuntimeDeployment. destruct (t !! deploymentID) as [d|] eqn:Hd; [|done].
  destruct (of_resource kind resourceID d) eqn:Ho; [|done]. intros [= <-].
  assert (forall k x, (fun d => if of_resource kind resourceID d then clear_active d else d) <$> t !! k = Some x ->
    rt_Active x = true -> t !! k = Some x /\ of_resource kind resourceID x = false) as Hold.
  { intros k x. rewrite fmap_Some. intros (y & Hy & ->) Ha. destruct (of_resource kind resourceID y) eqn:E; done. }
  assert (of_resource kind resourceID (update_row "succeeded" true "" "" at_ d) = true) as Hnew by exact Ho.
  intros i j x y Hx Hy Ax Ay Ek Er.
  apply lookup_insert_Some in Hx as [[<- <-]|[Hnx Hx]], Hy as [[<- <-]|[Hny Hy]]; [done| | |].
  - rewrite lookup_fmap in Hy. destruct (Hold _ _ Hy Ay) as [_ Hf]. unfold of_resource in *. rewrite <- Ek, <- Er in Hf. simpl in *. congruence.
  - rewrite lookup_fmap in Hx. destruct (Hold _ _ Hx Ax) as [_ Hf]. unfold of_resource in *. rewrite Ek, Er in Hf. simpl in *. congruence.
  - rewrite lookup_fmap in Hx, Hy. destruct (Hold _ _ Hx Ax) as [Hx' _], (Hold _ _ Hy Ay) as [Hy' _]. by eapply Ht.
Qed.

Lemma activeRow_spec kind resourceID t d :
  one_active t -> activeRow kind resourceID t = Some d <->
  exists i, t !! i = Some d /\ of_resource kind resourceID d = true /\ rt_Active d = true.
Proof.
  intros Ht. unfold activeRow. destruct (List.find _ (map_to_list t)) as [[i e]|] eqn:E; simpl.
  - apply List.find_some in E as [Hin%list_elem_of_In%elem_of_map_to_list Hok]. simpl in Hok. apply andb_true_iff in Hok as [Ho Ha].
    split; [intros [= <-]; by exists i|]. intros (j & Hj & Hjo & Hja). f_equal.
    unfold of_resource in *. apply andb_true_iff in Ho as [?%bool_decide_eq_true ?%bool_decide_eq_true].
    apply andb_true_iff in Hjo as [?%bool_decide_eq_true ?%bool_decide_eq_true].
    assert (i = j) as -> by (eapply Ht; try done; congruence). congruence.
  - split; [done|]. intros (i & Hi & Ho & Ha). pose proof (List.find_none _ _ E (i, d)) as Hn.
    simpl in Hn. rewrite Ho, Ha in Hn. discriminate Hn. by apply list_elem_of_In, elem_of_map_to_list.
Qed.
