(* ===== verification/ManagedRedis.v ===== *)
(** * Managed Redis: the life cycle of internal/managedredis

    The controller starts, stops, restores, upgrades and deletes Redis containers.
    [World] is what it reads and writes: the two tables, its own maps of active and
    maintained resources, the admission gate, the containers with the volume each
    mounts and whether it runs, the volume directories, the published endpoints and
    the endpoints the firewall blocks, and the trace of the calls made so far.
    [RedisEnv] answers every call from the trace.  A call that returns an error may
    have had its effect all the same; [a_effect] decides.  One operation at a time
    works on a resource, under its lock. *)

From Stdlib Require Import Ascii.
From S2P Require Import Prelude Effects Names Admission ServiceConfig DeploymentStore Runtime RuntimeDeployments.

Definition Port : string := "6379".
Definition defaultReadyTimeout : Z := 60 * second.
Definition ErrNotRunning : goerr := Sentinel "managedredis.ErrNotRunning" "managed Redis is not running".
Definition ErrMaintenance : goerr := Sentinel "managedredis.ErrMaintenance" "managed Redis is under maintenance".
Definition ErrInvalidInput : goerr := Sentinel "managedredis.ErrInvalidInput" "managed Redis input is invalid".
Definition ErrManagedRedisNotFound : goerr := Sentinel "state.ErrManagedRedisNotFound" "managed Redis not found".
Definition ErrManagedRedisChanged : goerr := Sentinel "state.ErrManagedRedisChanged" "managed Redis changed".

(** ** Data *)

Record ManagedRedis := mkManagedRedis {
  mr_ID : string; mr_ProjectID : string; mr_Name : string; mr_ImageTag : string; mr_ImageDigest : string;
  mr_VolumeID : string; mr_CPUMillicores : Z; mr_MemoryMaxBytes : Z; mr_UpdatedAtMillis : Z
}.
Definition with_volume (volumeID : string) (updated : Z) (r : ManagedRedis) : ManagedRedis :=
  mkManagedRedis (mr_ID r) (mr_ProjectID r) (mr_Name r) (mr_ImageTag r) (mr_ImageDigest r) volumeID
    (mr_CPUMillicores r) (mr_MemoryMaxBytes r) updated.
Definition with_image (tag digest : string) (r : ManagedRedis) : ManagedRedis :=
  mkManagedRedis (mr_ID r) (mr_ProjectID r) (mr_Name r) tag digest (mr_VolumeID r)
    (mr_CPUMillicores r) (mr_MemoryMaxBytes r) (mr_UpdatedAtMillis r).

Record Actor := mkActor { actor_Kind : string; actor_ID : string; actor_Email : string }.
Record activeRuntime := mkActiveRuntime {
  ar_resource : ManagedRedis; ar_container : Container; ar_network : string; ar_runtimeID : string
}.
Record PersistenceStatus := mkPersistence { BackgroundSaveInProgress : bool; LastBackgroundSaveOK : bool }.

(** What is asked of the container engine. *)
Record RedisSpec := mkRedisSpec {
  rs_ImageID : string; rs_Name : string; rs_ResourceID : string; rs_ProjectID : string; rs_Network : string;
  rs_DNSServer : string; rs_DNSSearch : string; rs_ConfigPath : string; rs_VolumeID : string; rs_Volume : string;
  rs_CgroupParent : string; rs_CPUMillicores : Z; rs_MemoryMaxBytes : Z
}.

(** ** Paths *)

Definition safeRoot (value : string) : bool :=
  has_prefix "/" value && bool_decide (Clean_rooted value = value) && negb (bool_decide (value = "/")).
Definition unsafe_byte (c : ascii) : bool :=
  Ascii.eqb c "/"%char || Ascii.eqb c "\"%char || Ascii.eqb c "000"%char.
Definition safePathComponent (value : string) : bool :=
  negb (bool_decide (value = "")) && negb (bool_decide (value = ".")) && negb (bool_decide (value = ".."))
  && str_forall (fun c => negb (unsafe_byte c)) value.
Definition password_byte (c : ascii) : bool :=
  is_lower c || is_upper c || is_digit c || Ascii.eqb c "_"%char || Ascii.eqb c "-"%char.
Definition validPassword (value : string) : bool := (zlen value =? 43) && str_forall password_byte value.

(** ** The store *)

Record Store := mkStore { st_redis : gmap string ManagedRedis; st_runtime : Table }.
Definition set_redis f (s : Store) := mkStore (f (st_redis s)) (st_runtime s).
Definition on_runtime (f : Table -> result goerr Table) (s : Store) : result goerr Store :=
  let? t := f (st_runtime s) in Ok (mkStore (st_redis s) t).

Definition loadRedis (resourceID : string) (s : Store) : result goerr ManagedRedis :=
  match st_redis s !! resourceID with Some r => Ok r | None => Err ErrManagedRedisNotFound end.

Record SwitchInput := mkSwitch {
  sw_ResourceID : string; sw_ExpectedVolumeID : string; sw_VolumeID : string;
  sw_ExpectedImageTag : string; sw_ExpectedImageDigest : string; sw_ImageTag : string; sw_ImageDigest : string;
  sw_Action : string; sw_AuditEventID : string; sw_Actor : Actor; sw_RequestCorrelationID : string; sw_UpdatedAtMillis : Z
}.
Record DeleteInput := mkDelete {
  di_ID : string; di_ProjectID : string; di_ExpectedUpdatedMillis : Z; di_AuditEventID : string; di_DeletedAtMillis : Z;
  di_Actor : Actor
}.

(** ** Calls *)

Inductive Call :=
| CStore (operation : string)
| CInspectImage (digest : string)
| CPull (reference : string)
| CCreate (spec : RedisSpec)
| CStart (containerID : string)
| CStop (containerID : string)
| CRemove (containerID : string)
| CRemoveVolume (volumeID : string)
| CInspect (containerID : string)
| CPublish (resource : ManagedRedis) (container : Container)
| CWithdraw (resource : ManagedRedis)
| CGrowth
| CBlock (endpoint : string)
| CUnblock (endpoint : string)
| CPassword (resource : ManagedRedis)
| CPlacement (resource : ManagedRedis)
| CDial (address : string)
| CRedis (command : string)
| CFile (operation : string) (path : string)
| CRead
| CClock
| CNow
| CNewID
| CTick
| CContext
| CCleanupError (e : goerr).

Class RedisEnv := {
  (** The error of a call that only returns one; [None] is nil. *)
  a_error : list Call -> option goerr;
  (** Whether a call that returned an error had its effect. *)
  a_effect : list Call -> bool;
  a_image : list Call -> result goerr EngineImage;
  a_create : list Call -> result goerr Container;
  (** The container that a failed [CreateContainer] made all the same. *)
  a_orphan : list Call -> option string;
  a_inspect : list Call -> result goerr Container;
  a_password : list Call -> result goerr string;
  a_placement : list Call -> result goerr Placement;
  a_status : list Call -> result goerr PersistenceStatus;
  (** [os.Open] and [Stat] of the dump: its identity, or not there. *)
  a_dump : list Call -> result goerr (option Z);
  (** Bytes copied by [io.Copy]. *)
  a_copied : list Call -> result goerr Z;
  (** Entries of a directory. *)
  a_entries : list Call -> result goerr Z;
  a_newID : list Call -> result goerr string;
  a_now : list Call -> Z;
  (** [managedimages.Reference] for Redis, [digest.Parse] and [netip.ParseAddr] of an IPv4 address. *)
  redisReference : string -> result goerr string;
  valid_digest : string -> bool;
  parse_ipv4 : string -> result goerr string
}.

(** The volume a container mounts, and whether it runs. *)
Record EngineContainer := mkEngineContainer { ec_volume : string; ec_running : bool }.

Record World := mkRedisWorld {
  w_store : Store;
  w_active : gmap string activeRuntime;
  w_maintaining : gset string;
  w_gate : Gate;
  w_containers : gmap string EngineContainer;
  w_volumes : gset string;
  w_published : gset string;
  w_blocked : gset string;
  w_trace : list Call
}.
#[global] Notation M := (Eff World).

Definition set_store v w := mkRedisWorld v (w_active w) (w_maintaining w) (w_gate w) (w_containers w) (w_volumes w) (w_published w) (w_blocked w) (w_trace w).
Definition set_active v w := mkRedisWorld (w_store w) v (w_maintaining w) (w_gate w) (w_containers w) (w_volumes w) (w_published w) (w_blocked w) (w_trace w).
Definition set_maintaining v w := mkRedisWorld (w_store w) (w_active w) v (w_gate w) (w_containers w) (w_volumes w) (w_published w) (w_blocked w) (w_trace w).
Definition set_gate v w := mkRedisWorld (w_store w) (w_active w) (w_maintaining w) v (w_containers w) (w_volumes w) (w_published w) (w_blocked w) (w_trace w).
Definition set_containers v w := mkRedisWorld (w_store w) (w_active w) (w_maintaining w) (w_gate w) v (w_volumes w) (w_published w) (w_blocked w) (w_trace w).
Definition set_volumes v w := mkRedisWorld (w_store w) (w_active w) (w_maintaining w) (w_gate w) (w_containers w) v (w_published w) (w_blocked w) (w_trace w).
Definition set_published v w := mkRedisWorld (w_store w) (w_active w) (w_maintaining w) (w_gate w) (w_containers w) (w_volumes w) v (w_blocked w) (w_trace w).
Definition set_blocked v w := mkRedisWorld (w_store w) (w_active w) (w_maintaining w) (w_gate w) (w_containers w) (w_volumes w) (w_published w) v (w_trace w).
Definition set_trace v w := mkRedisWorld (w_store w) (w_active w) (w_maintaining w) (w_gate w) (w_containers w) (w_volumes w) (w_published w) (w_blocked w) v.

(** [NewController]: the timings after the defaults, the roots and whether the
    deployment history is kept. *)
Record Config := mkRedisConfig {
  c_GeneratedRoot : string; c_VolumeRoot : string; c_ReadyTimeout : Z; c_ProbePeriod : Z; c_MaintenanceDrain : Z;
  c_deployments : bool
}.
Definition NewController (config : Config) : result goerr Config :=
  if negb (safeRoot (c_GeneratedRoot config)) || negb (safeRoot (c_VolumeRoot config))
  then Err (Msg "managed Redis controller roots must be canonical absolute non-root paths")
  else
    let readyTimeout := if c_ReadyTimeout config =? 0 then defaultReadyTimeout else c_ReadyTimeout config in
    let probePeriod := if c_ProbePeriod config =? 0 then 250 * 1000000 else c_ProbePeriod config in
    let drain := if c_MaintenanceDrain config =? 0 then 2 * second else c_MaintenanceDrain config in
    if (readyTimeout <? 0) || (probePeriod <? 0) || (drain <? 0)
    then Err (Msg "managed Redis readiness timing cannot be negative")
    else Ok (mkRedisConfig (c_GeneratedRoot config) (c_VolumeRoot config) readyTimeout probePeriod drain (c_deployments config)).

Section Controller.
Context `{HostnameTables} `{ConfigTables} {env : RedisEnv} (config : Config).

(** ** Calls in the monad *)

Definition ask {A} (c : Call) (answer : list Call -> A) : M A := fun w =>
  let trace := c :: w_trace w in Some (answer trace, set_trace trace w).
Definition ask_error (c : Call) : M (result goerr unit) := ask c (fun trace => of_error (a_error trace)).
(** A call with an effect on the surroundings. *)
Definition perform (c : Call) (effect : World -> World) : M (result goerr unit) := fun w =>
  let trace := c :: w_trace w in
  let w := set_trace trace w in
  match a_error trace with
  | None => Some (Ok tt, effect w)
  | Some e => Some (Err e, if a_effect trace then effect w else w)
  end.
(** A transaction: it commits what the operation makes of the store, or it fails and
    changes nothing, or it commits and the caller is told an error all the same, when its
    context ends after the writer has taken the transaction. *)
Definition write (name : string) (operation : Store -> result goerr Store) : M (result goerr unit) := fun w =>
  let trace := CStore name :: w_trace w in
  let w := set_trace trace w in
  match operation (w_store w), a_error trace with
  | Ok s, None => Some (Ok tt, set_store s w)
  | Ok s, Some e => Some (Err e, if a_effect trace then set_store s w else w)
  | Err e, None => Some (Err e, w)
  | Err _, Some e => Some (Err e, w)
  end.
Definition read {A} (name : string) (query : Store -> result goerr A) : M (result goerr A) := fun w =>
  let trace := CStore name :: w_trace w in
  Some (match a_error trace with Some e => Err e | None => query (w_store w) end, set_trace trace w).
Definition now : M Z := ask CNow a_now.

(** A result whose error is kept for [errors.Join]. *)
Definition attempt {A} (m : M (result goerr A)) : M (option goerr) := r ← m; mret (err_of r).
Definition joined (l : list (option goerr)) : result goerr unit :=
  of_error (foldr errors_Join None l).
(** Errors of [m] are wrapped by [fmt.Errorf] with a prefix. *)
Definition wrapped {A} (prefix : string) (m : M (result goerr A)) : M (result goerr A) :=
  r ← m; mret (match r with Ok a => Ok a | Err e => Err (Wrap prefix e) end).
(** A deferred function that looks at the error of the result. *)
Definition on_error {A} (m : M (result goerr A)) (cleanup : goerr -> M (option goerr)) : M (result goerr A) :=
  r ← m;
  match r with
  | Ok a => mret (Ok a)
  | Err e => e' ← cleanup e; mret (Err (default e (errors_Join (Some e) e')))
  end.

(** [admission.Begin] and the deferred [Release]. *)
Definition with_lease {A} (kind id : string) (body : M (result goerr A)) : M (result goerr A) := fun w =>
  let '(g, r) := Admission.Begin kind id (w_gate w) in
  match r with
  | Err e => Some (Err (admission_error e), set_gate g w)
  | Ok lease =>
      match body (set_gate g w) with
      | None => None
      | Some (a, w2) => Some (a, set_gate (snd (Release lease (w_gate w2))) w2)
      end
  end.

(** *** The engine, the publisher, the firewall and the files *)

(** The container exists before the engine reads it back, so an error may leave one
    whose ID the caller never learns. *)
Definition CreateContainer (spec : RedisSpec) : M (result goerr Container) := fun w =>
  let trace := CCreate spec :: w_trace w in
  let w := set_trace trace w in
  let created id := set_containers (<[id := mkEngineContainer (rs_VolumeID spec) false]> (w_containers w)) w in
  match a_create trace with
  | Err e => Some (Err e, match a_orphan trace with Some id => created id | None => w end)
  | Ok c => Some (Ok c, created (ct_ID c))
  end.
Definition set_running (b : bool) (id : string) (w : World) : World :=
  set_containers (alter (fun c => mkEngineContainer (ec_volume c) b) id (w_containers w)) w.
Definition StartContainer (id : string) : M (result goerr unit) := perform (CStart id) (set_running true id).
Definition StopContainer (id : string) : M (result goerr unit) := perform (CStop id) (set_running false id).
Definition RemoveContainer (id : string) : M (result goerr unit) :=
  perform (CRemove id) (fun w => set_containers (delete id (w_containers w)) w).
Definition InspectContainer (id : string) : M (result goerr Container) := ask (CInspect id) a_inspect.
Definition PublishRedis (r : ManagedRedis) (c : Container) : M (result goerr unit) :=
  perform (CPublish r c) (fun w => set_published ({[mr_ID r]} ∪ w_published w) w).
Definition WithdrawRedis (r : ManagedRedis) : M (result goerr unit) :=
  perform (CWithdraw r) (fun w => set_published (w_published w ∖ {[mr_ID r]}) w).
Definition file (operation path : string) : M (result goerr unit) := ask_error (CFile operation path).
Definition removeAll_volume (volumeID path : string) : M (result goerr unit) :=
  perform (CFile "RemoveAll" path) (fun w => set_volumes (w_volumes w ∖ {[volumeID]}) w).

(** *** The controller's own maps *)

Definition activeOf (resourceID : string) : M (option activeRuntime) := fun w => Some (w_active w !! resourceID, w).
Definition setActive (resourceID : string) (a : activeRuntime) : M unit := fun w =>
  Some (tt, set_active (<[resourceID := a]> (w_active w)) w).
Definition clearActive (resourceID : string) : M unit := fun w => Some (tt, set_active (delete resourceID (w_active w)) w).
Definition availableRuntime (resourceID : string) : M (option activeRuntime * bool) := fun w =>
  Some ((w_active w !! resourceID, bool_decide (resourceID ∈ w_maintaining w)), w).
Definition beginMaintenance (resourceID : string) : M bool := fun w =>
  if bool_decide (resourceID ∈ w_maintaining w) then Some (false, w)
  else Some (true, set_maintaining ({[resourceID]} ∪ w_maintaining w) w).
Definition endMaintenance (resourceID : string) : M unit := fun w =>
  Some (tt, set_maintaining (w_maintaining w ∖ {[resourceID]}) w).

(** ** image.go and profile.go *)

Definition PermitGrowth : M (result goerr unit) := ask_error CGrowth.

Definition resolveImage (resource : ManagedRedis) : M (result goerr EngineImage) :=
  let! reference := mret (redisReference (mr_ImageTag resource)) in
  let! pinned := mret (lift_config (PinnedReference reference (mr_ImageDigest resource))) in
  inspected ← ask (CInspectImage (mr_ImageDigest resource)) a_image;
  let! image := match inspected with
                | Ok image => mret (Ok image)
                | Err _ =>
                    let! _ := wrapped "managed Redis image is not cached" PermitGrowth in
                    wrapped "pull pinned managed Redis image" (ask (CPull pinned) a_image)
                end in
  if empty (im_ID image) || negb (bool_decide (im_Digest image = mr_ImageDigest resource))
  then throw (Msg "managed Redis image digest differs") else mret (Ok image).

Definition configDirectory (runtimeID : string) : string := Join (c_GeneratedRoot config) runtimeID "".
Definition volumePath (projectID volumeID : string) : string := Join (c_VolumeRoot config) projectID volumeID.

(** A temporary file: closed at the end, and removed unless [m] put it in place. *)
Definition with_temporary {A} (m : M (result goerr A)) : M (result goerr A) :=
  r ← m;
  _ ← attempt (file "Close" "temporary");
  match r with
  | Ok a => mret (Ok a)
  | Err e => _ ← attempt (file "Remove" "temporary"); throw e
  end.

Definition writeConfig (runtimeID password : string) : M (result goerr string) :=
  if negb (safeRoot (c_GeneratedRoot config)) || negb (safePathComponent runtimeID) || negb (validPassword password)
  then throw (Msg "managed Redis generated config input is invalid")
  else
    let directory := configDirectory runtimeID in
    let! _ := wrapped "create managed Redis config directory" (file "Mkdir" directory) in
    let! _ := wrapped "inspect managed Redis config directory" (file "Lstat" directory) in
    let! _ := wrapped "set managed Redis config directory mode" (file "Chmod" directory) in
    let! _ := wrapped "create managed Redis temporary config" (file "CreateTemp" directory) in
    let! _ := with_temporary
      (let! _ := file "Chmod" "temporary" in
       let! _ := wrapped "write managed Redis config" (file "Write" "temporary") in
       let! _ := wrapped "sync managed Redis config" (file "Sync" "temporary") in
       let! _ := wrapped "close managed Redis config" (file "Close" "temporary") in
       wrapped "publish managed Redis config" (file "Rename" "redis.conf")) in
    mret (Ok (Join directory "redis.conf" "")).

Definition ensureVolume (projectID volumeID : string) : M (result goerr string) :=
  if negb (safeRoot (c_VolumeRoot config)) || negb (safePathComponent projectID) || negb (safePathComponent volumeID)
  then throw (Msg "managed Redis volume path input is invalid")
  else
    let! _ := wrapped "create project volume directory" (file "MkdirAll" (Join (c_VolumeRoot config) projectID "")) in
    let path := volumePath projectID volumeID in
    let! _ := wrapped "create managed Redis volume"
                (perform (CFile "Mkdir" path) (fun w => set_volumes ({[volumeID]} ∪ w_volumes w) w)) in
    let! _ := wrapped "inspect managed Redis volume" (file "Lstat" path) in
    mret (Ok path).

(** ** deployments.go *)

Definition newID : M (result goerr string) := ask CNewID a_newID.
Definition beginDeployment (id : string) (resource : ManagedRedis) (createdAt : Z) : M (result goerr unit) :=
  write "BeginRuntimeDeployment" (on_runtime (BeginRuntimeDeployment
    (mkRuntimeDeployment id "redis" (mr_ID resource) (mr_ImageTag resource) (mr_ImageDigest resource) "" false "" "" createdAt 0))).

Definition prepareRuntimeDeployment (resource : ManagedRedis) : M (result goerr (string * bool)) :=
  if negb (c_deployments config) then mret (Ok (mr_ID resource, false))
  else
    current ← read "ActiveRuntimeDeployment" (fun s => ActiveRuntimeDeployment "redis" (mr_ID resource) (st_runtime s));
    let fresh :=
      let! deploymentID := wrapped "allocate managed Redis deployment ID" newID in
      t ← now;
      let! _ := beginDeployment deploymentID resource (UnixMilli t) in
      mret (Ok (deploymentID, false)) in
    match current with
    | Ok d => if bool_decide (rt_ImageDigest d = mr_ImageDigest resource)
              then mret (Ok (rt_ID d, bool_decide (rt_Status d = "removed"))) else fresh
    | Err e => if errors_Is "state.ErrRuntimeDeploymentNotFound" e then fresh else throw e
    end.
Definition beginCandidateDeployment (deploymentID : string) (resource : ManagedRedis) (createdAt : Z) : M (result goerr unit) :=
  if negb (c_deployments config) then mret (Ok tt) else beginDeployment deploymentID resource createdAt.
Definition recordDeploymentFailure (deploymentID code message : string) : M (result goerr unit) :=
  if negb (c_deployments config) then mret (Ok tt)
  else t ← now; write "FailRuntimeDeployment" (on_runtime (FailRuntimeDeployment deploymentID code message (UnixMilli t))).
Definition finishCandidateDeployment (deploymentID : string) (e : goerr) : M (option goerr) :=
  if negb (c_deployments config) then mret None
  else attempt (recordDeploymentFailure deploymentID "deployment_failed" (error_text e)).
Definition activateDeployment (resourceID deploymentID : string) : M (result goerr unit) :=
  if negb (c_deployments config) then mret (Ok tt)
  else t ← now; write "ActivateRuntimeDeployment" (on_runtime (ActivateRuntimeDeployment "redis" resourceID deploymentID (UnixMilli t))).

(** ** controller.go: containers *)

Definition createContainerAttempt (resource : ManagedRedis) (runtimeID imageID : string) (placement : Placement)
    (volumeID volume configPath : string) : M (result goerr Container) :=
  if negb (safePathComponent runtimeID) then throw (Msg "managed Redis runtime ID is invalid")
  else if negb (safePathComponent volumeID) then throw (Msg "managed Redis volume ID is invalid")
  else CreateContainer (mkRedisSpec imageID ("platformd-redis-" +:+ runtimeID) (mr_ID resource) (mr_ProjectID resource)
         (NetworkName placement) (Gateway placement) (DNSSearch placement) configPath volumeID volume
         (CgroupParent placement) (mr_CPUMillicores resource) (mr_MemoryMaxBytes resource)).

(** [containerlogs.StartAttached]: the log goroutine only reports. *)
Definition startContainer (resource : ManagedRedis) (deploymentID containerID : string) : M (result goerr unit) :=
  if empty (mr_ID resource) || empty (mr_Name resource) || empty deploymentID || empty containerID
  then throw (Msg "attached container log dependencies are incomplete")
  else
    started ← StartContainer containerID;
    match started with
    | Ok _ => mret (Ok tt)
    | Err e =>
        out ← attempt (file "Close" "stdout"); err ← attempt (file "Close" "stderr");
        mret (joined [Some e; out; err])
    end.

Definition addressesOf (c : Container) (network : string) : list string := default [] (ct_IPs c !! network).
(** One project address of a running container. *)
Definition runningAddress (c : Container) (network : string) : result goerr string :=
  match addressesOf c network with
  | [address] => if bool_decide (ct_State c = "running") then Ok address else Err ErrNotRunning
  | _ => Err ErrNotRunning
  end.
Definition dial (address : string) : M (result goerr unit) := ask_error (CDial (address +:+ ":" +:+ Port)).
Definition command (name : string) : M (result goerr unit) := ask_error (CRedis name).

Fixpoint waitReadyLoop (fuel : nat) (containerID network : string) (deadline : Z) (lastProbeErr : option goerr)
    : M (result goerr Container) :=
  match fuel with
  | O => fun _ => None
  | S fuel =>
      let! container := InspectContainer containerID in
      if negb (bool_decide (ct_State container = "running"))
      then throw (Msg ("managed Redis container state is " +:+ ct_State container))
      else
        probed ← match addressesOf container network with
                 | [address] => dialled ← dial address;
                                match dialled with
                                | Ok _ => pinged ← command "PING"; _ ← command "close"; mret (Some (err_of pinged))
                                | Err e => mret (Some (Some e))
                                end
                 | _ => mret None
                 end;
        match probed with
        | Some None => mret (Ok container)
        | _ =>
            let lastProbeErr := match probed with Some e => e | None => lastProbeErr end in
            t ← ask CClock a_now;
            if deadline <=? t then
              match lastProbeErr with
              | Some e => throw (Wrap "managed Redis readiness timed out" e)
              | None => throw (Msg "managed Redis readiness timed out before a single project address was assigned")
              end
            else let! _ := ask_error CTick in waitReadyLoop fuel containerID network deadline lastProbeErr
        end
  end.
Definition waitReady (fuel : nat) (containerID network : string) : M (result goerr Container) :=
  t ← ask CClock a_now; waitReadyLoop fuel containerID network (t + c_ReadyTimeout config) None.

Definition finalSave (active : activeRuntime) : M (result goerr unit) :=
  let! container := InspectContainer (ct_ID (ar_container active)) in
  match addressesOf container (ar_network active) with
  | [address] =>
      let! _ := dial address in
      saved ← command "SAVE"; _ ← command "close"; mret saved
  | _ => throw (Msg "managed Redis container has a wrong number of project addresses")
  end.

(** ** controller.go: start and stop *)

Definition startPrepared (fuel : nat) (resource : ManagedRedis) (runtimeID : string) : M (result goerr unit) :=
  let! password := wrapped "open managed Redis password" (ask (CPassword resource) a_password) in
  if negb (validPassword password) then throw (Msg "managed Redis password has an invalid generated format")
  else
    let! placement := wrapped "place managed Redis runtime" (ask (CPlacement resource) a_placement) in
    let! image := resolveImage resource in
    let! volume := ensureVolume (mr_ProjectID resource) (mr_VolumeID resource) in
    let! configPath := writeConfig (mr_ID resource) password in
    let! container := createContainerAttempt resource runtimeID (im_ID image) placement (mr_VolumeID resource) volume configPath in
    on_error
      (let! _ := wrapped "start managed Redis container" (startContainer resource runtimeID (ct_ID container)) in
       let! ready := waitReady fuel (ct_ID container) (NetworkName placement) in
       let! _ := wrapped "publish managed Redis" (PublishRedis resource ready) in
       activated ← activateDeployment (mr_ID resource) runtimeID;
       match activated with
       | Err e => withdrawn ← attempt (WithdrawRedis resource);
                  mret (joined [Some (Wrap "activate managed Redis deployment" e); withdrawn])
       | Ok _ => _ ← setActive (mr_ID resource) (mkActiveRuntime resource ready (NetworkName placement) runtimeID); mret (Ok tt)
       end)
      (fun _ => _ ← attempt (RemoveContainer (ct_ID container)); mret None).

Definition startLocked (fuel : nat) (resourceID : string) : M (result goerr unit) :=
  active ← activeOf resourceID;
  match active with
  | Some _ => mret (Ok tt)
  | None =>
      let! resource := read "ManagedRedis" (loadRedis resourceID) in
      let! prepared := prepareRuntimeDeployment resource in
      if snd prepared : bool then mret (Ok tt)
      else on_error (startPrepared fuel resource (fst prepared))
             (fun e => attempt (recordDeploymentFailure (fst prepared) "start_failed" (error_text e)))
  end.
Definition Start (fuel : nat) (resourceID : string) : M (result goerr unit) :=
  with_lease "redis_start" resourceID (startLocked fuel resourceID).

Definition stopLocked (resourceID : string) : M (result goerr unit) :=
  active ← activeOf resourceID;
  match active with
  | None => mret (Ok tt)
  | Some active =>
      withdrawErr ← attempt (WithdrawRedis (ar_resource active));
      password ← ask (CPassword (ar_resource active)) a_password;
      saveErr ← match password with Ok _ => attempt (finalSave active) | Err e => mret (Some e) end;
      stopErr ← attempt (StopContainer (ct_ID (ar_container active)));
      removeErr ← attempt (RemoveContainer (ct_ID (ar_container active)));
      _ ← clearActive resourceID;
      mret (joined [withdrawErr; saveErr; stopErr; removeErr])
  end.
Definition Stop (resourceID : string) : M (result goerr unit) := stopLocked resourceID.

(** Loops that go on after a failure and join the errors. *)
Fixpoint for_each {A} (name : A -> string) (what : string) (f : A -> M (result goerr unit)) (l : list A) : M (option goerr) :=
  match l with
  | [] => mret None
  | x :: l => e ← attempt (f x);
              rest ← for_each name what f l;
              mret (errors_Join (option_map (Wrap (what +:+ " managed Redis " +:+ name x)) e) rest)
  end.
Definition activeIDs : M (list string) := fun w => Some (merge_sort String.le (map_to_list (w_active w)).*1, w).
Definition StopAll : M (result goerr unit) :=
  ids ← activeIDs; failures ← for_each (fun id => id) "stop" Stop ids; mret (of_error failures).
(** The resources in the order the query returns them. *)
Definition RestoreAll (fuel : nat) (order : list string) : M (result goerr unit) :=
  let! _ := read "ManagedRedisResources" (fun _ => Ok tt) in
  failures ← for_each (fun id => id) "start" (Start fuel) order; mret (of_error failures).

(** ** controller.go: quiesce and resume *)

Definition quiesce (resourceID : string) : M (option activeRuntime * option goerr) :=
  context ← attempt (ask_error CContext);
  match context with
  | Some e => mret (None, Some e)
  | None =>
      active ← activeOf resourceID;
      match active with
      | None => mret (None, None)
      | Some active =>
          r ← (let! _ := ask (CPassword (ar_resource active)) a_password in
               let! _ := finalSave active in
               let! _ := WithdrawRedis (ar_resource active) in
               stopped ← StopContainer (ct_ID (ar_container active));
               match stopped with
               | Err e => published ← attempt (PublishRedis (ar_resource active) (ar_container active));
                          mret (joined [Some e; published])
               | Ok _ => _ ← clearActive resourceID; mret (Ok tt)
               end);
          match r with
          | Err e => mret (None, Some e)
          | Ok _ => mret (Some active, None)
          end
      end
  end.
Fixpoint quiesceIDs (ids : list string) (stopped : list activeRuntime) : M (list activeRuntime * option goerr) :=
  match ids with
  | [] => mret (stopped, None)
  | id :: ids => q ← quiesce id;
                 let stopped := match fst q with Some a => stopped ++ [a] | None => stopped end in
                 match snd q with
                 | Some e => mret (stopped, Some e)
                 | None => quiesceIDs ids stopped
                 end
  end.
Definition QuiesceAll : M (list activeRuntime * option goerr) := ids ← activeIDs; quiesceIDs ids [].

Definition with_container (c : Container) (a : activeRuntime) : activeRuntime :=
  mkActiveRuntime (ar_resource a) c (ar_network a) (ar_runtimeID a).
Definition resume (fuel : nat) (runtime : activeRuntime) : M (result goerr unit) :=
  let! _ := ask (CPassword (ar_resource runtime)) a_password in
  let! _ := startContainer (ar_resource runtime) (ar_runtimeID runtime) (ct_ID (ar_container runtime)) in
  let! ready := waitReady fuel (ct_ID (ar_container runtime)) (ar_network runtime) in
  _ ← setActive (mr_ID (ar_resource runtime)) (with_container ready runtime);
  PublishRedis (ar_resource runtime) ready.
Definition resumeAll (fuel : nat) (runtimes : list activeRuntime) : M (result goerr unit) :=
  failures ← for_each (fun r => mr_ID (ar_resource r)) "resume" (resume fuel) runtimes; mret (of_error failures).

Definition Status (resourceID : string) : M (result goerr (option Container)) :=
  active ← activeOf resourceID;
  match active with
  | None => mret (Ok None)
  | Some active => let! c := InspectContainer (ct_ID (ar_container active)) in mret (Ok (Some c))
  end.

(** ** deployments.go: restart and remove *)

Definition RestartDeployment (fuel : nat) (resourceID deploymentID : string) : M (result goerr unit) :=
  if negb (c_deployments config) then throw (Msg "managed Redis deployment history is unavailable")
  else
    let! current := read "ActiveRuntimeDeployment" (fun s => ActiveRuntimeDeployment "redis" resourceID (st_runtime s)) in
    if negb (bool_decide (rt_ID current = deploymentID)) then throw ErrRuntimeDeploymentNotFound
    else
      let! _ := Stop resourceID in
      let! _ := write "RestartRuntimeDeployment" (on_runtime (RestartRuntimeDeployment "redis" resourceID deploymentID)) in
      Start fuel resourceID.
Definition RemoveDeployment (resourceID deploymentID : string) : M (result goerr unit) :=
  if negb (c_deployments config) then throw (Msg "managed Redis deployment history is unavailable")
  else
    let! deployment := read "RuntimeDeployment" (fun s => findRuntimeDeployment "redis" resourceID deploymentID (st_runtime s)) in
    if rt_Active deployment then
      let! _ := Stop resourceID in
      t ← now;
      write "StopRuntimeDeployment" (on_runtime (StopRuntimeDeployment "redis" resourceID deploymentID (UnixMilli t)))
    else write "DeleteRuntimeDeployment" (on_runtime (DeleteRuntimeDeployment "redis" resourceID deploymentID)).

(** ** The volume pointer: internal/state/managed_redis_volume.go *)

Definition SwitchManagedRedisVolume (input : SwitchInput) (s : Store) : result goerr Store :=
  let versionChange := bool_decide (sw_Action input = "redis.version_change") in
  let images := [sw_ExpectedImageTag input; sw_ExpectedImageDigest input; sw_ImageTag input; sw_ImageDigest input] in
  if empty (sw_ResourceID input) || empty (sw_ExpectedVolumeID input) || empty (sw_VolumeID input)
     || bool_decide (sw_ExpectedVolumeID input = sw_VolumeID input) || empty (sw_AuditEventID input)
     || (sw_UpdatedAtMillis input <=? 0)
     || (negb (bool_decide (sw_Action input = "redis.restore")) && negb versionChange)
  then Err (Msg "switch managed Redis volume input is invalid")
  else
    let? _ := if versionChange then
                if existsb empty images || bool_decide (sw_ExpectedImageDigest input = sw_ImageDigest input)
                then Err (Msg "managed database version change image input is invalid")
                else
                  let? _ := redisReference (sw_ExpectedImageTag input) in
                  let? _ := redisReference (sw_ImageTag input) in
                  if valid_digest (sw_ExpectedImageDigest input) && valid_digest (sw_ImageDigest input) then Ok tt
                  else Err (Msg "managed database version change digest is invalid")
              else if forallb empty images then Ok tt
                   else Err (Msg "managed Redis restore cannot change the image") in
    let actor := sw_Actor input in
    let actorOK := negb (empty (actor_ID actor)) &&
      (if bool_decide (actor_Kind actor = "access") then negb (empty (actor_Email actor))
       else if bool_decide (actor_Kind actor = "token") then empty (actor_Email actor)
       else bool_decide (actor_Kind actor = "system") && negb versionChange && empty (actor_Email actor)) in
    if negb actorOK then Err (Msg "managed volume switch actor is invalid")
    else match st_redis s !! sw_ResourceID input with
         | None => Err ErrManagedRedisNotFound
         | Some r =>
             if bool_decide (mr_VolumeID r = sw_ExpectedVolumeID input)
                && (negb versionChange || (bool_decide (mr_ImageTag r = sw_ExpectedImageTag input)
                                           && bool_decide (mr_ImageDigest r = sw_ExpectedImageDigest input)))
             then let r' := with_volume (sw_VolumeID input) (sw_UpdatedAtMillis input) r in
                  let r' := if versionChange then with_image (sw_ImageTag input) (sw_ImageDigest input) r' else r' in
                  Ok (set_redis (insert (sw_ResourceID input) r') s)
             else Err (Msg "managed Redis active pointer changed concurrently")
         end.

(** ** restore.go *)

Definition validRestoreActor (actor : Actor) : bool :=
  negb (empty (actor_ID actor)) &&
  (if bool_decide (actor_Kind actor = "access") then negb (empty (actor_Email actor))
   else (bool_decide (actor_Kind actor = "token") || bool_decide (actor_Kind actor = "system")) && empty (actor_Email actor)).

Fixpoint allocateIDs (n : nat) (seen : list string) : M (result goerr (list string)) :=
  match n with
  | O => mret (Ok seen)
  | S n =>
      let! identifier := wrapped "allocate managed Redis restore ID" newID in
      if negb (safePathComponent identifier) then throw (Msg "managed Redis restore ID source returned an invalid ID")
      else if bool_decide (identifier ∈ seen) then throw (Msg "managed Redis restore ID source returned duplicate IDs")
      else allocateIDs n (seen ++ [identifier])
  end.
(** Volume, runtime, audit event and correlation. *)
Record Identifiers := mkIdentifiers { i_volume : string; i_runtime : string; i_audit : string; i_correlation : string }.
Definition restoreIdentifiers (what : string) (resource : ManagedRedis) : M (result goerr Identifiers) :=
  let! ids := allocateIDs 4 [] in
  match ids with
  | [volumeID; runtimeID; auditID; correlationID] =>
      if bool_decide (volumeID = mr_VolumeID resource) || bool_decide (runtimeID = mr_ID resource) || bool_decide (volumeID = runtimeID)
      then throw (Msg ("managed Redis " +:+ what +:+ " identifiers are not unique"))
      else mret (Ok (mkIdentifiers volumeID runtimeID auditID correlationID))
  | _ => throw (Msg "unreachable")
  end.

Definition syncDirectory (path : string) : M (result goerr unit) :=
  let! _ := file "Open" path in file "Sync" path.

Definition removeManagedRedisVolume (projectID volumeID : string) : M (result goerr unit) :=
  if negb (safeRoot (c_VolumeRoot config)) || negb (safePathComponent projectID) || negb (safePathComponent volumeID)
  then throw (Msg "managed Redis volume removal input is invalid")
  else
    let! _ := wrapped "remove managed Redis runtime volume" (ask_error (CRemoveVolume volumeID)) in
    let! _ := removeAll_volume volumeID (volumePath projectID volumeID) in
    let projectRoot := Join (c_VolumeRoot config) projectID "" in
    stat ← file "Stat" projectRoot;
    match stat with
    | Err e => if errors_Is "os.ErrNotExist" e then mret (Ok tt) else throw e
    | Ok _ => syncDirectory projectRoot
    end.
Definition removeManagedRedisConfig (runtimeID : string) : M (result goerr unit) :=
  if negb (safeRoot (c_GeneratedRoot config)) || negb (safePathComponent runtimeID)
  then throw (Msg "managed Redis config removal input is invalid")
  else file "RemoveAll" (configDirectory runtimeID).

Definition createRestoreVolume (projectID volumeID : string) : M (result goerr string) :=
  let! volume := ensureVolume projectID volumeID in
  let! entries := wrapped "inspect managed Redis restore volume" (ask (CFile "ReadDir" volume) a_entries) in
  if negb (entries =? 0) then throw (Msg "managed Redis restore volume is not empty") else mret (Ok volume).

Definition writeRestoreRDB (volume : string) : M (result goerr unit) :=
  let! _ := wrapped "create managed Redis restore RDB" (file "CreateTemp" volume) in
  let! _ := with_temporary
    (let! _ := file "Chmod" "temporary" in
     let! written := wrapped "write managed Redis restore RDB" (ask CRead a_copied) in
     if written =? 0 then throw (Msg "managed Redis restore RDB is empty")
     else
       let! _ := wrapped "sync managed Redis restore RDB" (file "Sync" "temporary") in
       let! _ := wrapped "close managed Redis restore RDB" (file "Close" "temporary") in
       exists_ ← file "Lstat" (Join volume "dump.rdb" "");
       match exists_ with
       | Ok _ => throw (Msg "managed Redis restore RDB already exists")
       | Err e => if negb (errors_Is "os.ErrNotExist" e) then throw e
                  else wrapped "publish managed Redis restore RDB" (file "Rename" (Join volume "dump.rdb" ""))
       end) in
  syncDirectory volume.

Definition removeRestoreCandidate (containerID : string) (started : bool) (projectID volumeID runtimeID : string) : M (option goerr) :=
  stopErr ← (if started && negb (empty containerID) then attempt (StopContainer containerID) else mret None);
  removeErr ← (if negb (empty containerID) then attempt (RemoveContainer containerID) else mret None);
  volumeErr ← match removeErr with None => attempt (removeManagedRedisVolume projectID volumeID) | Some _ => mret None end;
  configErr ← attempt (removeManagedRedisConfig runtimeID);
  mret (foldr errors_Join None [stopErr; removeErr; volumeErr; configErr]).

Definition removeReplacedRuntime (runtime : option activeRuntime) (resource : ManagedRedis) : M (option goerr) :=
  removed ← match runtime with
            | Some a => attempt (wrapped "remove replaced managed Redis container" (RemoveContainer (ct_ID (ar_container a))))
            | None => mret None
            end;
  match removed with
  | Some e => mret (Some e)
  | None =>
      let configID := match runtime with Some a => if empty (ar_runtimeID a) then mr_ID resource else ar_runtimeID a | None => mr_ID resource end in
      volumeErr ← attempt (removeManagedRedisVolume (mr_ProjectID resource) (mr_VolumeID resource));
      configErr ← attempt (removeManagedRedisConfig configID);
      mret (errors_Join volumeErr configErr)
  end.

(** Starting the old runtime again and publishing it. *)
Definition recoverRuntime (fuel : nat) (runtime : activeRuntime) (restart : bool) (why : string) : M (result goerr unit) :=
  let! container :=
    if restart then
      let! _ := wrapped ("restart managed Redis after failed " +:+ why)
                  (startContainer (ar_resource runtime) (ar_runtimeID runtime) (ct_ID (ar_container runtime))) in
      wrapped ("validate managed Redis after failed " +:+ why)
        (waitReady fuel (ct_ID (ar_container runtime)) (ar_network runtime))
    else mret (Ok (ar_container runtime)) in
  _ ← setActive (mr_ID (ar_resource runtime)) (with_container container runtime);
  wrapped ("republish managed Redis after failed " +:+ why) (PublishRedis (ar_resource runtime) container).
Definition recoverOldRuntime (fuel : nat) (runtime : option activeRuntime) (stopped : bool) : M (option goerr) :=
  match runtime with
  | Some runtime => if stopped then attempt (recoverRuntime fuel runtime true "restore switch") else mret None
  | None => mret None
  end.

(** What the deferred functions of a replacement look at: the candidate, and how
    far the switch got. *)
Record Progress := mkProgress {
  p_candidate : string; p_started : bool; p_withdrawn : bool; p_stopped : bool; p_committed : bool;
  p_blocked : option string; p_maintaining : bool; p_source : bool
}.
Definition no_progress : Progress := mkProgress "" false false false false None false false.
(** An early return with the progress made. *)
Definition step_or {A B} (p : Progress) (m : M (result goerr A)) (k : A -> M (Progress * result goerr B)) : M (Progress * result goerr B) :=
  r ← m; match r with Ok a => k a | Err e => mret (p, Err e) end.
#[local] Notation "'try' p 'get' x ':=' m 'in' k" := (step_or p m (fun x => k))
  (at level 10, p at level 9, x name, m at level 100, k at level 200).

Definition restoreSwitch (fuel : nat) (resource : ManagedRedis) (old : option activeRuntime) (password : string)
    (placement : Placement) (image : EngineImage) (ids : Identifiers) (actor : Actor) (timestamp : Z) (volume : string)
    : M (Progress * result goerr unit) :=
  let p := no_progress in
  try p get _ := writeRestoreRDB volume in
  try p get configPath := writeConfig (i_runtime ids) password in
  try p get candidate := createContainerAttempt resource (i_runtime ids) (im_ID image) placement (i_volume ids) volume configPath in
  let p := mkProgress (ct_ID candidate) false false false false None false false in
  try p get _ := wrapped "start managed Redis restore candidate" (startContainer resource (i_runtime ids) (ct_ID candidate)) in
  let p := mkProgress (ct_ID candidate) true false false false None false false in
  try p get ready := wrapped "validate managed Redis restore candidate" (waitReady fuel (ct_ID candidate) (NetworkName placement)) in
  let p := mkProgress (ct_ID ready) true false false false None false false in
  try p get _ := match old with
                 | Some old =>
                     let! _ := wrapped "withdraw managed Redis before restore switch" (WithdrawRedis (ar_resource old)) in
                     stopped ← StopContainer (ct_ID (ar_container old));
                     match stopped with
                     | Ok _ => mret (Ok tt)
                     | Err e => published ← attempt (PublishRedis (ar_resource old) (ar_container old));
                                mret (joined [Some (Wrap "stop managed Redis before restore switch" e); published])
                     end
                 | None => mret (Ok tt)
                 end in
  switched ← write "SwitchManagedRedisVolume" (SwitchManagedRedisVolume
    (mkSwitch (mr_ID resource) (mr_VolumeID resource) (i_volume ids) "" "" "" "" "redis.restore" (i_audit ids) actor
       (i_correlation ids) (UnixMilli timestamp)));
  match switched with
  | Err e => recovered ← recoverOldRuntime fuel old true; mret (p, joined [Some e; recovered])
  | Ok _ =>
      let p := mkProgress (ct_ID ready) true false true true None false false in
      let switched := with_volume (i_volume ids) (UnixMilli timestamp) resource in
      _ ← setActive (mr_ID resource) (mkActiveRuntime switched ready (NetworkName placement) (i_runtime ids));
      try p get _ := activateDeployment (mr_ID resource) (i_runtime ids) in
      publishErr ← attempt (PublishRedis switched ready);
      cleanupErr ← removeReplacedRuntime old resource;
      mret (p, joined [publishErr; cleanupErr])
  end.

Definition RestoreReplace (fuel : nat) (resourceID : string) (actor : Actor) : M (result goerr unit) :=
  if negb (safePathComponent resourceID) then throw (Msg "managed Redis restore input is invalid")
  else if negb (validRestoreActor actor) then throw (Msg "managed Redis restore actor is invalid")
  else
    let! resource := read "ManagedRedis" (loadRedis resourceID) in
    old ← activeOf resourceID;
    if match old with Some a => negb (bool_decide (mr_VolumeID (ar_resource a) = mr_VolumeID resource)) | None => false end
    then throw (Msg "managed Redis runtime does not match the active volume")
    else
      let! password := wrapped "open managed Redis password" (ask (CPassword resource) a_password) in
      if negb (validPassword password) then throw (Msg "managed Redis password has an invalid generated format")
      else
        let! placement := wrapped "place managed Redis restore candidate" (ask (CPlacement resource) a_placement) in
        let! image := resolveImage resource in
        let! _ := wrapped "create managed Redis restore volume" PermitGrowth in
        timestamp ← now;
        let! ids := restoreIdentifiers "restore" resource in
        let! _ := beginCandidateDeployment (i_runtime ids) resource (UnixMilli timestamp) in
        on_error
          (let! volume := createRestoreVolume (mr_ProjectID resource) (i_volume ids) in
           outcome ← restoreSwitch fuel resource old password placement image ids actor timestamp volume;
           let '(p, r) := outcome in
           if p_committed p then mret r
           else cleanup ← removeRestoreCandidate (p_candidate p) (p_started p) (mr_ProjectID resource) (i_volume ids) (i_runtime ids);
                mret (joined [err_of r; cleanup]))
          (finishCandidateDeployment (i_runtime ids)).

(** ** controller.go: a fresh dump for backups and upgrades *)

Definition query (active : activeRuntime) : M (result goerr unit) :=
  let! container := InspectContainer (ct_ID (ar_container active)) in
  let! address := mret (runningAddress container (ar_network active)) in
  dial address.

(** [waitForBackgroundSave] without a new file, and with one: [previous] is the
    identity of the dump before the save. *)
Fixpoint waitIdle (fuel : nat) : M (result goerr unit) :=
  match fuel with
  | O => fun _ => None
  | S fuel => let! status := ask (CRedis "INFO") a_status in
              if negb (BackgroundSaveInProgress status) then mret (Ok tt)
              else let! _ := ask_error CTick in waitIdle fuel
  end.
Fixpoint waitAndOpenBackgroundSave (fuel : nat) (path : string) (previous : option Z) : M (result goerr unit) :=
  match fuel with
  | O => fun _ => None
  | S fuel =>
      let again := let! _ := ask_error CTick in waitAndOpenBackgroundSave fuel path previous in
      let! status := ask (CRedis "INFO") a_status in
      if BackgroundSaveInProgress status then again
      else if negb (LastBackgroundSaveOK status) then throw (Msg "Redis background save failed")
      else
        let! opened := ask (CFile "Open" path) a_dump in
        match opened with
        | None => again
        | Some info =>
            if bool_decide (previous = Some info) then _ ← attempt (file "Close" path); again
            else
              current ← ask (CFile "Stat" path) a_dump;
              match current with
              | Ok (Some c) => if bool_decide (c = info) then mret (Ok tt) else _ ← attempt (file "Close" path); again
              | Ok None => _ ← attempt (file "Close" path); throw (Sentinel "os.ErrNotExist" "file does not exist")
              | Err e => _ ← attempt (file "Close" path); throw e
              end
        end
  end.
Definition openFreshRDB (fuel : nat) (active : activeRuntime) : M (result goerr unit) :=
  let! _ := query active in
  opened ← (let! _ := waitIdle fuel in
            let path := Join (volumePath (mr_ProjectID (ar_resource active)) (mr_VolumeID (ar_resource active))) "dump.rdb" "" in
            let! previous := ask (CFile "Stat" path) a_dump in
            let! _ := command "BGSAVE" in
            waitAndOpenBackgroundSave fuel path previous);
  _ ← command "close"; mret opened.
Definition OpenBackupRDB (fuel : nat) (resourceID : string) : M (result goerr unit) :=
  with_lease "redis_backup_snapshot" resourceID
    (active ← activeOf resourceID;
     match active with
     | None => throw ErrNotRunning
     | Some active => let! _ := ask (CPassword (ar_resource active)) a_password in openFreshRDB fuel active
     end).

(** ** controller.go: browsing, statistics and mutations *)

Definition withConnection (resourceID operation : string) : M (result goerr unit) :=
  available ← availableRuntime resourceID;
  let '(active, maintenance) := available in
  if maintenance : bool then throw ErrMaintenance
  else match active with
       | None => throw ErrNotRunning
       | Some active =>
           let! _ := ask (CPassword (ar_resource active)) a_password in
           let! _ := query active in
           r ← command operation; _ ← command "close"; mret r
       end.
Definition ScanKeys (resourceID : string) := withConnection resourceID "SCAN".
Definition Persistence (resourceID : string) := withConnection resourceID "INFO".
Definition Stats (resourceID : string) := withConnection resourceID "STATS".
Definition PreviewKey (resourceID : string) := withConnection resourceID "PREVIEW".
Definition Mutate (resourceID : string) := with_lease "redis_mutation" resourceID (withConnection resourceID "MUTATE").

(** ** version_change.go *)

Definition validVersionChangeActor (actor : Actor) : bool :=
  negb (empty (actor_ID actor)) &&
  (if bool_decide (actor_Kind actor = "access") then negb (empty (actor_Email actor))
   else bool_decide (actor_Kind actor = "token") && empty (actor_Email actor)).
Definition redisVersionEndpoint (runtime : activeRuntime) : M (result goerr string) :=
  let! container := InspectContainer (ct_ID (ar_container runtime)) in
  let! address := mret (runningAddress container (ar_network runtime)) in
  mret (parse_ipv4 address).
Definition drainAndKillClients (runtime : activeRuntime) : M (result goerr unit) :=
  let! _ := ask_error CTick in
  let! _ := query runtime in
  killed ← attempt (command "CLIENT KILL"); closed ← attempt (command "close"); mret (joined [killed; closed]).
Definition BlockDatabase (endpoint : string) : M (result goerr unit) := fun w =>
  let trace := CBlock endpoint :: w_trace w in
  let w := set_trace trace w in
  match a_error trace with
  | Some e => Some (Err e, w)
  | None => Some (Ok tt, set_blocked ({[endpoint]} ∪ w_blocked w) w)
  end.
Definition UnblockDatabase (endpoint : string) : M (result goerr unit) :=
  perform (CUnblock endpoint) (fun w => set_blocked (w_blocked w ∖ {[endpoint]}) w).

(** From the endpoint on, up to the switch.  [candidate, err = waitReady(..)]
    assigns the candidate also when the wait fails: it is empty then. *)
Definition versionSwitch (fuel : nat) (resource target : ManagedRedis) (old : activeRuntime) (password : string)
    (placement : Placement) (image : EngineImage) (ids : Identifiers) (actor : Actor) (timestamp : Z)
    : M (Progress * result goerr unit) :=
  let p := no_progress in
  try p get endpoint := redisVersionEndpoint old in
  began ← beginMaintenance (mr_ID resource);
  if negb began then mret (p, Err ErrMaintenance)
  else
    let p := mkProgress "" false false false false None true false in
    try p get _ := wrapped "block new managed Redis connections" (BlockDatabase endpoint) in
    let p := mkProgress "" false false false false (Some endpoint) true false in
    try p get _ := WithdrawRedis resource in
    let p := mkProgress "" false true false false (Some endpoint) true false in
    try p get _ := wrapped "drain managed Redis clients" (drainAndKillClients old) in
    try p get volume := createRestoreVolume (mr_ProjectID resource) (i_volume ids) in
    try p get _ := wrapped "save managed Redis before version change" (openFreshRDB fuel old) in
    let p := mkProgress "" false true false false (Some endpoint) true true in
    try p get _ := wrapped "stop managed Redis before version change" (StopContainer (ct_ID (ar_container old))) in
    let p := mkProgress "" false true true false (Some endpoint) true true in
    _ ← clearActive (mr_ID resource);
    try p get _ := wrapped "copy managed Redis version-change RDB" (writeRestoreRDB volume) in
    try p get _ := wrapped "close managed Redis version-change RDB" (file "Close" "source") in
    let p := mkProgress "" false true true false (Some endpoint) true false in
    try p get configPath := writeConfig (i_runtime ids) password in
    try p get candidate := createContainerAttempt target (i_runtime ids) (im_ID image) placement (i_volume ids) volume configPath in
    let p := mkProgress (ct_ID candidate) false true true false (Some endpoint) true false in
    try p get _ := wrapped "start managed Redis version-change candidate" (startContainer target (i_runtime ids) (ct_ID candidate)) in
    let p := mkProgress "" true true true false (Some endpoint) true false in
    try p get candidate := wrapped "validate managed Redis version-change candidate" (waitReady fuel (ct_ID candidate) (NetworkName placement)) in
    let p := mkProgress (ct_ID candidate) true true true false (Some endpoint) true false in
    try p get _ := write "SwitchManagedRedisVolume" (SwitchManagedRedisVolume
      (mkSwitch (mr_ID resource) (mr_VolumeID resource) (i_volume ids) (mr_ImageTag resource) (mr_ImageDigest resource)
         (mr_ImageTag target) (mr_ImageDigest target) "redis.version_change" (i_audit ids) actor (i_correlation ids) (UnixMilli timestamp))) in
    let p := mkProgress (ct_ID candidate) true true true true (Some endpoint) true false in
    let target := with_volume (i_volume ids) (UnixMilli timestamp) target in
    _ ← setActive (mr_ID resource) (mkActiveRuntime target candidate (NetworkName placement) (i_runtime ids));
    try p get _ := activateDeployment (mr_ID resource) (i_runtime ids) in
    publishErr ← attempt (PublishRedis target candidate);
    cleanupErr ← removeReplacedRuntime (Some old) resource;
    mret (p, joined [publishErr; cleanupErr]).

(** The deferred functions, last registered first. *)
Definition versionDeferred (fuel : nat) (resource : ManagedRedis) (old : activeRuntime) (ids : Identifiers)
    (outcome : Progress * result goerr unit) : M (result goerr unit) :=
  let '(p, r) := outcome in
  closed ← (if p_source p then attempt (file "Close" "source") else mret None);
  _ ← (if p_maintaining p then endMaintenance (mr_ID resource) else mret tt);
  cleaned ← (if p_committed p then mret None
             else
               cleanupErr ← removeRestoreCandidate (p_candidate p) (p_started p) (mr_ProjectID resource) (i_volume ids) (i_runtime ids);
               recoveryErr ← (if p_withdrawn p then attempt (recoverRuntime fuel old (p_stopped p) "version change") else mret None);
               mret (errors_Join cleanupErr recoveryErr));
  released ← match p_blocked p with Some endpoint => attempt (UnblockDatabase endpoint) | None => mret None end;
  mret (joined [err_of r; closed; cleaned; released]).

Definition ChangeVersion (fuel : nat) (resourceID imageTag imageDigest : string) (actor : Actor) : M (result goerr unit) :=
  if negb (safePathComponent resourceID) || empty imageDigest then throw (Suffix ErrInvalidInput ": version change target is incomplete")
  else match redisReference imageTag with
  | Err e => throw (Suffix ErrInvalidInput (": " +:+ error_text e))
  | Ok _ =>
    if negb (validVersionChangeActor actor) then throw (Suffix ErrInvalidInput ": version change actor is invalid")
    else with_lease "redis_version_change" resourceID
      (let! resource := read "ManagedRedis" (loadRedis resourceID) in
       if bool_decide (mr_ImageDigest resource = imageDigest) then throw (Suffix ErrInvalidInput ": target digest is already active")
       else
         active ← activeOf (mr_ID resource);
         match active with
         | None => throw ErrNotRunning
         | Some old =>
             if negb (bool_decide (mr_VolumeID (ar_resource old) = mr_VolumeID resource))
                || negb (bool_decide (mr_ImageDigest (ar_resource old) = mr_ImageDigest resource))
             then throw (Msg "managed Redis runtime does not match the active pointer")
             else
               let target := with_image imageTag imageDigest resource in
               let! image := resolveImage target in
               let! _ := wrapped "create managed Redis version-change volume" PermitGrowth in
               timestamp ← now;
               let! ids := restoreIdentifiers "version-change" resource in
               let! _ := beginCandidateDeployment (i_runtime ids) target (UnixMilli timestamp) in
               on_error
                 (let! password := wrapped "open managed Redis password" (ask (CPassword resource) a_password) in
                  let! placement := wrapped "place managed Redis version-change candidate" (ask (CPlacement resource) a_placement) in
                  outcome ← versionSwitch fuel resource target old password placement image ids actor timestamp;
                  versionDeferred fuel resource old ids outcome)
                 (finishCandidateDeployment (i_runtime ids))
         end)
  end.

(** ** deletion.go *)

Definition deleteRow (input : DeleteInput) (s : Store) : result goerr Store :=
  if empty (di_ID input) || empty (di_ProjectID input) || (di_ExpectedUpdatedMillis input <=? 0)
     || empty (di_AuditEventID input) || (di_DeletedAtMillis input <=? 0)
  then Err (Msg "delete resource input is incomplete")
  else if negb (validVersionChangeActor (di_Actor input)) then Err (Msg "mutation actor is invalid")
  else match st_redis s !! di_ID input with
  | None => Err ErrManagedRedisNotFound
  | Some r =>
      if negb (bool_decide (mr_ProjectID r = di_ProjectID input)) then Err ErrManagedRedisNotFound
      else if negb (mr_UpdatedAtMillis r =? di_ExpectedUpdatedMillis input) then Err ErrManagedRedisChanged
      else Ok (mkStore (delete (di_ID input) (st_redis s))
                 (filter (fun x => of_resource "redis" (di_ID input) x.2 = false) (st_runtime s)))
  end.
Definition restartAfterDeleteFailure (fuel : nat) (resourceID : string) (wasActive : bool) : M (option goerr) :=
  if wasActive then attempt (startLocked fuel resourceID) else mret None.
(** The result is the endpoint to unblock, when the resource runs. *)
Definition prepareDeletionMaintenance (active : option activeRuntime) : M (result goerr (option string)) :=
  match active with
  | None => mret (Ok None)
  | Some active =>
      let id := mr_ID (ar_resource active) in
      let! endpoint := redisVersionEndpoint active in
      let! _ := wrapped "open managed Redis password before deletion" (ask (CPassword (ar_resource active)) a_password) in
      began ← beginMaintenance id;
      if negb began then throw ErrMaintenance
      else
        blocked ← BlockDatabase endpoint;
        match blocked with
        | Err e => _ ← endMaintenance id; throw (Wrap "block new managed Redis connections before deletion" e)
        | Ok _ =>
            drained ← drainAndKillClients active;
            match drained with
            | Ok _ => mret (Ok (Some endpoint))
            | Err e => released ← attempt (UnblockDatabase endpoint);
                       _ ← endMaintenance id;
                       mret (match joined [Some (Wrap "drain managed Redis clients before deletion" e); released] with
                             | Err e => Err e | Ok _ => Ok None end)
            end
        end
  end.
Definition Delete (fuel : nat) (input : DeleteInput) : M (result goerr unit) :=
  let id := di_ID input in
  with_lease "redis_delete" id
    (let! resource := read "ManagedRedis" (loadRedis id) in
     if negb (bool_decide (mr_ProjectID resource = di_ProjectID input)) then throw ErrManagedRedisNotFound
     else if negb (mr_UpdatedAtMillis resource =? di_ExpectedUpdatedMillis input) then throw ErrManagedRedisChanged
     else
       active ← activeOf id;
       let! endpoint := prepareDeletionMaintenance active in
       let wasActive := match active with Some _ => true | None => false end in
       outcome ← (stopped ← stopLocked id;
                  match stopped with
                  | Err e => restarted ← restartAfterDeleteFailure fuel id wasActive; mret (false, joined [Some e; restarted])
                  | Ok _ =>
                      deleted ← write "DeleteManagedRedis" (deleteRow input);
                      match deleted with
                      | Err e => restarted ← restartAfterDeleteFailure fuel id wasActive; mret (false, joined [Some e; restarted])
                      | Ok _ =>
                          volumeErr ← attempt (removeManagedRedisVolume (mr_ProjectID resource) (mr_VolumeID resource));
                          configErr ← attempt (removeManagedRedisConfig id);
                          runtimeErr ← match active with
                                       | Some a => if bool_decide (ar_runtimeID a = id) then mret None
                                                   else attempt (removeManagedRedisConfig (ar_runtimeID a))
                                       | None => mret None
                                       end;
                          _ ← match foldr errors_Join None [volumeErr; configErr; runtimeErr] with
                              | Some e => ask (CCleanupError e) (fun _ => tt)
                              | None => mret tt
                              end;
                          mret (true, Ok tt)
                      end
                  end);
       let '(committed, r) := outcome in
       match endpoint with
       | None => mret r
       | Some endpoint =>
           released ← attempt (UnblockDatabase endpoint);
           _ ← endMaintenance id;
           match released with
           | None => mret r
           | Some e => if committed : bool then _ ← ask (CCleanupError e) (fun _ => tt); mret r
                       else mret (joined [err_of r; Some (Wrap "release managed Redis deletion maintenance" e)])
           end
       end).
End Controller.
