(* ===== verification/ManagedRedisProofs.v ===== *)
(** * ManagedRedisProofs: what the life cycle of managed Redis preserves

    A relation between worlds that allows the updates a function makes holds across
    every run of it; the first part proves this once for every function, under the
    permissions it needs.  The theorems choose the relation. *)

From S2P Require Import Prelude Effects Names Admission ServiceConfig DeploymentStore Runtime RuntimeDeployments ManagedRedis.

(** ** Permissions *)

Section Permissions.
Context (R : relation World).
(** What every function needs. *)
Record lenient : Prop := {
  len_refl : Reflexive R;
  len_trans : Transitive R;
  len_trace : forall w c, R w (set_trace (c :: w_trace w) w);
  len_published : forall w v, R w (set_published v w);
  len_blocked : forall w v, R w (set_blocked v w);
  len_gate : forall w v, R w (set_gate v w);
  len_runtime : forall w t, R w (set_store (mkStore (st_redis (w_store w)) t) w);
  len_alter : forall w id b, R w (set_running b id w);
  len_remove : forall w id, R w (set_containers (delete id (w_containers w)) w);
  len_mkdir : forall w v, R w (set_volumes ({[v]} ∪ w_volumes w) w)
}.
Definition allows_active : Prop := forall w v, R w (set_active v w).
Definition allows_removal (volumeID : string) : Prop := forall w, R w (set_volumes (w_volumes w ∖ {[volumeID]}) w).
Definition allows_create : Prop := forall w id v, R w (set_containers (<[id := mkEngineContainer v false]> (w_containers w)) w).
Definition allows_maintenance (id : string) : Prop :=
  (forall w, R w (set_maintaining ({[id]} ∪ w_maintaining w) w)) /\ forall w, R w (set_maintaining (w_maintaining w ∖ {[id]}) w).
End Permissions.

Create HintDb redis_resp.

Ltac resp_steps :=
  resp_walk ltac:(first [assumption | solve [eauto 2 with redis_resp] | progress unfold attempt, wrapped]).

Section Functions.
Context `{HostnameTables} `{ConfigTables} {env : RedisEnv} (config : Config).
Context (R : relation World) (HR : lenient R).
#[local] Instance R_refl : Reflexive R := len_refl R HR.
#[local] Instance R_trans : Transitive R := len_trans R HR.

Lemma resp_ask {A} c (answer : list Call -> A) : resp R (ask c answer).
Proof. intros w a w' [= <- <-]. apply (len_trace R HR). Qed.
Lemma resp_ask_error c : resp R (ask_error c).
Proof. apply resp_ask. Qed.
Lemma resp_perform c effect : (forall w, R w (effect w)) -> resp R (perform c effect).
Proof.
  intros He w a w'. unfold perform. assert (R w (set_trace (c :: w_trace w) w)) as Ht by apply (len_trace R HR).
  destruct (a_error _); [destruct (a_effect _)|]; intros [= <- <-]; [|done|]; by etrans.
Qed.
Lemma resp_write name operation :
  (forall w s, operation (w_store w) = Ok s -> R w (set_store s w)) -> resp R (write name operation).
Proof.
  intros Ho w a w'. unfold write. set (w1 := set_trace _ w). assert (R w w1) as Ht by apply (len_trace R HR).
  destruct (operation (w_store w1)) as [s|e] eqn:E.
  - specialize (Ho _ _ E). destruct (a_error _); [destruct (a_effect _)|]; intros [= <- <-]; [|done|]; by etrans.
  - destruct (a_error _); by intros [= <- <-].
Qed.
Lemma resp_read {A} name (query : Store -> result goerr A) : resp R (read name query).
Proof. intros w a w' [= <- <-]. apply (len_trace R HR). Qed.
Lemma resp_write_runtime name f : resp R (write name (on_runtime f)).
Proof.
  apply resp_write. intros w s. unfold on_runtime. destruct (f _) as [t|e]; simpl; [|done]. intros [= <-]. apply (len_runtime R HR).
Qed.
Lemma resp_activeOf id : resp R (activeOf id).
Proof. by intros w a w' [= <- <-]. Qed.
Lemma resp_available id : resp R (availableRuntime id).
Proof. by intros w a w' [= <- <-]. Qed.
Lemma resp_fuel {A} : resp R (fun _ : World => @None (A * World)).
Proof. by intros w a w'. Qed.
Hint Resolve resp_ask resp_ask_error resp_read resp_write_runtime resp_activeOf resp_available resp_fuel : redis_resp.

Lemma resp_on_error {A} (m : M (result goerr A)) cleanup : resp R m -> (forall e, resp R (cleanup e)) -> resp R (on_error m cleanup).
Proof. intros Hm Hc. unfold on_error. resp_steps. Qed.
Lemma resp_with_lease {A} kind id (m : M (result goerr A)) : resp R m -> resp R (with_lease kind id m).
Proof.
  intros Hm w a w'. unfold with_lease. destruct (Admission.Begin kind id (w_gate w)) as [g r].
  pose proof (len_gate R HR w g) as Hg. destruct r as [lease|e]; [|by intros [= <- <-]].
  destruct (m (set_gate g w)) as [[b w2]|] eqn:E; [|done]. intros [= <- <-].
  etrans; [done|]. etrans; [by eapply Hm|]. apply (len_gate R HR).
Qed.

Lemma resp_start id : resp R (StartContainer id).
Proof. apply resp_perform. intros w. apply (len_alter R HR). Qed.
Lemma resp_stop id : resp R (StopContainer id).
Proof. apply resp_perform. intros w. apply (len_alter R HR). Qed.
Lemma resp_remove id : resp R (RemoveContainer id).
Proof. apply resp_perform. intros w. apply (len_remove R HR). Qed.
Lemma resp_inspect id : resp R (InspectContainer id).
Proof. apply resp_ask. Qed.
Lemma resp_publish r c : resp R (PublishRedis r c).
Proof. apply resp_perform. intros w. apply (len_published R HR). Qed.
Lemma resp_withdraw r : resp R (WithdrawRedis r).
Proof. apply resp_perform. intros w. apply (len_published R HR). Qed.
Lemma resp_unblock e : resp R (UnblockDatabase e).
Proof. apply resp_perform. intros w. apply (len_blocked R HR). Qed.
Lemma resp_block e : resp R (BlockDatabase e).
Proof.
  intros w a w'. unfold BlockDatabase. set (w1 := set_trace _ w). assert (R w w1) as Ht by apply (len_trace R HR).
  destruct (a_error _); intros [= <- <-]; [done|]. etrans; [done|]. apply (len_blocked R HR).
Qed.
Lemma resp_file o p : resp R (file o p).
Proof. apply resp_ask. Qed.
Lemma resp_dial a : resp R (dial a).
Proof. apply resp_ask. Qed.
Lemma resp_command c : resp R (command c).
Proof. apply resp_ask. Qed.
Lemma resp_now : resp R now.
Proof. apply resp_ask. Qed.
Lemma resp_newID : resp R newID.
Proof. apply resp_ask. Qed.
Lemma resp_growth : resp R PermitGrowth.
Proof. apply resp_ask. Qed.
Hint Resolve resp_start resp_stop resp_remove resp_inspect resp_publish resp_withdraw resp_unblock resp_block resp_file resp_dial
  resp_command resp_now resp_newID resp_growth : redis_resp.

Lemma resp_resolveImage r : resp R (resolveImage r).
Proof. unfold resolveImage. resp_steps. Qed.
Lemma resp_with_temporary {A} (m : M (result goerr A)) : resp R m -> resp R (with_temporary m).
Proof. intros Hm. unfold with_temporary. resp_steps. Qed.
Lemma resp_writeConfig id p : resp R (writeConfig config id p).
Proof. unfold writeConfig. resp_steps. apply resp_with_temporary. resp_steps. Qed.
Lemma resp_ensureVolume p v : resp R (ensureVolume config p v).
Proof. unfold ensureVolume. resp_steps. apply resp_perform. intros w. apply (len_mkdir R HR). Qed.
Hint Resolve resp_resolveImage resp_writeConfig resp_ensureVolume : redis_resp.

Lemma resp_beginDeployment id r t : resp R (beginDeployment id r t).
Proof. apply resp_write_runtime. Qed.
Hint Resolve resp_beginDeployment : redis_resp.
Lemma resp_prepare r : resp R (prepareRuntimeDeployment config r).
Proof. unfold prepareRuntimeDeployment. resp_steps. Qed.
Lemma resp_beginCandidate id r t : resp R (beginCandidateDeployment config id r t).
Proof. unfold beginCandidateDeployment. resp_steps. Qed.
Lemma resp_recordFailure id c m : resp R (recordDeploymentFailure config id c m).
Proof. unfold recordDeploymentFailure. resp_steps. Qed.
Hint Resolve resp_prepare resp_beginCandidate resp_recordFailure : redis_resp.
Lemma resp_finishCandidate id e : resp R (finishCandidateDeployment config id e).
Proof. unfold finishCandidateDeployment. resp_steps. Qed.
Lemma resp_activate r id : resp R (activateDeployment config r id).
Proof. unfold activateDeployment. resp_steps. Qed.
Lemma resp_startContainer r d c : resp R (startContainer r d c).
Proof. unfold startContainer. resp_steps. Qed.
Hint Resolve resp_finishCandidate resp_activate resp_startContainer : redis_resp.
Lemma resp_waitReadyLoop fuel c n d l : resp R (waitReadyLoop fuel c n d l).
Proof. revert l. induction fuel as [|fuel IH]; intros l; simpl; [apply resp_fuel|]. resp_steps; apply IH. Qed.
Lemma resp_waitReady fuel c n : resp R (waitReady config fuel c n).
Proof. unfold waitReady. resp_steps. apply resp_waitReadyLoop. Qed.
Lemma resp_finalSave a : resp R (finalSave a).
Proof. unfold finalSave. resp_steps. Qed.
Lemma resp_allocateIDs n seen : resp R (allocateIDs n seen).
Proof. revert seen. induction n as [|n IH]; intros seen; simpl; resp_steps; apply IH. Qed.
Hint Resolve resp_waitReady resp_finalSave resp_allocateIDs : redis_resp.
Lemma resp_restoreIdentifiers what r : resp R (restoreIdentifiers what r).
Proof. unfold restoreIdentifiers. resp_steps. Qed.
Lemma resp_syncDirectory p : resp R (syncDirectory p).
Proof. unfold syncDirectory. resp_steps. Qed.
Lemma resp_removeConfig id : resp R (removeManagedRedisConfig config id).
Proof. unfold removeManagedRedisConfig. resp_steps. Qed.
Lemma resp_createRestoreVolume p v : resp R (createRestoreVolume config p v).
Proof. unfold createRestoreVolume. resp_steps. Qed.
Hint Resolve resp_restoreIdentifiers resp_syncDirectory resp_removeConfig resp_createRestoreVolume : redis_resp.
Lemma resp_writeRestoreRDB v : resp R (writeRestoreRDB v).
Proof. unfold writeRestoreRDB. resp_steps. apply resp_with_temporary. resp_steps. Qed.
Lemma resp_query a : resp R (query a).
Proof. unfold query. resp_steps. Qed.
Hint Resolve resp_writeRestoreRDB resp_query : redis_resp.
Lemma resp_waitIdle fuel : resp R (waitIdle fuel).
Proof. induction fuel as [|fuel IH]; simpl; [apply resp_fuel|]. resp_steps. Qed.
Lemma resp_waitAndOpen fuel p previous : resp R (waitAndOpenBackgroundSave fuel p previous).
Proof. induction fuel as [|fuel IH]; simpl; [apply resp_fuel|]. resp_steps. Qed.
Hint Resolve resp_waitIdle resp_waitAndOpen : redis_resp.
Lemma resp_openFreshRDB fuel a : resp R (openFreshRDB config fuel a).
Proof. unfold openFreshRDB. resp_steps. Qed.
Lemma resp_endpoint a : resp R (redisVersionEndpoint a).
Proof. unfold redisVersionEndpoint. resp_steps. Qed.
Lemma resp_drain a : resp R (drainAndKillClients a).
Proof. unfold drainAndKillClients. resp_steps. Qed.
Lemma resp_activeIDs : resp R activeIDs.
Proof. by intros w a w' [= <- <-]. Qed.
Hint Resolve resp_openFreshRDB resp_endpoint resp_drain resp_activeIDs : redis_resp.

(** *** With further permissions *)

Lemma resp_removeVolume p v : allows_removal R v -> resp R (removeManagedRedisVolume config p v).
Proof. intros Hv. unfold removeManagedRedisVolume. resp_steps. by apply resp_perform. Qed.
Lemma resp_removeCandidate c b p v id : allows_removal R v -> resp R (removeRestoreCandidate config c b p v id).
Proof. intros Hv. unfold removeRestoreCandidate. resp_steps. by apply resp_removeVolume. Qed.
Lemma resp_removeReplaced old r : allows_removal R (mr_VolumeID r) -> resp R (removeReplacedRuntime config old r).
Proof. intros Hv. unfold removeReplacedRuntime. resp_steps; by apply resp_removeVolume. Qed.
Lemma resp_create r id i p v path c : allows_create R -> resp R (createContainerAttempt r id i p v path c).
Proof.
  intros Hc. unfold createContainerAttempt. resp_steps. intros w a w'. unfold CreateContainer.
  set (w1 := set_trace _ w). assert (R w w1) as Ht by apply (len_trace R HR).
  destruct (a_create _); [|destruct (a_orphan _)]; intros [= <- <-]; [|..|done]; (etrans; [done|]); exact (Hc w1 _ _).
Qed.
Lemma resp_setActive id a : allows_active R -> resp R (setActive id a).
Proof. intros Ha w b w' [= <- <-]. apply Ha. Qed.
Lemma resp_clearActive id : allows_active R -> resp R (clearActive id).
Proof. intros Ha w b w' [= <- <-]. apply Ha. Qed.
Lemma resp_beginMaintenance id : allows_maintenance R id -> resp R (beginMaintenance id).
Proof. intros [Hb _] w b w'. unfold beginMaintenance. case_bool_decide; intros [= <- <-]; [done|apply Hb]. Qed.
Lemma resp_endMaintenance id : allows_maintenance R id -> resp R (endMaintenance id).
Proof. intros [_ He] w b w' [= <- <-]. apply He. Qed.
Hint Resolve resp_removeVolume resp_removeCandidate resp_removeReplaced resp_create resp_setActive resp_clearActive
  resp_beginMaintenance resp_endMaintenance : redis_resp.

Lemma resp_startPrepared fuel r id :
  allows_create R -> allows_active R -> resp R (startPrepared config fuel r id).
Proof. intros Hc Ha. unfold startPrepared. resp_steps. apply resp_on_error; intros; resp_steps. Qed.
Hint Resolve resp_startPrepared : redis_resp.
Lemma resp_stopLocked id : allows_active R -> resp R (stopLocked id).
Proof. intros Ha. unfold stopLocked. resp_steps. Qed.
Lemma resp_recover fuel a restart why : allows_active R -> resp R (recoverRuntime config fuel a restart why).
Proof. intros Ha. unfold recoverRuntime. resp_steps. Qed.
Hint Resolve resp_stopLocked resp_recover : redis_resp.
Lemma resp_recoverOld fuel old stopped : allows_active R -> resp R (recoverOldRuntime config fuel old stopped).
Proof. intros Ha. unfold recoverOldRuntime. resp_steps. Qed.
Hint Resolve resp_recoverOld : redis_resp.

Lemma resp_startLocked fuel id : allows_create R -> allows_active R -> resp R (startLocked config fuel id).
Proof. intros Hc Ha. unfold startLocked. resp_steps. apply resp_on_error; intros; resp_steps. Qed.
Hint Resolve resp_startLocked : redis_resp.
Lemma resp_Start fuel id : allows_create R -> allows_active R -> resp R (Start config fuel id).
Proof. intros Hc Ha. apply resp_with_lease. resp_steps. Qed.
Lemma resp_Stop id : allows_active R -> resp R (Stop id).
Proof. apply resp_stopLocked. Qed.
Hint Resolve resp_Start resp_Stop : redis_resp.
Lemma resp_quiesce id : allows_active R -> resp R (quiesce id).
Proof. intros Ha. unfold quiesce. resp_steps. Qed.
Lemma resp_resume fuel a : allows_active R -> resp R (resume config fuel a).
Proof. intros Ha. unfold resume. resp_steps. Qed.
Lemma resp_for_each {A} name what (f : A -> M (result goerr unit)) l : (forall x, resp R (f x)) -> resp R (for_each name what f l).
Proof. intros Hf. induction l as [|x l IH]; simpl; resp_steps. Qed.
Lemma resp_Restart fuel id d : allows_create R -> allows_active R -> resp R (RestartDeployment config fuel id d).
Proof. intros Hc Ha. unfold RestartDeployment. resp_steps. Qed.
Lemma resp_Remove id d : allows_active R -> resp R (RemoveDeployment config id d).
Proof. intros Ha. unfold RemoveDeployment. resp_steps. Qed.
Lemma resp_OpenBackup fuel id : resp R (OpenBackupRDB config fuel id).
Proof. apply resp_with_lease. resp_steps. Qed.
Lemma resp_withConnection id o : resp R (withConnection id o).
Proof. unfold withConnection. resp_steps. Qed.
Lemma resp_Mutate id : resp R (Mutate id).
Proof. apply resp_with_lease, resp_withConnection. Qed.
Lemma resp_prepareDeletion old : allows_maintenance R (from_option (fun a => mr_ID (ar_resource a)) "" old) -> resp R (prepareDeletionMaintenance old).
Proof. intros Hm. unfold prepareDeletionMaintenance. resp_steps. Qed.
End Functions.
#[export] Hint Resolve resp_ask resp_ask_error resp_read resp_write_runtime resp_activeOf resp_available resp_fuel
  resp_start resp_stop resp_remove resp_inspect resp_publish resp_withdraw resp_unblock resp_block resp_file
  resp_dial resp_command resp_now resp_newID resp_growth resp_resolveImage resp_writeConfig resp_ensureVolume
  resp_beginDeployment resp_prepare resp_beginCandidate resp_recordFailure resp_finishCandidate resp_activate
  resp_startContainer resp_waitReady resp_finalSave resp_allocateIDs resp_restoreIdentifiers resp_syncDirectory
  resp_removeConfig resp_createRestoreVolume resp_writeRestoreRDB resp_query resp_waitIdle resp_waitAndOpen
  resp_openFreshRDB resp_endpoint resp_drain resp_activeIDs resp_removeVolume resp_removeCandidate
  resp_removeReplaced resp_create resp_setActive resp_clearActive resp_beginMaintenance resp_endMaintenance
  resp_startPrepared resp_stopLocked resp_recover resp_recoverOld resp_startLocked resp_Start resp_Stop resp_quiesce
  resp_resume resp_Restart resp_Remove resp_OpenBackup resp_withConnection resp_Mutate resp_prepareDeletion
  resp_with_temporary resp_on_error resp_with_lease : redis_resp.

(** A relation that holds so far goes on holding. *)
Lemma post_from {A} (R : relation World) (m : M A) w0 w (Q : A -> World -> Prop) :
  Transitive R -> resp R m -> R w0 w -> (forall a w', R w0 w' -> Q a w') -> post m Q w.
Proof. intros HT Hm Hw HQ a w' Hr. apply HQ. etrans; [done|]. by eapply Hm. Qed.
Lemma post_step_or {A B} p (m : M (result goerr A)) (k : A -> M (Progress * result goerr B)) Q w :
  post m (fun r w1 => match r with Ok a => post (k a) Q w1 | Err e => Q (p, Err e) w1 end) w -> post (step_or p m k) Q w.
Proof.
  intros Hm. unfold step_or. apply post_bind. eapply post_mono; [exact Hm|]. intros [a|e] w1; [done|]. intros HQ. by apply post_ret.
Qed.

(** ** The volume the database names *)

(** The rows are the same and the volumes of [V] are still there. *)
Definition keeps (V : gset string) (w w' : World) : Prop :=
  st_redis (w_store w') = st_redis (w_store w) /\ forall v, v ∈ V -> v ∈ w_volumes w -> v ∈ w_volumes w'.
#[export] Instance keeps_refl V : Reflexive (keeps V).
Proof. by split. Qed.
#[export] Instance keeps_trans V : Transitive (keeps V).
Proof. intros w1 w2 w3 [E1 H1] [E2 H2]. split; [congruence|auto]. Qed.
Lemma keeps_lenient V : lenient (keeps V).
Proof. split; try apply _; try done. intros w v. split; [done|]. simpl. set_solver. Qed.
Lemma keeps_active V : allows_active (keeps V).
Proof. done. Qed.
Lemma keeps_create V : allows_create (keeps V).
Proof. done. Qed.
Lemma keeps_maintenance V id : allows_maintenance (keeps V) id.
Proof. done. Qed.
Lemma keeps_removal V v : v ∉ V -> allows_removal (keeps V) v.
Proof. intros Hv w. split; [done|]. simpl. set_solver. Qed.
Lemma keeps_sub V V' w w' : V' ⊆ V -> keeps V w w' -> keeps V' w w'.
Proof. intros HV [E Hk]. split; [done|]. intros v Hv. apply Hk. set_solver. Qed.
#[export] Hint Resolve keeps_lenient keeps_active keeps_create keeps_maintenance : redis_resp.

(** The database names a volume that exists. *)
Definition stored (id : string) (w : World) : Prop :=
  forall r, st_redis (w_store w) !! id = Some r -> mr_VolumeID r ∈ w_volumes w.

Definition row_volume (id : string) (w : World) : gset string :=
  match st_redis (w_store w) !! id with Some r => {[mr_VolumeID r]} | None => ∅ end.
Lemma keeps_stored id w w' : keeps (row_volume id w) w w' -> stored id w -> stored id w'.
Proof.
  intros [Erows Hv] Hs r. rewrite Erows. intros Hr. apply Hv; [|by apply Hs]. unfold row_volume. rewrite Hr. set_solver.
Qed.

(** The switch of the volume committed and the caller was told an error. *)
Definition lost_switch {env : RedisEnv} (trace : list Call) : Prop :=
  exists t e, CStore "SwitchManagedRedisVolume" :: t `suffix_of` trace /\
    a_error (CStore "SwitchManagedRedisVolume" :: t) = Some e /\ a_effect (CStore "SwitchManagedRedisVolume" :: t) = true.
Definition lost {env : RedisEnv} (w : World) : Prop := lost_switch (w_trace w).
Definition lost_stays {env : RedisEnv} (w w' : World) : Prop := lost w -> lost w'.
#[export] Instance lost_stays_refl {env : RedisEnv} : Reflexive lost_stays.
Proof. by intros w Hl. Qed.
#[export] Instance lost_stays_trans {env : RedisEnv} : Transitive lost_stays.
Proof. intros w1 w2 w3 H1 H2 Hl. exact (H2 (H1 Hl)). Qed.
Lemma lost_stays_lenient {env : RedisEnv} : lenient lost_stays.
Proof.
  split; try apply _; try (intros; exact (fun Hl => Hl)).
  intros w c (t & e & Ht & He). exists t, e. split; [by apply suffix_cons_r|done].
Qed.
Lemma lost_stays_active {env : RedisEnv} : allows_active lost_stays.
Proof. intros w v Hl. exact Hl. Qed.
Lemma lost_stays_create {env : RedisEnv} : allows_create lost_stays.
Proof. intros w id v Hl. exact Hl. Qed.
Lemma lost_stays_maintenance {env : RedisEnv} id : allows_maintenance lost_stays id.
Proof. split; intros w Hl; exact Hl. Qed.
Lemma lost_stays_removal {env : RedisEnv} v : allows_removal lost_stays v.
Proof. intros w Hl. exact Hl. Qed.
#[export] Hint Resolve lost_stays_lenient lost_stays_active lost_stays_create lost_stays_maintenance lost_stays_removal : redis_resp.

(** The database names a volume that exists, unless a switch was lost. *)
Definition stored_or_lost {env : RedisEnv} (id : string) (w : World) : Prop := lost w \/ stored id w.

Section Volumes.
Context `{HostnameTables} `{ConfigTables} {env : RedisEnv} (config : Config).

Lemma post_lost {A} (m : M A) (Q : A -> World -> Prop) w :
  resp lost_stays m -> lost w -> (forall a w', lost w' -> Q a w') -> post m Q w.
Proof. intros Hm Hl HQ a w' Hr. apply HQ. by apply (Hm w a w' Hr). Qed.

Ltac keeps_steps :=
  resp_walk ltac:(first [assumption | solve [eauto 4 with redis_resp] | progress unfold attempt, wrapped]).
(** A computation that keeps what is kept so far. *)
Ltac go HV :=
  eapply (post_from (keeps _));
  [apply _|keeps_steps|exact HV|];
  let r := fresh "r" in let w := fresh "w" in clear HV; intros r w HV.
(** A step that keeps what is kept so far; it may fail. *)
Ltac kept_by HV leaf :=
  apply post_step_or; go HV;
  match goal with r : result goerr _ |- _ => destruct r as [?|?]; [|right; apply leaf; exact HV] end.
Ltac kept HV :=
  apply post_step_or; go HV; match goal with r : result goerr _ |- _ => destruct r as [?|?]; [|right; exact HV] end.

Definition switched_row (input : SwitchInput) (r : ManagedRedis) : ManagedRedis :=
  let r' := with_volume (sw_VolumeID input) (sw_UpdatedAtMillis input) r in
  if bool_decide (sw_Action input = "redis.version_change") then with_image (sw_ImageTag input) (sw_ImageDigest input) r' else r'.
Lemma Switch_inv input s s' :
  SwitchManagedRedisVolume input s = Ok s' ->
  exists r, st_redis s !! sw_ResourceID input = Some r /\ mr_VolumeID r = sw_ExpectedVolumeID input /\
    s' = set_redis (insert (sw_ResourceID input) (switched_row input r)) s.
Proof.
  unfold SwitchManagedRedisVolume. destruct (_ || _ || _ || _ || _ || _ || _); [done|].
  match goal with |- rbind ?m _ = _ -> _ => destruct m as [[]|]; [simpl|done] end.
  destruct (negb _); [done|]. destruct (st_redis s !! sw_ResourceID input) as [r|]; [|done].
  destruct (bool_decide (mr_VolumeID r = _)) eqn:Ev; [|done]. apply bool_decide_eq_true in Ev. simpl.
  destruct (_ || _); [|done]. intros [= <-]. by exists r.
Qed.

(** A transaction commits its operation, with or without saying so, or changes
    nothing but the trace. *)
Lemma post_write name operation w (Q : result goerr unit -> World -> Prop) :
  let trace := CStore name :: w_trace w in
  (forall s, operation (w_store w) = Ok s -> Q (Ok tt) (set_store s (set_trace trace w))) ->
  (forall e, Q (Err e) (set_trace trace w)) ->
  (forall s e, operation (w_store w) = Ok s -> a_error trace = Some e -> a_effect trace = true ->
     Q (Err e) (set_store s (set_trace trace w))) ->
  post (write name operation) Q w.
Proof.
  intros trace Hok Herr Hlost r w'. unfold write. simpl. fold trace.
  destruct (operation (w_store w)) as [s|e]; destruct (a_error trace) as [e'|] eqn:Ea;
    [destruct (a_effect trace) eqn:Ef| | |]; intros [= <- <-]; eauto.
Qed.

(** Where the switch is lost, nothing more is claimed. *)
Lemma switch_lost w s e : let trace := CStore "SwitchManagedRedisVolume" :: w_trace w in
  a_error trace = Some e -> a_effect trace = true -> lost (set_store s (set_trace trace w)).
Proof. intros trace Ha Hf. by exists (w_trace w), e. Qed.

Lemma restoreSwitch_volumes fuel resource old password placement image ids actor timestamp volume w0 w :
  let V := {[mr_VolumeID resource; i_volume ids]} in
  i_volume ids <> mr_VolumeID resource -> keeps V w0 w ->
  st_redis (w_store w0) !! mr_ID resource = Some resource ->
  i_volume ids ∈ w_volumes w0 ->
  post (restoreSwitch config fuel resource old password placement image ids actor timestamp volume)
    (fun out w' => lost w' \/ if p_committed (fst out)
       then st_redis (w_store w') = <[mr_ID resource := with_volume (i_volume ids) (UnixMilli timestamp) resource]> (st_redis (w_store w0))
            /\ i_volume ids ∈ w_volumes w'
       else keeps V w0 w') w.
Proof.
  intros V Hne HV Hrow Hnew. unfold restoreSwitch.
  kept HV. kept HV. kept HV. kept HV. kept HV. kept HV. apply post_bind. apply post_write.
  - intros s (r & Hr & _ & ->)%Switch_inv. simpl in Hr. destruct HV as [Erows Hvol]. rewrite Erows, Hrow in Hr. injection Hr as <-.
    set (w' := set_store _ _).
    assert (st_redis (w_store w') = <[mr_ID resource := with_volume (i_volume ids) (UnixMilli timestamp) resource]> (st_redis (w_store w0))
            /\ i_volume ids ∈ w_volumes w') as Hdone.
    { split; [simpl; by rewrite Erows|]. apply Hvol; [set_solver|done]. }
    assert (forall w'', keeps {[i_volume ids]} w' w'' ->
      st_redis (w_store w'') = <[mr_ID resource := with_volume (i_volume ids) (UnixMilli timestamp) resource]> (st_redis (w_store w0))
      /\ i_volume ids ∈ w_volumes w'') as Hlater.
    { intros w'' [E Hv]. destruct Hdone as [Hrows Hin]. split; [congruence|]. apply Hv; [set_solver|done]. }
    assert (keeps {[i_volume ids]} w' w') as HV by done. clearbody w'. clear Hvol Erows Hdone.
    apply post_bind. go HV. apply post_step_or. go HV. destruct r0 as [?|?]; [|right; by apply Hlater].
    apply post_bind. go HV. apply post_bind. eapply (post_from (keeps _)); [apply _| |exact HV|].
    { apply resp_removeReplaced; [apply keeps_lenient|]. apply keeps_removal. set_solver. }
    intros ? wend HVend. apply post_ret. right. by apply Hlater.
  - intros e. apply post_bind. assert (keeps V w0 (set_trace (CStore "SwitchManagedRedisVolume" :: w_trace w6) w6)) as HV' by exact HV.
    go HV'. apply post_ret. right. exact HV'.
  - intros s e _ Ha Hf. eapply post_lost; [keeps_steps|by eapply switch_lost|]. intros out w' Hl. by left.
Qed.

Lemma ensureVolume_there p v w : post (ensureVolume config p v) (fun r w' => forall path, r = Ok path -> v ∈ w_volumes w') w.
Proof.
  unfold ensureVolume. destruct (negb _ || _ || _); [by apply post_ret|].
  apply post_ebind. intros [?|?] w1 _; [|done]. apply post_ebind. unfold wrapped. apply post_bind.
  intros r w2 Hm. destruct r as [?|?]; apply post_ret; [|done].
  assert (v ∈ w_volumes w2) as Hv.
  { revert Hm. unfold perform. destruct (a_error _); [by destruct (a_effect _)|]. intros [= <-]. simpl. set_solver. }
  apply post_ebind. eapply (post_from (keeps {[v]})); [apply _|keeps_steps|done|].
  intros [?|?] w3 [_ Hk]; [|done]. apply post_ret. intros path _. apply Hk; [set_solver|done].
Qed.

Lemma createRestoreVolume_there p v w :
  post (createRestoreVolume config p v) (fun r w' => forall path, r = Ok path -> v ∈ w_volumes w') w.
Proof.
  unfold createRestoreVolume. apply post_ebind. eapply post_mono; [apply ensureVolume_there|].
  intros [path|?] w1 Hv; [|done]. specialize (Hv path eq_refl). apply post_ebind.
  eapply (post_from (keeps {[v]})); [apply _|keeps_steps|done|].
  intros [n|?] w2 [_ Hk]; [|done]. destruct (negb _); apply post_ret; [done|]. intros _ _. apply Hk; [set_solver|done].
Qed.

Lemma restoreIdentifiers_new what resource w :
  post (restoreIdentifiers what resource) (fun r _ => forall ids, r = Ok ids -> i_volume ids <> mr_VolumeID resource) w.
Proof.
  unfold restoreIdentifiers. apply post_ebind. intros [l|?] w1 _; [|done].
  destruct l as [|a [|b [|c [|d [|]]]]]; try by apply post_ret.
  destruct (bool_decide (a = mr_VolumeID resource)) eqn:E; [by apply post_ret|]. apply bool_decide_eq_false in E. simpl.
  destruct (_ || _); apply post_ret; [done|]. by intros ids [= <-].
Qed.

(** Both facts about a run: the relation and what the result says. *)
Lemma post_both {A} (R : relation World) (m : M A) (P Q : A -> World -> Prop) w0 w :
  Transitive R -> resp R m -> R w0 w -> post m P w -> (forall a w', R w0 w' -> P a w' -> Q a w') -> post m Q w.
Proof. intros HT Hm Hw HP HQ a w' Hr. apply HQ; [|by apply HP]. etrans; [done|]. by eapply Hm. Qed.

(** Rows are stored under their ID. *)
Definition keyed (w : World) : Prop := forall id r, st_redis (w_store w) !! id = Some r -> mr_ID r = id.

(** The next step of a function with early returns keeps the volume; on an error it is over. *)
Ltac safely HV Hend :=
  apply post_ebind; go HV; match goal with r : result goerr _ |- _ => destruct r as [?|?]; [|by apply Hend] end.

(** A check that refuses. *)
Ltac refuse Hend := match goal with |- post (if ?b then _ else _) _ _ => destruct b; [apply post_ret; by apply Hend|] end.

(** Loading the resource at the start of an operation. *)
Lemma post_load {A} id (k : ManagedRedis -> M (result goerr A)) (Q : result goerr A -> World -> Prop) w0 w :
  keeps (row_volume id w0) w0 w ->
  (forall e w', keeps (row_volume id w0) w0 w' -> Q (Err e) w') ->
  (forall resource w', st_redis (w_store w0) !! id = Some resource -> row_volume id w0 = {[mr_VolumeID resource]} ->
     keeps (row_volume id w0) w0 w' -> post (k resource) Q w') ->
  post (let! resource := read "ManagedRedis" (loadRedis id) in k resource) Q w.
Proof.
  intros HV Herr Hk. apply post_ebind. intros r w1 Hr.
  assert (keeps (row_volume id w0) w0 w1) as HV1 by (etrans; [exact HV|]; by eapply resp_read; [apply keeps_lenient|]).
  destruct r as [resource|?]; [|by apply Herr]. assert (st_redis (w_store w0) !! id = Some resource) as Hrow.
  { revert Hr. unfold read. destruct HV as [Erows _]. destruct (a_error _); [done|]. unfold loadRedis. rewrite Erows.
    destruct (st_redis (w_store w0) !! id); [|done]. by intros [= <-]. }
  apply Hk; [done| |done]. unfold row_volume. by rewrite Hrow.
Qed.

Lemma stored_resp {A} (m : M A) id w :
  (forall V, resp (keeps V) m) -> resp lost_stays m -> stored_or_lost id w -> post m (fun _ => stored_or_lost id) w.
Proof.
  intros Hm Hlm [Hl|Hst] a w' Hr; [left; by apply (Hlm w a w' Hr)|right].
  eapply keeps_stored; [|exact Hst]. by eapply Hm.
Qed.
Lemma on_error_stored {A} (m : M (result goerr A)) c id w :
  post m (fun _ => stored_or_lost id) w -> (forall e V, resp (keeps V) (c e)) -> (forall e, resp lost_stays (c e)) ->
  post (on_error m c) (fun _ => stored_or_lost id) w.
Proof.
  intros Hm Hc Hlc. unfold on_error. apply post_bind. eapply post_mono; [exact Hm|]. intros [a|e] w1 Hst; [by apply post_ret|].
  apply post_bind. eapply post_mono; [by apply stored_resp|]. intros e' w2 Hst2. by apply post_ret.
Qed.

Lemma RestoreReplace_stored fuel id actor w0 : keyed w0 -> stored id w0 -> post (RestoreReplace config fuel id actor) (fun _ => stored_or_lost id) w0.
Proof.
  intros Hkey Hst. assert (forall w', keeps (row_volume id w0) w0 w' -> stored_or_lost id w') as Hend by (intros; right; by eapply keeps_stored).
  assert (stored_or_lost id w0) as Hend0 by by right.
  unfold RestoreReplace. destruct (negb _); [by apply post_ret|]. destruct (negb _); [by apply post_ret|].
  apply (post_load id _ _ w0); [done|intros; by apply Hend|]. intros resource w1 Hrow EV HV. pose proof (Hkey _ _ Hrow) as Hid.
  apply post_bind. go HV. refuse Hend. safely HV Hend. refuse Hend. safely HV Hend. safely HV Hend. safely HV Hend.
  apply post_bind. go HV. apply post_ebind.
  eapply (post_both (keeps _)); [apply _| |exact HV|apply restoreIdentifiers_new|]; [keeps_steps|]. clear HV.
  intros [ids|?] w7 HV Hnew; [specialize (Hnew ids eq_refl)|by apply Hend].
  safely HV Hend. apply on_error_stored; [|intros; keeps_steps..].
  apply post_ebind. eapply (post_both (keeps _)); [apply _| |exact HV|apply createRestoreVolume_there|]; [keeps_steps|]. clear HV.
  intros [volume|?] w9 HV Hthere; [specialize (Hthere volume eq_refl)|by apply Hend].
  apply post_bind. destruct HV as [Erows Hv].
  eapply post_mono; [apply (restoreSwitch_volumes _ _ _ _ _ _ _ _ _ _ w9); [done|done|by rewrite Erows, Hid|done]|].
  intros [p r'] w10. simpl. intros [Hl|Hout].
  { eapply post_lost; [keeps_steps|exact Hl|]. intros ? w' Hl'. by left. }
  revert Hout. destruct (p_committed p).
  - intros [Hrows Hin]. apply post_ret. right. intros r''. rewrite Hrows, Hid, lookup_insert_eq. by intros [= <-].
  - intros HV2. apply post_bind. eapply (post_from (keeps {[mr_VolumeID resource]})); [apply _| |eapply keeps_sub, HV2; set_solver|].
    { apply resp_removeCandidate; [apply keeps_lenient|apply keeps_removal; set_solver]. }
    intros e w11 HV3. apply post_ret, Hend. rewrite EV in *. transitivity w9; [by split|done].
Qed.

Lemma versionSwitch_volumes fuel resource target old password placement image ids actor timestamp w0 :
  i_volume ids <> mr_VolumeID resource -> st_redis (w_store w0) !! mr_ID resource = Some resource ->
  post (versionSwitch config fuel resource target old password placement image ids actor timestamp)
    (fun out w' => lost w' \/ if p_committed (fst out)
       then (exists r, mr_VolumeID r = i_volume ids /\ st_redis (w_store w') = <[mr_ID resource := r]> (st_redis (w_store w0)))
            /\ i_volume ids ∈ w_volumes w'
       else keeps {[mr_VolumeID resource]} w0 w') w0.
Proof.
  intros Hne Hrow. unfold versionSwitch. assert (keeps {[mr_VolumeID resource]} w0 w0) as HV by done.
  kept HV. apply post_bind. go HV. destruct (negb r); [apply post_ret; by right|].
  kept HV. kept HV. kept HV. apply post_step_or.
  eapply (post_both (keeps _)); [apply _| |exact HV|apply createRestoreVolume_there|]; [keeps_steps|]. clear HV.
  intros [volume|?] wc HVc Hthere; [specialize (Hthere volume eq_refl)|by right].
  assert (forall w', keeps {[mr_VolumeID resource; i_volume ids]} wc w' -> keeps {[mr_VolumeID resource]} w0 w') as Hleaf.
  { intros w' Hk. etrans; [exact HVc|]. eapply keeps_sub, Hk. set_solver. }
  assert (keeps {[mr_VolumeID resource; i_volume ids]} wc wc) as HV by done.
  kept_by HV Hleaf. kept_by HV Hleaf. apply post_bind. go HV. kept_by HV Hleaf. kept_by HV Hleaf. kept_by HV Hleaf.
  kept_by HV Hleaf. kept_by HV Hleaf. kept_by HV Hleaf. apply post_step_or. apply post_write; [|intros e; right; by apply Hleaf|].
  2: { intros s e _ Ha Hf. left. by eapply switch_lost. }
  intros s (r' & Hr & _ & ->)%Switch_inv. simpl in Hr. destruct HV as [Erows Hvol]. set (w' := set_store _ _).
  assert ((exists r, mr_VolumeID r = i_volume ids /\ st_redis (w_store w') = <[mr_ID resource := r]> (st_redis (w_store w0)))
            /\ i_volume ids ∈ w_volumes w') as [(r2 & Er2 & Hrows) Hin].
  { split; [|apply Hvol; [set_solver|done]]. destruct HVc as [Ec _]. eexists. split; [|simpl; by rewrite Erows, Ec]. done. }
  assert (forall w'', keeps {[i_volume ids]} w' w'' ->
    (exists r, mr_VolumeID r = i_volume ids /\ st_redis (w_store w'') = <[mr_ID resource := r]> (st_redis (w_store w0)))
            /\ i_volume ids ∈ w_volumes w'') as Hlater.
  { intros w'' [E Hv]. split; [exists r2; split; [done|congruence]|]. apply Hv; [set_solver|done]. }
  assert (keeps {[i_volume ids]} w' w') as HV by done. clearbody w'. clear Hvol Erows Hrows Hin.
  apply post_bind. go HV. kept_by HV Hlater. apply post_bind. go HV. apply post_bind.
  eapply (post_from (keeps _)); [apply _| |exact HV|].
  { apply resp_removeReplaced; [apply keeps_lenient|]. apply keeps_removal. set_solver. }
  intros ? wend HVend. apply post_ret. right. by apply Hlater.
Qed.

Lemma versionDeferred_stored fuel resource old ids out w0 w :
  i_volume ids <> mr_VolumeID resource -> stored (mr_ID resource) w0 -> st_redis (w_store w0) !! mr_ID resource = Some resource ->
  (lost w \/ if p_committed (fst out)
   then (exists r, mr_VolumeID r = i_volume ids /\ st_redis (w_store w) = <[mr_ID resource := r]> (st_redis (w_store w0)))
        /\ i_volume ids ∈ w_volumes w
   else keeps {[mr_VolumeID resource]} w0 w) ->
  post (versionDeferred config fuel resource old ids out) (fun _ => stored_or_lost (mr_ID resource)) w.
Proof.
  intros Hne Hst Hrow [Hl|Hout].
  { eapply post_lost; [unfold versionDeferred; keeps_steps|exact Hl|]. intros ? w' Hl'. by left. }
  destruct out as [p r]. simpl in Hout. unfold versionDeferred. destruct (p_committed p).
  - assert (stored_or_lost (mr_ID resource) w) as Hst'.
    { right. destruct Hout as [(r2 & Hr2 & Erows) Hin]. intros r'. rewrite Erows, lookup_insert_eq. intros [= <-]. by rewrite Hr2. }
    apply (stored_resp _ _ _); [intros V; keeps_steps|keeps_steps|done].
  - assert (forall w', keeps {[mr_VolumeID resource]} w0 w' -> stored_or_lost (mr_ID resource) w') as Hend.
    { intros w' Hk. right. apply (keeps_stored _ w0); [|done]. unfold row_volume. by rewrite Hrow. }
    apply (post_from (keeps {[mr_VolumeID resource]}) _ w0); [apply _| |done|intros; by apply Hend].
    assert (allows_removal (keeps {[mr_VolumeID resource]}) (i_volume ids)) as Hrm by (apply keeps_removal; set_solver).
    keeps_steps.
Qed.

Lemma with_lease_stored {A} kind lease (m : M (result goerr A)) id w :
  (forall w', w_store w' = w_store w -> w_volumes w' = w_volumes w -> post m (fun _ => stored_or_lost id) w') ->
  stored id w -> post (with_lease kind lease m) (fun _ => stored_or_lost id) w.
Proof.
  intros Hm Hst a w'. unfold with_lease. destruct (Admission.Begin kind lease (w_gate w)) as [g [l|e]]; [|intros [= <- <-]; by right].
  destruct (m (set_gate g w)) as [[b w2]|] eqn:E; [|done]. intros [= <- <-].
  exact (Hm (set_gate g w) eq_refl eq_refl _ _ E).
Qed.

Lemma keyed_same w w' : w_store w' = w_store w -> keyed w -> keyed w'.
Proof. unfold keyed. by intros ->. Qed.
Lemma stored_same id w w' : w_store w' = w_store w -> w_volumes w' = w_volumes w -> stored id w -> stored id w'.
Proof. unfold stored. by intros -> ->. Qed.

Lemma ChangeVersion_stored fuel id tag digest actor w :
  keyed w -> stored id w -> post (ChangeVersion config fuel id tag digest actor) (fun _ => stored_or_lost id) w.
Proof.
  intros Hkey' Hst'. unfold ChangeVersion. destruct (_ || _); [apply post_ret; by right|].
  destruct (redisReference tag); [|apply post_ret; by right]. destruct (negb _); [apply post_ret; by right|].
  apply with_lease_stored; [|done]. intros w0 Es Ev.
  pose proof (keyed_same _ _ Es Hkey') as Hkey. pose proof (stored_same _ _ _ Es Ev Hst') as Hst.
  assert (forall w', keeps (row_volume id w0) w0 w' -> stored_or_lost id w') as Hend by (intros; right; by eapply keeps_stored).
  apply (post_load id _ _ w0); [done|intros; by apply Hend|]. intros resource w1 Hrow EV HV. pose proof (Hkey _ _ Hrow) as Hid.
  refuse Hend. apply post_bind. go HV. destruct r as [old|]; [|apply post_ret; by apply Hend]. refuse Hend.
  safely HV Hend. safely HV Hend. apply post_bind. go HV. apply post_ebind.
  eapply (post_both (keeps _)); [apply _| |exact HV|apply restoreIdentifiers_new|]; [keeps_steps|]. clear HV.
  intros [ids|?] w7 HV Hnew; [specialize (Hnew ids eq_refl)|by apply Hend].
  safely HV Hend. apply on_error_stored; [|intros; keeps_steps..].
  safely HV Hend. safely HV Hend. apply post_bind. pose proof HV as [Erows Hv].
  match goal with |- post _ _ ?w => assert (stored (mr_ID resource) w /\ st_redis (w_store w) !! mr_ID resource = Some resource) as [Hstw Hroww]
    by (split; [rewrite Hid; by eapply keeps_stored|by rewrite Erows, Hid]);
    eapply post_mono; [by apply (versionSwitch_volumes _ _ _ _ _ _ _ _ _ _ w)|] end.
  intros out wout Hout. rewrite <- Hid. by eapply versionDeferred_stored.
Qed.

Lemma deleteRow_gone input s s' : deleteRow input s = Ok s' -> st_redis s' !! di_ID input = None.
Proof.
  unfold deleteRow. destruct (_ || _); [done|]. destruct (negb (validVersionChangeActor _)); [done|].
  destruct (st_redis s !! di_ID input); [|done]. destruct (negb _); [done|]. destruct (negb _); [done|]. intros [= <-].
  apply lookup_delete_eq.
Qed.

Lemma Delete_stored fuel input w : stored (di_ID input) w -> post (Delete config fuel input) (fun _ => stored_or_lost (di_ID input)) w.
Proof.
  intros Hst'. apply with_lease_stored; [|done]. intros w0 Es Ev. pose proof (stored_same _ _ _ Es Ev Hst') as Hst. set (id := di_ID input) in *.
  assert (forall w', keeps (row_volume id w0) w0 w' -> stored_or_lost id w') as Hend by (intros; right; by eapply keeps_stored).
  apply (post_load id _ _ w0); [done|intros; by apply Hend|]. intros resource w1 Hrow EV HV.
  refuse Hend. refuse Hend. apply post_bind. go HV. safely HV Hend. apply post_bind.
  eapply (post_mono _ (fun _ => stored_or_lost id)).
  - apply post_bind. go HV. destruct r0 as [?|?].
    + assert (forall V w' w'', keeps V w' w'' -> st_redis (w_store w') !! id = None -> stored_or_lost id w'') as Hgone.
      { intros V w' w'' [E _] Hn. right. intros r'. by rewrite E, Hn. }
      apply post_bind. apply post_write.
      * intros s Hs%deleteRow_gone.
        match goal with |- post _ _ ?w => apply (post_from (keeps ∅) _ w) end; [apply _| |done|].
        { assert (allows_removal (keeps ∅) (mr_VolumeID resource)) as Hrm by (apply keeps_removal; set_solver). keeps_steps. }
        intros ? w' Hk. by apply (Hgone ∅ _ _ Hk).
      * intros e. apply (stored_resp _ _ _); [intros V| |by apply Hend]; unfold restartAfterDeleteFailure; keeps_steps.
      * intros s e Hs%deleteRow_gone _ _. apply (stored_resp _ _ _); [intros V| |by apply (Hgone ∅ _ _ (keeps_refl ∅ _))];
          unfold restartAfterDeleteFailure; keeps_steps.
    + apply (stored_resp _ _ _); [intros V| |by apply Hend]; unfold restartAfterDeleteFailure; keeps_steps.
  - intros [committed rout] wout Hst3. apply (stored_resp _ _ _); [intros V; keeps_steps|keeps_steps|done].
Qed.

Section Everything.
Context (R : relation World) (HR : lenient R) (Ha : allows_active R) (Hc : allows_create R)
  (Hrm : forall v, allows_removal R v) (Hm : forall id, allows_maintenance R id)
  (Hsw : forall input w s, SwitchManagedRedisVolume input (w_store w) = Ok s -> R w (set_store s w))
  (Hdel : forall input w s, deleteRow input (w_store w) = Ok s -> R w (set_store s w)).
#[local] Instance everything_refl : Reflexive R := len_refl R HR.
#[local] Instance everything_trans : Transitive R := len_trans R HR.

Lemma resp_switch name input : resp R (write name (SwitchManagedRedisVolume input)).
Proof. apply resp_write; [done|]. intros w s. apply Hsw. Qed.
Lemma resp_delete name input : resp R (write name (deleteRow input)).
Proof. apply resp_write; [done|]. intros w s. apply Hdel. Qed.
#[local] Hint Resolve resp_switch resp_delete : redis_resp.
Ltac all_steps :=
  resp_walk ltac:(first [assumption | solve [eauto 4 with redis_resp] | progress unfold attempt, wrapped, step_or, restartAfterDeleteFailure]).

Lemma resp_RestoreReplace fuel id actor : resp R (RestoreReplace config fuel id actor).
Proof.
  unfold RestoreReplace. all_steps. apply resp_on_error; [done| |intros; all_steps]. unfold restoreSwitch. all_steps.
Qed.
Lemma resp_ChangeVersion fuel id tag digest actor : resp R (ChangeVersion config fuel id tag digest actor).
Proof.
  unfold ChangeVersion. all_steps. apply resp_with_lease; [done|]. all_steps.
  apply resp_on_error; [done| |intros; all_steps]. unfold versionSwitch, versionDeferred. all_steps.
Qed.
Lemma resp_Delete fuel input : resp R (Delete config fuel input).
Proof. apply resp_with_lease; [done|]. all_steps. Qed.
End Everything.

(** An operation of the controller on the resource [id], with any answers. *)
Inductive operation (id : string) (w w' : World) : Prop :=
| op_start fuel r : Start config fuel id w = Some (r, w') -> operation id w w'
| op_stop r : Stop id w = Some (r, w') -> operation id w w'
| op_quiesce r : quiesce id w = Some (r, w') -> operation id w w'
| op_resume fuel a r : mr_ID (ar_resource a) = id -> resume config fuel a w = Some (r, w') -> operation id w w'
| op_restart fuel d r : RestartDeployment config fuel id d w = Some (r, w') -> operation id w w'
| op_remove d r : RemoveDeployment config id d w = Some (r, w') -> operation id w w'
| op_backup fuel r : OpenBackupRDB config fuel id w = Some (r, w') -> operation id w w'
| op_mutate r : Mutate id w = Some (r, w') -> operation id w w'
| op_restore fuel actor r : RestoreReplace config fuel id actor w = Some (r, w') -> operation id w w'
| op_version fuel tag digest actor r : ChangeVersion config fuel id tag digest actor w = Some (r, w') -> operation id w w'
| op_delete fuel input r : di_ID input = id -> Delete config fuel input w = Some (r, w') -> operation id w w'.

Definition keyed_kept (w w' : World) : Prop := keyed w -> keyed w'.
Lemma operation_keyed id w w' : operation id w w' -> keyed w -> keyed w'.
Proof.
  assert (forall w w', w_store w' = w_store w -> keyed_kept w w') as Hsame by (intros ?? E ???; rewrite E; auto).
  assert (lenient keyed_kept) as HL.
  { split; [intros w1 Hk; exact Hk|intros w1 w2 w3 H1 H2 Hk; exact (H2 (H1 Hk))|..]; intros; first [by apply Hsame | intros Hk i r; by apply Hk]. }
  assert (forall input w s, SwitchManagedRedisVolume input (w_store w) = Ok s -> keyed_kept w (set_store s w)) as Hsw.
  { intros input w1 s (r & Hr & _ & ->)%Switch_inv Hk i r'. simpl. intros [[<- <-]|[_ Hi]]%lookup_insert_Some; [|by apply Hk].
    rewrite <- (Hk _ _ Hr). unfold switched_row. by case_bool_decide. }
  assert (forall input w s, deleteRow input (w_store w) = Ok s -> keyed_kept w (set_store s w)) as Hdel.
  { intros input w1 s Hs Hk i r'. unfold deleteRow in Hs. destruct (_ || _); [done|]. destruct (negb (validVersionChangeActor _)); [done|].
    destruct (st_redis _ !! di_ID input); [|done]. destruct (negb _); [done|]. destruct (negb _); [done|]. injection Hs as <-. simpl.
    rewrite lookup_delete_Some. intros [_ Hi]. by apply Hk. }
  assert (forall A (m : M A) a, resp keyed_kept m -> m w = Some (a, w') -> keyed w -> keyed w') as Huse
    by (intros A m a Hm Hr Hk; by eapply Hm).
  assert (allows_active keyed_kept) as Ha by (intros ??; by apply Hsame).
  assert (allows_create keyed_kept) as Hc by (intros ???; by apply Hsame).
  assert (forall v, allows_removal keyed_kept v) as Hrm by (intros ??; by apply Hsame).
  assert (forall i, allows_maintenance keyed_kept i) as Hm by (intros i; split; intros ?; by apply Hsame).
  destruct 1; (eapply Huse; [|eassumption]); eauto 4 with redis_resp.
  - by apply resp_RestoreReplace.
  - by apply resp_ChangeVersion.
  - by apply resp_Delete.
Qed.

Lemma operation_lost id w w' : operation id w w' -> lost w -> lost w'.
Proof.
  intros Hop Hl. assert (forall A (m : M A) a, resp lost_stays m -> m w = Some (a, w') -> lost w') as Huse
    by (intros A m a Hm Hr; by apply (Hm w a w' Hr)).
  destruct Hop; (eapply Huse; [|eassumption]); eauto 4 with redis_resp.
  - apply resp_RestoreReplace; eauto with redis_resp. intros input w1 s _. exact (fun Hl => Hl).
  - apply resp_ChangeVersion; eauto with redis_resp. intros input w1 s _. exact (fun Hl => Hl).
  - apply resp_Delete; eauto with redis_resp. intros input' w1 s _. exact (fun Hl => Hl).
Qed.

Lemma operation_stored id w w' : operation id w w' -> keyed w -> stored id w -> stored_or_lost id w'.
Proof.
  intros Hop Hkey Hst. destruct Hop.
  1-8: eapply stored_resp; [| |right; exact Hst|eassumption]; [intros V|]; eauto 4 with redis_resp.
  - by eapply RestoreReplace_stored.
  - by eapply ChangeVersion_stored.
  - subst id. by eapply Delete_stored.
Qed.
End Volumes.

(** C27. The data of a managed Redis is never lost by the controller, as long as no
    switch of its volume is committed without the controller being told.  Over every
    sequence of operations on a resource, starts, stops, restores, upgrades, pauses and
    deletions, with every call to the engine, the file system or the database failing,
    or failing after it took effect, either the volume the database names for the resource
    exists, or one of the transactions that switch it committed and returned an error. *)
Theorem redis_volume_kept `{HostnameTables} `{ConfigTables} {env : RedisEnv} config id w w' :
  rtc (operation config id) w w' -> keyed w -> stored id w ->
  stored id w' \/ lost_switch (w_trace w').
Proof.
  intros Hrun Hk Hs. enough (stored_or_lost id w') as [?|?] by auto.
  assert (stored_or_lost id w) as Hsl by by right. clear Hs. revert Hk Hsl.
  induction Hrun as [|w1 w2 w3 Hop _ IH]; [done|]. intros Hk [Hl|Hs].
  - apply IH; [by eapply operation_keyed|left; by eapply operation_lost].
  - apply IH; [by eapply operation_keyed|by eapply operation_stored].
Qed.

(** ** A concrete environment *)

Module RedisDemo.
#[local] Instance redis_hostnames : HostnameTables := demo_hostnames.
#[local] Instance redis_tables : ConfigTables := demo_config.

Definition old_row : ManagedRedis := mkManagedRedis "redis1" "project1" "cache" "7" "sha256:old" "vol1" 500 1000000 1000.
Definition old_container : Container := mkContainer "c1" "running" 0 {["net" := ["10.0.0.2"]]}.
Definition new_container : Container := mkContainer "c2" "running" 0 {["net" := ["10.0.0.3"]]}.
Definition old_runtime : activeRuntime := mkActiveRuntime old_row old_container "net" "redis1".
Definition operator : Actor := mkActor "token" "token1" "".
Definition config : Config := mkRedisConfig "/generated" "/volumes" (60 * second) second second true.

Definition allocated (trace : list Call) : nat := length (List.filter (fun c => match c with CNewID => true | _ => false end) trace).
Definition saved (trace : list Call) : bool := existsb (fun c => match c with CRedis "BGSAVE" => true | _ => false end) trace.
(** Every call succeeds, but the one that [failing] names; the dump of a new volume does not exist. *)
Definition answers_with (failing effect : list Call -> bool) (create : list Call -> result goerr Container)
    (orphan : list Call -> option string) : RedisEnv := {|
  a_error := fun trace =>
    if failing trace then Some (Msg "refused")
    else match trace with
         | CFile "Lstat" path :: _ => if has_suffix "dump.rdb" path then Some (Sentinel "os.ErrNotExist" "no such file") else None
         | _ => None
         end;
  a_effect := effect;
  a_image := fun trace => match trace with CInspectImage d :: _ => Ok (mkImage "image" d 0) | _ => Err (Msg "no image") end;
  a_create := create;
  a_orphan := orphan;
  a_inspect := fun trace => match trace with CInspect "c1" :: _ => Ok old_container | _ => Ok new_container end;
  a_password := fun _ => Ok "0123456789012345678901234567890123456789012";
  a_placement := fun _ => Ok (mkPlacement "net" "10.0.0.1" "project1.internal" "platformd");
  a_status := fun _ => Ok (mkPersistence false true);
  a_dump := fun trace => Ok (Some (if saved trace then 2 else 1));
  a_copied := fun _ => Ok 4096;
  a_entries := fun _ => Ok 0;
  a_newID := fun trace => nth (allocated trace - 1) [Ok "vol2"; Ok "run2"; Ok "audit2"; Ok "request2"] (Err (Msg "exhausted"));
  a_now := fun trace => unix_epoch + 1700000000 * second + Z.of_nat (length trace) * 60 * second;
  redisReference := fun tag => Ok ("docker.io/library/redis:" +:+ tag);
  valid_digest := fun _ => true;
  parse_ipv4 := Ok
|}.
Definition answers (failing : list Call -> bool) : RedisEnv :=
  answers_with failing (fun _ => false) (fun _ => Ok new_container) (fun _ => None).
(** The new server never answers a PING. *)
Definition deaf (trace : list Call) : bool :=
  match trace with CRedis "PING" :: CDial "10.0.0.3:6379" :: _ => true | _ => false end.
Definition not_recorded (trace : list Call) : bool :=
  match trace with CStore "ActivateRuntimeDeployment" :: _ => true | _ => false end.

Definition running : World := mkRedisWorld
  (mkStore {["redis1" := old_row]} ∅) {["redis1" := old_runtime]} ∅ Admission.New {["c1" := mkEngineContainer "vol1" true]}
  {["vol1"]} {["redis1"]} ∅ [].

Definition restored : option (result goerr unit * World) :=
  RestoreReplace (env := answers (fun _ => false)) config 5 "redis1" operator running.
Definition restored_world : World := match restored with Some (_, w) => w | None => running end.

Lemma nothing_lost : ~ @lost_switch (answers (fun _ => false)) (w_trace restored_world).
Proof. intros (t & e & _ & _ & Hf). discriminate Hf. Qed.

Lemma redis_volume_kept_witness :
  (forall r, st_redis (w_store restored_world) !! "redis1" = Some r -> mr_VolumeID r ∈ w_volumes restored_world) /\
  (mr_VolumeID <$> st_redis (w_store restored_world) !! "redis1") = Some "vol2".
Proof.
  split; [|by vm_compute].
  destruct (redis_volume_kept (env := answers (fun _ => false)) config "redis1" running restored_world) as [Hs|Hl];
    [..|exact Hs|destruct (nothing_lost Hl)].
  - apply rtc_once. eapply (op_restore _ _ _ _ 5 operator). vm_compute. reflexivity.
  - intros i r. unfold running. simpl. rewrite lookup_singleton_Some. by intros [<- <-].
  - intros r. unfold running. simpl. rewrite lookup_singleton_Some. intros [_ <-]. simpl. set_solver.
Defined.

(** The exception is real.  A restore whose caller gives up while the writer commits the
    switch takes it for failed and removes the new volume, and with it the data the
    database names from then on. *)
Definition switching (trace : list Call) : bool :=
  match trace with CStore "SwitchManagedRedisVolume" :: _ => true | _ => false end.
Lemma lost_switch_loses_volume :
  exists e w', @RestoreReplace demo_config (answers_with switching switching (fun _ => Ok new_container) (fun _ => None))
                 config 5 "redis1" operator running = Some (Err e, w') /\
    stored "redis1" running /\
    (mr_VolumeID <$> st_redis (w_store w') !! "redis1") = Some "vol2" /\ "vol2" ∉ w_volumes w'.
Proof.
  eexists _, _. split; [vm_compute; reflexivity|]. split; [|split; by vm_compute].
  intros r. unfold running. simpl. rewrite lookup_singleton_Some. intros [_ <-]. simpl. set_solver.
Qed.
End RedisDemo.
