(* ===== verification/ManagedRedisCleanup.v ===== *)
(** * ManagedRedisCleanup: what failed operations of managed Redis leave behind

    A failed start and a failed restore remove the container they created, where the
    engine told them its ID and its removal does not fail; a failed upgrade does not,
    because the failing wait overwrites the candidate it would have to remove. *)

From S2P Require Import Prelude Effects Names Admission ServiceConfig DeploymentStore Runtime RuntimeDeployments ManagedRedis ManagedRedisProofs.

(** ** Containers the controller could not remove *)

(** Those of a creation that failed after making one, and those whose removal was
    answered with an error. *)
Fixpoint leftovers {env : RedisEnv} (trace : list Call) : gset string :=
  match trace with
  | [] => ∅
  | c :: earlier =>
      match c with
      | CCreate _ => match a_create trace, a_orphan trace with Err _, Some id => {[id]} | _, _ => ∅ end
      | CRemove id => match a_error trace with Some _ => {[id]} | None => ∅ end
      | _ => ∅
      end ∪ leftovers earlier
  end.
Lemma leftovers_cons {env : RedisEnv} c trace : leftovers trace ⊆ leftovers (c :: trace).
Proof. simpl. set_solver. Qed.

(** ** The rows stay, and containers other than those of [X] only disappear *)

Definition outside {env : RedisEnv} (X : gset string) (w w' : World) : Prop :=
  st_redis (w_store w') = st_redis (w_store w) /\
  dom (w_containers w') ⊆ dom (w_containers w) ∪ X ∪ leftovers (w_trace w') /\
  leftovers (w_trace w) ⊆ leftovers (w_trace w').
Section Outside.
Context {env : RedisEnv}.
#[export] Instance outside_refl X : Reflexive (outside X).
Proof. intros w. split_and!; [done|set_solver|done]. Qed.
#[export] Instance outside_trans X : Transitive (outside X).
Proof. intros w1 w2 w3 (E1 & H1 & L1) (E2 & H2 & L2). split_and!; [congruence|set_solver|set_solver]. Qed.
Lemma outside_lenient X : lenient (outside X).
Proof. split; try apply _; intros; (split_and!; [done| |]); simpl; set_solver. Qed.
Lemma outside_active X : allows_active (outside X).
Proof. intros w v. split_and!; [done|simpl; set_solver|done]. Qed.
Lemma outside_removal X v : allows_removal (outside X) v.
Proof. intros w. split_and!; [done|simpl; set_solver|done]. Qed.
Lemma outside_mono X Y w w' : X ⊆ Y -> outside X w w' -> outside Y w w'.
Proof. intros HXY (E & Hd & Hl). split_and!; [done|set_solver|done]. Qed.
End Outside.
#[export] Hint Resolve outside_lenient outside_active outside_removal : redis_resp.

Section Cleanup.
Context `{HostnameTables} `{ConfigTables} {env : RedisEnv} (config : Config).
(** The engine names the containers it creates, and answers an inspection with the
    container it was asked about. *)
Context (names : forall spec trace c, a_create (CCreate spec :: trace) = Ok c -> ct_ID c <> "").
Context (inspects : forall id trace c, a_inspect (CInspect id :: trace) = Ok c -> ct_ID c = id).

Ltac only_removes :=
  resp_walk ltac:(first [assumption | solve [eauto 4 with redis_resp] | progress unfold attempt, wrapped, step_or]).
Ltac on HX :=
  eapply (post_from (outside _)); [apply _|only_removes|exact HX|];
  let r := fresh "r" in let w := fresh "w" in clear HX; intros r w HX.

Lemma create_outside resource runtimeID imageID placement volumeID volume path w0 w :
  outside ∅ w0 w ->
  post (createContainerAttempt resource runtimeID imageID placement volumeID volume path)
    (fun r w' => match r with Ok c => ct_ID c <> "" /\ outside {[ct_ID c]} w0 w' | Err _ => outside ∅ w0 w' end) w.
Proof.
  intros HX. unfold createContainerAttempt. destruct (negb _); [by apply post_ret|]. destruct (negb _); [by apply post_ret|].
  intros r w'. unfold CreateContainer. destruct HX as (E & Hd & Hl). destruct (a_create _) as [c|e] eqn:Ec.
  - intros [= <- <-]. split; [by eapply names|]. split_and!; [done| |]; simpl; rewrite Ec; [rewrite dom_insert_L|]; set_solver.
  - destruct (a_orphan _) as [id|] eqn:Eo; intros [= <- <-]; (split_and!; [done| |]); simpl; rewrite Ec, Eo;
      rewrite ?dom_insert_L; set_solver.
Qed.

Lemma remove_outside id w0 w : outside {[id]} w0 w -> post (RemoveContainer id) (fun _ => outside ∅ w0) w.
Proof.
  intros (E & Hd & Hl) r w'. unfold RemoveContainer, perform. destruct (a_error _) as [e|] eqn:Ea.
  - destruct (a_effect _); intros [= <- <-]; (split_and!; [done| |]); simpl; rewrite Ea; rewrite ?dom_delete_L; set_solver.
  - intros [= <- <-]. split_and!; [done| |]; simpl; rewrite Ea; rewrite ?dom_delete_L; set_solver.
Qed.

Lemma waitReadyLoop_id fuel id network deadline last w :
  post (waitReadyLoop fuel id network deadline last) (fun r _ => forall c, r = Ok c -> ct_ID c = id) w.
Proof.
  revert last w. induction fuel as [|fuel IH]; intros last w; [done|]. simpl. apply post_ebind.
  intros r w1. unfold InspectContainer, ask. intros [= <- <-]. destruct (a_inspect _) as [c|] eqn:Ei; [|done].
  apply inspects in Ei. destruct (negb _); [by apply post_ret|]. apply post_bind. intros probed w2 _.
  assert (forall probed', post
    (t ← ask CClock a_now;
     if deadline <=? t then match probed' with
       | Some e => throw (Wrap "managed Redis readiness timed out" e)
       | None => throw (Msg "managed Redis readiness timed out before a single project address was assigned") end
     else ebind (ask_error CTick) (fun _ => waitReadyLoop fuel id network deadline probed'))
    (fun r _ => forall c, r = Ok c -> ct_ID c = id) w2) as Hloop.
  { intros probed'. apply post_bind. intros t w3 _. destruct (_ <=? _); [destruct probed'; by apply post_ret|].
    apply post_ebind. intros [?|?] w4 _; [apply IH|done]. }
  destruct probed as [[e|]|]; [exact (Hloop (Some e))| |exact (Hloop last)]. apply post_ret. by intros ? [= <-].
Qed.
Lemma waitReady_id fuel id network w :
  post (waitReady config fuel id network) (fun r _ => forall c, r = Ok c -> ct_ID c = id) w.
Proof. apply post_bind. intros t w1 _. apply waitReadyLoop_id. Qed.
Lemma wrapped_ready_id what fuel id network w :
  post (wrapped what (waitReady config fuel id network)) (fun r _ => forall c, r = Ok c -> ct_ID c = id) w.
Proof.
  unfold wrapped. apply post_bind. eapply post_mono; [apply waitReady_id|]. intros [c|?] w1 Hid; apply post_ret; [exact Hid|done].
Qed.

(** *** Start *)

Definition failed {A} (w0 : World) (r : result goerr A) (w' : World) : Prop :=
  match r with Ok _ => True | Err _ => outside ∅ w0 w' end.
Lemma on_error_failed {A} (m : M (result goerr A)) c w0 w :
  post m (failed w0) w -> (forall e, resp (outside ∅) (c e)) -> post (on_error m c) (failed w0) w.
Proof.
  intros Hm Hc. unfold on_error. apply post_bind. eapply post_mono; [exact Hm|]. intros [a|e] w1 HX; [by apply post_ret|].
  apply post_bind. simpl in HX. eapply (post_from (outside ∅)); [apply _|apply Hc|exact HX|]. intros e' w2 HX2. by apply post_ret.
Qed.
Ltac safe HX := apply post_ebind; on HX; match goal with r : result goerr _ |- _ => destruct r as [?|?]; [|exact HX] end.

Lemma startPrepared_failed fuel resource runtimeID w0 w :
  outside ∅ w0 w -> post (startPrepared config fuel resource runtimeID) (failed w0) w.
Proof.
  intros HX. unfold startPrepared. safe HX. destruct (negb _); [by apply post_ret|].
  safe HX. safe HX. safe HX. safe HX. apply post_ebind. eapply post_mono; [by apply create_outside|].
  intros [c|?] w6; [|done]. intros [_ HC]. unfold on_error. apply post_bind. on HC.
  destruct r as [?|?]; [by apply post_ret|]. apply post_bind. unfold attempt. apply post_bind, post_bind.
  eapply post_mono; [by apply remove_outside|]. intros r2 w8 HX8. by repeat apply post_ret.
Qed.
Lemma startLocked_failed fuel id w0 w : outside ∅ w0 w -> post (startLocked config fuel id) (failed w0) w.
Proof.
  intros HX. unfold startLocked. apply post_bind. on HX. destruct r as [?|]; [by apply post_ret|].
  safe HX. safe HX. destruct (snd _); [by apply post_ret|]. apply on_error_failed; [by apply startPrepared_failed|].
  intros e. only_removes.
Qed.
Lemma lease_failed {A} kind id (m : M (result goerr A)) w0 :
  (forall w, outside ∅ w0 w -> post m (failed w0) w) -> post (with_lease kind id m) (failed w0) w0.
Proof.
  intros Hm r w'. unfold with_lease. destruct (Admission.Begin _ _ _) as [g [lease|e]].
  - destruct (m (set_gate g w0)) as [[a w2]|] eqn:Es; [|done]. intros [= <- <-].
    apply Hm in Es; [by destruct a|]. split_and!; [done|simpl; set_solver|done].
  - intros [= <- <-]. split_and!; [done|simpl; set_solver|done].
Qed.

(** *** Restore *)

(** The containers a candidate stands for. *)
Definition candidates (id : string) : gset string := if empty id then ∅ else {[id]}.
Lemma candidates_id id : id <> "" -> candidates id = {[id]}.
Proof. unfold candidates, empty. by case_bool_decide. Qed.

Lemma removeRestoreCandidate_outside id started project volumeID runtimeID w0 w :
  outside (candidates id) w0 w ->
  post (removeRestoreCandidate config id started project volumeID runtimeID) (fun _ => outside ∅ w0) w.
Proof.
  intros HX. unfold removeRestoreCandidate. apply post_bind. on HX. apply post_bind.
  assert (post (if negb (empty id) then attempt (RemoveContainer id) else mret None) (fun _ => outside ∅ w0) w1) as Hrm.
  { revert HX. unfold candidates. destruct (empty id); simpl; intros HX; [by apply post_ret|]. unfold attempt. apply post_bind.
    eapply post_mono; [by apply remove_outside|]. intros r2 w2 HX2. by apply post_ret. }
  eapply post_mono; [exact Hrm|]. clear HX. intros e w2 HX. apply post_bind. on HX. apply post_bind. on HX. by apply post_ret.
Qed.

Ltac kept HX := apply post_step_or; on HX; match goal with r : result goerr _ |- _ => destruct r as [?|?]; [|right; by split] end.

(** The rows have changed; what only removes keeps it so. *)
Definition changed (w0 w : World) : Prop := st_redis (w_store w) <> st_redis (w_store w0).
Lemma changed_resp {A} (m : M A) w0 w : changed w0 w -> resp (outside ∅) m -> post m (fun _ => changed w0) w.
Proof. intros Hm Hr a w' Hrun. apply Hr in Hrun as [E _]. unfold changed. by rewrite E. Qed.

Lemma switch_changes input w0 s s' :
  st_redis s = st_redis w0 -> sw_VolumeID input <> sw_ExpectedVolumeID input ->
  SwitchManagedRedisVolume input s = Ok s' -> st_redis s' <> st_redis w0.
Proof.
  intros Es Hne (r & Hr & Hv & ->)%Switch_inv E. simpl in E. rewrite <- Es in E. apply Hne. rewrite <- Hv.
  assert (st_redis s !! sw_ResourceID input = Some (switched_row input r)) as Hr' by (rewrite <- E; apply lookup_insert_eq).
  rewrite Hr in Hr'. apply (f_equal (fmap mr_VolumeID)) in Hr' as [= ->]. unfold switched_row. by case_bool_decide.
Qed.

Lemma restoreSwitch_outside fuel resource old password placement image ids actor timestamp volume w0 w :
  outside ∅ w0 w -> i_volume ids <> mr_VolumeID resource ->
  post (restoreSwitch config fuel resource old password placement image ids actor timestamp volume)
    (fun out w' => changed w0 w' \/ p_committed (fst out) = false /\ outside (candidates (p_candidate (fst out))) w0 w') w.
Proof.
  intros HX Hnew. unfold restoreSwitch. kept HX. kept HX. apply post_step_or. eapply post_mono; [by apply create_outside|]. clear HX.
  intros [c|?] w3; [|by right]. intros [Hne HX]. rewrite <- (candidates_id _ Hne) in HX. kept HX. apply post_step_or.
  eapply (post_both (outside _)); [apply _| |exact HX|apply wrapped_ready_id|]; [only_removes|].
  clear HX. intros [ready|?] w5 HX Hid; [|by right]. specialize (Hid ready eq_refl). rewrite <- Hid in HX.
  kept HX. pose proof HX as [E _]. apply post_bind. apply post_write.
  - intros s Hs. eapply post_mono; [apply (changed_resp _ w0); [by apply (switch_changes _ (w_store w0) _ _ E) in Hs|only_removes]|].
    intros out w' Hch. by left.
  - intros e. apply post_bind. match goal with |- post _ _ ?w => assert (outside (candidates (ct_ID ready)) w0 w) as HX' end.
    { etrans; [exact HX|]. apply (len_trace _ (outside_lenient _)). }
    on HX'. apply post_ret. right. by split.
  - intros s e Hs _ _. eapply post_mono; [apply (changed_resp _ w0); [by apply (switch_changes _ (w_store w0) _ _ E) in Hs|only_removes]|].
    intros out w' Hch. by left.
Qed.

(** The pointer moved, or nothing is left behind. *)
Definition moved (w0 w : World) : Prop := changed w0 w \/ outside ∅ w0 w.
Lemma moved_resp {A} (m : M A) w0 w : moved w0 w -> resp (outside ∅) m -> post m (fun _ => moved w0) w.
Proof.
  intros [Hm|HX] Hr a w' Hrun; [left; by eapply changed_resp|right]. apply Hr in Hrun. by etrans.
Qed.

Ltac safely HX := apply post_ebind; on HX; match goal with r : result goerr _ |- _ => destruct r as [?|?]; [|right; exact HX] end.

Lemma restore_candidate_moved fuel resource old password placement image ids actor timestamp w0 w :
  outside ∅ w0 w -> i_volume ids <> mr_VolumeID resource ->
  post (let! volume := createRestoreVolume config (mr_ProjectID resource) (i_volume ids) in
        outcome ← restoreSwitch config fuel resource old password placement image ids actor timestamp volume;
        let '(p, r) := outcome in
        if p_committed p then mret r
        else cleanup ← removeRestoreCandidate config (p_candidate p) (p_started p) (mr_ProjectID resource) (i_volume ids) (i_runtime ids);
             mret (joined [err_of r; cleanup]))
    (fun _ => moved w0) w.
Proof.
  intros HX Hnew. apply post_ebind. on HX. destruct r as [volume|?]; [|by right]. apply post_bind.
  eapply post_mono; [by apply restoreSwitch_outside|]. intros [p r] w2 [Hch|[Hp HX2]].
  - eapply post_mono; [apply moved_resp; [by left|only_removes]|]. done.
  - simpl in *. rewrite Hp. apply post_bind. eapply post_mono; [by apply removeRestoreCandidate_outside|].
    intros e w3 HX3. apply post_ret. by right.
Qed.

Lemma RestoreReplace_moved fuel id actor w0 : post (RestoreReplace config fuel id actor) (fun _ => moved w0) w0.
Proof.
  assert (outside ∅ w0 w0) as HX by done.
  unfold RestoreReplace. destruct (negb _); [apply post_ret; by right|]. destruct (negb _); [apply post_ret; by right|].
  safely HX. apply post_bind. on HX. destruct (match r with Some _ => _ | None => _ end); [apply post_ret; by right|].
  safely HX. destruct (negb _); [apply post_ret; by right|]. safely HX. safely HX. safely HX. apply post_bind. on HX.
  apply post_ebind. eapply (post_both (outside _)); [apply _| |exact HX|apply restoreIdentifiers_new|]; [only_removes|]. clear HX.
  intros [ids|?] w8 HX Hnew; [specialize (Hnew ids eq_refl)|by right]. safely HX.
  unfold on_error. apply post_bind. eapply post_mono; [by apply restore_candidate_moved|].
  intros [?|e] w9 Hm; [by apply post_ret|]. apply post_bind. eapply post_mono; [apply moved_resp; [exact Hm|only_removes]|].
  intros e' w10 Hm'. by apply post_ret.
Qed.
End Cleanup.

(** ** Properties *)

(** C28. A failed start leaves no container behind, and neither does a restore that did
    not move the volume pointer, but those the controller cannot remove: the containers
    afterwards are among those before, those of a creation that was answered with an
    error after the engine had made the container, and those whose removal was answered
    with an error.  Every call may fail; the engine is taken to name what it creates and
    to answer an inspection with the container asked about. *)
Theorem failed_start_and_restore_clean_up `{HostnameTables} `{ConfigTables} {env : RedisEnv} config fuel id actor w w'
    (names : forall spec trace c, a_create (CCreate spec :: trace) = Ok c -> ct_ID c <> "")
    (inspects : forall i trace c, a_inspect (CInspect i :: trace) = Ok c -> ct_ID c = i) :
  (forall e, Start config fuel id w = Some (Err e, w') ->
     dom (w_containers w') ⊆ dom (w_containers w) ∪ leftovers (w_trace w') /\ st_redis (w_store w') = st_redis (w_store w)) /\
  (forall r, RestoreReplace config fuel id actor w = Some (r, w') ->
     st_redis (w_store w') = st_redis (w_store w) -> dom (w_containers w') ⊆ dom (w_containers w) ∪ leftovers (w_trace w')).
Proof.
  split.
  - intros e Hrun. assert (failed w (Err (A := unit) e) w') as (E & Hd & _).
    { revert Hrun. eapply lease_failed; try done. intros. by apply startLocked_failed. }
    split; [set_solver|done].
  - intros r Hrun E. apply RestoreReplace_moved in Hrun; [|done..]. destruct Hrun as [Hne|(_ & Hd & _)]; [done|set_solver].
Qed.

Module CleanupDemo.
Import RedisDemo.
#[local] Instance cleanup_hostnames : HostnameTables := demo_hostnames.
#[local] Instance cleanup_tables : ConfigTables := demo_config.

(** The answers of the demonstration with the inspected container named as asked. *)
Definition named (e : RedisEnv) : RedisEnv := {|
  a_error := @a_error e; a_effect := @a_effect e; a_image := @a_image e; a_create := @a_create e; a_orphan := @a_orphan e;
  a_inspect := fun trace => match trace with
    | CInspect i :: _ => match @a_inspect e trace with
                         | Ok c => Ok (mkContainer i (ct_State c) (ct_ExitCode c) (ct_IPs c))
                         | Err e => Err e
                         end
    | _ => Err (Msg "no container")
    end;
  a_password := @a_password e; a_placement := @a_placement e; a_status := @a_status e; a_dump := @a_dump e;
  a_copied := @a_copied e; a_entries := @a_entries e; a_newID := @a_newID e; a_now := @a_now e;
  redisReference := @redisReference e; valid_digest := @valid_digest e; parse_ipv4 := @parse_ipv4 e
|}.
#[local] Instance deaf_env : RedisEnv := named (answers deaf).

Definition stopped : World := set_active ∅ (set_containers ∅ running).
Definition start_run := Start config 5 "redis1" stopped.
Definition restore_run := RestoreReplace config 5 "redis1" operator running.
Definition after (x : option (result goerr unit * World)) : World := match x with Some (_, w) => w | None => running end.

Lemma failed_start_and_restore_clean_up_witness :
  leftovers (w_trace (after start_run)) = ∅ /\ leftovers (w_trace (after restore_run)) = ∅ /\
  dom (w_containers (after start_run)) ⊆ dom (w_containers stopped) ∪ leftovers (w_trace (after start_run)) /\
  dom (w_containers (after restore_run)) ⊆ dom (w_containers running) ∪ leftovers (w_trace (after restore_run)).
Proof.
  assert (forall spec trace c, a_create (CCreate spec :: trace) = Ok c -> ct_ID c <> "") as Hn by (intros spec trace c; simpl; by intros [= <-]).
  assert (forall i trace c, a_inspect (CInspect i :: trace) = Ok c -> ct_ID c = i) as Hi.
  { intros i trace c. change (a_inspect (RedisEnv := deaf_env) (CInspect i :: trace)) with
      (match a_inspect (RedisEnv := answers deaf) (CInspect i :: trace) with
       | Ok c => Ok (mkContainer i (ct_State c) (ct_ExitCode c) (ct_IPs c)) | Err e => Err e end).
    destruct (a_inspect _); [|done]. by intros [= <-]. }
  split_and!; [by vm_compute|by vm_compute|..].
  - destruct (failed_start_and_restore_clean_up config 5 "redis1" operator stopped (after start_run) Hn Hi) as [Hs _].
    eapply Hs. vm_compute. reflexivity.
  - destruct (failed_start_and_restore_clean_up config 5 "redis1" operator running (after restore_run) Hn Hi) as [_ Hs].
    eapply Hs; [vm_compute; reflexivity|by vm_compute].
Defined.

(** A creation that fails after the engine made the container leaves it: the controller
    never learns its ID, and no call that removes it follows. *)
Definition creation_fails : RedisEnv :=
  answers_with (fun _ => false) (fun _ => false) (fun _ => Err (Msg "read created container")) (fun _ => Some "c2").
Lemma failed_redis_create_leaks :
  exists e w', Start (env := creation_fails) config 5 "redis1" stopped = Some (Err e, w') /\
    w_containers stopped = ∅ /\ w_containers w' = {["c2" := mkEngineContainer "vol1" false]} /\
    Forall (fun c => match c with CRemove _ => False | _ => True end) (w_trace w').
Proof.
  eexists _, _. split; [vm_compute; reflexivity|]. split; [done|]. split; [by vm_compute|].
  vm_compute. repeat constructor.
Qed.
End CleanupDemo.

Import RedisDemo.

(** A version change whose candidate does not become ready leaves the candidate
    running although every removal succeeds: the failing wait replaces the candidate by
    the empty container, so the cleanup neither stops nor removes it, and it removes
    the volume the container has mounted. *)
Theorem version_change_leaks_candidate :
  (forall c trace, @a_error (answers deaf) (CStop c :: trace) = None /\ @a_error (answers deaf) (CRemove c :: trace) = None) /\
  exists e w', @ChangeVersion demo_config (answers deaf) config 5 "redis1" "8" "sha256:new" operator running = Some (Err e, w') /\
    w_containers w' !! ct_ID new_container = Some (mkEngineContainer "vol2" true) /\ "vol2" ∉ w_volumes w'.
Proof.
  split; [done|]. eexists _, _. split; [vm_compute; reflexivity|]. split; [by vm_compute|]. by vm_compute.
Qed.

(** When the database refuses to record the deployment after the pointer was
    switched, the upgraded Redis runs and is the active one but is not published: its
    clients cannot reach it. *)
Theorem unrecorded_upgrade_unreachable :
  exists e w', @ChangeVersion demo_config (answers not_recorded) config 5 "redis1" "8" "sha256:new" operator running = Some (Err e, w') /\
    (mr_VolumeID <$> st_redis (w_store w') !! "redis1") = Some "vol2" /\
    (ct_ID ∘ ar_container <$> w_active w' !! "redis1") = Some (ct_ID new_container) /\
    w_containers w' !! ct_ID new_container = Some (mkEngineContainer "vol2" true) /\
    "redis1" ∈ w_published running /\ "redis1" ∉ w_published w'.
Proof. eexists _, _. split; [vm_compute; reflexivity|]. repeat split; by vm_compute. Qed.
