(* ===== verification/ManagedRedisTermination.v ===== *)
(** * ManagedRedisTermination: the operations of managed Redis end

    The only loop of starting, pausing, restoring and deleting is the wait for a server
    to answer, which ends at its deadline once the clock passes it. *)

From S2P Require Import Prelude Effects Names Admission ServiceConfig DeploymentStore Runtime RuntimeDeployments ManagedRedis ManagedRedisProofs.

Section Ends.
Context `{HostnameTables} `{ConfigTables} {env : RedisEnv} (config : Config).
(** The clock passes every instant within a bounded number of calls. *)
Context (clock : forall T, exists n, forall trace, (n <= length trace)%nat -> T <= a_now trace).

(** ** Steps *)

Lemma ends_ask {A} c (f : list Call -> A) : terminates (fun _ => ask c f).
Proof. by apply terminates_const. Qed.
Lemma ends_perform c f : terminates (fun _ => perform c f).
Proof. apply terminates_const. intros w. unfold perform. by destruct (a_error _). Qed.
Lemma ends_redis_write n op : terminates (fun _ => write n op).
Proof. apply terminates_const. intros w. unfold write. by destruct (op _), (a_error _). Qed.
Lemma ends_redis_read {A} n (q : Store -> result goerr A) : terminates (fun _ => read n q).
Proof. by apply terminates_const. Qed.
Lemma ends_activeOf id : terminates (fun _ => activeOf id).
Proof. by apply terminates_const. Qed.
Lemma ends_setActive id a : terminates (fun _ => setActive id a).
Proof. by apply terminates_const. Qed.
Lemma ends_clearActive id : terminates (fun _ => clearActive id).
Proof. by apply terminates_const. Qed.
Lemma ends_begin id : terminates (fun _ => beginMaintenance id).
Proof. apply terminates_const. intros w. unfold beginMaintenance. by case_bool_decide. Qed.
Lemma ends_end id : terminates (fun _ => endMaintenance id).
Proof. by apply terminates_const. Qed.
Lemma ends_block e : terminates (fun _ => BlockDatabase e).
Proof. apply terminates_const. intros w. unfold BlockDatabase. by destruct (a_error _). Qed.
Lemma ends_CreateContainer spec : terminates (fun _ => CreateContainer spec).
Proof. apply terminates_const. intros w. unfold CreateContainer. by destruct (a_create _). Qed.
Lemma ends_on_error {A} (m : nat -> M (result goerr A)) c :
  terminates m -> (forall e, terminates (fun n => c n e)) -> terminates (fun n => on_error (m n) (c n)).
Proof.
  intros Hm Hc. unfold on_error. refine (terminates_bind m (fun n r => _) Hm _). intros [a|e]; [apply terminates_ret|].
  refine (terminates_bind (fun n => c n e) (fun n e' => _) (Hc e) _). intros e'. apply terminates_ret.
Qed.
Lemma ends_redis_lease {A} kind id (m : nat -> M (result goerr A)) :
  terminates m -> terminates (fun n => with_lease kind id (m n)).
Proof.
  intros Hm w. unfold with_lease. destruct (Admission.Begin kind id (w_gate w)) as [g [lease|e]]; [|by eexists 0%nat, _, _].
  destruct (Hm (set_gate g w)) as (n & a & w2 & Hn). eexists n, _, _. intros n' Hle. by rewrite Hn by done.
Qed.
End Ends.
Create HintDb redis_ends.
#[export] Hint Resolve ends_ask ends_perform ends_redis_write ends_redis_read ends_activeOf ends_setActive ends_clearActive
  ends_begin ends_end ends_block ends_CreateContainer : redis_ends.

(** Functions that only make such steps are unfolded. *)
Ltac redis_ends :=
  ends_walk ltac:(first
    [ assumption | solve [eauto 2 with redis_ends]
    | match goal with H : context [terminates] |- _ => apply H end
    | apply ends_redis_lease | apply ends_on_error; [|intros]
    | progress unfold attempt, wrapped, ask_error, file, command, dial, now, newID, PermitGrowth, with_temporary,
        StartContainer, StopContainer, RemoveContainer, InspectContainer, PublishRedis, WithdrawRedis, UnblockDatabase,
        removeAll_volume, syncDirectory, resolveImage, writeConfig, ensureVolume, beginDeployment, prepareRuntimeDeployment,
        beginCandidateDeployment, recordDeploymentFailure, finishCandidateDeployment, activateDeployment,
        createContainerAttempt, startContainer, finalSave, restoreIdentifiers, createRestoreVolume, writeRestoreRDB,
        removeManagedRedisVolume, removeManagedRedisConfig, removeRestoreCandidate, removeReplacedRuntime,
        query, redisVersionEndpoint, drainAndKillClients ]).

(** ** The wait *)

Section Waits.
Context `{HostnameTables} `{ConfigTables} {env : RedisEnv} (config : Config).
Context (clock : forall T, exists n, forall trace, (n <= length trace)%nat -> T <= a_now trace).

(** What follows a probe that did not succeed. *)
Definition retryLoop (fuel : nat) (id network : string) (deadline : Z) (last : option goerr) : M (result goerr Container) :=
  t ← ask CClock a_now;
  if deadline <=? t then
    match last with
    | Some e => throw (Wrap "managed Redis readiness timed out" e)
    | None => throw (Msg "managed Redis readiness timed out before a single project address was assigned")
    end
  else let! _ := ask_error CTick in waitReadyLoop fuel id network deadline last.
Definition probe (container : Container) (network : string) : M (option (option goerr)) :=
  match addressesOf container network with
  | [address] => dialled ← dial address;
                 match dialled with
                 | Ok _ => pinged ← command "PING"; _ ← command "close"; mret (Some (err_of pinged))
                 | Err e => mret (Some (Some e))
                 end
  | _ => mret None
  end.
Lemma waitReadyLoop_step fuel id network deadline last :
  waitReadyLoop (S fuel) id network deadline last =
    let! container := InspectContainer id in
    if negb (bool_decide (ct_State container = "running"))
    then throw (Msg ("managed Redis container state is " +:+ ct_State container))
    else probed ← probe container network;
         match probed with
         | Some None => mret (Ok container)
         | _ => retryLoop fuel id network deadline (match probed with Some e => e | None => last end)
         end.
Proof. reflexivity. Qed.
Lemma probe_returns container network w :
  exists probed w', probe container network w = Some (probed, w') /\ (length (w_trace w) <= length (w_trace w'))%nat.
Proof.
  unfold probe. destruct (addressesOf container network) as [|address [|? ?]]; [by eexists _, _| |by eexists _, _].
  unfold dial, command, ask_error, ask, mbind, Eff_bind, mret, Eff_ret. simpl.
  destruct (of_error _); eexists _, _; (split; [reflexivity|simpl; lia]).
Qed.

Lemma pass_ends k id network deadline w :
  (forall last w1, (length (w_trace w) <= length (w_trace w1))%nat ->
     exists a w', forall fuel, (k <= fuel)%nat -> retryLoop fuel id network deadline last w1 = Some (a, w')) ->
  forall last, exists a w', forall fuel, (S k <= fuel)%nat -> waitReadyLoop fuel id network deadline last w = Some (a, w').
Proof.
  intros Hretry last.
  set (w1 := set_trace (CInspect id :: w_trace w) w).
  destruct (a_inspect (CInspect id :: w_trace w)) as [c|e] eqn:Hi;
    [|exists (Err e), w1; intros [|fuel] Hf; [lia|]; rewrite waitReadyLoop_step;
      unfold ebind, mbind, Eff_bind, InspectContainer, ask; by rewrite Hi].
  assert (forall fuel, waitReadyLoop (S fuel) id network deadline last w =
    (if negb (bool_decide (ct_State c = "running")) then throw (Msg ("managed Redis container state is " +:+ ct_State c))
     else probed ← probe c network;
          match probed with
          | Some None => mret (Ok c)
          | _ => retryLoop fuel id network deadline (match probed with Some e => e | None => last end)
          end) w1) as Hstep.
  { intros fuel. rewrite waitReadyLoop_step. unfold ebind, mbind at 1, Eff_bind at 1, InspectContainer, ask. by rewrite Hi. }
  destruct (negb _); [eexists _, _; intros [|fuel] Hf; [lia|by rewrite Hstep]|].
  destruct (probe_returns c network w1) as (probed & w2 & Hp & Hlen).
  assert (forall last', exists a w', forall fuel, (k <= fuel)%nat -> retryLoop fuel id network deadline last' w2 = Some (a, w')) as Hr
    by (intros; apply Hretry; simpl in Hlen; lia).
  destruct probed as [[e|]|]; [destruct (Hr (Some e)) as (a & w' & Ha)| |destruct (Hr last) as (a & w' & Ha)].
  2: exists (Ok c), w2; intros [|fuel] Hf; [lia|]; rewrite Hstep; unfold mbind, Eff_bind; by rewrite Hp.
  all: exists a, w'; intros [|fuel] Hf; [lia|]; rewrite Hstep; unfold mbind, Eff_bind; rewrite Hp; apply Ha; lia.
Qed.

Lemma waitReadyLoop_ends id network deadline last : terminates (fun n => waitReadyLoop n id network deadline last).
Proof.
  destruct (clock deadline) as [n Hn].
  assert (forall k w, (n <= length (w_trace w) + k)%nat -> forall last,
    exists a w', forall fuel, (S k <= fuel)%nat -> waitReadyLoop fuel id network deadline last w = Some (a, w')) as Hloop;
    [|intros w; destruct (Hloop n w ltac:(lia) last) as (a & w' & Hr); by eexists _, a, w'].
  induction k as [|k IH]; intros w Hk; apply pass_ends; intros last' w1 Hlen;
    unfold retryLoop, mbind, Eff_bind, ask at 1; set (w2 := set_trace (CClock :: w_trace w1) w1).
  - rewrite (proj2 (Z.leb_le _ _)) by (apply Hn; simpl; lia). destruct last'; by eexists _, _.
  - destruct (deadline <=? a_now (CClock :: w_trace w1)); [destruct last'; by eexists _, _|].
    unfold ebind, ask_error, ask, mbind, Eff_bind. set (w3 := set_trace (CTick :: w_trace w2) w2).
    destruct (a_error (CTick :: w_trace w2)) as [e|]; [by eexists (Err e), w3|]. simpl.
    destruct (IH w3 ltac:(simpl; lia) last') as (a & w' & Ha). exists a, w'. intros fuel Hf. apply Ha. lia.
Qed.
Lemma waitReady_ends id network : terminates (fun n => waitReady config n id network).
Proof. unfold waitReady. pose proof waitReadyLoop_ends. redis_ends. Qed.

(** ** The operations *)

Lemma ends_allocateIDs n seen : terminates (fun _ => allocateIDs n seen).
Proof. revert seen. induction n as [|n IH]; intros seen; simpl; redis_ends. Qed.
Hint Resolve waitReady_ends ends_allocateIDs : redis_ends.
Lemma ends_startPrepared resource id : terminates (fun n => startPrepared config n resource id).
Proof. unfold startPrepared. redis_ends. Qed.
Hint Resolve ends_startPrepared : redis_ends.
Lemma ends_startLocked id : terminates (fun n => startLocked config n id).
Proof. unfold startLocked. redis_ends. Qed.
Hint Resolve ends_startLocked : redis_ends.
Lemma ends_stopLocked id : terminates (fun _ => stopLocked id).
Proof. unfold stopLocked. redis_ends. Qed.
Hint Resolve ends_stopLocked : redis_ends.
Lemma ends_recover old restart why : terminates (fun n => recoverRuntime config n old restart why).
Proof. unfold recoverRuntime. redis_ends. Qed.
Hint Resolve ends_recover : redis_ends.
Lemma ends_restoreSwitch resource old password placement image ids actor timestamp volume :
  terminates (fun n => restoreSwitch config n resource old password placement image ids actor timestamp volume).
Proof. unfold restoreSwitch, step_or, recoverOldRuntime. redis_ends. Qed.
Hint Resolve ends_restoreSwitch : redis_ends.
Lemma ends_RestoreReplace id actor : terminates (fun n => RestoreReplace config n id actor).
Proof. unfold RestoreReplace. redis_ends. Qed.
Lemma ends_resume runtime : terminates (fun n => resume config n runtime).
Proof. unfold resume. redis_ends. Qed.
Lemma ends_Delete input : terminates (fun n => Delete config n input).
Proof. unfold Delete, prepareDeletionMaintenance, restartAfterDeleteFailure. redis_ends. Qed.
Lemma ends_Start id : terminates (fun n => Start config n id).
Proof. unfold Start. redis_ends. Qed.
End Waits.

(** Starting, restoring and deleting end.  If the clock passes every instant within a
    bounded number of calls, then from every state some fuel is enough and more fuel
    changes neither the result nor the state. *)
Theorem redis_operations_end `{HostnameTables} `{ConfigTables} {env : RedisEnv} config id actor input w
    (clock : forall T, exists n, forall trace, (n <= length trace)%nat -> T <= a_now trace) :
  (exists fuel r w', forall fuel', (fuel <= fuel')%nat -> Start config fuel' id w = Some (r, w')) /\
  (exists fuel r w', forall fuel', (fuel <= fuel')%nat -> RestoreReplace config fuel' id actor w = Some (r, w')) /\
  (exists fuel r w', forall fuel', (fuel <= fuel')%nat -> Delete config fuel' input w = Some (r, w')).
Proof. split_and!; [by apply ends_Start|by apply ends_RestoreReplace|by apply ends_Delete]. Qed.

Module TerminationDemo.
Import RedisDemo.
Lemma redis_operations_end_witness :
  exists fuel r w', forall fuel', (fuel <= fuel')%nat ->
    @RestoreReplace demo_config (answers deaf) config fuel' "redis1" operator running = Some (r, w').
Proof.
  refine (proj1 (proj2 (@redis_operations_end demo_hostnames demo_config (answers deaf) config "redis1" operator
    (mkDelete "redis1" "project1" 1000 "audit1" 2000 operator) running _))).
  intros T. exists (Z.to_nat T). intros trace Hn. cbn [a_now answers answers_with]. unfold unix_epoch, second. lia.
Defined.
End TerminationDemo.
