(* ===== verification/BackupChunks.v ===== *)
(** * Sealed chunks: internal/cryptobox and internal/backupcrypto

    A backup is a sequence of chunks of at most 8 MiB, each sealed under a key of
    its resource with its identity as additional data, and written to a work
    directory.  The cipher, the hash and the key derivation are the class
    [BackupCrypto]; the disk may fail at any call ([Disk]). *)

From stdpp Require Import pretty.
From Stdlib Require Import Ascii.
From S2P Require Import Prelude.

Class BackupCrypto := {
  hkdf_Key : bytes -> string -> string -> option bytes;
  (** [chacha20poly1305.NewX]: [Seal] and [Open] take key, nonce, text, additional data. *)
  aead_Seal : bytes -> bytes -> bytes -> bytes -> bytes;
  aead_Open : bytes -> bytes -> bytes -> bytes -> option bytes;
  sha256_hex_bytes : bytes -> string
}.

(** ** cryptobox/box.go *)

Module Cryptobox.
Definition formatSize : Z := 4.
Definition NonceSize : Z := 24.
Definition Overhead : Z := 16.
Definition format : bytes := ["P"; "D"; "X"; "001"]%char.
Record Box := mkBox { box_key : bytes }.

Section Cryptobox.
Context `{BackupCrypto}.

Definition NewBox (master : bytes) (salt info : string) : result goerr Box :=
  if empty salt then Err (Msg "empty key-derivation salt")
  else if empty info then Err (Msg "empty key-derivation domain")
  else match hkdf_Key master salt info with
  | Some derived => Ok (mkBox derived)
  | None => Err (Msg "derive key")
  end.

(** [nonce] is what the random source gives for 24 bytes. *)
Definition SealWith (box : Box) (nonce : result goerr bytes) (plaintext additionalData : bytes) : result goerr bytes :=
  match nonce with
  | Err e => Err (Wrap "generate nonce" e)
  | Ok nonce => Ok (format ++ nonce ++ aead_Seal (box_key box) nonce plaintext additionalData)
  end.

Definition Open (box : Box) (sealed additionalData : bytes) : result goerr bytes :=
  let headerSize := formatSize + NonceSize in
  if blen sealed <? headerSize + Overhead then Err (Msg "encrypted value is truncated")
  else if bool_decide (take (Z.to_nat formatSize) sealed <> format) then Err (Msg "unsupported encrypted value format")
  else
    let nonce := take (Z.to_nat NonceSize) (drop (Z.to_nat formatSize) sealed) in
    match aead_Open (box_key box) nonce (drop (Z.to_nat headerSize) sealed) additionalData with
    | Some plaintext => Ok plaintext
    | None => Err (Msg "encrypted value authentication failed")
    end.
End Cryptobox.
End Cryptobox.
Import Cryptobox.

(** ** Integers as bytes, most significant first *)

Fixpoint big_endian (width : nat) (n : Z) : bytes :=
  match width with
  | O => []
  | S w => big_endian w (n / 256) ++ [ascii_of_N (Z.to_N (n mod 256))]
  end.
Definition byte_value (c : ascii) : Z := Z.of_N (byte_code c).
Definition of_big_endian (b : bytes) : Z := foldl (fun n c => n * 256 + byte_value c) 0 b.

(** ** backupcrypto/chunks.go: chunks *)

Definition ResourceKeyDomain : string := "platformd/backup/v1".
Definition ControlKeyDomain : string := "platformd/backup/control/v1".
Definition DefaultChunkSize : Z := 8 * 2 ^ 20.

Record Chunk := mkChunk { Index : Z; PlaintextSize : Z; CiphertextSize : Z; CiphertextSHA : string }.
Record WorkChunk := mkWorkChunk { wc_chunk : Chunk; wc_path : string }.
Record ResourceCipher := mkCipher { resourceID : string; box : Box }.

Definition appendLengthPrefixed (destination : bytes) (value : string) : bytes :=
  destination ++ big_endian 4 (u32 (zlen value)) ++ text value.
Definition chunkAdditionalData (resourceID generationID : string) (index plaintextSize : Z) : bytes :=
  let result := ["001"%char] in
  let result := appendLengthPrefixed result resourceID in
  let result := appendLengthPrefixed result generationID in
  let result := result ++ big_endian 8 (u64 index) in
  result ++ big_endian 8 (u64 plaintextSize).

Section Chunks.
Context `{BackupCrypto}.

Definition newCipher (master : bytes) (resourceID domain : string) : result goerr ResourceCipher :=
  if empty resourceID then Err (Msg "backup resource ID is empty")
  else let? box := NewBox master resourceID domain in Ok (mkCipher resourceID box).
Definition NewResourceCipher (master : bytes) (resourceID : string) : result goerr ResourceCipher :=
  newCipher master resourceID ResourceKeyDomain.
Definition NewControlCipher (master : bytes) (installationID : string) : result goerr ResourceCipher :=
  newCipher master installationID ControlKeyDomain.

Definition SealChunk (cipher : ResourceCipher) (generationID : string) (index : Z) (plaintext : bytes)
    (nonce : result goerr bytes) : result goerr (bytes * Chunk) :=
  if empty generationID || (index <? 0) || (DefaultChunkSize <? blen plaintext)
  then Err (Msg "backup chunk identity or size is invalid")
  else
    let additionalData := chunkAdditionalData (resourceID cipher) generationID index (blen plaintext) in
    let? sealed := SealWith (box cipher) nonce plaintext additionalData in
    Ok (sealed, mkChunk index (blen plaintext) (blen sealed) (sha256_hex_bytes sealed)).

Definition OpenChunk (cipher : ResourceCipher) (generationID : string) (chunk : Chunk) (sealed : bytes) : result goerr bytes :=
  if empty generationID || (Index chunk <? 0) || (PlaintextSize chunk <? 0) || (DefaultChunkSize <? PlaintextSize chunk)
     || negb (CiphertextSize chunk =? blen sealed)
  then Err (Msg "backup chunk descriptor is invalid")
  else if bool_decide (sha256_hex_bytes sealed <> CiphertextSHA chunk)
  then Err (Msg "backup chunk ciphertext checksum differs")
  else
    let? plaintext := Open (box cipher) sealed
                        (chunkAdditionalData (resourceID cipher) generationID (Index chunk) (PlaintextSize chunk)) in
    if negb (blen plaintext =? PlaintextSize chunk) then Err (Msg "backup chunk plaintext size differs")
    else Ok plaintext.
End Chunks.

(** ** The disk: files by path, and a fault at any system call *)

Inductive Fault := Fine | Fails.
Class Disk := {
  disk_fault : nat -> Fault;
  (** How much of a failed write reached the file. *)
  disk_written : nat -> nat;
  (** What the random source gives for a nonce. *)
  random_nonce : nat -> result goerr bytes
}.
Record Files := mkFiles { contents : gmap string bytes; calls : nat }.

Section Files.
Context `{Disk}.

Definition called (fs : Files) : Files := mkFiles (contents fs) (S (calls fs)).
Definition system_call (fs : Files) : option goerr * Files :=
  (match disk_fault (calls fs) with Fine => None | Fails => Some (Msg "system call failed") end, called fs).
Definition OpenFile_excl (path : string) (fs : Files) : option goerr * Files :=
  let '(err, fs') := system_call fs in
  match err, contents fs !! path with
  | None, None => (None, mkFiles (<[path := []]> (contents fs)) (calls fs'))
  | None, Some _ => (Some (Msg "file exists"), fs')
  | Some e, _ => (Some e, fs')
  end.
Definition file_Write (path : string) (data : bytes) (fs : Files) : option goerr * Files :=
  let '(err, fs') := system_call fs in
  let stored := match err with None => data | Some _ => take (disk_written (calls fs)) data end in
  (err, mkFiles (<[path := stored]> (contents fs)) (calls fs')).
Definition Remove (path : string) (fs : Files) : option goerr * Files :=
  let '(err, fs') := system_call fs in
  match err with
  | None => (None, mkFiles (delete path (contents fs)) (calls fs'))
  | Some e => (Some e, fs')
  end.
Definition read_nonce (fs : Files) : result goerr bytes * Files := (random_nonce (calls fs), called fs).
End Files.

(** [errors.Join] of two errors, of which one may be absent. *)
Definition errors_Join (a b : option goerr) : option goerr :=
  match a, b with
  | Some x, Some y => Some (Joined x y)
  | Some x, None => Some x
  | None, y => y
  end.

(** ** backupcrypto/chunks.go: the work writer *)

Record WorkWriter := mkWriter { buffer : bytes; chunks : list WorkChunk; closed : bool }.

(** [fmt.Sprintf("chunk-%08d.pdx", index)] for an index that is not negative. *)
Definition pad8 (s : string) : string := String.string_of_list_ascii (replicate (8 - String.length s) "0"%char) +:+ s.
Definition chunk_name (index : Z) : string := "chunk-" +:+ pad8 (pretty (Z.to_N index)) +:+ ".pdx".
Definition safeBackupRoot (value : string) : bool :=
  has_prefix "/" value && bool_decide (Clean_rooted value = value) && bool_decide (value <> "/").

Section Writer.
Context `{BackupCrypto} `{Disk}.
Context (cipher : ResourceCipher) (generationID root : string).

Definition NewWorkWriter (fs : Files) : result goerr WorkWriter * Files :=
  if empty generationID || negb (safeBackupRoot root) then (Err (Msg "backup work writer configuration is invalid"), fs)
  else let '(err, fs) := system_call fs in
  match err with
  | Some e => (Err e, fs)
  | None => (Ok (mkWriter [] [] false), fs)
  end.

Definition chunk_path (index : Z) : string := root +:+ "/" +:+ chunk_name index.

Definition flush (w : WorkWriter) (fs : Files) : option goerr * WorkWriter * Files :=
  let index := Z.of_nat (length (chunks w)) in
  let '(nonce, fs) := read_nonce fs in
  match SealChunk cipher generationID index (buffer w) nonce with
  | Err e => (Some e, w, fs)
  | Ok (sealed, descriptor) =>
      let path := chunk_path index in
      let '(openErr, fs) := OpenFile_excl path fs in
      match openErr with
      | Some e => (Some e, w, fs)
      | None =>
          let '(writeErr, fs) := file_Write path sealed fs in
          let '(writeErr, fs) := match writeErr with None => system_call fs | Some e => (Some e, fs) end in
          let '(closeErr, fs) := system_call fs in
          match errors_Join writeErr closeErr with
          | Some e => let '(_, fs) := Remove path fs in (Some e, w, fs)
          | None => (None, mkWriter [] (chunks w ++ [mkWorkChunk descriptor path]) (closed w), fs)
          end
      end
  end.

(** Every turn of the loop takes a byte of the input or empties a full buffer, so
    that two more turns than bytes are enough. *)
Fixpoint write_loop (fuel : nat) (input : bytes) (written : Z) (w : WorkWriter) (fs : Files)
    : (Z * option goerr) * WorkWriter * Files :=
  match fuel with
  | O => ((written, Some (Msg "out of fuel")), w, fs)
  | S fuel =>
      if bool_decide (input = []) then ((written, None), w, fs)
      else
        let remaining := DefaultChunkSize - blen (buffer w) in
        let count := Z.min remaining (blen input) in
        let w := mkWriter (buffer w ++ take (Z.to_nat count) input) (chunks w) (closed w) in
        let input := drop (Z.to_nat count) input in
        let written := written + count in
        if blen (buffer w) =? DefaultChunkSize
        then let '(err, w, fs) := flush w fs in
             match err with
             | Some e => ((written, Some e), w, fs)
             | None => write_loop fuel input written w fs
             end
        else write_loop fuel input written w fs
  end.
Definition Write (input : bytes) (w : WorkWriter) (fs : Files) : (Z * option goerr) * WorkWriter * Files :=
  if closed w then ((0, Some (Msg "backup work writer is closed")), w, fs)
  else write_loop (length input + 2) input 0 w fs.

Definition Close (w : WorkWriter) (fs : Files) : option goerr * WorkWriter * Files :=
  if closed w then (None, w, fs)
  else
    let w := mkWriter (buffer w) (chunks w) true in
    if negb (blen (buffer w) =? 0) || bool_decide (chunks w = []) then flush w fs else (None, w, fs).

Definition Chunks (w : WorkWriter) : result goerr (list WorkChunk) :=
  if closed w then Ok (chunks w) else Err (Msg "backup work writer must be closed before reading chunks").
End Writer.

(** ** Bytes *)

Lemma big_endian_length w n : length (big_endian w n) = w.
Proof. revert n. induction w as [|w IH]; intros n; simpl; [done|]. rewrite length_app, IH. simpl. lia. Qed.

Lemma byte_value_mod n : byte_value (ascii_of_N (Z.to_N (n mod 256))) = n mod 256.
Proof.
  pose proof (Z.mod_pos_bound n 256 ltac:(lia)). unfold byte_value.
  rewrite N_ascii_embedding by lia. lia.
Qed.

Lemma of_big_endian_snoc b c : of_big_endian (b ++ [c]) = of_big_endian b * 256 + byte_value c.
Proof. unfold of_big_endian. by rewrite foldl_app. Qed.

Lemma of_big_endian_of w n : of_big_endian (big_endian w n) = n mod 256 ^ Z.of_nat w.
Proof.
  revert n. induction w as [|w IH]; intros n; [by rewrite Z.mod_1_r|].
  simpl big_endian. rewrite of_big_endian_snoc, IH, byte_value_mod.
  rewrite Nat2Z.inj_succ, Z.pow_succ_r by lia.
  rewrite (Z.rem_mul_r n 256) by lia. lia.
Qed.

Lemma big_endian_inj w n m :
  0 <= n < 256 ^ Z.of_nat w -> 0 <= m < 256 ^ Z.of_nat w -> big_endian w n = big_endian w m -> n = m.
Proof.
  intros Hn Hm E. apply (f_equal of_big_endian) in E. rewrite !of_big_endian_of in E.
  by rewrite !Z.mod_small in E by lia.
Qed.

Lemma text_inj s t : text s = text t -> s = t.
Proof.
  intros E. rewrite <- (String.string_of_list_ascii_of_string s), <- (String.string_of_list_ascii_of_string t).
  by f_equal.
Qed.
Lemma text_length s : length (text s) = String.length s.
Proof. unfold text. induction s; simpl; congruence. Qed.

(** A length-prefixed field can be told from what follows it. *)
Lemma length_prefixed_inj a b r r' :
  zlen a < two32 -> zlen b < two32 ->
  big_endian 4 (u32 (zlen a)) ++ text a ++ r = big_endian 4 (u32 (zlen b)) ++ text b ++ r' -> a = b /\ r = r'.
Proof.
  intros Ha Hb E. apply app_inj_1 in E as [El E]; [|by rewrite !big_endian_length].
  rewrite !u32_small in El by (unfold zlen in *; lia).
  assert (Hz : zlen a = zlen b).
  { revert El. apply big_endian_inj; unfold zlen, two32 in *; simpl; lia. }
  apply app_inj_1 in E as [Et ->]; [|rewrite !text_length; unfold zlen in Hz; lia].
  split; [by apply text_inj|done].
Qed.

Lemma chunkAdditionalData_eq r g i n :
  chunkAdditionalData r g i n =
  "001"%char :: big_endian 4 (u32 (zlen r)) ++ text r ++ big_endian 4 (u32 (zlen g)) ++ text g ++
    big_endian 8 (u64 i) ++ big_endian 8 (u64 n).
Proof. unfold chunkAdditionalData, appendLengthPrefixed. by rewrite <- !app_assoc. Qed.

(** The additional data determines the identity and the size of a chunk. *)
Lemma chunkAdditionalData_inj r g i n r' g' i' n' :
  zlen r < two32 -> zlen g < two32 -> zlen r' < two32 -> zlen g' < two32 ->
  0 <= i < two64 -> 0 <= n < two64 -> 0 <= i' < two64 -> 0 <= n' < two64 ->
  chunkAdditionalData r g i n = chunkAdditionalData r' g' i' n' -> r = r' /\ g = g' /\ i = i' /\ n = n'.
Proof.
  intros Hr Hg Hr' Hg' Hi Hn Hi' Hn'. rewrite !chunkAdditionalData_eq. intros E.
  apply (app_inj_1 ["001"%char] ["001"%char]) in E as [_ E]; [|done].
  apply length_prefixed_inj in E as [-> E]; [|done..]. apply length_prefixed_inj in E as [-> E]; [|done..].
  apply app_inj_1 in E as [Ei En]; [|by rewrite !big_endian_length].
  rewrite !u64_small in Ei, En by done.
  split_and!; try done; [revert Ei|revert En]; apply big_endian_inj; unfold two64 in *; simpl; lia.
Qed.

(** ** Sealing and opening *)

Section Sealing.
Context `{BackupCrypto}.

(** What the code relies on: an AEAD opens what it sealed, and adds its tag. *)
Definition AeadCorrect : Prop :=
  forall key nonce p ad, aead_Open key nonce (aead_Seal key nonce p ad) ad = Some p
  /\ blen (aead_Seal key nonce p ad) = blen p + Overhead.

(** The parts of a sealed value with a whole nonce. *)
Lemma Open_sealed bx nonce p ad ad' :
  blen nonce = NonceSize -> AeadCorrect ->
  Open bx (format ++ nonce ++ aead_Seal (box_key bx) nonce p ad) ad' =
  match aead_Open (box_key bx) nonce (aead_Seal (box_key bx) nonce p ad) ad' with
  | Some q => Ok q
  | None => Err (Msg "encrypted value authentication failed")
  end.
Proof.
  intros Hn Haead. destruct (Haead (box_key bx) nonce p ad) as [_ Hlen]. unfold Open.
  assert (Hn' : length nonce = 24%nat) by (unfold blen, NonceSize in Hn; lia).
  rewrite (proj2 (Z.ltb_ge _ _)).
  2: { unfold blen, formatSize, NonceSize, Overhead in *. rewrite !length_app. simpl length. lia. }
  rewrite (take_app_length' format) by done. rewrite bool_decide_eq_false_2 by (intros Hx; by apply Hx).
  rewrite (drop_app_length' format) by done. rewrite take_app_length' by done.
  rewrite app_assoc, drop_app_length' by (rewrite length_app, Hn'; done). done.
Qed.

Lemma SealChunk_inv cipher g i p nonce sealed c :
  SealChunk cipher g i p (Ok nonce) = Ok (sealed, c) ->
  empty g = false /\ 0 <= i /\ blen p <= DefaultChunkSize /\
  sealed = format ++ nonce ++ aead_Seal (box_key (box cipher)) nonce p (chunkAdditionalData (resourceID cipher) g i (blen p)) /\
  c = mkChunk i (blen p) (blen sealed) (sha256_hex_bytes sealed).
Proof.
  unfold SealChunk. destruct (_ || _) eqn:Hbad; [done|]. btrue. simpl. intros [= <- <-]. split_and!; done || lia.
Qed.

Lemma OpenChunk_inv cipher g c sealed p :
  OpenChunk cipher g c sealed = Ok p ->
  empty g = false /\ 0 <= Index c /\ blen p = PlaintextSize c /\ blen p <= DefaultChunkSize /\
  CiphertextSize c = blen sealed /\ sha256_hex_bytes sealed = CiphertextSHA c /\
  Open (box cipher) sealed (chunkAdditionalData (resourceID cipher) g (Index c) (PlaintextSize c)) = Ok p.
Proof.
  unfold OpenChunk. destruct (_ || _ || _ || _ || _) eqn:Hbad; [done|]. case_bool_decide as Hs; [done|].
  intros (q & Hopen & Hq)%rbind_ok. destruct (Z.eqb_spec (blen q) (PlaintextSize c)) as [Hl|]; [|done].
  simpl in Hq. injection Hq as ->. btrue.
  assert (CiphertextSize c = blen sealed) by (match goal with Hn : negb _ = false |- _ => apply negb_false_iff in Hn; lia | _ => lia end).
  split_and!; done || lia.
Qed.

(** A chunk is opened as what was sealed. *)
Lemma open_sealed_chunk cipher g i p nonce sealed c :
  AeadCorrect -> blen nonce = NonceSize -> SealChunk cipher g i p (Ok nonce) = Ok (sealed, c) ->
  OpenChunk cipher g c sealed = Ok p.
Proof.
  intros Haead Hn (Hg & Hi & Hp & Hs & ->)%SealChunk_inv. unfold OpenChunk. simpl. rewrite Hg. simpl.
  rewrite (proj2 (Z.ltb_ge i 0)), (proj2 (Z.ltb_ge (blen p) 0)), (proj2 (Z.ltb_ge DefaultChunkSize (blen p)))
    by (unfold blen in *; lia).
  rewrite Z.eqb_refl. simpl. rewrite bool_decide_eq_false_2 by (intros Hx; by apply Hx).
  rewrite Hs, Open_sealed by done. destruct (Haead (box_key (box cipher)) nonce p
    (chunkAdditionalData (resourceID cipher) g i (blen p))) as [-> _]. simpl. by rewrite Z.eqb_refl.
Qed.
End Sealing.

(** ** The work writer keeps what it is given *)

Section WriterProofs.
Context `{BackupCrypto} `{Disk}.
Context (cipher : ResourceCipher) (generationID root : string).

Definition kept_files (fs fs' : Files) : Prop :=
  forall path b, contents fs !! path = Some b -> contents fs' !! path = Some b.

#[global] Instance kept_files_preorder : PreOrder kept_files.
Proof. split; [by intros fs path b|]. intros a b c Hab Hbc path x Hx. auto. Qed.

(** [c] describes the file that holds the [i]th chunk, sealed from [p]. *)
Definition sealed_as (fs : Files) (i : nat) (c : WorkChunk) (p : bytes) : Prop :=
  exists nonce sealed, (exists k, random_nonce k = Ok nonce) /\
    SealChunk cipher generationID (Z.of_nat i) p (Ok nonce) = Ok (sealed, wc_chunk c) /\
    contents fs !! wc_path c = Some sealed /\ wc_path c = chunk_path root (Z.of_nat i).

Lemma sealed_as_kept fs fs' i c p : kept_files fs fs' -> sealed_as fs i c p -> sealed_as fs' i c p.
Proof. intros Hk (nonce & sealed & Hr & Hs & Hf & Hp). exists nonce, sealed. auto. Qed.

Lemma kept_same fs fs' : contents fs = contents fs' -> kept_files fs fs'.
Proof. intros E path b. by rewrite E. Qed.

(** What [flush] does to the files and the writer. *)
Lemma flush_spec w fs err w' fs' :
  flush cipher generationID root w fs = (err, w', fs') ->
  kept_files fs fs' /\
  match err with
  | Some _ => w' = w
  | None => exists c, w' = mkWriter [] (chunks w ++ [c]) (closed w) /\ sealed_as fs' (length (chunks w)) c (buffer w)
  end.
Proof.
  unfold flush, read_nonce. destruct (random_nonce (calls fs)) as [nonce|e] eqn:Hnonce.
  2: { unfold SealChunk. destruct (_ || _); intros [= <- <- <-]; (split; [by apply kept_same|done]). }
  destruct (SealChunk _ _ _ _ _) as [[sealed c]|e] eqn:Hseal;
    [|intros [= <- <- <-]; split; [by apply kept_same|done]].
  set (path := chunk_path root _). unfold OpenFile_excl, system_call. simpl contents.
  destruct (disk_fault _); [|intros [= <- <- <-]; split; [by apply kept_same|done]].
  destruct (contents fs !! path) eqn:Hex; [intros [= <- <- <-]; split; [by apply kept_same|done]|].
  assert (Hkeep : forall (m : gmap string bytes) b, (forall q, q <> path -> m !! q = contents fs !! q) ->
    kept_files fs (mkFiles m b)).
  { intros m b Hm q x Hq. simpl. rewrite Hm; [done|]. intros ->. congruence. }
  assert (Hdone : forall n, sealed_as (mkFiles (<[path:=sealed]> (contents fs)) n) (length (chunks w)) (mkWorkChunk c path) (buffer w)).
  { intros n. exists nonce, sealed. split_and!; [by eexists|done|apply lookup_insert_eq|done]. }
  unfold file_Write, Remove, system_call, called. simpl.
  repeat (destruct (disk_fault _); simpl); intros [= <- <- <-]; (split; [apply Hkeep|]); try done.
  all: try (intros q Hq; rewrite ?lookup_delete_ne, !lookup_insert_ne by congruence; done).
  rewrite insert_insert_eq. by exists (mkWorkChunk c path).
Qed.

(** The chunks written so far and the buffer are the data, in order; every chunk
    is full and its file intact. *)
Definition holds (w : WorkWriter) (fs : Files) (data : bytes) : Prop :=
  exists plain,
    length plain = length (chunks w) /\ concat plain ++ buffer w = data /\
    Forall (fun p => blen p = DefaultChunkSize) plain /\ blen (buffer w) <= DefaultChunkSize /\
    forall i c p, chunks w !! i = Some c -> plain !! i = Some p -> sealed_as fs i c p.

Lemma holds_kept w fs fs' data : kept_files fs fs' -> holds w fs data -> holds w fs' data.
Proof.
  intros Hk (plain & Hl & Hd & Hf & Hb & Hs). exists plain. split_and!; try done.
  intros i c p Hc Hp. eapply sealed_as_kept; eauto.
Qed.

Lemma sealed_snoc fs fs' plain cs c p :
  length plain = length cs -> kept_files fs fs' ->
  (forall i d q, cs !! i = Some d -> plain !! i = Some q -> sealed_as fs i d q) ->
  sealed_as fs' (length cs) c p ->
  forall i d q, (cs ++ [c]) !! i = Some d -> (plain ++ [p]) !! i = Some q -> sealed_as fs' i d q.
Proof.
  intros Hl Hk Hs Hc i d q Hd Hq. apply lookup_snoc_Some in Hd as [[Hi Hd]|[Hi Hd]].
  - rewrite <- Hl in Hi. rewrite (lookup_app_l plain _ i Hi) in Hq. eapply sealed_as_kept; eauto.
  - subst i. rewrite <- Hl, (list_lookup_middle plain [] p) in Hq by done. by simplify_eq.
Qed.

Lemma holds_flush w fs data w' fs' :
  holds w fs data -> blen (buffer w) = DefaultChunkSize ->
  flush cipher generationID root w fs = (None, w', fs') -> holds w' fs' data /\ buffer w' = [].
Proof.
  intros (plain & Hl & Hd & Hf & _ & Hs) Hfull (Hk & c & -> & Hc)%flush_spec. split; [|done].
  exists (plain ++ [buffer w]). simpl. split_and!.
  - rewrite !length_app. simpl. lia.
  - rewrite concat_app. simpl. by rewrite !app_nil_r.
  - apply Forall_app. auto.
  - unfold blen, DefaultChunkSize. simpl. lia.
  - by eapply sealed_snoc.
Qed.

Lemma holds_buffer w fs data more :
  holds w fs data -> blen (buffer w ++ more) <= DefaultChunkSize ->
  holds (mkWriter (buffer w ++ more) (chunks w) (closed w)) fs (data ++ more).
Proof.
  intros (plain & Hl & <- & Hf & Hb & Hs) Hm. exists plain. simpl. split_and!; try done. by rewrite app_assoc.
Qed.

Lemma holds_bound w fs data : holds w fs data -> blen (buffer w) <= DefaultChunkSize.
Proof. by intros (plain & _ & _ & _ & Hb & _). Qed.

(** One turn of the loop: what it takes fits into the buffer, and it takes
    something unless the buffer was full. *)
Lemma take_step (b input : bytes) :
  blen b <= DefaultChunkSize ->
  let count := Z.to_nat (Z.min (DefaultChunkSize - blen b) (blen input)) in
  (count <= length input)%nat /\ blen (b ++ take count input) <= DefaultChunkSize /\
  (input <> [] -> count = O -> blen b = DefaultChunkSize).
Proof.
  intros Hb count. unfold count, blen in *. rewrite length_app, length_take.
  split_and!; [lia|lia|]. intros Hne Hc. destruct input; [done|]. simpl in *. lia.
Qed.

Lemma write_loop_holds fuel input written w fs n err w' fs' data :
  holds w fs data ->
  write_loop cipher generationID root fuel input written w fs = (n, err, w', fs') ->
  closed w' = closed w /\
  exists k, holds w' fs' (data ++ take k input) /\
    (err = None -> n = written + blen input /\ (length input <= k)%nat).
Proof.
  revert input written w fs data. induction fuel as [|fuel IH]; intros input written w fs data Hh; simpl.
  { intros [= <- <- <- <-]. split; [done|]. exists O. by rewrite take_0, app_nil_r. }
  case_bool_decide as He; [subst|].
  { intros [= <- <- <- <-]. split; [done|]. exists O. rewrite app_nil_r. split; [done|]. intros _. unfold blen. simpl. lia. }
  pose proof (take_step (buffer w) input (holds_bound _ _ _ Hh)) as (Hc & Hb & _).
  set (z := Z.min _ _) in *. set (count := Z.to_nat z) in *.
  assert (Hz : z = Z.of_nat count) by (unfold count, z, blen in *; pose proof (holds_bound _ _ _ Hh); unfold blen in *; lia).
  pose proof (holds_buffer _ _ _ (take count input) Hh Hb) as Hh'.
  set (w1 := mkWriter (buffer w ++ take count input) (chunks w) (closed w)) in *.
  assert (Hrest : forall w2 fs2, holds w2 fs2 (data ++ take count input) -> closed w2 = closed w ->
    write_loop cipher generationID root fuel (drop count input) (written + z) w2 fs2 = (n, err, w', fs') ->
    closed w' = closed w /\ exists k, holds w' fs' (data ++ take k input) /\
      (err = None -> n = written + blen input /\ (length input <= k)%nat)).
  { intros w2 fs2 Hh2 Hcl2 Hrun. destruct (IH _ _ _ _ _ Hh2 Hrun) as (Hcl & k & Hk & Hok).
    split; [by rewrite Hcl|]. exists (count + k)%nat. rewrite <- app_assoc, take_take_drop in Hk. split; [done|].
    intros E. destruct (Hok E) as [Hn Hl]. unfold blen in *. rewrite length_drop in *. lia. }
  destruct (Z.eqb_spec (blen (buffer w ++ take count input)) DefaultChunkSize) as [Hfull|]; [|by apply Hrest].
  destruct (flush _ _ _ w1 fs) as [[[e|] w2] fs2] eqn:Hflush.
  - intros [= <- <- <- <-]. apply flush_spec in Hflush as [Hk ->]. split; [done|].
    exists count. split; [by eapply holds_kept|done].
  - pose proof (holds_flush _ _ _ _ _ Hh' Hfull Hflush) as [Hh2 _].
    apply flush_spec in Hflush as (_ & c & -> & _). by apply Hrest.
Qed.

(** More fuel than [Write] gives changes nothing. *)
Definition full (w : WorkWriter) : nat := if blen (buffer w) =? DefaultChunkSize then 1%nat else O.

Lemma write_loop_fuel fuel fuel' input written w fs :
  blen (buffer w) <= DefaultChunkSize -> (length input + full w < fuel)%nat -> (fuel <= fuel')%nat ->
  write_loop cipher generationID root fuel' input written w fs = write_loop cipher generationID root fuel input written w fs.
Proof.
  revert fuel' input written w fs. induction fuel as [|fuel IH]; intros fuel' input written w fs Hb Hf Hle; [lia|].
  destruct fuel' as [|fuel']; [lia|]. simpl. case_bool_decide as He; [done|].
  pose proof (take_step (buffer w) input Hb) as (Hc & Hb' & Hzero).
  set (z := Z.min _ _) in *. set (count := Z.to_nat z) in *.
  destruct (Z.eqb_spec (blen (buffer w ++ take count input)) DefaultChunkSize) as [Hfull|Hnot].
  - destruct (flush _ _ _ _ fs) as [[[e|] w2] fs2] eqn:Hflush; [done|].
    apply flush_spec in Hflush as (_ & c & -> & _). apply IH; [unfold blen, DefaultChunkSize; simpl; lia|simpl|lia].
    assert (full (mkWriter [] (chunks w ++ [c]) (closed w)) = O) as -> by done.
    rewrite length_drop. destruct (decide (count = O)) as [E|]; [|lia].
    unfold full in Hf. rewrite (Hzero He E), Z.eqb_refl in Hf. lia.
  - apply IH; [done|simpl|lia].
    unfold full. simpl. rewrite (proj2 (Z.eqb_neq _ _) Hnot), length_drop.
    destruct (decide (count = O)) as [E|]; [|unfold full in Hf; lia].
    exfalso. apply Hnot. rewrite E, take_0, app_nil_r. auto.
Qed.

Lemma Write_holds input w fs n err w' fs' data :
  holds w fs data -> Write cipher generationID root input w fs = (n, err, w', fs') ->
  closed w' = closed w /\
  exists k, holds w' fs' (data ++ take k input) /\ (err = None -> n = blen input /\ (length input <= k)%nat).
Proof.
  intros Hh. unfold Write. destruct (closed w) eqn:Hc.
  - intros [= <- <- <- <-]. split; [done|]. exists O. by rewrite take_0, app_nil_r.
  - rewrite <- Hc. by apply write_loop_holds.
Qed.

(** The chunks of a closed writer: consecutive, sealed, and together the data. *)
Definition chunked (fs : Files) (cs : list WorkChunk) (data : bytes) : Prop :=
  exists plain, length plain = length cs /\ concat plain = data /\ cs <> [] /\
    forall i c p, cs !! i = Some c -> plain !! i = Some p -> sealed_as fs i c p.

Lemma Close_chunked w fs w' fs' data :
  holds w fs data -> closed w = false ->
  Close cipher generationID root w fs = (None, w', fs') ->
  exists cs, Chunks w' = Ok cs /\ chunked fs' cs data /\ kept_files fs fs'.
Proof.
  intros (plain & Hl & Hd & Hf & _ & Hs) Hcl. unfold Close. rewrite Hcl. simpl.
  destruct (_ || _) eqn:Hflush.
  - intros (Hk & c & -> & Hc)%flush_spec. exists (chunks w ++ [c]). split; [done|]. split; [|done].
    exists (plain ++ [buffer w]). split_and!.
    + rewrite !length_app. simpl. lia.
    + rewrite concat_app. simpl. by rewrite app_nil_r.
    + by destruct (chunks w).
    + by eapply sealed_snoc.
  - intros [= <- <-]. apply orb_false_iff in Hflush as [Hempty Hne%bool_decide_eq_false].
    apply negb_false_iff, Z.eqb_eq in Hempty. exists (chunks w). split; [done|]. split; [|done].
    exists plain. split_and!; try done. destruct (buffer w); [|done]. by rewrite app_nil_r in Hd.
Qed.
End WriterProofs.

(** ** Chunks cannot be exchanged *)

Section Identity.
Context `{BackupCrypto}.

(** A sealed chunk is good for one place only.  If the bytes sealed as chunk i
    of a generation open under any descriptor, generation and index with the same
    resource key, then they open as the same chunk to the same plaintext; anything
    else needs the cipher to accept its ciphertext under other additional data,
    a forgery.  So the remote can neither reorder chunks nor pass those of
    another generation. *)
Theorem chunk_identity_bound (cipher : ResourceCipher) (g g' : string) (i : Z) (p q nonce sealed : bytes) (c c' : Chunk) :
  AeadCorrect -> blen nonce = NonceSize ->
  zlen (resourceID cipher) < two32 -> zlen g < two32 -> zlen g' < two32 -> i < two64 -> Index c' < two64 ->
  SealChunk cipher g i p (Ok nonce) = Ok (sealed, c) -> OpenChunk cipher g' c' sealed = Ok q ->
  (g' = g /\ Index c' = i /\ q = p)
  \/ exists ad', ad' <> chunkAdditionalData (resourceID cipher) g i (blen p) /\
       aead_Open (box_key (box cipher)) nonce
         (aead_Seal (box_key (box cipher)) nonce p (chunkAdditionalData (resourceID cipher) g i (blen p))) ad' = Some q.
Proof.
  intros Haead Hn Hr Hg Hg' Hi Hi' (_ & Hi0 & Hp & -> & _)%SealChunk_inv (_ & Hi0' & Hq & Hqs & _ & _ & Hopen)%OpenChunk_inv.
  rewrite Open_sealed in Hopen by done.
  destruct (aead_Open _ _ _ _) as [q'|] eqn:Ho; [|done]. injection Hopen as ->.
  set (ad := chunkAdditionalData (resourceID cipher) g i (blen p)) in *.
  set (ad' := chunkAdditionalData (resourceID cipher) g' (Index c') (PlaintextSize c')) in *.
  destruct (decide (ad' = ad)) as [E|]; [left|right; by exists ad'].
  destruct (Haead (box_key (box cipher)) nonce p ad) as [Hseal _]. rewrite E in Ho. assert (q = p) as -> by congruence.
  apply chunkAdditionalData_inj in E as (_ & -> & -> & _); try done;
    unfold blen, two64, DefaultChunkSize in *; lia.
Qed.
End Identity.
