(* ===== verification/BackupResource.v ===== *)
(** * Resource backups: internal/backup/resource_format.go, resource_remote.go

    A generation of a resource backup is a set of remote objects: sealed chunks,
    attachments, an envelope that describes them and a completion marker that
    commits them.  The model builds, publishes, lists, prunes and reads back
    generations over a disk and a remote store that may fail at any call, lose
    the answer of a call it performed, or store other bytes than it was given. *)

From stdpp Require Import pretty.
From Stdlib Require Import Ascii.
From S2P Require Import Prelude Runtime BackupChunks.

(** ** The remote store *)

Inductive RFault :=
| RFine
| RFails
| RLost
| RStores (b : bytes).

Class Remote := {
  (** The prefix of the target: remotes3/client.go. *)
  remote_prefix : string;
  remote_fault : nat -> RFault;
  (** How a listing is cut into pages. *)
  list_pages : nat -> list string -> list (list string)
}.
Record World := mkWorld { files : Files; objects : gmap string bytes; requests : nat }.

(** Code with effects and errors. *)
Definition M (A : Type) : Type := World -> result goerr A * World.
Definition ret {A} (a : A) : M A := fun w => (Ok a, w).
Definition throw {A} (e : goerr) : M A := fun w => (Err e, w).
Definition bind {A B} (m : M A) (k : A -> M B) : M B :=
  fun w => match m w with (Ok a, w') => k a w' | (Err e, w') => (Err e, w') end.
#[local] Notation "'let!' x ':=' m 'in' k" := (bind m (fun x => k))
  (at level 10, x name, m at level 100, k at level 200).
#[local] Notation "m ';;' k" := (bind m (fun _ => k)) (at level 100, k at level 200, right associativity).
Definition guard_M (ok : bool) (message : string) : M unit := if ok then ret tt else throw (Msg message).
Definition of_result {A} (r : result goerr A) : M A := fun w => (r, w).
(** [errors.Join] of the error of [m] with a message of the caller. *)
Definition or_join {A} (m : M A) (message : string) : M A :=
  fun w => match m w with (Ok a, w') => (Ok a, w') | (Err e, w') => (Err (Joined e (Msg message)), w') end.
(** An effect that reports an optional error. *)
Definition on_files (f : Files -> option goerr * Files) : M unit :=
  fun w => let '(err, fs) := f (files w) in
    (match err with None => Ok tt | Some e => Err e end, mkWorld fs (objects w) (requests w)).
Fixpoint for_each {A} (f : A -> M unit) (l : list A) : M unit :=
  match l with [] => ret tt | a :: rest => f a ;; for_each f rest end.

Section Remote.
Context `{Remote}.

Definition Key (relative : string) : string :=
  let relative := match strip_prefix "/" relative with Some r => r | None => relative end in
  if empty remote_prefix then relative
  else if empty relative then remote_prefix else remote_prefix +:+ "/" +:+ relative.

Definition remote_error : goerr := Msg "remote request failed".
Definition request {A} (f : RFault -> gmap string bytes -> result goerr A * gmap string bytes) : M A :=
  fun w => let '(r, o) := f (remote_fault (requests w)) (objects w) in (r, mkWorld (files w) o (S (requests w))).
Definition Put (key : string) (content : bytes) : M unit :=
  request (fun fault o => match fault with
    | RFine => (Ok tt, <[key := content]> o)
    | RFails => (Err remote_error, o)
    | RLost => (Err remote_error, <[key := content]> o)
    | RStores b => (Ok tt, <[key := b]> o)
    end).
(** The body and the content length. *)
Definition Get (key : string) : M (bytes * Z) :=
  request (fun fault o => (match fault, o !! key with
    | RFails, _ => Err remote_error
    | _, Some content => Ok (content, blen content)
    | _, None => Err (Msg "remote object not found")
    end, o)).
Definition Delete (key : string) : M unit :=
  request (fun fault o => match fault with
    | RFails => (Err remote_error, o)
    | RLost => (Err remote_error, delete key o)
    | _ => (Ok tt, delete key o)
    end).
(** [List] until the continuation is empty: the pages of one listing, each of
    which is a request, and what is done with each. *)
Definition listing (prefix : string) (o : gmap string bytes) : list string :=
  filter (fun k => has_prefix prefix k = true) (map_to_list o).*1.
Definition List_page (page : list string) : M (list string) :=
  request (fun fault o => (match fault with RFails => Err remote_error | _ => Ok page end, o)).
Definition for_pages (prefix : string) (f : list string -> M unit) : M unit :=
  fun w => for_each (fun page => let! keys := List_page page in f keys)
             (list_pages (requests w) (listing prefix (objects w))) w.

Definition readRemoteObject (key : string) (maximum : Z) : M bytes :=
  let! got := Get key in
  let '(body, size) := got in
  guard_M (negb ((size <? 0) || (maximum <? size))) "remote control object size is outside bounds" ;;
  let value := take (Z.to_nat (maximum + 1)) body in
  guard_M (blen value =? size) "remote control object content length differs" ;;
  ret value.

Definition deleteRemotePrefix (prefix : string) : M unit := for_pages prefix (for_each Delete).
End Remote.

(** ** Envelopes and completions *)

Definition ControlFormatVersion : Z := 2.
Definition maximumResourceEnvelopeSize : Z := 2 ^ 20.
Definition maximumCompletionSize : Z := 65536.

Record ResourceEnvelope := mkEnvelope {
  e_FormatVersion : Z; e_ResourceKind : string; e_ResourceID : string; e_GenerationID : string;
  e_CreatedAtMillis : Z; e_PlaintextSize : Z; e_Chunks : list Chunk;
  e_AttachmentCount : Z; e_AttachmentSize : Z; e_AttachmentRoot : string
}.
Record ResourceCompletion := mkCompletion {
  c_FormatVersion : Z; c_ResourceKind : string; c_ResourceID : string; c_GenerationID : string;
  c_EnvelopeSHA256 : string; c_PlaintextSize : Z; c_RemoteSize : Z; c_CompletedAtMillis : Z
}.
Record ResourceAttachment := mkAttachment { a_Index : Z; a_Size : Z; a_SHA256 : string }.
Record WorkResourceAttachment := mkWorkAttachment { wa_attachment : ResourceAttachment; wa_path : string }.
Record ResourceBuild := mkBuild {
  b_Envelope : ResourceEnvelope; b_EnvelopeBytes : bytes;
  b_Completion : ResourceCompletion; b_CompletionBytes : bytes;
  b_Chunks : list WorkChunk; b_Attachments : list WorkResourceAttachment; b_WorkDirectory : string
}.

(** [json.Marshal], and the strict decoders with [rejectDuplicateJSONKeys] before
    them and the check that nothing follows. *)
Class BackupCodec := {
  envelope_Marshal : ResourceEnvelope -> bytes;
  envelope_Decode : bytes -> option ResourceEnvelope;
  completion_Marshal : ResourceCompletion -> bytes;
  completion_Decode : bytes -> option ResourceCompletion
}.

Definition validBackupResourceKind (value : string) : bool :=
  bool_decide (value ∈ ["image"; "object_store"; "postgres"; "redis"; "volume"]).
Definition identifier_byte (c : ascii) : bool :=
  is_lower c || is_upper c || is_digit c || Ascii.eqb c "-" || Ascii.eqb c "_".
Definition validControlIdentifier (value : string) : bool :=
  (1 <=? zlen value) && (zlen value <=? 128) && str_forall identifier_byte value.

Definition hex_digit (c : ascii) : option Z :=
  if is_digit c then Some (byte_value c - 48)
  else if in_range 97 102 c then Some (byte_value c - 87)
  else if in_range 65 70 c then Some (byte_value c - 55) else None.
Fixpoint hex_DecodeString (s : string) : option bytes :=
  match s with
  | EmptyString => Some []
  | String a (String b rest) =>
      x ← hex_digit a; y ← hex_digit b; r ← hex_DecodeString rest;
      Some (ascii_of_N (Z.to_N (x * 16 + y)) :: r)
  | String _ EmptyString => None
  end.
Definition ascii_lower (s : string) : bool := str_forall (fun c => negb (is_upper c)) s.
Definition validSHA256 (value : string) : bool :=
  (zlen value =? 64) && ascii_lower value && bool_decide (is_Some (hex_DecodeString value)).

(** ** Object keys *)

Definition ResourceGenerationsPrefix (kind resourceID : string) : string :=
  "resources/" +:+ kind +:+ "/" +:+ resourceID +:+ "/generations".
Definition ResourceGenerationPrefix (kind resourceID generationID : string) : string :=
  ResourceGenerationsPrefix kind resourceID +:+ "/" +:+ generationID.
Definition ResourceChunkKey (kind resourceID generationID : string) (index : Z) : string :=
  ResourceGenerationPrefix kind resourceID generationID +:+ "/" +:+ chunk_name index.
Definition ResourceEnvelopeKey (kind resourceID generationID : string) : string :=
  ResourceGenerationPrefix kind resourceID generationID +:+ "/envelope.json".
Definition ResourceAttachmentKey (kind resourceID generationID : string) (index : Z) : string :=
  ResourceGenerationPrefix kind resourceID generationID +:+ "/attachment-" +:+ pad8 (pretty (Z.to_N index)) +:+ ".bin".
Definition ResourceCompletionKey (kind resourceID generationID : string) : string :=
  ResourceGenerationPrefix kind resourceID generationID +:+ "/complete.json".

(** ** Decoding metadata *)

Section Decode.
Context `{BackupCodec}.

(** The loop over the chunk descriptors, which adds up their sizes. *)
Fixpoint checkChunks (index : Z) (total : Z) (cs : list Chunk) : result goerr Z :=
  match cs with
  | [] => Ok total
  | chunk :: rest =>
      if negb (Index chunk =? index) || (PlaintextSize chunk <? 0) || (DefaultChunkSize <? PlaintextSize chunk)
         || (CiphertextSize chunk <=? 0) || negb (zlen (CiphertextSHA chunk) =? 64) || negb (ascii_lower (CiphertextSHA chunk))
      then Err (Msg "resource envelope chunk descriptors are invalid")
      else if negb (bool_decide (is_Some (hex_DecodeString (CiphertextSHA chunk))))
      then Err (Msg "resource envelope chunk checksum is invalid")
      else if max_int64 - total <? PlaintextSize chunk then Err (Msg "resource envelope plaintext size overflows")
      else checkChunks (index + 1) (total + PlaintextSize chunk) rest
  end.

Definition envelopeFields (e : ResourceEnvelope) : bool :=
  (e_FormatVersion e =? ControlFormatVersion) && validBackupResourceKind (e_ResourceKind e)
  && validControlIdentifier (e_ResourceID e) && validControlIdentifier (e_GenerationID e)
  && (0 <? e_CreatedAtMillis e) && (0 <? e_PlaintextSize e) && bool_decide (e_Chunks e <> [])
  && (0 <=? e_AttachmentCount e) && (0 <=? e_AttachmentSize e)
  && negb ((e_AttachmentCount e =? 0) && (negb (e_AttachmentSize e =? 0) || negb (empty (e_AttachmentRoot e))))
  && negb ((0 <? e_AttachmentCount e) && ((e_AttachmentSize e <=? 0) || negb (validSHA256 (e_AttachmentRoot e)))).

Definition DecodeResourceEnvelope (value : bytes) : result goerr ResourceEnvelope :=
  if (blen value =? 0) || (maximumResourceEnvelopeSize <? blen value)
  then Err (Msg "resource envelope size is outside bounds")
  else match envelope_Decode value with
  | None => Err (Msg "resource envelope JSON is invalid")
  | Some envelope =>
      if negb (envelopeFields envelope) then Err (Msg "resource envelope fields are invalid")
      else
        let? total := checkChunks 0 0 (e_Chunks envelope) in
        if negb (total =? e_PlaintextSize envelope) then Err (Msg "resource envelope plaintext size differs from chunks")
        else Ok envelope
  end.

Definition validateResourceCompletion (c : ResourceCompletion) : result goerr unit :=
  if negb (c_FormatVersion c =? ControlFormatVersion) || negb (validBackupResourceKind (c_ResourceKind c))
     || negb (validControlIdentifier (c_ResourceID c)) || negb (validControlIdentifier (c_GenerationID c))
     || (c_CompletedAtMillis c <=? 0) || (c_PlaintextSize c <=? 0) || (c_RemoteSize c <=? 0)
     || negb (zlen (c_EnvelopeSHA256 c) =? 64) || negb (ascii_lower (c_EnvelopeSHA256 c))
  then Err (Msg "resource completion fields are invalid")
  else if negb (bool_decide (is_Some (hex_DecodeString (c_EnvelopeSHA256 c))))
  then Err (Msg "resource completion envelope checksum is invalid") else Ok tt.

Definition DecodeResourceCompletion (value : bytes) : result goerr ResourceCompletion :=
  if (blen value =? 0) || (maximumCompletionSize <? blen value)
  then Err (Msg "resource completion size is outside bounds")
  else match completion_Decode value with
  | None => Err (Msg "resource completion JSON is invalid")
  | Some completion => let? _ := validateResourceCompletion completion in Ok completion
  end.
End Decode.

(** ** Attachments *)

Section Attachments.
Context `{BackupCrypto} `{Disk} `{Remote}.

Definition attachment_domain : bytes := text "platformd/resource-attachments/v1" ++ ["000"%char].
Definition attachmentCommitment (a : ResourceAttachment) : bytes :=
  big_endian 8 (u64 (a_Index a)) ++ big_endian 8 (u64 (a_Size a)) ++ default [] (hex_DecodeString (a_SHA256 a)).
Definition attachmentRoot (l : list ResourceAttachment) : string :=
  sha256_hex_bytes (attachment_domain ++ mjoin (attachmentCommitment <$> l)).

(** [os.Open] and reading to the end. *)
Definition read_file (path : string) : M bytes :=
  on_files system_call ;;
  fun w => (match contents (files w) !! path with Some b => Ok b | None => Err (Msg "no such file") end, w).

(** [Lstat], [Open], [Stat], hashing the content and [Close] of each file. *)
Fixpoint hashAttachments (index total : Z) (paths : list string) : M (list WorkResourceAttachment * Z) :=
  match paths with
  | [] => ret ([], total)
  | path :: rest =>
      guard_M (safeBackupRoot path) "resource attachment path is invalid" ;;
      on_files system_call ;;
      let! content := read_file path in
      on_files system_call ;;
      guard_M (negb (blen content <=? 0)) "resource attachment is empty or not a regular file" ;;
      on_files system_call ;;
      on_files system_call ;;
      guard_M (negb (max_int64 - total <? blen content)) "resource attachment total size overflows" ;;
      let attachment := mkAttachment index (blen content) (sha256_hex_bytes content) in
      let! more := hashAttachments (index + 1) (total + blen content) rest in
      ret (mkWorkAttachment attachment path :: more.1, more.2)
  end.
Definition buildResourceAttachments (paths : list string) : M (list WorkResourceAttachment * Z * string) :=
  match paths with
  | [] => ret ([], 0, "")
  | _ => let! built := hashAttachments 0 0 paths in
         ret (built.1, built.2, attachmentRoot (wa_attachment <$> built.1))
  end.

Fixpoint checkAttachments (index total : Z) (l : list ResourceAttachment) : option Z :=
  match l with
  | [] => Some total
  | a :: rest =>
      if negb (a_Index a =? index) || (a_Size a <=? 0) || negb (validSHA256 (a_SHA256 a)) || (max_int64 - total <? a_Size a)
      then None else checkAttachments (index + 1) (total + a_Size a) rest
  end.
Definition ValidateResourceAttachments (envelope : ResourceEnvelope) (l : list ResourceAttachment) : result goerr unit :=
  if negb (e_AttachmentCount envelope =? Z.of_nat (length l)) then Err (Msg "resource attachment count differs from envelope")
  else match l with
  | [] => if negb (e_AttachmentSize envelope =? 0) || negb (empty (e_AttachmentRoot envelope))
          then Err (Msg "empty resource attachments differ from envelope") else Ok tt
  | _ => match checkAttachments 0 0 l with
         | None => Err (Msg "resource attachment descriptor is invalid")
         | Some total =>
             if negb (total =? e_AttachmentSize envelope) || bool_decide (attachmentRoot l <> e_AttachmentRoot envelope)
             then Err (Msg "resource attachment commitment differs from envelope") else Ok tt
         end
  end.

(** The reader that checks an attachment while it is read. *)
Record verifiedAttachmentReader := mkAttachmentReader {
  remaining : Z; expectedSHA : string; hashed : bytes; verified : bool
}.
Definition EOF : goerr := Sentinel "EOF" "EOF".
Definition checksum_differs : goerr := Msg "resource attachment checksum differs".

(** [body] is what the remote body gives for a buffer of that length. *)
Definition attachment_Read (ctxErr : option goerr) (size : Z) (body : Z -> bytes * option goerr) (r : verifiedAttachmentReader)
    : bytes * option goerr * verifiedAttachmentReader :=
  match ctxErr with
  | Some e => ([], Some e, r)
  | None =>
      if verified r then ([], Some EOF, r)
      else if remaining r =? 0 then
        ([], Some (if bool_decide (sha256_hex_bytes (hashed r) <> expectedSHA r) then checksum_differs else EOF),
         mkAttachmentReader 0 (expectedSHA r) (hashed r) true)
      else
        let '(got, err) := body (Z.min size (remaining r)) in
        let r := mkAttachmentReader (remaining r - blen got) (expectedSHA r) (hashed r ++ got) false in
        if remaining r =? 0 then
          let r := mkAttachmentReader 0 (expectedSHA r) (hashed r) true in
          if bool_decide (sha256_hex_bytes (hashed r) <> expectedSHA r) then (got, Some checksum_differs, r)
          else match err with
          | Some e => (got, if errors_Is "EOF" e then None else Some e, r)
          | None => if bool_decide (got = []) then ([], Some (Msg "io: no progress"), r) else (got, None, r)
          end
        else match err with
        | Some e => (got, Some (if errors_Is "EOF" e then Msg "unexpected EOF" else e), r)
        | None => if bool_decide (got = []) then ([], Some (Msg "io: no progress"), r) else (got, None, r)
        end
  end.
Definition attachment_Close (r : verifiedAttachmentReader) : option goerr :=
  if verified r then None else Some (Msg "resource attachment was not fully verified").

(** [io.Copy] to [io.Discard] from a body that holds [rest]: every turn takes a
    byte or ends, so that two more turns than bytes are enough. *)
Definition discard_buffer : Z := 8192.
Definition body_read (rest : bytes) (n : Z) : bytes * option goerr :=
  match rest with [] => ([], Some EOF) | _ => (take (Z.to_nat n) rest, None) end.
Fixpoint drain (fuel : nat) (rest : bytes) (r : verifiedAttachmentReader) : option goerr * verifiedAttachmentReader :=
  match fuel with
  | O => (Some (Msg "out of fuel"), r)
  | S fuel =>
      let '(got, err, r) := attachment_Read None discard_buffer (body_read rest) r in
      match err with
      | None => drain fuel (drop (length got) rest) r
      | Some e => (if errors_Is "EOF" e then None else Some e, r)
      end
  end.

Definition OpenResourceAttachment (envelope : ResourceEnvelope) (a : ResourceAttachment) : M (bytes * verifiedAttachmentReader) :=
  guard_M (negb ((a_Index a <? 0) || (a_Size a <=? 0) || negb (validSHA256 (a_SHA256 a)) || (e_AttachmentCount envelope <=? a_Index a)))
    "resource attachment open input is invalid" ;;
  let! got := Get (Key (ResourceAttachmentKey (e_ResourceKind envelope) (e_ResourceID envelope) (e_GenerationID envelope) (a_Index a))) in
  let '(body, size) := got in
  guard_M (size =? a_Size a) "resource attachment remote size differs" ;;
  ret (body, mkAttachmentReader (a_Size a) (a_SHA256 a) [] false).
End Attachments.

(** ** Building a generation *)

Section Build.
Context `{BackupCrypto} `{Disk} `{BackupCodec}.

(** What the input gives until it ends, and the error it ends with if any; a
    cancelled context is such an error. *)
Record Input := mkInput { reads : list bytes; ending : option goerr }.
Record ResourceBuildConfig := mkBuildConfig {
  Master : bytes; ResourceKind : string; ResourceID : string; GenerationID : string; WorkRoot : string;
  CreatedAt : Z; AttachmentPaths : list string
}.

(** [io.Copy] into the writer. *)
Fixpoint copy_loop (cipher : ResourceCipher) (generationID root : string) (pieces : list bytes) (ending : option goerr)
    (written : Z) (wr : WorkWriter) (fs : Files) : Z * option goerr * WorkWriter * Files :=
  match pieces with
  | [] => (written, ending, wr, fs)
  | piece :: rest =>
      if bool_decide (piece = []) then copy_loop cipher generationID root rest ending written wr fs
      else
        let '(n, err, wr, fs) := Write cipher generationID root piece wr fs in
        match err with
        | Some e => (written + n, Some e, wr, fs)
        | None => if negb (n =? blen piece) then (written + n, Some (Msg "short write"), wr, fs)
                  else copy_loop cipher generationID root rest ending (written + n) wr fs
        end
  end.

(** The writer opened, filled and closed: the chunks and how much was written. *)
Definition writeChunks (cipher : ResourceCipher) (config : ResourceBuildConfig) (workDirectory : string) (input : Input)
    : M (list WorkChunk * Z) := fun w =>
  let restore fs := mkWorld fs (objects w) (requests w) in
  let '(opened, fs) := NewWorkWriter (GenerationID config) workDirectory (files w) in
  match opened with
  | Err e => (Err e, restore fs)
  | Ok wr =>
      let '(written, copyErr, wr, fs) := copy_loop cipher (GenerationID config) workDirectory (reads input) (ending input) 0 wr fs in
      let '(closeErr, wr, fs) := Close cipher (GenerationID config) workDirectory wr fs in
      match errors_Join copyErr closeErr with
      | Some e => (Err (Joined e (Msg "resource backup plaintext is empty")), restore fs)
      | None =>
          if written <=? 0 then (Err (Msg "resource backup plaintext is empty"), restore fs)
          else match Chunks wr with
          | Err e => (Err e, restore fs)
          | Ok cs => (Ok (cs, written), restore fs)
          end
      end
  end.

Fixpoint addSizes (total : Z) (cs : list WorkChunk) : option Z :=
  match cs with
  | [] => Some total
  | c :: rest => if max_int64 - total <? CiphertextSize (wc_chunk c) then None
                 else addSizes (total + CiphertextSize (wc_chunk c)) rest
  end.

Definition overflows : goerr := Msg "resource backup remote size overflows".
Definition assemble (config : ResourceBuildConfig) (workDirectory : string) (cipher : ResourceCipher) (input : Input)
    : M ResourceBuild :=
  let! written := writeChunks cipher config workDirectory input in
  let '(cs, size) := written in
  let! remoteSize := of_result (match addSizes 0 cs with Some z => Ok z | None => Err overflows end) in
  let! attachments := buildResourceAttachments (AttachmentPaths config) in
  let '(attached, attachmentSize, root) := attachments in
  guard_M (negb (max_int64 - remoteSize <? attachmentSize)) "resource backup remote size overflows" ;;
  let remoteSize := remoteSize + attachmentSize in
  let envelope := mkEnvelope ControlFormatVersion (ResourceKind config) (ResourceID config) (GenerationID config)
                    (UnixMilli (CreatedAt config)) size (wc_chunk <$> cs)
                    (Z.of_nat (length attached)) attachmentSize root in
  let envelopeBytes := envelope_Marshal envelope in
  guard_M (negb (maximumResourceEnvelopeSize <? blen envelopeBytes)) "resource backup envelope exceeds size limit" ;;
  guard_M (negb (max_int64 - remoteSize <? blen envelopeBytes)) "resource backup remote size overflows" ;;
  let completion := mkCompletion ControlFormatVersion (ResourceKind config) (ResourceID config) (GenerationID config)
                      (sha256_hex_bytes envelopeBytes) size (remoteSize + blen envelopeBytes) (UnixMilli (CreatedAt config)) in
  ret (mkBuild envelope envelopeBytes completion (completion_Marshal completion) cs attached workDirectory).

(** [os.RemoveAll]: everything under the directory, unless it fails. *)
Definition RemoveAll (path : string) (fs : Files) : option goerr * Files :=
  let '(err, fs') := system_call fs in
  match err with
  | None => (None, mkFiles (filter (fun x => has_prefix (path +:+ "/") x.1 = false) (contents fs)) (calls fs'))
  | Some e => (Some e, fs')
  end.

Definition BuildResource (config : ResourceBuildConfig) (input : Input) : M ResourceBuild :=
  guard_M (validBackupResourceKind (ResourceKind config) && validControlIdentifier (ResourceID config)
           && validControlIdentifier (GenerationID config) && safeBackupRoot (WorkRoot config)
           && negb (is_zero (CreatedAt config))) "resource backup build configuration is incomplete" ;;
  on_files system_call ;;
  let workDirectory := WorkRoot config +:+ "/resource-" +:+ ResourceKind config +:+ "-" +:+ GenerationID config in
  on_files system_call ;;
  fun w =>
    match (let! cipher := of_result (NewResourceCipher (Master config) (ResourceID config)) in
           assemble config workDirectory cipher input) w with
    | (Ok build, w) => (Ok build, w)
    | (Err e, w) => let '(_, fs) := RemoveAll workDirectory (files w) in (Err e, mkWorld fs (objects w) (requests w))
    end.
End Build.

(** ** Publishing *)

Section Publish.
Context `{BackupCrypto} `{Disk} `{Remote} `{BackupCodec}.

Definition chunk_key (e : ResourceEnvelope) (index : Z) : string :=
  Key (ResourceChunkKey (e_ResourceKind e) (e_ResourceID e) (e_GenerationID e) index).
Definition envelope_key (e : ResourceEnvelope) : string :=
  Key (ResourceEnvelopeKey (e_ResourceKind e) (e_ResourceID e) (e_GenerationID e)).
Definition attachment_key (e : ResourceEnvelope) (index : Z) : string :=
  Key (ResourceAttachmentKey (e_ResourceKind e) (e_ResourceID e) (e_GenerationID e) index).
Definition completion_key (e : ResourceEnvelope) : string :=
  Key (ResourceCompletionKey (e_ResourceKind e) (e_ResourceID e) (e_GenerationID e)).

(** Upload of one file; [Close] of the file may fail after the upload. *)
Definition putFile (key path : string) : M unit :=
  let! content := read_file path in
  fun w => let '(putErr, w) := Put key content w in
           let '(closeErr, w) := on_files system_call w in
           (match errors_Join (match putErr with Err e => Some e | Ok _ => None end)
                              (match closeErr with Err e => Some e | Ok _ => None end) with
            | None => Ok tt | Some e => Err e end, w).

Definition verifyChunk (cipher : ResourceCipher) (e : ResourceEnvelope) (chunk : Chunk) : M unit :=
  let! sealed := readRemoteObject (chunk_key e (Index chunk)) (CiphertextSize chunk) in
  let! _ := of_result (match OpenChunk cipher (e_GenerationID e) chunk sealed with
                       | Ok plaintext => Ok plaintext
                       | Err err => Err (Wrap ("verify resource chunk " +:+ pretty (Index chunk)) err)
                       end) in
  ret tt.
Definition verifyAttachment (e : ResourceEnvelope) (a : ResourceAttachment) : M unit :=
  let! opened := OpenResourceAttachment e a in
  let '(body, reader) := opened in
  let '(copyErr, reader) := drain (length body + 2) body reader in
  of_result (match errors_Join copyErr (attachment_Close reader) with None => Ok tt | Some e => Err e end).

Definition verifyPublishedResource (master : bytes) (envelope : ResourceEnvelope) (expected : bytes)
    (attachments : list ResourceAttachment) : M unit :=
  let! value := or_join (readRemoteObject (envelope_key envelope) maximumResourceEnvelopeSize) "resource envelope read-back differs" in
  guard_M (bool_decide (value = expected)) "resource envelope read-back differs" ;;
  let! decoded := or_join (of_result (DecodeResourceEnvelope value)) "resource envelope identity differs" in
  guard_M (bool_decide (e_ResourceKind decoded = e_ResourceKind envelope) && bool_decide (e_ResourceID decoded = e_ResourceID envelope)
           && bool_decide (e_GenerationID decoded = e_GenerationID envelope)) "resource envelope identity differs" ;;
  let! cipher := of_result (NewResourceCipher master (e_ResourceID decoded)) in
  for_each (verifyChunk cipher decoded) (e_Chunks decoded) ;;
  let! _ := of_result (ValidateResourceAttachments decoded attachments) in
  for_each (verifyAttachment decoded) attachments.

Definition PublishResource (master : bytes) (build : ResourceBuild) : M unit :=
  let e := b_Envelope build in
  guard_M (negb (empty (e_ResourceKind e) || empty (e_ResourceID e) || empty (e_GenerationID e)
                 || bool_decide (b_Chunks build = []) || negb (Nat.eqb (length (b_Chunks build)) (length (e_Chunks e)))
                 || bool_decide (b_EnvelopeBytes build = []) || bool_decide (b_CompletionBytes build = [])))
    "resource publication input is incomplete" ;;
  for_each (fun c => putFile (chunk_key e (Index (wc_chunk c))) (wc_path c)) (b_Chunks build) ;;
  let descriptors := wa_attachment <$> b_Attachments build in
  let! _ := of_result (ValidateResourceAttachments e descriptors) in
  for_each (fun a => putFile (attachment_key e (a_Index (wa_attachment a))) (wa_path a)) (b_Attachments build) ;;
  Put (envelope_key e) (b_EnvelopeBytes build) ;;
  verifyPublishedResource master e (b_EnvelopeBytes build) descriptors ;;
  Put (completion_key e) (b_CompletionBytes build) ;;
  let! published := or_join (readRemoteObject (completion_key e) maximumCompletionSize) "resource completion read-back differs" in
  guard_M (bool_decide (published = b_CompletionBytes build)) "resource completion read-back differs" ;;
  let! _ := of_result (DecodeResourceCompletion published) in
  ret tt.

(** ** Listing and retention *)


Fixpoint readCompletions (kind resourceID : string) (seen : list string) (keys : list string) : M (list ResourceCompletion) :=
  match keys with
  | [] => ret []
  | key :: rest =>
      let! value := readRemoteObject key maximumCompletionSize in
      let! completion := or_join (of_result (DecodeResourceCompletion value)) "resource completion identity differs from key" in
      guard_M (bool_decide (c_ResourceKind completion = kind) && bool_decide (c_ResourceID completion = resourceID)
               && bool_decide (key = Key (ResourceCompletionKey kind resourceID (c_GenerationID completion))))
        "resource completion identity differs from key" ;;
      guard_M (negb (bool_decide (c_GenerationID completion ∈ seen))) "resource generation list contains duplicate completion" ;;
      let! more := readCompletions kind resourceID (c_GenerationID completion :: seen) rest in
      ret (completion :: more)
  end.

(** Newest first; the order of [sort.Slice] on distinct generations. *)
Definition newer_first (a b : ResourceCompletion) : Prop :=
  c_CompletedAtMillis b < c_CompletedAtMillis a
  \/ (c_CompletedAtMillis a = c_CompletedAtMillis b /\ (c_GenerationID b ≤ c_GenerationID a)%string).
#[global] Instance newer_first_dec : RelDecision newer_first.
Proof. intros a b. unfold newer_first. apply _. Defined.

Fixpoint collect_pages (prefix : string) (pages : list (list string)) : M (list string) :=
  match pages with
  | [] => ret []
  | page :: rest =>
      let! keys := List_page page in
      let! more := collect_pages prefix rest in
      ret (filter (fun k => has_prefix prefix k && has_suffix "/complete.json" k = true) keys ++ more)
  end.

Definition ListResourceGenerations (kind resourceID : string) : M (list ResourceCompletion) :=
  guard_M (validBackupResourceKind kind && validControlIdentifier resourceID) "resource generation list input is invalid" ;;
  let prefix := Key (ResourceGenerationsPrefix kind resourceID +:+ "/") in
  let! keys := (fun w => collect_pages prefix (list_pages (requests w) (listing prefix (objects w))) w) in
  let! completions := readCompletions kind resourceID [] (merge_sort String.le keys) in
  ret (merge_sort newer_first completions).

Definition ApplyResourceRetention (kind resourceID : string) (retain : Z) : M unit :=
  guard_M (negb ((retain <? 1) || (100 <? retain))) "resource retention count must be 1..100" ;;
  let! generations := ListResourceGenerations kind resourceID in
  for_each (fun g => deleteRemotePrefix (Key (ResourceGenerationPrefix kind resourceID (c_GenerationID g) +:+ "/")))
    (drop (Z.to_nat retain) generations).
End Publish.

(** ** Reading a generation *)

Section Read.
Context `{BackupCrypto} `{Remote} `{BackupCodec}.

Record ResourceReader := mkReader {
  r_cipher : ResourceCipher; r_envelope : ResourceEnvelope; r_index : nat; r_current : bytes; r_offset : nat
}.

Definition OpenResource (master : bytes) (completion : ResourceCompletion) : M ResourceReader :=
  let! _ := of_result (validateResourceCompletion completion) in
  let! value := readRemoteObject (Key (ResourceEnvelopeKey (c_ResourceKind completion) (c_ResourceID completion) (c_GenerationID completion)))
                  maximumResourceEnvelopeSize in
  guard_M (bool_decide (sha256_hex_bytes value = c_EnvelopeSHA256 completion)) "resource envelope checksum differs from completion" ;;
  let! envelope := or_join (of_result (DecodeResourceEnvelope value)) "resource envelope differs from completion" in
  guard_M (bool_decide (e_ResourceKind envelope = c_ResourceKind completion) && bool_decide (e_ResourceID envelope = c_ResourceID completion)
           && bool_decide (e_GenerationID envelope = c_GenerationID completion) && (e_PlaintextSize envelope =? c_PlaintextSize completion))
    "resource envelope differs from completion" ;;
  let! cipher := of_result (NewResourceCipher master (c_ResourceID completion)) in
  ret (mkReader cipher envelope 0 [] 0).

(** The loop that opens chunks until one has bytes left; at most every chunk is
    opened once. *)
Fixpoint nextChunk (fuel : nat) (r : ResourceReader) (w : World) : option goerr * ResourceReader * World :=
  if negb (Nat.eqb (r_offset r) (length (r_current r))) then (None, r, w)
  else match fuel with
  | O => (Some (Msg "out of fuel"), r, w)
  | S fuel =>
      let r := mkReader (r_cipher r) (r_envelope r) (r_index r) [] 0 in
      match e_Chunks (r_envelope r) !! r_index r with
      | None => (Some EOF, r, w)
      | Some chunk =>
          let e := r_envelope r in
          match readRemoteObject (chunk_key e (Index chunk)) (CiphertextSize chunk) w with
          | (Err err, w) => (Some err, r, w)
          | (Ok sealed, w) =>
              match OpenChunk (r_cipher r) (e_GenerationID e) chunk sealed with
              | Err err => (Some err, r, w)
              | Ok plaintext => nextChunk fuel (mkReader (r_cipher r) e (S (r_index r)) plaintext 0) w
              end
          end
      end
  end.

(** [Read] into a buffer of [size] bytes. *)
Definition Read (size : nat) (r : ResourceReader) (w : World) : bytes * option goerr * ResourceReader * World :=
  match size with
  | O => ([], None, r, w)
  | _ =>
      let '(err, r, w) := nextChunk (S (length (e_Chunks (r_envelope r)))) r w in
      match err with
      | Some e => ([], Some e, r, w)
      | None =>
          let got := take size (drop (r_offset r) (r_current r)) in
          (got, None, mkReader (r_cipher r) (r_envelope r) (r_index r) (r_current r) (r_offset r + length got), w)
      end
  end.

(** Reading with the given buffer sizes until an error, which is [EOF] at the end. *)
Fixpoint read_with (sizes : list nat) (r : ResourceReader) (w : World) : bytes * option goerr * World :=
  match sizes with
  | [] => ([], None, w)
  | size :: rest =>
      let '(got, err, r, w) := Read size r w in
      match err with
      | Some e => (got, Some e, w)
      | None => let '(more, err, w) := read_with rest r w in (got ++ more, err, w)
      end
  end.
End Read.
