(* ===== verification/BackupProofs.v ===== *)
(** * Resource backups: what holds

    The theorems on [BackupResource]: what the completion marker promises, what a
    restore delivers and what retention removes, with the lemmas they rest on and
    a concrete instance of the libraries. *)

From stdpp Require Import pretty.
From Stdlib Require Import Ascii.
From S2P Require Import Prelude Runtime BackupChunks BackupResource.

#[local] Notation "'let!' x ':=' m 'in' k" := (bind m (fun x => k))
  (at level 10, x name, m at level 100, k at level 200).
#[local] Notation "m ';;' k" := (bind m (fun _ => k)) (at level 100, k at level 200, right associativity).

(** ** Lemmas: the monad and what an action changes *)

Lemma bind_cases {A B} (m : M A) (k : A -> M B) w r w' :
  bind m k w = (r, w') ->
  (exists a w1, m w = (Ok a, w1) /\ k a w1 = (r, w')) \/ (exists e, m w = (Err e, w') /\ r = Err e).
Proof. unfold bind. destruct (m w) as [[a|e] w1]; [eauto|]. intros [= <- <-]. eauto. Qed.

Lemma bind_inv_Ok {A B} (m : M A) (k : A -> M B) w b w' :
  bind m k w = (Ok b, w') -> exists a w1, m w = (Ok a, w1) /\ k a w1 = (Ok b, w').
Proof. intros [?|(e & _ & ?)]%bind_cases; [done|congruence]. Qed.

Lemma guard_inv_Ok ok message w w' : guard_M ok message w = (Ok tt, w') -> ok = true /\ w' = w.
Proof. unfold guard_M. destruct ok; [|done]. by intros [= <-]. Qed.

Lemma or_join_Ok {A} (m : M A) message w a w' : or_join m message w = (Ok a, w') -> m w = (Ok a, w').
Proof. unfold or_join. by destruct (m w) as [[b|e] w1]. Qed.

(** An action that changes only objects whose keys satisfy [P]. *)
Definition touches {A} (P : string -> Prop) (m : M A) : Prop :=
  forall w r w', m w = (r, w') -> forall k, ~ P k -> objects w' !! k = objects w !! k.
Definition passive {A} (m : M A) : Prop := forall w r w', m w = (r, w') -> objects w' = objects w.

Section Touches.
Context {P : string -> Prop}.

Lemma touches_bind {A B} (m : M A) (k : A -> M B) :
  touches P m -> (forall a, touches P (k a)) -> touches P (bind m k).
Proof.
  intros Hm Hk w r w' [(a & w1 & H1 & H2)|(e & H1 & _)]%bind_cases key Hkey; [|eauto].
  etrans; [by eapply Hk|]. eauto.
Qed.
Lemma touches_passive {A} (m : M A) : passive m -> touches P m.
Proof. intros Hm w r w' E k _. by rewrite (Hm _ _ _ E). Qed.
Lemma touches_for_each {A} (f : A -> M unit) l : (forall a, a ∈ l -> touches P (f a)) -> touches P (for_each f l).
Proof.
  induction l as [|a l IH]; intros Hf; simpl; [by intros w r w' [= <- <-]|].
  apply touches_bind; [apply Hf; set_solver|]. intros ?. apply IH. set_solver.
Qed.
End Touches.

Lemma passive_bind {A B} (m : M A) (k : A -> M B) : passive m -> (forall a, passive (k a)) -> passive (bind m k).
Proof.
  intros Hm Hk w r w' [(a & w1 & H1 & H2)|(e & H1 & _)]%bind_cases; [|eauto].
  etrans; [by eapply Hk|eauto].
Qed.
Lemma passive_ret {A} (a : A) : passive (ret a).
Proof. by intros w r w' [= <- <-]. Qed.
Lemma passive_of_result {A} (a : result goerr A) : passive (of_result a).
Proof. by intros w r w' [= <- <-]. Qed.
Lemma passive_guard ok message : passive (guard_M ok message).
Proof. unfold guard_M. destruct ok; by intros w r w' [= <- <-]. Qed.
Lemma passive_on_files f : passive (on_files f).
Proof. unfold on_files. intros w r w'. destruct (f (files w)) as [err fs]. by intros [= <- <-]. Qed.
Lemma passive_for_each {A} (f : A -> M unit) l : (forall a, passive (f a)) -> passive (for_each f l).
Proof. intros Hf. induction l; simpl; [apply passive_ret|]. by apply passive_bind. Qed.

Lemma passive_or_join {A} (m : M A) message : passive m -> passive (or_join m message).
Proof. unfold or_join. intros Hm w r w'. destruct (m w) as [[a|e] w1] eqn:E; intros [= <- <-]; by eapply Hm. Qed.

Create HintDb backup.
#[export] Hint Resolve passive_or_join passive_bind passive_ret passive_of_result passive_guard passive_on_files passive_for_each : backup.

Lemma for_each_Ok {A} (f : A -> M unit) l w w' :
  (forall a, passive (f a)) -> for_each f l w = (Ok tt, w') ->
  Forall (fun a => exists w1 w2, objects w1 = objects w /\ f a w1 = (Ok tt, w2)) l.
Proof.
  intros Hf. revert w. induction l as [|a l IH]; intros w; simpl; [constructor|].
  intros ([] & w1 & H1 & H2)%bind_inv_Ok. constructor; [by exists w, w1|].
  specialize (IH w1 H2). rewrite (Hf _ _ _ _ H1) in IH. done.
Qed.

Section RemoteLemmas.
Context `{Remote}.

Lemma touches_Put key content : touches (fun k => k = key) (Put key content).
Proof.
  intros w r w'. unfold Put, request. destruct (remote_fault _); intros [= <- <-] k Hk; simpl; try done;
    by rewrite lookup_insert_ne.
Qed.
Lemma touches_Delete key : touches (fun k => k = key) (Delete key).
Proof.
  intros w r w'. unfold Delete, request. destruct (remote_fault _); intros [= <- <-] k Hk; simpl; try done;
    by rewrite lookup_delete_ne.
Qed.
Lemma passive_Get key : passive (Get key).
Proof. intros w r w'. unfold Get, request. by intros [= <- <-]. Qed.
Lemma passive_List_page page : passive (List_page page).
Proof. intros w r w'. unfold List_page, request. by intros [= <- <-]. Qed.
#[local] Hint Resolve passive_Get passive_List_page : backup.

Lemma passive_readRemoteObject key maximum : passive (readRemoteObject key maximum).
Proof. unfold readRemoteObject. apply passive_bind; [auto with backup|]. intros [body size]. auto with backup. Qed.

Lemma Get_Ok key w body size w' :
  Get key w = (Ok (body, size), w') -> objects w !! key = Some body /\ size = blen body.
Proof.
  unfold Get, request. destruct (remote_fault _), (objects w !! key); intros E; injection E; intros; by simplify_eq.
Qed.

Lemma take_whole (b : bytes) maximum : blen b <= maximum -> take (Z.to_nat (maximum + 1)) b = b.
Proof. intros Hb. apply take_ge. unfold blen in Hb. lia. Qed.

Lemma readRemoteObject_Ok key maximum w v w' :
  readRemoteObject key maximum w = (Ok v, w') -> objects w !! key = Some v /\ blen v <= maximum.
Proof.
  unfold readRemoteObject. intros ([body size] & w1 & [Hb ->]%Get_Ok & E)%bind_inv_Ok.
  apply bind_inv_Ok in E as ([] & w2 & [Hsize%negb_true_iff ->]%guard_inv_Ok & E). btrue.
  apply bind_inv_Ok in E as ([] & w3 & [_ ->]%guard_inv_Ok & E). injection E as <- <-.
  by rewrite take_whole.
Qed.

(** A remote that answers. *)
Definition healthy (w : World) : Prop := forall n, (requests w <= n)%nat -> remote_fault n <> RFails.

Lemma readRemoteObject_healthy key maximum w v :
  healthy w -> objects w !! key = Some v -> blen v <= maximum ->
  exists w', readRemoteObject key maximum w = (Ok v, w') /\ objects w' = objects w /\ healthy w'.
Proof.
  intros Hh Hv Hm. exists (mkWorld (files w) (objects w) (S (requests w))). split; [|split; [done|]].
  2: { intros n Hn. apply Hh. simpl in Hn. lia. }
  pose proof (Hh (requests w) ltac:(lia)) as Hf.
  unfold readRemoteObject, bind, Get, request. simpl. rewrite Hv.
  assert (Hb : 0 <= blen v) by (unfold blen; lia).
  destruct (remote_fault (requests w)); [|done|..];
    unfold guard_M; rewrite (proj2 (Z.ltb_ge (blen v) 0)), (proj2 (Z.ltb_ge maximum (blen v))) by lia; simpl;
    rewrite take_whole, Z.eqb_refl by done; done.
Qed.
End RemoteLemmas.
#[export] Hint Resolve passive_Get passive_List_page passive_readRemoteObject : backup.

(** ** Lemmas: reading *)

Section ReadLemmas.
Context `{BackupCrypto} `{Remote} `{BackupCodec}.

Lemma take_rest n (d : bytes) : take n d ++ drop (length (take n d)) d = d.
Proof.
  rewrite length_take. destruct (le_lt_dec n (length d)).
  - by rewrite Nat.min_l, take_drop by lia.
  - rewrite Nat.min_r, take_ge, drop_all by lia. apply app_nil_r.
Qed.

Definition pending (r : ResourceReader) : bytes := drop (r_offset r) (r_current r).

Lemma pending_drained r :
  r_offset r = length (r_current r) -> pending r = [].
Proof. intros E. unfold pending. by rewrite E, drop_all. Qed.

(** The plaintexts from the reader's position on, each opened from some bytes. *)
Definition opens (r : ResourceReader) (plain : list bytes) : Prop :=
  forall j chunk p, e_Chunks (r_envelope r) !! (r_index r + j)%nat = Some chunk -> plain !! j = Some p ->
    exists sealed, OpenChunk (r_cipher r) (e_GenerationID (r_envelope r)) chunk sealed = Ok p.

Definition within (r : ResourceReader) : Prop := (r_index r <= length (e_Chunks (r_envelope r)))%nat.

Lemma OpenChunk_error cipher g c sealed e : OpenChunk cipher g c sealed = Err e -> e <> EOF.
Proof.
  unfold OpenChunk. destruct (_ || _); [by intros [= <-]|]. case_bool_decide; [by intros [= <-]|].
  unfold Cryptobox.Open. destruct (_ <? _); [by intros [= <-]|]. case_bool_decide; [by intros [= <-]|].
  destruct (aead_Open _ _ _ _); simpl; [|by intros [= <-]]. destruct (negb _); by intros [= <-].
Qed.
Lemma readRemoteObject_error key maximum w e w' : readRemoteObject key maximum w = (Err e, w') -> e <> EOF.
Proof.
  unfold readRemoteObject, Get, request, guard_M, bind, throw, ret.
  destruct (remote_fault (requests w)), (objects w !! key); simpl;
    repeat (match goal with |- context [if ?b then _ else _] => destruct b end; simpl); intros E; unfold remote_error in *; simplify_eq; done.
Qed.

(** One pass of the loop: what was pending and what it opened is pending after. *)
Lemma nextChunk_sound fuel r w err r' w' :
  within r -> nextChunk fuel r w = (err, r', w') ->
  exists plain, opens r plain /\ r_index r' = (r_index r + length plain)%nat /\
    r_cipher r' = r_cipher r /\ r_envelope r' = r_envelope r /\ within r' /\
    pending r ++ concat plain = pending r' /\
    (err = Some EOF -> pending r' = [] /\ e_Chunks (r_envelope r) !! r_index r' = None).
Proof.
  revert r w. induction fuel as [|fuel IH]; intros r w Hw; simpl;
    (destruct (Nat.eqb_spec (r_offset r) (length (r_current r))) as [Hoff|Hoff]; simpl;
     [|intros [= <- <- <-]; exists []; rewrite app_nil_r; split_and!; done || simpl; lia]).
  { intros [= <- <- <-]. exists []. rewrite app_nil_r. split_and!; done || (simpl; lia). }
  set (rz := mkReader (r_cipher r) (r_envelope r) (r_index r) [] 0).
  assert (Hstop : forall e, (e = EOF -> e_Chunks (r_envelope r) !! r_index r = None) ->
    exists plain, opens r plain /\ r_index rz = (r_index r + length plain)%nat /\
      r_cipher rz = r_cipher r /\ r_envelope rz = r_envelope r /\ within rz /\
      pending r ++ concat plain = pending rz /\
      (Some e = Some EOF -> pending rz = [] /\ e_Chunks (r_envelope r) !! r_index rz = None)).
  { intros e He. exists []. rewrite pending_drained by done. split_and!; try done; try (simpl; lia).
    intros [= ->]. auto. }
  destruct (e_Chunks (r_envelope r) !! r_index r) as [chunk|] eqn:Hc.
  2: { intros [= <- <- <-]. apply Hstop. done. }
  destruct (readRemoteObject _ _ w) as [[sealed|e] w1] eqn:Hread.
  2: { intros [= <- <- <-]. apply Hstop. intros ->. by apply readRemoteObject_error in Hread. }
  destruct (OpenChunk _ _ _ _) as [p|e] eqn:Hopen.
  2: { intros [= <- <- <-]. apply Hstop. intros ->. by apply OpenChunk_error in Hopen. }
  intros Hrun. apply IH in Hrun as (plain & Ho & Hi & Hci & He & Hw' & Hp & Heof); [|by apply lookup_lt_Some in Hc].
  exists (p :: plain). simpl in *. split_and!; try done.
  - intros [|j] ch q Hch Hq; simpl in *.
    + rewrite Nat.add_0_r in Hch. simplify_eq. by exists sealed.
    + eapply (Ho j); [by rewrite Nat.add_succ_r in Hch|done].
  - lia.
  - by rewrite pending_drained.
Qed.

Lemma Read_sound size r w got err r' w' :
  within r -> Read size r w = (got, err, r', w') ->
  exists plain, opens r plain /\ r_index r' = (r_index r + length plain)%nat /\
    r_cipher r' = r_cipher r /\ r_envelope r' = r_envelope r /\ within r' /\
    pending r ++ concat plain = got ++ pending r' /\
    (err = Some EOF -> got = [] /\ pending r' = [] /\ e_Chunks (r_envelope r) !! r_index r' = None).
Proof.
  intros Hw. unfold Read. destruct size as [|size].
  { intros [= <- <- <- <-]. exists []. rewrite app_nil_r. split_and!; done || (simpl; lia). }
  destruct (nextChunk _ r w) as [[e r1] w1] eqn:Hn. apply nextChunk_sound in Hn as (plain & Ho & Hi & Hc & He & Hw' & Hp & Heof); [|done].
  destruct e as [e|]; intros [= <- <- <- <-]; exists plain; simpl.
  - split_and!; try done. intros E. destruct (Heof E). done.
  - split_and!; try done. rewrite Hp. unfold pending. simpl.
    by rewrite <- drop_drop, take_rest.
Qed.

(** Reading to the end delivers every remaining chunk, opened, in order. *)
Lemma read_with_sound sizes r w d w' :
  within r -> read_with sizes r w = (d, Some EOF, w') ->
  exists plain, opens r plain /\ (r_index r + length plain)%nat = length (e_Chunks (r_envelope r)) /\
    d = pending r ++ concat plain.
Proof.
  revert r w d. induction sizes as [|size sizes IH]; intros r w d Hw; simpl; [done|].
  destruct (Read size r w) as [[[got err] r1] w1] eqn:Hr.
  apply Read_sound in Hr as (plain & Ho & Hi & Hc & He & Hw' & Hp & Heof); [|done]. destruct err as [e|].
  - intros [= <- -> <-]. destruct (Heof eq_refl) as (-> & Hnil & Hend). rewrite Hnil in Hp.
    exists plain. split_and!; [done| |done]. apply lookup_ge_None in Hend. unfold within in Hw'. rewrite He in Hw'. lia.
  - destruct (read_with sizes r1 w1) as [[more err'] w2] eqn:Hrest. intros [= <- -> <-].
    destruct (IH _ _ _ Hw' Hrest) as (plain' & Ho' & Hl & ->). exists (plain ++ plain'). split_and!.
    + intros j chunk p Hch Hq. apply lookup_app_Some in Hq as [Hq|[Hge Hq]]; [by eapply Ho|].
      rewrite <- Hc, <- He. eapply (Ho' (j - length plain)%nat); [|done]. rewrite He, Hi.
      by replace (r_index r + length plain + (j - length plain))%nat with (r_index r + j)%nat by lia.
    + rewrite length_app. rewrite He in Hl. lia.
    + by rewrite concat_app, !app_assoc, Hp.
Qed.

(** What a decoded envelope says of its chunks. *)
Definition total_size (cs : list Chunk) : Z := foldr (fun c n => PlaintextSize c + n) 0 cs.

Lemma checkChunks_Ok index total cs t :
  checkChunks index total cs = Ok t ->
  t = total + total_size cs /\ forall i c, cs !! i = Some c -> Index c = index + Z.of_nat i /\ 0 < CiphertextSize c.
Proof.
  revert index total. induction cs as [|c cs IH]; intros index total; simpl.
  - intros [= <-]. split; [unfold total_size; simpl; lia|done].
  - destruct (_ || _ || _ || _ || _ || _) eqn:Hbad; [done|].
    case_match; [done|]. case_match; [done|]. intros [Ht Hi]%IH.
    assert (Hc : Index c = index /\ 0 < CiphertextSize c).
    { repeat (apply orb_false_iff in Hbad as [Hbad ?]). apply negb_false_iff in Hbad. btrue. lia. }
    split; [lia|]. intros [|i] d; simpl; [intros [= <-]; lia|]. intros Hd. destruct (Hi i d Hd). lia.
Qed.

Lemma DecodeResourceEnvelope_Ok value e :
  DecodeResourceEnvelope value = Ok e ->
  envelope_Decode value = Some e /\ envelopeFields e = true /\ e_PlaintextSize e = total_size (e_Chunks e) /\
  0 < blen value <= maximumResourceEnvelopeSize /\
  forall i c, e_Chunks e !! i = Some c -> Index c = Z.of_nat i /\ 0 < CiphertextSize c.
Proof.
  unfold DecodeResourceEnvelope. destruct (_ || _) eqn:Hsize; [done|].
  destruct (envelope_Decode value) as [e'|]; [|done]. destruct (envelopeFields e') eqn:Hf; [simpl|done].
  intros (t & [Ht Hi]%checkChunks_Ok & E)%rbind_ok. destruct (Z.eqb_spec t (e_PlaintextSize e')); [|done].
  injection E as <-. btrue. split_and!; try done; try (unfold blen in *; lia).
Qed.

Lemma concat_size (l : list bytes) cs :
  length l = length cs ->
  (forall i c p, cs !! i = Some c -> l !! i = Some p -> blen p = PlaintextSize c) -> blen (concat l) = total_size cs.
Proof.
  revert cs. induction l as [|p l IH]; intros [|c cs]; try done. intros [= Hl] Hall. simpl.
  unfold blen in *. rewrite length_app, Nat2Z.inj_add, (IH cs Hl), (Hall O c p eq_refl eq_refl); [done|].
  intros i d q Hd Hq. by apply (Hall (S i)).
Qed.

Lemma OpenResource_Ok master completion w r w' :
  OpenResource master completion w = (Ok r, w') ->
  exists cipher value e, r = mkReader cipher e 0 [] 0 /\
    NewResourceCipher master (c_ResourceID completion) = Ok cipher /\
    DecodeResourceEnvelope value = Ok e /\ sha256_hex_bytes value = c_EnvelopeSHA256 completion /\
    e_GenerationID e = c_GenerationID completion /\ e_PlaintextSize e = c_PlaintextSize completion.
Proof.
  unfold OpenResource. intros (x & w1 & _ & E)%bind_inv_Ok.
  apply bind_inv_Ok in E as (value & w2 & _ & E). apply bind_inv_Ok in E as ([] & w3 & [Hs%bool_decide_eq_true _]%guard_inv_Ok & E).
  apply bind_inv_Ok in E as (e & w4 & Hd%or_join_Ok & E). injection Hd as Hd <-.
  apply bind_inv_Ok in E as ([] & w5 & [Hf _]%guard_inv_Ok & E).
  apply bind_inv_Ok in E as (cipher & w6 & Hc & E). injection Hc as Hc <-. injection E as <- <-.
  btrue. repeat match goal with Hb : bool_decide _ = true |- _ => apply bool_decide_eq_true in Hb end.
  exists cipher, value, e. split_and!; try done.
Qed.

(** C25. What a restore delivers is authentic, whatever the remote store holds and
    however it answers.  If a reader opened for a completion marker reads to the
    end, then it delivered exactly the number of bytes the marker names, and they
    are the plaintexts, in order and without gaps, of values that open under the
    key of this resource as the chunks 0, 1, ... of this generation. *)
Theorem restored_data_authentic (master : bytes) (completion : ResourceCompletion) (sizes : list nat)
    (r : ResourceReader) (d : bytes) (w w1 w2 : World) :
  OpenResource master completion w = (Ok r, w1) -> read_with sizes r w1 = (d, Some EOF, w2) ->
  blen d = c_PlaintextSize completion /\
  exists cipher plain, NewResourceCipher master (c_ResourceID completion) = Ok cipher /\ d = concat plain /\
    forall i p, plain !! i = Some p ->
      exists chunk sealed, Index chunk = Z.of_nat i /\ OpenChunk cipher (c_GenerationID completion) chunk sealed = Ok p.
Proof.
  intros (cipher & value & e & -> & Hci & (_ & _ & Hsize & _ & Hidx)%DecodeResourceEnvelope_Ok & _ & Hgen & Hps)%OpenResource_Ok Hread.
  apply read_with_sound in Hread as (plain & Ho & Hl & ->); [|unfold within; simpl; lia]. simpl in Hl.
  unfold opens in Ho. simpl in Ho. split.
  - rewrite <- Hps, Hsize. apply concat_size; [done|]. intros i c p Hc Hp.
    destruct (Ho i c p Hc Hp) as [sealed (_ & _ & Hb & _)%OpenChunk_inv]. done.
  - exists cipher, plain. split_and!; try done. intros i p Hp.
    destruct (lookup_lt_is_Some_2 (e_Chunks e) i) as [chunk Hc]; [rewrite <- Hl; by apply lookup_lt_Some in Hp|].
    destruct (Ho i chunk p Hc Hp) as [sealed Hopen]. exists chunk, sealed. split; [by apply Hidx in Hc as [-> _]|].
    by rewrite <- Hgen.
Qed.
End ReadLemmas.

(** ** Lemmas: reading from a remote that answers *)

Section HealthyRead.
Context `{BackupCrypto} `{Remote} `{BackupCodec}.
Context (cipher : ResourceCipher) (e : ResourceEnvelope) (plain : list bytes).

(** The remote holds every chunk, and they open to [plain]. *)
Definition stored (o : gmap string bytes) : Prop :=
  length plain = length (e_Chunks e) /\
  forall i c p, e_Chunks e !! i = Some c -> plain !! i = Some p ->
    exists sealed, o !! chunk_key e (Index c) = Some sealed /\ OpenChunk cipher (e_GenerationID e) c sealed = Ok p.

Definition reader_at (r : ResourceReader) : Prop := r_cipher r = cipher /\ r_envelope r = e.
Definition to_come (r : ResourceReader) : bytes := pending r ++ concat (drop (r_index r) plain).

Definition placed (r : ResourceReader) : Prop :=
  r_cipher r = cipher /\ r_envelope r = e /\ (r_index r <= length (e_Chunks e))%nat /\
  (r_offset r <= length (r_current r))%nat.

Lemma OpenChunk_size c sealed p :
  OpenChunk cipher (e_GenerationID e) c sealed = Ok p -> blen sealed <= CiphertextSize c.
Proof. intros (_ & _ & _ & _ & -> & _)%OpenChunk_inv. lia. Qed.

Lemma nextChunk_healthy fuel r w :
  stored (objects w) -> healthy w -> placed r -> (length (e_Chunks e) < r_index r + fuel)%nat ->
  exists err r' w', nextChunk fuel r w = (err, r', w') /\ objects w' = objects w /\ healthy w' /\ placed r' /\
    match err with
    | None => to_come r' = to_come r /\ pending r' <> []
    | Some x => x = EOF /\ to_come r = []
    end.
Proof.
  revert r w. induction fuel as [|fuel IH]; intros r w Hst Hh (Hc & He & Hi & Hoff) Hf; [lia|]. simpl.
  destruct (Nat.eqb_spec (r_offset r) (length (r_current r))) as [E|E]; simpl.
  2: { exists None, r, w. split_and!; try done. unfold pending. intros Hn%(f_equal length).
       rewrite length_drop in Hn. simpl in Hn. lia. }
  rewrite He, Hc. destruct (e_Chunks e !! r_index r) as [chunk|] eqn:Hch.
  2: { eexists _, _, w. split_and!; try done. unfold to_come. rewrite pending_drained, drop_ge by
         (done || (apply lookup_ge_None in Hch; by rewrite (proj1 Hst))). done. }
  destruct Hst as [Hlen Hst']. pose proof (lookup_lt_Some _ _ _ Hch) as Hlt.
  destruct (lookup_lt_is_Some_2 plain (r_index r)) as [p Hp]; [by rewrite Hlen|].
  destruct (Hst' _ _ _ Hch Hp) as (sealed & Hobj & Hopen).
  destruct (readRemoteObject_healthy _ _ _ _ Hh Hobj (OpenChunk_size _ _ _ Hopen)) as (w1 & -> & Ho & Hh1).
  rewrite Hopen.
  destruct (IH (mkReader cipher e (S (r_index r)) p 0) w1) as (err & r' & w' & -> & Ho' & Hh' & Hr' & Hres).
  - rewrite Ho. done.
  - done.
  - split_and!; simpl; done || lia.
  - simpl. lia.
  - assert (Hcome : to_come (mkReader cipher e (S (r_index r)) p 0) = to_come r).
    { unfold to_come. rewrite (pending_drained r) by done. by rewrite (drop_S plain p (r_index r) Hp). }
    exists err, r', w'. rewrite Hcome in Hres. split_and!; try done. by rewrite Ho'.
Qed.

Lemma Read_healthy size r w :
  size <> O -> stored (objects w) -> healthy w -> placed r ->
  exists got err r' w', Read size r w = (got, err, r', w') /\ objects w' = objects w /\ healthy w' /\ placed r' /\
    match err with
    | None => to_come r = got ++ to_come r' /\ got <> []
    | Some x => x = EOF /\ got = [] /\ to_come r = []
    end.
Proof.
  intros Hs Hst Hh Hr. destruct size as [|size]; [done|]. unfold Read. destruct Hr as (Hc & He & Hi & Hoff).
  destruct (nextChunk_healthy (S (length (e_Chunks e))) r w Hst Hh) as (err & r' & w' & Hn & Ho & Hh' & Hr' & Hres);
    [done|lia|]. rewrite He, Hn. destruct err as [x|].
  { destruct Hres as [-> Hnil]. by exists [], (Some EOF), r', w'. }
  destruct Hres as [Hcome Hne]. destruct Hr' as (Hc' & He' & Hi' & Hoff').
  eexists _, None, _, w'. split; [done|]. split_and!; try done; simpl.
  - split_and!; try done. simpl. rewrite length_take, length_drop. lia.
  - rewrite <- Hcome. unfold to_come, pending. simpl. by rewrite <- drop_drop, app_assoc, take_rest.
  - fold (pending r'). by destruct (pending r').
Qed.

(** With non-empty buffers, one more than there are bytes, reading ends with all
    of the data. *)
Lemma read_with_healthy sizes r w :
  Forall (fun n => n <> O) sizes -> stored (objects w) -> healthy w -> placed r ->
  (length (to_come r) < length sizes)%nat ->
  exists w', read_with sizes r w = (to_come r, Some EOF, w').
Proof.
  intros Hs. revert r w. induction Hs as [|size sizes Hsize Hs IH]; intros r w Hst Hh Hr Hlen; simpl in *; [lia|].
  destruct (Read_healthy size r w Hsize Hst Hh Hr) as (got & err & r' & w' & -> & Ho & Hh' & Hr' & Hres).
  destruct err as [x|].
  - destruct Hres as (-> & -> & ->). by eexists.
  - destruct Hres as [Hcome Hne]. rewrite Hcome, length_app in Hlen.
    destruct got as [|b got]; [done|]. simpl in Hlen.
    destruct (IH r' w') as [w2 ->]; [by rewrite Ho|done|done|lia|]. exists w2. by rewrite Hcome.
Qed.
End HealthyRead.

(** ** Lemmas: building *)

Section BuildLemmas.
Context `{BackupCrypto} `{Disk} `{BackupCodec}.

Lemma copy_loop_holds cipher g root pieces ending written wr fs n wr' fs' data :
  holds cipher g root wr fs data ->
  copy_loop cipher g root pieces ending written wr fs = (n, None, wr', fs') ->
  ending = None /\ closed wr' = closed wr /\ holds cipher g root wr' fs' (data ++ concat pieces) /\
  n = written + blen (concat pieces).
Proof.
  revert written wr fs data. induction pieces as [|piece pieces IH]; intros written wr fs data Hh; simpl.
  - intros [= <- -> <- <-]. rewrite app_nil_r. split_and!; try done. unfold blen. simpl. lia.
  - case_bool_decide as He; [subst; by apply IH|].
    destruct (Write _ _ _ piece wr fs) as [[[m err] wr1] fs1] eqn:Hw.
    apply (Write_holds _ _ _ _ _ _ _ _ _ _ _ Hh) in Hw as (Hcl & k & Hk & Hok). destruct err as [x|]; [done|].
    destruct (Hok eq_refl) as [-> Hlen]. rewrite Z.eqb_refl. simpl. rewrite take_ge in Hk by done.
    intros (-> & Hcl' & Hh' & ->)%(IH _ _ _ _ Hk). rewrite <- app_assoc in Hh'. split_and!; try done.
    + congruence.
    + unfold blen. rewrite length_app. lia.
Qed.

Lemma holds_new cipher g root fs : holds cipher g root (mkWriter [] [] false) fs [].
Proof. exists []. split_and!; try done. Qed.

Lemma writeChunks_Ok cipher config dir input w cs n w' :
  writeChunks cipher config dir input w = (Ok (cs, n), w') ->
  ending input = None /\ 0 < n /\ n = blen (concat (reads input)) /\
  chunked cipher (GenerationID config) dir (files w') cs (concat (reads input)).
Proof.
  unfold writeChunks. destruct (NewWorkWriter _ _ _) as [[wr|] fs] eqn:Hnew; [|done].
  assert (Hwr : wr = mkWriter [] [] false).
  { revert Hnew. unfold NewWorkWriter. destruct (_ || _); [done|]. destruct (system_call _) as [[]]; [done|]. congruence. }
  subst wr. destruct (copy_loop _ _ _ _ _ _ _ _) as [[[m copyErr] wr1] fs1] eqn:Hcopy.
  destruct (Close _ _ _ wr1 fs1) as [[closeErr wr2] fs2] eqn:Hclose.
  destruct copyErr; [by destruct closeErr|]. destruct closeErr; [done|]. simpl.
  apply (copy_loop_holds _ _ _ _ _ _ _ _ _ _ _ _ (holds_new _ _ _ _)) in Hcopy as (He & Hcl & Hh & Hn).
  destruct (Z.leb_spec m 0); [done|].
  apply (Close_chunked _ _ _ _ _ _ _ _ Hh Hcl) in Hclose as (cs' & -> & Hch & _).
  intros [= <- <- <-]. simpl. split_and!; done || lia.
Qed.

(** Actions that leave the contents of the files alone. *)
Definition still {A} (m : M A) : Prop :=
  forall w r w', m w = (r, w') -> contents (files w') = contents (files w).

Lemma still_bind {A B} (m : M A) (k : A -> M B) : still m -> (forall a, still (k a)) -> still (bind m k).
Proof.
  intros Hm Hk w r w' [(a & w1 & Ha & Hb)|(x & Ha & _)]%bind_cases; [|eauto].
  etrans; [by eapply Hk|eauto].
Qed.
Lemma still_same {A} (m : M A) : (forall w, files (m w).2 = files w) -> still m.
Proof. intros Hm w r w' E. pose proof (Hm w) as Hf. rewrite E in Hf. simpl in Hf. by rewrite Hf. Qed.
Lemma still_guard ok message : still (guard_M ok message).
Proof. apply still_same. unfold guard_M. by destruct ok. Qed.
Lemma still_call : still (on_files system_call).
Proof. by intros w r w' [= <- <-]. Qed.

Lemma still_hash index total paths : still (hashAttachments index total paths).
Proof.
  revert index total. induction paths as [|path paths IH]; intros index total; simpl; [by apply still_same|].
  apply still_bind; [apply still_guard|intros ?]. apply still_bind; [apply still_call|intros ?]. apply still_bind.
  - apply still_bind; [apply still_call|intros ?]. apply still_same. intros w. by destruct (_ !! _).
  - intros content. repeat (apply still_bind; [apply still_guard || apply still_call|intros ?]).
    apply still_bind; [apply IH|]. intros ?. by apply still_same.
Qed.

Lemma still_attachments paths : still (buildResourceAttachments paths).
Proof.
  unfold buildResourceAttachments. destruct paths; [by apply still_same|].
  apply still_bind; [apply still_hash|]. intros ?. by apply still_same.
Qed.

Lemma addSizes_nonneg total cs z :
  Forall (fun c => 0 <= CiphertextSize (wc_chunk c)) cs -> addSizes total cs = Some z -> total <= z.
Proof.
  intros Hcs. revert total. induction Hcs as [|c cs Hc Hcs IH]; intros total; simpl; [intros [= <-]; lia|].
  case_match; [done|]. intros Hz%IH. lia.
Qed.

Lemma chunked_sizes cipher g root fs cs data :
  chunked cipher g root fs cs data -> Forall (fun c => 0 <= CiphertextSize (wc_chunk c)) cs.
Proof.
  intros (plain & Hl & _ & _ & Hs). apply Forall_lookup_2. intros i c Hc.
  destruct (lookup_lt_is_Some_2 plain i) as [p Hp]; [rewrite Hl; by apply lookup_lt_Some in Hc|].
  destruct (Hs i c p Hc Hp) as (nonce & sealed & _ & (_ & _ & _ & _ & ->)%SealChunk_inv & _). simpl. unfold blen. lia.
Qed.

Lemma chunked_kept cipher g root fs fs' cs data :
  kept_files fs fs' -> chunked cipher g root fs cs data -> chunked cipher g root fs' cs data.
Proof.
  intros Hk (plain & Hl & Hd & Hne & Hs). exists plain. split_and!; try done.
  intros i c p Hc Hp. eapply sealed_as_kept; eauto.
Qed.

(** A built generation: sealed chunks of the input, described by an envelope that
    the completion marker commits. *)
Record built (cipher : ResourceCipher) (config : ResourceBuildConfig) (input : Input) (fs : Files) (build : ResourceBuild) : Prop :=
  mkBuilt {
  bt_key : NewResourceCipher (Master config) (ResourceID config) = Ok cipher;
  bt_valid : validBackupResourceKind (ResourceKind config) && validControlIdentifier (ResourceID config)
             && validControlIdentifier (GenerationID config) = true;
  bt_ended : ending input = None;
  bt_chunks : chunked cipher (GenerationID config) (b_WorkDirectory build) fs (b_Chunks build) (concat (reads input));
  bt_envelope : exists count size,
    b_Envelope build = mkEnvelope ControlFormatVersion (ResourceKind config) (ResourceID config) (GenerationID config)
      (UnixMilli (CreatedAt config)) (blen (concat (reads input))) (wc_chunk <$> b_Chunks build) count size
      (e_AttachmentRoot (b_Envelope build));
  bt_root : e_AttachmentRoot (b_Envelope build) = "" \/ exists b, e_AttachmentRoot (b_Envelope build) = sha256_hex_bytes b;
  bt_bytes : b_EnvelopeBytes build = envelope_Marshal (b_Envelope build);
  bt_completion : exists before, 0 <= before /\
    b_Completion build = mkCompletion ControlFormatVersion (ResourceKind config) (ResourceID config) (GenerationID config)
      (sha256_hex_bytes (b_EnvelopeBytes build)) (blen (concat (reads input)))
      (before + e_AttachmentSize (b_Envelope build) + blen (b_EnvelopeBytes build)) (UnixMilli (CreatedAt config))
}.

Lemma attachments_root paths w l n root w' :
  buildResourceAttachments paths w = (Ok (l, n, root), w') -> root = "" \/ exists b, root = sha256_hex_bytes b.
Proof.
  unfold buildResourceAttachments. destruct paths; [intros [= <- <- <- <-]; by left|].
  intros (x & w1 & _ & [= _ _ <- _])%bind_inv_Ok. right. by eexists.
Qed.

Lemma assemble_Ok cipher config dir input w build w' :
  NewResourceCipher (Master config) (ResourceID config) = Ok cipher ->
  validBackupResourceKind (ResourceKind config) && validControlIdentifier (ResourceID config)
    && validControlIdentifier (GenerationID config) = true ->
  assemble config dir cipher input w = (Ok build, w') -> built cipher config input (files w') build.
Proof.
  intros Hkey Hvalid. unfold assemble.
  intros ([cs n] & w1 & (He & Hn & -> & Hch)%writeChunks_Ok & E)%bind_inv_Ok.
  apply bind_inv_Ok in E as (remote & w2 & Hadd & E). injection Hadd as Hadd <-.
  destruct (addSizes 0 cs) as [z|] eqn:Hz; [|done]. injection Hadd as ->.
  apply (addSizes_nonneg _ _ _ (chunked_sizes _ _ _ _ _ _ Hch)) in Hz.
  apply bind_inv_Ok in E as ([[attached size] root] & w3 & Hatt & E).
  assert (Hk : kept_files (files w1) (files w3)).
  { intros path b Hb. by rewrite (still_attachments _ _ _ _ Hatt). }
  apply attachments_root in Hatt.
  apply bind_inv_Ok in E as ([] & w4 & [_ ->]%guard_inv_Ok & E).
  apply bind_inv_Ok in E as ([] & w5 & [_ ->]%guard_inv_Ok & E).
  apply bind_inv_Ok in E as ([] & w6 & [_ ->]%guard_inv_Ok & E). injection E as <- <-.
  split; simpl; try done.
  - by eapply chunked_kept.
  - by eexists _, _.
  - by exists remote.
Qed.

Lemma BuildResource_Ok config input w build w' :
  BuildResource config input w = (Ok build, w') -> exists cipher, built cipher config input (files w') build.
Proof.
  unfold BuildResource. intros ([] & w1 & [Hg ->]%guard_inv_Ok & E)%bind_inv_Ok.
  apply andb_true_iff in Hg as [Hg _]. apply andb_true_iff in Hg as [Hg _].
  apply bind_inv_Ok in E as ([] & w2 & _ & E). apply bind_inv_Ok in E as ([] & w3 & _ & E).
  destruct (bind _ _ w3) as [[b|x] w4] eqn:Hb; [|by destruct (RemoveAll _ _)]. injection E as -> ->.
  apply bind_inv_Ok in Hb as (cipher & w5 & Hc & Hb). injection Hc as Hc <-.
  exists cipher. by eapply assemble_Ok.
Qed.
End BuildLemmas.

(** ** Lemmas: publishing *)

Section PublishLemmas.
Context `{BackupCrypto} `{Disk} `{Remote} `{BackupCodec}.

Definition remote_base : string := if empty remote_prefix then "" else remote_prefix +:+ "/".

Lemma Key_under kind rid s :
  Key (ResourceGenerationsPrefix kind rid +:+ s) = remote_base +:+ ResourceGenerationsPrefix kind rid +:+ s.
Proof. unfold Key, remote_base. simpl. destruct (empty remote_prefix); [done|]. by rewrite app_assoc_str. Qed.

Lemma Key_generation kind rid g s :
  Key (ResourceGenerationPrefix kind rid g +:+ s) =
  remote_base +:+ ResourceGenerationsPrefix kind rid +:+ "/" +:+ g +:+ s.
Proof. unfold ResourceGenerationPrefix. by rewrite !app_assoc_str, Key_under. Qed.

Lemma str_app_inj s t u : s +:+ t = s +:+ u -> t = u.
Proof. induction s as [|c s IH]; [done|]. intros [= E]. auto. Qed.

Lemma generation_keys_inj kind rid g s t :
  Key (ResourceGenerationPrefix kind rid g +:+ s) = Key (ResourceGenerationPrefix kind rid g +:+ t) -> s = t.
Proof.
  rewrite !Key_generation. intros E%str_app_inj. apply str_app_inj, str_app_inj, str_app_inj in E. done.
Qed.

(** The marker is an object of its own. *)
Lemma chunk_not_completion e i : chunk_key e i <> completion_key e.
Proof. intros E%generation_keys_inj. discriminate. Qed.
Lemma attachment_not_completion e i : attachment_key e i <> completion_key e.
Proof. intros E%generation_keys_inj. discriminate. Qed.
Lemma envelope_not_completion e : envelope_key e <> completion_key e.
Proof. intros E%generation_keys_inj. discriminate. Qed.

Lemma passive_verifyChunk cipher e c : passive (verifyChunk cipher e c).
Proof. unfold verifyChunk. auto 10 with backup. Qed.
Lemma passive_verifyAttachment e a : passive (verifyAttachment e a).
Proof.
  unfold verifyAttachment, OpenResourceAttachment. apply passive_bind.
  - apply passive_bind; [auto with backup|intros ?]. apply passive_bind; [auto with backup|].
    intros [body size]. auto with backup.
  - intros [body reader]. destruct (drain _ _ _). auto with backup.
Qed.

Lemma passive_verify master e expected atts : passive (verifyPublishedResource master e expected atts).
Proof.
  unfold verifyPublishedResource.
  repeat (apply passive_bind; [auto using passive_verifyChunk with backup|intros ?]).
  auto using passive_verifyAttachment with backup.
Qed.

(** A generation that passed the read-back. *)
Definition verified_generation (master : bytes) (e : ResourceEnvelope) (expected : bytes) (o : gmap string bytes) : Prop :=
  o !! envelope_key e = Some expected /\
  exists decoded cipher, DecodeResourceEnvelope expected = Ok decoded /\
    NewResourceCipher master (e_ResourceID decoded) = Ok cipher /\
    Forall (fun c => exists sealed q, o !! chunk_key decoded (Index c) = Some sealed /\
                       OpenChunk cipher (e_GenerationID decoded) c sealed = Ok q) (e_Chunks decoded).

Lemma verify_Ok master e expected atts w w' :
  verifyPublishedResource master e expected atts w = (Ok tt, w') -> verified_generation master e expected (objects w).
Proof.
  unfold verifyPublishedResource.
  intros (value & w1 & Hread%or_join_Ok & E)%bind_inv_Ok. pose proof (passive_readRemoteObject _ _ _ _ _ Hread) as Hw1.
  apply readRemoteObject_Ok in Hread as [Henv _].
  apply bind_inv_Ok in E as ([] & w2 & [->%bool_decide_eq_true ->]%guard_inv_Ok & E).
  apply bind_inv_Ok in E as (decoded & w3 & Hd%or_join_Ok & E). injection Hd as Hd <-.
  apply bind_inv_Ok in E as ([] & w4 & [_ ->]%guard_inv_Ok & E).
  apply bind_inv_Ok in E as (cipher & w5 & Hc & E). injection Hc as Hc <-.
  apply bind_inv_Ok in E as ([] & w6 & Hall & _).
  split; [done|]. exists decoded, cipher. split_and!; try done.
  apply for_each_Ok in Hall; [|apply passive_verifyChunk]. rewrite Hw1 in Hall.
  eapply Forall_impl; [exact Hall|]. intros c (v & v' & Hv & Hch). unfold verifyChunk in Hch.
  apply bind_inv_Ok in Hch as (sealed & v1 & [Ho _]%readRemoteObject_Ok & Hch).
  apply bind_inv_Ok in Hch as (q & v2 & Hq & _). injection Hq as Hq _.
  destruct (OpenChunk _ _ c sealed) as [q'|] eqn:Ho'; [|done]. injection Hq as ->.
  exists sealed, q. by rewrite <- Hv.
Qed.

Lemma touches_weaken {A} (P Q : string -> Prop) (m : M A) : (forall k, P k -> Q k) -> touches P m -> touches Q m.
Proof. intros HPQ Hm w r w' E k Hk. apply (Hm _ _ _ E). auto. Qed.

Lemma touches_putFile key path : touches (fun k => k = key) (putFile key path).
Proof.
  unfold putFile. apply touches_bind.
  - apply touches_passive. unfold read_file. apply passive_bind; [auto with backup|].
    intros ?. by intros w r w' [= _ <-].
  - intros content w r w'. destruct (Put key content w) as [putErr w1] eqn:Hput.
    destruct (on_files system_call w1) as [closeErr w2] eqn:Hclose. intros [= _ <-] k Hk.
    rewrite (passive_on_files _ _ _ _ Hclose). by eapply touches_Put.
Qed.
End PublishLemmas.

(** ** The marker commits a generation that can be restored *)

Section Restorable.
Context `{BackupCrypto} `{Disk} `{Remote} `{BackupCodec}.

(** The marker is written after the read-back, and nothing else is written later. *)
Lemma publish_commit master build w out w' :
  PublishResource master build w = (out, w') ->
  objects w !! completion_key (b_Envelope build) = None -> is_Some (objects w' !! completion_key (b_Envelope build)) ->
  exists o, verified_generation master (b_Envelope build) (b_EnvelopeBytes build) o /\
    forall k, k <> completion_key (b_Envelope build) -> objects w' !! k = o !! k.
Proof.
  set (e := b_Envelope build). set (ck := completion_key e). intros E Hnone Hsome.
  assert (Hstep : forall {A} (m : M A) (k : A -> M unit) v, touches (fun x => x <> ck) m ->
    bind m k v = (out, w') -> objects v !! ck = None -> exists a v', k a v' = (out, w') /\ objects v' !! ck = None /\ m v = (Ok a, v')).
  { intros A m k v Hm [(a & v' & Ha & Hk)|(x & Ha & _)]%bind_cases Hv.
    - exists a, v'. split_and!; try done. rewrite (Hm _ _ _ Ha); [done|by intros Hx; apply Hx].
    - rewrite (Hm _ _ _ Ha) in Hsome by (by intros Hx; apply Hx). rewrite Hv in Hsome. by destruct Hsome. }
  unfold PublishResource in E. fold e in E.
  apply Hstep in E as (x1 & w1 & E & H1n & _); [|by auto using touches_passive with backup|done].
  apply Hstep in E as (x2 & w2 & E & H2n & _); [|apply touches_for_each; intros c _;
    eapply touches_weaken; [|apply touches_putFile]; intros k ->; apply chunk_not_completion|done].
  apply Hstep in E as (x3 & w3 & E & H3n & _); [|by auto using touches_passive with backup|done].
  apply Hstep in E as (x4 & w4 & E & H4n & _); [|apply touches_for_each; intros a _;
    eapply touches_weaken; [|apply touches_putFile]; intros k ->; apply attachment_not_completion|done].
  apply Hstep in E as (x5 & w5 & E & H5n & _); [|eapply touches_weaken; [|apply touches_Put]; intros k ->;
    apply envelope_not_completion|done].
  apply Hstep in E as ([] & w6 & E & H6n & Hverify); [|apply touches_passive, passive_verify|done].
  exists (objects w6). split.
  - rewrite (passive_verify _ _ _ _ _ _ _ Hverify). by eapply verify_Ok.
  - intros k Hk. assert (Hpost : touches (fun x => x = ck) (Put ck (b_CompletionBytes build) ;;
      let! published := or_join (readRemoteObject ck maximumCompletionSize) "resource completion read-back differs" in
      guard_M (bool_decide (published = b_CompletionBytes build)) "resource completion read-back differs" ;;
      let! _ := of_result (DecodeResourceCompletion published) in ret tt)).
    { apply touches_bind; [apply touches_Put|]. intros ?. apply touches_passive. auto 10 with backup. }
    exact (Hpost _ _ _ E k Hk).
Qed.

(** What the code relies on: the hash is printed as 64 lower-case hex digits, a
    nonce has its 24 bytes, and JSON gives back envelopes with valid texts. *)
Definition HashText : Prop := forall b, validSHA256 (sha256_hex_bytes b) = true.
Definition NonceWhole : Prop := forall k nonce, random_nonce k = Ok nonce -> blen nonce = Cryptobox.NonceSize.
Definition envelope_texts (e : ResourceEnvelope) : Prop :=
  validBackupResourceKind (e_ResourceKind e) && validControlIdentifier (e_ResourceID e)
    && validControlIdentifier (e_GenerationID e) = true /\
  (e_AttachmentRoot e = "" \/ validSHA256 (e_AttachmentRoot e) = true) /\
  Forall (fun c => validSHA256 (CiphertextSHA c) = true) (e_Chunks e).
Definition EnvelopeExact : Prop := forall e, envelope_texts e -> envelope_Decode (envelope_Marshal e) = Some e.

(** The stored objects do not collide with the sealed files of the build. *)
Definition no_collision (fs : Files) (o : gmap string bytes) : Prop :=
  forall path file key object, contents fs !! path = Some file -> o !! key = Some object ->
    sha256_hex_bytes object = sha256_hex_bytes file -> object = file.

Lemma built_texts cipher config input fs build :
  HashText -> built cipher config input fs build -> envelope_texts (b_Envelope build).
Proof.
  intros Hhash [_ Hvalid _ (plain & Hl & _ & _ & Hs) (count & size & He) Hroot _ _]. split_and!.
  - by rewrite He.
  - destruct Hroot as [->|[b ->]]; [by left|right; apply Hhash].
  - rewrite He. simpl. apply Forall_fmap, Forall_lookup_2. intros i c Hc. simpl.
    destruct (lookup_lt_is_Some_2 plain i) as [p Hp]; [rewrite Hl; by apply lookup_lt_Some in Hc|].
    destruct (Hs i c p Hc Hp) as (nonce & sealed & _ & (_ & _ & _ & _ & ->)%SealChunk_inv & _). apply Hhash.
Qed.

Lemma built_decoded cipher config input fs build decoded :
  HashText -> EnvelopeExact -> built cipher config input fs build ->
  DecodeResourceEnvelope (b_EnvelopeBytes build) = Ok decoded -> decoded = b_Envelope build.
Proof.
  intros Hhash Hexact Hb (Hd & _)%DecodeResourceEnvelope_Ok. pose proof (built_texts _ _ _ _ _ Hhash Hb) as Ht.
  destruct Hb as [_ _ _ _ _ _ Hbytes _]. rewrite Hbytes, Hexact in Hd by done. congruence.
Qed.

(** A verified generation of a build holds the chunks of the build. *)
Lemma verified_stored cipher config input fs build o :
  AeadCorrect -> HashText -> NonceWhole -> EnvelopeExact -> built cipher config input fs build ->
  verified_generation (Master config) (b_Envelope build) (b_EnvelopeBytes build) o -> no_collision fs o ->
  exists plain, concat plain = concat (reads input) /\ stored cipher (b_Envelope build) plain o.
Proof.
  intros Haead Hhash Hnonce Hexact Hb (_ & decoded & cipher' & Hd & Hc & Hall) Hcol.
  pose proof (built_decoded _ _ _ _ _ _ Hhash Hexact Hb Hd) as ->.
  destruct Hb as [Hkey _ _ (plain & Hl & Hdata & _ & Hs) (count & size & He) _ _ _].
  assert (Hrid : e_ResourceID (b_Envelope build) = ResourceID config) by (by rewrite He).
  assert (Hgen : e_GenerationID (b_Envelope build) = GenerationID config) by (by rewrite He).
  assert (Hcs : e_Chunks (b_Envelope build) = wc_chunk <$> b_Chunks build) by (by rewrite He).
  assert (cipher' = cipher) as -> by (rewrite Hrid in Hc; congruence).
  exists plain. split; [done|]. split; [by rewrite Hcs, length_fmap|].
  intros i c p Hci Hp. rewrite Hcs in Hci. apply list_lookup_fmap_Some in Hci as (wc & -> & Hwc).
  destruct (Hs i wc p Hwc Hp) as (nonce & sealed & [k Hk] & Hseal & Hfile & _).
  rewrite Hcs, Forall_fmap, Forall_lookup in Hall. destruct (Hall i wc Hwc) as (object & q & Hobj & Hopen). simpl in *.
  pose proof (SealChunk_inv _ _ _ _ _ _ _ Hseal) as (_ & _ & _ & _ & Hdesc).
  pose proof (OpenChunk_inv _ _ _ _ _ Hopen) as (_ & _ & _ & _ & _ & Hsha & _). rewrite Hdesc in Hsha. simpl in Hsha.
  assert (object = sealed) as -> by (by eapply Hcol).
  exists sealed. split; [done|]. rewrite Hgen. eapply open_sealed_chunk; [done|by eapply Hnonce|done].
Qed.

Lemma completion_valid cipher config input fs build :
  HashText -> EnvelopeExact -> built cipher config input fs build ->
  DecodeResourceEnvelope (b_EnvelopeBytes build) = Ok (b_Envelope build) ->
  validateResourceCompletion (b_Completion build) = Ok tt.
Proof.
  intros Hhash Hexact Hb (_ & Hf & _ & Hlen & _)%DecodeResourceEnvelope_Ok.
  destruct Hb as [_ Hvalid _ _ (count & size & He) _ _ (before & Hbefore & Hcomp)].
  rewrite Hcomp. unfold validateResourceCompletion. simpl.
  apply andb_true_iff in Hvalid as [Hvalid Hgen]. apply andb_true_iff in Hvalid as [Hkind Hrid].
  rewrite Hkind, Hrid, Hgen. simpl. unfold envelopeFields in Hf.
  repeat (apply andb_true_iff in Hf as [Hf ?]). rewrite He in *. simpl in *. btrue.
  repeat (rewrite (proj2 (Z.leb_gt _ _)) by lia). simpl.
  pose proof (Hhash (b_EnvelopeBytes build)) as Hh. unfold validSHA256 in Hh.
  apply andb_true_iff in Hh as [Hh Hhex]. apply andb_true_iff in Hh as [-> ->]. simpl. by rewrite Hhex.
Qed.

Lemma OpenResource_built cipher config input fs build w :
  HashText -> EnvelopeExact -> built cipher config input fs build ->
  verified_generation (Master config) (b_Envelope build) (b_EnvelopeBytes build) (objects w) -> healthy w ->
  exists w', OpenResource (Master config) (b_Completion build) w = (Ok (mkReader cipher (b_Envelope build) 0 [] 0), w') /\
    objects w' = objects w /\ healthy w'.
Proof.
  intros Hhash Hexact Hb (Henv & decoded & _ & Hd & _) Hh.
  pose proof (built_decoded _ _ _ _ _ _ Hhash Hexact Hb Hd) as ->.
  pose proof (completion_valid _ _ _ _ _ Hhash Hexact Hb Hd) as Hvalid.
  pose proof (DecodeResourceEnvelope_Ok _ _ Hd) as (_ & _ & _ & Hlen & _).
  destruct Hb as [Hkey _ _ _ (count & size & He) _ _ (before & _ & Hcomp)].
  assert (Hek : Key (ResourceEnvelopeKey (c_ResourceKind (b_Completion build)) (c_ResourceID (b_Completion build))
    (c_GenerationID (b_Completion build))) = envelope_key (b_Envelope build)) by (by rewrite Hcomp, He).
  destruct (readRemoteObject_healthy (envelope_key (b_Envelope build)) maximumResourceEnvelopeSize w _ Hh Henv ltac:(lia))
    as (w' & Hread & Ho & Hh'). exists w'. split; [|done].
  unfold OpenResource, bind, or_join, of_result. rewrite Hvalid, Hek, Hread.
  assert (bool_decide (sha256_hex_bytes (b_EnvelopeBytes build) = c_EnvelopeSHA256 (b_Completion build)) = true) as ->
    by (apply bool_decide_eq_true; by rewrite Hcomp).
  simpl. rewrite Hd.
  assert (bool_decide (e_ResourceKind (b_Envelope build) = c_ResourceKind (b_Completion build)) &&
    bool_decide (e_ResourceID (b_Envelope build) = c_ResourceID (b_Completion build)) &&
    bool_decide (e_GenerationID (b_Envelope build) = c_GenerationID (b_Completion build)) &&
    (e_PlaintextSize (b_Envelope build) =? c_PlaintextSize (b_Completion build)) = true) as ->.
  { rewrite Hcomp, He. simpl. rewrite !bool_decide_eq_true_2 by done. by rewrite Z.eqb_refl. }
  simpl. assert (c_ResourceID (b_Completion build) = ResourceID config) as -> by (by rewrite Hcomp). by rewrite Hkey.
Qed.

End Restorable.

(** ** Retention *)

Section Retention.
Context `{BackupCrypto} `{Remote} `{BackupCodec}.

(** What the code relies on: the pages of a listing hold all of it. *)
Definition PagesExact : Prop := forall n l, concat (list_pages n l) = l.

#[global] Instance newer_first_total : Total newer_first.
Proof.
  intros a b. unfold newer_first. destruct (Z.lt_trichotomy (c_CompletedAtMillis a) (c_CompletedAtMillis b)) as [?|[E|?]];
    [right; by left| |left; by left].
  destruct (total String.le (c_GenerationID a) (c_GenerationID b)); [right|left]; right; auto.
Qed.
#[global] Instance newer_first_trans : Transitive newer_first.
Proof.
  intros a b c. unfold newer_first. intros [?|[E1 L1]] [?|[E2 L2]]; [left; lia|left; lia|left; lia|].
  right. split; [congruence|by etrans].
Qed.

(** Actions that only remove objects. *)
Definition shrinks {A} (m : M A) : Prop :=
  forall w r w' k, m w = (r, w') -> objects w !! k = None -> objects w' !! k = None.

Lemma shrinks_passive {A} (m : M A) : passive m -> shrinks m.
Proof. intros Hm w r w' k E. by rewrite (Hm _ _ _ E). Qed.
Lemma shrinks_bind {A B} (m : M A) (k : A -> M B) : shrinks m -> (forall a, shrinks (k a)) -> shrinks (bind m k).
Proof. intros Hm Hk w r w' key [(a & w1 & Ha & Hb)|(x & Ha & _)]%bind_cases Hn; [eapply Hk; eauto|eauto]. Qed.
Lemma shrinks_for_each {A} (f : A -> M unit) l : (forall a, shrinks (f a)) -> shrinks (for_each f l).
Proof. intros Hf. induction l; simpl; [by apply shrinks_passive, passive_ret|]. by apply shrinks_bind. Qed.
Lemma shrinks_Delete key : shrinks (Delete key).
Proof.
  intros w r w' k. unfold Delete, request. destruct (remote_fault _); intros [= <- <-] Hn; simpl; try done;
    by apply lookup_delete_None; right.
Qed.
#[local] Hint Resolve shrinks_bind shrinks_for_each shrinks_Delete shrinks_passive : backup.

Lemma shrinks_pages prefix f : (forall keys, shrinks (f keys)) -> shrinks (for_pages prefix f).
Proof.
  intros Hf w r w' k E. unfold for_pages in E. revert E.
  apply (shrinks_for_each (fun page => bind (List_page page) f)). intros page.
  apply shrinks_bind; [apply shrinks_passive, passive_List_page|done].
Qed.
Lemma shrinks_deletePrefix prefix : shrinks (deleteRemotePrefix prefix).
Proof. apply shrinks_pages. intros keys. apply shrinks_for_each, shrinks_Delete. Qed.

Lemma Delete_gone key w w' : Delete key w = (Ok tt, w') -> objects w' !! key = None.
Proof. unfold Delete, request. destruct (remote_fault _); intros [= <-]; simpl; apply lookup_delete_eq. Qed.

(** An action repeated for every element, each of which removes its own. *)
Lemma for_each_gone {A} (f : A -> M unit) (P : A -> string -> Prop) l w w' :
  (forall a, shrinks (f a)) ->
  (forall a v v' k, a ∈ l -> f a v = (Ok tt, v') -> P a k -> objects v' !! k = None) ->
  for_each f l w = (Ok tt, w') -> forall a k, a ∈ l -> P a k -> objects w' !! k = None.
Proof.
  intros Hs. revert w. induction l as [|b l IH]; intros w Hf; simpl; [intros _ a k Ha; by apply not_elem_of_nil in Ha|].
  intros ([] & w1 & Hb & Hrest)%bind_inv_Ok a k Ha HP. apply elem_of_cons in Ha as [->|Ha].
  - exact (shrinks_for_each f l Hs _ _ _ k Hrest (Hf b w w1 k (list_elem_of_here _ _) Hb HP)).
  - refine (IH w1 _ Hrest a k Ha HP). intros a' v v' k' Ha' Hv. apply (Hf a' v v' k'); [by right|done].
Qed.

Lemma listing_prefix prefix o k : k ∈ listing prefix o <-> has_prefix prefix k = true /\ is_Some (o !! k).
Proof.
  unfold listing. rewrite list_elem_of_filter, list_elem_of_fmap. split.
  - intros [Hp ([k' b] & -> & Hb%elem_of_map_to_list)]. eauto.
  - intros [Hp [b Hb]]. split; [done|]. exists (k, b). split; [done|]. by apply elem_of_map_to_list.
Qed.

Lemma List_page_Ok page w keys w' : List_page page w = (Ok keys, w') -> keys = page.
Proof. unfold List_page, request. destruct (remote_fault _); by intros [= <- <-]. Qed.

Lemma touches_deletePrefix prefix :
  PagesExact -> touches (fun k => has_prefix prefix k = true) (deleteRemotePrefix prefix).
Proof.
  intros Hpages w r w' E k Hk. unfold deleteRemotePrefix, for_pages in E. revert E Hk.
  intros E. revert k. refine (touches_for_each _ _ _ _ _ _ E). intros page Hpage v s v' Hv k Hk.
  apply bind_cases in Hv as [(keys & v1 & Hl & Hv)|(x & Hl & _)]; [|by rewrite (passive_List_page _ _ _ _ Hl)].
  rewrite <- (passive_List_page _ _ _ _ Hl). apply List_page_Ok in Hl as ->. revert Hk.
  revert k. refine (touches_for_each _ _ _ _ _ _ Hv). intros key Hkey. eapply touches_weaken; [|apply touches_Delete].
  intros k ->. eapply listing_prefix. rewrite <- (Hpages (requests w)). by apply list_elem_of_In, in_concat; exists page; split; apply list_elem_of_In.
Qed.

Lemma deletePrefix_gone prefix w w' k :
  PagesExact -> deleteRemotePrefix prefix w = (Ok tt, w') -> has_prefix prefix k = true -> objects w' !! k = None.
Proof.
  intros Hpages E Hk. destruct (objects w !! k) as [b|] eqn:Hb.
  2: { by eapply shrinks_deletePrefix. }
  assert (Hin : k ∈ concat (list_pages (requests w) (listing prefix (objects w))))
    by (rewrite Hpages; apply listing_prefix; eauto).
  apply list_elem_of_In, in_concat in Hin as (page & Hpage & Hkp). apply list_elem_of_In in Hpage, Hkp.
  unfold deleteRemotePrefix, for_pages in E.
  refine (for_each_gone _ (fun page k => k ∈ page) _ _ _ _ _ E page k Hpage Hkp).
  - intros p. apply shrinks_bind; [apply shrinks_passive, passive_List_page|]. intros keys. apply shrinks_for_each, shrinks_Delete.
  - intros p v v' q _ Hv Hq. apply bind_inv_Ok in Hv as (keys & v1 & ->%List_page_Ok & Hv).
    refine (for_each_gone _ (fun a k => k = a) _ _ _ shrinks_Delete _ Hv q q Hq eq_refl).
    intros a u u' x _ Hu ->. by eapply Delete_gone.
Qed.

Definition generation_prefix (kind rid g : string) : string := Key (ResourceGenerationPrefix kind rid g +:+ "/").

Lemma identifier_no_slash g : validControlIdentifier g = true -> str_forall identifier_byte g = true.
Proof. unfold validControlIdentifier. intros Hg. by btrue. Qed.

(** No object of a generation lies under the prefix of another. *)
Lemma generation_prefix_inj kind rid g g' s :
  validControlIdentifier g = true -> validControlIdentifier g' = true ->
  has_prefix (generation_prefix kind rid g') (Key (ResourceGenerationPrefix kind rid g +:+ "/" +:+ s)) = true -> g = g'.
Proof.
  intros Hg%identifier_no_slash Hg'%identifier_no_slash [t Ht]%has_prefix_spec.
  unfold generation_prefix in Ht. rewrite !Key_generation in Ht.
  rewrite !app_assoc_str in Ht. apply str_app_inj, str_app_inj, str_app_inj in Ht.
  pose proof (cut_app identifier_byte "/"%char g s Hg eq_refl) as Hcut.
  pose proof (cut_app identifier_byte "/"%char g' t Hg' eq_refl) as Hcut'.
  change (g +:+ String "/" s = g' +:+ String "/" t) in Ht. rewrite Ht in Hcut. congruence.
Qed.

Lemma DecodeResourceCompletion_id value c :
  DecodeResourceCompletion value = Ok c -> validControlIdentifier (c_GenerationID c) = true.
Proof.
  unfold DecodeResourceCompletion. destruct (_ || _); [done|]. destruct (completion_Decode value); [|done].
  intros (x & Hv & [= ->])%rbind_ok. unfold validateResourceCompletion in Hv.
  destruct (validControlIdentifier (c_GenerationID c)); [done|]. simpl in Hv.
  by rewrite !orb_true_r in Hv.
Qed.

Lemma readCompletions_Ok kind rid seen keys w cs w' :
  readCompletions kind rid seen keys w = (Ok cs, w') ->
  NoDup (c_GenerationID <$> cs) /\ (forall c, c ∈ cs -> c_GenerationID c ∉ seen) /\
  Forall (fun c => validControlIdentifier (c_GenerationID c) = true) cs.
Proof.
  revert seen w cs w'. induction keys as [|key keys IH]; intros seen w cs w'; simpl.
  { intros [= <- <-]. split_and!; [constructor|set_solver|constructor]. }
  intros (value & w1 & _ & E)%bind_inv_Ok. apply bind_inv_Ok in E as (c & w2 & Hd%or_join_Ok & E). injection Hd as Hd _.
  apply bind_inv_Ok in E as ([] & w3 & _ & E). apply bind_inv_Ok in E as ([] & w4 & [Hseen _]%guard_inv_Ok & E).
  apply bind_inv_Ok in E as (more & w5 & (Hnd & Hns & Hval)%IH & E). injection E as <- _.
  apply negb_true_iff, bool_decide_eq_false in Hseen. split_and!.
  - rewrite fmap_cons. constructor; [|done]. intros (c' & Hc' & Hin)%list_elem_of_fmap. apply (Hns c' Hin). rewrite <- Hc'. by left.
  - intros c' Hc'. apply elem_of_cons in Hc' as [->|Hc']; [done|]. specialize (Hns c' Hc'). set_solver.
  - constructor; [by eapply DecodeResourceCompletion_id|done].
Qed.

Lemma passive_collect prefix pages : passive (collect_pages prefix pages).
Proof. induction pages; simpl; auto 10 with backup. Qed.
Lemma passive_completions kind rid seen keys : passive (readCompletions kind rid seen keys).
Proof. revert seen. induction keys; intros seen; simpl; auto 20 with backup. Qed.

Lemma ListResourceGenerations_Ok kind rid w gs w' :
  ListResourceGenerations kind rid w = (Ok gs, w') ->
  NoDup (c_GenerationID <$> gs) /\ Forall (fun c => validControlIdentifier (c_GenerationID c) = true) gs /\
  StronglySorted newer_first gs.
Proof.
  unfold ListResourceGenerations. intros (? & w1 & _ & E)%bind_inv_Ok. apply bind_inv_Ok in E as (keys & w2 & _ & E).
  apply bind_inv_Ok in E as (cs & w3 & (Hnd & _ & Hval)%readCompletions_Ok & E). injection E as <- _.
  pose proof (merge_sort_Permutation newer_first cs) as Hp. split_and!.
  - by rewrite Hp.
  - by rewrite Hp.
  - apply (StronglySorted_merge_sort newer_first).
Qed.

Lemma passive_ListResourceGenerations kind rid : passive (ListResourceGenerations kind rid).
Proof.
  unfold ListResourceGenerations. apply passive_bind; [auto with backup|intros ?].
  apply passive_bind; [intros w r w'; apply passive_collect|intros ?].
  apply passive_bind; [apply passive_completions|]. intros ?. apply passive_ret.
Qed.

Lemma sorted_take_drop (l : list ResourceCompletion) n a b :
  StronglySorted newer_first l -> a ∈ take n l -> b ∈ drop n l -> newer_first a b.
Proof.
  intros Hs Ha Hb. rewrite <- (take_drop n l) in Hs.
  exact (StronglySorted_app_1_elem_of newer_first _ _ a b Hs Ha Hb).
Qed.

Lemma split_generations (gs : list ResourceCompletion) n a b :
  NoDup (c_GenerationID <$> gs) -> a ∈ take n gs -> b ∈ drop n gs -> c_GenerationID a <> c_GenerationID b.
Proof.
  intros Hnd Ha Hb E. rewrite <- (take_drop n gs), fmap_app in Hnd. apply NoDup_app in Hnd as (_ & Hd & _).
  apply (Hd (c_GenerationID a)); [by apply list_elem_of_fmap_2|]. rewrite E. by apply list_elem_of_fmap_2.
Qed.

End Retention.

(** A check for [no_collision]. *)
Section Distinct.
Context `{BackupCrypto}.
Definition distinct_hashes (fs : Files) (o : gmap string bytes) : bool :=
  forallb (fun object => forallb (fun file =>
    bool_decide (sha256_hex_bytes object.2 <> sha256_hex_bytes file.2) || bool_decide (object.2 = file.2))
    (map_to_list (contents fs))) (map_to_list o).
Lemma distinct_hashes_ok fs o : distinct_hashes fs o = true -> no_collision fs o.
Proof.
  unfold distinct_hashes. rewrite forallb_forall. intros Hd path file key object Hf Ho Hh.
  specialize (Hd (key, object)). rewrite forallb_forall in Hd.
  apply elem_of_map_to_list, list_elem_of_In in Ho, Hf. specialize (Hd Ho (path, file) Hf). simpl in Hd.
  apply orb_true_iff in Hd as [Hd|Hd]; apply bool_decide_eq_true in Hd; [by rewrite Hh in Hd|done].
Qed.
End Distinct.

(** ** Restoring through the stored marker *)

Section Marker.
Context `{BackupCrypto} `{Disk} `{Remote} `{BackupCodec}.

(** What the code relies on: JSON gives back valid completions. *)
Definition CompletionExact : Prop :=
  forall c, validateResourceCompletion c = Ok tt -> completion_Decode (completion_Marshal c) = Some c.

Lemma BuildResource_marker config input w build w' :
  BuildResource config input w = (Ok build, w') -> b_CompletionBytes build = completion_Marshal (b_Completion build).
Proof.
  unfold BuildResource. intros ([] & w1 & _ & E)%bind_inv_Ok.
  apply bind_inv_Ok in E as ([] & w2 & _ & E). apply bind_inv_Ok in E as ([] & w3 & _ & E).
  destruct (bind _ _ w3) as [[b|x] w4] eqn:Hb; [|by destruct (RemoveAll _ _)]. injection E as -> ->.
  apply bind_inv_Ok in Hb as (cipher & w5 & _ & Hb). unfold assemble in Hb.
  apply bind_inv_Ok in Hb as ([cs n] & w6 & _ & E). apply bind_inv_Ok in E as (remote & w7 & _ & E).
  apply bind_inv_Ok in E as ([[attached size] root] & w8 & _ & E).
  do 3 (apply bind_inv_Ok in E as ([] & ? & _ & E)). by injection E as <- <-.
Qed.

(** A publication that succeeded read the marker back as it was written. *)
Lemma publish_marker master build w w' :
  PublishResource master build w = (Ok tt, w') ->
  objects w' !! completion_key (b_Envelope build) = Some (b_CompletionBytes build) /\
  blen (b_CompletionBytes build) <= maximumCompletionSize /\
  exists c, DecodeResourceCompletion (b_CompletionBytes build) = Ok c.
Proof.
  unfold PublishResource. intros (? & ? & _ & E)%bind_inv_Ok. do 6 (apply bind_inv_Ok in E as (? & ? & _ & E)).
  apply bind_inv_Ok in E as (published & w1 & Hread%or_join_Ok & E).
  pose proof (passive_readRemoteObject _ _ _ _ _ Hread) as Hw1. apply readRemoteObject_Ok in Hread as [Hobj Hlen].
  apply bind_inv_Ok in E as ([] & w2 & [->%bool_decide_eq_true ->]%guard_inv_Ok & E).
  apply bind_inv_Ok in E as (c & w3 & Hd & E). injection Hd as Hd <-. injection E as <-.
  rewrite Hw1. split_and!; [done|done|by exists c].
Qed.

(** What a listing returns was decoded from the marker of its generation. *)
Lemma readCompletions_stored kind rid seen keys w cs w' c :
  readCompletions kind rid seen keys w = (Ok cs, w') -> c ∈ cs ->
  c_ResourceKind c = kind /\ c_ResourceID c = rid /\
  is_Some (objects w !! Key (ResourceCompletionKey kind rid (c_GenerationID c))).
Proof.
  revert seen w cs w'. induction keys as [|key keys IH]; intros seen w cs w'; simpl.
  { intros [= <- <-]. by intros Hc%not_elem_of_nil. }
  intros (value & w1 & Hread & E)%bind_inv_Ok. apply bind_inv_Ok in E as (c0 & w2 & Hd%or_join_Ok & E). injection Hd as _ <-.
  apply bind_inv_Ok in E as ([] & w3 & [Hid ->]%guard_inv_Ok & E). apply bind_inv_Ok in E as ([] & w4 & [_ ->]%guard_inv_Ok & E).
  apply bind_inv_Ok in E as (more & w5 & Hmore & E). injection E as <- _.
  pose proof (passive_readRemoteObject _ _ _ _ _ Hread) as Hw1. apply readRemoteObject_Ok in Hread as [Hobj _].
  apply andb_true_iff in Hid as [Hid Hkey%bool_decide_eq_true]. apply andb_true_iff in Hid as [Hk%bool_decide_eq_true Hr%bool_decide_eq_true].
  intros [->|Hc]%elem_of_cons.
  - split_and!; [done|done|]. rewrite <- Hkey. by rewrite Hobj.
  - rewrite <- Hw1. by eapply IH.
Qed.
Lemma listed_marker kind rid w gs w' c :
  ListResourceGenerations kind rid w = (Ok gs, w') -> c ∈ gs ->
  c_ResourceKind c = kind /\ c_ResourceID c = rid /\
  is_Some (objects w !! Key (ResourceCompletionKey kind rid (c_GenerationID c))).
Proof.
  unfold ListResourceGenerations. intros ([] & w1 & [_ ->]%guard_inv_Ok & E)%bind_inv_Ok Hc.
  apply bind_inv_Ok in E as (keys & w2 & Hkeys & E). apply bind_inv_Ok in E as (cs & w3 & Hcs & E). injection E as <- _.
  apply passive_collect in Hkeys. rewrite <- Hkeys. eapply readCompletions_stored; [exact Hcs|].
  by rewrite (merge_sort_Permutation newer_first cs) in Hc.
Qed.

(** What [OpenResource] opens is the envelope stored for the identity of the marker. *)
Lemma OpenResource_stored master completion w r w' :
  OpenResource master completion w = (Ok r, w') ->
  objects w' = objects w /\
  exists cipher value e, r = mkReader cipher e 0 [] 0 /\
    NewResourceCipher master (c_ResourceID completion) = Ok cipher /\
    objects w !! Key (ResourceEnvelopeKey (c_ResourceKind completion) (c_ResourceID completion) (c_GenerationID completion)) = Some value /\
    DecodeResourceEnvelope value = Ok e.
Proof.
  unfold OpenResource. intros (x & w1 & Hx & E)%bind_inv_Ok. injection Hx as _ <-.
  apply bind_inv_Ok in E as (value & w2 & Hread & E). apply bind_inv_Ok in E as ([] & w3 & [_ ->]%guard_inv_Ok & E).
  apply bind_inv_Ok in E as (e & w4 & Hd%or_join_Ok & E). injection Hd as Hd <-.
  apply bind_inv_Ok in E as ([] & w5 & [_ ->]%guard_inv_Ok & E).
  apply bind_inv_Ok in E as (cipher & w6 & Hc & E). injection Hc as Hc <-. injection E as <- <-.
  split; [by eapply passive_readRemoteObject|]. apply readRemoteObject_Ok in Hread as [Hobj _]. by exists cipher, value, e.
Qed.

Lemma marker_key cipher config input fs build :
  built cipher config input fs build ->
  completion_key (b_Envelope build) = Key (ResourceCompletionKey (ResourceKind config) (ResourceID config) (GenerationID config)) /\
  envelope_key (b_Envelope build) = Key (ResourceEnvelopeKey (ResourceKind config) (ResourceID config) (GenerationID config)) /\
  c_ResourceKind (b_Completion build) = ResourceKind config /\ c_ResourceID (b_Completion build) = ResourceID config /\
  c_GenerationID (b_Completion build) = GenerationID config.
Proof.
  intros [_ _ _ _ (count & size & He) _ _ (before & _ & Hc)]. unfold completion_key, envelope_key. rewrite Hc, He. done.
Qed.

(** With its marker, the generation is there as the build made it. *)
Lemma marked_generation cipher config input fs build w out w' :
  HashText -> EnvelopeExact -> built cipher config input fs build ->
  PublishResource (Master config) build w = (out, w') ->
  objects w !! completion_key (b_Envelope build) = None -> is_Some (objects w' !! completion_key (b_Envelope build)) ->
  verified_generation (Master config) (b_Envelope build) (b_EnvelopeBytes build) (objects w').
Proof.
  intros Hhash Hexact Hb Hpub Hnone Hsome. destruct (publish_commit _ _ _ _ _ Hpub Hnone Hsome) as (o & Hver & Hsame).
  pose proof Hver as (Henv & decoded & c & Hd & Hc & Hall). pose proof (built_decoded _ _ _ _ _ _ Hhash Hexact Hb Hd) as ->.
  split; [rewrite Hsame by apply envelope_not_completion; done|]. eexists _, c. split_and!; try done.
  eapply Forall_impl; [exact Hall|]. intros x (sealed & q & Hx & Hq). exists sealed, q.
  by rewrite Hsame by apply chunk_not_completion.
Qed.

(** The marker of a successful publication is listed and opens. *)
Lemma published_opens cipher config input fs build w w' :
  HashText -> EnvelopeExact -> CompletionExact -> built cipher config input fs build ->
  b_CompletionBytes build = completion_Marshal (b_Completion build) ->
  PublishResource (Master config) build w = (Ok tt, w') ->
  verified_generation (Master config) (b_Envelope build) (b_EnvelopeBytes build) (objects w') -> healthy w' ->
  exists w1 r w2,
    readCompletions (ResourceKind config) (ResourceID config) [] [completion_key (b_Envelope build)] w' = (Ok [b_Completion build], w1) /\
    OpenResource (Master config) (b_Completion build) w1 = (Ok r, w2).
Proof.
  intros Hhash Hexact Hcexact Hb Hbytes Hpub Hver Hh. apply publish_marker in Hpub as (Hobj & Hlen & c & Hd).
  destruct (marker_key _ _ _ _ _ Hb) as (Hck & _ & Hkind & Hrid & Hgen).
  assert (validateResourceCompletion (b_Completion build) = Ok tt) as Hvalid.
  { destruct Hver as (_ & decoded & _ & He & _). pose proof (built_decoded _ _ _ _ _ _ Hhash Hexact Hb He) as ->.
    by eapply completion_valid. }
  assert (c = b_Completion build) as ->.
  { revert Hd. unfold DecodeResourceCompletion. destruct (_ || _); [done|]. rewrite Hbytes, (Hcexact _ Hvalid).
    intros (x & _ & [= <-])%rbind_ok. done. }
  destruct (readRemoteObject_healthy _ maximumCompletionSize w' _ Hh Hobj Hlen) as (w1 & Hread & Ho & Hh1).
  destruct (OpenResource_built cipher config input fs build w1 Hhash Hexact Hb) as (w2 & Hopen & _ & _); [by rewrite Ho|done|].
  eexists w1, _, w2. split; [|exact Hopen]. simpl. unfold bind, or_join, of_result, guard_M. rewrite Hread, Hd. simpl.
  rewrite Hkind, Hrid, Hgen, Hck, !bool_decide_eq_true_2 by done. done.
Qed.

(** C24. The completion marker commits a generation that can be restored from what is
    stored.  Whatever fails, answers too late or stores other bytes while a built
    generation is published for the first time: if the publication succeeds and the
    remote answers afterwards, reading the stored marker the way the listing does gives a
    completion with which the generation opens; and however the publication ended, if
    the listing returns a completion of this generation and the generation opens with it,
    then reading it with non-empty buffers of any sizes while the remote answers delivers exactly
    the bytes that were backed up and then ends.  Assumed are the documented laws of the
    AEAD, the hash and the JSON codecs, and that no stored object collides with a sealed
    file under SHA-256. *)
Theorem published_restorable (config : ResourceBuildConfig) (input : Input) (build : ResourceBuild)
    (wb wb' w w' : World) (out : result goerr unit) :
  AeadCorrect -> HashText -> NonceWhole -> EnvelopeExact -> CompletionExact ->
  BuildResource config input wb = (Ok build, wb') ->
  PublishResource (Master config) build w = (out, w') ->
  objects w !! completion_key (b_Envelope build) = None ->
  no_collision (files wb') (objects w') ->
  (out = Ok tt -> healthy w' -> exists c w1 r w2,
     readCompletions (ResourceKind config) (ResourceID config) [] [completion_key (b_Envelope build)] w' = (Ok [c], w1) /\
     OpenResource (Master config) c w1 = (Ok r, w2)) /\
  (forall gs w1 c r w2,
     ListResourceGenerations (ResourceKind config) (ResourceID config) w' = (Ok gs, w1) ->
     c ∈ gs -> c_GenerationID c = GenerationID config ->
     OpenResource (Master config) c w1 = (Ok r, w2) -> healthy w2 ->
     forall sizes, Forall (fun n => n <> O) sizes -> (length (concat (reads input)) < length sizes)%nat ->
       exists w3, read_with sizes r w2 = (concat (reads input), Some EOF, w3)).
Proof.
  intros Haead Hhash Hnonce Hexact Hcexact Hbuild Hpub Hnone Hcol. pose proof (BuildResource_marker _ _ _ _ _ Hbuild) as Hbytes.
  apply BuildResource_Ok in Hbuild as [cipher Hb]. destruct (marker_key _ _ _ _ _ Hb) as (Hck & Hek & _). split.
  - intros -> Hh. destruct (publish_marker _ _ _ _ Hpub) as (Hobj & _).
    destruct (published_opens cipher config input (files wb') build w w') as (w1 & r & w2 & Hc & Ho); try done;
      [eapply marked_generation; eauto|]. by exists (b_Completion build), w1, r, w2.
  - intros gs w1 c r w2 Hlist Hin Hgen Hopen Hh sizes Hsizes Hlen.
    destruct (listed_marker _ _ _ _ _ _ Hlist Hin) as (Hkind & Hrid & Hmark). rewrite Hgen, <- Hck in Hmark.
    pose proof (marked_generation _ _ _ _ _ _ _ _ Hhash Hexact Hb Hpub Hnone Hmark) as Hver.
    destruct (verified_stored _ _ _ _ _ _ Haead Hhash Hnonce Hexact Hb Hver Hcol) as (plain & Hplain & Hst).
    apply passive_ListResourceGenerations in Hlist.
    destruct (OpenResource_stored _ _ _ _ _ Hopen) as (Ho & cipher' & value & e & -> & Hc & Hv & Hd).
    rewrite Hkind, Hrid, Hgen, <- Hek, Hlist in Hv. pose proof Hver as (Henv & _). rewrite Henv in Hv. injection Hv as <-.
    pose proof (built_decoded _ _ _ _ _ _ Hhash Hexact Hb Hd) as ->.
    assert (cipher' = cipher) as -> by (rewrite Hrid, (bt_key _ _ _ _ _ Hb) in Hc; congruence).
    destruct (read_with_healthy cipher (b_Envelope build) plain sizes (mkReader cipher (b_Envelope build) 0 [] 0) w2) as [w3 Hread];
      [done|by rewrite Ho, Hlist|done|split_and!; simpl; done || lia| |].
    + unfold to_come. simpl. by rewrite drop_0, Hplain.
    + exists w3. rewrite Hread. unfold to_come. simpl. by rewrite drop_0, Hplain.
Qed.
End Marker.

(** ** A concrete instance *)

Module BackupDemo.
(** A stream that is its own ciphertext with a tag, and a hash of the length. *)
Definition demo_hash_digit (n : nat) : ascii := default "0"%char (String.get n "0123456789abcdef").
Definition demo_hash (b : bytes) : string :=
  String.string_of_list_ascii (replicate 63 "0"%char) +:+ String (demo_hash_digit (Nat.modulo (length b) 16)) "".
Definition demo_tag : bytes := replicate 16 "t"%char.
Definition demo_crypto : BackupCrypto := {|
  hkdf_Key := fun _ _ _ => Some [];
  aead_Seal := fun _ _ p _ => p ++ demo_tag;
  aead_Open := fun _ _ c _ => Some (take (length c - 16) c);
  sha256_hex_bytes := demo_hash
|}.
Definition demo_disk : Disk := {|
  disk_fault := fun _ => Fine; disk_written := fun _ => O; random_nonce := fun _ => Ok (replicate 24 "n"%char)
|}.

(** The envelope as lists of numbers, and those as digits. *)
Definition codes (s : string) : list Z := byte_value <$> text s.
Definition of_codes (l : list Z) : string := String.string_of_list_ascii ((fun z => ascii_of_N (Z.to_N z)) <$> l).
Fixpoint digits_of (p : positive) : bytes :=
  match p with xH => ["!"%char] | xO p => "0"%char :: digits_of p | xI p => "1"%char :: digits_of p end.
Fixpoint of_digits (b : bytes) : positive :=
  match b with
  | c :: rest => if Ascii.eqb c "0" then xO (of_digits rest) else if Ascii.eqb c "1" then xI (of_digits rest) else xH
  | [] => xH
  end.
Definition chunk_numbers (c : Chunk) : list Z := Index c :: PlaintextSize c :: CiphertextSize c :: codes (CiphertextSHA c).
Definition of_chunk_numbers (l : list Z) : option Chunk :=
  match l with i :: p :: c :: sha => Some (mkChunk i p c (of_codes sha)) | _ => None end.
Definition envelope_numbers (e : ResourceEnvelope) : list (list Z) :=
  [e_FormatVersion e; e_CreatedAtMillis e; e_PlaintextSize e; e_AttachmentCount e; e_AttachmentSize e]
  :: codes (e_ResourceKind e) :: codes (e_ResourceID e) :: codes (e_GenerationID e) :: codes (e_AttachmentRoot e)
  :: (chunk_numbers <$> e_Chunks e).
Definition of_envelope_numbers (l : list (list Z)) : option ResourceEnvelope :=
  match l with
  | [v; t; p; n; a] :: kind :: rid :: g :: root :: rest =>
      cs ← mapM of_chunk_numbers rest;
      Some (mkEnvelope v (of_codes kind) (of_codes rid) (of_codes g) t p cs n a (of_codes root))
  | _ => None
  end.
Definition completion_numbers (c : ResourceCompletion) : list (list Z) :=
  [[c_FormatVersion c; c_PlaintextSize c; c_RemoteSize c; c_CompletedAtMillis c];
   codes (c_ResourceKind c); codes (c_ResourceID c); codes (c_GenerationID c); codes (c_EnvelopeSHA256 c)].
Definition of_completion_numbers (l : list (list Z)) : option ResourceCompletion :=
  match l with
  | [[v; p; r; t]; kind; rid; g; sha] =>
      Some (mkCompletion v (of_codes kind) (of_codes rid) (of_codes g) (of_codes sha) p r t)
  | _ => None
  end.
Definition demo_codec : BackupCodec := {|
  envelope_Marshal := fun e => digits_of (encode (envelope_numbers e));
  envelope_Decode := fun b => decode (of_digits b) ≫= of_envelope_numbers;
  completion_Marshal := fun c => digits_of (encode (completion_numbers c));
  completion_Decode := fun b => decode (of_digits b) ≫= of_completion_numbers
|}.
(** Everything answers; the answer to request [lost] does not arrive. *)
Definition demo_remote (lost : nat) : Remote := {|
  remote_prefix := "host";
  remote_fault := fun n => if Nat.eqb n lost then RLost else RFine;
  list_pages := fun _ l => [l]
|}.
#[local] Existing Instances demo_crypto demo_disk demo_codec.

Lemma of_codes_codes s : of_codes (codes s) = s.
Proof.
  unfold of_codes, codes, text. induction s as [|c s IH]; [done|]. simpl. f_equal; [|exact IH].
  unfold byte_value. by rewrite N2Z.id, ascii_N_embedding.
Qed.
Lemma digits_roundtrip p : of_digits (digits_of p) = p.
Proof. induction p; simpl; congruence. Qed.
Lemma demo_exact : EnvelopeExact.
Proof.
  intros e _. simpl. rewrite digits_roundtrip, decode_encode. simpl.
  assert (mapM of_chunk_numbers (chunk_numbers <$> e_Chunks e) = Some (e_Chunks e)) as ->.
  { induction (e_Chunks e) as [|c cs IH]; [done|]. rewrite fmap_cons. simpl. rewrite IH, of_codes_codes. by destruct c. }
  simpl. rewrite !of_codes_codes. by destruct e.
Qed.
Lemma demo_completion_exact : CompletionExact.
Proof. intros c _. simpl. rewrite digits_roundtrip, decode_encode. simpl. rewrite !of_codes_codes. by destruct c. Qed.
Lemma demo_aead : AeadCorrect.
Proof.
  intros k n p ad. assert (Htag : length demo_tag = 16%nat) by done. simpl. unfold blen, Cryptobox.Overhead.
  rewrite length_app, Htag, Nat.add_sub, take_app_length. split; [done|lia].
Qed.
Lemma demo_hash_text : HashText.
Proof.
  intros b. simpl. unfold demo_hash. pose proof (Nat.mod_upper_bound (length b) 16 ltac:(lia)) as Hb.
  revert Hb. generalize (length b mod 16)%nat. intros n Hn.
  do 16 (destruct n as [|n]; [by vm_compute|]). lia.
Qed.
Lemma demo_nonce : NonceWhole.
Proof. by intros k nonce [= <-]. Qed.

Definition demo_config : ResourceBuildConfig :=
  mkBuildConfig [] "postgres" "db1" "gen1" "/work" (unix_epoch + 1000000000000) [].
Definition demo_input : Input := mkInput [text "hello "; []; text "backup"] None.
Definition demo_start : World := mkWorld (mkFiles ∅ 0) ∅ 0.
Definition demo_built : result goerr ResourceBuild * World := BuildResource demo_config demo_input demo_start.
Definition demo_build : ResourceBuild :=
  match demo_built.1 with
  | Ok b => b
  | Err _ => mkBuild (mkEnvelope 0 "" "" "" 0 0 [] 0 0 "") [] (mkCompletion 0 "" "" "" "" 0 0 0) [] [] [] ""
  end.
(** The marker is stored, but its answer is lost. *)
#[local] Instance demo_lossy : Remote := demo_remote 4.
Definition demo_published : result goerr unit * World := PublishResource [] demo_build demo_built.2.

Lemma demo_build_ok : demo_built = (Ok demo_build, demo_built.2).
Proof.
  assert (Hok : is_ok demo_built.1 = true) by (by vm_compute).
  unfold demo_build. by destruct demo_built as [[b|e] w].
Qed.

Lemma demo_published_facts :
  demo_published.1 = Err remote_error /\
  objects demo_built.2 !! completion_key (b_Envelope demo_build) = None /\
  is_Some (objects demo_published.2 !! completion_key (b_Envelope demo_build)) /\
  distinct_hashes (files demo_built.2) (objects demo_published.2) = true.
Proof. split_and!; [by vm_compute..| |by vm_compute].
  assert (Hb : bool_decide (is_Some (objects demo_published.2 !! completion_key (b_Envelope demo_build))) = true) by (by vm_compute).
  by apply bool_decide_eq_true in Hb.
Qed.

(** The marker was stored although its publication failed; the listing finds it and the
    generation is restored from it. *)
Lemma published_restorable_witness :
  exists gs w1 c r w2 w3, ListResourceGenerations "postgres" "db1" demo_published.2 = (Ok gs, w1) /\ c ∈ gs /\
    OpenResource (Master demo_config) c w1 = (Ok r, w2) /\
    read_with (replicate 13 5%nat) r w2 = (text "hello backup", Some EOF, w3).
Proof.
  destruct demo_published_facts as (Hout & Hnone & Hsome & Hdistinct).
  destruct (published_restorable demo_config demo_input demo_build demo_start demo_built.2 demo_built.2 demo_published.2
    demo_published.1 demo_aead demo_hash_text demo_nonce demo_exact demo_completion_exact demo_build_ok
    (surjective_pairing _) Hnone (distinct_hashes_ok _ _ Hdistinct)) as [_ Hread].
  destruct (ListResourceGenerations "postgres" "db1" demo_published.2) as [[gs|e] w1] eqn:Hlist.
  2: { exfalso. assert (Hok : is_ok (ListResourceGenerations "postgres" "db1" demo_published.2).1 = true) by (by vm_compute).
       by rewrite Hlist in Hok. }
  assert (Hrun : (let '(res, w1) := ListResourceGenerations "postgres" "db1" demo_published.2 in
    match res with
    | Ok [c] => bool_decide (c_GenerationID c = "gen1") && is_ok (OpenResource (Master demo_config) c w1).1
    | _ => false end) = true) by (by vm_compute).
  rewrite Hlist in Hrun. destruct gs as [|c [|]]; [discriminate Hrun| |discriminate Hrun]. apply andb_true_iff in Hrun as [Hgen%bool_decide_eq_true Hok].
  destruct (OpenResource (Master demo_config) c w1) as [[r|e] w2] eqn:Hopen; [|discriminate Hok].
  destruct (Hread [c] w1 c r w2 Hlist (list_elem_of_here c []) Hgen Hopen) with (sizes := replicate 13 5%nat) as [w3 Hw3];
    [intros n _; simpl; destruct (Nat.eqb n 4); discriminate|by apply Forall_replicate|apply Nat.ltb_lt; vm_compute; reflexivity|].
  exists [c], w1, c, r, w2, w3. split_and!; [reflexivity|apply list_elem_of_here|exact Hopen|exact Hw3].
Defined.

(** The same run seen from the restore: what was read is authentic. *)
Lemma restored_data_authentic_witness :
  exists r w1 w2, OpenResource [] (b_Completion demo_build) demo_published.2 = (Ok r, w1) /\
    read_with (replicate 13 5%nat) r w1 = (text "hello backup", Some EOF, w2) /\
    blen (text "hello backup") = c_PlaintextSize (b_Completion demo_build).
Proof.
  destruct (OpenResource [] (b_Completion demo_build) demo_published.2) as [[r|e] w1] eqn:Hopen.
  2: { exfalso. assert (Hok : is_ok (OpenResource [] (b_Completion demo_build) demo_published.2).1 = true) by (by vm_compute).
       by rewrite Hopen in Hok. }
  destruct (read_with (replicate 13 5%nat) r w1) as [[d err] w2] eqn:Hread.
  assert (Hrun : (let '(res, w1) := OpenResource [] (b_Completion demo_build) demo_published.2 in
    match res with Ok r => (read_with (replicate 13 5%nat) r w1).1 | Err _ => ([], None) end) = (text "hello backup", Some EOF))
    by (by vm_compute).
  rewrite Hopen, Hread in Hrun. simpl in Hrun. injection Hrun as -> ->.
  exists r, w1, w2. split; [done|]. split; [exact Hread|].
  exact (proj1 (restored_data_authentic [] (b_Completion demo_build) (replicate 13 5%nat) r (text "hello backup") _ w1 w2 Hopen Hread)).
Defined.

Lemma demo_pages : PagesExact.
Proof. intros n l. simpl. apply app_nil_r. Qed.


Definition demo_cipher : ResourceCipher := mkCipher "db1" (Cryptobox.mkBox []).
Definition demo_nonce_bytes : bytes := replicate 24 "n"%char.
Definition demo_sealed : bytes := Cryptobox.format ++ demo_nonce_bytes ++ text "hello" ++ demo_tag.
Definition demo_chunk : Chunk := mkChunk 3 5 49 (demo_hash demo_sealed).
Lemma chunk_identity_bound_witness :
  OpenChunk demo_cipher "gen1" demo_chunk demo_sealed = Ok (text "hello") /\
  (("gen1" = "gen1" /\ Index demo_chunk = 3 /\ text "hello" = text "hello")
   \/ exists ad', ad' <> chunkAdditionalData "db1" "gen1" 3 (blen (text "hello")) /\
        aead_Open [] demo_nonce_bytes (aead_Seal [] demo_nonce_bytes (text "hello")
          (chunkAdditionalData "db1" "gen1" 3 (blen (text "hello")))) ad' = Some (text "hello")).
Proof.
  assert (Hopen : OpenChunk demo_cipher "gen1" demo_chunk demo_sealed = Ok (text "hello")) by (by vm_compute).
  split; [exact Hopen|].
  exact (chunk_identity_bound demo_cipher "gen1" "gen1" 3 (text "hello") (text "hello") demo_nonce_bytes demo_sealed
    demo_chunk demo_chunk demo_aead eq_refl eq_refl eq_refl eq_refl eq_refl eq_refl eq_refl Hopen).
Defined.
End BackupDemo.
