(* ===== verification/BackupWorker.v ===== *)
(** * Backup worker: internal/backup/dirty.go, scheduler.go and worker.go

    One goroutine runs all backups, one at a time: manual requests first, then the
    candidate that has been due longest.  Changes of the control database are
    remembered by the dirty tracker until a control backup covers them.  [Worker] is
    what the goroutines share, [Sys] adds their positions and [step] interleaves
    them; a lock section or a channel operation is one step.  What the store, the
    runners and the clock answer are arguments of the rules. *)

From S2P Require Import Prelude Civil Cron Runtime.

Definition defaultWorkerRetryDelay : Z := 5 * second.

(** ** dirty.go *)

(** [tracker_wake] is a channel of capacity one. *)
Record DirtyTracker := mkTracker { dirty : bool; since : Z; tracker_wake : bool }.
Definition NewDirtyTracker : DirtyTracker := mkTracker false time_zero false.

(** The part of [Mark] and [Retry] under the mutex. *)
Definition remember (at_ : Z) (tracker : DirtyTracker) : DirtyTracker :=
  if dirty tracker then tracker else mkTracker true at_ (tracker_wake tracker).
Definition signal (tracker : DirtyTracker) : DirtyTracker := mkTracker (dirty tracker) (since tracker) true.
Definition Mark (at_ : Z) (tracker : DirtyTracker) : DirtyTracker :=
  if is_zero at_ then tracker else signal (remember at_ tracker).
Definition Retry (since_ : Z) (tracker : DirtyTracker) : DirtyTracker :=
  if is_zero since_ then tracker else signal (remember since_ tracker).
Definition Take (tracker : DirtyTracker) : option Z * DirtyTracker :=
  if dirty tracker then (Some (since tracker), mkTracker false time_zero (tracker_wake tracker)) else (None, tracker).
Definition Peek (tracker : DirtyTracker) : Z * bool := (since tracker, dirty tracker).
Definition take_signal (tracker : DirtyTracker) : DirtyTracker := mkTracker (dirty tracker) (since tracker) false.

(** ** scheduler.go *)

Record BackupPolicy := mkPolicy {
  bp_ResourceKind : string; bp_ResourceID : string; bp_TargetID : string; bp_Enabled : bool;
  bp_Cron : string; bp_RetentionCount : Z
}.
(** The answers of the schedule store during one selection. *)
Record ScheduleStore := mkScheduleStore {
  BackupPolicies : result goerr (list BackupPolicy);
  ScheduledBackupExists : string -> string -> Z -> result goerr bool
}.
Record DueCandidate := mkCandidate {
  dc_ResourceKind : string; dc_ResourceID : string; dc_TargetID : string; DueAt : Z;
  ScheduledOccurrenceMillis : option Z; dc_RetentionCount : Z
}.
Definition control_candidate (dirtySince : Z) : DueCandidate := mkCandidate "control" "" "" dirtySince None 0.

(** One turn of the loop over the policies; a search that has no occurrence is an
    error, and [Cron] shows that it neither panics nor runs out of fuel. *)
Definition policyCandidate (store : ScheduleStore) (startedAt now : Z) (policy : BackupPolicy) : result goerr (option DueCandidate) :=
  if negb (bp_Enabled policy) then Ok None
  else
    let? schedule := Parse (bp_Cron policy) in
    match Previous schedule (TruncateMinute now + minute) with
    | Occurs latest =>
        if latest <=? startedAt then Ok None
        else
          let occurrence := UnixMilli latest in
          let? exists_ := ScheduledBackupExists store (bp_ResourceKind policy) (bp_ResourceID policy) occurrence in
          if exists_ then Ok None
          else Ok (Some (mkCandidate (bp_ResourceKind policy) (bp_ResourceID policy) (bp_TargetID policy) latest
                           (Some occurrence) (bp_RetentionCount policy)))
    | _ => Err (Msg "backup schedule has no occurrence")
    end.
Fixpoint policyCandidates (store : ScheduleStore) (startedAt now : Z) (policies : list BackupPolicy) : result goerr (list DueCandidate) :=
  match policies with
  | [] => Ok []
  | policy :: policies =>
      let? c := policyCandidate store startedAt now policy in
      let? more := policyCandidates store startedAt now policies in
      Ok (match c with Some c => c :: more | None => more end)
  end.

(** The order of [sort.Slice]: due time, kind, ID. *)
Definition due_key (c : DueCandidate) : Z * (string * string) := (DueAt c, (dc_ResourceKind c, dc_ResourceID c)).
Definition due_le (a b : DueCandidate) : Prop :=
  DueAt a < DueAt b \/
  (DueAt a = DueAt b /\ (dc_ResourceKind a <> dc_ResourceKind b /\ String.le (dc_ResourceKind a) (dc_ResourceKind b) \/
                         dc_ResourceKind a = dc_ResourceKind b /\ String.le (dc_ResourceID a) (dc_ResourceID b))).
#[global] Instance due_le_dec : RelDecision due_le.
Proof. intros a b. unfold due_le. apply _. Defined.

Definition SelectDueCandidate (store : ScheduleStore) (dirtySince : Z) (dirty : bool) (startedAt now : Z)
    : result goerr (option DueCandidate) :=
  if is_zero startedAt || is_zero now || (now <? startedAt) || (dirty && is_zero dirtySince)
  then Err (Msg "backup due-candidate input is invalid")
  else
    let? policies := BackupPolicies store in
    let? due := policyCandidates store startedAt now policies in
    Ok (head (merge_sort due_le (if dirty then control_candidate dirtySince :: due else due))).

(** ** worker.go *)

Record WorkerConfig := mkWorkerConfig {
  wc_scheduled : bool;   (* Store and Resources are configured *)
  wc_StartedAt : Z;
  wc_RetryDelay : Z
}.
(** [newWorker] for a worker with its dependencies. *)
Definition newWorker (config : WorkerConfig) : result goerr WorkerConfig :=
  if wc_RetryDelay config <? 0 then Err (Msg "backup worker configuration is incomplete")
  else Ok (mkWorkerConfig (wc_scheduled config) (wc_StartedAt config)
             (if wc_RetryDelay config =? 0 then defaultWorkerRetryDelay else wc_RetryDelay config)).
Definition NewScheduledWorker (config : WorkerConfig) : result goerr WorkerConfig :=
  if negb (wc_scheduled config) || is_zero (wc_StartedAt config)
  then Err (Msg "scheduled backup worker dependencies are incomplete") else newWorker config.

(** A request is known by the number of the call that made it, which stands for
    its channel [started]. *)
Record manualRequest := mkRequest {
  mr_call : nat; mr_resourceKind : string; mr_resourceID : string; mr_targetID : string; mr_retentionCount : Z
}.
Inductive manualStartResult := StartedRecord (id : string) | StartFailed (id : string) (e : goerr).

(** What the goroutines share; [manual] and [manualWake] are channels of capacity
    one, [started] holds what was sent on the channels of the requests. *)
Record Worker := mkWorker {
  busy : bool;
  manual : list manualRequest;
  manualWake : bool;
  started : gmap nat (list manualStartResult);
  tracker : DirtyTracker
}.
Definition New : Worker := mkWorker false [] false ∅ NewDirtyTracker.
Definition set_busy b w := mkWorker b (manual w) (manualWake w) (started w) (tracker w).
Definition set_manual q w := mkWorker (busy w) q (manualWake w) (started w) (tracker w).
Definition set_manualWake b w := mkWorker (busy w) (manual w) b (started w) (tracker w).
Definition set_tracker t w := mkWorker (busy w) (manual w) (manualWake w) (started w) t.
Definition answer (call : nat) (r : manualStartResult) (w : Worker) : Worker :=
  mkWorker (busy w) (manual w) (manualWake w) (<[call := default [] (started w !! call) ++ [r]]> (started w)) (tracker w).

Definition tryBeginScheduled (w : Worker) : bool * Worker := if busy w then (false, w) else (true, set_busy true w).
Definition finishBusy (w : Worker) : Worker := set_busy false w.
Definition signalManual (w : Worker) : Worker := set_manualWake true w.

(** [nextCandidate], with the answer of [Peek]. *)
Definition nextCandidate (config : WorkerConfig) (store : ScheduleStore) (now dirtySince : Z) (dirty : bool)
    : result goerr (option DueCandidate) :=
  if wc_scheduled config then SelectDueCandidate store dirtySince dirty (wc_StartedAt config) now
  else Ok (if dirty then Some (control_candidate dirtySince) else None).

Definition nextMinuteDelay (now : Z) : Z :=
  let delay := TruncateMinute now + minute - now in if delay <=? 0 then minute else delay.

(** What the runners answer, as far as the worker looks at it. *)
Inductive ControlOutcome := ControlDone | ControlTargetMissing | ControlPublished (e : goerr) | ControlFailed (e : goerr).
Inductive ResourceOutcome := ResourceDone | ResourceFailed (recorded : bool) (e : goerr).

(** After [RunControl]: whether the change is to be tried again. *)
Definition control_retries (o : ControlOutcome) : bool := match o with ControlFailed _ => true | _ => false end.

(** Positions of [Run]. *)
Inductive Pos :=
| Top
| Selecting (dirtySince : Z) (dirty : bool)
| Waiting                                   (* no candidate *)
| Delaying                                  (* nextCandidate failed *)
| Beginning (c : DueCandidate)
| Taking
| RunningControl (since : Z)
| Retrying (since : Z)                      (* about to call Retry *)
| RetryWait                                 (* waitRetry *)
| RunningResource (c : DueCandidate)
| ResourceWait                              (* a run without a record *)
| RunningManual (request : manualRequest) (started : bool)
| Finishing                                 (* about to call finishBusy *)
| FinishingReturn                           (* the same, then return *)
| Returned.

(** Positions of [TryRunNow] after it took the busy flag. *)
Inductive CallPos := Sending (request : manualRequest) | Signalling | Awaiting | Answered (r : manualStartResult) | Abandoned | Refused.

(** [signals] counts the calls of [Mark] that have left the mutex and not yet
    signalled.  [marks] counts the changes marked, [taken] how many of them the
    latest control run covers, and [runs] is the control runs that ended, each with
    what it answered and how many changes had been marked when it began; the code
    keeps none of the three. *)
Record Sys := mkSys {
  worker : Worker;
  pos : Pos;
  calls : gmap nat CallPos;
  signals : nat;
  marks : nat;
  taken : nat;
  runs : list (nat * ControlOutcome)
}.
Definition initial : Sys := mkSys New Top ∅ 0 0 0 [].
Definition at_pos (p : Pos) (w : Worker) (s : Sys) : Sys := mkSys w p (calls s) (signals s) (marks s) (taken s) (runs s).
Definition at_call (n : nat) (c : CallPos) (w : Worker) (s : Sys) : Sys :=
  mkSys w (pos s) (<[n := c]> (calls s)) (signals s) (marks s) (taken s) (runs s).
Definition count_taken (s : Sys) : Sys := mkSys (worker s) (pos s) (calls s) (signals s) (marks s) (marks s) (runs s).
Definition count_run (o : ControlOutcome) (s : Sys) : Sys :=
  mkSys (worker s) (pos s) (calls s) (signals s) (marks s) (taken s) (runs s ++ [(taken s, o)]).

(** Where [wait] may come back: the timer, one of the two wake-ups, which is then
    consumed, or the context. *)
Inductive woken (w : Worker) : bool -> Worker -> Prop :=
| woken_timer : woken w true w
| woken_dirty : tracker_wake (tracker w) = true -> woken w true (set_tracker (take_signal (tracker w)) w)
| woken_manual : manualWake w = true -> woken w true (set_manualWake false w)
| woken_context : woken w false w.

(** One step of [Run]. *)
Inductive run_step (config : WorkerConfig) (s : Sys) : Sys -> Prop :=
| run_manual request rest : pos s = Top -> manual (worker s) = request :: rest ->
    run_step config s (at_pos (RunningManual request false) (set_manual rest (worker s)) s)
| run_default : pos s = Top -> manual (worker s) = [] ->
    run_step config s (at_pos (uncurry Selecting (Peek (tracker (worker s)))) (worker s) s)
| run_select dirtySince d store now : pos s = Selecting dirtySince d ->
    run_step config s (at_pos (match nextCandidate config store now dirtySince d with
                               | Err _ => Delaying
                               | Ok None => Waiting
                               | Ok (Some c) => Beginning c
                               end) (worker s) s)
| run_wait go w' : pos s = Waiting \/ pos s = Delaying -> woken (worker s) go w' ->
    run_step config s (at_pos (if go then Top else Returned) w' s)
| run_begin c : pos s = Beginning c ->
    run_step config s (let '(begun, w') := tryBeginScheduled (worker s) in
                       at_pos (if begun then if bool_decide (dc_ResourceKind c = "control") then Taking else RunningResource c
                               else Top) w' s)
| run_take : pos s = Taking ->
    run_step config s (match Take (tracker (worker s)) with
                       | (None, t) => at_pos Finishing (set_tracker t (worker s)) s
                       | (Some since_, t) => count_taken (at_pos (RunningControl since_) (set_tracker t (worker s)) s)
                       end)
| run_control since_ outcome : pos s = RunningControl since_ ->
    run_step config s (count_run outcome (at_pos (if control_retries outcome then Retrying since_ else Finishing) (worker s) s))
| run_retry since_ : pos s = Retrying since_ ->
    run_step config s (at_pos RetryWait (set_tracker (Retry since_ (tracker (worker s))) (worker s)) s)
| run_retried (go : bool) : pos s = RetryWait ->
    run_step config s (at_pos (if go then Finishing else FinishingReturn) (worker s) s)
| run_resource c outcome : pos s = RunningResource c ->
    run_step config s (at_pos (match outcome with ResourceFailed false _ => ResourceWait | _ => Finishing end) (worker s) s)
| run_resource_wait go w' : pos s = ResourceWait -> woken (worker s) go w' ->
    run_step config s (at_pos (if go then Finishing else FinishingReturn) w' s)
| run_manual_started request id : pos s = RunningManual request false ->
    run_step config s (at_pos (RunningManual request true) (answer (mr_call request) (StartedRecord id) (worker s)) s)
| run_manual_end request b r : pos s = RunningManual request b ->
    run_step config s (at_pos Finishing (if b then worker s else answer (mr_call request) r (worker s)) s)
| run_finish : pos s = Finishing -> run_step config s (at_pos Top (finishBusy (worker s)) s)
| run_finish_return : pos s = FinishingReturn -> run_step config s (at_pos Returned (finishBusy (worker s)) s).

(** One step of a call of [TryRunNow]. *)
Inductive call_step (s : Sys) : Sys -> Prop :=
| call_refused n : calls s !! n = None -> busy (worker s) = true -> call_step s (at_call n Refused (worker s) s)
| call_accepted n kind id target retention : calls s !! n = None -> busy (worker s) = false ->
    call_step s (at_call n (Sending (mkRequest n kind id target retention)) (set_busy true (worker s)) s)
| call_send n request : calls s !! n = Some (Sending request) -> manual (worker s) = [] ->
    call_step s (at_call n Signalling (set_manual [request] (worker s)) s)
| call_signal n : calls s !! n = Some Signalling -> call_step s (at_call n Awaiting (signalManual (worker s)) s)
| call_answered n r rest : calls s !! n = Some Awaiting -> started (worker s) !! n = Some (r :: rest) ->
    call_step s (at_call n (Answered r)
      (mkWorker (busy (worker s)) (manual (worker s)) (manualWake (worker s)) (<[n := rest]> (started (worker s))) (tracker (worker s))) s)
| call_abandoned n : calls s !! n = Some Awaiting -> call_step s (at_call n Abandoned (worker s) s).

(** The two halves of a call of [Mark]. *)
Inductive mark_step (s : Sys) : Sys -> Prop :=
| mark_remember at_ : is_zero at_ = false ->
    mark_step s (mkSys (set_tracker (remember at_ (tracker (worker s))) (worker s)) (pos s) (calls s) (S (signals s))
                       (S (marks s)) (taken s) (runs s))
| mark_signal n : signals s = S n ->
    mark_step s (mkSys (set_tracker (signal (tracker (worker s))) (worker s)) (pos s) (calls s) n (marks s) (taken s) (runs s)).

Definition step (config : WorkerConfig) (s s' : Sys) : Prop := run_step config s s' \/ call_step s s' \/ mark_step s s'.
Definition reachable (config : WorkerConfig) : Sys -> Prop := rtc (step config) initial.

(** ** Selection *)

#[export] Instance due_le_total : Total due_le.
Proof.
  intros a b. unfold due_le. destruct (Ztrichotomy (DueAt a) (DueAt b)) as [|[E|]]; [tauto| |right; left; lia].
  rewrite E. destruct (decide (dc_ResourceKind a = dc_ResourceKind b)) as [Ek|Nk].
  - destruct (total String.le (dc_ResourceID a) (dc_ResourceID b)); rewrite Ek; tauto.
  - destruct (total String.le (dc_ResourceKind a) (dc_ResourceKind b)); [left|right]; right; auto.
Qed.
#[export] Instance due_le_trans : Transitive due_le.
Proof.
  intros a b c [Hab|(Eab & Hab)] [Hbc|(Ebc & Hbc)]; unfold due_le; [left; lia|left; lia|left; lia|].
  right. split; [congruence|]. destruct Hab as [[Nab Hab]|[Kab Hab]], Hbc as [[Nbc Hbc]|[Kbc Hbc]].
  - left. split; [|by transitivity (dc_ResourceKind b)]. intros Eac. rewrite <- Eac in Hbc.
    apply Nab. by apply (anti_symm String.le).
  - left. rewrite <- Kbc. done.
  - left. rewrite Kab. done.
  - right. split; [congruence|by transitivity (dc_ResourceID b)].
Qed.

Lemma head_sorted_least l c :
  head (merge_sort due_le l) = Some c -> c ∈ l /\ forall d, d ∈ l -> d = c \/ due_le c d.
Proof.
  pose proof (StronglySorted_merge_sort due_le l) as Hs. pose proof (merge_sort_Permutation due_le l) as Hp.
  destruct (merge_sort due_le l) as [|x xs]; [done|]. simpl. intros [= ->].
  apply StronglySorted_inv in Hs as [_ Hall]. split; [rewrite <- Hp; set_solver|]. intros d Hd.
  rewrite <- Hp in Hd. apply elem_of_cons in Hd as [->|Hd]; [by left|right].
  by apply (proj1 (Forall_forall _ _) Hall).
Qed.

Lemma head_sorted_none l : head (merge_sort due_le l) = None -> l = [].
Proof.
  pose proof (merge_sort_Permutation due_le l) as Hp. destruct (merge_sort due_le l); [|done].
  intros _. by apply Permutation_nil.
Qed.

(** A policy is due when it is enabled, its latest occurrence up to the current
    minute came after the start and no backup of that occurrence exists. *)
Definition due (store : ScheduleStore) (startedAt now : Z) (policy : BackupPolicy) (c : DueCandidate) : Prop :=
  bp_Enabled policy = true /\
  exists schedule, Parse (bp_Cron policy) = Ok schedule /\
    Matches schedule (DueAt c) = true /\ startedAt < DueAt c < TruncateMinute now + minute /\
    (forall u, DueAt c < u < TruncateMinute now + minute -> Matches schedule u = false) /\
    ScheduledBackupExists store (bp_ResourceKind policy) (bp_ResourceID policy) (UnixMilli (DueAt c)) = Ok false /\
    c = mkCandidate (bp_ResourceKind policy) (bp_ResourceID policy) (bp_TargetID policy) (DueAt c)
          (Some (UnixMilli (DueAt c))) (bp_RetentionCount policy).

Lemma policyCandidate_due store startedAt now policy r :
  policyCandidate store startedAt now policy = Ok r -> forall c, r = Some c <-> due store startedAt now policy c.
Proof.
  unfold policyCandidate, due. destruct (bp_Enabled policy); simpl; [|intros [= <-] c; split; [done|by intros []]].
  destruct (Parse (bp_Cron policy)) as [schedule|e] eqn:Ep; simpl; [|done].
  pose proof (Previous_greatest _ _ (TruncateMinute now + minute) Ep) as Hprev.
  destruct (Previous schedule _) as [t| | |]; [|done|done|done]. destruct Hprev as ([_ Ht] & Hm & Hlast).
  assert (forall c, Matches schedule (DueAt c) = true -> DueAt c < TruncateMinute now + minute ->
            (forall u, DueAt c < u < TruncateMinute now + minute -> Matches schedule u = false) -> DueAt c = t) as Huniq.
  { intros c Hc Hlt Hl. destruct (Ztrichotomy (DueAt c) t) as [Hx|[Hx|Hx]]; [|done|].
    - by rewrite Hl in Hm by lia.
    - by rewrite Hlast in Hc by lia. }
  destruct (Z.leb_spec t startedAt) as [Hle|Hlt]; [|destruct (ScheduledBackupExists _ _ _ _) as [[]|e] eqn:Ex]; simpl; [| | |done];
    intros [= <-] c; (split; [try done|intros (_ & ? & [= <-] & Hc & Hb & Hl & He & Hce)]).
  - rewrite (Huniq c Hc (proj2 Hb) Hl) in Hb. lia.
  - rewrite (Huniq c Hc (proj2 Hb) Hl) in He. congruence.
  - intros [= <-]. simpl. eauto 10.
  - rewrite Hce, (Huniq c Hc (proj2 Hb) Hl). done.
Qed.

Lemma policyCandidates_due store startedAt now policies l :
  policyCandidates store startedAt now policies = Ok l ->
  forall c, c ∈ l <-> exists policy, policy ∈ policies /\ due store startedAt now policy c.
Proof.
  revert l. induction policies as [|policy policies IH]; intros l; simpl; [intros [= <-]; set_solver|].
  destruct (policyCandidate store startedAt now policy) as [r|e] eqn:E1; simpl; [|done].
  destruct (policyCandidates store startedAt now policies) as [more|e] eqn:E2; simpl; [|done].
  intros [= <-] c. pose proof (policyCandidate_due _ _ _ _ _ E1 c) as H1. pose proof (IH more eq_refl c) as H2.
  transitivity (r = Some c \/ c ∈ more); [destruct r; set_solver|]. rewrite H1, H2. set_solver.
Qed.

(** What may run: the control backup when something changed, and the policies due. *)
Definition may_run (store : ScheduleStore) (policies : list BackupPolicy) (dirtySince : Z) (dirty : bool) (startedAt now : Z)
    (c : DueCandidate) : Prop :=
  (dirty = true /\ c = control_candidate dirtySince) \/
  exists policy, policy ∈ policies /\ due store startedAt now policy c.

Lemma SelectDueCandidate_spec store policies dirtySince dirty startedAt now r :
  SelectDueCandidate store dirtySince dirty startedAt now = Ok r -> BackupPolicies store = Ok policies ->
  match r with
  | Some c => may_run store policies dirtySince dirty startedAt now c /\
              forall d, may_run store policies dirtySince dirty startedAt now d -> d = c \/ due_le c d
  | None => forall d, ~ may_run store policies dirtySince dirty startedAt now d
  end.
Proof.
  unfold SelectDueCandidate. destruct (_ || _ || _ || _); [done|]. intros Hr Hpol. rewrite Hpol in Hr. simpl in Hr.
  destruct (policyCandidates _ _ _ policies) as [l|e] eqn:E; [|done]. simpl in Hr. injection Hr as <-.
  pose proof (policyCandidates_due _ _ _ _ _ E) as Hl. set (cs := if dirty then control_candidate dirtySince :: l else l).
  assert (forall c, may_run store policies dirtySince dirty startedAt now c <-> c ∈ cs) as Hcs.
  { intros c. unfold may_run. rewrite <- (Hl c). unfold cs. destruct dirty; set_solver. }
  destruct (head (merge_sort due_le cs)) as [c|] eqn:Eh.
  - destruct (head_sorted_least _ _ Eh) as [Hin Hle]. split; [by apply Hcs|]. intros d Hd%Hcs. by apply Hle.
  - apply head_sorted_none in Eh. intros d Hd%Hcs. rewrite Eh in Hd. set_solver.
Qed.

(** A change is never overlooked by a selection that succeeds. *)
Lemma nextCandidate_dirty config store now dirtySince :
  nextCandidate config store now dirtySince true <> Ok None.
Proof.
  unfold nextCandidate. destruct (wc_scheduled config); [|done]. intros Hsel. pose proof Hsel as Hsel'.
  unfold SelectDueCandidate in Hsel'. destruct (_ || _ || _ || _); [done|].
  destruct (BackupPolicies store) as [policies|] eqn:Hpol; [|done].
  pose proof (SelectDueCandidate_spec _ _ _ _ _ _ _ Hsel Hpol) as Hnone. eapply Hnone. left. done.
Qed.

(** ** Invariants *)

Section Invariants.
Context (config : WorkerConfig).

(** The part of [Run] between taking the busy flag and giving it back. *)
Definition in_run (p : Pos) : bool :=
  match p with
  | Taking | RunningControl _ | Retrying _ | RetryWait | RunningResource _ | ResourceWait
  | RunningManual _ _ | Finishing | FinishingReturn => true
  | _ => false
  end.
Definition no_sender (s : Sys) : Prop := forall n request, calls s !! n <> Some (Sending request).

(** The busy flag has one owner: [Run], the queued request, or a call about to
    queue its request. *)
Inductive owner (s : Sys) : Prop :=
| owned_by_run : in_run (pos s) = true -> manual (worker s) = [] -> no_sender s -> owner s
| owned_by_queue request : in_run (pos s) = false -> manual (worker s) = [request] -> no_sender s -> owner s
| owned_by_call n request : in_run (pos s) = false -> manual (worker s) = [] ->
    calls s !! n = Some (Sending request) -> (forall m r, calls s !! m = Some (Sending r) -> m = n) -> owner s.
Definition ownership (s : Sys) : Prop :=
  if busy (worker s) then owner s else in_run (pos s) = false /\ manual (worker s) = [] /\ no_sender s.

Lemma woken_same w go w' : woken w go w' ->
  busy w' = busy w /\ manual w' = manual w /\ started w' = started w /\
  dirty (tracker w') = dirty (tracker w) /\ since (tracker w') = since (tracker w).
Proof. by intros []. Qed.

Lemma no_sender_insert s n c w : (forall request, c <> Sending request) ->
  (forall m r, calls s !! m = Some (Sending r) -> m = n) -> no_sender (at_call n c w s).
Proof.
  intros Hc Hn m request. simpl. destruct (decide (m = n)) as [->|Hne].
  - rewrite lookup_insert_eq. intros [= ?]. by eapply Hc.
  - rewrite lookup_insert_ne by done. intros Hm. by apply Hne, (Hn m request).
Qed.

Definition same_senders (s s' : Sys) : Prop :=
  forall n request, calls s' !! n = Some (Sending request) <-> calls s !! n = Some (Sending request).
Lemma ownership_same s s' :
  busy (worker s') = busy (worker s) -> manual (worker s') = manual (worker s) ->
  in_run (pos s') = in_run (pos s) -> same_senders s s' -> ownership s -> ownership s'.
Proof.
  unfold ownership. intros -> Hm Hp Hc.
  assert (no_sender s -> no_sender s') as Hns by (intros H n r Hr; by apply (H n r), Hc).
  destruct (busy (worker s)); [|rewrite Hm, Hp; naive_solver].
  intros [H1 H2 H3|r H1 H2 H3|n r H1 H2 H3 H4].
  - apply owned_by_run; [congruence|congruence|auto].
  - apply (owned_by_queue s' r); [congruence|congruence|auto].
  - apply (owned_by_call s' n r); [congruence|congruence|by apply Hc|]. intros m r' Hr'%Hc. by eapply H4.
Qed.

Lemma ownership_running s : ownership s -> in_run (pos s) = true ->
  busy (worker s) = true /\ manual (worker s) = [] /\ no_sender s.
Proof.
  unfold ownership. intros Hown Hin. destruct (busy (worker s)); [|by destruct Hown as [Hf _]; rewrite Hf in Hin].
  by destruct Hown as [|r Hf|n r Hf]; [|rewrite Hf in Hin|rewrite Hf in Hin].
Qed.

Lemma ownership_run s s' : run_step config s s' -> ownership s -> ownership s'.
Proof.
  intros Hstep Hown. pose proof (ownership_running s Hown) as Hrunning.
  destruct Hstep as [request rest Hp Hm|Hp Hm|d b store now Hp|go w' Hp Hw|c Hp|Hp|d o Hp|d Hp|go Hp|c o Hp|go w' Hp Hw
                    |request id Hp|request b r Hp|Hp|Hp]; rewrite ?Hp in Hrunning; simpl in Hrunning.
  - unfold ownership in *. simpl. rewrite Hm in Hown. destruct (busy (worker s)); [|by destruct Hown as (_ & [=] & _)].
    destruct Hown as [Hi|r Hi Hq Hns|n r Hi Hq]; [by rewrite Hp in Hi| |congruence].
    apply owned_by_run; [done|by rewrite Hm in Hq; injection Hq|done].
  - eapply ownership_same, Hown; simpl; [done|done|by rewrite Hp|done].
  - eapply ownership_same, Hown; simpl; [done|done|rewrite Hp|done].
    by destruct (nextCandidate config store now d b) as [[]|].
  - apply woken_same in Hw as (? & ? & _). eapply ownership_same, Hown; simpl; [done|done| |done].
    destruct Hp as [-> | ->], go; done.
  - unfold tryBeginScheduled. destruct (busy (worker s)) eqn:Hb; [eapply ownership_same, Hown; simpl; by rewrite ?Hp|].
    unfold ownership in Hown. rewrite Hb in Hown. destruct Hown as (_ & Hm & Hns).
    unfold ownership. simpl. apply owned_by_run; [simpl; by case_bool_decide|done|done].
  - unfold Take. destruct (dirty (tracker (worker s))); eapply ownership_same, Hown; simpl; by rewrite ?Hp.
  - destruct (control_retries o); eapply ownership_same, Hown; simpl; by rewrite ?Hp.
  - eapply ownership_same, Hown; simpl; by rewrite ?Hp.
  - destruct go; eapply ownership_same, Hown; simpl; by rewrite ?Hp.
  - destruct o as [|[] e]; eapply ownership_same, Hown; simpl; by rewrite ?Hp.
  - apply woken_same in Hw as (? & ? & _). destruct go; eapply ownership_same, Hown; simpl; by rewrite ?Hp.
  - eapply ownership_same, Hown; simpl; by rewrite ?Hp.
  - destruct b; eapply ownership_same, Hown; simpl; by rewrite ?Hp.
  - destruct (Hrunning eq_refl) as (_ & ? & ?). done.
  - destruct (Hrunning eq_refl) as (_ & ? & ?). done.
Qed.

Lemma same_senders_insert s n c w :
  (forall request, c <> Sending request) -> (forall request, calls s !! n <> Some (Sending request)) ->
  same_senders s (at_call n c w s).
Proof.
  intros Hc Hn m request. simpl. destruct (decide (m = n)) as [->|Hne].
  - rewrite lookup_insert_eq. split; [intros [= ?]; naive_solver|]. intros E. by destruct (Hn request).
  - by rewrite lookup_insert_ne.
Qed.

Lemma ownership_call s s' : call_step s s' -> ownership s -> ownership s'.
Proof.
  intros Hstep Hown. destruct Hstep as [n Hc Hb|n k i t r Hc Hb|n request Hc Hm|n Hc|n r rest Hc Hr|n Hc].
  - eapply ownership_same, Hown; [done|done|done|]. by apply same_senders_insert; [|rewrite Hc].
  - unfold ownership in *. rewrite Hb in Hown. destruct Hown as (Hi & Hm & Hns). simpl.
    eapply (owned_by_call _ n); [done|done|by apply lookup_insert_eq|]. intros m r' Hr'. simpl in Hr'.
    destruct (decide (m = n)) as [->|Hne]; [done|]. rewrite lookup_insert_ne in Hr' by done. by destruct (Hns m r').
  - unfold ownership in *. simpl. destruct (busy (worker s)); [|by destruct Hown as (_ & _ & Hns), (Hns n request)].
    destruct Hown as [Hi _ Hns|r Hi Hq _|m r Hi Hq Hcall Huniq]; [by destruct (Hns n request)|congruence|].
    apply (owned_by_queue _ request); [done|done|]. apply no_sender_insert; [done|].
    intros m' r' Hr'. rewrite (Huniq m' r' Hr'). by rewrite (Huniq n request Hc).
  - eapply ownership_same, Hown; [done|done|done|]. by apply same_senders_insert; [|rewrite Hc].
  - eapply ownership_same, Hown; [done|done|done|]. by apply same_senders_insert; [|rewrite Hc].
  - eapply ownership_same, Hown; [done|done|done|]. by apply same_senders_insert; [|rewrite Hc].
Qed.

Lemma ownership_step s s' : step config s s' -> ownership s -> ownership s'.
Proof.
  intros [Hr|[Hc|Hm]]; [by apply ownership_run|by apply ownership_call|].
  destruct Hm as [t Ht|n Hn]; apply ownership_same; done.
Qed.

(** *** Changes are not forgotten *)

(** The run left a published generation, possibly with an error after it. *)
Definition made_backup (o : ControlOutcome) : Prop :=
  match o with ControlDone | ControlPublished _ => True | _ => False end.
(** A control backup that began after the [n]th change was published, or found that
    no target is configured. *)
Definition backed_up (s : Sys) (n : nat) : Prop :=
  exists k o, (k, o) ∈ runs s /\ (n <= k)%nat /\ (made_backup o \/ o = ControlTargetMissing).

Definition control_running (p : Pos) : option Z :=
  match p with RunningControl t | Retrying t => Some t | _ => None end.
Record changes (s : Sys) : Prop := {
  ch_since : dirty (tracker (worker s)) = true -> is_zero (since (tracker (worker s))) = false;
  ch_running : forall t, control_running (pos s) = Some t -> is_zero t = false;
  ch_order : (taken s <= marks s)%nat;
  ch_kept : dirty (tracker (worker s)) = false ->
    if control_running (pos s) then taken s = marks s else marks s = 0%nat \/ backed_up s (marks s)
}.

Lemma changes_same s s' :
  dirty (tracker (worker s')) = dirty (tracker (worker s)) -> since (tracker (worker s')) = since (tracker (worker s)) ->
  control_running (pos s') = control_running (pos s) ->
  marks s' = marks s -> taken s' = taken s -> runs s' = runs s -> changes s -> changes s'.
Proof.
  intros Ed Es Ep Em Et Ec [H1 H2 H3 H4]. unfold backed_up in H4.
  split; unfold backed_up; rewrite ?Ed, ?Es, ?Ep, ?Em, ?Et, ?Ec; done.
Qed.

Lemma changes_remembered s s' t :
  tracker (worker s') = signal (remember t (tracker (worker s))) \/ tracker (worker s') = remember t (tracker (worker s)) ->
  is_zero t = false -> (forall t', control_running (pos s') = Some t' -> is_zero t' = false) ->
  (taken s' <= marks s')%nat -> changes s -> changes s'.
Proof.
  intros Ht Hz Hp Hm [H1 _ _ _]. assert (dirty (tracker (worker s')) = true /\ is_zero (since (tracker (worker s'))) = false) as [Hd Hs].
  { unfold remember in Ht. destruct Ht as [-> | ->]; destruct (dirty (tracker (worker s))) eqn:E; simpl; auto. }
  by split; rewrite ?Hd, ?Hs.
Qed.

Lemma changes_run s s' : run_step config s s' -> changes s -> changes s'.
Proof.
  intros Hstep Hch. pose proof (ch_running s Hch) as Hzero. pose proof (ch_order s Hch) as Hord.
  destruct Hstep as [request rest Hp Hm|Hp Hm|d b store now Hp|go w' Hp Hw|c Hp|Hp|d o Hp|d Hp|go Hp|c o Hp|go w' Hp Hw
                    |request id Hp|request b r Hp|Hp|Hp]; rewrite ?Hp in Hzero.
  - by eapply changes_same, Hch; rewrite ?Hp.
  - by eapply changes_same, Hch; rewrite ?Hp.
  - eapply changes_same, Hch; rewrite ?Hp; try done. by destruct (nextCandidate config store now d b) as [[]|].
  - apply woken_same in Hw as (_ & _ & _ & ? & ?). by eapply changes_same, Hch; try done; destruct Hp as [-> | ->], go.
  - unfold tryBeginScheduled. destruct (busy (worker s)); eapply changes_same, Hch; rewrite ?Hp; try done.
    simpl. by case_bool_decide.
  - unfold Take. destruct (dirty (tracker (worker s))) eqn:Ed.
    + split; simpl; [done| |lia|done]. intros t [= <-]. by apply (ch_since s Hch).
    + eapply changes_same, Hch; by rewrite ?Hp.
  - destruct Hch as [H1 H2 H3 H4]. rewrite Hp in H2, H4.
    split; simpl; [done|by destruct o|done|]. intros Hd. specialize (H4 Hd). simpl in H4.
    destruct o as [| |e|e]; simpl; try done; right; exists (taken s); eexists;
      (split; [simpl; apply elem_of_app; right; apply list_elem_of_here|]); (split; [lia|]); simpl; auto.
  - pose proof (Hzero d eq_refl) as Hz. apply (changes_remembered s _ d); [left|done|done|done|done].
    simpl. unfold Retry. by rewrite Hz.
  - destruct go; by eapply changes_same, Hch; rewrite ?Hp.
  - destruct o as [|[] e]; by eapply changes_same, Hch; rewrite ?Hp.
  - apply woken_same in Hw as (_ & _ & _ & ? & ?). destruct go; by eapply changes_same, Hch; rewrite ?Hp.
  - by eapply changes_same, Hch; rewrite ?Hp.
  - destruct b; by eapply changes_same, Hch; rewrite ?Hp.
  - by eapply changes_same, Hch; rewrite ?Hp.
  - by eapply changes_same, Hch; rewrite ?Hp.
Qed.

Lemma changes_step s s' : step config s s' -> changes s -> changes s'.
Proof.
  intros [Hr|[Hc|Hm]] Hch; [by eapply changes_run|destruct Hc; by eapply changes_same, Hch|].
  pose proof (ch_order s Hch). destruct Hm as [t Ht|n Hn].
  - apply (changes_remembered s _ t); [by right|done|apply (ch_running s Hch)|simpl; lia|done].
  - by eapply changes_same, Hch.
Qed.

(** *** Wake-ups are not lost *)

Record wakes (s : Sys) : Prop := {
  wk_dirty : pos s = Waiting \/ (exists t, pos s = Selecting t false) -> dirty (tracker (worker s)) = true ->
    tracker_wake (tracker (worker s)) = true \/ (0 < signals s)%nat;
  wk_manual : pos s = Waiting \/ pos s = Delaying \/ (exists t d, pos s = Selecting t d) \/ (exists c, pos s = Beginning c) ->
    manual (worker s) <> [] -> manualWake (worker s) = true \/ exists n, calls s !! n = Some Signalling
}.

Lemma wakes_run s s' : run_step config s s' -> wakes s -> wakes s'.
Proof.
  intros Hstep [Hd Hm]. destruct Hstep as [request rest Hp Hq|Hp Hq|d b store now Hp|go w' Hp Hw|c Hp|Hp|d o Hp|d Hp|go Hp|c o Hp|go w' Hp Hw
                    |request id Hp|request b r Hp|Hp|Hp].
  - split; simpl; naive_solver.
  - split; simpl; [|naive_solver]. intros [|[t [= _ Hf]]]; [done|]. by rewrite Hf.
  - pose proof (nextCandidate_dirty config store now d) as Hnone.
    assert (manual (worker s) <> [] -> manualWake (worker s) = true \/ exists n, calls s !! n = Some Signalling) as Hq
      by (apply Hm; right; right; left; by exists d, b).
    destruct (nextCandidate config store now d b) as [[c|]|e] eqn:E; (split; simpl; [|by intros _]).
    + by intros [|[]].
    + intros _. apply Hd. right. exists d. destruct b; [|done]. by rewrite E in Hnone.
    + by intros [|[]].
  - destruct go; split; simpl; naive_solver.
  - unfold tryBeginScheduled. destruct (busy (worker s)); [split; simpl; naive_solver|].
    simpl. case_bool_decide; split; simpl; naive_solver.
  - destruct (Take _) as [[]]; split; simpl; naive_solver.
  - destruct o; split; simpl; naive_solver.
  - split; simpl; naive_solver.
  - destruct go; split; simpl; naive_solver.
  - destruct o as [|[] e]; split; simpl; naive_solver.
  - destruct go; split; simpl; naive_solver.
  - split; simpl; naive_solver.
  - split; simpl; naive_solver.
  - split; simpl; naive_solver.
  - split; simpl; naive_solver.
Qed.

Lemma signalling_insert s n c : calls s !! n <> Some Signalling ->
  (exists m, calls s !! m = Some Signalling) -> exists m, <[n := c]> (calls s) !! m = Some Signalling.
Proof. intros Hn [m Hm]. exists m. rewrite lookup_insert_ne; [done|]. by intros ->. Qed.

Lemma wakes_step s s' : step config s s' -> wakes s -> wakes s'.
Proof.
  intros [Hr|[Hc|Hk]] Hw; [by eapply wakes_run| |].
  - destruct Hw as [Hd Hm]. destruct Hc as [n Hc Hb|n k i t r Hc Hb|n request Hc Hq|n Hc|n r rest Hc Hr|n Hc];
      (split; simpl; [exact Hd|]); intros Hp Hq'.
    + destruct (Hm Hp Hq'); [by left|right]. by apply signalling_insert; [rewrite Hc|].
    + destruct (Hm Hp Hq'); [by left|right]. by apply signalling_insert; [rewrite Hc|].
    + right. exists n. by apply lookup_insert_eq.
    + by left.
    + destruct (Hm Hp Hq'); [by left|right]. by apply signalling_insert; [rewrite Hc|].
    + destruct (Hm Hp Hq'); [by left|right]. by apply signalling_insert; [rewrite Hc|].
  - destruct Hw as [Hd Hm]. destruct Hk as [t Ht|n Hn]; (split; simpl; [|exact Hm]); [right; lia|by left].
Qed.

(** *** Requests are answered once *)

(** The request of call [n] has been accepted and not yet answered. *)
Definition pending (s : Sys) (n : nat) : Prop :=
  (exists r, calls s !! n = Some (Sending r)) \/ (exists r, r ∈ manual (worker s) /\ mr_call r = n) \/
  (exists r, pos s = RunningManual r false /\ mr_call r = n).
Record answers (s : Sys) : Prop := {
  an_call : forall n r, calls s !! n = Some (Sending r) -> mr_call r = n;
  an_pending : forall n, pending s n -> started (worker s) !! n = None /\ is_Some (calls s !! n);
  an_accepted : forall n c, calls s !! n = Some c -> c = Signalling \/ c = Awaiting \/ c = Abandoned ->
    pending s n \/ exists r, started (worker s) !! n = Some [r];
  an_answered : forall n r, calls s !! n = Some (Answered r) -> ~ pending s n /\ started (worker s) !! n = Some [];
  an_unknown : forall n, calls s !! n = None \/ calls s !! n = Some Refused -> ~ pending s n /\ started (worker s) !! n = None
}.

Lemma answers_same s s' :
  calls s' = calls s -> started (worker s') = started (worker s) -> (forall n, pending s' n <-> pending s n) ->
  answers s -> answers s'.
Proof.
  intros Ec Es Ep [H1 H2 H3 H4 H5].
  split; rewrite Ec, ?Es; [done|intros n; rewrite Ep; by apply H2|intros n c; rewrite Ep; by apply H3
    |intros n r; rewrite Ep; by apply H4|intros n; rewrite Ep; by apply H5].
Qed.

Definition manual_waiting (p : Pos) : bool := match p with RunningManual _ b => negb b | _ => false end.
Lemma pending_same s s' n :
  calls s' = calls s -> manual (worker s') = manual (worker s) ->
  manual_waiting (pos s) = false -> manual_waiting (pos s') = false -> pending s' n <-> pending s n.
Proof.
  unfold pending. intros -> -> H1 H2.
  split; (intros [?|[?|(r & E & _)]]; [by left|by right; left|]); rewrite E in *; done.
Qed.

(** The moment the answer is sent. *)
Lemma answers_sent s s' request r :
  ownership s -> answers s -> pos s = RunningManual request false -> manual_waiting (pos s') = false ->
  calls s' = calls s -> manual (worker s') = manual (worker s) ->
  started (worker s') = started (answer (mr_call request) r (worker s)) -> answers s'.
Proof.
  intros Hown [H1 H2 H3 H4 H5] Hp Hp' Ec Em Es.
  destruct (ownership_running s Hown) as (_ & Hq & Hns); [by rewrite Hp|].
  set (k := mr_call request) in *.
  assert (forall n, pending s n <-> n = k) as Hpend.
  { intros n. split; [|intros ->; right; right; by exists request].
    intros [[r' Hr']|[[r' [Hr' _]]|[r' [Hr' <-]]]]; [by destruct (Hns n r')|by rewrite Hq in Hr'; set_solver|].
    rewrite Hp in Hr'. by injection Hr' as <-. }
  assert (forall n, ~ pending s' n) as Hnone.
  { intros n [[r' Hr']|[[r' [Hr' _]]|[r' [Hr' _]]]]; [rewrite Ec in Hr'; by destruct (Hns n r')|rewrite Em, Hq in Hr'; set_solver|].
    by rewrite Hr' in Hp'. }
  destruct (H2 k) as [Hnew [c Hc]]; [by apply Hpend|].
  simpl in Es. rewrite Hnew in Es. simpl in Es. split; rewrite Ec, ?Es.
  - done.
  - intros n Hn. by destruct (Hnone n).
  - intros n c' Hc' Hkind. right. destruct (decide (n = k)) as [->|Hne]; [rewrite lookup_insert_eq; by exists r|].
    rewrite lookup_insert_ne by done. destruct (H3 n c' Hc' Hkind) as [Hn%Hpend|]; done.
  - intros n r' Hr'. destruct (H4 n r' Hr') as [Hn ?]. split; [apply Hnone|].
    rewrite lookup_insert_ne; [done|]. intros <-. by apply Hn, Hpend.
  - intros n Hn. destruct (H5 n Hn) as [Hn' ?]. split; [apply Hnone|].
    rewrite lookup_insert_ne; [done|]. intros <-. by apply Hn', Hpend.
Qed.

Lemma answers_run s s' : run_step config s s' -> ownership s -> answers s -> answers s'.
Proof.
  intros Hstep Hown Han. destruct Hstep as [request rest Hp Hm|Hp Hm|d b store now Hp|go w' Hp Hw|c Hp|Hp|d o Hp|d Hp|go Hp|c o Hp|go w' Hp Hw
                    |request id Hp|request b r Hp|Hp|Hp].
  - eapply answers_same, Han; [done|done|]. intros n. unfold pending. simpl. rewrite Hm, Hp.
    assert (rest = []) as ->.
    { unfold ownership in Hown. rewrite Hm in Hown. destruct (busy (worker s)); [|by destruct Hown as (_ & [=] & _)].
      destruct Hown as [_ Hq|r _ Hq|m r _ Hq]; rewrite Hm in Hq; [done|by injection Hq|done]. }
    split; intros [?|[(r & Hr & Hn)|(r & Hr & Hn)]]; try by left.
    + set_solver.
    + injection Hr as <-. right; left. exists request. split; [set_solver|done].
    + right; right. exists request. apply list_elem_of_singleton in Hr as ->. done.
  - eapply answers_same, Han; try done. intros n. apply pending_same; by rewrite ?Hp.
  - eapply answers_same, Han; try done. intros n. apply pending_same; rewrite ?Hp; try done.
    by destruct (nextCandidate config store now d b) as [[]|].
  - apply woken_same in Hw as (_ & ? & ? & _). eapply answers_same, Han; try done. intros n.
    destruct Hp as [Hp|Hp], go; apply pending_same; by rewrite ?Hp.
  - unfold tryBeginScheduled. destruct (busy (worker s)); eapply answers_same, Han; try done; intros n;
      apply pending_same; rewrite ?Hp; try done. simpl. by case_bool_decide.
  - unfold Take. destruct (dirty (tracker (worker s))); eapply answers_same, Han; try done; intros n;
      apply pending_same; by rewrite ?Hp.
  - destruct (control_retries o); eapply answers_same, Han; try done; intros n; apply pending_same; by rewrite ?Hp.
  - eapply answers_same, Han; try done. intros n. apply pending_same; by rewrite ?Hp.
  - destruct go; eapply answers_same, Han; try done; intros n; apply pending_same; by rewrite ?Hp.
  - destruct o as [|[] e]; eapply answers_same, Han; try done; intros n; apply pending_same; by rewrite ?Hp.
  - apply woken_same in Hw as (_ & ? & ? & _). destruct go; eapply answers_same, Han; try done; intros n;
      apply pending_same; by rewrite ?Hp.
  - by eapply answers_sent.
  - destruct b; [|by eapply answers_sent].
    eapply answers_same, Han; try done. intros n. apply pending_same; by rewrite ?Hp.
  - eapply answers_same, Han; try done. intros n. apply pending_same; by rewrite ?Hp.
  - eapply answers_same, Han; try done. intros n. apply pending_same; by rewrite ?Hp.
Qed.

(** A call moves while its request stays where it is. *)
Lemma pending_insert s n c w m :
  (forall r, c <> Sending r) -> (forall r, calls s !! n <> Some (Sending r)) -> manual w = manual (worker s) ->
  pending (at_call n c w s) m <-> pending s m.
Proof.
  intros Hc Hn Hm. unfold pending. pose proof (same_senders_insert s n c w Hc Hn m) as Hs. simpl in *. rewrite Hm.
  naive_solver.
Qed.

Lemma pending_sent s n request :
  ownership s -> calls s !! n = Some (Sending request) -> mr_call request = n -> manual (worker s) = [] ->
  forall m, pending (at_call n Signalling (set_manual [request] (worker s)) s) m <-> pending s m.
Proof.
  intros Hown Hc Hcall Hm m. unfold pending. simpl. rewrite Hm.
  assert (forall k r, calls s !! k = Some (Sending r) -> k = n) as Huniq.
  { unfold ownership in Hown. destruct (busy (worker s)); [|by destruct Hown as (_ & _ & Hns), (Hns n request)].
    destruct Hown as [_ _ Hns|r _ _ Hns|k r _ _ _ Hu]; [by destruct (Hns n request)|by destruct (Hns n request)|].
    intros k' r' Hk'. by rewrite (Hu _ _ Hk'), (Hu _ _ Hc). }
  split; intros [[r Hr]|[(r & Hr & He)|?]].
  - destruct (decide (m = n)) as [->|Hne]; [by rewrite lookup_insert_eq in Hr|].
    rewrite lookup_insert_ne in Hr by done. by left; exists r.
  - apply list_elem_of_singleton in Hr as ->. left. exists request. by rewrite <- He, Hcall.
  - by right; right.
  - right; left. exists request. rewrite (Huniq m r Hr). split; [set_solver|done].
  - set_solver.
  - by right; right.
Qed.

Ltac call_cases n := let m := fresh "m" in
  intros m; simpl; destruct (decide (m = n)) as [->|?];
    [rewrite ?lookup_insert_eq|rewrite ?lookup_insert_ne by done]; naive_solver.

Lemma answers_call s s' : call_step s s' -> ownership s -> answers s -> answers s'.
Proof.
  intros Hstep Hown [H1 H2 H3 H4 H5].
  destruct Hstep as [n Hc Hb|n k i t r Hc Hb|n request Hc Hm|n Hc|n r rest Hc Hr|n Hc].
  - assert (forall m, pending (at_call n Refused (worker s) s) m <-> pending s m) as Hp
      by (intros m; apply pending_insert; [done|by rewrite Hc|done]).
    destruct (H5 n (or_introl Hc)) as [Hn1 Hn2]. split; try setoid_rewrite Hp; call_cases n.
  - destruct (H5 n (or_introl Hc)) as [Hn1 Hn2]. set (request := mkRequest n k i t r).
    assert (forall m, pending (at_call n (Sending request) (set_busy true (worker s)) s) m <-> m = n \/ pending s m) as Hp.
    { intros m. unfold pending. simpl. destruct (decide (m = n)) as [->|Hne].
      - rewrite lookup_insert_eq. split; [by left|]. intros _. left. by exists request.
      - rewrite lookup_insert_ne by done. naive_solver. }
    split; try setoid_rewrite Hp; call_cases n.
  - pose proof (H1 _ _ Hc) as Hcall. pose proof (pending_sent s n request Hown Hc Hcall Hm) as Hp.
    assert (pending s n) as Hpn by (left; by exists request).
    split; try setoid_rewrite Hp; call_cases n.
  - assert (forall m, pending (at_call n Awaiting (signalManual (worker s)) s) m <-> pending s m) as Hp
      by (intros m; apply pending_insert; [done|by rewrite Hc|done]).
    pose proof (H3 _ _ Hc ltac:(auto)) as Hn. split; try setoid_rewrite Hp; call_cases n.
  - pose proof (H3 _ _ Hc ltac:(auto)) as Hn. pose proof (H2 n) as Hn2. rewrite Hr in Hn, Hn2.
    assert (rest = []) as -> by naive_solver. assert (~ pending s n) as Hnp by naive_solver.
    set (w := mkWorker _ _ _ _ _).
    assert (forall m, pending (at_call n (Answered r) w s) m <-> pending s m) as Hp
      by (intros m; apply pending_insert; [done|by rewrite Hc|done]).
    split; try setoid_rewrite Hp; call_cases n.
  - assert (forall m, pending (at_call n Abandoned (worker s) s) m <-> pending s m) as Hp
      by (intros m; apply pending_insert; [done|by rewrite Hc|done]).
    pose proof (H3 _ _ Hc ltac:(auto)) as Hn. split; try setoid_rewrite Hp; call_cases n.
Qed.

(** *** All of them together *)

Record Inv (s : Sys) : Prop := {
  inv_ownership : ownership s; inv_changes : changes s; inv_wakes : wakes s; inv_answers : answers s
}.

Lemma worker_inv_initial : Inv initial.
Proof.
  split; [done| | |].
  - split; simpl; [done|done|done|by left].
  - split; simpl; naive_solver.
  - assert (forall n, ~ pending initial n) as Hn.
    { intros n [[r Hr]|[[r [Hr _]]|[r [Hr _]]]]; [done|set_solver|done]. }
    split; [done|intros n Hp; by destruct (Hn n)|done|done|]. intros n _. split; [apply Hn|done].
Qed.

Lemma inv_step s s' : step config s s' -> Inv s -> Inv s'.
Proof.
  intros Hstep [H1 H2 H3 H4].
  split; [by eapply ownership_step|by eapply changes_step|by eapply wakes_step|].
  destruct Hstep as [Hr|[Hc|Hm]]; [by eapply answers_run|by eapply answers_call|].
  destruct Hm as [t Ht|n Hn]; eapply answers_same, H4; done.
Qed.

Lemma worker_reachable_inv s : reachable config s -> Inv s.
Proof. apply rtc_ind_r; [apply worker_inv_initial|]. intros s1 s2 _ Hs. by apply inv_step. Qed.

(** *** A control backup that keeps failing *)

(** Every policy that is due became due after [t0]. *)
Definition due_later (t0 : Z) (store : ScheduleStore) (now : Z) : Prop :=
  forall policies policy c, BackupPolicies store = Ok policies -> policy ∈ policies ->
    due store (wc_StartedAt config) now policy c -> t0 < DueAt c.

(** Steps in which control backups fail, nothing new is marked and policies become
    due after [t0]; manual requests, waits and cancellation are unrestricted. *)
Inductive failing_step (t0 : Z) (s s' : Sys) : Prop :=
| failing_run : run_step config s s' ->
    (forall t, pos s = RunningControl t -> pos s' = Retrying t) ->
    (forall d b, pos s = Selecting d b -> exists store now, due_later t0 store now /\
       pos s' = match nextCandidate config store now d b with
                | Err _ => Delaying | Ok None => Waiting | Ok (Some c) => Beginning c end) ->
    failing_step t0 s s'
| failing_call : call_step s s' -> failing_step t0 s s'
| failing_signal n : signals s = S n ->
    s' = mkSys (set_tracker (signal (tracker (worker s))) (worker s)) (pos s) (calls s) n (marks s) (taken s) (runs s) ->
    failing_step t0 s s'.

Lemma oldest_is_control t0 store now r :
  due_later t0 store now -> nextCandidate config store now t0 true = Ok r -> r = Some (control_candidate t0).
Proof.
  unfold nextCandidate. destruct (wc_scheduled config); [|by intros _ [= <-]]. intros Hlater Hsel.
  assert (exists policies, BackupPolicies store = Ok policies) as [policies Hpol].
  { unfold SelectDueCandidate in Hsel. destruct (_ || _ || _ || _); [done|].
    destruct (BackupPolicies store) as [l|]; [by exists l|done]. }
  pose proof (SelectDueCandidate_spec _ _ _ _ _ _ _ Hsel Hpol) as Hspec.
  set (control := control_candidate t0).
  assert (may_run store policies t0 true (wc_StartedAt config) now control) as Hctl by (by left).
  destruct r as [c|]; [|by destruct (Hspec control)]. destruct Hspec as [Hc Hle]. f_equal.
  destruct Hc as [[_ ->]|(policy & Hin & Hdue)]; [done|]. pose proof (Hlater _ _ _ Hpol Hin Hdue) as Hlt.
  destruct (Hle control Hctl) as [->|[Hd|[Hd _]]]; [done| |]; simpl in Hd; lia.
Qed.

(** The worker goes back and forth between the control backup and its retry. *)
Definition remembered (t0 : Z) (s : Sys) : Prop := dirty (tracker (worker s)) = true /\ since (tracker (worker s)) = t0.
Definition stuck (t0 : Z) (s : Sys) : Prop :=
  match pos s with
  | RunningControl t | Retrying t => t = t0 /\ dirty (tracker (worker s)) = false
  | RunningResource _ | ResourceWait | Waiting => False
  | Beginning c => remembered t0 s /\ dc_ResourceKind c = "control"
  | Selecting d b => remembered t0 s /\ d = t0 /\ b = true
  | _ => remembered t0 s
  end.

Lemma stuck_step t0 s s' : is_zero t0 = false -> failing_step t0 s s' -> stuck t0 s -> stuck t0 s'.
Proof.
  intros Hz [Hrun Hfail Hsel|Hc|n Hn ->] Hst; [|destruct Hc; exact Hst|exact Hst].
  unfold stuck in *. destruct Hrun as [request rest Hp Hm|Hp Hm|d b store now Hp|go w' Hp Hw|c Hp|Hp|d o Hp|d Hp|go Hp|c o Hp|go w' Hp Hw
                    |request id Hp|request b r Hp|Hp|Hp]; rewrite ?Hp in Hst.
  - done.
  - pose proof Hst as [Hd Hs]. simpl. rewrite Hd, Hs. done.
  - destruct (Hsel d b Hp) as (store' & now' & Hlater & Hpos). simpl in *. rewrite Hpos. destruct Hst as (Hr & -> & ->).
    destruct (nextCandidate config store' now' t0 true) as [r|e] eqn:E; [|exact Hr].
    by rewrite (oldest_is_control t0 store' now' r Hlater E).
  - apply woken_same in Hw as (_ & _ & _ & Hd & Hs). unfold remembered in *. simpl.
    destruct Hp as [Hp|Hp]; rewrite Hp in Hst; [done|]. destruct go; simpl; by rewrite Hd, Hs.
  - destruct Hst as [Hr Hk]. unfold tryBeginScheduled. destruct (busy (worker s)); simpl; [exact Hr|].
    by rewrite bool_decide_true.
  - destruct Hst as [Hd Hs]. unfold Take. by rewrite Hd.
  - specialize (Hfail d Hp). destruct (control_retries o); simpl in *; [done|congruence].
  - destruct Hst as [-> Hd]. simpl. unfold Retry, remembered, remember. simpl. by rewrite Hz, Hd.
  - destruct go; exact Hst.
  - done.
  - done.
  - done.
  - destruct b; exact Hst.
  - exact Hst.
  - exact Hst.
Qed.
End Invariants.

(** ** Properties *)

(** Backups run one at a time.  In every interleaving of the worker, calls of
    [TryRunNow] and marks, the busy flag is set exactly when one owner holds it, the
    running backup, the queued request or one call about to queue its request, and it has
    no second owner; so a call that was let in never blocks on the request channel. *)
Theorem one_backup_at_a_time config s :
  reachable config s ->
  ownership s /\ (forall n request, calls s !! n = Some (Sending request) -> manual (worker s) = []) /\
  (busy (worker s) = false -> forall c, pos s <> RunningResource c /\ forall t, pos s <> RunningControl t).
Proof.
  intros Hr%worker_reachable_inv%inv_ownership. split; [done|]. unfold ownership in Hr. destruct (busy (worker s)).
  - split; [|done]. intros n request Hc. destruct Hr as [_ Hm _|r _ _ Hns|m r _ Hm]; [done|by destruct (Hns n request)|done].
  - destruct Hr as (Hi & Hm & Hns). split; [by intros n request Hc; destruct (Hns n request)|].
    intros _ c. split; [|intros t]; intros E; by rewrite E in Hi.
Qed.

(** C26. No change of the control database is forgotten.  In every interleaving and
    whatever fails, each change that was marked is remembered by the tracker; or the
    control backup that runs, or failed and is about to be retried, began after it; or a
    control backup that began after it ended having published a generation, or having
    found that no target is configured, which is the one case in which the worker lets a
    change go without a backup. *)
Theorem change_kept config s n :
  reachable config s -> (0 < n <= marks s)%nat ->
  dirty (tracker (worker s)) = true \/
  ((n <= taken s)%nat /\ exists t, pos s = RunningControl t \/ pos s = Retrying t) \/
  backed_up s n.
Proof.
  intros [_ _ _ Hk]%worker_reachable_inv%inv_changes Hn.
  destruct (dirty (tracker (worker s))) eqn:Hd; [by left|right]. specialize (Hk eq_refl).
  destruct (control_running (pos s)) as [t|] eqn:Hp; [left|right].
  - split; [lia|]. exists t. destruct (pos s); simpl in Hp; naive_solver.
  - destruct Hk as [?|(k & o & Hin & Hle & Ho)]; [lia|]. exists k, o. split_and!; [done|lia|done].
Qed.

(** No wake-up is lost.  When the worker waits for the next minute with a change
    marked, its wake-up is in the channel or about to be sent; when it waits with a request
    queued, the same holds for the wake-up of the request. *)
Theorem wakeups_delivered config s :
  reachable config s -> pos s = Waiting ->
  (dirty (tracker (worker s)) = true -> tracker_wake (tracker (worker s)) = true \/ (0 < signals s)%nat) /\
  (manual (worker s) <> [] -> manualWake (worker s) = true \/ exists n, calls s !! n = Some Signalling).
Proof. intros [Hd Hm]%worker_reachable_inv%inv_wakes Hp. split; [apply Hd|apply Hm]; auto. Qed.

(** A manual request is answered exactly once.  A call that was let in has its
    request on the way or one answer in its channel, never a second one, also when the
    caller has given up; so sending the answer never blocks the worker. *)
Theorem request_answered_once config s n c :
  reachable config s -> calls s !! n = Some c -> c = Signalling \/ c = Awaiting \/ c = Abandoned ->
  (pending s n /\ started (worker s) !! n = None) \/
  (~ pending s n /\ exists r, started (worker s) !! n = Some [r]).
Proof.
  intros Han%worker_reachable_inv%inv_answers Hc Hk. destruct (an_accepted s Han n c Hc Hk) as [Hp|[r Hr]].
  - left. split; [done|]. by apply (an_pending s Han).
  - right. split; [|by exists r]. intros Hp%(an_pending s Han). destruct Hp as [Hn _]. congruence.
Qed.

(** The schedule is served oldest first.  A selection that succeeds returns a
    backup that may run, the control backup of a marked change or an enabled policy whose
    latest occurrence up to the current minute came after the start and has no backup yet,
    and none that may run is before it in due time, kind and ID; it returns nothing only
    when nothing may run. *)
Theorem select_oldest store policies dirtySince dirty startedAt now r :
  SelectDueCandidate store dirtySince dirty startedAt now = Ok r -> BackupPolicies store = Ok policies ->
  match r with
  | Some c => may_run store policies dirtySince dirty startedAt now c /\
              forall d, may_run store policies dirtySince dirty startedAt now d -> d = c \/ due_le c d
  | None => forall d, ~ may_run store policies dirtySince dirty startedAt now d
  end.
Proof. apply SelectDueCandidate_spec. Qed.

(** A control backup that keeps failing keeps the scheduled backups out.  Once a
    change is marked at [t0] and as long as control backups fail, nothing else is marked
    and the policies become due after [t0], no scheduled backup of a resource ever runs,
    whatever manual requests and waits happen in between. *)
Theorem failing_control_starves config t0 s s' :
  is_zero t0 = false -> pos s = Top -> remembered t0 s -> rtc (failing_step config t0) s s' ->
  forall c, pos s' <> RunningResource c.
Proof.
  intros Hz Hp Hr Hrun. assert (stuck t0 s) as Hst by (unfold stuck; by rewrite Hp).
  assert (stuck t0 s') as Hst'.
  { clear Hp Hr. induction Hrun as [|s1 s2 s3 Hs _ IH]; [done|]. apply IH. by eapply stuck_step. }
  intros c Hc. unfold stuck in Hst'. by rewrite Hc in Hst'.
Qed.

(** ** Runs *)

Module WorkerDemo.
Definition noon : Z := Date 2026 1 1 12 0.
Definition demo_config : WorkerConfig := mkWorkerConfig true noon defaultWorkerRetryDelay.
(** Two daily policies; the first occurrence has been backed up already. *)
Definition redis : BackupPolicy := mkPolicy "redis" "r1" "t1" true "30 12 * * *" 7.
Definition volume : BackupPolicy := mkPolicy "volume" "v1" "t1" true "15 12 * * *" 7.
Definition demo_store : ScheduleStore := mkScheduleStore (Ok [redis; volume]) (fun kind _ _ => Ok (bool_decide (kind = "volume"))).
Definition demo_now : Z := Date 2026 1 1 13 0.
Definition redis_due : DueCandidate := mkCandidate "redis" "r1" "t1" (Date 2026 1 1 12 30) (Some (UnixMilli (Date 2026 1 1 12 30))) 7.

Example redis_selected : SelectDueCandidate demo_store time_zero false noon demo_now = Ok (Some redis_due).
Proof. vm_compute. reflexivity. Qed.

Lemma select_oldest_witness :
  may_run demo_store [redis; volume] noon true noon demo_now (control_candidate noon) /\
  forall d, may_run demo_store [redis; volume] noon true noon demo_now d -> d = control_candidate noon \/ due_le (control_candidate noon) d.
Proof. apply (select_oldest demo_store [redis; volume] noon true noon demo_now (Some (control_candidate noon))); vm_compute; reflexivity. Defined.

(** A call has queued its request and a change was marked while the worker selects. *)
Definition demo_request : manualRequest := mkRequest 0 "redis" "r1" "t1" 7.
Definition queued : Sys :=
  mkSys (mkWorker true [demo_request] false ∅ (mkTracker true noon false)) Waiting {[0%nat := Signalling]} 1 1 0 [].
Lemma worker_queued_reachable : reachable demo_config queued.
Proof.
  eapply rtc_l; [left; apply (run_default demo_config initial); reflexivity|].
  eapply rtc_l; [left; eapply (run_select demo_config _ time_zero false (mkScheduleStore (Ok []) (fun _ _ _ => Ok false)) demo_now); reflexivity|].
  eapply rtc_l; [right; left; apply (call_accepted _ 0 "redis" "r1" "t1" 7); reflexivity|].
  eapply rtc_l; [right; left; apply (call_send _ 0 demo_request); reflexivity|].
  eapply rtc_l; [right; right; apply (mark_remember _ noon); reflexivity|].
  match goal with |- rtc _ ?s _ => replace s with queued; [apply rtc_refl|vm_compute; reflexivity] end.
Qed.

Lemma one_backup_at_a_time_witness : ownership queued.
Proof. apply (one_backup_at_a_time demo_config queued). apply worker_queued_reachable. Defined.
Lemma change_kept_witness : dirty (tracker (worker queued)) = true \/
  ((1 <= taken queued)%nat /\ exists t, pos queued = RunningControl t \/ pos queued = Retrying t) \/ backed_up queued 1.
Proof. apply (change_kept demo_config queued 1); [apply worker_queued_reachable|simpl; lia]. Defined.
Lemma wakeups_delivered_witness : manualWake (worker queued) = true \/ exists n, calls queued !! n = Some Signalling.
Proof. apply (wakeups_delivered demo_config queued); [apply worker_queued_reachable|reflexivity|discriminate]. Defined.
Lemma request_answered_once_witness :
  (pending queued 0 /\ started (worker queued) !! 0%nat = None) \/
  (~ pending queued 0 /\ exists r, started (worker queued) !! 0%nat = Some [r]).
Proof. apply (request_answered_once demo_config queued 0 Signalling); [apply worker_queued_reachable|reflexivity|auto]. Defined.

(** The control backup fails, is retried and selected again although redis is due. *)
Definition marked : Sys := mkSys (mkWorker false [] false ∅ (mkTracker true noon true)) Top ∅ 0 1 0 [].
Definition again : Sys :=
  mkSys (mkWorker false [] false ∅ (mkTracker true noon true)) (Beginning (control_candidate noon)) ∅ 0 1 1
    [(1%nat, ControlFailed (Msg "unreachable"))].
Lemma demo_due_later : due_later demo_config noon demo_store demo_now.
Proof. intros policies policy c _ _ (_ & schedule & _ & _ & Hb & _). unfold demo_config in Hb. simpl in Hb. lia. Qed.
Lemma marked_again : rtc (failing_step demo_config noon) marked again.
Proof.
  assert (forall s, (forall d b, pos s <> Selecting d b) -> (forall t, pos s <> RunningControl t) ->
            forall s', run_step demo_config s s' -> failing_step demo_config noon s s') as Hplain.
  { intros s Hsel Hctl s' Hrun. apply failing_run; [done|intros t E; by destruct (Hctl t)|intros d b E; by destruct (Hsel d b)]. }
  assert (forall s, pos s = Selecting noon true ->
            failing_step demo_config noon s (at_pos (Beginning (control_candidate noon)) (worker s) s)) as Hselect.
  { intros s Hp. assert (nextCandidate demo_config demo_store demo_now noon true = Ok (Some (control_candidate noon))) as E
      by (vm_compute; reflexivity).
    pose proof (run_select demo_config s noon true demo_store demo_now Hp) as Hrun. rewrite E in Hrun.
    apply failing_run; [done|congruence|]. intros d b [= <- <-]%(eq_trans (eq_sym Hp)).
    exists demo_store, demo_now. split; [apply demo_due_later|]. by rewrite E. }
  eapply rtc_l; [apply Hplain; [done|done|apply run_default; reflexivity]|].
  eapply rtc_l; [apply Hselect; reflexivity|].
  eapply rtc_l; [apply Hplain; [done|done|eapply run_begin; reflexivity]|].
  eapply rtc_l; [apply Hplain; [done|done|eapply run_take; reflexivity]|].
  eapply rtc_l.
  { apply failing_run; [eapply (run_control demo_config _ noon (ControlFailed (Msg "unreachable"))); reflexivity| |done].
    intros t [= <-]. reflexivity. }
  eapply rtc_l; [apply Hplain; [done|done|eapply run_retry; reflexivity]|].
  eapply rtc_l; [apply Hplain; [done|done|eapply (run_retried demo_config _ true); reflexivity]|].
  eapply rtc_l; [apply Hplain; [done|done|eapply run_finish; reflexivity]|].
  eapply rtc_l; [apply Hplain; [done|done|apply run_default; reflexivity]|].
  eapply rtc_l; [apply Hselect; reflexivity|].
  match goal with |- rtc _ ?s _ => replace s with again; [apply rtc_refl|vm_compute; reflexivity] end.
Qed.
Lemma failing_control_starves_witness : forall c, pos again <> RunningResource c.
Proof.
  apply (failing_control_starves demo_config noon marked again); [vm_compute; reflexivity|reflexivity|split; reflexivity|apply marked_again].
Defined.
End WorkerDemo.
