(* ===== verification/ImageStore.v ===== *)
(** * ImageStore: uploaded images in the database

    The tables of uploads, image revisions and previews, and the transactions of
    internal/state on them: image_uploads.go, image_cleanup.go, preview_deployments.go
    and the statements on them of deployments.go and store.go.  A table is a finite map
    from its primary key; a transaction is all or nothing. *)

From S2P Require Import Prelude Names ServiceConfig DeploymentStore.

Definition ErrImageUploadNotFound : goerr := Sentinel "state.ErrImageUploadNotFound" "image upload not found".
Definition ErrImageUploadChanged : goerr := Sentinel "state.ErrImageUploadChanged" "image upload changed".
Definition ErrImageRevisionNotFound : goerr := Sentinel "state.ErrImageRevisionNotFound" "image revision not found".
Definition ErrImageUploadRangeOverlap : goerr := Sentinel "state.ErrImageUploadRangeOverlap" "image upload range overlap".

Definition ErrServiceNotFound : goerr := Sentinel "state.ErrServiceNotFound" "service not found in project".

(** ** Rows *)

Record ImageUploadIdentity := mkIdentity {
  id_Repository : string; id_Ref : string; id_SHA : string; id_CommitMessage : string; id_Workflow : string;
  id_WorkflowRef : string; id_Actor : string; id_RunID : string; id_RunAttempt : string
}.
Record ImageUploadByteRange := mkRange { Offset : Z; Length : Z }.
#[export] Instance range_eq_dec : EqDecision ImageUploadByteRange.
Proof. solve_decision. Defined.

Inductive UploadStatus := Uploading | Importing | Deploying | Succeeded | Failed | Superseded.
#[export] Instance UploadStatus_eq_dec : EqDecision UploadStatus.
Proof. solve_decision. Defined.
Definition in_flight (s : UploadStatus) : bool := match s with Uploading | Importing | Deploying => true | _ => false end.

(** What an upload is of, which never changes. *)
Record UploadHead := mkHead {
  u_ServiceID : string; u_Tag : string; u_ExpectedLength : Z; u_ExpectedSHA256 : string; u_TemporaryPath : string;
  u_Identity : ImageUploadIdentity; u_CreatedAtMillis : Z
}.
Record ImageUpload := mkUpload {
  u_head : UploadHead; u_ReceivedLength : Z; u_ReceivedRanges : list ImageUploadByteRange; u_Status : UploadStatus;
  u_ImageRevisionID : option string; u_DeploymentID : option string; u_PreviewID : option string; u_PreviewURL : option string;
  u_ImageDigest : option string; u_Error : option (string * string); u_UpdatedAtMillis : Z; u_ExpiresAtMillis : Z
}.
(** The end of an upload: its status and error. *)
Definition ended (status : UploadStatus) (error : option (string * string)) (updated expires : Z) (u : ImageUpload) : ImageUpload :=
  mkUpload (u_head u) (u_ReceivedLength u) (u_ReceivedRanges u) status (u_ImageRevisionID u) (u_DeploymentID u) (u_PreviewID u)
    (u_PreviewURL u) (u_ImageDigest u) error updated expires.

Inductive RevisionStatus := RImporting | RActive | RRetired | RFailed.
#[export] Instance RevisionStatus_eq_dec : EqDecision RevisionStatus.
Proof. solve_decision. Defined.
Inductive RevisionKind := Production | Preview.
#[export] Instance RevisionKind_eq_dec : EqDecision RevisionKind.
Proof. solve_decision. Defined.
Record ImageRevision := mkRevision {
  i_ServiceID : string; i_Tag : string; i_Kind : RevisionKind; i_ArchivePath : string; i_ArchiveSHA256 : string;
  i_ImageDigest : option string; i_DeploymentID : option string; i_PreviewID : option string; i_Identity : ImageUploadIdentity;
  i_Status : RevisionStatus; i_CreatedAtMillis : Z; i_ActivatedAtMillis : option Z; i_RetiredAtMillis : option Z;
  i_ExpiresAtMillis : option Z
}.
Definition with_status (status : RevisionStatus) (retired : option Z) (r : ImageRevision) : ImageRevision :=
  mkRevision (i_ServiceID r) (i_Tag r) (i_Kind r) (i_ArchivePath r) (i_ArchiveSHA256 r) (i_ImageDigest r) (i_DeploymentID r)
    (i_PreviewID r) (i_Identity r) status (i_CreatedAtMillis r) (i_ActivatedAtMillis r) retired (i_ExpiresAtMillis r).
(** [IFNULL(image_digest, '') != ''] *)
Definition imported (r : ImageRevision) : bool := negb (bool_decide (default "" (i_ImageDigest r) = "")).

Inductive PreviewStatus := PDeploying | PActive | PFailed | PStopped | PInterrupted.
#[export] Instance PreviewStatus_eq_dec : EqDecision PreviewStatus.
Proof. solve_decision. Defined.
Record PreviewRow := mkPreview {
  p_ServiceID : string; p_Tag : string; p_ImageRevisionID : option string; p_Hostname : string; p_TargetPort : Z;
  p_Digest : string; p_Reference : string; p_Hash : string; p_Status : PreviewStatus; p_Error : option (string * string);
  p_Records : list string; p_Created : Z; p_Updated : Z; p_Finished : option Z; p_Expires : Z
}.
Definition preview_status (status : PreviewStatus) (error : option (string * string)) (updated : Z) (finished : option Z) (p : PreviewRow) : PreviewRow :=
  mkPreview (p_ServiceID p) (p_Tag p) (p_ImageRevisionID p) (p_Hostname p) (p_TargetPort p) (p_Digest p) (p_Reference p) (p_Hash p)
    status error (p_Records p) (p_Created p) updated finished (p_Expires p).

(** [services] has the services with their active_deployment_id, [deploymentRevisions]
    the deployments with their image_revision_id, [runningBackups] the revisions with a
    running backup. *)
Record Images := mkImages {
  uploads : gmap string ImageUpload;
  revisions : gmap string ImageRevision;
  previews : gmap string PreviewRow;
  services : gmap string (option string);
  deploymentRevisions : gmap string (option string);
  runningBackups : gset string
}.
Definition set_uploads v s := mkImages v (revisions s) (previews s) (services s) (deploymentRevisions s) (runningBackups s).
Definition set_revisions v s := mkImages (uploads s) v (previews s) (services s) (deploymentRevisions s) (runningBackups s).
Definition set_previews v s := mkImages (uploads s) (revisions s) v (services s) (deploymentRevisions s) (runningBackups s).

(** ** Byte ranges *)

Definition range_le (a b : ImageUploadByteRange) : Prop := Offset a <= Offset b.
#[export] Instance range_le_dec : RelDecision range_le.
Proof. intros a b. apply Z.le_dec. Defined.
#[export] Instance range_le_total : Total range_le.
Proof. intros a b. unfold range_le. lia. Qed.
#[export] Instance range_le_trans : Transitive range_le.
Proof. intros a b c. unfold range_le. lia. Qed.

Definition findExactRange (ranges : list ImageUploadByteRange) (offset length : Z) : bool :=
  existsb (fun item => (Offset item =? offset) && (Length item =? length)) ranges.
Definition rangesOverlap (ranges : list ImageUploadByteRange) (offset length : Z) : bool :=
  let end_ := i64 (offset + length) in
  existsb (fun item => (offset <? i64 (Offset item + Length item)) && (Offset item <? end_)) ranges.
(** The loop over the ordered ranges: the position reached, if there is no gap. *)
Fixpoint cover (cursor : Z) (ordered : list ImageUploadByteRange) : option Z :=
  match ordered with
  | [] => Some cursor
  | item :: ordered => if negb (Offset item =? cursor) || (Length item <=? 0) then None else cover (i64 (cursor + Length item)) ordered
  end.
Definition ImageUploadCoverageComplete (ranges : list ImageUploadByteRange) (expectedLength : Z) : bool :=
  if expectedLength <=? 0 then false else bool_decide (cover 0 (merge_sort range_le ranges) = Some expectedLength).

(** ** image_uploads.go *)

Definition nullable (s : string) : option string := if bool_decide (s = "") then None else Some s.
Definition UNIQUE (what : string) : goerr := Msg ("UNIQUE constraint failed: " +:+ what).
Definition FOREIGN_KEY : goerr := Msg "FOREIGN KEY constraint failed".

(** [UPDATE t SET f WHERE p] and whether a row satisfies [p]. *)
Definition update_rows {V} (p : string -> V -> bool) (f : V -> V) (m : gmap string V) : gmap string V :=
  map_imap (fun k v => Some (if p k v then f v else v)) m.
Definition EXISTS {V} (p : string -> V -> bool) (m : gmap string V) : bool := existsb (fun x => p x.1 x.2) (map_to_list m).
(** [ORDER BY key, id] *)
Definition rows_le {V} (key : V -> Z) (a b : string * V) : Prop :=
  key a.2 < key b.2 \/ (key a.2 = key b.2 /\ String.le a.1 b.1).
#[export] Instance rows_le_dec {V} (key : V -> Z) : RelDecision (rows_le key).
Proof. intros a b. unfold rows_le. apply _. Defined.
Definition SELECT {V} (key : V -> Z) (p : string -> V -> bool) (m : gmap string V) : list (string * V) :=
  merge_sort (rows_le key) (List.filter (fun x => p x.1 x.2) (map_to_list m)).

Definition same_tag (service tag : string) (u : ImageUpload) : bool :=
  bool_decide (u_ServiceID (u_head u) = service) && bool_decide (u_Tag (u_head u) = tag).

Definition BeginImageUpload (id : string) (head : UploadHead) (expires : Z) (s : Images) : result goerr (list string * Images) :=
  if bool_decide (id = "") || bool_decide (u_ServiceID head = "") || bool_decide (u_Tag head = "") || (u_ExpectedLength head <=? 0)
     || negb (zlen (u_ExpectedSHA256 head) =? 64) || bool_decide (u_TemporaryPath head = "") || (u_CreatedAtMillis head <=? 0)
     || (expires <=? u_CreatedAtMillis head)
  then Err (Msg "begin image upload input is incomplete")
  else
    let mine := same_tag (u_ServiceID head) (u_Tag head) in
    if EXISTS (fun _ u => mine u && (bool_decide (u_Status u = Importing) || bool_decide (u_Status u = Deploying))) (uploads s)
    then Err ErrImageUploadChanged
    else
      let old (_ : string) u := mine u && bool_decide (u_Status u = Uploading) in
      let paths := (fun x => u_TemporaryPath (u_head x.2)) <$> List.filter (fun x => old x.1 x.2) (map_to_list (uploads s)) in
      let replaced := update_rows old (ended Superseded (Some ("superseded", "A newer upload replaced this upload")) (u_CreatedAtMillis head) expires) (uploads s) in
      if bool_decide (services s !! u_ServiceID head = None) then Err FOREIGN_KEY
      else if bool_decide (is_Some (uploads s !! id)) then Err (UNIQUE "service_image_uploads.id")
      else if EXISTS (fun _ u => bool_decide (u_TemporaryPath (u_head u) = u_TemporaryPath head)) (uploads s)
      then Err (UNIQUE "service_image_uploads.temporary_path")
      else Ok (paths, set_uploads (<[id := mkUpload head 0 [] Uploading None None None None None None (u_CreatedAtMillis head) expires]> replaced) s).

Definition findImageUpload (uploadID serviceID : string) (s : Images) : result goerr ImageUpload :=
  match uploads s !! uploadID with
  | Some u => if bool_decide (u_ServiceID (u_head u) = serviceID) then Ok u else Err ErrImageUploadNotFound
  | None => Err ErrImageUploadNotFound
  end.

Definition received (ranges : list ImageUploadByteRange) (length updated : Z) (u : ImageUpload) : ImageUpload :=
  mkUpload (u_head u) length ranges (u_Status u) (u_ImageRevisionID u) (u_DeploymentID u) (u_PreviewID u) (u_PreviewURL u)
    (u_ImageDigest u) (u_Error u) updated (u_ExpiresAtMillis u).
(** The upload after the part, and whether it is complete. *)
Definition RecordImageUploadPart (uploadID : string) (offset length updated : Z) (s : Images) : result goerr (ImageUpload * bool * Images) :=
  if bool_decide (uploadID = "") || (offset <? 0) || (length <=? 0) || (updated <=? 0)
  then Err (Msg "record image upload part input is incomplete")
  else match uploads s !! uploadID with
  | None => Err ErrImageUploadNotFound
  | Some current =>
      let expected := u_ExpectedLength (u_head current) in
      if negb (bool_decide (u_Status current = Uploading)) then Err ErrImageUploadChanged
      else if (i64 (offset + length) <? offset) || (expected <? i64 (offset + length)) then Err (Msg "upload part exceeds expected length")
      else if findExactRange (u_ReceivedRanges current) offset length
      then Ok (current, ImageUploadCoverageComplete (u_ReceivedRanges current) expected, s)
      else if rangesOverlap (u_ReceivedRanges current) offset length then Err ErrImageUploadRangeOverlap
      else
        let ranges := u_ReceivedRanges current ++ [mkRange offset length] in
        let total := i64 (u_ReceivedLength current + length) in
        if (total <? 0) || (expected <? total) then Err (Msg "CHECK constraint failed: received_length")
        else let u := received ranges total updated current in
             Ok (u, ImageUploadCoverageComplete ranges expected, set_uploads (<[uploadID := u]> (uploads s)) s)
  end.

Record CreateImageRevisionInput := mkCreateRevision {
  c_ID : string; c_UploadID : string; c_ServiceID : string; c_Tag : string; c_Kind : RevisionKind; c_ArchivePath : string;
  c_ArchiveSHA256 : string; c_Identity : ImageUploadIdentity; c_CreatedAtMillis : Z; c_ExpiresAtMillis : Z
}.
Definition to_importing (revision : string) (updated : Z) (u : ImageUpload) : ImageUpload :=
  mkUpload (u_head u) (u_ReceivedLength u) (u_ReceivedRanges u) Importing (Some revision) (u_DeploymentID u) (u_PreviewID u)
    (u_PreviewURL u) (u_ImageDigest u) (u_Error u) updated (u_ExpiresAtMillis u).
Definition CreateImageRevision (input : CreateImageRevisionInput) (s : Images) : result goerr Images :=
  if bool_decide (c_ID input = "") || bool_decide (c_UploadID input = "") || bool_decide (c_ServiceID input = "")
     || bool_decide (c_Tag input = "") || bool_decide (c_ArchivePath input = "") || negb (zlen (c_ArchiveSHA256 input) =? 64)
     || (c_CreatedAtMillis input <=? 0)
  then Err (Msg "create image revision input is incomplete")
  else if bool_decide (services s !! c_ServiceID input = None) then Err FOREIGN_KEY
  else if bool_decide (is_Some (revisions s !! c_ID input)) then Err (UNIQUE "service_image_revisions.id")
  else if EXISTS (fun _ r => bool_decide (i_ArchivePath r = c_ArchivePath input)) (revisions s)
  then Err (UNIQUE "service_image_revisions.archive_path")
  else
    let expires := if 0 <? c_ExpiresAtMillis input then Some (c_ExpiresAtMillis input) else None in
    let r := mkRevision (c_ServiceID input) (c_Tag input) (c_Kind input) (c_ArchivePath input) (c_ArchiveSHA256 input) None None None
               (c_Identity input) RImporting (c_CreatedAtMillis input) None None expires in
    match uploads s !! c_UploadID input with
    | Some u =>
        if bool_decide (u_ServiceID (u_head u) = c_ServiceID input) && bool_decide (u_Status u = Uploading)
           && (u_ReceivedLength u =? u_ExpectedLength (u_head u))
        then Ok (set_uploads (<[c_UploadID input := to_importing (c_ID input) (c_CreatedAtMillis input) u]> (uploads s))
                   (set_revisions (<[c_ID input := r]> (revisions s)) s))
        else Err ErrImageUploadChanged
    | None => Err ErrImageUploadChanged
    end.

Definition with_digest (digest : string) (preview : option string) (r : ImageRevision) : ImageRevision :=
  mkRevision (i_ServiceID r) (i_Tag r) (i_Kind r) (i_ArchivePath r) (i_ArchiveSHA256 r) (Some digest) (i_DeploymentID r) preview
    (i_Identity r) (i_Status r) (i_CreatedAtMillis r) (i_ActivatedAtMillis r) (i_RetiredAtMillis r) (i_ExpiresAtMillis r).
Definition to_deploying (digest : string) (preview : option string) (updated : Z) (u : ImageUpload) : ImageUpload :=
  mkUpload (u_head u) (u_ReceivedLength u) (u_ReceivedRanges u) Deploying (u_ImageRevisionID u) (u_DeploymentID u) preview
    (u_PreviewURL u) (Some digest) (u_Error u) updated (u_ExpiresAtMillis u).
Definition SetImageRevisionImported (revisionID uploadID digest previewID : string) (updated : Z) (s : Images) : result goerr Images :=
  if bool_decide (revisionID = "") || bool_decide (uploadID = "") || bool_decide (digest = "") || (updated <=? 0)
  then Err (Msg "import image revision input is incomplete")
  else match revisions s !! revisionID with
  | None => Err ErrImageRevisionNotFound
  | Some r =>
      if negb (bool_decide (i_Status r = RImporting)) then Err ErrImageRevisionNotFound
      else match uploads s !! uploadID with
      | None => Err ErrImageUploadChanged
      | Some u =>
          if bool_decide (u_ImageRevisionID u = Some revisionID) && bool_decide (u_Status u = Importing)
          then Ok (set_uploads (<[uploadID := to_deploying digest (nullable previewID) updated u]> (uploads s))
                     (set_revisions (<[revisionID := with_digest digest (nullable previewID) r]> (revisions s)) s))
          else Err ErrImageUploadChanged
      end
  end.

Definition revision_of (service tag : string) (r : ImageRevision) : bool := bool_decide (i_ServiceID r = service) && bool_decide (i_Tag r = tag).
Definition is_status (status : RevisionStatus) (r : ImageRevision) : bool := bool_decide (i_Status r = status).
(** The unique index on (service_id, tag) of the active revisions, when [id] becomes active. *)
Definition active_conflict (id : string) (r : ImageRevision) (m : gmap string ImageRevision) : bool :=
  EXISTS (fun id' r' => negb (bool_decide (id' = id)) && revision_of (i_ServiceID r) (i_Tag r) r' && is_status RActive r') m.
Definition completed (activated previewExpires : Z) (r : ImageRevision) : ImageRevision :=
  mkRevision (i_ServiceID r) (i_Tag r) (i_Kind r) (i_ArchivePath r) (i_ArchiveSHA256 r) (i_ImageDigest r) (i_DeploymentID r)
    (i_PreviewID r) (i_Identity r) RActive (i_CreatedAtMillis r) (Some (default activated (i_ActivatedAtMillis r)))
    (i_RetiredAtMillis r) (match i_Kind r with Preview => Some previewExpires | Production => None end).
Definition to_succeeded (url : option string) (updated expires : Z) (u : ImageUpload) : ImageUpload :=
  mkUpload (u_head u) (u_ReceivedLength u) (u_ReceivedRanges u) Succeeded (u_ImageRevisionID u) (u_DeploymentID u) (u_PreviewID u)
    url (u_ImageDigest u) (u_Error u) updated expires.

Definition CompleteImageUpload (uploadID revisionID previewURL : string) (completedAt uploadExpires previewExpires : Z) (s : Images) : result goerr Images :=
  if bool_decide (uploadID = "") || bool_decide (revisionID = "") || (completedAt <=? 0) || (uploadExpires <=? completedAt)
     || (previewExpires <=? completedAt)
  then Err (Msg "complete image upload input is incomplete")
  else match revisions s !! revisionID with
  | None => Err ErrImageRevisionNotFound
  | Some r =>
      if negb (is_status RImporting r || is_status RActive r) then Err ErrImageRevisionNotFound
      else
        let retired := update_rows (fun id r' => revision_of (i_ServiceID r) (i_Tag r) r' && is_status RActive r' && negb (bool_decide (id = revisionID)))
                         (with_status RRetired (Some completedAt)) (revisions s) in
        match uploads s !! uploadID with
        | None => Err ErrImageUploadChanged
        | Some u =>
            if bool_decide (u_ImageRevisionID u = Some revisionID) && bool_decide (u_Status u = Deploying)
            then Ok (set_uploads (<[uploadID := to_succeeded (nullable previewURL) completedAt uploadExpires u]> (uploads s))
                       (set_revisions (<[revisionID := completed completedAt previewExpires r]> retired) s))
            else Err ErrImageUploadChanged
        end
  end.

(** [CASE WHEN IFNULL(image_digest, '') != '' THEN 'retired' ELSE 'failed' END] *)
Definition abandon (now : Z) (r : ImageRevision) : ImageRevision := with_status (if imported r then RRetired else RFailed) (Some now) r.
Definition FailImageUpload (uploadID code message : string) (failedAt expires : Z) (s : Images) : result goerr Images :=
  if bool_decide (uploadID = "") || bool_decide (code = "") || bool_decide (message = "") || (failedAt <=? 0) || (expires <=? failedAt)
  then Err (Msg "fail image upload input is incomplete")
  else
    let linked := uploads s !! uploadID ≫= u_ImageRevisionID in
    let rs := update_rows (fun id r => bool_decide (linked = Some id) && is_status RImporting r) (abandon failedAt) (revisions s) in
    match uploads s !! uploadID with
    | None => Err ErrImageUploadChanged
    | Some u =>
        if in_flight (u_Status u)
        then Ok (set_uploads (<[uploadID := ended Failed (Some (code, message)) failedAt expires u]> (uploads s)) (set_revisions rs s))
        else Err ErrImageUploadChanged
    end.

Definition findImageRevision (revisionID : string) (s : Images) : result goerr ImageRevision :=
  match revisions s !! revisionID with Some r => Ok r | None => Err ErrImageRevisionNotFound end.
Definition ActiveProductionImageRevision (serviceID : string) (s : Images) : result goerr (string * ImageRevision) :=
  match SELECT i_CreatedAtMillis (fun _ r => revision_of serviceID "latest" r && is_status RActive r) (revisions s) with
  | x :: _ => Ok x
  | [] => Err ErrImageRevisionNotFound
  end.
(** Of all statuses: the query lists the four that there are. *)
Definition LatestReusableProductionRevision (serviceID : string) (s : Images) : result goerr (string * ImageRevision) :=
  if bool_decide (serviceID = "") then Err (Msg "service ID is required")
  else match last (SELECT i_CreatedAtMillis (fun _ r => bool_decide (i_ServiceID r = serviceID) && bool_decide (i_Kind r = Production)
                                   && imported r && negb (bool_decide (i_ArchivePath r = ""))) (revisions s)) with
  | Some x => Ok x
  | None => Err ErrImageRevisionNotFound
  end.

(** ** The statements of deployments.go and store.go on images *)

Definition published (deployment : string) (activated : Z) (r : ImageRevision) : ImageRevision :=
  mkRevision (i_ServiceID r) (i_Tag r) (i_Kind r) (i_ArchivePath r) (i_ArchiveSHA256 r) (i_ImageDigest r) (Some deployment)
    (i_PreviewID r) (i_Identity r) RActive (i_CreatedAtMillis r) (Some activated) None None.
Definition linked (deployment : string) (u : ImageUpload) : ImageUpload :=
  mkUpload (u_head u) (u_ReceivedLength u) (u_ReceivedRanges u) (u_Status u) (u_ImageRevisionID u) (Some deployment) (u_PreviewID u)
    (u_PreviewURL u) (u_ImageDigest u) (u_Error u) (u_UpdatedAtMillis u) (u_ExpiresAtMillis u).
Definition set_services v s := mkImages (uploads s) (revisions s) (previews s) v (deploymentRevisions s) (runningBackups s).

(** ActivateDeployment after its guards, for the images: [revision] is the deployment's
    image_revision_id. *)
Definition publishRevision (serviceID deploymentID : string) (revision : option string) (now : Z) (s : Images) : result goerr Images :=
  let revision' := nullable (default "" revision) in
  let rs := update_rows (fun id r => bool_decide (i_ServiceID r = serviceID) && bool_decide (i_Kind r = Production) && is_status RActive r
                           && negb (bool_decide (Some id = revision'))) (with_status RRetired (Some now)) (revisions s) in
  let point := set_services (<[serviceID := Some deploymentID]> (services s)) in
  match revision with
  | None => Ok (point (set_revisions rs s))
  | Some id =>
      match rs !! id with
      | None => Err ErrServiceChanged
      | Some r =>
          if bool_decide (i_ServiceID r = serviceID) && bool_decide (i_Kind r = Production) && imported r
          then if active_conflict id r rs then Err (UNIQUE "service_image_revisions.service_id, service_image_revisions.tag")
               else Ok (point (set_uploads (update_rows (fun _ u => bool_decide (u_ImageRevisionID u = Some id) && bool_decide (u_Status u = Deploying))
                                             (linked deploymentID) (uploads s))
                                (set_revisions (<[id := published deploymentID now r]> rs) s)))
          else Err ErrServiceChanged
      end
  end.

Definition interruptImages (now : Z) (s : Images) : Images :=
  mkImages
    (update_rows (fun _ u => in_flight (u_Status u)) (ended Failed (Some ("daemon_restarted", "Upload interrupted by daemon restart")) now now) (uploads s))
    (update_rows (fun _ r => is_status RImporting r) (abandon now) (revisions s))
    (update_rows (fun _ p => bool_decide (p_Status p = PDeploying)) (fun p => preview_status PInterrupted (p_Error p) now (Some now) p) (previews s))
    (services s) (deploymentRevisions s) ∅.

(** ** image_cleanup.go *)

Inductive ImageCleanupMode := ImageCleanupStandard | ImageCleanupCritical | ImageCleanupEmergency.
Record ImageCleanupFiles := mkCleanupFiles { UploadPaths : list string; ArchivePaths : list string }.

Definition ImageStorageFiles (s : Images) : ImageCleanupFiles :=
  mkCleanupFiles (merge_sort String.le ((fun x => u_TemporaryPath (u_head x.2)) <$> map_to_list (uploads s)))
    (merge_sort String.le ((fun x => i_ArchivePath x.2) <$> map_to_list (revisions s))).

Definition selected (expiresAtOrBefore : Z) (all : bool) (_ : string) (u : ImageUpload) : bool :=
  in_flight (u_Status u) && (all || (u_ExpiresAtMillis u <=? expiresAtOrBefore)).
Definition ActiveImageUploads (expiresAtOrBefore : Z) (all : bool) (s : Images) : result goerr (list (string * ImageUpload)) :=
  if negb all && (expiresAtOrBefore <=? 0) then Err (Msg "image upload expiry is invalid")
  else Ok (SELECT (fun u => u_CreatedAtMillis (u_head u)) (selected expiresAtOrBefore all) (uploads s)).
Definition CancelImageUploads (expiresAtOrBefore : Z) (all : bool) (now : Z) (s : Images) : result goerr (list string * Images) :=
  if (expiresAtOrBefore <=? 0) || (now <=? 0) then Err (Msg "image upload cancellation time is invalid")
  else
    let paths := (fun x => u_TemporaryPath (u_head x.2)) <$> List.filter (fun x => selected expiresAtOrBefore all x.1 x.2) (map_to_list (uploads s)) in
    let us := update_rows (selected expiresAtOrBefore all) (ended Failed (Some ("upload_cancelled", "Upload cancelled by image cleanup")) now now) (uploads s) in
    let cancelled id := EXISTS (fun _ u => bool_decide (u_ImageRevisionID u = Some id) && bool_decide (u_Status u = Failed)
                                        && bool_decide (fst <$> u_Error u = Some "upload_cancelled")) us in
    Ok (paths, set_revisions (update_rows (fun id r => is_status RImporting r && cancelled id) (abandon now) (revisions s)) (set_uploads us s)).

(** [row_number() OVER (PARTITION BY service_id, kind ORDER BY created_at DESC, id DESC)]
    of a revision among the revisions that satisfy [p]. *)
Definition newer (id' : string) (r' : ImageRevision) (id : string) (r : ImageRevision) : bool :=
  (i_CreatedAtMillis r <? i_CreatedAtMillis r') || ((i_CreatedAtMillis r' =? i_CreatedAtMillis r) && String.ltb id id').
Definition same_partition (r' r : ImageRevision) : bool := bool_decide (i_ServiceID r' = i_ServiceID r) && bool_decide (i_Kind r' = i_Kind r).
Definition row_number (p : ImageRevision -> bool) (id : string) (r : ImageRevision) (m : gmap string ImageRevision) : Z :=
  1 + Z.of_nat (length (List.filter (fun x => p x.2 && same_partition x.2 r && newer x.1 x.2 id r) (map_to_list m))).
Definition imageRevisionCleanupCondition (mode : ImageCleanupMode) (revisionsToKeep : Z) (m : gmap string ImageRevision) (id : string) (r : ImageRevision) : bool :=
  is_status RFailed r
  || is_status RRetired r &&
     match mode with
     | ImageCleanupStandard => negb (row_number (fun r' => is_status RActive r' || is_status RRetired r') id r m <=? revisionsToKeep)
     | ImageCleanupCritical => negb (row_number (is_status RRetired) id r m =? 1)
     | ImageCleanupEmergency => true
     end.

Definition active_deployment (id : string) (s : Images) : bool := EXISTS (fun _ active => bool_decide (active = Some id)) (services s).
Definition active_preview (id : string) (s : Images) : bool :=
  EXISTS (fun _ p => bool_decide (p_ImageRevisionID p = Some id) && bool_decide (p_Status p = PActive)) (previews s).

(** [ON DELETE SET NULL] of the references to a deployment and to a revision. *)
Definition unset (gone : string -> bool) (x : option string) : option string := match x with Some id => if gone id then None else Some id | None => None end.
Definition forget_deployments (gone : string -> bool) (s : Images) : Images :=
  set_uploads ((fun u => mkUpload (u_head u) (u_ReceivedLength u) (u_ReceivedRanges u) (u_Status u) (u_ImageRevisionID u) (unset gone (u_DeploymentID u))
                           (u_PreviewID u) (u_PreviewURL u) (u_ImageDigest u) (u_Error u) (u_UpdatedAtMillis u) (u_ExpiresAtMillis u)) <$> uploads s)
    (set_revisions ((fun r => mkRevision (i_ServiceID r) (i_Tag r) (i_Kind r) (i_ArchivePath r) (i_ArchiveSHA256 r) (i_ImageDigest r)
                                (unset gone (i_DeploymentID r)) (i_PreviewID r) (i_Identity r) (i_Status r) (i_CreatedAtMillis r)
                                (i_ActivatedAtMillis r) (i_RetiredAtMillis r) (i_ExpiresAtMillis r)) <$> revisions s)
       (mkImages (uploads s) (revisions s) (previews s) (services s)
          (filter (fun x => gone x.1 = false) (deploymentRevisions s)) (runningBackups s))).
Definition forget_revision (id : string) (s : Images) : Images :=
  let gone id' := bool_decide (id' = id) in
  mkImages
    ((fun u => mkUpload (u_head u) (u_ReceivedLength u) (u_ReceivedRanges u) (u_Status u) (unset gone (u_ImageRevisionID u)) (u_DeploymentID u)
                 (u_PreviewID u) (u_PreviewURL u) (u_ImageDigest u) (u_Error u) (u_UpdatedAtMillis u) (u_ExpiresAtMillis u)) <$> uploads s)
    (delete id (revisions s))
    ((fun p => mkPreview (p_ServiceID p) (p_Tag p) (unset gone (p_ImageRevisionID p)) (p_Hostname p) (p_TargetPort p) (p_Digest p) (p_Reference p)
                 (p_Hash p) (p_Status p) (p_Error p) (p_Records p) (p_Created p) (p_Updated p) (p_Finished p) (p_Expires p)) <$> previews s)
    (services s) (deploymentRevisions s) (runningBackups s).

(** The two DELETE statements for one candidate. *)
Definition stale_deployment (id : string) (s : Images) (deployment : string) : bool :=
  bool_decide (deploymentRevisions s !! deployment = Some (Some id)) && negb (active_deployment deployment s).
Definition deletable (id : string) (s : Images) : bool :=
  match revisions s !! id with
  | Some r => negb (is_status RImporting r) && negb (match i_DeploymentID r with Some d => active_deployment d s | None => false end)
              && negb (active_preview id s) && negb (bool_decide (id ∈ runningBackups s))
  | None => false
  end.
Definition delete_candidate (acc : list string * Images) (item : string * string) : list string * Images :=
  let s := forget_deployments (stale_deployment item.1 acc.2) acc.2 in
  if deletable item.1 s then (acc.1 ++ [item.2], forget_revision item.1 s) else (acc.1, s).

Definition expired (now : Z) (u : ImageUpload) : bool := negb (in_flight (u_Status u)) && (u_ExpiresAtMillis u <=? now).
Definition DeleteImageCleanupCandidates (mode : ImageCleanupMode) (now revisionsToKeep : Z) (s : Images) : result goerr (ImageCleanupFiles * Images) :=
  if now <=? 0 then Err (Msg "image cleanup time is invalid")
  else if revisionsToKeep <=? 0 then Err (Msg "retained image revision count is invalid")
  else
    let paths := (fun x => u_TemporaryPath (u_head x.2)) <$> List.filter (fun x => expired now x.2) (map_to_list (uploads s)) in
    let s := set_uploads (filter (fun x => expired now x.2 = false) (uploads s)) s in
    let candidates := (fun x => (x.1, i_ArchivePath x.2)) <$>
      List.filter (fun x => imageRevisionCleanupCondition mode revisionsToKeep (revisions s) x.1 x.2 && negb (bool_decide (x.1 ∈ runningBackups s)))
        (map_to_list (revisions s)) in
    let '(archives, s) := fold_left delete_candidate candidates ([], s) in
    Ok (mkCleanupFiles paths archives, s).

(** ** preview_deployments.go *)

Definition PreviewRetentionMillis : Z := 14 * 24 * 60 * 60 * 1000.
Record BeginPreviewInput := mkBeginPreview {
  b_ID : string; b_ServiceID : string; b_Tag : string; b_ImageRevisionID : string; b_Hostname : string; b_TargetPort : Z;
  b_ImageDigest : string; b_ImageReference : string; b_ConfigHash : string; b_SnapshotJSON : string; b_Created : Z; b_Expires : Z
}.
Definition BeginPreviewDeployment (input : BeginPreviewInput) (s : Images) : result goerr Images :=
  if bool_decide (b_ID input = "") || bool_decide (b_ServiceID input = "") || bool_decide (b_Tag input = "")
     || bool_decide (b_ImageRevisionID input = "") || bool_decide (b_Hostname input = "") || (b_TargetPort input <? 1)
     || (65535 <? b_TargetPort input) || bool_decide (b_ImageDigest input = "") || bool_decide (b_ImageReference input = "")
     || bool_decide (b_ConfigHash input = "") || bool_decide (b_SnapshotJSON input = "") || (b_Created input <=? 0)
     || (b_Expires input <=? b_Created input)
  then Err (Msg "begin preview deployment input is incomplete")
  else if bool_decide (services s !! b_ServiceID input = None) || bool_decide (revisions s !! b_ImageRevisionID input = None) then Err FOREIGN_KEY
  else if bool_decide (is_Some (previews s !! b_ID input)) then Err (UNIQUE "preview_deployments.id")
  else Ok (set_previews (<[b_ID input := mkPreview (b_ServiceID input) (b_Tag input) (Some (b_ImageRevisionID input)) (b_Hostname input)
                                           (b_TargetPort input) (b_ImageDigest input) (b_ImageReference input) (b_ConfigHash input) PDeploying None []
                                           (b_Created input) (b_Created input) None (b_Expires input)]> (previews s)) s).

Definition is_preview (status : PreviewStatus) (p : PreviewRow) : bool := bool_decide (p_Status p = status).
Definition finished (p : PreviewRow) : bool := is_preview PFailed p || is_preview PStopped p || is_preview PInterrupted p.
Definition with_records (records : list string) (p : PreviewRow) : PreviewRow :=
  mkPreview (p_ServiceID p) (p_Tag p) (p_ImageRevisionID p) (p_Hostname p) (p_TargetPort p) (p_Digest p) (p_Reference p) (p_Hash p)
    (p_Status p) (p_Error p) records (p_Created p) (p_Updated p) (p_Finished p) (p_Expires p).
Definition SetPreviewDNSRecords (previewID : string) (records : list string) (s : Images) : result goerr Images :=
  match previews s !! previewID with
  | Some p => if is_preview PDeploying p || is_preview PActive p then Ok (set_previews (<[previewID := with_records records p]> (previews s)) s)
              else Err ErrServiceChanged
  | None => Err ErrServiceChanged
  end.

Definition preview_of (service tag : string) (p : PreviewRow) : bool := bool_decide (p_ServiceID p = service) && bool_decide (p_Tag p = tag).
Definition activated (records : list string) (now : Z) (p : PreviewRow) : PreviewRow :=
  mkPreview (p_ServiceID p) (p_Tag p) (p_ImageRevisionID p) (p_Hostname p) (p_TargetPort p) (p_Digest p) (p_Reference p) (p_Hash p)
    PActive (p_Error p) records (p_Created p) now (p_Finished p) (now + PreviewRetentionMillis).
Definition previewed (preview : string) (now : Z) (r : ImageRevision) : ImageRevision :=
  mkRevision (i_ServiceID r) (i_Tag r) (i_Kind r) (i_ArchivePath r) (i_ArchiveSHA256 r) (i_ImageDigest r) (i_DeploymentID r)
    (Some preview) (i_Identity r) RActive (i_CreatedAtMillis r) (Some now) None (Some (now + PreviewRetentionMillis)).

Definition ActivatePreviewDeployment (previewID expectedActiveID : string) (records : list string) (now : Z) (s : Images) : result goerr Images :=
  match previews s !! previewID with
  | Some p =>
      match is_preview PDeploying p, p_ImageRevisionID p with
      | true, Some revision =>
          let current := head (SELECT p_Created (fun _ p' => preview_of (p_ServiceID p) (p_Tag p) p' && is_preview PActive p') (previews s)) in
          if negb (bool_decide (default "" (fst <$> current) = expectedActiveID)) then Err ErrServiceChanged
          else
            let ps := match current with
                      | Some (id, _) => update_rows (fun id' p' => bool_decide (id' = id) && is_preview PActive p')
                                          (fun p' => preview_status PStopped (p_Error p') now (Some now) p') (previews s)
                      | None => previews s
                      end in
            let rs := update_rows (fun id r => revision_of (p_ServiceID p) (p_Tag p) r && bool_decide (i_Kind r = Preview) && is_status RActive r
                                     && negb (bool_decide (id = revision))) (with_status RRetired (Some now)) (revisions s) in
            if EXISTS (fun _ p' => is_preview PActive p' && bool_decide (p_Hostname p' = p_Hostname p)) ps
            then Err (UNIQUE "preview_deployments.hostname")
            else match rs !! revision with
            | None => Err ErrServiceChanged
            | Some r =>
                if revision_of (p_ServiceID p) (p_Tag p) r && bool_decide (i_Kind r = Preview) && imported r
                then if active_conflict revision r rs then Err (UNIQUE "service_image_revisions.service_id, service_image_revisions.tag")
                     else Ok (set_previews (<[previewID := activated records now p]> ps) (set_revisions (<[revision := previewed previewID now r]> rs) s))
                else Err ErrServiceChanged
            end
      | _, _ => Err ErrServiceChanged
      end
  | None => Err ErrServiceChanged
  end.

(** [failed] is the status "failed", otherwise "interrupted". *)
Definition FinishPreviewDeployment (previewID : string) (failed : bool) (code message : string) (now : Z) (s : Images) : result goerr Images :=
  match previews s !! previewID with
  | Some p => if is_preview PDeploying p
              then Ok (set_previews (<[previewID := preview_status (if failed then PFailed else PInterrupted) (Some (code, message)) now (Some now) p]> (previews s)) s)
              else Err ErrServiceChanged
  | None => Err ErrServiceChanged
  end.

Definition StopPreviewDeployment (previewID : string) (now : Z) (s : Images) : Images :=
  match previews s !! previewID with
  | Some p =>
      if is_preview PActive p
      then set_previews (<[previewID := preview_status PStopped (p_Error p) now (Some now) p]> (previews s))
             (set_revisions (update_rows (fun id r => bool_decide (p_ImageRevisionID p = Some id) && is_status RActive r)
                               (with_status RRetired (Some now)) (revisions s)) s)
      else s
  | None => s
  end.

(** What scanPreview makes of a row; the column image_revision_id, which may be NULL,
    is scanned into a string. *)
Record PreviewDeployment := mkPreviewDeployment { d_ID : string; d_ImageRevisionID : string; d_row : PreviewRow }.
Definition ErrScanNull : goerr := Msg "sql: Scan error on column index 3, name image_revision_id: converting NULL to string is unsupported".
Definition scanPreview (row : string * PreviewRow) : result goerr PreviewDeployment :=
  match p_ImageRevisionID row.2 with
  | Some revision => Ok (mkPreviewDeployment row.1 revision row.2)
  | None => Err ErrScanNull
  end.
Definition previewList (rows : list (string * PreviewRow)) : result goerr (list PreviewDeployment) := mapM_res scanPreview rows.

Definition ErrNoRows : goerr := Sentinel "sql.ErrNoRows" "sql: no rows in result set".
Definition ActivePreviewDeployment (serviceID tag : string) (s : Images) : result goerr PreviewDeployment :=
  match SELECT p_Created (fun _ p => preview_of serviceID tag p && is_preview PActive p) (previews s) with
  | row :: _ => scanPreview row
  | [] => Err ErrNoRows
  end.
Definition ActivePreviewDeployments (s : Images) : result goerr (list PreviewDeployment) :=
  previewList (SELECT p_Created (fun _ p => is_preview PActive p) (previews s)).
Definition ExpiredActivePreviewDeployments (now : Z) (s : Images) : result goerr (list PreviewDeployment) :=
  previewList (SELECT p_Expires (fun _ p => is_preview PActive p && (p_Expires p <=? now)) (previews s)).
Definition FinishedPreviewDeploymentsWithDNS (s : Images) : result goerr (list PreviewDeployment) :=
  previewList (SELECT p_Created (fun _ p => finished p && negb (bool_decide (p_Records p = []))) (previews s)).
Definition ClearPreviewDNSRecords (previewID : string) (s : Images) : Images :=
  set_previews (update_rows (fun id _ => bool_decide (id = previewID)) (with_records []) (previews s)) s.
Definition removable (before : Z) (p : PreviewRow) : bool :=
  finished p && (match p_Finished p with Some t => t <? before | None => false end) && bool_decide (p_Records p = []).
Definition DeleteFinishedPreviewDeployments (before : Z) (s : Images) : result goerr (list PreviewDeployment * Images) :=
  let? items := previewList (SELECT (fun p => default 0 (p_Finished p)) (fun _ p => removable before p) (previews s)) in
  Ok (items, set_previews (filter (fun x => removable before x.2 = false) (previews s)) s).
(** For a service of the project. *)
Definition PreviewDeploymentsForService (serviceID : string) (s : Images) : result goerr (list PreviewDeployment) :=
  if bool_decide (services s !! serviceID = None) then Err ErrServiceNotFound
  else previewList (rev (SELECT p_Created (fun _ p => bool_decide (p_ServiceID p = serviceID)) (previews s))).
