(* ===== verification/ImageProofs.v ===== *)
(** * ImageProofs: theorems about the tables of uploaded images

    [ImageOp] has every transaction of [ImageStore] and the changes others make to the
    tables it refers to.  What holds of a row under each of them is a preorder on rows
    ([upload_le], [revision_le], [preview_le]); [evolves] lifts it to tables. *)

From S2P Require Import Prelude Names ServiceConfig DeploymentStore ImageStore.

(** ** Tables *)

Section Tables.
Context {V : Type}.
Implicit Types (m : gmap string V) (p : string -> V -> bool).

Lemma lookup_update p f m k : update_rows p f m !! k = (fun v => if p k v then f v else v) <$> m !! k.
Proof. unfold update_rows. rewrite map_lookup_imap. by destruct (m !! k). Qed.

Lemma EXISTS_spec p m : EXISTS p m = true <-> exists k v, m !! k = Some v /\ p k v = true.
Proof.
  unfold EXISTS. rewrite existsb_exists. split.
  - intros [[k v] [Hin Hp]]. apply list_elem_of_In, elem_of_map_to_list in Hin. eauto.
  - intros (k & v & Hm & Hp). exists (k, v). by rewrite <- list_elem_of_In, elem_of_map_to_list.
Qed.
Lemma EXISTS_false p m : EXISTS p m = false <-> forall k v, m !! k = Some v -> p k v = false.
Proof.
  rewrite <- not_true_iff_false, EXISTS_spec. split.
  - intros Hn k v Hm. destruct (p k v) eqn:Hp; [|done]. exfalso. apply Hn. eauto.
  - intros Hall (k & v & Hm & Hp). by rewrite (Hall _ _ Hm) in Hp.
Qed.

Lemma elem_of_SELECT key p m k v : (k, v) ∈ SELECT key p m <-> m !! k = Some v /\ p k v = true.
Proof.
  unfold SELECT. rewrite merge_sort_Permutation, !list_elem_of_In, List.filter_In, <- list_elem_of_In, elem_of_map_to_list. done.
Qed.

(** Every row of [m'] is the successor of one of [m]. *)
Definition evolves (R : relation V) m m' : Prop := forall k v', m' !! k = Some v' -> exists v, m !! k = Some v /\ R v v'.

Context (R : relation V) `{!PreOrder R}.
#[global] Instance evolves_preorder : PreOrder (evolves R).
Proof.
  split.
  - intros m k v Hv. by exists v.
  - intros m1 m2 m3 H12 H23 k v3 H3. destruct (H23 _ _ H3) as (v2 & H2 & ?). destruct (H12 _ _ H2) as (v1 & ? & ?).
    exists v1. split; [done|]. by etrans.
Qed.
Lemma table_update p f m : (forall k v, m !! k = Some v -> p k v = true -> R v (f v)) -> evolves R m (update_rows p f m).
Proof.
  intros Hf k v'. rewrite lookup_update. destruct (m !! k) as [v|] eqn:Hv; [|done]. intros [= <-].
  exists v. split; [done|]. destruct (p k v) eqn:Hp; [by eapply Hf|done].
Qed.
Lemma evolves_fmap f m : (forall v, R v (f v)) -> evolves R m (f <$> m).
Proof. intros Hf k v'. rewrite lookup_fmap. destruct (m !! k) as [v|] eqn:Hv; [|done]. intros [= <-]. eauto. Qed.
Lemma evolves_insert m k v v' : m !! k = Some v -> R v v' -> evolves R m (<[k := v']> m).
Proof.
  intros Hv HR k0 v0. destruct (decide (k0 = k)) as [->|Hk].
  - rewrite lookup_insert_eq. intros [= <-]. eauto.
  - rewrite lookup_insert_ne by done. intros H. by exists v0.
Qed.
Lemma evolves_delete m k : evolves R m (delete k m).
Proof. intros k0 v. rewrite lookup_delete_Some. intros [_ ?]. by exists v. Qed.
Lemma evolves_filter (P : string * V -> Prop) `{!forall x, Decision (P x)} m : evolves R m (filter P m).
Proof. intros k v. rewrite map_lookup_filter_Some. intros [? _]. by exists v. Qed.

(** At most one row of [q] per key [key]. *)
Definition unique_by {K} (q : V -> bool) (key : V -> K) m : Prop :=
  forall k1 k2 v1 v2, m !! k1 = Some v1 -> m !! k2 = Some v2 -> q v1 = true -> q v2 = true -> key v1 = key v2 -> k1 = k2.
Lemma unique_evolves {K} (q : V -> bool) (key : V -> K) m m' :
  (forall v v', R v v' -> key v' = key v /\ (q v' = true -> q v = true)) -> evolves R m m' -> unique_by q key m -> unique_by q key m'.
Proof.
  intros HR He Hu k1 k2 v1 v2 H1 H2 Hq1 Hq2 Hk.
  destruct (He _ _ H1) as (w1 & Hw1 & HR1), (He _ _ H2) as (w2 & Hw2 & HR2).
  apply HR in HR1 as [E1 ?], HR2 as [E2 ?]. apply (Hu k1 k2 w1 w2); auto. congruence.
Qed.
(** A row that becomes one of [q] where no other row of its key is. *)
Lemma unique_insert {K} (q : V -> bool) (key : V -> K) m k v :
  unique_by q key m -> (q v = true -> forall k' v', m !! k' = Some v' -> k' <> k -> q v' = true -> key v' <> key v) -> unique_by q key (<[k := v]> m).
Proof.
  intros Hu Hn k1 k2 v1 v2 H1 H2 Hq1 Hq2 Hk.
  destruct (decide (k1 = k)) as [->|N1], (decide (k2 = k)) as [->|N2]; [done|..].
  - rewrite lookup_insert_eq in H1. rewrite lookup_insert_ne in H2 by done. injection H1 as <-. destruct (Hn Hq1 _ _ H2 N2 Hq2); congruence.
  - rewrite lookup_insert_eq in H2. rewrite lookup_insert_ne in H1 by done. injection H2 as <-. destruct (Hn Hq2 _ _ H1 N1 Hq1); congruence.
  - rewrite lookup_insert_ne in H1, H2 by done. by apply (Hu k1 k2 v1 v2).
Qed.
End Tables.

Create HintDb tables.
#[export] Hint Resolve table_update evolves_fmap evolves_insert evolves_delete evolves_filter : tables.

(** ** Ranges of an upload *)

Definition range_sum (l : list ImageUploadByteRange) : Z := foldr (fun x n => Length x + n) 0 l.
Definition disjoint (a b : ImageUploadByteRange) : Prop := Offset a + Length a <= Offset b \/ Offset b + Length b <= Offset a.
Definition in_bounds (expected : Z) (x : ImageUploadByteRange) : Prop := 0 <= Offset x /\ 0 < Length x /\ Offset x + Length x <= expected.
Record wf_ranges (expected : Z) (l : list ImageUploadByteRange) : Prop := {
  ranges_in : Forall (in_bounds expected) l;
  ranges_nodup : NoDup l;
  ranges_disjoint : forall a b, a ∈ l -> b ∈ l -> a <> b -> disjoint a b
}.

Lemma range_sum_perm l l' : l ≡ₚ l' -> range_sum l = range_sum l'.
Proof. induction 1; simpl; lia. Qed.
Lemma range_sum_snoc l x : range_sum (l ++ [x]) = range_sum l + Length x.
Proof. induction l; simpl; lia. Qed.

(** Disjoint ranges from [c] to [expected], in order: no more bytes than there are, and
    all of them only without a gap. *)
Lemma cover_spec expected l : forall c, 0 <= c <= expected -> expected <= max_int64 -> wf_ranges expected l -> StronglySorted range_le l ->
  (forall x, x ∈ l -> c <= Offset x) ->
  range_sum l <= expected - c /\ (cover c l = Some expected <-> range_sum l = expected - c).
Proof.
  induction l as [|x l IH]; intros c Hc Hmax [Hin Hnd Hdis] Hs Hlow; simpl.
  - split; [lia|]. split; [by intros [= ->]; lia|]. intros. f_equal. lia.
  - apply Forall_cons in Hin as [[Ho [Hl Hb]] Hin]. apply NoDup_cons in Hnd as [Hx Hnd].
    apply StronglySorted_inv in Hs as [Hs Hle]. pose proof (Hlow x ltac:(left)) as Hcx.
    assert (forall y, y ∈ l -> Offset x + Length x <= Offset y) as Hafter.
    { intros y Hy. rewrite Forall_forall in Hle, Hin. pose proof (Hle y Hy) as Hxy. unfold range_le in Hxy. pose proof (Hin y Hy) as Hyb.
      destruct (Hdis x y ltac:(left) ltac:(by right)) as [?|?]; [by intros ->|lia|]. destruct Hyb. lia. }
    assert (wf_ranges expected l) as Hwf by (split; [done..|]; intros a b ??; apply Hdis; by right).
    destruct (IH (Offset x + Length x)) as [IHle IHeq]; [lia|done..|].
    split; [lia|]. destruct (Z.eqb_spec (Offset x) c) as [Hex|Hne]; simpl.
    + rewrite (proj2 (Z.leb_gt _ _)) by lia. rewrite i64_small by (unfold min_int64; lia). rewrite <- Hex, IHeq. lia.
    + split; [done|]. lia.
Qed.

Lemma wf_ranges_perm expected l l' : l ≡ₚ l' -> wf_ranges expected l -> wf_ranges expected l'.
Proof.
  intros Hp [Hin Hnd Hdis]. split; [by rewrite <- Hp..|]. intros a b. rewrite <- Hp. apply Hdis.
Qed.

Lemma coverage_spec expected l : 0 < expected <= max_int64 -> wf_ranges expected l ->
  range_sum l <= expected /\ (ImageUploadCoverageComplete l expected = true <-> range_sum l = expected).
Proof.
  intros He Hwf. pose proof (merge_sort_Permutation range_le l) as Hp. apply symmetry in Hp.
  destruct (cover_spec expected (merge_sort range_le l) 0) as [Hle Hiff]; [lia..| | | |].
  - by eapply wf_ranges_perm.
  - apply StronglySorted_merge_sort; apply _.
  - intros x. rewrite <- Hp. intros Hx. apply (proj1 (Forall_forall _ _) (ranges_in _ _ Hwf)) in Hx as [??]. lia.
  - rewrite <- (range_sum_perm _ _ Hp) in Hle, Hiff. unfold ImageUploadCoverageComplete.
    rewrite (proj2 (Z.leb_gt _ _)) by lia. split; [lia|]. rewrite bool_decide_eq_true, Hiff. lia.
Qed.

(** The check of RecordImageUploadPart keeps ranges disjoint. *)
Lemma wf_ranges_snoc expected l offset length : expected <= max_int64 -> wf_ranges expected l -> in_bounds expected (mkRange offset length) ->
  rangesOverlap l offset length = false -> wf_ranges expected (l ++ [mkRange offset length]).
Proof.
  intros Hmax [Hin Hnd Hdis] Hb Hno.
  assert (forall x, x ∈ l -> disjoint x (mkRange offset length)) as Hnew.
  { intros x Hx. pose proof (proj1 (Forall_forall _ _) Hin x Hx) as (? & ? & ?). destruct Hb as (? & ? & ?). simpl in *.
    unfold rangesOverlap in Hno. rewrite !i64_small in Hno by (unfold min_int64; lia).
    destruct (existsb _ l) eqn:E; [done|]. rewrite <- not_true_iff_false, existsb_exists in E.
    destruct (decide (disjoint x (mkRange offset length))) as [|Hd]; [done|]. exfalso. apply E. exists x.
    rewrite <- list_elem_of_In. split; [done|]. unfold disjoint in Hd. simpl in Hd. rewrite i64_small by (unfold min_int64; lia). lia. }
  split.
  - apply Forall_app. by rewrite Forall_singleton.
  - apply NoDup_app. split; [done|]. split; [|apply NoDup_singleton].
    intros x Hx ->%list_elem_of_singleton. destruct (Hnew _ Hx), Hb as (? & ? & ?); simpl in *; lia.
  - intros a b. rewrite !elem_of_app, !list_elem_of_singleton. intros [Ha| ->] [Hb'| ->] Hne; [by apply Hdis|by apply Hnew| |done].
    destruct (Hnew _ Hb'); [by right|by left].
Qed.

(** ** Every transaction *)

Inductive ImageOp :=
| OpBegin (id : string) (head : UploadHead) (expires : Z)
| OpPart (uploadID : string) (offset length updated : Z)
| OpCreate (input : CreateImageRevisionInput)
| OpImported (revisionID uploadID digest previewID : string) (updated : Z)
| OpComplete (uploadID revisionID url : string) (now uploadExpires previewExpires : Z)
| OpFail (uploadID code message : string) (now expires : Z)
| OpPublish (serviceID deploymentID : string) (revision : option string) (now : Z)
| OpInterrupt (now : Z)
| OpCancel (before : Z) (all : bool) (now : Z)
| OpCleanup (mode : ImageCleanupMode) (now keep : Z)
| OpBeginPreview (input : BeginPreviewInput)
| OpRecords (previewID : string) (records : list string)
| OpActivatePreview (previewID expected : string) (records : list string) (now : Z)
| OpFinishPreview (previewID : string) (failed : bool) (code message : string) (now : Z)
| OpStopPreview (previewID : string) (now : Z)
| OpClearRecords (previewID : string)
| OpDeleteFinished (before : Z)
| OpOutside (services : gmap string (option string)) (deployments : gmap string (option string)) (backups : gset string).

(** A transaction that fails changes nothing. *)
Definition commit {A} (f : A -> Images) (s : Images) (r : result goerr A) : Images := match r with Ok a => f a | Err _ => s end.
Definition run_op (op : ImageOp) (s : Images) : Images :=
  match op with
  | OpBegin id head expires => commit snd s (BeginImageUpload id head expires s)
  | OpPart id offset length updated => commit snd s (RecordImageUploadPart id offset length updated s)
  | OpCreate input => commit id s (CreateImageRevision input s)
  | OpImported r u digest preview updated => commit id s (SetImageRevisionImported r u digest preview updated s)
  | OpComplete u r url now ue pe => commit id s (CompleteImageUpload u r url now ue pe s)
  | OpFail u code message now expires => commit id s (FailImageUpload u code message now expires s)
  | OpPublish service deployment revision now => commit id s (publishRevision service deployment revision now s)
  | OpInterrupt now => interruptImages now s
  | OpCancel before all now => commit snd s (CancelImageUploads before all now s)
  | OpCleanup mode now keep => commit snd s (DeleteImageCleanupCandidates mode now keep s)
  | OpBeginPreview input => commit id s (BeginPreviewDeployment input s)
  | OpRecords p records => commit id s (SetPreviewDNSRecords p records s)
  | OpActivatePreview p expected records now => commit id s (ActivatePreviewDeployment p expected records now s)
  | OpFinishPreview p failed code message now => commit id s (FinishPreviewDeployment p failed code message now s)
  | OpStopPreview p now => StopPreviewDeployment p now s
  | OpClearRecords p => ClearPreviewDNSRecords p s
  | OpDeleteFinished before => commit snd s (DeleteFinishedPreviewDeployments before s)
  | OpOutside services deployments backups => mkImages (uploads s) (revisions s) (previews s) services deployments backups
  end.
(** Lengths and offsets are int64. *)
Definition typed_op (op : ImageOp) : Prop :=
  match op with
  | OpBegin _ head _ => u_ExpectedLength head <= max_int64
  | OpPart _ offset length _ => offset <= max_int64 /\ length <= max_int64
  | _ => True
  end.

Definition past_upload (u : ImageUpload) : bool := match u_Status u with Importing | Deploying | Succeeded => true | _ => false end.
(** The bytes of an upload: recorded once each, counted, and all there before the image is imported. *)
Record wf_upload (u : ImageUpload) : Prop := {
  upload_expected : 0 < u_ExpectedLength (u_head u) <= max_int64;
  upload_ranges : wf_ranges (u_ExpectedLength (u_head u)) (u_ReceivedRanges u);
  upload_received : u_ReceivedLength u = range_sum (u_ReceivedRanges u);
  upload_past : past_upload u = true -> u_ReceivedLength u = u_ExpectedLength (u_head u)
}.
Definition upload_le (u u' : ImageUpload) : Prop :=
  u_head u' = u_head u /\ (wf_upload u -> wf_upload u') /\ (in_flight (u_Status u') = true -> in_flight (u_Status u) = true)
  /\ (in_flight (u_Status u) = false -> u_Status u' = u_Status u).
#[export] Instance upload_le_preorder : PreOrder upload_le.
Proof.
  split; [done|]. intros u v w (H1 & W1 & F1 & T1) (H2 & W2 & F2 & T2). unfold upload_le. rewrite H2, H1.
  split; [done|]. split; [tauto|]. split; [tauto|]. intros Hn. rewrite T2; [tauto|]. by rewrite T1.
Qed.
(** A row with the same bytes. *)
Lemma upload_le_same u u' : u_head u' = u_head u -> u_ReceivedRanges u' = u_ReceivedRanges u -> u_ReceivedLength u' = u_ReceivedLength u ->
  (past_upload u' = true -> wf_upload u -> u_ReceivedLength u = u_ExpectedLength (u_head u)) ->
  (in_flight (u_Status u') = true -> in_flight (u_Status u) = true) -> (in_flight (u_Status u) = false -> u_Status u' = u_Status u) -> upload_le u u'.
Proof.
  intros Hh Hr Hl Hp ??. split; [done|]. split; [|done]. intros W. pose proof W as [W1 W2 W3 W4]. split; rewrite ?Hh, ?Hr, ?Hl; auto.
Qed.

Definition tag_of (u : ImageUpload) : string * string := (u_ServiceID (u_head u), u_Tag (u_head u)).
Definition revision_tag (r : ImageRevision) : string * string := (i_ServiceID r, i_Tag r).
Definition preview_tag (p : PreviewRow) : string * string := (p_ServiceID p, p_Tag p).
Definition revision_le (r r' : ImageRevision) : Prop := revision_tag r' = revision_tag r /\ (is_status RActive r' = true -> is_status RActive r = true).
#[export] Instance revision_le_preorder : PreOrder revision_le.
Proof. split; [done|]. intros r1 r2 r3 [? ?] [? ?]. split; [congruence|auto]. Qed.
Definition preview_le (p p' : PreviewRow) : Prop :=
  preview_tag p' = preview_tag p /\ p_Hostname p' = p_Hostname p /\ (is_preview PActive p' = true -> is_preview PActive p = true).
#[export] Instance preview_le_preorder : PreOrder preview_le.
Proof. split; [done|]. intros p1 p2 p3 (? & ? & ?) (? & ? & ?). split; [congruence|split; [congruence|auto]]. Qed.

Record wf_images (s : Images) : Prop := {
  images_uploads : map_Forall (fun _ => wf_upload) (uploads s);
  images_in_flight : unique_by (fun u => in_flight (u_Status u)) tag_of (uploads s);
  images_active : unique_by (is_status RActive) revision_tag (revisions s);
  images_previews : unique_by (is_preview PActive) preview_tag (previews s);
  images_hostnames : unique_by (is_preview PActive) p_Hostname (previews s)
}.

Lemma in_flight_uploading u : u_Status u = Uploading -> in_flight (u_Status u) = true.
Proof. by intros ->. Qed.
(** Ending an upload, from any status in flight. *)
Lemma upload_le_ended u status error updated expires : in_flight status = false -> (match status with Succeeded => False | _ => True end) ->
  in_flight (u_Status u) = true -> upload_le u (ended status error updated expires u).
Proof. intros Hs Hn Hf. apply upload_le_same; simpl; try done; try congruence. unfold past_upload. simpl. by destruct status. Qed.

Ltac simp_or := repeat match goal with H : (_ || _) = false |- _ => apply orb_false_iff in H as [? ?] | H : (_ && _) = true |- _ => apply andb_true_iff in H as [? ?]
  | H : negb _ = false |- _ => apply negb_false_iff in H | H : negb _ = true |- _ => apply negb_true_iff in H
  | H : bool_decide _ = true |- _ => apply bool_decide_eq_true in H | H : bool_decide _ = false |- _ => apply bool_decide_eq_false in H end.

Lemma record_part_evolves id offset length updated s : offset <= max_int64 -> length <= max_int64 ->
  evolves upload_le (uploads s) (uploads (run_op (OpPart id offset length updated) s)).
Proof.
  intros Ho Hl. simpl. unfold RecordImageUploadPart. case_match; [done|]. destruct (uploads s !! id) as [u|] eqn:Hu; [|done].
  repeat (case_match; try done). simpl. apply (evolves_insert upload_le _ _ u); [done|]. simp_or. set (e := u_ExpectedLength (u_head u)) in *.
  split; [done|]. split; [|done]. intros [W1 W2 W3 W4]. fold e in W1, W2, W4.
  assert (offset + length <= e) as Hb.
  { assert (i64 (offset + length) = offset + length) as Hi; [|lia]. destruct (decide (offset + length <= max_int64)); [apply i64_small; unfold min_int64; lia|].
    exfalso. assert (i64 (offset + length) = offset + length - two64) as Hw; [|unfold max_int64, two64 in *; lia].
    unfold i64, max_int64, two64 in *. rewrite <- (Z.mod_unique (offset + length + 2 ^ 63) (2 ^ 64) 1 (offset + length + 2 ^ 63 - 2 ^ 64)); lia. }
  assert (wf_ranges e (u_ReceivedRanges u ++ [mkRange offset length])) as Hwf.
  { apply wf_ranges_snoc; [lia|done| |done]. unfold in_bounds. simpl. lia. }
  pose proof (coverage_spec e _ W1 Hwf) as [Hle _]. rewrite range_sum_snoc in Hle. simpl in Hle.
  split; simpl; [done..| |].
  - rewrite range_sum_snoc, W3. simpl. apply i64_small. pose proof (coverage_spec e _ W1 W2) as [? _].
    enough (0 <= range_sum (u_ReceivedRanges u)) by (unfold min_int64; lia).
    pose proof (ranges_in _ _ W2) as Hin. clear -Hin. induction Hin as [|x l [??] ?]; simpl; lia.
  - unfold past_upload. simpl. match goal with H : u_Status u = Uploading |- _ => rewrite H end. done.
Qed.

Lemma upload_le_refl_on u u' : u_head u' = u_head u -> u_ReceivedRanges u' = u_ReceivedRanges u -> u_ReceivedLength u' = u_ReceivedLength u ->
  u_Status u' = u_Status u -> upload_le u u'.
Proof. intros ??? E. apply upload_le_same; rewrite ?E; try done. unfold past_upload. rewrite E. intros Hp W. by apply (upload_past _ W). Qed.
Lemma upload_le_forward u u' : u_head u' = u_head u -> u_ReceivedRanges u' = u_ReceivedRanges u -> u_ReceivedLength u' = u_ReceivedLength u ->
  in_flight (u_Status u) = true -> (u_ReceivedLength u = u_ExpectedLength (u_head u) \/ past_upload u = true) -> upload_le u u'.
Proof.
  intros ??? Hf Hp. apply upload_le_same; try done; [|by rewrite Hf]. intros _ W. destruct Hp as [|Hp]; [done|]. by apply (upload_past _ W).
Qed.
Lemma past_status u st : u_Status u = st -> past_upload u = match st with Importing | Deploying | Succeeded => true | _ => false end.
Proof. by intros <-. Qed.
Lemma in_flight_status u st : u_Status u = st -> in_flight (u_Status u) = in_flight st.
Proof. by intros <-. Qed.

(** What holds of the three tables of an operation but for the rows that become active
    or begin. *)
Definition tables_le (s s' : Images) : Prop :=
  evolves upload_le (uploads s) (uploads s') /\ evolves revision_le (revisions s) (revisions s') /\ evolves preview_le (previews s) (previews s').
#[export] Instance tables_le_preorder : PreOrder tables_le.
Proof. split; [done|]. intros s1 s2 s3 (? & ? & ?) (? & ? & ?). split; [by etrans|split; by etrans]. Qed.

Lemma forget_deployments_le gone s : tables_le s (forget_deployments gone s).
Proof. split; [|split; [|done]]; apply evolves_fmap; intros v; [by apply upload_le_refl_on|done]. Qed.
Lemma forget_revision_le id s : tables_le s (forget_revision id s).
Proof.
  split; [|split]; simpl; [apply evolves_fmap; intros v; by apply upload_le_refl_on|apply evolves_delete; apply _|apply evolves_fmap; done].
Qed.
Lemma delete_candidates_le items : forall acc, tables_le acc.2 (fold_left delete_candidate items acc).2.
Proof.
  induction items as [|item items IH]; intros acc; simpl; [done|]. etrans; [|apply IH]. unfold delete_candidate.
  destruct (deletable _ _); simpl; [|apply forget_deployments_le]. etrans; [apply forget_deployments_le|apply forget_revision_le].
Qed.

(** Operations that make nothing active and begin no upload. *)
Definition quiet (op : ImageOp) : bool :=
  match op with
  | OpBegin _ _ _ | OpCreate _ | OpComplete _ _ _ _ _ _ | OpPublish _ _ _ _ | OpBeginPreview _ | OpActivatePreview _ _ _ _ => false
  | _ => true
  end.
Lemma revision_le_status status retired r : status <> RActive -> revision_le r (with_status status retired r).
Proof. intros Hs. split; [done|]. unfold is_status. simpl. by rewrite bool_decide_eq_false_2. Qed.
Lemma abandon_le now r : revision_le r (abandon now r).
Proof. apply revision_le_status. by destruct (imported r). Qed.
Lemma preview_le_status status error updated f p : status <> PActive -> preview_le p (preview_status status error updated f p).
Proof. intros Hs. split; [done|]. split; [done|]. unfold is_preview. simpl. by rewrite bool_decide_eq_false_2. Qed.

Lemma quiet_le op s : quiet op = true -> typed_op op -> tables_le s (run_op op s).
Proof.
  destruct op; try done; intros _ Ht.
  - split; [by apply record_part_evolves; destruct Ht|]. simpl. unfold RecordImageUploadPart. by repeat case_match.
  - simpl. unfold SetImageRevisionImported. repeat (case_match; try done). simp_or.
    split; [|split; [|done]]; simpl; (eapply evolves_insert; [apply _|done|]); [|done].
    apply upload_le_forward; try done; [by erewrite in_flight_status by done|right; by erewrite past_status by done].
  - simpl. unfold FailImageUpload. repeat (case_match; try done). split; [|split; [|done]]; simpl.
    + eapply evolves_insert; [apply _|done|]. by apply upload_le_ended.
    + apply table_update; [apply _|]. intros. apply abandon_le.
  - split; [|split]; simpl; (apply table_update; [apply _|]); intros; [by apply upload_le_ended|apply abandon_le|by apply preview_le_status].
  - simpl. unfold CancelImageUploads. case_match; [done|]. split; [|split; [|done]]; simpl; (apply table_update; [apply _|]); intros k v Hv Hs; [|apply abandon_le].
    apply upload_le_ended; [done..|]. unfold selected in Hs. by simp_or.
  - simpl. unfold DeleteImageCleanupCandidates. do 2 (case_match; [done|]). case_match eqn:Hf. simpl.
    etrans; [|match type of Hf with fold_left _ ?l ?a = _ => pose proof (delete_candidates_le l a) as Hd; rewrite Hf in Hd; exact Hd end].
    split; [|done]. simpl. apply evolves_filter. apply _.
  - simpl. unfold SetPreviewDNSRecords. repeat (case_match; try done). split; [done|]. split; [done|]. simpl. by eapply evolves_insert; [apply _|..].
  - simpl. unfold FinishPreviewDeployment. repeat (case_match; try done); (split; [done|]; split; [done|]; simpl; eapply evolves_insert; [apply _|done|]; by apply preview_le_status).
  - simpl. unfold StopPreviewDeployment. repeat (case_match; try done). split; [done|]. split; simpl.
    + apply table_update; [apply _|]. intros. by apply revision_le_status.
    + eapply evolves_insert; [apply _|done|]. by apply preview_le_status.
  - split; [done|]. split; [done|]. simpl. apply table_update; [apply _|done].
  - simpl. unfold DeleteFinishedPreviewDeployments. destruct (previewList _); [|done]. split; [done|]. split; [done|]. simpl. apply evolves_filter. apply _.
Qed.

(** ** The invariant *)

Lemma forall_evolves s s' : evolves upload_le (uploads s) (uploads s') -> map_Forall (fun _ => wf_upload) (uploads s) -> map_Forall (fun _ => wf_upload) (uploads s').
Proof. intros He Hs k u' Hu'. destruct (He _ _ Hu') as (u & Hu & (_ & Hw & _)). apply Hw, (Hs _ _ Hu). Qed.
Lemma flights_evolve s s' : evolves upload_le (uploads s) (uploads s') ->
  unique_by (fun u => in_flight (u_Status u)) tag_of (uploads s) -> unique_by (fun u => in_flight (u_Status u)) tag_of (uploads s').
Proof. apply unique_evolves. intros u u' (Hh & _ & Hf & _). split; [|done]. unfold tag_of. by rewrite Hh. Qed.
Lemma actives_evolve m m' : evolves revision_le m m' -> unique_by (is_status RActive) revision_tag m -> unique_by (is_status RActive) revision_tag m'.
Proof. by apply unique_evolves. Qed.
Lemma previews_evolve m m' : evolves preview_le m m' -> unique_by (is_preview PActive) preview_tag m -> unique_by (is_preview PActive) preview_tag m'.
Proof. apply unique_evolves. intros p p' (? & ? & ?). done. Qed.
Lemma hostnames_evolve m m' : evolves preview_le m m' -> unique_by (is_preview PActive) p_Hostname m -> unique_by (is_preview PActive) p_Hostname m'.
Proof. apply unique_evolves. intros p p' (? & ? & ?). done. Qed.

Lemma wf_images_le s s' : tables_le s s' -> wf_images s -> wf_images s'.
Proof.
  intros (Hu & Hr & Hp) [W1 W2 W3 W4 W5]. split;
    [by eapply forall_evolves|by eapply flights_evolve|by eapply actives_evolve|by eapply previews_evolve|by eapply hostnames_evolve].
Qed.
(** The upload and preview tables evolve, the new revisions are given. *)
Lemma wf_images_revisions s s' : evolves upload_le (uploads s) (uploads s') -> evolves preview_le (previews s) (previews s') ->
  unique_by (is_status RActive) revision_tag (revisions s') -> wf_images s -> wf_images s'.
Proof.
  intros Hu Hp Hr [W1 W2 W3 W4 W5]. split;
    [by eapply forall_evolves|by eapply flights_evolve|done|by eapply previews_evolve|by eapply hostnames_evolve].
Qed.

Lemma revision_of_spec service tag r : revision_of service tag r = bool_decide (revision_tag r = (service, tag)).
Proof. unfold revision_of, revision_tag. repeat case_bool_decide; simplify_eq; done. Qed.
(** The index of active revisions. *)
Lemma active_insert id r r' m : revision_tag r' = revision_tag r -> active_conflict id r m = false ->
  unique_by (is_status RActive) revision_tag m -> unique_by (is_status RActive) revision_tag (<[id := r']> m).
Proof.
  intros Ht Hc Hu. apply unique_insert; [done|]. intros _ id' v Hv Hne Ha Heq. rewrite Ht in Heq.
  pose proof (proj1 (EXISTS_false _ _) Hc _ _ Hv) as Hf. simpl in Hf. rewrite revision_of_spec, Ha, bool_decide_eq_false_2, bool_decide_eq_true_2 in Hf; [done| |done].
  unfold revision_tag in *. congruence.
Qed.

Lemma begin_upload_wf id head expires s : u_ExpectedLength head <= max_int64 -> wf_images s -> wf_images (run_op (OpBegin id head expires) s).
Proof.
  intros Hmax W. simpl. unfold BeginImageUpload. case_match eqn:Hin; [done|]. case_match eqn:Hbusy; [done|]. repeat (case_match; try done). simpl.
  set (old := fun (_ : string) u => _ && bool_decide (u_Status u = Uploading)).
  set (f := ended Superseded _ _ _).
  assert (evolves upload_le (uploads s) (update_rows old f (uploads s))) as He.
  { apply table_update; [apply _|]. intros k u _ Ho. apply upload_le_ended; [done..|]. unfold old in Ho. simp_or. by apply in_flight_uploading. }
  pose proof W as [W1 W2 W3 W4 W5]. pose proof (flights_evolve s (set_uploads (update_rows old f (uploads s)) s) He W2) as Hfl.
  pose proof (forall_evolves s (set_uploads (update_rows old f (uploads s)) s) He W1) as Hwf. simpl in Hfl, Hwf.
  split; simpl; [| |done..].
  - apply map_Forall_insert_2; [|done]. simp_or. split; simpl; [lia| |done|done].
    split; [by apply Forall_nil|by apply NoDup_nil|]. intros a b Ha. by apply not_elem_of_nil in Ha.
  - apply unique_insert; [done|]. intros _ k v Hv _ Hf Heq. rewrite lookup_update in Hv. destruct (uploads s !! k) as [u|] eqn:Hu; [|done].
    injection Hv as <-. assert (old k u = in_flight (u_Status u)) as Ho.
    { pose proof (proj1 (EXISTS_false _ _) Hbusy _ _ Hu) as Hb. unfold old.
      assert (same_tag (u_ServiceID head) (u_Tag head) u = true) as Hs.
      { unfold same_tag. destruct (old k u); unfold tag_of in Heq; simpl in Heq; injection Heq as E1 E2; rewrite !bool_decide_eq_true_2 by done; done. }
      simpl in Hb. rewrite Hs in Hb |- *. clear -Hb. destruct (u_Status u); vm_compute in Hb |- *; done. }
    destruct (old k u); [done|]. congruence.
Qed.

(** Only [OpBegin] adds an upload. *)
Definition begins (op : ImageOp) : bool := match op with OpBegin _ _ _ => true | _ => false end.
Lemma uploads_le op s : begins op = false -> typed_op op -> evolves upload_le (uploads s) (uploads (run_op op s)).
Proof.
  intros Hb Ht. destruct (quiet op) eqn:Hq; [by apply quiet_le|]. destruct op; try done; simpl.
  - unfold CreateImageRevision. set (expires := if 0 <? _ then _ else None). repeat (case_match; try done). simp_or.
    eapply evolves_insert; [apply _|done|]. apply upload_le_forward; try done; [by apply in_flight_uploading|left; lia].
  - unfold CompleteImageUpload. repeat (case_match; try done). simp_or.
    eapply evolves_insert; [apply _|done|]. apply upload_le_forward; try done; [by erewrite in_flight_status by done|right; by erewrite past_status by done].
  - unfold publishRevision. repeat (case_match; try done). apply table_update; [apply _|]. intros. by apply upload_le_refl_on.
  - unfold BeginPreviewDeployment. by repeat (case_match; try done).
  - unfold ActivatePreviewDeployment. by repeat (case_match; try done).
Qed.

Lemma create_revision_wf input s : wf_images s -> wf_images (run_op (OpCreate input) s).
Proof.
  intros W. apply (wf_images_revisions s); [by apply uploads_le| | |done]; simpl; unfold CreateImageRevision; repeat (case_match; try done);
    simpl; try apply unique_insert; try apply (images_active _ W); done.
Qed.

Lemma complete_wf u r url now ue pe s : wf_images s -> wf_images (run_op (OpComplete u r url now ue pe) s).
Proof.
  intros W. apply (wf_images_revisions s); [by apply uploads_le| | |done]; simpl; unfold CompleteImageUpload; (case_match; [by try apply (images_active _ W)|]);
    destruct (revisions s !! r) as [rev|] eqn:Hr; try apply (images_active _ W); try done; repeat (case_match; try apply (images_active _ W); try done).
  simpl. apply unique_insert.
  - eapply actives_evolve; [|apply (images_active _ W)]. apply table_update; [apply _|]. intros. by apply revision_le_status.
  - intros _ k v. rewrite lookup_update. destruct (revisions s !! k) as [v0|]; [|done]. intros [= <-] Hne Ha Heq.
    rewrite revision_of_spec, (bool_decide_eq_false_2 (k = r)) in Ha, Heq by done. destruct (is_status RActive v0) eqn:Ha0.
    + destruct (bool_decide (revision_tag v0 = _)) eqn:Ht; simpl in Ha, Heq; [done|]. apply bool_decide_eq_false in Ht. by apply Ht.
    + by rewrite andb_false_r in Ha; simpl in Ha; rewrite Ha0 in Ha.
Qed.

Lemma publish_wf service deployment revision now s : wf_images s -> wf_images (run_op (OpPublish service deployment revision now) s).
Proof.
  intros W. apply (wf_images_revisions s); [by apply uploads_le| | |done]; simpl; unfold publishRevision; set (rs := update_rows _ _ (revisions s)).
  - by repeat (case_match; try done).
  - assert (unique_by (is_status RActive) revision_tag rs) as He.
    { eapply actives_evolve; [|apply (images_active _ W)]. apply table_update; [apply _|]. intros. by apply revision_le_status. }
    destruct revision as [id|]; [|done]. destruct (rs !! id) as [r|] eqn:Hr; [|apply (images_active _ W)].
    repeat (case_match; try apply (images_active _ W)). simpl. by eapply active_insert.
Qed.

Lemma begin_preview_wf input s : wf_images s -> wf_images (run_op (OpBeginPreview input) s).
Proof.
  intros W. simpl. unfold BeginPreviewDeployment. repeat (case_match; try done). destruct W as [W1 W2 W3 W4 W5].
  split; simpl; try done; by apply unique_insert.
Qed.

Lemma preview_of_spec service tag p : preview_of service tag p = bool_decide (preview_tag p = (service, tag)).
Proof. unfold preview_of, preview_tag. repeat case_bool_decide; simplify_eq; done. Qed.

(** The previews after the active one of the tag, if any, is stopped. *)
Definition stop_current (service tag : string) (now : Z) (m : gmap string PreviewRow) : gmap string PreviewRow :=
  match head (SELECT p_Created (fun _ p => preview_of service tag p && is_preview PActive p) m) with
  | Some (id, _) => update_rows (fun id' p => bool_decide (id' = id) && is_preview PActive p) (fun p => preview_status PStopped (p_Error p) now (Some now) p) m
  | None => m
  end.
Lemma stop_current_le service tag now m : evolves preview_le m (stop_current service tag now m).
Proof.
  unfold stop_current. destruct (head _) as [[id p]|]; [|done]. apply table_update; [apply _|]. intros. by apply preview_le_status.
Qed.
Lemma stop_current_none service tag now m k p : unique_by (is_preview PActive) preview_tag m ->
  stop_current service tag now m !! k = Some p -> is_preview PActive p = true -> preview_tag p <> (service, tag).
Proof.
  intros Hu Hk Ha Ht. unfold stop_current in Hk.
  pose proof (elem_of_SELECT p_Created (fun _ p => preview_of service tag p && is_preview PActive p) m) as Hel.
  destruct (SELECT _ _ m) as [|[id q] l]; simpl in Hk.
  - apply (not_elem_of_nil (k, p)). apply Hel. split; [done|]. by rewrite preview_of_spec, Ha, bool_decide_eq_true_2.
  - destruct (proj1 (Hel id q) ltac:(left)) as [Hq Hq']. rewrite preview_of_spec in Hq'. apply andb_true_iff in Hq' as [Ht'%bool_decide_eq_true Ha'].
    rewrite lookup_update in Hk. destruct (m !! k) as [p0|] eqn:Hp0; [|done]. injection Hk as Hp. case_match eqn:Hc; [by subst p|]. subst p0.
    assert (k = id) as -> by (eapply Hu; [exact Hp0|exact Hq|done|done|congruence]). by rewrite bool_decide_eq_true_2, Ha in Hc.
Qed.

Lemma activate_preview_wf preview expected records now s : wf_images s -> wf_images (run_op (OpActivatePreview preview expected records now) s).
Proof.
  intros W. simpl. unfold ActivatePreviewDeployment. destruct (previews s !! preview) as [p|] eqn:Hp; [|done].
  destruct (is_preview PDeploying p) eqn:Hd; [|done]. destruct (p_ImageRevisionID p) as [rev|]; [|done]. case_match; [done|].
  change (match head _ with Some _ => _ | None => _ end) with (stop_current (p_ServiceID p) (p_Tag p) now (previews s)).
  set (ps := stop_current _ _ _ _). set (rs := update_rows _ _ (revisions s)).
  assert (evolves revision_le (revisions s) rs) as He by (apply table_update; [apply _|]; intros; by apply revision_le_status).
  destruct (EXISTS _ ps) eqn:Hh; [done|]. destruct (rs !! rev) as [r|]; [|done]. repeat (case_match; try done).
  pose proof W as [W1 W2 W3 W4 W5]. pose proof (stop_current_le (p_ServiceID p) (p_Tag p) now (previews s)) as Hle. fold ps in Hle.
  split; simpl; [done..| | |].
  - eapply active_insert; [|done|]; [done|]. by eapply actives_evolve.
  - apply unique_insert; [by eapply previews_evolve|]. intros _ k v Hv _ Ha. by eapply stop_current_none.
  - apply unique_insert; [by eapply hostnames_evolve|]. intros _ k v Hv _ Ha Heq.
    pose proof (proj1 (EXISTS_false _ _) Hh _ _ Hv) as Hf. simpl in Hf. by rewrite Ha, bool_decide_eq_true_2 in Hf.
Qed.

Lemma run_op_wf op s : typed_op op -> wf_images s -> wf_images (run_op op s).
Proof.
  intros Ht W. destruct (quiet op) eqn:Hq; [by eapply wf_images_le; [apply quiet_le|]|].
  destruct op; try done; [by apply begin_upload_wf|by apply create_revision_wf|by apply complete_wf|by apply publish_wf|by apply begin_preview_wf|
    by apply activate_preview_wf].
Qed.
Definition run_ops (ops : list ImageOp) (s : Images) : Images := fold_left (fun s op => run_op op s) ops s.
Definition no_images : Images := mkImages ∅ ∅ ∅ ∅ ∅ ∅.
Lemma no_images_wf : wf_images no_images.
Proof. split; [apply map_Forall_empty|intros ??????..]; done. Qed.
Lemma run_ops_wf ops : forall s, Forall typed_op ops -> wf_images s -> wf_images (run_ops ops s).
Proof. induction ops as [|op ops IH]; intros s Ht W; simpl; [done|]. apply Forall_cons in Ht as [? ?]. apply IH; [done|]. by apply run_op_wf. Qed.

(** ** Cleanup *)

Definition present (id : string) (s : Images) : bool := bool_decide (is_Some (revisions s !! id)).
(** What cleanup asks about a revision is answered alike. *)
Definition alike (id : string) (s t : Images) : Prop :=
  services t = services s /\ runningBackups t = runningBackups s /\ active_preview id t = active_preview id s
  /\ present id t = present id s /\ deletable id t = deletable id s.
#[export] Instance alike_preorder id : PreOrder (alike id).
Proof. split; [done|]. intros s1 s2 s3 (? & ? & ? & ? & ?) (? & ? & ? & ? & ?). repeat split; congruence. Qed.

Lemma EXISTS_fmap {V W} (f : V -> W) (p : string -> W -> bool) (q : string -> V -> bool) m :
  (forall k v, m !! k = Some v -> p k (f v) = q k v) -> EXISTS p (f <$> m) = EXISTS q m.
Proof.
  intros Hpq. apply eq_true_iff_eq. rewrite !EXISTS_spec. split.
  - intros (k & w & Hk & Hp). rewrite lookup_fmap in Hk. destruct (m !! k) as [v|] eqn:Hv; [|done]. injection Hk as <-.
    exists k, v. by rewrite <- Hpq.
  - intros (k & v & Hk & Hq). exists k, (f v). rewrite lookup_fmap, Hk. split; [done|]. by rewrite Hpq.
Qed.

Lemma forget_deployments_alike id id0 s : alike id s (forget_deployments (stale_deployment id0 s) s).
Proof.
  unfold alike, present, deletable. simpl. rewrite lookup_fmap. destruct (revisions s !! id) as [r|]; simpl; [|done].
  split; [done|]. split; [done|]. split; [done|]. split; [done|]. f_equal. f_equal. f_equal. f_equal.
  destruct (i_DeploymentID r) as [d|]; simpl; [|done]. destruct (stale_deployment id0 s d) eqn:Hs; [|done].
  unfold stale_deployment in Hs. apply andb_true_iff in Hs as [_ Hs%negb_true_iff]. by rewrite Hs.
Qed.
Lemma forget_revision_alike id id0 s : id <> id0 -> alike id s (forget_revision id0 s).
Proof.
  intros Hne. assert (active_preview id (forget_revision id0 s) = active_preview id s) as Hap.
  { unfold active_preview. simpl. apply EXISTS_fmap. intros k p _. simpl. f_equal. apply bool_decide_ext.
    destruct (p_ImageRevisionID p) as [x|]; simpl; [|done]. case_bool_decide; [|done]. subst. split; congruence. }
  unfold alike, present, deletable. rewrite Hap. simpl. by rewrite lookup_delete_ne.
Qed.
Lemma delete_candidate_alike id acc item : id <> item.1 -> alike id acc.2 (delete_candidate acc item).2.
Proof.
  intros Hne. unfold delete_candidate. destruct (deletable _ _); simpl; [|apply forget_deployments_alike].
  etrans; [apply forget_deployments_alike|by apply forget_revision_alike].
Qed.
Lemma delete_candidate_self acc item :
  (delete_candidate acc item).1 = acc.1 ++ (if deletable item.1 acc.2 then [item.2] else [])
  /\ present item.1 (delete_candidate acc item).2 = present item.1 acc.2 && negb (deletable item.1 acc.2).
Proof.
  destruct (forget_deployments_alike item.1 item.1 acc.2) as (_ & _ & _ & Hp & Hd). unfold delete_candidate. rewrite Hd.
  destruct (deletable item.1 acc.2) eqn:E; simpl.
  - split; [done|]. unfold present. simpl. rewrite lookup_delete_eq. by rewrite andb_false_r.
  - rewrite app_nil_r, andb_true_r. done.
Qed.

Lemma delete_candidates_spec items : NoDup (items.*1) -> forall acc id,
  let acc' := fold_left delete_candidate items acc in
  acc'.1 = acc.1 ++ (List.filter (fun x => deletable x.1 acc.2) items).*2
  /\ (id ∉ items.*1 -> alike id acc.2 acc'.2)
  /\ (id ∈ items.*1 -> present id acc'.2 = present id acc.2 && negb (deletable id acc.2)).
Proof.
  induction items as [|item items IH]; intros Hnd acc id; simpl; [rewrite app_nil_r; split; [done|split; [done|]]; intros H; by apply not_elem_of_nil in H|].
  apply NoDup_cons in Hnd as [Hni Hnd]. destruct (delete_candidate_self acc item) as [H1 H2].
  destruct (IH Hnd (delete_candidate acc item) id) as (I1 & I2 & I3).
  assert (forall x, x ∈ items -> deletable x.1 (delete_candidate acc item).2 = deletable x.1 acc.2) as Hsame.
  { intros x Hx. apply delete_candidate_alike. intros E. apply Hni. rewrite <- E. by apply (list_elem_of_fmap_2 fst). }
  split; [|split].
  - rewrite I1, H1. rewrite (List.filter_ext_in _ (fun x => deletable x.1 acc.2)); [|intros x Hx%list_elem_of_In; by apply Hsame].
    rewrite <- app_assoc. f_equal. by destruct (deletable item.1 acc.2).
  - rewrite not_elem_of_cons. intros [Hne Hn]. etrans; [by apply delete_candidate_alike|by apply I2].
  - rewrite elem_of_cons. intros [->|Hin].
    + destruct (I2 Hni) as (_ & _ & _ & Hp & _). by rewrite Hp.
    + rewrite I3 by done. assert (id <> item.1) as Hne by (by intros ->). by destruct (delete_candidate_alike id acc item Hne) as (_ & _ & _ & -> & ->).
Qed.

(** ** References from previews to revisions *)

Definition references (s : Images) : Prop :=
  forall pid p id, previews s !! pid = Some p -> p_ImageRevisionID p = Some id -> is_Some (revisions s !! id).
(** The same preview, whose reference may be gone. *)
Definition preview_ref (p p' : PreviewRow) : Prop :=
  p' = mkPreview (p_ServiceID p) (p_Tag p) (p_ImageRevisionID p') (p_Hostname p) (p_TargetPort p) (p_Digest p) (p_Reference p)
         (p_Hash p) (p_Status p) (p_Error p) (p_Records p) (p_Created p) (p_Updated p) (p_Finished p) (p_Expires p)
  /\ (p_ImageRevisionID p' = p_ImageRevisionID p \/ p_ImageRevisionID p' = None).
Lemma preview_ref_trans p1 p2 p3 : preview_ref p1 p2 -> preview_ref p2 p3 -> preview_ref p1 p3.
Proof. intros [-> H12] [-> H23]. simpl in *. split; [done|]. destruct H23 as [->| ->]; [|by right]. destruct H12; auto. Qed.
(** Cleanup keeps the references valid, the previews and the services. *)
Definition cleaned (s t : Images) : Prop :=
  services t = services s /\ (references s -> references t)
  /\ forall pid p, previews s !! pid = Some p -> exists p', previews t !! pid = Some p' /\ preview_ref p p'.
#[export] Instance cleaned_preorder : PreOrder cleaned.
Proof.
  split.
  - intros s. split; [done|]. split; [done|]. intros pid [] Hp. eexists. split; [done|]. split; [done|]. by left.
  - intros s1 s2 s3 (E1 & R1 & P1) (E2 & R2 & P2). split; [congruence|]. split; [auto|]. intros pid p Hp.
    destruct (P1 _ _ Hp) as (p2 & Hp2 & H12). destruct (P2 _ _ Hp2) as (p3 & Hp3 & H23). exists p3. split; [done|]. by eapply preview_ref_trans.
Qed.
Lemma forget_deployments_cleaned gone s : cleaned s (forget_deployments gone s).
Proof.
  split; [done|]. split; [|intros pid [] Hp; eexists; split; [done|]; split; [done|by left]].
  intros Hr pid p id Hp Hid. simpl in *. rewrite lookup_fmap. apply fmap_is_Some. by eapply Hr.
Qed.
Lemma forget_revision_cleaned id s : cleaned s (forget_revision id s).
Proof.
  split; [done|]. split.
  - intros Hr pid p id' Hp Hid. simpl in *. rewrite lookup_fmap in Hp. destruct (previews s !! pid) as [p0|] eqn:Hp0; [|done].
    injection Hp as <-. simpl in Hid. destruct (p_ImageRevisionID p0) as [x|] eqn:Hx; [|done]. simpl in Hid. case_bool_decide; [done|].
    injection Hid as ->. rewrite lookup_delete_ne by done. by eapply Hr.
  - intros pid p Hp. simpl. rewrite lookup_fmap, Hp. eexists. split; [done|]. split; [done|]. simpl.
    destruct (p_ImageRevisionID p) as [x|]; simpl; [case_bool_decide|]; auto.
Qed.
Lemma delete_candidates_cleaned items : forall acc, cleaned acc.2 (fold_left delete_candidate items acc).2.
Proof.
  induction items as [|item items IH]; intros acc; simpl; [done|]. etrans; [|apply IH]. unfold delete_candidate.
  destruct (deletable _ _); simpl; [|apply forget_deployments_cleaned]. etrans; [apply forget_deployments_cleaned|apply forget_revision_cleaned].
Qed.
Lemma cleanup_cleaned mode now keep s files s' : DeleteImageCleanupCandidates mode now keep s = Ok (files, s') -> cleaned s s'.
Proof.
  unfold DeleteImageCleanupCandidates. do 2 (case_match; [done|]). case_match eqn:Hf. intros [= <- <-].
  match type of Hf with fold_left _ ?l ?a = _ => pose proof (delete_candidates_cleaned l a) as Hd; rewrite Hf in Hd; exact Hd end.
Qed.

Lemma previewList_null rows : (exists row, row ∈ rows /\ p_ImageRevisionID row.2 = None) -> previewList rows = Err ErrScanNull.
Proof.
  unfold previewList. induction rows as [|row rows IH]; intros (x & Hx & Hn); [by apply not_elem_of_nil in Hx|].
  simpl. unfold scanPreview at 1. destruct (p_ImageRevisionID row.2) eqn:Hr; [|done]. simpl. rewrite IH; [done|].
  apply elem_of_cons in Hx as [->|Hx]; [congruence|eauto].
Qed.

(** ** Properties *)

(** C14. Over every sequence of transactions the bytes of an upload are recorded at most once: its
    ranges are inside the archive and disjoint and received_length is their sum; so the
    sorted sweep of ImageUploadCoverageComplete says "complete" exactly when
    received_length is expected_length, and every upload past "uploading" is complete.
    At most one upload is in flight and one revision active per service and tag. *)
Theorem uploads_invariant (ops : list ImageOp) : Forall typed_op ops ->
  let s := run_ops ops no_images in
  (forall id u, uploads s !! id = Some u -> let expected := u_ExpectedLength (u_head u) in
     (forall x, x ∈ u_ReceivedRanges u -> 0 <= Offset x /\ 0 < Length x /\ Offset x + Length x <= expected)
     /\ (forall x y, x ∈ u_ReceivedRanges u -> y ∈ u_ReceivedRanges u -> x <> y -> disjoint x y)
     /\ u_ReceivedLength u = range_sum (u_ReceivedRanges u)
     /\ (ImageUploadCoverageComplete (u_ReceivedRanges u) expected = true <-> u_ReceivedLength u = expected)
     /\ (past_upload u = true -> ImageUploadCoverageComplete (u_ReceivedRanges u) expected = true))
  /\ unique_by (fun u => in_flight (u_Status u)) tag_of (uploads s)
  /\ unique_by (is_status RActive) revision_tag (revisions s).
Proof.
  intros Ht. destruct (run_ops_wf ops no_images Ht no_images_wf) as [W1 W2 W3 _ _]. split; [|done].
  intros id u Hu expected. destruct (W1 _ _ Hu) as [U1 U2 U3 U4]. destruct (coverage_spec _ _ U1 U2) as [_ Hc].
  split; [by apply Forall_forall, ranges_in|]. split; [apply (ranges_disjoint _ _ U2)|]. split; [done|]. split; [by rewrite U3|].
  intros Hp. apply Hc. rewrite <- U3. by apply U4.
Qed.

Definition sample_identity : ImageUploadIdentity := mkIdentity "o/r" "refs/heads/main" "abc" "" "deploy.yml" "o/r/.github/workflows/deploy.yml@refs/heads/main" "me" "1" "1".
Definition sample_hash : string := "e3b0c44298fc1c149afbf4c8996fb92427ae41e4649b934ca495991b7852b855".
Definition sample_head (tag path : string) : UploadHead := mkHead "svc" tag 100 sample_hash path sample_identity 1.
Definition sample_upload : list ImageOp :=
  [OpOutside {[ "svc" := None ]} ∅ ∅; OpBegin "u" (sample_head "pr-1" "/tmp/u") 1000; OpPart "u" 60 40 2; OpPart "u" 50 20 3; OpPart "u" 0 60 4;
   OpCreate (mkCreateRevision "r" "u" "svc" "pr-1" Preview "/a/r" sample_hash sample_identity 5 0); OpImported "r" "u" "sha256:d" "p" 6].
Lemma uploads_invariant_witness : exists u, uploads (run_ops sample_upload no_images) !! "u" = Some u /\ u_Status u = Deploying
  /\ u_ReceivedRanges u = [mkRange 60 40; mkRange 0 60] /\ ImageUploadCoverageComplete (u_ReceivedRanges u) 100 = true.
Proof.
  eexists. split; [vm_compute; reflexivity|]. split; [reflexivity|]. split; [reflexivity|].
  destruct (uploads_invariant sample_upload) as [H _]; [repeat constructor; done|].
  apply (H "u"); vm_compute; reflexivity.
Defined.

(** No transaction changes what an upload is of, or the status of an upload that has
    succeeded, failed or been superseded. *)
Theorem ended_upload_fixed (op : ImageOp) (s : Images) (id : string) (u u' : ImageUpload) :
  typed_op op -> uploads s !! id = Some u -> uploads (run_op op s) !! id = Some u' ->
  u_head u' = u_head u /\ (in_flight (u_Status u) = false -> u_Status u' = u_Status u).
Proof.
  intros Ht Hu Hu'. destruct (begins op) eqn:Hb.
  - destruct op; try done. simpl in Hu'. unfold BeginImageUpload in Hu'. repeat (case_match; [simpl in Hu'; by simplify_eq|]). simpl in Hu'. simp_or.
    rewrite lookup_insert_ne, lookup_update, Hu in Hu' by (intros <-; eauto). injection Hu' as <-. case_match eqn:Ho; [|done]. simpl. simp_or.
    split; [done|]. match goal with H : u_Status u = Uploading |- _ => by rewrite H end.
  - destruct (uploads_le op s Hb Ht _ _ Hu') as (u0 & Hu0 & (Hh & _ & _ & Hs)). by simplify_eq.
Qed.

Lemma ended_upload_fixed_witness : exists u u', u_Status u = Superseded /\ u_Status u' = u_Status u
  /\ uploads (run_ops [OpOutside {[ "svc" := None ]} ∅ ∅; OpBegin "u" (sample_head "pr-1" "/tmp/u") 1000; OpBegin "v" (sample_head "pr-1" "/tmp/v") 1000] no_images) !! "u" = Some u.
Proof.
  set (s := run_ops _ no_images). destruct (uploads s !! "u") as [u|] eqn:Hu; [|by vm_compute in Hu].
  destruct (uploads (run_op (OpInterrupt 9) s) !! "u") as [u'|] eqn:Hu'; [|by vm_compute in Hu'].
  assert (u_Status u = Superseded) as Hs by (vm_compute in Hu; by injection Hu as <-).
  exists u, u'. split; [done|]. split; [|done]. apply (ended_upload_fixed (OpInterrupt 9) s "u"); [exact I|done|done|by rewrite Hs].
Defined.

(** What cleanup may collect: a failed or superfluous retired revision that no running
    backup reads, no service runs and no active preview shows. *)
Definition collectable (mode : ImageCleanupMode) (keep : Z) (s : Images) (id : string) (r : ImageRevision) : Prop :=
  (i_Status r = RFailed \/
   i_Status r = RRetired /\
     match mode with
     | ImageCleanupStandard => keep < row_number (fun r' => is_status RActive r' || is_status RRetired r') id r (revisions s)
     | ImageCleanupCritical => row_number (is_status RRetired) id r (revisions s) <> 1
     | ImageCleanupEmergency => True
     end)
  /\ id ∉ runningBackups s
  /\ (forall d service, i_DeploymentID r = Some d -> services s !! service <> Some (Some d))
  /\ (forall pid p, previews s !! pid = Some p -> p_ImageRevisionID p = Some id -> p_Status p <> PActive).

Lemma condition_spec mode keep s id r : revisions s !! id = Some r ->
  (imageRevisionCleanupCondition mode keep (revisions s) id r && negb (bool_decide (id ∈ runningBackups s)) = true /\ deletable id s = true)
  <-> collectable mode keep s id r.
Proof.
  intros Hr. unfold collectable, imageRevisionCleanupCondition, deletable, is_status. rewrite Hr, !andb_true_iff, !negb_true_iff, orb_true_iff.
  rewrite andb_true_iff, !bool_decide_eq_true, !bool_decide_eq_false.
  assert ((match i_DeploymentID r with Some d => active_deployment d s | None => false end) = false <->
          forall d service, i_DeploymentID r = Some d -> services s !! service <> Some (Some d)) as ->.
  { destruct (i_DeploymentID r) as [d|]; [|naive_solver]. unfold active_deployment. rewrite EXISTS_false. split.
    - intros H d' service [= <-] Hs. specialize (H _ _ Hs). by apply bool_decide_eq_false in H.
    - intros H k v Hk. apply bool_decide_eq_false. intros ->. by apply (H d k). }
  assert (active_preview id s = false <-> forall pid p, previews s !! pid = Some p -> p_ImageRevisionID p = Some id -> p_Status p <> PActive) as ->.
  { unfold active_preview. rewrite EXISTS_false. split.
    - intros H pid p Hp Hi Ha. specialize (H _ _ Hp). by rewrite !bool_decide_eq_true_2 in H.
    - intros H k v Hk. specialize (H _ _ Hk). apply andb_false_iff. rewrite !bool_decide_eq_false. destruct (decide (p_ImageRevisionID v = Some id)); auto. }
  destruct mode; rewrite ?negb_true_iff, ?Z.leb_gt, ?Z.eqb_neq; intuition congruence.
Qed.

(** The candidates of a cleanup. *)
Definition candidate (mode : ImageCleanupMode) (keep : Z) (s : Images) (x : string * ImageRevision) : bool :=
  imageRevisionCleanupCondition mode keep (revisions s) x.1 x.2 && negb (bool_decide (x.1 ∈ runningBackups s)).
Definition candidates (mode : ImageCleanupMode) (keep : Z) (s : Images) : list (string * string) :=
  (fun x => (x.1, i_ArchivePath x.2)) <$> List.filter (candidate mode keep s) (map_to_list (revisions s)).
Lemma elem_of_candidates mode keep s id path :
  (id, path) ∈ candidates mode keep s <-> exists r, revisions s !! id = Some r /\ i_ArchivePath r = path /\ candidate mode keep s (id, r) = true.
Proof.
  unfold candidates. rewrite list_elem_of_fmap. setoid_rewrite list_elem_of_In. setoid_rewrite List.filter_In. setoid_rewrite <- list_elem_of_In. split.
  - intros ([id' r] & [= -> ->] & Hin%elem_of_map_to_list & Ht). eauto.
  - intros (r & Hr & <- & Ht). exists (id, r). split; [done|]. split; [by apply elem_of_map_to_list|done].
Qed.
Lemma candidates_NoDup mode keep s : NoDup (candidates mode keep s).*1.
Proof.
  unfold candidates. rewrite <- list_fmap_compose. eapply (sublist_NoDup _ (map_to_list (revisions s)).*1); [apply NoDup_fst_map_to_list|].
  induction (map_to_list (revisions s)) as [|x l IH]; simpl; [done|]. destruct (candidate mode keep s x); simpl; by constructor.
Qed.
Lemma candidates_deleted mode keep s l s' id r : fold_left delete_candidate (candidates mode keep s) ([], s) = (l, s') -> revisions s !! id = Some r ->
  (revisions s' !! id = None <-> collectable mode keep s id r).
Proof.
  intros Hf Hr. destruct (delete_candidates_spec _ (candidates_NoDup mode keep s) ([], s) id) as (_ & Hout & Hin). rewrite Hf in Hout, Hin. simpl in Hout, Hin.
  rewrite <- (condition_spec _ _ _ _ _ Hr). assert (revisions s' !! id = None <-> present id s' = false) as ->.
  { unfold present. by rewrite bool_decide_eq_false, <- eq_None_not_Some. }
  assert (present id s = true) as Hp by (apply bool_decide_eq_true; by rewrite Hr).
  destruct (decide (id ∈ (candidates mode keep s).*1)) as [Hi|Hi].
  - rewrite (Hin Hi), Hp. simpl. rewrite negb_false_iff. apply list_elem_of_fmap in Hi as ([id' path] & -> & Hi).
    apply elem_of_candidates in Hi as (r' & Hr' & _ & Ht). simpl in *. simplify_eq. unfold candidate in Ht. tauto.
  - destruct (Hout Hi) as (_ & _ & _ & -> & _). rewrite Hp. split; [done|]. intros [Ht _]. exfalso. apply Hi.
    apply list_elem_of_fmap. exists (id, i_ArchivePath r). split; [done|]. apply elem_of_candidates. eauto.
Qed.
Lemma cleanup_fold mode now keep s files s' : DeleteImageCleanupCandidates mode now keep s = Ok (files, s') ->
  exists s0, revisions s0 = revisions s /\ services s0 = services s /\ previews s0 = previews s /\ runningBackups s0 = runningBackups s
  /\ fold_left delete_candidate (candidates mode keep s0) ([], s0) = (ArchivePaths files, s').
Proof.
  unfold DeleteImageCleanupCandidates. intros H. do 2 (case_match; [done|]). case_match eqn:Hf. injection H as <- <-.
  exists (set_uploads (filter (fun x => expired now x.2 = false) (uploads s)) s). done.
Qed.

(** C19. Image cleanup deletes exactly the collectable revisions, reports exactly their
    archives for removal, and leaves every other revision in place: never one that is
    being imported, runs, is shown by an active preview or is read by a backup, and in
    standard mode never one of the newest [keep] of its service and kind. *)
Theorem cleanup_exact (mode : ImageCleanupMode) (now keep : Z) (s : Images) (files : ImageCleanupFiles) (s' : Images) :
  DeleteImageCleanupCandidates mode now keep s = Ok (files, s') ->
  (forall id r, revisions s !! id = Some r -> (revisions s' !! id = None <-> collectable mode keep s id r))
  /\ (forall path, path ∈ ArchivePaths files <-> exists id r, revisions s !! id = Some r /\ i_ArchivePath r = path /\ revisions s' !! id = None).
Proof.
  intros (s0 & Er & Es & Ep & Eb & Hf)%cleanup_fold.
  assert (forall id r, collectable mode keep s0 id r <-> collectable mode keep s id r) as Hsame
    by (intros id r; unfold collectable; by rewrite Er, Es, Ep, Eb).
  rewrite <- Er. assert (forall id r, revisions s0 !! id = Some r -> (revisions s' !! id = None <-> collectable mode keep s0 id r)) as Hgone
    by (intros id r; by eapply candidates_deleted).
  split; [intros id r Hr; rewrite <- Hsame; by apply Hgone|]. intros path.
  destruct (delete_candidates_spec _ (candidates_NoDup mode keep s0) ([], s0) path) as (Hpaths & _ & _). rewrite Hf in Hpaths. simpl in Hpaths.
  rewrite Hpaths, list_elem_of_fmap. setoid_rewrite list_elem_of_In. setoid_rewrite List.filter_In. setoid_rewrite <- list_elem_of_In. split.
  - intros ([id path'] & -> & Hi & Hd). apply elem_of_candidates in Hi as (r & Hr & <- & Ht). exists id, r. split; [done|]. split; [done|].
    by apply (Hgone id r), condition_spec.
  - intros (id & r & Hr & <- & Hn). apply (Hgone id r Hr), (condition_spec _ _ _ _ _ Hr) in Hn as [Ht Hd]. exists (id, i_ArchivePath r). split; [done|].
    split; [apply elem_of_candidates; eauto|done].
Qed.

(** An upload becomes a preview, which is stopped. *)
Definition stopped_preview : Images := run_ops (sample_upload ++
  [OpBeginPreview (mkBeginPreview "p" "svc" "pr-1" "r" "pr-1.example.com" 80 "sha256:d" "oci-archive:/a/r" "h" "{}" 7 1000);
   OpActivatePreview "p" "" ["rec"] 8; OpComplete "u" "r" "https://pr-1.example.com" 9 1000 1000; OpStopPreview "p" 10; OpClearRecords "p"]) no_images.
Definition after_cleanup : ImageCleanupFiles * Images :=
  match DeleteImageCleanupCandidates ImageCleanupEmergency 20 3 stopped_preview with Ok x => x | Err _ => (mkCleanupFiles [] [], stopped_preview) end.

Lemma cleanup_exact_witness : DeleteImageCleanupCandidates ImageCleanupEmergency 20 3 stopped_preview = Ok after_cleanup
  /\ revisions after_cleanup.2 !! "r" = None /\ "/a/r" ∈ ArchivePaths after_cleanup.1.
Proof.
  assert (DeleteImageCleanupCandidates ImageCleanupEmergency 20 3 stopped_preview = Ok (after_cleanup.1, after_cleanup.2)) as H by (vm_compute; reflexivity).
  split; [vm_compute; reflexivity|]. split; [vm_compute; reflexivity|].
  destruct (cleanup_exact _ _ _ _ _ _ H) as [_ Hp]. apply Hp.
  destruct (revisions stopped_preview !! "r") as [r|] eqn:Hr; [|vm_compute in Hr; discriminate Hr].
  exists "r", r. split; [exact Hr|]. split; [vm_compute in Hr; injection Hr as <-; reflexivity|vm_compute; reflexivity].
Defined.

(** Once cleanup has collected the revision of a preview that is over, the preview's
    reference is NULL, which scanPreview cannot read: listing the previews of the service
    fails from then on, and so does the removal of finished previews. *)
Theorem collected_revision_breaks_listing (mode : ImageCleanupMode) (now keep : Z) (s : Images) (files : ImageCleanupFiles) (s' : Images)
    (pid id : string) (p : PreviewRow) :
  DeleteImageCleanupCandidates mode now keep s = Ok (files, s') -> references s -> is_Some (services s !! p_ServiceID p) ->
  previews s !! pid = Some p -> p_ImageRevisionID p = Some id -> revisions s' !! id = None ->
  PreviewDeploymentsForService (p_ServiceID p) s' = Err ErrScanNull
  /\ (forall before, removable before p = true -> DeleteFinishedPreviewDeployments before s' = Err ErrScanNull).
Proof.
  intros Hc Href [active Hs] Hp Hid Hgone. destruct (cleanup_cleaned _ _ _ _ _ _ Hc) as (Es & Hr & Hps). specialize (Hr Href).
  destruct (Hps _ _ Hp) as (p' & Hp' & E & Hn).
  assert (p_ImageRevisionID p' = None) as Hnone.
  { destruct Hn as [Hn|]; [|done]. rewrite Hid in Hn. destruct (Hr _ _ _ Hp' Hn) as [? ?]. congruence. }
  split.
  - unfold PreviewDeploymentsForService. rewrite Es, Hs, bool_decide_eq_false_2 by done. apply previewList_null. exists (pid, p'). split; [|done].
    rewrite list_elem_of_In, <- in_rev, <- list_elem_of_In, elem_of_SELECT. split; [done|]. rewrite E. by apply bool_decide_eq_true.
  - intros before Hb. unfold DeleteFinishedPreviewDeployments. rewrite previewList_null; [done|]. exists (pid, p'). split; [|done].
    apply elem_of_SELECT. split; [done|]. by rewrite E.
Qed.
Lemma collected_revision_breaks_listing_witness : PreviewDeploymentsForService "svc" after_cleanup.2 = Err ErrScanNull
  /\ DeleteFinishedPreviewDeployments 100 after_cleanup.2 = Err ErrScanNull.
Proof.
  assert (DeleteImageCleanupCandidates ImageCleanupEmergency 20 3 stopped_preview = Ok (after_cleanup.1, after_cleanup.2)) as H by (vm_compute; reflexivity).
  destruct (previews stopped_preview !! "p") as [p|] eqn:Hp; [|vm_compute in Hp; discriminate Hp].
  assert (p_ServiceID p = "svc" /\ p_ImageRevisionID p = Some "r" /\ removable 100 p = true) as (E1 & E2 & E3)
    by (vm_compute in Hp; injection Hp as <-; repeat split; vm_compute; reflexivity).
  assert (references stopped_preview) as Href.
  { intros q x i Hq Hx. destruct (decide (q = "p")) as [->|Hne]; [rewrite Hp in Hq; injection Hq as <-; rewrite E2 in Hx; injection Hx as <-; vm_compute; eauto|].
    exfalso. assert (previews stopped_preview = {[ "p" := p ]}) as Em by (apply map_eq_iff; intros; vm_compute in Hp; injection Hp as <-; vm_compute; reflexivity).
    rewrite Em, lookup_singleton_ne in Hq by done. discriminate Hq. }
  destruct (collected_revision_breaks_listing _ _ _ _ _ _ "p" "r" p H Href) as [H1 H2]; [rewrite E1; vm_compute; eauto|done|done|vm_compute; reflexivity|].
  rewrite E1 in H1. split; [exact H1|]. by apply H2.
Defined.
