(* ===== verification/Oidc.v ===== *)
(** * Oidc: tokens of GitHub Actions

    internal/imageupload/oidc.go: parsing a token, the cache of GitHub's keys, the
    checks of the claims and of the workflow.  JSON decoding, RSA and the request for
    the key set are outside; times are nanoseconds since 1970. *)

From Stdlib Require Import Ascii.
From S2P Require Import Prelude Names ServiceConfig DeploymentStore Base64 ImageStore.

Definition ErrOIDC : goerr := Sentinel "imageupload.ErrOIDC" "invalid GitHub Actions OIDC token".
Definition githubIssuer : string := "https://token.actions.githubusercontent.com".
Definition maximumTokenSize : Z := 16 * 1024.
Definition keyTTL : Z := 6 * hour.
Definition clockSkew : Z := 60 * second.

(** ** The functions of [strings], [path] and [time] *)

(** The text before the last [sep], if there is one. *)
Fixpoint before_last (sep : ascii) (s : string) : option string :=
  match s with
  | EmptyString => None
  | String c s =>
      match before_last sep s with
      | Some t => Some (String c t)
      | None => if Ascii.eqb c sep then Some EmptyString else None
      end
  end.
(** The text after the last [sep], or all of it. *)
Fixpoint after_last (sep : ascii) (s : string) : string :=
  match s with
  | EmptyString => EmptyString
  | String c rest => if str_forall (fun x => negb (Ascii.eqb x sep)) s then s else after_last sep rest
  end.
Fixpoint drop_slashes (s : string) : string := match s with String "/" s => drop_slashes s | _ => s end.
Definition path_Base (s : string) : string :=
  if bool_decide (s = "") then "."
  else let base := after_last "/" (String.rev (drop_slashes (String.rev s))) in
       if bool_decide (base = "") then "/" else base.

(** The simple folding of a text to lower-case ASCII, where it has one: U+212A folds to k
    and U+017F to s. *)
Fixpoint fold_ascii (s : string) : option string :=
  match s with
  | EmptyString => Some EmptyString
  | String "226" (String "132" (String "170" s)) => String "k" <$> fold_ascii s
  | String "197" (String "191" s) => String "s" <$> fold_ascii s
  | String c s => if (N_of_ascii c <? 128)%N then String (to_lower_ascii c) <$> fold_ascii s else None
  end.
(** [strings.EqualFold] with an ASCII text. *)
Definition EqualFold (s ascii : string) : bool := bool_decide (fold_ascii s = fold_ascii ascii) && bool_decide (is_Some (fold_ascii s)).
(** [strings.ToLower] of a text with such a folding. *)
Fixpoint ToLower (s : string) : string :=
  match s with
  | EmptyString => EmptyString
  | String "226" (String "132" (String "170" s)) => String "k" (ToLower s)
  | String c s => String (to_lower_ascii c) (ToLower s)
  end.

Definition unixToInternal : Z := 62135596800.
Definition time_Unix (seconds : Z) : Z := (i64 (seconds + unixToInternal) - unixToInternal) * second.
Definition time_Add (t d : Z) : Z := Z.min (t + d) ((max_int64 - unixToInternal) * second).

(** ** Tokens *)

Record oidcHeader := mkHeader { Algorithm : string; KeyID : string }.
Record oidcClaims := mkClaims {
  Audience : list string; Issuer : string; ExpiresAt : Z; NotBefore : Z; IssuedAt : Z; cl_Repository : string; cl_Ref : string;
  cl_SHA : string; cl_Workflow : string; WorkflowRef : string; JobWorkflowRef : string; cl_Actor : string; cl_RunID : string; cl_RunAttempt : string
}.
Record OIDCRequest := mkOIDCRequest {
  rq_Token : string; rq_Audience : string; rq_Repository : string; rq_Branch : string; rq_Workflows : list string; rq_Production : bool
}.

Definition workflowAllowed (workflowRef : string) (allowed : list string) : bool :=
  let workflow := trim_space workflowRef in
  if bool_decide (workflow = "") then false
  else let workflow := path_Base (default workflow (before_last "@" workflow)) in
       existsb (fun value => bool_decide (workflow = value)) allowed.

Definition validateClaims (now : Z) (claims : oidcClaims) (request : OIDCRequest) : option goerr :=
  if negb (bool_decide (Issuer claims = githubIssuer)) || negb (existsb (fun a => bool_decide (a = rq_Audience request)) (Audience claims))
     || negb (EqualFold (cl_Repository claims) (rq_Repository request)) || (ExpiresAt claims =? 0) || (IssuedAt claims =? 0)
     || bool_decide (cl_Ref claims = "") || bool_decide (cl_SHA claims = "") || bool_decide (WorkflowRef claims = "")
     || bool_decide (cl_Actor claims = "") || bool_decide (cl_RunID claims = "") || bool_decide (cl_RunAttempt claims = "")
  then Some ErrOIDC
  else if (time_Add (time_Unix (ExpiresAt claims)) clockSkew <? now) || (now + clockSkew <? time_Unix (IssuedAt claims))
          || (time_Unix (IssuedAt claims) <? now - 15 * minute)
  then Some ErrOIDC
  else if negb (NotBefore claims =? 0) && (now + clockSkew <? time_Unix (NotBefore claims)) then Some ErrOIDC
  else if rq_Production request && negb (bool_decide (cl_Ref claims = "refs/heads/" +:+ rq_Branch request)) then Some ErrOIDC
  else if negb (bool_decide (rq_Workflows request = []))
          && negb (workflowAllowed (WorkflowRef claims) (rq_Workflows request) || workflowAllowed (JobWorkflowRef claims) (rq_Workflows request))
  then Some ErrOIDC
  else None.

(** ** Keys *)

Record oidcJWK := mkJWK { jwk_Algorithm : string; jwk_Exponent : string; jwk_KeyID : string; jwk_Modulus : string; jwk_Type : string }.
(** The modulus as its bytes. *)
Record PublicKey := mkKey { N_ : string; E_ : Z }.
#[export] Instance PublicKey_eq_dec : EqDecision PublicKey.
Proof. solve_decision. Defined.

Definition oidcRSAKey (value : oidcJWK) : result goerr PublicKey :=
  match base64url_Decode (jwk_Modulus value) with
  | None => Err (Msg "invalid GitHub OIDC RSA modulus")
  | Some modulus =>
      if (zlen modulus <? 256) || (1024 <? zlen modulus) then Err (Msg "invalid GitHub OIDC RSA modulus")
      else match base64url_Decode (jwk_Exponent value) with
      | None => Err (Msg "invalid GitHub OIDC RSA exponent")
      | Some bytes =>
          if (zlen bytes =? 0) || (4 <? zlen bytes) then Err (Msg "invalid GitHub OIDC RSA exponent")
          else let exponent := fold_left (fun e c => Z.lor (Z.shiftl e 8) (Z.of_N (N_of_ascii c))) (text bytes) 0 in
               if (exponent <? 3) || (exponent mod 2 =? 0) then Err (Msg "invalid GitHub OIDC RSA exponent")
               else Ok (mkKey modulus exponent)
      end
  end.
(** The loop over the keys of a document. *)
Fixpoint collect_keys (values : list oidcJWK) (keys : gmap string PublicKey) : result goerr (gmap string PublicKey) :=
  match values with
  | [] => Ok keys
  | value :: values =>
      if negb (bool_decide (jwk_Type value = "RSA")) || negb (bool_decide (jwk_Algorithm value = "RS256")) || bool_decide (jwk_KeyID value = "")
      then collect_keys values keys
      else let? key := oidcRSAKey value in
           if bool_decide (is_Some (keys !! jwk_KeyID value)) then Err (Msg "duplicate GitHub OIDC key")
           else collect_keys values (<[jwk_KeyID value := key]> keys)
  end.
(** [document] is the key set of the response, if it was one. *)
Definition fetchKeys (document : option (list oidcJWK)) : result goerr (gmap string PublicKey) :=
  match document with
  | None => Err (Msg "invalid GitHub OIDC JWKS")
  | Some values =>
      if bool_decide (values = []) || (64 <? Z.of_nat (length values)) then Err (Msg "invalid GitHub OIDC JWKS")
      else let? keys := collect_keys values ∅ in
           if bool_decide (keys = ∅) then Err (Msg "GitHub OIDC JWKS has no supported key") else Ok keys
  end.

(** A cached key and when it expires. *)
Record OIDCVerifier := mkVerifier { keys : gmap string (PublicKey * Z); refreshed : option Z }.
Definition NewOIDCVerifier : OIDCVerifier := mkVerifier ∅ None.

Definition usable (now : Z) (keyID : string) (v : OIDCVerifier) : option PublicKey :=
  match keys v !! keyID with Some (key, expires) => if now <? expires then Some key else None | None => None end.
Definition store_keys (now : Z) (fetched : gmap string PublicKey) (v : OIDCVerifier) : OIDCVerifier :=
  mkVerifier (((fun key => (key, now + keyTTL)) <$> fetched) ∪ keys v) (Some now).
Definition key (document : option (list oidcJWK)) (now : Z) (keyID : string) (v : OIDCVerifier) : result goerr PublicKey * OIDCVerifier :=
  match usable now keyID v with
  | Some k => (Ok k, v)
  | None =>
      let needsRefresh := match refreshed v with None => true | Some t => minute <=? time_sub now t end in
      let finish v := (match usable now keyID v with Some k => Ok k | None => Err ErrOIDC end, v) in
      if needsRefresh
      then match fetchKeys document with
           | Err e => (Err e, v)
           | Ok fetched => finish (store_keys now fetched v)
           end
      else finish v
  end.

(** JSON decoding of the two parts of a token, SHA-256 and RSA. *)
Class OIDCTables := {
  decode_header : string -> option oidcHeader;
  decode_claims : string -> option oidcClaims;
  VerifyPKCS1v15 : PublicKey -> string -> string -> bool
}.

Section Verify.
Context `{OIDCTables}.

Definition parseOIDCToken (token : string) : result goerr (oidcHeader * oidcClaims * string * string) :=
  if bool_decide (token = "") || (maximumTokenSize <? zlen token) then Err ErrOIDC
  else match split "." token with
  | [p0; p1; p2] =>
      match base64url_Decode p0, base64url_Decode p1, base64url_Decode p2 with
      | Some headerData, Some claimsData, Some signature =>
          match decode_header headerData, decode_claims claimsData with
          | Some header, Some claims => Ok (header, claims, p0 +:+ "." +:+ p1, signature)
          | _, _ => Err ErrOIDC
          end
      | _, _, _ => Err (Msg "illegal base64 data")
      end
  | _ => Err ErrOIDC
  end.

Definition identity_of (claims : oidcClaims) : ImageUploadIdentity :=
  mkIdentity (ToLower (cl_Repository claims)) (cl_Ref claims) (cl_SHA claims) "" (cl_Workflow claims) (WorkflowRef claims) (cl_Actor claims)
    (cl_RunID claims) (cl_RunAttempt claims).

Definition Verify (document : option (list oidcJWK)) (now : Z) (request : OIDCRequest) (v : OIDCVerifier) : result goerr ImageUploadIdentity * OIDCVerifier :=
  match parseOIDCToken (rq_Token request) with
  | Err _ => (Err ErrOIDC, v)
  | Ok (header, claims, signingInput, signature) =>
      if negb (bool_decide (Algorithm header = "RS256")) || bool_decide (KeyID header = "") || bool_decide (rq_Audience request = "")
      then (Err ErrOIDC, v)
      else match key document now (KeyID header) v with
      | (Err _, v) => (Err ErrOIDC, v)
      | (Ok k, v) =>
          if negb (VerifyPKCS1v15 k signingInput signature) then (Err ErrOIDC, v)
          else match validateClaims now claims request with
          | Some _ => (Err ErrOIDC, v)
          | None => (Ok (identity_of claims), v)
          end
      end
  end.
End Verify.

(** ** Lemmas *)

Definition no_byte (sep : ascii) : string -> bool := str_forall (fun x => negb (Ascii.eqb x sep)).

Lemma before_last_none sep s : no_byte sep s = true -> before_last sep s = None.
Proof.
  unfold no_byte. induction s as [|c s IH]; simpl; [done|]. intros [Hc Hs]%andb_true_iff. rewrite IH by done. by apply negb_true_iff in Hc as ->.
Qed.
Lemma before_last_app sep s t : no_byte sep t = true -> before_last sep (s +:+ String sep t) = Some s.
Proof.
  intros Ht. induction s as [|c s IH]; simpl; [|by rewrite IH]. rewrite before_last_none by done. by rewrite Ascii.eqb_refl.
Qed.
Lemma after_last_none sep s : no_byte sep s = true -> after_last sep s = s.
Proof. destruct s as [|c s]; [done|]. intros H. simpl. unfold no_byte in H. simpl in H. by rewrite H. Qed.
Lemma after_last_app sep s t : no_byte sep t = true -> after_last sep (s +:+ String sep t) = t.
Proof.
  intros Ht. induction s as [|c s IH]; simpl.
  - rewrite Ascii.eqb_refl. simpl. by apply after_last_none.
  - fold (no_byte sep (s +:+ String sep t)). assert (no_byte sep (s +:+ String sep t) = false) as ->; [|by rewrite andb_false_r].
    unfold no_byte. rewrite str_forall_app. simpl. by rewrite Ascii.eqb_refl, andb_false_r.
Qed.
Lemma drop_slashes_id s : no_byte "/" s = true -> drop_slashes s = s.
Proof.
  destruct s as [|c s]; [done|]. unfold no_byte. simpl. intros [Hc _]%andb_true_iff. destruct (Ascii.eqb_spec c "/") as [->|Hne]; [done|].
  clear -Hne. destruct c as [[] [] [] [] [] [] [] []]; try reflexivity. by destruct Hne.
Qed.
Lemma drop_slashes_app s t : s <> "" -> no_byte "/" s = true -> drop_slashes (s +:+ t) = s +:+ t.
Proof.
  destruct s as [|c s]; [done|]. unfold no_byte. simpl. intros _ [Hc _]%andb_true_iff. destruct (Ascii.eqb_spec c "/") as [->|Hne]; [done|].
  clear -Hne. destruct c as [[] [] [] [] [] [] [] []]; try reflexivity. by destruct Hne.
Qed.
Lemma path_Base_app dir file : file <> "" -> no_byte "/" file = true -> path_Base (dir +:+ String "/" file) = file.
Proof.
  intros Hne Hf. unfold path_Base. rewrite (bool_decide_eq_false_2 (_ = "")) by (by destruct dir).
  replace (String.rev (dir +:+ String "/" file)) with (String.rev file +:+ (String.rev (dir +:+ "/"))).
  2: { rewrite <- rev_app_distr_str. by rewrite app_assoc_str. }
  rewrite drop_slashes_app.
  - rewrite <- rev_app_distr_str, rev_rev, app_assoc_str. change ("/" +:+ file) with (String "/" file). rewrite after_last_app by done. by rewrite bool_decide_eq_false_2.
  - intros E. apply Hne. rewrite <- (rev_rev file), E. done.
  - unfold no_byte. by rewrite str_forall_rev.
Qed.

(** The workflow check compares the last path element before the last "@" of the
    workflow reference with the allowlist, whatever comes before.  In a reference
    owner/repo/.github/workflows/FILE@REF with a REF free of "@" that is the FILE; but
    a branch may be called x/NAME@y, and then it is NAME, whatever file runs. *)
Theorem workflow_of_last_at (before name after : string) (allowed : list string) :
  str_forall graphic before = true -> str_forall graphic name = true -> str_forall graphic after = true ->
  name <> "" -> no_byte "/" name = true -> no_byte "@" after = true ->
  workflowAllowed (before +:+ String "/" (name +:+ String "@" after)) allowed = true <-> name ∈ allowed.
Proof.
  intros Hb Hn Ha Hne Hs Hat. unfold workflowAllowed.
  rewrite trim_space_graphic by (rewrite str_forall_app; simpl; rewrite str_forall_app; simpl; by rewrite Hb, Hn, Ha).
  rewrite (bool_decide_eq_false_2 (_ = "")) by (by destruct before).
  change (before +:+ String "/" (name +:+ String "@" after)) with (before +:+ (String "/" name +:+ String "@" after)).
  rewrite <- app_assoc_str, before_last_app by done. simpl. rewrite path_Base_app by done.
  rewrite existsb_exists. setoid_rewrite <- list_elem_of_In. setoid_rewrite bool_decide_eq_true. split; [intros (x & ? & ->); done|eauto].
Qed.
Lemma workflow_of_last_at_witness :
  workflowAllowed "o/r/.github/workflows/deploy.yml@refs/heads/main" ["deploy.yml"] = true
  /\ workflowAllowed "o/r/.github/workflows/evil.yml@refs/heads/main" ["deploy.yml"] = false
  /\ workflowAllowed "o/r/.github/workflows/evil.yml@refs/heads/x/deploy.yml@y" ["deploy.yml"] = true.
Proof.
  split; [|split; [vm_compute; reflexivity|]].
  - apply (workflow_of_last_at "o/r/.github/workflows" "deploy.yml" "refs/heads/main" ["deploy.yml"]); try reflexivity; [done|left].
  - apply (workflow_of_last_at "o/r/.github/workflows/evil.yml@refs/heads/x" "deploy.yml" "y" ["deploy.yml"]); try reflexivity; [done|left].
Defined.

(** ** The cache and verified tokens *)

Section Authentic.
Context `{OIDCTables}.

(** A call of [Verify]: the key set GitHub answers with if it is asked, and the time. *)
Definition call : Type := option (list oidcJWK) * Z * OIDCRequest.
Definition run_calls (calls : list call) (v : OIDCVerifier) : OIDCVerifier := fold_left (fun v c => (Verify c.1.1 c.1.2 c.2 v).2) calls v.

(** Every cached key was in a key set fetched [keyTTL] before it expires. *)
Definition fetched_at (calls : list call) (id : string) (k : PublicKey) (t : Z) : Prop :=
  exists document request fetched, (document, t, request) ∈ calls /\ fetchKeys document = Ok fetched /\ fetched !! id = Some k.
Definition cache_ok (calls : list call) (v : OIDCVerifier) : Prop :=
  forall id k expires, keys v !! id = Some (k, expires) -> fetched_at calls id k (expires - keyTTL).

Lemma fetched_at_more calls c id k t : fetched_at calls id k t -> fetched_at (calls ++ [c]) id k t.
Proof. intros (d & r & f & Hin & ? & ?). exists d, r, f. split; [|done]. apply elem_of_app. by left. Qed.
Lemma store_keys_ok calls document now request fetched v : fetchKeys document = Ok fetched -> cache_ok calls v ->
  cache_ok (calls ++ [(document, now, request)]) (store_keys now fetched v).
Proof.
  intros Hf Hv id k e. simpl. rewrite lookup_union_Some_raw, lookup_fmap, fmap_Some. intros [(k' & Hk & [= -> ->])|[_ Hk]].
  - exists document, request, fetched. replace (now + keyTTL - keyTTL) with now by lia. split; [|done]. apply elem_of_app. right. left.
  - by apply fetched_at_more, Hv.
Qed.
Lemma key_ok calls document now request id v r v' : key document now id v = (r, v') -> cache_ok calls v ->
  cache_ok (calls ++ [(document, now, request)]) v' /\ forall k, r = Ok k -> exists e, keys v' !! id = Some (k, e) /\ now < e.
Proof.
  intros Hk Hv. assert (cache_ok (calls ++ [(document, now, request)]) v) as Hv' by (intros ????; by apply fetched_at_more, Hv).
  assert (forall w k, usable now id w = Some k -> exists e, keys w !! id = Some (k, e) /\ now < e) as Hu.
  { intros w k. unfold usable. destruct (keys w !! id) as [[k0 e]|]; [|done]. destruct (Z.ltb_spec now e); [|done]. intros [= ->]. eauto. }
  unfold key in Hk. destruct (usable now id v) as [k0|] eqn:E0; [simplify_eq; split; [done|]; intros k [= ->]; by apply Hu|].
  destruct (match refreshed v with None => true | Some t => minute <=? time_sub now t end).
  - destruct (fetchKeys document) as [fetched|] eqn:Ef; simplify_eq; [|done].
    split; [by apply store_keys_ok|]. intros k Hr. apply Hu. destruct (usable now id (store_keys now fetched v)); [by injection Hr as ->|done].
  - simplify_eq. split; [done|]. done.
Qed.
Lemma verify_state c v : exists id, (Verify c.1.1 c.1.2 c.2 v).2 = v \/ (Verify c.1.1 c.1.2 c.2 v).2 = (key c.1.1 c.1.2 id v).2.
Proof.
  unfold Verify. destruct (parseOIDCToken _) as [[[[h cl] i] s]|]; [|exists ""; by left]. exists (KeyID h). case_match; [by left|].
  right. destruct (key _ _ _ v) as [[k|] v']; [|done]. simpl. repeat case_match; done.
Qed.
Lemma verify_cache calls c v : cache_ok calls v -> cache_ok (calls ++ [c]) (Verify c.1.1 c.1.2 c.2 v).2.
Proof.
  intros Hv. destruct (verify_state c v) as [id [-> | ->]].
  - intros ????. by apply fetched_at_more, Hv.
  - destruct c as [[document now] request]. simpl. destruct (key document now id v) as [r v'] eqn:E. by apply (key_ok calls _ _ request) in E as [? _].
Qed.
Lemma run_calls_cache calls : forall past v, cache_ok past v -> cache_ok (past ++ calls) (run_calls calls v).
Proof.
  induction calls as [|c calls IH]; intros past v Hv; simpl; [by rewrite app_nil_r|].
  change (c :: calls) with ([c] ++ calls). rewrite app_assoc. by apply IH, verify_cache.
Qed.

Lemma claims_valid now claims request : validateClaims now claims request = None ->
  Issuer claims = githubIssuer /\ rq_Audience request ∈ Audience claims /\ fold_ascii (cl_Repository claims) = fold_ascii (rq_Repository request)
  /\ now <= time_Unix (ExpiresAt claims) + clockSkew
  /\ now - 15 * minute <= time_Unix (IssuedAt claims) <= now + clockSkew
  /\ (rq_Production request = true -> cl_Ref claims = "refs/heads/" +:+ rq_Branch request)
  /\ (rq_Workflows request <> [] -> workflowAllowed (WorkflowRef claims) (rq_Workflows request) || workflowAllowed (JobWorkflowRef claims) (rq_Workflows request) = true).
Proof.
  unfold validateClaims. case_match eqn:H1; [done|]. case_match eqn:H2; [done|]. case_match eqn:H3; [done|]. case_match eqn:H4; [done|].
  case_match eqn:H5; [done|]. intros _. repeat rewrite orb_false_iff in H1. repeat rewrite orb_false_iff in H2. destruct H1 as [[[[[[[[[[I1 I2] I3] _] _] _] _] _] _] _] _], H2 as [[T1 T2] T3].
  apply negb_false_iff in I1, I2, I3. apply bool_decide_eq_true in I1. apply existsb_exists in I2 as (a & Ha & ->%bool_decide_eq_true).
  unfold EqualFold in I3. apply andb_true_iff in I3 as [I3%bool_decide_eq_true _]. unfold time_Add in T1.
  split; [done|]. split; [by apply list_elem_of_In|]. split; [done|]. split; [lia|]. split; [lia|]. split.
  - intros Hp. rewrite Hp in H4. simpl in H4. by apply negb_false_iff, bool_decide_eq_true in H4.
  - intros Hw. rewrite bool_decide_eq_false_2 in H5 by done. simpl in H5. by apply negb_false_iff in H5.
Qed.

(** C18. An upload is authorised only by an authentic token: its RS256 signature verifies
    under a key that GitHub's key set named less than six hours ago, and its claims name
    GitHub, this audience, the configured repository (up to case), for production the
    configured branch, and a lifetime around now.  The identity stored with the upload is
    that of the claims. *)
Theorem verified_token_authentic (calls : list call) (document : option (list oidcJWK)) (now : Z) (request : OIDCRequest)
    (identity : ImageUploadIdentity) (v' : OIDCVerifier) :
  Verify document now request (run_calls calls NewOIDCVerifier) = (Ok identity, v') ->
  exists header claims input signature k t,
    parseOIDCToken (rq_Token request) = Ok (header, claims, input, signature) /\ Algorithm header = "RS256"
    /\ VerifyPKCS1v15 k input signature = true /\ fetched_at (calls ++ [(document, now, request)]) (KeyID header) k t /\ now < t + keyTTL
    /\ Issuer claims = githubIssuer /\ rq_Audience request ∈ Audience claims
    /\ fold_ascii (cl_Repository claims) = fold_ascii (rq_Repository request)
    /\ now <= time_Unix (ExpiresAt claims) + clockSkew /\ now - 15 * minute <= time_Unix (IssuedAt claims) <= now + clockSkew
    /\ (rq_Production request = true -> cl_Ref claims = "refs/heads/" +:+ rq_Branch request)
    /\ identity = identity_of claims.
Proof.
  assert (cache_ok calls (run_calls calls NewOIDCVerifier)) as Hc.
  { apply (run_calls_cache calls [] NewOIDCVerifier). intros id k e Hk. simpl in Hk. by rewrite lookup_empty in Hk. }
  unfold Verify. destruct (parseOIDCToken _) as [[[[h cl] i] s]|]; [|done]. case_match eqn:Hh; [done|].
  destruct (key document now (KeyID h) _) as [[k|] w] eqn:Hk; [|done]. case_match eqn:Hsig; [done|].
  destruct (validateClaims now cl request) eqn:Hv; [done|]. intros [= <- <-].
  apply (key_ok calls _ _ request) in Hk as [Hok Hkey]; [|done]. destruct (Hkey k eq_refl) as (e & He & Hlt).
  apply claims_valid in Hv as (? & ? & ? & ? & ? & ? & _). rewrite !orb_false_iff in Hh. destruct Hh as [[Halg _] _].
  exists h, cl, i, s, k, (e - keyTTL). split; [done|]. split; [by apply negb_false_iff, bool_decide_eq_true in Halg|].
  split; [by apply negb_false_iff|]. split; [by apply Hok|]. split; [lia|]. done.
Qed.
End Authentic.

Definition sample_claims : oidcClaims :=
  mkClaims ["https://h/p"] githubIssuer 1000 0 900 "O/R" "refs/heads/main" "abc" "ci" "o/r/.github/workflows/deploy.yml@refs/heads/main" "" "me" "1" "1".
Definition sample_tables : OIDCTables :=
  {| decode_header := fun _ => Some (mkHeader "RS256" "kid"); decode_claims := fun _ => Some sample_claims;
     VerifyPKCS1v15 := fun k input signature => bool_decide (E_ k = 65537) && bool_decide (signature = "A") |}.
Definition sample_keys : list oidcJWK := [mkJWK "RS256" "AQAB" "kid" (Nat.iter 342 (String "A") "") "RSA"].
Definition sample_request : OIDCRequest := mkOIDCRequest "QQ.QQ.QQ" "https://h/p" "o/r" "main" ["deploy.yml"] true.
Lemma verified_token_authentic_witness : exists identity v',
  @Verify sample_tables (Some sample_keys) (950 * second) sample_request NewOIDCVerifier = (Ok identity, v') /\ id_Repository identity = "o/r"
  /\ id_Ref identity = "refs/heads/" +:+ rq_Branch sample_request.
Proof.
  destruct (@Verify sample_tables (Some sample_keys) (950 * second) sample_request NewOIDCVerifier) as [[identity|e] v'] eqn:E;
    [|vm_compute in E; discriminate E].
  exists identity, v'. split; [reflexivity|].
  destruct (@verified_token_authentic sample_tables [] (Some sample_keys) (950 * second) sample_request identity v' E)
    as (h & c & i & s & k & t & Hp & _ & _ & _ & _ & _ & _ & _ & _ & _ & Href & ->).
  vm_compute in Hp. injection Hp as <- <- <- <-. split; [reflexivity|]. exact (Href eq_refl).
Defined.
