(* ===== verification/UploadHandler.v ===== *)
(** * UploadHandler: receiving image archives in parts

    internal/imageupload/application.go after authorisation ([Oidc]): parts of an
    archive are files of the upload's directory and ranges of its row in [ImageStore];
    when the ranges cover the archive it is assembled, checked against its SHA-256,
    stored as a revision, imported and deployed.  A file is a directory with a name and
    its bytes. *)

From stdpp Require Import pretty.
From Stdlib Require Import Ascii.
From S2P Require Import Prelude Names ServiceConfig DeploymentStore Resp ImageStore ImageProofs.

Definition UploadRetention : Z := 24 * 60 * 60 * 1000.
Definition PreviewRetention : Z := 14 * 24 * 60 * 60 * 1000.
Definition MaximumUploadChunkBytes : Z := 100 * 2 ^ 20.
Definition assembledArchiveName : string := "archive.oci".

(** ** Names and numbers of a request *)

Definition alnum (c : ascii) : bool := is_upper c || is_lower c || is_digit c.
Definition imageTag (s : string) : bool :=
  opt_test (fun c => alnum c || Ascii.eqb c "_") (first_byte s) && (zlen s <=? 128)
  && str_forall (fun c => alnum c || Ascii.eqb c "_" || Ascii.eqb c "." || Ascii.eqb c "-") s.
Definition sha256Hex (s : string) : bool := (zlen s =? 64) && str_forall (fun c => is_digit c || in_range 97 102 c) s.
Definition uploadIdentifier (s : string) : bool :=
  opt_test alnum (first_byte s) && (16 <=? zlen s) && (zlen s <=? 128) && str_forall (fun c => alnum c || Ascii.eqb c "_" || Ascii.eqb c "-") s.
Definition parsePositiveHeader (value : string) : option Z :=
  match ParseInt (text (trim_space value)) 64 with Some n => if n <=? 0 then None else Some n | None => None end.
Definition parseNonNegativeHeader (value : string) : option Z :=
  match ParseInt (text (trim_space value)) 64 with Some n => if n <? 0 then None else Some n | None => None end.
Definition sameRun (left right : ImageUploadIdentity) : bool :=
  bool_decide (id_Repository left = id_Repository right) && bool_decide (id_Ref left = id_Ref right)
  && bool_decide (id_WorkflowRef left = id_WorkflowRef right) && bool_decide (id_RunID left = id_RunID right)
  && bool_decide (id_RunAttempt left = id_RunAttempt right).

(** ** Files *)

Abbreviation FileSet := (gmap (string * string) (list ascii)).
Definition partName (offset length : Z) : string := pretty offset +:+ "-" +:+ pretty length +:+ ".part".
Definition partFilePath (directory : string) (offset length : Z) : string * string := (directory, partName offset length).
Definition RemoveAll (directory : string) (files : FileSet) : FileSet := filter (fun x => x.1.1 <> directory) files.

Definition ErrExist : goerr := Sentinel "os.ErrExist" "file already exists".
(** What reading the body of a request yields, then the end or an error. *)
Record Body := mkBody { b_data : bytes; b_error : option goerr }.
(** The file is created, [length] bytes and no more are copied into it, and it is
    removed again when that fails; [disk] is the error of a write, if any. *)
Definition writePartFile (path : string * string) (length : Z) (body : Body) (disk : option goerr) (files : FileSet) : option goerr * FileSet :=
  match files !! path with
  | Some _ => (Some ErrExist, files)
  | None =>
      let data := take (Z.to_nat (length + 1)) (b_data body) in
      let copy := match disk with Some e => Some e | None => if blen data <=? length then b_error body else None end in
      match copy with
      | Some e => (Some e, files)
      | None => if negb (blen data =? length) then (Some (Msg "upload chunk length"), files) else (None, <[path := data]> files)
      end
  end.

(** The loop over the ordered ranges; [fault] has the parts that cannot be read. *)
Fixpoint copyParts (directory : string) (fault : ImageUploadByteRange -> option goerr) (ordered : list ImageUploadByteRange) (acc : bytes) (files : FileSet) : result goerr bytes :=
  match ordered with
  | [] => Ok acc
  | item :: ordered =>
      match files !! partFilePath directory (Offset item) (Length item) with
      | None => Err (Msg "no such file or directory")
      | Some part =>
          match fault item with
          | Some e => Err e
          | None =>
              let copied := take (Z.to_nat (Length item)) part in
              if negb (blen copied =? Length item) then Err (Msg "part length") else copyParts directory fault ordered (acc ++ copied) files
          end
      end
  end.
Definition assembleParts (directory : string) (ranges : list ImageUploadByteRange) (expectedLength : Z) (fault : ImageUploadByteRange -> option goerr)
    (sync : option goerr) (files : FileSet) : result goerr (string * string) * FileSet :=
  if negb (ImageUploadCoverageComplete ranges expectedLength) then (Err (Msg "upload ranges are incomplete"), files)
  else
    let destination := (directory, assembledArchiveName) in
    match files !! destination with
    | Some _ => (Err ErrExist, files)
    | None =>
        match copyParts directory fault (merge_sort range_le ranges) [] files, sync with
        | Ok data, None => (Ok destination, <[destination := data]> files)
        | Ok _, Some e => (Err e, files)
        | Err e, _ => (Err e, files)
        end
    end.

(** ** The handler *)

Record UploadRequest := mkUploadRequest {
  q_ContentLength : Z; q_UploadID : string; q_Offset : string; q_Length : string; q_SHA256 : string; q_body : Body
}.
(** What authorisation found, and the service. *)
Record Authorised := mkAuthorised { a_ServiceID : string; a_Tag : string; a_Identity : ImageUploadIdentity; a_PreviewsEnabled : bool }.
(** The answers of the surroundings during a request: the growth gate, Mkdir, disk, clock. *)
Record HandlerEnv := mkHandlerEnv { h_growth : option goerr; h_mkdir : option goerr; h_disk : option goerr; h_now : Z }.
Record UploadWorld := mkUploadWorld { w_files : FileSet; w_images : Images }.
(** The answer: an error with its status, or an upload, and whether it is complete, so
    that its processing starts. *)
Inductive Response := Refused (status : Z) (code : string) | Shown (upload : ImageUpload) (start : bool).

Definition writeRequestError (err : goerr) : Response :=
  match err with
  | Sentinel "imageupload.requestError" code => Refused 400 code
  | _ =>
      if errors_Is "imageupload.ErrOIDC" err then Refused 401 "invalid_oidc"
      else if errors_Is "state.ErrImageUploadRangeOverlap" err then Refused 409 "range_overlap"
      else if errors_Is "state.ErrImageUploadNotFound" err then Refused 404 "upload_not_found"
      else if errors_Is "state.ErrImageUploadChanged" err then Refused 409 "upload_changed"
      else Refused 500 "internal_error"
  end.
Definition requestError (code : string) : goerr := Sentinel "imageupload.requestError" code.

Definition begin (root : string) (auth : Authorised) (q : UploadRequest) (env : HandlerEnv) (w : UploadWorld) : result goerr ImageUpload * UploadWorld :=
  if negb (bool_decide (a_Tag auth = "latest")) && negb (a_PreviewsEnabled auth) then (Err (requestError "previews_disabled"), w)
  else match h_growth env with
  | Some e => (Err e, w)
  | None =>
      match parseNonNegativeHeader (q_Offset q), parsePositiveHeader (q_Length q) with
      | None, _ => (Err (requestError "invalid_offset"), w)
      | _, None => (Err (requestError "invalid_length"), w)
      | Some _, Some length =>
          let expectedSHA := trim_space (q_SHA256 q) in
          if negb (sha256Hex expectedSHA) then (Err (requestError "invalid_sha256"), w)
          else
            let uploadID := trim_space (q_UploadID q) in
            let temporaryPath := root +:+ "/" +:+ uploadID in
            match h_mkdir env with
            | Some e => (Err e, w)
            | None =>
                match BeginImageUpload uploadID (mkHead (a_ServiceID auth) (a_Tag auth) length expectedSHA temporaryPath (a_Identity auth) (h_now env))
                        (h_now env + UploadRetention) (w_images w) with
                | Err e => (Err e, mkUploadWorld (RemoveAll temporaryPath (w_files w)) (w_images w))
                | Ok (superseded, images) =>
                    let files := fold_left (fun files path => if bool_decide (path = temporaryPath) then files else RemoveAll path files) superseded (w_files w) in
                    (findImageUpload uploadID (a_ServiceID auth) images, mkUploadWorld files images)
                end
            end
      end
  end.

(** From the part's file on, with [upload] as it was read. *)
Definition receivePart (uploadID : string) (upload : ImageUpload) (offset : Z) (q : UploadRequest) (env : HandlerEnv) (w : UploadWorld) : Response * UploadWorld :=
  let length := q_ContentLength q in
  let path := partFilePath (u_TemporaryPath (u_head upload)) offset length in
  let record files :=
    match RecordImageUploadPart uploadID offset length (h_now env) (w_images w) with
    | Ok (u, complete, images) => (Shown u complete, mkUploadWorld files images)
    | Err e =>
        if errors_Is "state.ErrImageUploadRangeOverlap" e then (Refused 409 "range_overlap", mkUploadWorld (delete path files) (w_images w))
        else (writeRequestError e, mkUploadWorld files (w_images w))
    end in
  match writePartFile path length (q_body q) (h_disk env) (w_files w) with
  | (None, files) => record files
  | (Some e, files) =>
      if negb (errors_Is "os.ErrExist" e) then (Refused 500 "chunk_write_failed", mkUploadWorld files (w_images w))
      else match files !! path with
      | Some part => if blen part =? length then record files else (Refused 409 "chunk_write_failed", mkUploadWorld (delete path files) (w_images w))
      | None => (Refused 409 "chunk_write_failed", mkUploadWorld (delete path files) (w_images w))
      end
  end.

(** A whole request.  The lock of the upload is released while [receivePart] writes the
    part file; how the system calls of several requests interleave there is in
    [UploadParts]. *)
Definition upload (root : string) (auth : Authorised) (q : UploadRequest) (env : HandlerEnv) (w : UploadWorld) : Response * UploadWorld :=
  if MaximumUploadChunkBytes <? q_ContentLength q then (Refused 413 "chunk_too_large", w)
  else
    let uploadID := trim_space (q_UploadID q) in
    if negb (uploadIdentifier uploadID) then (Refused 400 "upload_id_required", w)
    else match parseNonNegativeHeader (q_Offset q) with
    | None => (Refused 400 "invalid_offset", w)
    | Some offset =>
        if q_ContentLength q <=? 0 then (Refused 400 "empty_chunk", w)
        else
          let '(found, w) := match findImageUpload uploadID (a_ServiceID auth) (w_images w) with
                             | Ok u => (Ok u, w)
                             | Err e => if errors_Is "state.ErrImageUploadNotFound" e then begin root auth q env w else (Err e, w)
                             end in
          match found with
          | Err e => (writeRequestError e, w)
          | Ok u =>
              if negb (bool_decide (u_Tag (u_head u) = a_Tag auth)) || negb (sameRun (a_Identity auth) (u_Identity (u_head u))) then (Refused 401 "invalid_oidc", w)
              else if negb (bool_decide (u_Status u = Uploading)) then (Shown u false, w)
              else if (u_ExpectedLength (u_head u) <=? offset) || (i64 (u_ExpectedLength (u_head u) - offset) <? q_ContentLength q)
              then (Refused 413 "chunk_exceeds_upload", w)
              else receivePart uploadID u offset q env w
          end
    end.

(** ** Part names *)

#[local] Arguments partFilePath : simpl never.

Lemma pretty_go_digits x : forall s, str_forall is_digit s = true -> str_forall is_digit (pretty_N_go x s) = true.
Proof.
  induction (N.lt_wf_0 x) as [x _ IH]; intros s Hs. destruct (decide (x = 0)%N) as [->|Hx]; [by rewrite pretty_N_go_0|].
  rewrite pretty_N_go_step by lia. apply IH; [apply N.div_lt; lia|]. simpl. rewrite Hs, andb_true_r. unfold pretty_N_char. by repeat case_match.
Qed.
Lemma pretty_digits n : 0 <= n -> str_forall is_digit (pretty n) = true.
Proof.
  intros Hn. destruct n as [|p|p]; [done| |lia]. change (pretty (Z.pos p)) with (pretty_N_go (N.pos p) ""). by apply pretty_go_digits.
Qed.
Lemma partName_inj o l o' l' : 0 <= o -> 0 <= o' -> 0 <= l -> 0 <= l' -> partName o l = partName o' l' -> o = o' /\ l = l'.
Proof.
  intros Ho Ho' Hl Hl' E. unfold partName in E. assert (forall a b, cut "-" (pretty a +:+ "-" +:+ b) = (pretty a, b, true) \/ a < 0) as Hc.
  { intros a b. destruct (decide (a < 0)); [by right|left]. apply (cut_app is_digit); [apply pretty_digits; lia|done]. }
  destruct (Hc o (pretty l +:+ ".part")) as [H1|]; [|lia]. destruct (Hc o' (pretty l' +:+ ".part")) as [H2|]; [|lia].
  rewrite E, H2 in H1. injection H1 as E1 E2. split; [by apply (inj pretty)|].
  pose proof (cut_app is_digit "." (pretty l) "part" (pretty_digits l Hl) eq_refl) as D1.
  pose proof (cut_app is_digit "." (pretty l') "part" (pretty_digits l' Hl') eq_refl) as D2.
  simpl in E2. rewrite E2, D1 in D2. injection D2 as D2. by apply (inj pretty).
Qed.
Lemma partName_archive o l : 0 <= o -> partName o l <> assembledArchiveName.
Proof.
  intros Ho E. pose proof (pretty_digits o Ho) as Hd. unfold partName in E. destruct (pretty o) as [|c s]; [done|]. injection E as -> E.
  done.
Qed.

(** ** The archive of a client *)

Section Archive.
Context (data : bytes) (dir : string).
Definition slice (offset length : Z) : bytes := take (Z.to_nat length) (drop (Z.to_nat offset) data).

Lemma slice_length offset length : 0 <= offset -> 0 <= length -> offset + length <= blen data -> blen (slice offset length) = length.
Proof. intros ???. unfold blen, slice in *. rewrite length_take, length_drop. lia. Qed.
Lemma take_slice offset length : 0 <= offset -> 0 <= length -> take (Z.to_nat offset) data ++ slice offset length = take (Z.to_nat (offset + length)) data.
Proof. intros ??. unfold slice. rewrite Z2Nat.inj_add by done. by rewrite take_take_drop. Qed.

(** Every part file has its bytes of the archive. *)
Definition parts_ok (files : FileSet) : Prop :=
  forall o l c, 0 <= o -> 0 < l -> files !! partFilePath dir o l = Some c -> c = slice o l.
(** Every recorded range has its file. *)
Definition ranges_stored (ranges : list ImageUploadByteRange) (files : FileSet) : Prop :=
  forall x, x ∈ ranges -> is_Some (files !! partFilePath dir (Offset x) (Length x)).

(** Every recorded range has its file, with its bytes of the archive. *)
Definition ranges_whole (ranges : list ImageUploadByteRange) (files : FileSet) : Prop :=
  forall x, x ∈ ranges -> files !! partFilePath dir (Offset x) (Length x) = @Some (list ascii) (slice (Offset x) (Length x)).
Lemma stored_whole expected ranges files : parts_ok files -> Forall (in_bounds expected) ranges -> ranges_stored ranges files -> ranges_whole ranges files.
Proof.
  intros Hp Hin Hst x Hx. destruct (proj1 (Forall_forall _ _) Hin x Hx) as (? & ? & _).
  pose proof (Hst x Hx) as [c Hc]. pose proof (Hp _ _ _ ltac:(done) ltac:(done) Hc) as ->. exact Hc.
Qed.

Lemma copyParts_spec ordered files : forall c, 0 <= c -> blen data <= max_int64 ->
  Forall (fun x => 0 <= Offset x /\ 0 < Length x /\ Offset x + Length x <= blen data) ordered ->
  ranges_whole ordered files -> cover c ordered = Some (blen data) ->
  copyParts dir (fun _ => None) ordered (take (Z.to_nat c) data) files = Ok data.
Proof.
  induction ordered as [|x l IH]; intros c Hc Hmax Hin Hst Hcov; simpl in *.
  - injection Hcov as ->. unfold blen. rewrite Nat2Z.id, firstn_all. done.
  - apply Forall_cons in Hin as [(Ho & Hl & Hb) Hin]. destruct (Z.eqb_spec (Offset x) c) as [Hoc|]; [|done].
    simpl in Hcov. rewrite (proj2 (Z.leb_gt _ _)) in Hcov by lia. rewrite i64_small in Hcov by (unfold min_int64; lia).
    rewrite (Hst x ltac:(left)).
    assert (take (Z.to_nat (Length x)) (slice (Offset x) (Length x)) = slice (Offset x) (Length x)) as ->.
    { unfold slice. rewrite take_take. f_equal. lia. }
    rewrite slice_length, Z.eqb_refl by lia. simpl. rewrite Hoc, take_slice by lia. apply IH; [lia|done|done| |done].
    intros y Hy. apply Hst. by right.
Qed.

Lemma assembleParts_spec ranges files : 0 < blen data <= max_int64 -> wf_ranges (blen data) ranges -> ranges_whole ranges files ->
  files !! (dir, assembledArchiveName) = None -> range_sum ranges = blen data ->
  assembleParts dir ranges (blen data) (fun _ => None) None files = (Ok (dir, assembledArchiveName), <[(dir, assembledArchiveName) := data]> files).
Proof.
  intros Hd Hwf Hst Hno Hsum. destruct (coverage_spec _ _ Hd Hwf) as [_ Hc]. apply Hc in Hsum as Hcov. unfold assembleParts. rewrite Hcov, Hno. simpl.
  unfold ImageUploadCoverageComplete in Hcov. rewrite (proj2 (Z.leb_gt _ _)) in Hcov by lia. apply bool_decide_eq_true in Hcov.
  pose proof (merge_sort_Permutation range_le ranges) as Hperm. apply symmetry in Hperm.
  pose proof (copyParts_spec (merge_sort range_le ranges) files 0 ltac:(lia) ltac:(lia)) as Hcopy. rewrite take_0 in Hcopy. rewrite Hcopy; [done| | |done].
  - rewrite <- Hperm. apply (ranges_in _ _ Hwf).
  - intros x. rewrite <- Hperm. apply Hst.
Qed.

(** ** Parts that arrive one after the other *)

Context (h : UploadHead) (id : string).
Hypothesis Hdir : u_TemporaryPath h = dir.
Hypothesis Hlen : u_ExpectedLength h = blen data.

(** A client of this archive: a body of the announced length is that part of it. *)
Definition honest (q : UploadRequest) : Prop :=
  trim_space (q_UploadID q) = id /\
  forall offset, parseNonNegativeHeader (q_Offset q) = Some offset -> blen (b_data (q_body q)) = q_ContentLength q ->
    b_data (q_body q) = slice offset (q_ContentLength q).

(** The upload while it is received. *)
Definition receiving (w : UploadWorld) : Prop :=
  exists u, uploads (w_images w) !! id = Some u /\ u_head u = h /\ u_Status u = Uploading /\ wf_upload u /\ parts_ok (w_files w)
  /\ ranges_stored (u_ReceivedRanges u) (w_files w) /\ w_files w !! (dir, assembledArchiveName) = None.

Lemma writePartFile_cases path length body disk files e files' : writePartFile path length body disk files = (e, files') ->
  (files' = files /\ e <> None) \/ (e = None /\ files !! path = None /\ files' = <[path := b_data body]> files /\ blen (b_data body) = length).
Proof.
  unfold writePartFile. destruct (files !! path) eqn:Hf; [intros [= <- <-]; by left|].
  set (copy := match disk with Some e => _ | None => _ end). destruct copy; [intros [= <- <-]; by left|].
  destruct (Z.eqb_spec (blen (take (Z.to_nat (length + 1)) (b_data body))) length) as [Hl|]; simpl; intros [= <- <-]; [|by left].
  right. split; [done|]. split; [done|]. unfold blen in *. rewrite length_take in Hl.
  assert ((Datatypes.length (b_data body) <= Z.to_nat (length + 1))%nat) as Hle by lia. rewrite (take_ge _ _ Hle). split; [done|lia].
Qed.

(** Recording a part whose file is there keeps everything. *)
Lemma record_keeps w u offset length now files : uploads (w_images w) !! id = Some u -> u_head u = h -> u_Status u = Uploading -> wf_upload u ->
  0 <= offset <= max_int64 -> 0 < length <= max_int64 -> parts_ok files -> ranges_stored (u_ReceivedRanges u) files ->
  files !! (dir, assembledArchiveName) = None -> is_Some (files !! partFilePath dir offset length) ->
  match RecordImageUploadPart id offset length now (w_images w) with
  | Ok (_, _, images) => receiving (mkUploadWorld files images)
  | Err e => receiving (mkUploadWorld (if errors_Is "state.ErrImageUploadRangeOverlap" e then delete (partFilePath dir offset length) files else files) (w_images w))
  end.
Proof.
  intros Hu Hh Hs Hwf Ho Hl Hp Hst Hno Hf. pose proof (record_part_evolves id offset length now (w_images w) ltac:(lia) ltac:(lia)) as Hev.
  assert (receiving (mkUploadWorld files (w_images w))) as Hsame by (exists u; done).
  simpl in Hev. unfold RecordImageUploadPart in *. case_match; [done|]. rewrite Hu in *. case_match; [done|]. case_match; [done|]. case_match; [done|].
  case_match eqn:Hover; [|case_match; [done|]].
  - simpl. exists u. simpl. split; [done|]. split; [done|]. split; [done|]. split; [done|]. split; [|split].
    + intros o l c ??. rewrite lookup_delete_Some. intros [_ ?]. by apply Hp.
    + intros x Hx. rewrite lookup_delete_ne; [by apply Hst|]. intros [= E]. destruct (proj1 (Forall_forall _ _) (ranges_in _ _ (upload_ranges _ Hwf)) _ Hx) as (? & ? & _).
      apply partName_inj in E as [E1 E2]; [|lia..]. match goal with H : findExactRange _ _ _ = false |- _ => apply not_true_iff_false in H; apply H end.
      apply existsb_exists. exists x. rewrite <- list_elem_of_In. split; [done|]. lia.
    + rewrite lookup_delete_None. by right.
  - simpl in Hev. destruct (Hev id _ (lookup_insert_eq _ _ _)) as (u0 & Hu0 & (_ & Hw & _)). simplify_eq. eexists. simpl. rewrite lookup_insert_eq. split; [done|].
    split; [done|]. split; [done|]. split; [by apply Hw|]. split; [done|]. split; [|done]. simpl.
    intros x. rewrite elem_of_app, list_elem_of_singleton. intros [Hx| ->]; [by apply Hst|done].
Qed.

Lemma receivePart_keeps w u offset q env : uploads (w_images w) !! id = Some u -> receiving w -> honest q ->
  parseNonNegativeHeader (q_Offset q) = Some offset -> 0 <= offset <= max_int64 -> 0 < q_ContentLength q <= max_int64 -> offset + q_ContentLength q <= blen data ->
  receiving (receivePart id u offset q env w).2.
Proof.
  intros Hu Hr [_ Hq] Hoff Ho Hl Hfit. destruct Hr as (u0 & Hu0 & Hh & Hs & Hwf & Hp & Hst & Hno). rewrite Hu in Hu0. injection Hu0 as <-.
  unfold receivePart. rewrite Hh, Hdir. set (path := partFilePath dir offset (q_ContentLength q)). set (length := q_ContentLength q) in *.
  destruct (writePartFile path length (q_body q) (h_disk env) (w_files w)) as [e files] eqn:Hwrite.
  apply writePartFile_cases in Hwrite as [[-> He]|(-> & Hnone & -> & Hb)].
  - destruct e as [e|]; [|done]. assert (receiving w) as Hr by (exists u; done). destruct w as [fs im]. simpl in *.
    destruct (errors_Is "os.ErrExist" e); simpl; [|done]. destruct (fs !! path) as [part|] eqn:Hpart.
    + rewrite (Hp offset length part) by (done || lia). rewrite slice_length, Z.eqb_refl by lia.
      pose proof (record_keeps (mkUploadWorld fs im) u offset length (h_now env) fs Hu Hh Hs Hwf Ho Hl Hp Hst Hno ltac:(by exists part)) as Hk. simpl in Hk.
      destruct (RecordImageUploadPart _ _ _ _ _) as [[[u1 c] im1]|e1]; [done|]. by destruct (errors_Is _ e1).
    + simpl. rewrite delete_id by done. done.
  - set (files := <[path := b_data (q_body q)]> (w_files w)).
    assert (parts_ok files) as Hp'.
    { intros o l c ? ?. unfold files. destruct (decide (partFilePath dir o l = path)) as [Heq|Hne].
      - rewrite Heq, lookup_insert_eq. intros [= <-]. injection Heq as Heq. apply partName_inj in Heq as [-> ->]; [|lia..]. by apply Hq.
      - rewrite lookup_insert_ne by done. by apply Hp. }
    assert (ranges_stored (u_ReceivedRanges u) files) as Hst'.
    { intros x Hx. unfold files. apply lookup_insert_is_Some'. right. by apply Hst. }
    assert (files !! (dir, assembledArchiveName) = None) as Hno'.
    { unfold files. rewrite lookup_insert_ne; [done|]. intros [= E]. by apply partName_archive in E; [|lia]. }
    pose proof (record_keeps w u offset length (h_now env) files Hu Hh Hs Hwf Ho Hl Hp' Hst' Hno' ltac:(unfold files; rewrite lookup_insert_eq; by eexists)) as Hk.
    destruct (RecordImageUploadPart _ _ _ _ _) as [[[u1 c] im1]|e1]; [done|]. by destruct (errors_Is _ e1).
Qed.

Lemma ParseInt_bounds b n : ParseInt b 64 = Some n -> n <= max_int64.
Proof.
  unfold ParseInt. destruct (match b with [] => _ | _ => _ end) as [neg ds]. destruct ds; [done|]. destruct (parse_digits 0 _); [|done].
  case_match eqn:E; [|done]. intros [= <-]. apply andb_true_iff in E as [_ E]. unfold max_int64. lia.
Qed.
Lemma offset_bounds value n : parseNonNegativeHeader value = Some n -> 0 <= n <= max_int64.
Proof.
  unfold parseNonNegativeHeader. destruct (ParseInt _ 64) eqn:E; [|done]. apply ParseInt_bounds in E. case_match; [done|]. intros [= <-]. lia.
Qed.

Lemma upload_keeps root auth q env w : 0 < blen data <= max_int64 -> a_ServiceID auth = u_ServiceID h -> honest q -> receiving w ->
  receiving (upload root auth q env w).2.
Proof.
  intros Hd Ha Hq Hr. pose proof Hq as [Hid _]. pose proof Hr as (u & Hu & Hh & Hs & _). unfold upload. rewrite Hid.
  case_match; [done|]. case_match; [done|]. destruct (parseNonNegativeHeader (q_Offset q)) as [offset|] eqn:Ho; [|done].
  case_match; [done|]. unfold findImageUpload. rewrite Hu, Hh, Ha, bool_decide_eq_true_2 by done. rewrite Hh.
  case_match; [done|]. rewrite Hs, bool_decide_eq_true_2 by done. simpl. apply offset_bounds in Ho as Hb.
  case_match eqn:Hfit; [done|]. apply orb_false_iff in Hfit as [F1 F2]. rewrite i64_small in F2 by (unfold min_int64 in *; lia).
  apply receivePart_keeps; try done; unfold MaximumUploadChunkBytes, max_int64 in *; lia.
Qed.

(** The upload as BeginImageUpload leaves it. *)
Definition fresh (w : UploadWorld) : Prop :=
  (exists u, uploads (w_images w) !! id = Some u /\ u_head u = h /\ u_Status u = Uploading /\ u_ReceivedRanges u = [] /\ u_ReceivedLength u = 0)
  /\ forall name, w_files w !! (dir, name) = None.
Lemma fresh_receiving w : 0 < blen data <= max_int64 -> fresh w -> receiving w.
Proof.
  intros Hd [(u & Hu & Hh & Hs & Hr & Hl) Hf]. exists u. split; [done|]. split; [done|]. split; [done|]. split.
  - split; rewrite ?Hh, ?Hr, ?Hl, ?Hlen; [done| |done|unfold past_upload; by rewrite Hs].
    split; [by apply Forall_nil|by apply NoDup_nil|]. intros a b Ha. by apply not_elem_of_nil in Ha.
  - rewrite Hr. split; [intros o l c _ _; unfold partFilePath; by rewrite Hf|]. split; [intros x Hx; by apply not_elem_of_nil in Hx|done].
Qed.
Definition uploadAll (root : string) (auth : Authorised) (requests : list (UploadRequest * HandlerEnv)) (w : UploadWorld) : UploadWorld :=
  fold_left (fun w q => (upload root auth q.1 q.2 w).2) requests w.
Lemma uploadAll_keeps root auth requests : 0 < blen data <= max_int64 -> a_ServiceID auth = u_ServiceID h -> Forall (fun q => honest q.1) requests ->
  forall w, receiving w -> receiving (uploadAll root auth requests w).
Proof.
  intros Hd Ha. induction 1 as [|[q env] l Hq Hl IH]; intros w Hr; simpl; [done|]. apply IH. by apply upload_keeps.
Qed.

(** When requests are handled one after the other: whatever parts a client of the archive
    sends, in any order and any cut, with repetitions, parts too long or overlapping,
    connections that break and disks that fail, once received_length is the length of the
    archive the parts assemble to exactly its bytes.  Requests that overlap in time are in
    [UploadParts] and [UploadAssembly]. *)
Theorem sequential_parts_assemble (root : string) (auth : Authorised) (requests : list (UploadRequest * HandlerEnv)) (w : UploadWorld) (u : ImageUpload) :
  0 < blen data <= max_int64 -> a_ServiceID auth = u_ServiceID h -> Forall (fun q => honest q.1) requests -> fresh w ->
  let w' := uploadAll root auth requests w in
  uploads (w_images w') !! id = Some u -> u_ReceivedLength u = blen data ->
  assembleParts dir (u_ReceivedRanges u) (u_ExpectedLength (u_head u)) (fun _ => None) None (w_files w')
    = (Ok (dir, assembledArchiveName), <[(dir, assembledArchiveName) := data]> (w_files w')).
Proof.
  intros Hd Ha Hq Hw w' Hu Hall. destruct (uploadAll_keeps root auth requests Hd Ha Hq w (fresh_receiving w Hd Hw)) as (u0 & Hu0 & Hh & Hs & Hwf & Hp & Hst & Hno).
  fold w' in Hu0, Hp, Hst, Hno. rewrite Hu in Hu0. injection Hu0 as <-. rewrite Hh, Hlen.
  pose proof (upload_ranges _ Hwf) as Hr. rewrite Hh, Hlen in Hr.
  apply assembleParts_spec; try done.
  - eapply stored_whole; [done|apply (ranges_in _ _ Hr)|done].
  - by rewrite <- (upload_received _ Hwf).
Qed.
End Archive.

Definition sample_data : bytes := text "platformd".
Definition sample_upload_head : UploadHead := mkHead "svc" "pr-1" 9 sample_hash "/up/upload-0123456789" sample_identity 1.
Definition sample_auth : Authorised := mkAuthorised "svc" "pr-1" sample_identity true.
Definition sample_part (offset : string) (body : string) : UploadRequest * HandlerEnv :=
  (mkUploadRequest (zlen body) "upload-0123456789" offset "9" sample_hash (mkBody (text body) None), mkHandlerEnv None None None 5).
Definition sample_world : UploadWorld :=
  mkUploadWorld ∅ (mkImages {[ "upload-0123456789" := mkUpload sample_upload_head 0 [] Uploading None None None None None None 1 1000 ]} ∅ ∅ ∅ ∅ ∅).
Definition sample_parts : list (UploadRequest * HandlerEnv) :=
  [sample_part "4" "formd"; sample_part "4" "formd"; sample_part "2" "atf"; sample_part "0" "plat"].
Lemma sequential_parts_assemble_witness : exists u, uploads (w_images (uploadAll "/up" sample_auth sample_parts sample_world)) !! "upload-0123456789" = Some u
  /\ u_ReceivedRanges u = [mkRange 4 5; mkRange 0 4]
  /\ assembleParts "/up/upload-0123456789" (u_ReceivedRanges u) 9 (fun _ => None) None (w_files (uploadAll "/up" sample_auth sample_parts sample_world))
      = (Ok ("/up/upload-0123456789", assembledArchiveName),
         <[("/up/upload-0123456789", assembledArchiveName) := sample_data]> (w_files (uploadAll "/up" sample_auth sample_parts sample_world))).
Proof.
  eexists. split; [vm_compute; reflexivity|]. split; [reflexivity|].
  apply (sequential_parts_assemble sample_data "/up/upload-0123456789" sample_upload_head "upload-0123456789" eq_refl eq_refl "/up" sample_auth sample_parts sample_world);
    [vm_compute; split; congruence|reflexivity| | |vm_compute; reflexivity|reflexivity].
  - repeat constructor; try (vm_compute; reflexivity); intros offset Ho; vm_compute in Ho; injection Ho as <-; intros _; vm_compute; reflexivity.
  - split; [eexists; split; [vm_compute; reflexivity|]; repeat split|intros name; vm_compute; reflexivity].
Defined.
