(* ===== verification/UploadParts.v ===== *)
(** * UploadParts: requests for parts at the same time

    The part of [upload] in internal/imageupload/application.go that runs without the
    lock: requests create, write, inspect and remove part files side by side.  A name
    refers to an inode, which a request goes on writing after the name is removed; the
    recorded ranges are those of the upload's row. *)

From Stdlib Require Import Ascii.
From S2P Require Import Prelude Names ServiceConfig DeploymentStore ImageStore ImageProofs.

(** Where a request is. *)
Inductive Place :=
| Opening
| Writing (inode : nat) (written : nat)
| Existing
| Removing
| Recording
| Answered (status : Z).
Record PartRequest := mkPartRequest { pr_range : ImageUploadByteRange; pr_body : list ascii; pr_place : Place }.
Definition at_ (place : Place) (r : PartRequest) : PartRequest := mkPartRequest (pr_range r) (pr_body r) place.

#[export] Instance range_countable : Countable ImageUploadByteRange.
Proof. refine (inj_countable' (fun x => (Offset x, Length x)) (fun y => mkRange y.1 y.2) _). by intros []. Defined.

(** Names by their range, see [partName_inj]. *)
Record Parts := mkParts { names : gmap ImageUploadByteRange nat; inodes : gmap nat (list ascii); requests : gmap nat PartRequest; recorded : list ImageUploadByteRange }.
Definition moved (i : nat) (r : PartRequest) (place : Place) (s : Parts) : Parts := mkParts (names s) (inodes s) (<[i := at_ place r]> (requests s)) (recorded s).
Definition unlink (x : ImageUploadByteRange) (s : Parts) : Parts := mkParts (delete x (names s)) (inodes s) (requests s) (recorded s).

(** A request goes on, copies some bytes, its connection, the disk or the store fails, or
    the store commits and only the acknowledgement is lost. *)
Inductive Move := Go | Copy (n : nat) | Break | Lost.
(** The bytes that io.Copy takes: one more than announced, to see whether there are more. *)
Definition limited (r : PartRequest) : list ascii := take (S (Z.to_nat (Length (pr_range r)))) (pr_body r).
Definition step (i : nat) (move : Move) (s : Parts) : Parts :=
  match requests s !! i with
  | None => s
  | Some r =>
      let x := pr_range r in
      match pr_place r, move with
      | Opening, Break => moved i r (Answered 500) s
      | Opening, Go =>
          match names s !! x with
          | Some _ => moved i r Existing s
          | None => let inode := fresh (dom (inodes s)) in
                    moved i r (Writing inode 0) (mkParts (<[x := inode]> (names s)) (<[inode := []]> (inodes s)) (requests s) (recorded s))
          end
      | Writing inode written, Copy n =>
          let written' := (written + n `min` (length (limited r) - written))%nat in
          moved i r (Writing inode written') (mkParts (names s) (<[inode := take written' (limited r)]> (inodes s)) (requests s) (recorded s))
      | Writing inode written, Go =>
          if negb (Nat.eqb written (length (limited r))) then s
          else if Z.of_nat written =? Length x then moved i r Recording s else moved i r (Answered 500) (unlink x s)
      | Writing inode written, Break => moved i r (Answered 500) (unlink x s)
      | Existing, Go =>
          match names s !! x with
          | Some inode => if Z.of_nat (length (default [] (inodes s !! inode))) =? Length x then moved i r Recording s else moved i r Removing s
          | None => moved i r Removing s
          end
      | Existing, Break => moved i r Removing s
      | Removing, Go => moved i r (Answered 409) (unlink x s)
      | Recording, Go =>
          if findExactRange (recorded s) (Offset x) (Length x) then moved i r (Answered 202) s
          else if rangesOverlap (recorded s) (Offset x) (Length x) then moved i r (Answered 409) (unlink x s)
          else let s := moved i r (Answered 202) s in mkParts (names s) (inodes s) (requests s) (recorded s ++ [x])
      | Recording, Break => moved i r (Answered 500) s
      | Recording, Lost =>
          let s' := moved i r (Answered 500) s in
          if findExactRange (recorded s) (Offset x) (Length x) || rangesOverlap (recorded s) (Offset x) (Length x) then s'
          else mkParts (names s') (inodes s') (requests s') (recorded s' ++ [x])
      | _, _ => s
      end
  end.
Definition run (moves : list (nat * Move)) (s : Parts) : Parts := fold_left (fun s m => step m.1 m.2 s) moves s.
Definition arriving (l : list (ImageUploadByteRange * list ascii)) : Parts :=
  mkParts ∅ ∅ (list_to_map (imap (fun i x => (i, mkPartRequest x.1 x.2 Opening)) l)) [].

(** ** Orderly requests *)

(** Requests that have begun to touch the file of their part and are not answered. *)
Definition busy (place : Place) : bool := match place with Opening | Answered _ => false | _ => true end.
(** A request is orderly when it does not begin while another one for the same part is under
    way, and when it can inspect the file it finds. *)
Definition orderly_step (i : nat) (move : Move) (s : Parts) : Prop :=
  match requests s !! i with
  | None => True
  | Some r =>
      match pr_place r, move with
      | Opening, Go => forall j rj, requests s !! j = Some rj -> pr_range rj = pr_range r -> busy (pr_place rj) = false
      | Existing, Break => False
      | _, _ => True
      end
  end.
Fixpoint orderly (moves : list (nat * Move)) (s : Parts) : Prop :=
  match moves with [] => True | m :: moves => orderly_step m.1 m.2 s /\ orderly moves (step m.1 m.2 s) end.

Section Bodies.
(** The requests, with the bodies they bring. *)
Context (l : list (ImageUploadByteRange * list ascii)).

(** The file of a part has the whole body of a request for it, of the announced length. *)
Definition full (s : Parts) (x : ImageUploadByteRange) : Prop :=
  exists body inode, (x, body) ∈ l /\ names s !! x = Some inode /\ inodes s !! inode = Some body /\ Z.of_nat (length body) = Length x.
(** What the place of a request says about the file of its part. *)
Definition place_ok (s : Parts) (r : PartRequest) : Prop :=
  match pr_place r with
  | Opening | Answered _ => True
  | Writing inode written =>
      names s !! pr_range r = Some inode /\ inodes s !! inode = Some (take written (limited r)) /\ (written <= length (limited r))%nat /\ pr_range r ∉ recorded s
  | Existing | Recording => full s (pr_range r)
  | Removing => False
  end.
Record parts_inv (s : Parts) : Prop := {
  inv_request : forall i r, requests s !! i = Some r -> (pr_range r, pr_body r) ∈ l;
  inv_busy : forall i j ri rj, requests s !! i = Some ri -> requests s !! j = Some rj -> pr_range ri = pr_range rj -> busy (pr_place ri) = true -> busy (pr_place rj) = true -> i = j;
  inv_names : forall x y inode, names s !! x = Some inode -> names s !! y = Some inode -> x = y;
  inv_inodes : forall x inode, names s !! x = Some inode -> is_Some (inodes s !! inode);
  inv_place : forall i r, requests s !! i = Some r -> place_ok s r;
  inv_file : forall x inode, names s !! x = Some inode -> full s x \/ exists i r written, requests s !! i = Some r /\ pr_range r = x /\ pr_place r = Writing inode written;
  inv_recorded : forall x, x ∈ recorded s -> full s x
}.

Lemma full_frame s s' x : names s' !! x = names s !! x -> (forall inode, names s !! x = Some inode -> inodes s' !! inode = inodes s !! inode) -> full s x -> full s' x.
Proof. intros Hn Hi (body & inode & Hb & H1 & H2 & Hl). exists body, inode. rewrite Hn, Hi by done. done. Qed.

(** A request that moves, changing only the file of its part, while no other one for the
    part is under way. *)
Lemma parts_move s i r place nm ino rec (s' := mkParts nm ino (<[i := at_ place r]> (requests s)) rec) : parts_inv s -> requests s !! i = Some r ->
  (forall j rj, j <> i -> requests s !! j = Some rj -> pr_range rj = pr_range r -> busy (pr_place rj) = false) ->
  (forall y, y <> pr_range r -> nm !! y = names s !! y) ->
  (forall y inode, y <> pr_range r -> names s !! y = Some inode -> ino !! inode = inodes s !! inode) ->
  (forall inode, nm !! pr_range r = Some inode -> is_Some (ino !! inode) /\ forall y, y <> pr_range r -> names s !! y <> Some inode) ->
  place_ok s' (at_ place r) ->
  (forall inode, nm !! pr_range r = Some inode -> full s' (pr_range r) \/ exists written, place = Writing inode written) ->
  (rec = recorded s \/ rec = recorded s ++ [pr_range r]) -> (pr_range r ∈ rec -> full s' (pr_range r)) ->
  parts_inv s'.
Proof.
  intros [I0 I1 I2 I3 I4 I5 I6] Hr Halone Hn Hi Hown Hp Hfile Hrec Hin.
  assert (forall j rj, <[i := at_ place r]> (requests s) !! j = Some rj -> (j = i /\ rj = at_ place r) \/ (j <> i /\ requests s !! j = Some rj)) as Hcase
    by (intros j rj [[<- <-]|[Hne Hj]]%lookup_insert_Some; [by left|right; split; [done|done]]).
  assert (forall x, x <> pr_range r -> full s x -> full s' x) as Hfull by (intros x Hx; apply full_frame; [by apply Hn|intros inode; by apply Hi]).
  assert (forall x, x <> pr_range r -> x ∈ rec -> x ∈ recorded s) as Hold
    by (intros x Hx Hx'; destruct Hrec as [->| ->]; [done|]; by apply elem_of_app in Hx' as [|?%list_elem_of_singleton]).
  split; simpl.
  - intros j rj [[-> ->]|[_ Hj]]%Hcase; [by apply (I0 i r)|by eapply I0].
  - intros j k rj rk [[-> ->]|[Hj Hrj]]%Hcase [[-> ->]|[Hk Hrk]]%Hcase E Bj Bk; simpl in *; [done| | |by eapply I1].
    + by rewrite (Halone k rk) in Bk.
    + by rewrite (Halone j rj) in Bj.
  - intros x y inode Hx Hy. destruct (decide (x = pr_range r)) as [->|Nx], (decide (y = pr_range r)) as [->|Ny]; [done|..].
    + destruct (Hown _ Hx) as [_ Hno]. rewrite Hn in Hy by done. by destruct (Hno y Ny).
    + destruct (Hown _ Hy) as [_ Hno]. rewrite Hn in Hx by done. by destruct (Hno x Nx).
    + rewrite Hn in Hx, Hy by done. by apply (I2 x y inode).
  - intros x inode Hx. destruct (decide (x = pr_range r)) as [->|Nx]; [by apply Hown|]. rewrite Hn in Hx by done. rewrite (Hi x inode) by done. by eapply I3.
  - intros j rj [[-> ->]|[Hj Hrj]]%Hcase; [done|]. pose proof (I4 _ _ Hrj) as Hok. destruct (decide (pr_range rj = pr_range r)) as [E|Hne].
    + pose proof (Halone j rj Hj Hrj E) as Hb. unfold place_ok. by destruct (pr_place rj).
    + unfold place_ok in *. destruct (pr_place rj); try done; try (by apply Hfull). destruct Hok as (H1 & H2 & H3 & H4). simpl. rewrite Hn, (Hi _ _ Hne H1) by done.
      split_and!; [done..|]. intros Hx. by apply H4, Hold.
  - intros x inode Hx. destruct (decide (x = pr_range r)) as [->|Nx].
    + destruct (Hfile _ Hx) as [?|[w ->]]; [by left|right]. exists i, (at_ (Writing inode w) r), w. by rewrite lookup_insert_eq.
    + rewrite Hn in Hx by done. destruct (I5 _ _ Hx) as [?|(j & rj & w & Hj & Ej & Pj)]; [left; by apply Hfull|right]. exists j, rj, w. rewrite lookup_insert_ne; [done|]. intros <-. congruence.
  - intros x Hx. destruct (decide (x = pr_range r)) as [->|Nx]; [by apply Hin|]. by apply Hfull, I6, Hold.
Qed.

Lemma limited_whole r : Z.of_nat (length (limited r)) = Length (pr_range r) -> limited r = pr_body r.
Proof. unfold limited. rewrite length_take. intros E. apply take_ge. lia. Qed.
Lemma findExactRange_in ranges x : findExactRange ranges (Offset x) (Length x) = true <-> x ∈ ranges.
Proof.
  unfold findExactRange. rewrite existsb_exists. setoid_rewrite <- list_elem_of_In. split.
  - intros ([o n] & Hy & [E1%Z.eqb_eq E2%Z.eqb_eq]%andb_true_iff). simpl in *. subst. by destruct x.
  - intros Hx. exists x. by rewrite !Z.eqb_refl.
Qed.

(** A request that is under way is the only one for its part. *)
Lemma busy_alone s i r : parts_inv s -> requests s !! i = Some r -> busy (pr_place r) = true ->
  forall j rj, j <> i -> requests s !! j = Some rj -> pr_range rj = pr_range r -> busy (pr_place rj) = false.
Proof. intros Hinv Hr Hb j rj Hne Hj E. apply not_true_iff_false. intros Hbj. by destruct Hne; eapply (inv_busy _ Hinv). Qed.
(** The file of the part is untouched and complete. *)
Lemma parts_same s i r place rec : parts_inv s -> requests s !! i = Some r ->
  (forall j rj, j <> i -> requests s !! j = Some rj -> pr_range rj = pr_range r -> busy (pr_place rj) = false) ->
  full s (pr_range r) -> place = Existing \/ place = Recording \/ (exists status, place = Answered status) -> (rec = recorded s \/ rec = recorded s ++ [pr_range r]) ->
  parts_inv (mkParts (names s) (inodes s) (<[i := at_ place r]> (requests s)) rec).
Proof.
  intros Hinv Hr Ha Hf Hp Hrec. apply (parts_move s); try done.
  - intros inode Hx. split; [by eapply inv_inodes|]. intros y Hy Hy'. apply Hy. by eapply inv_names.
  - destruct Hp as [->|[->|[? ->]]]; done.
  - intros inode _. by left.
Qed.
(** The name of an unrecorded part goes. *)
Lemma parts_unlink s i r status : parts_inv s -> requests s !! i = Some r -> busy (pr_place r) = true -> pr_range r ∉ recorded s ->
  parts_inv (moved i r (Answered status) (unlink (pr_range r) s)).
Proof.
  intros Hinv Hr Hb Hnew. apply (parts_move s i r (Answered status)); try done; simpl; [by apply busy_alone|..].
  - intros y Hy. by rewrite lookup_delete_ne.
  - intros inode. by rewrite lookup_delete_eq.
  - intros inode. by rewrite lookup_delete_eq.
  - by left.
Qed.
(** A request that is answered before it touches anything. *)
Lemma parts_answer s i r status : parts_inv s -> requests s !! i = Some r -> pr_place r = Opening -> parts_inv (moved i r (Answered status) s).
Proof.
  intros [I0 I1 I2 I3 I4 I5 I6] Hr Hp.
  assert (forall j rj, <[i := at_ (Answered status) r]> (requests s) !! j = Some rj -> rj = at_ (Answered status) r \/ requests s !! j = Some rj) as Hcase
    by (intros j rj [[<- <-]|[Hne Hj]]%lookup_insert_Some; auto).
  split; simpl; try done.
  - intros j rj [->|Hj]%Hcase; [by apply (I0 i r)|by eapply I0].
  - intros j k rj rk [->|Hj]%Hcase [->|Hk]%Hcase E Bj Bk; try done. by eapply I1.
  - intros j rj [->|Hj]%Hcase; [done|exact (I4 _ _ Hj)].
  - intros x inode [Hf|(j & rj & w & Hj & Ej & Pj)]%I5; [by left|right]. exists j, rj, w. rewrite lookup_insert_ne; [done|]. intros <-. congruence.
Qed.

Lemma step_inv i move s : orderly_step i move s -> parts_inv s -> parts_inv (step i move s).
Proof.
  unfold orderly_step, step. intros Hord Hinv. destruct (requests s !! i) as [r|] eqn:Hr; [|done]. pose proof (inv_place _ Hinv _ _ Hr) as Hp. unfold place_ok in Hp.
  pose proof (busy_alone s i r Hinv Hr) as Hbusy.
  destruct (pr_place r) as [|inode written| | | |status] eqn:Hplace; destruct move as [|n| |]; try done; try specialize (Hbusy eq_refl).
  - assert (forall j rj, j <> i -> requests s !! j = Some rj -> pr_range rj = pr_range r -> busy (pr_place rj) = false) as Halone by (intros j rj _; apply Hord).
    destruct (names s !! pr_range r) as [inode|] eqn:Hn.
    { apply parts_same; try done; auto. destruct (inv_file _ Hinv _ _ Hn) as [?|(j & rj & w & Hj & Ej & Pj)]; [done|]. specialize (Hord j rj Hj Ej). by rewrite Pj in Hord. }
    set (inode := fresh (dom (inodes s))). assert (inodes s !! inode = None) as Hnew by (apply not_elem_of_dom, is_fresh).
    assert (forall y, names s !! y <> Some inode) as Hfresh by (intros y Hy; destruct (inv_inodes _ Hinv _ _ Hy) as [? ?]; congruence).
    assert (pr_range r ∉ recorded s) as Hrec by (intros (? & ? & _ & ? & _)%(inv_recorded _ Hinv); congruence).
    apply (parts_move s i r (Writing inode 0)); try done; simpl.
    + intros y Hy. by rewrite lookup_insert_ne.
    + intros y k Hy Hk. rewrite lookup_insert_ne; [done|]. intros <-. by apply (Hfresh y).
    + intros k. rewrite lookup_insert_eq. intros [= <-]. rewrite lookup_insert_eq. split; [by eexists|]. intros y _. apply Hfresh.
    + unfold place_ok; simpl. rewrite !lookup_insert_eq. split; [done|]. split; [by rewrite take_0|]. split; [lia|done].
    + intros k. rewrite lookup_insert_eq. intros [= <-]. right. by eexists.
    + by left.
  - by apply parts_answer.
  - destruct Hp as (Hn & Hi & Hle & Hrec). destruct (Nat.eqb_spec written (length (limited r))) as [E|]; simpl; [|done].
    destruct (Z.eqb_spec (Z.of_nat written) (Length (pr_range r))) as [El|]; [|apply parts_unlink; rewrite ?Hplace; done].
    apply parts_same; auto. assert (limited r = pr_body r) as Hw by (apply limited_whole; lia).
    exists (pr_body r), inode. split; [by apply (inv_request _ Hinv i)|]. split; [done|]. split; [by rewrite Hi, E, firstn_all, Hw|rewrite <- Hw; lia].
  - destruct Hp as (Hn & Hi & Hle & Hrec). set (written' := (written + _)%nat). apply (parts_move s i r (Writing inode written')); simpl; auto.
    + intros y k Hy Hk. rewrite lookup_insert_ne; [done|]. intros <-. apply Hy. by eapply (inv_names _ Hinv).
    + intros k Hk. rewrite Hn in Hk. injection Hk as <-. rewrite lookup_insert_eq. split; [by eexists|]. intros y Hy Hy'. apply Hy. by eapply (inv_names _ Hinv).
    + unfold place_ok; simpl. rewrite lookup_insert_eq. split; [done|]. split; [done|]. split; [|done]. change (limited (at_ _ r)) with (limited r). unfold written'. lia.
    + intros k Hk. rewrite Hn in Hk. injection Hk as <-. right. by eexists.
    + done.
  - destruct Hp as (Hn & Hi & Hle & Hrec). apply parts_unlink; rewrite ?Hplace; done.
  - destruct Hp as (body & inode & Hb & Hn & Hi & Hl). rewrite Hn, Hi. simpl. rewrite (proj2 (Z.eqb_eq _ _) Hl). apply parts_same; auto. by exists body, inode.
  - destruct (findExactRange _ _ _) eqn:Hfind; [apply parts_same; eauto|].
    destruct (rangesOverlap _ _ _); [apply parts_unlink; rewrite ?Hplace; [done..|]; rewrite <- findExactRange_in; by rewrite Hfind|]. apply (parts_same s i r (Answered 202)); eauto.
  - apply parts_same; eauto.
  - destruct (_ || _); apply (parts_same s i r (Answered 500)); eauto.
Qed.

Lemma run_inv moves : forall s, orderly moves s -> parts_inv s -> parts_inv (run moves s).
Proof. induction moves as [|m moves IH]; intros s Ho Hs; [done|]. destruct Ho as [Hm Ho]. by apply IH, step_inv. Qed.
End Bodies.

Lemma arriving_request l i r : requests (arriving l) !! i = Some r -> exists x, l !! i = Some x /\ r = mkPartRequest x.1 x.2 Opening.
Proof.
  unfold arriving; simpl. intros Hr%elem_of_list_to_map_2. apply elem_of_lookup_imap in Hr as (j & x & [= -> ->] & Hx). by exists x.
Qed.
Lemma arriving_inv l : parts_inv l (arriving l).
Proof.
  split; simpl; try (intros x; by rewrite elem_of_nil); try (intros ???; by rewrite lookup_empty); try (intros ??; by rewrite lookup_empty).
  - intros i r ([y body] & Hx & ->)%arriving_request. by eapply list_elem_of_lookup_2.
  - intros i j ri rj (x & Hx & ->)%arriving_request (y & Hy & ->)%arriving_request _. done.
  - intros i r (x & Hx & ->)%arriving_request. done.
Qed.

(** ** Different parts *)

(** One request for each part: none finds a file of its part. *)
Record alone (s : Parts) : Prop := {
  al_distinct : forall i j ri rj, requests s !! i = Some ri -> requests s !! j = Some rj -> pr_range ri = pr_range rj -> i = j;
  al_opening : forall i r, requests s !! i = Some r -> pr_place r = Opening -> names s !! pr_range r = None;
  al_place : forall i r, requests s !! i = Some r -> pr_place r <> Existing
}.
Lemma alone_orderly i move s : alone s -> orderly_step i move s.
Proof.
  intros [A1 A2 A3]. unfold orderly_step. destruct (requests s !! i) as [r|] eqn:Hr; [|done]. destruct (pr_place r) eqn:Hp, move; try done; [|by destruct (A3 _ _ Hr)].
  intros j rj Hj E. assert (j = i) as -> by (by eapply A1). rewrite Hr in Hj. injection Hj as <-. by rewrite Hp.
Qed.
Lemma alone_move s i r place nm ino rec : alone s -> requests s !! i = Some r -> (forall y, y <> pr_range r -> nm !! y = names s !! y) -> place <> Opening -> place <> Existing ->
  alone (mkParts nm ino (<[i := at_ place r]> (requests s)) rec).
Proof.
  intros [A1 A2 A3] Hr Hn H1 H2.
  assert (forall j rj, <[i := at_ place r]> (requests s) !! j = Some rj -> (j = i /\ rj = at_ place r) \/ (j <> i /\ requests s !! j = Some rj)) as Hcase
    by (intros j rj [[<- <-]|[Hne Hj]]%lookup_insert_Some; auto).
  split; simpl.
  - intros j k rj rk [[-> ->]|[Hj Hrj]]%Hcase [[-> ->]|[Hk Hrk]]%Hcase E; simpl in E; [done|by eapply (A1 i k)|by eapply (A1 j i)|by eapply (A1 j k)].
  - intros j rj [[-> ->]|[Hj Hrj]]%Hcase Hop; [done|]. rewrite Hn; [by eapply A2|]. intros E. apply Hj. by eapply A1.
  - intros j rj [[-> ->]|[Hj Hrj]]%Hcase; [done|by eapply A3].
Qed.
Lemma alone_step i move s : alone s -> alone (step i move s).
Proof.
  intros Ha. unfold step. destruct (requests s !! i) as [r|] eqn:Hr; [|done]. pose proof (al_opening _ Ha _ _ Hr) as Hop. pose proof (al_place _ Ha _ _ Hr) as Hex.
  assert (forall y, y <> pr_range r -> delete (pr_range r) (names s) !! y = names s !! y) as Hdel by (intros y Hy; by rewrite lookup_delete_ne).
  assert (forall n y, y <> pr_range r -> <[pr_range r := n]> (names s) !! y = names s !! y) as Hins by (intros n y Hy; by rewrite lookup_insert_ne).
  destruct (pr_place r), move; try done; rewrite ?Hop by done; repeat case_match; try done; unfold moved, unlink; simpl; apply (alone_move s); auto.
Qed.
Lemma alone_run moves : forall s, alone s -> orderly moves s.
Proof. induction moves as [|m moves IH]; intros s Ha; [done|]. split; [by apply alone_orderly|]. by apply IH, alone_step. Qed.
Lemma arriving_alone l : NoDup (map fst l) -> alone (arriving l).
Proof.
  intros Hd. split.
  - intros i j ri rj (x & Hx & ->)%arriving_request (y & Hy & ->)%arriving_request E. simpl in E.
    eapply NoDup_lookup; [exact Hd|by rewrite list_lookup_fmap, Hx|rewrite list_lookup_fmap, Hy; simpl; by rewrite E].
  - intros i r _ _. apply lookup_empty.
  - by intros i r (x & Hx & ->)%arriving_request.
Qed.

(** C21. Requests for different parts of an upload, in whatever order their system calls and
    broken connections interleave: every range that the row of the upload records has
    its part file, with the whole body of the request that announced it and of its
    length.  Assembling does not miss a file and does not read another request's bytes. *)
Theorem distinct_parts_stored (l : list (ImageUploadByteRange * list ascii)) (moves : list (nat * Move)) (x : ImageUploadByteRange) :
  NoDup (map fst l) -> x ∈ recorded (run moves (arriving l)) ->
  exists body inode, (x, body) ∈ l /\ names (run moves (arriving l)) !! x = Some inode /\ inodes (run moves (arriving l)) !! inode = Some body /\
    Z.of_nat (length body) = Length x.
Proof.
  intros Hd Hx. apply (inv_recorded l _ (run_inv l moves _ (alone_run moves _ (arriving_alone l Hd)) (arriving_inv l)) x Hx).
Qed.

(** Two parts of three bytes, written in turns; the second one's connection breaks. *)
Definition letters (l : list nat) : list ascii := map ascii_of_nat l.
Definition two_parts : list (ImageUploadByteRange * list ascii) := [(mkRange 0 3, letters [97; 98; 99]%nat); (mkRange 3 3, letters [100; 101; 102]%nat)].
Definition in_turns : list (nat * Move) := [(0, Go); (1, Go); (0, Copy 2); (1, Copy 1); (0, Copy 5); (0, Go); (1, Break); (0, Go)]%nat.
Lemma distinct_parts_stored_witness :
  exists body inode, (mkRange 0 3, body) ∈ two_parts /\ names (run in_turns (arriving two_parts)) !! mkRange 0 3 = Some inode /\
    inodes (run in_turns (arriving two_parts)) !! inode = Some body /\ Z.of_nat (length body) = 3.
Proof.
  apply (distinct_parts_stored two_parts in_turns (mkRange 0 3)).
  - simpl. apply NoDup_cons. split; [by rewrite list_elem_of_singleton|apply NoDup_singleton].
  - assert (recorded (run in_turns (arriving two_parts)) = [mkRange 0 3]) as -> by (vm_compute; reflexivity). by apply list_elem_of_singleton.
Defined.

(** ** The same part twice

    A client retries a part while the first request is still being written.  The second
    request sees a file that is too short and removes it; the first one goes on writing
    an inode without a name and records its range.  No later request brings the file back
    as the range is recorded, and assembling the upload does not find it. *)
Definition retried : list (nat * Move) := [(0, Go); (0, Copy 2); (1, Go); (1, Go); (1, Go); (0, Copy 1); (0, Go); (0, Go)]%nat.
Lemma retried_part_lost :
  let s := run retried (arriving [(mkRange 0 3, letters [97; 98; 99]%nat); (mkRange 0 3, letters [97; 98; 99]%nat)]) in
  recorded s = [mkRange 0 3] /\ names s !! mkRange 0 3 = None /\ pr_place <$> requests s !! 0%nat = Some (Answered 202).
Proof. vm_compute. repeat split; reflexivity. Qed.
