(* ===== verification/UploadAssembly.v ===== *)
(** * UploadAssembly: from part files to the archive

    The requests of [UploadParts], whose system calls interleave, and the assembly of the
    part files they leave, [assembleParts] of internal/imageupload/application.go. *)

From Stdlib Require Import Ascii.
From S2P Require Import Prelude Names ServiceConfig DeploymentStore ImageStore ImageProofs UploadHandler UploadParts.

(** The directory of the upload as the requests leave it. *)
Definition directory_files (dir : string) (s : Parts) : FileSet :=
  list_to_map ((fun x => (partFilePath dir (Offset x.1) (Length x.1), default [] (inodes s !! x.2))) <$> map_to_list (names s)).

(** A request of a client of the archive that passed the handler's checks: its range lies
    in the archive, and a body of the announced length is that part of it. *)
Definition honest_part (data : bytes) (q : ImageUploadByteRange * list ascii) : Prop :=
  in_bounds (blen data) q.1 /\ (Z.of_nat (length q.2) = Length q.1 -> q.2 = slice data (Offset q.1) (Length q.1)).

Section Assembly.
Context (data : bytes) (dir : string) (l : list (ImageUploadByteRange * list ascii)).
Hypothesis Hdata : 0 < blen data <= max_int64.
Hypothesis Hhonest : Forall (honest_part data) l.

Definition sound (s : Parts) : Prop :=
  (forall i r, requests s !! i = Some r -> in_bounds (blen data) (pr_range r)) /\
  (forall x inode, names s !! x = Some inode -> in_bounds (blen data) x) /\ wf_ranges (blen data) (recorded s).

(** Only a request's own range is named or recorded, the latter if it overlaps no other. *)
Lemma sound_move s i r place nm ino rec : sound s -> requests s !! i = Some r ->
  (forall y inode, nm !! y = Some inode -> y = pr_range r \/ is_Some (names s !! y)) ->
  (rec = recorded s \/ rec = recorded s ++ [pr_range r] /\ rangesOverlap (recorded s) (Offset (pr_range r)) (Length (pr_range r)) = false) ->
  sound (mkParts nm ino (<[i := at_ place r]> (requests s)) rec).
Proof.
  intros (S1 & S2 & S3) Hr Hn Hrec. pose proof (S1 _ _ Hr) as Hb. split_and!; simpl.
  - intros j rj [[<- <-]|[_ Hj]]%lookup_insert_Some; [done|by eapply S1].
  - intros x inode [->|[k Hk]]%Hn; [done|by eapply S2].
  - destruct Hrec as [->|[-> Ho]]; [done|]. destruct (pr_range r) as [o n]. apply wf_ranges_snoc; [lia|done..].
Qed.
Lemma sound_step i move s : sound s -> sound (step i move s).
Proof.
  intros Hs. unfold step. destruct (requests s !! i) as [r|] eqn:Hr; [|done].
  assert (forall y inode, delete (pr_range r) (names s) !! y = Some inode -> y = pr_range r \/ is_Some (names s !! y)) as Hdel
    by (intros y inode [_ Hy]%lookup_delete_Some; right; by eexists).
  assert (forall n y inode, <[pr_range r := n]> (names s) !! y = Some inode -> y = pr_range r \/ is_Some (names s !! y)) as Hins
    by (intros n y inode [[<- _]|[_ Hy]]%lookup_insert_Some; [by left|right; by eexists]).
  assert (forall y inode, names s !! y = Some inode -> y = pr_range r \/ is_Some (names s !! y)) as Hsame by (intros y inode Hy; right; by eexists).
  destruct (pr_place r), move; try done; repeat case_match; try done; unfold moved, unlink; simpl; apply (sound_move s); eauto.
  match goal with H : (_ || _)%bool = false |- _ => apply orb_false_iff in H as [_ H]; by right end.
Qed.
Lemma sound_run moves : forall s, sound s -> sound (run moves s).
Proof. induction moves as [|m moves IH]; intros s Hs; [done|]. by apply IH, sound_step. Qed.
Lemma sound_arriving : sound (arriving l).
Proof.
  split_and!; simpl.
  - intros i r (x & Hx & ->)%arriving_request. simpl. apply (proj1 (Forall_forall _ _) Hhonest x). by eapply list_elem_of_lookup_2.
  - intros x inode. by rewrite lookup_empty.
  - split; [done|apply NoDup_nil_2|]. intros a b. by rewrite elem_of_nil.
Qed.

(** The file of a part in the directory. *)
Lemma directory_part s x inode : sound s -> in_bounds (blen data) x -> names s !! x = Some inode ->
  directory_files dir s !! partFilePath dir (Offset x) (Length x) = Some (default [] (inodes s !! inode)).
Proof.
  intros (_ & Hn & _) Hx Hname. unfold directory_files. apply elem_of_list_to_map_1.
  - rewrite <- list_fmap_compose. apply NoDup_fmap_2_strong; [|apply NoDup_map_to_list].
    intros [a i] [b j] Ha%elem_of_map_to_list Hb%elem_of_map_to_list [= E]. pose proof (Hn _ _ Ha) as (? & ? & _). pose proof (Hn _ _ Hb) as (? & ? & _).
    apply partName_inj in E as [E1 E2]; [|lia..]. assert (a = b) as -> by (destruct a, b; simpl in *; congruence). congruence.
  - apply list_elem_of_fmap. exists (x, inode). split; [done|]. by apply elem_of_map_to_list.
Qed.
Lemma directory_archive s : sound s -> directory_files dir s !! (dir, assembledArchiveName) = None.
Proof.
  intros (_ & Hn & _). apply not_elem_of_list_to_map_1. rewrite <- list_fmap_compose. intros ([x inode] & [= E] & Hx%elem_of_map_to_list)%list_elem_of_fmap.
  apply symmetry, partName_archive in E; [done|]. by destruct (Hn _ _ Hx).
Qed.
End Assembly.


(** Three requests for two parts, written in turns; the connection of the second one
    breaks, and the third one sends its part again. *)
Definition six : bytes := letters [97; 98; 99; 100; 101; 102]%nat.
Definition three_requests : list (ImageUploadByteRange * list ascii) := two_parts ++ [(mkRange 3 3, letters [100; 101; 102]%nat)].
Definition with_retry : list (nat * Move) := in_turns ++ [(2, Go); (2, Copy 9); (2, Go); (2, Go)]%nat.
(** Orderliness, executable. *)
Definition orderly_stepb (i : nat) (move : Move) (s : Parts) : bool :=
  match requests s !! i with
  | None => true
  | Some r =>
      match pr_place r, move with
      | Opening, Go => forallb (fun x => negb (bool_decide (pr_range x.2 = pr_range r)) || negb (busy (pr_place x.2))) (map_to_list (requests s))
      | Existing, Break => false
      | _, _ => true
      end
  end.
Fixpoint orderlyb (moves : list (nat * Move)) (s : Parts) : bool :=
  match moves with [] => true | m :: moves => orderly_stepb m.1 m.2 s && orderlyb moves (step m.1 m.2 s) end.
Lemma orderlyb_sound moves : forall s, orderlyb moves s = true -> orderly moves s.
Proof.
  induction moves as [|m moves IH]; intros s; simpl; [done|]. intros [Hm Ho]%andb_true_iff. split; [|by apply IH].
  unfold orderly_stepb, orderly_step in *. destruct (requests s !! m.1) as [r|]; [|done]. destruct (pr_place r), m.2; try done.
  intros j rj Hj E. rewrite forallb_forall in Hm. specialize (Hm (j, rj)). rewrite <- list_elem_of_In in Hm. apply elem_of_map_to_list in Hj. specialize (Hm Hj). simpl in Hm.
  rewrite bool_decide_eq_true_2 in Hm by done. by destruct (busy (pr_place rj)).
Qed.

