(* ===== verification/UploadProcess.v ===== *)
(** * UploadProcess: from a complete upload to a deployment

    [process] of internal/imageupload/application.go: assemble the parts, check the
    SHA-256, store the archive as a revision, import it, deploy it and complete the
    upload.  Before each call of the store other transactions may run, and each call
    may fail, without effect or with it; [ProcessEnv] answers for them, for the disk, the engine and the runtime. *)

From Stdlib Require Import Ascii.
From S2P Require Import Prelude Names ServiceConfig DeploymentStore Resp ImageStore ImageProofs UploadHandler.

Record PulledImage := mkPulled { g_OS : string; g_Architecture : string; g_Digest : string }.
Record ProcessEnv := mkProcessEnv {
  e_others : nat -> list ImageOp;
  e_fault : nat -> option goerr;
  e_lost : nat -> option goerr;
  e_now : nat -> Z;
  e_part : ImageUploadByteRange -> option goerr;
  e_sync : option goerr;
  e_hash : option goerr;
  e_ids : nat -> result goerr string;
  e_mkdir : option goerr;
  e_rename : option goerr;
  e_pull : string * string -> result goerr PulledImage;
  e_deploy : result goerr string
}.
(** What the engine and the runtime are asked to run, with the archive as it is then. *)
Inductive Event :=
| Pull (archive : option bytes)
| Deploy (kind : RevisionKind) (revisionID digest : string) (archive : option bytes).
(** What onError is told: the upload could not be read, could not be failed because of
    [cause], or could not be completed. *)
Inductive Report := RLoad (e : goerr) | RFail (cause e : goerr) | RComplete (e : goerr).
Record ProcessWorld := mkProcessWorld { pw_files : FileSet; pw_images : Images; pw_events : list Event; pw_reports : list Report }.

Section Process.
Context (sha256_hex : bytes -> string) (imageRoot : string) (env : ProcessEnv).

(** The n-th call of the store: others, then the call or its failure. *)
Definition others (n : nat) (w : ProcessWorld) : ProcessWorld :=
  mkProcessWorld (pw_files w) (run_ops (e_others env n) (pw_images w)) (pw_events w) (pw_reports w).
Definition store (n : nat) (op : Images -> result goerr Images) (w : ProcessWorld) : option goerr * ProcessWorld :=
  let w := others n w in
  match e_fault env n with
  | Some e => (Some e, w)
  | None => match op (pw_images w) with
            | Ok images => (e_lost env n, mkProcessWorld (pw_files w) images (pw_events w) (pw_reports w))
            | Err e => (Some e, w)
            end
  end.
Definition set_files (files : FileSet) (w : ProcessWorld) : ProcessWorld := mkProcessWorld files (pw_images w) (pw_events w) (pw_reports w).
Definition emit (e : Event) (w : ProcessWorld) : ProcessWorld := mkProcessWorld (pw_files w) (pw_images w) (pw_events w ++ [e]) (pw_reports w).
Definition onError (r : Report) (w : ProcessWorld) : ProcessWorld := mkProcessWorld (pw_files w) (pw_images w) (pw_events w) (pw_reports w ++ [r]).

(** [fail], with [n] for its call of the store. *)
Definition fail_upload (n : nat) (uploadID code : string) (cause : goerr) (w : ProcessWorld) : ProcessWorld :=
  match store n (FailImageUpload uploadID code (error_text cause) (e_now env n) (e_now env n + UploadRetention)) w with
  | (Some e, w) => if errors_Is "state.ErrImageUploadChanged" e then w else onError (RFail cause e) w
  | (None, w) => w
  end.

(** After the import. *)
Definition deployUploaded (uploadID revisionID : string) (kind : RevisionKind) (image : PulledImage) (archivePath : string * string) (w : ProcessWorld) : ProcessWorld :=
  let w := emit (Deploy kind revisionID (g_Digest image) (pw_files w !! archivePath)) w in
  match e_deploy env with
  | Err e => fail_upload 10 uploadID "deployment_failed" e w
  | Ok publicURL =>
      match store 11 (CompleteImageUpload uploadID revisionID publicURL (e_now env 11) (e_now env 11 + UploadRetention) (e_now env 11 + PreviewRetention)) w with
      | (Some e, w) => onError (RComplete e) (fail_upload 12 uploadID "completion_failed" e w)
      | (None, w) => w
      end
  end.

(** After the revision exists. *)
Definition importArchive (uploadID revisionID : string) (kind : RevisionKind) (archivePath : string * string) (w : ProcessWorld) : ProcessWorld :=
  let w := emit (Pull (pw_files w !! archivePath)) w in
  let refuse e := let w := fail_upload 6 uploadID "invalid_oci_archive" e w in set_files (delete archivePath (pw_files w)) w in
  match e_pull env archivePath with
  | Err e => refuse e
  | Ok image =>
      if negb (bool_decide (g_OS image = "linux")) || negb (bool_decide (g_Architecture image = "amd64"))
      then refuse (Msg ("image platform is " +:+ g_OS image +:+ "/" +:+ g_Architecture image +:+ ", want linux/amd64"))
      else match e_ids env 1 with
      | Err e => fail_upload 7 uploadID "id_allocation_failed" e w
      | Ok deploymentID =>
          let previewID := match kind with Preview => deploymentID | Production => "" end in
          match store 8 (SetImageRevisionImported revisionID uploadID (g_Digest image) previewID (e_now env 8)) w with
          | (Some e, w) => fail_upload 9 uploadID "state_update_failed" e w
          | (None, w) => deployUploaded uploadID revisionID kind image archivePath w
          end
      end
  end.

(** After the archive is assembled. *)
Definition storeArchive (service uploadID : string) (u : ImageUpload) (assembled : string * string) (w : ProcessWorld) : ProcessWorld :=
  let directory := u_TemporaryPath (u_head u) in
  let content := default [] (pw_files w !! assembled) in
  let actualSHA := sha256_hex content in
  let reject e := let w := fail_upload 3 uploadID "sha256_mismatch" e w in set_files (RemoveAll directory (pw_files w)) w in
  match e_hash env with
  | Some e => reject e
  | None =>
      if negb (bool_decide (actualSHA = u_ExpectedSHA256 (u_head u))) then reject (Msg "uploaded archive SHA-256 does not match Upload-SHA256")
      else match e_ids env 0 with
      | Err e => fail_upload 3 uploadID "id_allocation_failed" e w
      | Ok revisionID =>
          match e_mkdir env, e_rename env with
          | Some e, _ | _, Some e => fail_upload 3 uploadID "archive_store_failed" e w
          | None, None =>
              let archivePath := (imageRoot +:+ "/" +:+ service, revisionID +:+ ".oci") in
              let w := set_files (RemoveAll directory (<[archivePath := content]> (delete assembled (pw_files w)))) w in
              let kind := if bool_decide (u_Tag (u_head u) = "latest") then Production else Preview in
              let expires := match kind with Production => 0 | Preview => e_now env 4 + PreviewRetention end in
              match store 4 (CreateImageRevision (mkCreateRevision revisionID uploadID service (u_Tag (u_head u)) kind (archivePath.1 +:+ "/" +:+ archivePath.2)
                               actualSHA (u_Identity (u_head u)) (e_now env 4) expires)) w with
              | (Some e, w) => let w := fail_upload 5 uploadID "state_update_failed" e w in set_files (delete archivePath (pw_files w)) w
              | (None, w) => importArchive uploadID revisionID kind archivePath w
              end
          end
      end
  end.

Definition process (service uploadID : string) (w : ProcessWorld) : ProcessWorld :=
  let w := others 0 w in
  match e_fault env 0, findImageUpload uploadID service (pw_images w) with
  | None, Ok _ =>
      let w := others 1 w in
      match e_fault env 1, findImageUpload uploadID service (pw_images w) with
      | None, Ok u =>
          if negb (bool_decide (u_Status u = Uploading)) || negb (ImageUploadCoverageComplete (u_ReceivedRanges u) (u_ExpectedLength (u_head u))) then w
          else
            let directory := u_TemporaryPath (u_head u) in
            match assembleParts directory (u_ReceivedRanges u) (u_ExpectedLength (u_head u)) (e_part env) (e_sync env) (pw_files w) with
            | (Err e, files) => let w := fail_upload 2 uploadID "assemble_failed" e (set_files files w) in set_files (RemoveAll directory (pw_files w)) w
            | (Ok assembled, files) => storeArchive service uploadID u assembled (set_files files w)
            end
      | _, _ => w
      end
  | Some e, _ | None, Err e => onError (RLoad e) w
  end.
End Process.

(** ** Runs of [process] and cancellation *)

(** tryRegisterRun and unregisterRun: the uploads that are being processed. *)
Definition tryRegisterRun (uploadID : string) (runs : gset string) : bool * gset string :=
  if bool_decide (uploadID ∈ runs) then (false, runs) else (true, {[ uploadID ]} ∪ runs).
Definition unregisterRun (uploadID : string) (runs : gset string) : gset string := runs ∖ {[ uploadID ]}.

(** cancelUploads, once the processes it cancelled have ended: [between] are the
    transactions since it read the uploads. *)
Definition cancelUploads (before : Z) (all : bool) (now : Z) (between : list ImageOp) (w : UploadWorld) : option goerr * UploadWorld :=
  match ActiveImageUploads before all (w_images w) with
  | Err e => (Some e, w)
  | Ok _ =>
      let images := run_ops between (w_images w) in
      match CancelImageUploads before all now images with
      | Err e => (Some e, mkUploadWorld (w_files w) images)
      | Ok (paths, images) => (None, mkUploadWorld (fold_left (fun files path => RemoveAll path files) paths (w_files w)) images)
      end
  end.

(** ** Theorems *)

Definition released (id : string) (s : Images) : Prop := forall u, uploads s !! id = Some u -> in_flight (u_Status u) = false.
Definition loud (e : goerr) : Prop := error_text e <> "".
Definition loud_result {A} (r : result goerr A) : Prop := match r with Err e => loud e | Ok _ => True end.
Definition loud_option (o : option goerr) : Prop := match o with Some e => loud e | None => True end.
(** A failure of the database is not the store's own answer that the upload has changed. *)
Definition real_option (o : option goerr) : Prop :=
  match o with Some e => loud e /\ errors_Is "state.ErrImageUploadChanged" e = false | None => True end.
(** Errors of the surroundings have a text, clocks run, and no one begins another upload
    with this identifier. *)
Record env_ok (id : string) (env : ProcessEnv) : Prop := {
  ok_id : id <> "";
  ok_now : forall n, 0 < e_now env n;
  ok_others : forall n, Forall (fun op => typed_op op /\ match op with OpBegin id' _ _ => id' <> id | _ => True end) (e_others env n);
  ok_faults : forall n, real_option (e_fault env n) /\ real_option (e_lost env n);
  ok_part : forall x, loud_option (e_part env x);
  ok_sync : loud_option (e_sync env);
  ok_hash : loud_option (e_hash env);
  ok_ids : forall n, loud_result (e_ids env n);
  ok_mkdir : loud_option (e_mkdir env);
  ok_rename : loud_option (e_rename env);
  ok_pull : forall p, loud_result (e_pull env p);
  ok_deploy : loud_result (e_deploy env)
}.
Lemma begin_other id id' head expires s : id' <> id -> released id s -> released id (run_op (OpBegin id' head expires) s).
Proof.
  intros Hne Hr u. simpl. unfold BeginImageUpload. repeat (case_match; [apply Hr|]). simpl. rewrite lookup_insert_ne, lookup_update by done.
  destruct (uploads s !! id) as [u0|] eqn:Hu; [|done]. intros [= <-]. case_match; [done|]. by apply Hr.
Qed.
Lemma run_ops_released id ops : forall s, Forall (fun op => typed_op op /\ match op with OpBegin id' _ _ => id' <> id | _ => True end) ops ->
  released id s -> released id (run_ops ops s).
Proof.
  induction ops as [|op ops IH]; intros s Ho Hr; simpl; [done|]. apply Forall_cons in Ho as [[Ht Hb] Ho]. apply IH; [done|].
  destruct (begins op) eqn:E; [destruct op; try done; by apply begin_other|].
  intros u' Hu'. destruct (uploads_le op s E Ht _ _ Hu') as (u & Hu & (_ & _ & _ & Hs)). rewrite Hs; [by apply Hr|by apply Hr].
Qed.

Lemma store_error_loud : (forall input s, loud_result (CreateImageRevision input s)) /\ (forall r u d p t s, loud_result (SetImageRevisionImported r u d p t s))
  /\ (forall u r l t1 t2 t3 s, loud_result (CompleteImageUpload u r l t1 t2 t3 s)).
Proof.
  split; [|split]; intros; [unfold CreateImageRevision|unfold SetImageRevisionImported|unfold CompleteImageUpload]; repeat case_match; done.
Qed.
Lemma copyParts_loud dir fault l : (forall x, loud_option (fault x)) -> forall acc files, loud_result (copyParts dir fault l acc files).
Proof.
  intros Hf. induction l as [|x l IH]; intros acc files; simpl; [done|]. destruct (files !! _); [|done]. pose proof (Hf x) as Hx.
  destruct (fault x); [done|]. case_match; [done|]. apply IH.
Qed.
Lemma assembleParts_loud dir ranges expected fault sync files : (forall x, loud_option (fault x)) -> loud_option sync ->
  loud_result (assembleParts dir ranges expected fault sync files).1.
Proof.
  intros Hf Hs. unfold assembleParts. case_match; [done|]. case_match; [done|].
  pose proof (copyParts_loud dir fault (merge_sort range_le ranges) Hf [] files) as Hc. destruct (copyParts _ _ _ _ _); [|done]. by destruct sync.
Qed.

(** The upload is not in flight, or onError was told that it could not be failed. *)
Definition over (id : string) (w : ProcessWorld) : Prop := released id (pw_images w) \/ exists cause e, RFail cause e ∈ pw_reports w.

Section Release.
Context (sha256_hex : bytes -> string) (imageRoot : string) (env : ProcessEnv) (id : string).
Hypothesis Henv : env_ok id env.

Lemma fail_over n code e w : code <> "" -> loud e -> over id (fail_upload env n id code e w).
Proof.
  intros Hcode He. unfold fail_upload, store. destruct (ok_faults _ _ Henv n) as [Hf Hl]. pose proof (ok_now _ _ Henv n). pose proof (ok_id _ _ Henv).
  assert (forall cause err w0, over id (onError (RFail cause err) w0)) as Htold by (intros; right; eexists _, _; apply elem_of_app; right; by apply list_elem_of_singleton).
  destruct (e_fault env n) as [f|]; [destruct Hf as [_ ->]; apply Htold|].
  unfold FailImageUpload. rewrite !bool_decide_eq_false_2 by done. rewrite !(proj2 (Z.leb_gt _ _)) by (unfold UploadRetention; lia). simpl.
  destruct (uploads _ !! id) as [u|] eqn:Hu; simpl; [|left; intros u; simpl; by rewrite Hu].
  destruct (in_flight (u_Status u)) eqn:Hin; simpl; [|left; intros u'; simpl; rewrite Hu; by intros [= <-]].
  destruct (e_lost env n) as [f|]; [destruct Hl as [_ ->]; apply Htold|]. left. intros u'. simpl. rewrite lookup_insert_eq. by intros [= <-].
Qed.
Lemma over_files files w : over id w -> over id (set_files files w).
Proof. done. Qed.
Lemma over_told r w : over id w -> over id (onError r w).
Proof. intros [Hr|(cause & e & Hin)]; [by left|right]. exists cause, e. apply elem_of_app. by left. Qed.
Lemma store_loud n op w e w' : (forall s, loud_result (op s)) -> store env n op w = (Some e, w') -> loud e.
Proof.
  intros Hop. unfold store. destruct (ok_faults _ _ Henv n) as [Hf Hl]. destruct (e_fault env n); [destruct Hf; by intros [= <- <-]|].
  specialize (Hop (pw_images (others env n w))). destruct (op _); [|by intros [= <- <-]]. intros [= E <-]. rewrite E in Hl. by destruct Hl.
Qed.

Lemma deploy_over revision kind image path w : over id (deployUploaded env id revision kind image path w).
Proof.
  unfold deployUploaded. pose proof (ok_deploy _ _ Henv) as Hd. destruct (e_deploy env) as [url|e]; [|by apply fail_over].
  destruct (store env 11 _ _) as [[e|] w'] eqn:Hs.
  - apply store_loud in Hs; [|intros; apply store_error_loud]. by apply over_told, fail_over.
  - unfold store in Hs. destruct (e_fault env 11); [done|]. destruct (CompleteImageUpload _ _ _ _ _ _ _) as [images|] eqn:Hc; [|done]. injection Hs as _ <-.
    unfold CompleteImageUpload in Hc. repeat (case_match; try done). injection Hc as <-. left. intros u. simpl. rewrite lookup_insert_eq. by intros [= <-].
Qed.
Lemma import_over revision kind path w : over id (importArchive env id revision kind path w).
Proof.
  unfold importArchive. pose proof (ok_pull _ _ Henv path) as Hp. destruct (e_pull env path) as [image|e]; [|by apply over_files, fail_over].
  case_match; [by apply over_files, fail_over|]. pose proof (ok_ids _ _ Henv 1) as Hi.
  destruct (e_ids env 1) as [deployment|e]; [|by apply fail_over].
  destruct (store env 8 _ _) as [[e|] w'] eqn:Hs; [|apply deploy_over].
  apply store_loud in Hs; [|intros; apply store_error_loud]. by apply fail_over.
Qed.
Lemma store_over service u assembled w : over id (storeArchive sha256_hex imageRoot env service id u assembled w).
Proof.
  unfold storeArchive. pose proof (ok_hash _ _ Henv) as Hh. destruct (e_hash env); [by apply over_files, fail_over|].
  case_match; [by apply over_files, fail_over|]. pose proof (ok_ids _ _ Henv 0) as Hi.
  destruct (e_ids env 0) as [revision|e]; [|by apply fail_over].
  pose proof (ok_mkdir _ _ Henv) as Hm. pose proof (ok_rename _ _ Henv) as Hr.
  destruct (e_mkdir env); [by apply fail_over|]. destruct (e_rename env); [by apply fail_over|].
  destruct (store env 4 _ _) as [[e|] w'] eqn:Hs; [|apply import_over].
  apply store_loud in Hs; [|intros; apply store_error_loud]. by apply over_files, fail_over.
Qed.
End Release.

(** C17. Processing gives the tag free.  Whatever fails (disk, hash, identifiers, engine,
    platform, deployment, transactions of the store, before or after they commit) and
    whatever transactions run in between: when [process] returns, a complete upload is no
    longer in flight, so that the next push of the tag is not blocked; or onError was told
    that the upload could not be read, or could not be recorded as failed; or the second
    read of the upload, under the lock, failed. *)
Theorem process_releases (sha256_hex : bytes -> string) (imageRoot : string) (env : ProcessEnv) (service id : string) (w : ProcessWorld) :
  env_ok id env ->
  (forall u, uploads (pw_images (others env 1 (others env 0 w))) !! id = Some u -> u_ServiceID (u_head u) = service
     /\ (in_flight (u_Status u) = true -> u_Status u = Uploading /\ ImageUploadCoverageComplete (u_ReceivedRanges u) (u_ExpectedLength (u_head u)) = true)) ->
  let w' := process sha256_hex imageRoot env service id w in
  released id (pw_images w') \/ (exists cause e, RFail cause e ∈ pw_reports w') \/ (exists e, RLoad e ∈ pw_reports w') \/ is_Some (e_fault env 1).
Proof.
  intros Henv Hcur. unfold process. assert (forall e w0, exists e', RLoad e' ∈ pw_reports (onError (RLoad e) w0)) as Htold
    by (intros e w0; exists e; apply elem_of_app; right; by apply list_elem_of_singleton).
  destruct (e_fault env 0) as [e|]; [right; right; left; apply Htold|]. destruct (findImageUpload id service (pw_images (others env 0 w))); [|right; right; left; apply Htold].
  destruct (e_fault env 1) as [e|]; [right; right; right; by eexists|].
  unfold findImageUpload. destruct (uploads (pw_images (others env 1 _)) !! id) as [u|] eqn:Hu; [|left; intros u; by rewrite Hu].
  destruct (Hcur u eq_refl) as [Hs Hf]. rewrite bool_decide_eq_true_2 by done.
  assert (forall w0, over id w0 -> released id (pw_images w0) \/ (exists cause e, RFail cause e ∈ pw_reports w0) \/ (exists e, RLoad e ∈ pw_reports w0) \/ is_Some (@None goerr)) as Hover
    by (intros w0 [?|?]; [by left|by right; left]).
  case_match eqn:Hc.
  - left. intros u'. rewrite Hu. intros [= <-]. destruct (in_flight (u_Status u)); [|done]. destruct (Hf eq_refl) as [E1 E2]. by rewrite E1, E2 in Hc.
  - pose proof (assembleParts_loud (u_TemporaryPath (u_head u)) (u_ReceivedRanges u) (u_ExpectedLength (u_head u)) (e_part env) (e_sync env)
      (pw_files (others env 1 (others env 0 w))) (ok_part _ _ Henv) (ok_sync _ _ Henv)) as Hl.
    destruct (assembleParts _ _ _ _ _ _) as [[assembled|e] files]; apply Hover; [by apply store_over|]. by apply over_files, fail_over.
Qed.

(** The events of [deployUploaded] and [importArchive] show the archive they are given. *)
Definition shows (c : bytes) (e : Event) : Prop := match e with Pull a | Deploy _ _ _ a => a = Some c end.
Lemma store_files env n op w : pw_files (store env n op w).2 = pw_files w /\ pw_events (store env n op w).2 = pw_events w.
Proof. unfold store. destruct (e_fault env n); [done|]. by destruct (op _). Qed.
Lemma told_files r w : pw_files (onError r w) = pw_files w /\ pw_events (onError r w) = pw_events w.
Proof. done. Qed.
Lemma fail_files env n id code e w : pw_files (fail_upload env n id code e w) = pw_files w /\ pw_events (fail_upload env n id code e w) = pw_events w.
Proof.
  unfold fail_upload. match goal with |- context [store env n ?op w] => pose proof (store_files env n op w) as Hs; destruct (store env n op w) as [[f|] w'] end; simpl in Hs; [|done].
  by destruct (errors_Is _ f).
Qed.
Lemma import_shows env id revision kind path c w : pw_files w !! path = Some c -> Forall (shows c) (pw_events w) ->
  Forall (shows c) (pw_events (importArchive env id revision kind path w)).
Proof.
  intros Hc Hev. set (w1 := emit (Pull (pw_files w !! path)) w).
  assert (Forall (shows c) (pw_events w1)) as H1 by (apply Forall_app; split; [done|]; by apply Forall_singleton).
  unfold importArchive. fold w1. destruct (e_pull env path) as [image|]; simpl; [|by rewrite (proj2 (fail_files env 6 id _ _ w1))].
  case_match; simpl; [by rewrite (proj2 (fail_files env 6 id _ _ w1))|]. destruct (e_ids env 1) as [d|]; [|by rewrite (proj2 (fail_files env 7 id _ _ w1))].
  match goal with |- context [store env 8 ?op w1] => pose proof (store_files env 8 op w1) as [Sf Se]; destruct (store env 8 op w1) as [[e|] w2] end; simpl in Sf, Se.
  - by rewrite (proj2 (fail_files env 9 id _ _ w2)), Se.
  - unfold deployUploaded. set (w3 := emit _ w2).
    assert (Forall (shows c) (pw_events w3)) as H3.
    { unfold w3. simpl. rewrite Se. apply Forall_app. split; [done|]. apply Forall_singleton. simpl. by rewrite Sf. }
    destruct (e_deploy env) as [url|]; [|by rewrite (proj2 (fail_files env 10 id _ _ w3))].
    match goal with |- context [store env 11 ?op w3] => pose proof (store_files env 11 op w3) as [_ Se']; destruct (store env 11 op w3) as [[e|] w4] end; simpl in Se'.
    + rewrite (proj2 (told_files _ _)). by rewrite (proj2 (fail_files env 12 id _ _ w4)), Se'.
    + by rewrite Se'.
Qed.

Ltac failed Hno := simpl; rewrite (proj2 (fail_files _ _ _ _ _ _)); intros ?%Hno.

(** C16. Only a verified archive is run: whatever the engine is asked to import and the
    runtime to deploy has the SHA-256 the upload announced, and is the concatenation of
    the received parts in order. *)
Theorem processed_archive_verified (sha256_hex : bytes -> string) (imageRoot : string) (env : ProcessEnv) (service id : string) (w : ProcessWorld) (e : Event) :
  pw_events w = [] -> (forall u, uploads (pw_images (others env 1 (others env 0 w))) !! id = Some u -> u_TemporaryPath (u_head u) <> imageRoot +:+ "/" +:+ service) ->
  e ∈ pw_events (process sha256_hex imageRoot env service id w) ->
  exists u c, uploads (pw_images (others env 1 (others env 0 w))) !! id = Some u /\ shows c e /\ sha256_hex c = u_ExpectedSHA256 (u_head u)
    /\ copyParts (u_TemporaryPath (u_head u)) (e_part env) (merge_sort range_le (u_ReceivedRanges u)) [] (pw_files w) = Ok c.
Proof.
  intros Hnil Hroot. assert (forall w', pw_events w' = pw_events w -> e ∈ pw_events w' -> False) as Hno.
  { intros w' ->. rewrite Hnil. apply not_elem_of_nil. }
  unfold process. destruct (e_fault env 0); [by intros ?%Hno|]. destruct (findImageUpload id service (pw_images (others env 0 w))); [|by intros ?%Hno].
  destruct (e_fault env 1); [by intros ?%Hno|]. unfold findImageUpload. destruct (uploads _ !! id) as [u|] eqn:Hu; [|by intros ?%Hno].
  destruct (bool_decide (u_ServiceID (u_head u) = service)); [|by intros ?%Hno].
  destruct (negb (bool_decide (u_Status u = Uploading)) || _); [by intros ?%Hno|]. specialize (Hroot u eq_refl). simpl. unfold assembleParts.
  destruct (negb (ImageUploadCoverageComplete _ _)); [by failed Hno|]. destruct (pw_files w !! (_, assembledArchiveName)); [by failed Hno|].
  destruct (copyParts _ _ _ _ _) as [c|] eqn:Hc; [|by failed Hno].
  destruct (e_sync env); [by failed Hno|].
  intros He. exists u, c. split; [done|]. unfold storeArchive in He. simpl in He. rewrite lookup_insert_eq in He. simpl in He.
  destruct (e_hash env); [revert He; by failed Hno|].
  case_bool_decide as Hsha; simpl in He; [|revert He; by failed Hno].
  destruct (e_ids env 0) as [revision|]; [|revert He; by failed Hno].
  destruct (e_mkdir env); [revert He; by failed Hno|].
  destruct (e_rename env); [revert He; by failed Hno|].
  match type of He with context [store env 4 ?op ?w0] => pose proof (store_files env 4 op w0) as [Sf Se]; destruct (store env 4 op w0) as [[err|] w1] end; simpl in Sf, Se.
  - revert He. by failed Hno.
  - split; [|done]. eapply Forall_forall; [|exact He]. apply import_shows.
    + rewrite Sf. unfold RemoveAll. apply map_lookup_filter_Some. rewrite lookup_insert_eq. split; [done|]. simpl. congruence.
    + rewrite Se, Hnil. by apply Forall_nil.
Qed.

Definition sample_process : ProcessEnv :=
  {| e_others := fun n => if Nat.eqb n 8 then [OpInterrupt 7] else []; e_fault := fun _ => None; e_lost := fun _ => None; e_now := fun n => 10 + Z.of_nat n; e_part := fun _ => None;
     e_sync := None; e_hash := None; e_ids := fun n => if Nat.eqb n 0 then Ok "rev" else Ok "dep"; e_mkdir := None; e_rename := None;
     e_pull := fun _ => Ok (mkPulled "linux" "amd64" "sha256:d"); e_deploy := Ok "https://p" |}.
Definition sample_complete : ProcessWorld :=
  let w := uploadAll "/up" sample_auth sample_parts sample_world in
  mkProcessWorld (w_files w) (set_services {[ "svc" := None ]} (w_images w)) [] [].
Definition sample_hashing (c : bytes) : string := if bool_decide (c = sample_data) then sample_hash else "".

Lemma sample_env_ok : env_ok "upload-0123456789" sample_process.
Proof. split; try done; intros n; simpl; [lia|destruct (Nat.eqb n 8); repeat constructor|by destruct (Nat.eqb n 0)]. Qed.
Lemma sample_complete_upload u : uploads (pw_images (others sample_process 1 (others sample_process 0 sample_complete))) !! "upload-0123456789" = Some u ->
  u_ServiceID (u_head u) = "svc"
     /\ (in_flight (u_Status u) = true -> u_Status u = Uploading /\ ImageUploadCoverageComplete (u_ReceivedRanges u) (u_ExpectedLength (u_head u)) = true).
Proof. intros Hu. vm_compute in Hu. injection Hu as <-. split; [reflexivity|]. intros _. split; [reflexivity|vm_compute; reflexivity]. Qed.
Definition sample_processed : ProcessWorld := process sample_hashing "/img" sample_process "svc" "upload-0123456789" sample_complete.
Lemma sample_reports : pw_reports sample_processed = [].
Proof. vm_compute. reflexivity. Qed.
Lemma process_releases_witness : released "upload-0123456789" (pw_images sample_processed).
Proof.
  destruct (process_releases sample_hashing "/img" sample_process "svc" "upload-0123456789" sample_complete sample_env_ok sample_complete_upload)
    as [Hr|[(cause & e & Hin)|[(e & Hin)|[e He]]]]; change (process _ _ _ _ _ _) with sample_processed in *.
  - exact Hr.
  - rewrite sample_reports in Hin. destruct (not_elem_of_nil _ Hin).
  - rewrite sample_reports in Hin. destruct (not_elem_of_nil _ Hin).
  - discriminate He.
Defined.
(** Losing the write that fails the upload: it stays in flight, and onError is told. *)
Lemma unfailed_upload_blocks :
  let env := {| e_others := fun _ => []; e_fault := fun n => if Nat.eqb n 10 then Some (Msg "disk full") else None; e_lost := fun _ => None; e_now := e_now sample_process;
                e_part := fun _ => None; e_sync := None; e_hash := None; e_ids := e_ids sample_process; e_mkdir := None; e_rename := None; e_pull := e_pull sample_process;
                e_deploy := Err (Msg "no host") |} in
  let w := process sample_hashing "/img" env "svc" "upload-0123456789" sample_complete in
  in_flight ∘ u_Status <$> uploads (pw_images w) !! "upload-0123456789" = Some true /\ pw_reports w = [RFail (Msg "no host") (Msg "disk full")].
Proof. vm_compute. split; reflexivity. Qed.
Lemma processed_archive_verified_witness : exists c, pw_events (process sample_hashing "/img" sample_process "svc" "upload-0123456789" sample_complete) = [Pull (Some c)]
  /\ sample_hashing c = sample_hash.
Proof.
  exists sample_data. split; [vm_compute; reflexivity|].
  destruct (processed_archive_verified sample_hashing "/img" sample_process "svc" "upload-0123456789" sample_complete (Pull (Some sample_data)))
    as (u & c & Hu & Hs & Hh & _); [reflexivity| | |].
  - intros u Hu. vm_compute in Hu. injection Hu as <-. intros E. vm_compute in E. discriminate E.
  - vm_compute. left.
  - simpl in Hs. injection Hs as <-. vm_compute in Hu. injection Hu as <-. exact Hh.
Defined.
