(* ===== verification/CloudflareDns.v ===== *)
(** * CloudflareDns: DNS records of previews and service domains

    internal/cloudflaredns: the records platformd creates in a Cloudflare zone carry a
    comment, by which it knows its own.  Requests to the API are a trace; the class
    [CloudflareAPI] answers a request as a function of those before it. *)

From S2P Require Import Prelude Names.

Record zone := mkZone { z_ID : string; z_Name : string }.
Record dnsRecord := mkRecord { r_ID : string; r_Type : string; r_Name : string; r_Content : string; r_Proxied : bool; r_TTL : Z; r_Comment : string }.

Inductive Request :=
| GetZones (page : Z)
| GetRecords (zoneID hostname : string)
| CreateRecord (zoneID : string) (record : dnsRecord)
| PatchRecord (zoneID : string) (record : dnsRecord)
| DeleteRecord (zoneID recordID : string)
| PurgeCache (zoneID : string) (hosts : list string).
(** A request that only reads. *)
Definition reads (q : Request) : bool := match q with GetZones _ | GetRecords _ _ => true | _ => false end.

(** [api_token] opens the stored token; [api_create] answers with the identifier of the
    new record. *)
Class CloudflareAPI := {
  api_token : option goerr;
  api_zones : list Request -> Z -> result goerr (list zone);
  api_records : list Request -> string -> string -> result goerr (list dnsRecord);
  api_create : list Request -> string -> dnsRecord -> result goerr string;
  api_other : list Request -> Request -> option goerr
}.

Definition managedRecordCommentPrefix : string := "Managed by platformd PR preview ".
Definition managedServiceRecordComment : string := "Managed by platformd service domain".
Definition maximumPurgeHostnames : Z := 30.

(** Code that sends requests and may fail. *)
Definition CF (A : Type) : Type := list Request -> result goerr A * list Request.
Definition cret {A} (a : A) : CF A := fun t => (Ok a, t).
Definition cfail {A} (e : goerr) : CF A := fun t => (Err e, t).
Definition cbind {A B} (m : CF A) (k : A -> CF B) : CF B := fun t => match m t with (Ok a, t) => k a t | (Err e, t) => (Err e, t) end.
Notation "'let!' x ':=' m 'in' k" := (cbind m (fun x => k)) (at level 200, x name, m at level 100, k at level 200).
Definition lift {A} (r : result goerr A) : CF A := fun t => (r, t).
Definition option_err (o : option goerr) : result goerr unit := match o with Some e => Err e | None => Ok tt end.

(** [slices.Sort] of strings. *)
Definition sort_Strings (l : list string) : list string := merge_sort String.le l.

(** The identifiers of the records of [existing] that stand for those of [source]. *)
Fixpoint matchAll (existing source : list dnsRecord) (comment : string) : option (list string) :=
  match source with
  | [] => Some []
  | expected :: source =>
      match List.find (fun c => bool_decide (r_Comment c = comment) && bool_decide (r_Type c = r_Type expected)
                                && bool_decide (r_Content c = r_Content expected) && Bool.eqb (r_Proxied c) (r_Proxied expected)) existing with
      | Some c => if bool_decide (r_ID c = "") then None else match matchAll existing source comment with Some ids => Some (r_ID c :: ids) | None => None end
      | None => None
      end
  end.
Definition matchingManagedRecordIDs (existing source : list dnsRecord) (comment : string) : list string :=
  match matchAll existing source comment with Some ids => sort_Strings ids | None => [] end.

Section Cloudflare.
Context `{HostnameTables} `{CloudflareAPI}.

Definition normalize (hostname : string) : result goerr string :=
  match Normalize hostname with Ok h => Ok h | Err _ => Err (Msg "invalid public hostname") end.
Definition token : CF unit := lift (option_err api_token).
Definition getZones (page : Z) : CF (list zone) := fun t => (api_zones t page, t ++ [GetZones page]).
Definition records (zoneID hostname : string) : CF (list dnsRecord) := fun t => (api_records t zoneID hostname, t ++ [GetRecords zoneID hostname]).
Definition createRecord (zoneID : string) (r : dnsRecord) : CF string := fun t => (api_create t zoneID r, t ++ [CreateRecord zoneID r]).
Definition send (q : Request) : CF unit := fun t => (option_err (api_other t q), t ++ [q]).

(** At most five pages of fifty. *)
Fixpoint zonePages (pages : nat) (page : Z) (acc : list zone) : CF (list zone) :=
  match pages with
  | O => cret acc
  | S pages =>
      let! response := getZones page in
      if Z.of_nat (length response) <? 50 then cret (acc ++ response) else zonePages pages (page + 1) (acc ++ response)
  end.
Definition zones : CF (list zone) := zonePages 5 1 [].

(** The longest zone that covers the name. *)
Fixpoint selectZone (selected : zone) (candidates : list zone) (hostname : string) : zone :=
  match candidates with
  | [] => selected
  | candidate :: rest =>
      match Normalize (z_Name candidate) with
      | Ok name =>
          if negb (bool_decide (hostname = name)) && negb (has_suffix ("." +:+ name) hostname) then selectZone selected rest hostname
          else selectZone (if zlen (z_Name selected) <? zlen name then mkZone (z_ID candidate) name else selected) rest hostname
      | Err _ => selectZone selected rest hostname
      end
  end.
Definition zoneForHostname (hostname : string) : CF zone :=
  let! all := zones in
  let selected := selectZone (mkZone "" "") all hostname in
  if bool_decide (z_ID selected = "") then cfail (Msg ("no accessible Cloudflare zone covers " +:+ hostname)) else cret selected.

(** Every record is tried; the errors are joined. *)
Fixpoint deleteRecords (zoneID : string) (recordIDs : list string) (failed : option goerr) : CF unit :=
  match recordIDs with
  | [] => lift (option_err failed)
  | id :: rest =>
      if bool_decide (id = "") then deleteRecords zoneID rest failed
      else fun t => match send (DeleteRecord zoneID id) t with
                    | (Ok _, t) => deleteRecords zoneID rest failed t
                    | (Err e, t) => deleteRecords zoneID rest (errors_Join failed (Some e)) t
                    end
  end.

Definition routing (r : dnsRecord) : bool := bool_decide (r_Type r = "A") || bool_decide (r_Type r = "AAAA") || bool_decide (r_Type r = "CNAME").
Fixpoint createAll (zoneID preview comment : string) (supported : list dnsRecord) (created : list string) : CF (list string) :=
  match supported with
  | [] => cret created
  | r :: rest => fun t =>
      match createRecord zoneID (mkRecord "" (r_Type r) preview (r_Content r) (r_Proxied r) 1 comment) t with
      | (Ok id, t) => createAll zoneID preview comment rest (created ++ [id]) t
      | (Err e, t) => let '(_, t) := deleteRecords zoneID created None t in (Err e, t)
      end
  end.
(** The first record of the name that is not this preview's, if there is one. *)
Definition in_use (preview : string) : goerr := Msg ("Cloudflare DNS name " +:+ preview +:+ " is already in use").
Definition EnsurePreviewHostname (canonicalHostname previewHostname previewID : string) : CF (list string) :=
  if bool_decide (trim_space previewID = "") then cfail (Msg "PR preview ID is required")
  else
    let! canonical := lift (normalize canonicalHostname) in
    let! preview := lift (normalize previewHostname) in
    let! _ := token in
    let! zone := zoneForHostname preview in
    if negb (bool_decide (canonical = z_Name zone)) && negb (has_suffix ("." +:+ z_Name zone) canonical)
    then cfail (Msg "service and preview hostnames must belong to the same Cloudflare zone")
    else
      let! source := records (z_ID zone) canonical in
      let supported := List.filter routing source in
      if bool_decide (supported = []) then cfail (Msg ("Cloudflare has no A, AAAA, or CNAME record for " +:+ canonical))
      else
        let! existing := records (z_ID zone) preview in
        let comment := managedRecordCommentPrefix +:+ previewID in
        let ids := matchingManagedRecordIDs existing supported comment in
        if negb (bool_decide (existing = [])) && (Nat.eqb (length existing) (length supported)) && (Nat.eqb (length ids) (length supported)) then cret ids
        else if existsb (fun r => negb (bool_decide (r_Comment r = comment))) existing then cfail (in_use preview)
        else
          let! _ := (match existing with
                     | [] => cret tt
                     | _ => fun t => match deleteRecords (z_ID zone) (r_ID <$> existing) None t with
                                     | (Err e, t) => (Err (Wrap "replace stale PR preview DNS records" e), t)
                                     | r => r
                                     end
                     end) in
          createAll (z_ID zone) preview comment supported [].

Definition DeletePreviewHostname (hostname : string) (recordIDs : list string) : CF unit :=
  if bool_decide (recordIDs = []) then cret tt
  else
    let! normalized := lift (normalize hostname) in
    let! _ := token in
    let! zone := zoneForHostname normalized in
    deleteRecords (z_ID zone) recordIDs None.

(** ** service_hostnames.go *)

(** Whether the token is not configured, and its other errors. *)
Definition configured : CF bool :=
  match api_token with
  | None => cret true
  | Some e => if errors_Is "state.ErrCloudflareDNSNotConfigured" e then cret false else cfail e
  end.
(** The one record of the name, all of whose records must be platformd's. *)
Fixpoint findManaged (hostname : string) (managed : option dnsRecord) (l : list dnsRecord) : result goerr (option dnsRecord) :=
  match l with
  | [] => Ok managed
  | r :: rest =>
      if negb (bool_decide (r_Comment r = managedServiceRecordComment)) then Err (in_use hostname)
      else match managed with
           | Some _ => Err (Msg ("Cloudflare DNS name " +:+ hostname +:+ " has multiple platformd records"))
           | None => findManaged hostname (Some r) rest
           end
  end.
Definition ensureManagedRecord (hostname0 recordType content : string) : CF bool :=
  let! hostname := lift (normalize hostname0) in
  let! ready := configured in
  if negb ready then cret false
  else
    let! zone := zoneForHostname hostname in
    let! found := records (z_ID zone) hostname in
    let! managed := lift (findManaged hostname None found) in
    let body id := mkRecord id recordType hostname content true 1 managedServiceRecordComment in
    match managed with
    | None => let! _ := createRecord (z_ID zone) (body "") in cret true
    | Some r =>
        if bool_decide (r_Type r = recordType) && bool_decide (r_Content r = content) && r_Proxied r then cret false
        else let! _ := send (PatchRecord (z_ID zone) (body (r_ID r))) in cret false
    end.
Definition EnsureServiceHostname (hostname targetHostname : string) : CF bool :=
  let! target := lift (normalize targetHostname) in ensureManagedRecord hostname "CNAME" target.
Definition DeleteServiceHostname (hostname0 : string) : CF bool :=
  let! hostname := lift (normalize hostname0) in
  let! ready := configured in
  if negb ready then cret false
  else
    let! zone := zoneForHostname hostname in
    let! found := records (z_ID zone) hostname in
    let ids := r_ID <$> List.filter (fun r => bool_decide (r_Comment r = managedServiceRecordComment)) found in
    let! _ := deleteRecords (z_ID zone) ids None in
    cret (negb (bool_decide (ids = []))).

(** ** PurgeHostnames *)

(** The names by zone, each in the order given. *)
Fixpoint groupByZone (all : list zone) (hostnames : list string) (byZone : gmap string (list string)) : result goerr (gmap string (list string)) :=
  match hostnames with
  | [] => Ok byZone
  | hostname :: rest =>
      let selected := selectZone (mkZone "" "") all hostname in
      if bool_decide (z_ID selected = "") then Err (Msg ("no accessible Cloudflare zone covers " +:+ hostname))
      else groupByZone all rest (<[z_ID selected := default [] (byZone !! z_ID selected) ++ [hostname]]> byZone)
  end.
Fixpoint purgeZones (zoneIDs : list string) (byZone : gmap string (list string)) : CF unit :=
  match zoneIDs with
  | [] => cret tt
  | id :: rest => let! _ := send (PurgeCache id (default [] (byZone !! id))) in purgeZones rest byZone
  end.
Definition PurgeHostnames (hostnames : list string) : CF unit :=
  if bool_decide (hostnames = []) || (maximumPurgeHostnames <? Z.of_nat (length hostnames)) then cfail (Msg "Cloudflare cache purge requires between 1 and 30 hostnames")
  else
    let! normalized := lift (mapM_res normalize hostnames) in
    let! _ := token in
    let! all := zones in
    let! byZone := lift (groupByZone all (sort_Strings (dedup [] normalized)) ∅) in
    purgeZones (sort_Strings (map_to_list byZone).*1) byZone.

(** ** Reasoning *)

(** Every request of a run from [t] satisfies [P], given what came before. *)
Definition sends {A} (P : list Request -> Request -> Prop) (m : CF A) (t : list Request) : Prop :=
  exists l, (m t).2 = t ++ l /\ forall t1 q t2, l = t1 ++ q :: t2 -> P (t ++ t1) q.
Lemma sends_none {A} P (m : CF A) t : (m t).2 = t -> sends P m t.
Proof. intros E. exists []. rewrite app_nil_r. split; [done|]. intros t1 q t2 E'. by destruct t1. Qed.
Lemma sends_then {A B} P (m : CF A) (n : CF B) t : sends P m t -> sends P n (m t).2 -> sends P (fun t => n (m t).2) t.
Proof.
  intros (l & El & Hl) (l' & El' & Hl'). exists (l ++ l'). rewrite El', El, app_assoc. split; [done|]. intros t1 q t2 E12.
  apply app_eq_app in E12 as (m0 & [[E1 E2]|[E1 E2]]).
  - destruct m0 as [|q' m0]; simpl in E2.
    + rewrite app_nil_r in E1. rewrite <- E1, <- El, <- (app_nil_r (m t).2). apply (Hl' [] q t2). by rewrite <- E2.
    + injection E2 as <- E2. subst. by apply (Hl t1 q m0).
  - subst. rewrite app_assoc, <- El. by apply (Hl' m0 q t2).
Qed.
Lemma sends_bind {A B} P (m : CF A) (k : A -> CF B) t : sends P m t -> (forall a t', m t = (Ok a, t') -> sends P (k a) t') -> sends P (cbind m k) t.
Proof.
  intros Hm Hk. unfold sends, cbind. destruct (m t) as [[a|e] t'] eqn:E.
  - specialize (Hk a t' eq_refl). assert (t' = (m t).2) as Et by (by rewrite E). rewrite Et in Hk |- *. exact (sends_then P m (k a) t Hm Hk).
  - unfold sends in Hm. by rewrite E in Hm.
Qed.
Lemma sends_one {A} (P : list Request -> Request -> Prop) q (f : list Request -> result goerr A) t : P t q -> sends P (fun t => (f t, t ++ [q])) t.
Proof.
  intros HP. exists [q]. split; [done|]. intros t1 q' t2 E. destruct t1 as [|x t1]; [injection E as -> _; by rewrite app_nil_r|].
  exfalso. injection E as _ E. by destruct t1.
Qed.

(** A record of platformd: it was listed with its comment, or made with it. *)
Definition owned (comment zoneID id : string) (t : list Request) : Prop :=
  (exists t0 name rest l r, t = t0 ++ GetRecords zoneID name :: rest /\ api_records t0 zoneID name = Ok l /\ r ∈ l /\ r_ID r = id /\ r_Comment r = comment)
  \/ (exists t0 r rest, t = t0 ++ CreateRecord zoneID r :: rest /\ api_create t0 zoneID r = Ok id /\ r_Comment r = comment).
Lemma owned_more comment z id t l : owned comment z id t -> owned comment z id (t ++ l).
Proof.
  intros [(t0 & name & rest & rs & r & -> & ?)|(t0 & r & rest & -> & ?)]; [left; exists t0, name, (rest ++ l), rs, r|right; exists t0, r, (rest ++ l)];
    (split; [by rewrite <- app_assoc|done]).
Qed.
(** What platformd may ask for: reading, records with the comment, and its own records. *)
Definition own_request (comment : string) (t : list Request) (q : Request) : Prop :=
  match q with
  | GetZones _ | GetRecords _ _ => True
  | CreateRecord _ r => r_Comment r = comment
  | PatchRecord z r => r_Comment r = comment /\ owned comment z (r_ID r) t
  | DeleteRecord z id => owned comment z id t
  | PurgeCache _ _ => False
  end.

Section Own.
Context (comment : string).
Abbreviation own m t := (sends (own_request comment) m t).

Lemma own_zonePages pages : forall page acc t, own (zonePages pages page acc) t.
Proof.
  induction pages as [|pages IH]; intros page acc t; simpl; [by apply sends_none|]. apply sends_bind; [by apply sends_one|].
  intros response t' _. case_match; [by apply sends_none|apply IH].
Qed.
Lemma own_zoneForHostname hostname t : own (zoneForHostname hostname) t.
Proof. apply sends_bind; [apply own_zonePages|]. intros all t' _. cbv zeta. case_match; by apply sends_none. Qed.
Lemma own_deleteRecords z ids : forall failed t, (forall id, id ∈ ids -> owned comment z id t) -> own (deleteRecords z ids failed) t.
Proof.
  induction ids as [|id ids IH]; intros failed t Ho; simpl; [by apply sends_none|].
  case_match; [apply IH; intros x Hx; apply Ho; by right|].
  assert (forall f, own (fun t => deleteRecords z ids f (send (DeleteRecord z id) t).2) t) as Hthen.
  { intros f. apply (sends_then _ (send (DeleteRecord z id))); [apply sends_one; simpl; apply Ho; left|]. apply IH. intros x Hx. simpl. apply owned_more, Ho. by right. }
  unfold sends in *. destruct (send (DeleteRecord z id) t) as [[u|e] t'] eqn:E; [destruct (Hthen failed) as (l & El & Hl)|destruct (Hthen (errors_Join failed (Some e))) as (l & El & Hl)];
    exists l; unfold send in E; injection E as Eo Et; rewrite Eo, Et; done.
Qed.
Lemma own_createAll z preview supported : forall created t, (forall id, id ∈ created -> owned comment z id t) -> own (createAll z preview comment supported created) t.
Proof.
  induction supported as [|r rest IH]; intros created t Ho; simpl; [by apply sends_none|]. set (record := mkRecord _ _ _ _ _ _ _).
  assert (own (createRecord z record) t) as Hc by (by apply sends_one).
  destruct (createRecord z record t) as [[id|e] t'] eqn:E; assert (t' = t ++ [CreateRecord z record]) as -> by (by injection E).
  - assert (api_create t z record = Ok id) as Ha by (by injection E).
    assert (own (createAll z preview comment rest (created ++ [id])) (t ++ [CreateRecord z record])) as Hk.
    { apply IH. intros x. rewrite elem_of_app, list_elem_of_singleton. intros [Hx| ->]; [by apply owned_more, Ho|]. right. by exists t, record, []. }
    pose proof (sends_then _ (createRecord z record) _ t Hc ltac:(rewrite E; exact Hk)) as (l & El & Hl). exists l. cbv beta in El. rewrite E in El. by rewrite Ha.
  - assert (api_create t z record = Err e) as Ha by (by injection E).
    assert (own (deleteRecords z created None) (t ++ [CreateRecord z record])) as Hd by (apply own_deleteRecords; intros x Hx; by apply owned_more, Ho).
    pose proof (sends_then _ (createRecord z record) _ t Hc ltac:(rewrite E; exact Hd)) as (l & El & Hl). exists l. cbv beta in El. rewrite E in El. split; [|done].
    rewrite Ha, <- El. simpl. by destruct (deleteRecords z created None _).
Qed.
Lemma own_records z name t : own (records z name) t.
Proof. by apply sends_one. Qed.
Lemma records_owned z name t l t' r : records z name t = (Ok l, t') -> r ∈ l -> r_Comment r = comment -> owned comment z (r_ID r) t'.
Proof. intros [= Ha <-] Hr Hc. left. by exists t, name, [], l, r. Qed.
End Own.

Lemma own_lift {A} P (r : result goerr A) t : sends P (lift r) t.
Proof. by apply sends_none. Qed.
Lemma foreign_none comment existing : existsb (fun r => negb (bool_decide (r_Comment r = comment))) existing = false -> forall r, r ∈ existing -> r_Comment r = comment.
Proof.
  intros Hf r Hr. destruct (decide (r_Comment r = comment)) as [|Hne]; [done|]. exfalso. apply not_true_iff_false in Hf. apply Hf, existsb_exists.
  exists r. rewrite <- list_elem_of_In. split; [done|]. by rewrite bool_decide_eq_false_2.
Qed.
Lemma findManaged_owned hostname l : forall m0 m, findManaged hostname m0 l = Ok (Some m) -> m0 = Some m \/ (m ∈ l /\ r_Comment m = managedServiceRecordComment).
Proof.
  induction l as [|r l IH]; intros m0 m; simpl; [by intros [= ->]; left|]. case_bool_decide as Hc; [|done]. simpl. destruct m0; [done|].
  intros [Hm|[Hm Hm']]%IH; right; [injection Hm as ->; split; [left|done]|split; [by right|done]].
Qed.

Lemma ensure_preview_own canonical preview id t : sends (own_request (managedRecordCommentPrefix +:+ id)) (EnsurePreviewHostname canonical preview id) t.
Proof.
  unfold EnsurePreviewHostname. case_match; [by apply sends_none|]. apply sends_bind; [apply own_lift|]. intros c t1 _.
  apply sends_bind; [apply own_lift|]. intros p t2 _. apply sends_bind; [apply own_lift|]. intros _ t3 _.
  apply sends_bind; [apply own_zoneForHostname|]. intros z t4 _. case_match; [by apply sends_none|].
  apply sends_bind; [apply own_records|]. intros source t5 _. cbv zeta. case_match; [by apply sends_none|].
  apply sends_bind; [apply own_records|]. intros existing t6 Hrec. cbv zeta. case_match; [by apply sends_none|].
  destruct (existsb _ existing) eqn:Hf; [by apply sends_none|]. apply sends_bind.
  - destruct existing as [|r l]; [by apply sends_none|]. assert (sends (own_request (managedRecordCommentPrefix +:+ id)) (deleteRecords (z_ID z) (r_ID <$> r :: l) None) t6) as Hd.
    { apply own_deleteRecords. intros x (r' & -> & Hr')%list_elem_of_fmap. eapply records_owned; [exact Hrec|done|]. by eapply foreign_none. }
    unfold sends in *. destruct Hd as (l0 & El & Hl). exists l0. split; [|done]. rewrite <- El. by destruct (deleteRecords _ _ _ t6) as [[]].
  - intros _ t7 _. apply own_createAll. intros x Hx. by apply not_elem_of_nil in Hx.
Qed.
Lemma ensure_service_own hostname recordType content t : sends (own_request managedServiceRecordComment) (ensureManagedRecord hostname recordType content) t.
Proof.
  apply sends_bind; [apply own_lift|]. intros h t1 _. apply sends_bind; [unfold configured; repeat case_match; by apply sends_none|]. intros ready t2 _.
  case_match; [by apply sends_none|]. apply sends_bind; [apply own_zoneForHostname|]. intros z t3 _. apply sends_bind; [apply own_records|]. intros found t4 Hrec.
  apply sends_bind; [apply own_lift|]. intros managed t5 [= Hm <-]. cbv zeta. destruct managed as [m|].
  - case_match; [by apply sends_none|]. apply sends_bind; [|intros; by apply sends_none]. apply sends_one. split; [done|]. simpl.
    apply findManaged_owned in Hm as [|[Hin Hc]]; [done|]. by eapply records_owned.
  - apply sends_bind; [|intros; by apply sends_none]. by apply sends_one.
Qed.
Lemma delete_service_own hostname t : sends (own_request managedServiceRecordComment) (DeleteServiceHostname hostname) t.
Proof.
  apply sends_bind; [apply own_lift|]. intros h t1 _. apply sends_bind; [unfold configured; repeat case_match; by apply sends_none|]. intros ready t2 _.
  case_match; [by apply sends_none|]. apply sends_bind; [apply own_zoneForHostname|]. intros z t3 _. apply sends_bind; [apply own_records|]. intros found t4 Hrec.
  cbv zeta. apply sends_bind; [|intros; by apply sends_none]. apply own_deleteRecords. intros x (r & -> & Hr)%list_elem_of_fmap.
  apply list_elem_of_In, List.filter_In in Hr as [Hr%list_elem_of_In Hc%bool_decide_eq_true]. by eapply records_owned.
Qed.

(** The identifiers [EnsurePreviewHostname] returns are those of its own records. *)
Lemma cbind_ok {A B} (m : CF A) (k : A -> CF B) t b t' : cbind m k t = (Ok b, t') -> exists a t1, m t = (Ok a, t1) /\ k a t1 = (Ok b, t').
Proof. unfold cbind. destruct (m t) as [[a|e] t1]; [|done]. eauto. Qed.
Lemma matchAll_listed existing source comment ids x : matchAll existing source comment = Some ids -> x ∈ ids -> exists r, r ∈ existing /\ r_ID r = x /\ r_Comment r = comment.
Proof.
  revert ids. induction source as [|e source IH]; intros ids; simpl; [intros [= <-]; by rewrite elem_of_nil|]. destruct (find _ existing) as [c|] eqn:Hf; [|done].
  case_match; [done|]. destruct (matchAll existing source comment) as [rest|]; [|done]. intros [= <-] [->|Hx]%elem_of_cons; [|by eapply IH].
  apply find_some in Hf as [Hin Hc]. exists c. rewrite list_elem_of_In. split; [done|]. split; [done|].
  by apply andb_true_iff in Hc as [[[Hc%bool_decide_eq_true _]%andb_true_iff _]%andb_true_iff _].
Qed.
Lemma matching_listed existing source comment x : x ∈ matchingManagedRecordIDs existing source comment -> exists r, r ∈ existing /\ r_ID r = x /\ r_Comment r = comment.
Proof.
  unfold matchingManagedRecordIDs. destruct (matchAll _ _ _) as [ids|] eqn:E; [|by rewrite elem_of_nil]. unfold sort_Strings. rewrite merge_sort_Permutation. by eapply matchAll_listed.
Qed.
Lemma createAll_owned comment z preview supported : forall created t ids t', createAll z preview comment supported created t = (Ok ids, t') ->
  (forall x, x ∈ created -> owned comment z x t) -> forall x, x ∈ ids -> owned comment z x t'.
Proof.
  induction supported as [|r rest IH]; intros created t ids t'; simpl; [intros [= <- <-]; auto|]. set (record := mkRecord _ _ _ _ _ _ _).
  destruct (api_create t z record) as [id|e] eqn:Ha; [|by destruct (deleteRecords _ _ _ _)]. intros Hk Ho. eapply IH; [exact Hk|].
  intros x. rewrite elem_of_app, list_elem_of_singleton. intros [Hx| ->]; [by apply owned_more, Ho|]. right. by exists t, record, [].
Qed.
Lemma ensure_preview_returns canonical preview id t ids t' : EnsurePreviewHostname canonical preview id t = (Ok ids, t') ->
  exists z, forall x, x ∈ ids -> owned (managedRecordCommentPrefix +:+ id) z x t'.
Proof.
  unfold EnsurePreviewHostname. case_match; [done|]. intros (c & t1 & _ & Hr)%cbind_ok. apply cbind_ok in Hr as (p & t2 & _ & Hr). apply cbind_ok in Hr as ([] & t3 & _ & Hr).
  apply cbind_ok in Hr as (z & t4 & _ & Hr). case_match; [done|]. apply cbind_ok in Hr as (source & t5 & _ & Hr). cbv zeta in Hr. case_match; [done|].
  apply cbind_ok in Hr as (existing & t6 & Hrec & Hr). cbv zeta in Hr. exists (z_ID z). case_match.
  - injection Hr as <- <-. intros x (r & Hin & <- & Hc)%matching_listed. by eapply records_owned.
  - destruct (existsb _ existing); [done|]. apply cbind_ok in Hr as ([] & t7 & _ & Hr). eapply createAll_owned; [exact Hr|]. intros x. by rewrite elem_of_nil.
Qed.

(** ** Histories of calls *)

Inductive DnsCall :=
| CEnsurePreview (canonical preview id : string)
| CDeletePreview (hostname : string) (recordIDs : list string)
| CEnsureService (hostname recordType content : string)
| CDeleteService (hostname : string)
| CPurge (hostnames : list string).
(** The trace, and the identifiers that [EnsurePreviewHostname] has returned so far. *)
Definition dns_call (c : DnsCall) (s : list Request * list string) : list Request * list string :=
  match c with
  | CEnsurePreview canonical preview id =>
      let '(r, t) := EnsurePreviewHostname canonical preview id s.1 in (t, s.2 ++ match r with Ok ids => ids | Err _ => [] end)
  | CDeletePreview hostname ids => ((DeletePreviewHostname hostname ids s.1).2, s.2)
  | CEnsureService hostname recordType content => ((ensureManagedRecord hostname recordType content s.1).2, s.2)
  | CDeleteService hostname => ((DeleteServiceHostname hostname s.1).2, s.2)
  | CPurge hostnames => ((PurgeHostnames hostnames s.1).2, s.2)
  end.
Definition dns_run (calls : list DnsCall) : list Request * list string := fold_left (fun s c => dns_call c s) calls ([], []).
(** Previews are deleted with identifiers that [EnsurePreviewHostname] returned before. *)
Fixpoint returned_before (calls : list DnsCall) (s : list Request * list string) : Prop :=
  match calls with
  | [] => True
  | c :: rest => match c with CDeletePreview _ ids => forall id, id ∈ ids -> id ∈ s.2 | _ => True end /\ returned_before rest (dns_call c s)
  end.

Definition platformd_comment (comment : string) : Prop := comment = managedServiceRecordComment \/ exists id, comment = managedRecordCommentPrefix +:+ id.
(** What a history may ask for: the record of a deletion was, before, listed with a comment
    of platformd or made with one. *)
Definition platformd_request (t : list Request) (q : Request) : Prop :=
  match q with
  | GetZones _ | GetRecords _ _ | PurgeCache _ _ => True
  | CreateRecord _ r => platformd_comment (r_Comment r)
  | PatchRecord z r => platformd_comment (r_Comment r) /\ owned (r_Comment r) z (r_ID r) t
  | DeleteRecord _ id => exists comment z, platformd_comment comment /\ owned comment z id t
  end.
Lemma sends_weaken {A} (P Q : list Request -> Request -> Prop) (m : CF A) t : (forall t q, P t q -> Q t q) -> sends P m t -> sends Q m t.
Proof. intros HPQ (l & El & Hl). exists l. split; [done|]. intros t1 q t2 E. by eapply HPQ, Hl. Qed.
Lemma own_platformd comment t q : platformd_comment comment -> own_request comment t q -> platformd_request t q.
Proof. intros Hc. destruct q; simpl; try done; [by intros ->|by intros [-> ?]|]. intros Ho. by exists comment, zoneID. Qed.
Lemma platformd_deleteRecords z ids : forall failed t, (forall id, id ∈ ids -> exists comment z', platformd_comment comment /\ owned comment z' id t) ->
  sends platformd_request (deleteRecords z ids failed) t.
Proof.
  induction ids as [|id ids IH]; intros failed t Ho; simpl; [by apply sends_none|].
  case_match; [apply IH; intros x Hx; apply Ho; by right|].
  assert (forall f, sends platformd_request (fun t => deleteRecords z ids f (send (DeleteRecord z id) t).2) t) as Hthen.
  { intros f. apply (sends_then _ (send (DeleteRecord z id))); [apply sends_one; simpl; apply Ho; left|]. apply IH. intros x Hx. simpl.
    destruct (Ho x) as (c & z' & ? & ?); [by right|]. exists c, z'. split; [done|by apply owned_more]. }
  unfold sends in *. destruct (send (DeleteRecord z id) t) as [[u|e] t'] eqn:E; [destruct (Hthen failed) as (l & El & Hl)|destruct (Hthen (errors_Join failed (Some e))) as (l & El & Hl)];
    exists l; unfold send in E; injection E as Eo Et; rewrite Eo, Et; done.
Qed.
Lemma platformd_zones hostname t : sends platformd_request (zoneForHostname hostname) t.
Proof. eapply sends_weaken; [|apply (own_zoneForHostname managedServiceRecordComment)]. intros ??. apply own_platformd. by left. Qed.
Lemma delete_preview_own hostname ids t : (forall id, id ∈ ids -> exists comment z, platformd_comment comment /\ owned comment z id t) ->
  sends platformd_request (DeletePreviewHostname hostname ids) t.
Proof.
  intros Ho. unfold DeletePreviewHostname. case_match; [by apply sends_none|]. apply sends_bind; [apply own_lift|]. intros n t1 [= _ <-].
  apply sends_bind; [apply own_lift|]. intros [] t2 [= _ <-]. pose proof (platformd_zones n t) as Hz. apply sends_bind; [done|]. intros z t3 E.
  destruct Hz as (l & El & _). rewrite E in El. simpl in El. subst. apply platformd_deleteRecords. intros id (c & z' & ? & ?)%Ho. exists c, z'. split; [done|by apply owned_more].
Qed.
Lemma purge_reads hostnames t : sends platformd_request (PurgeHostnames hostnames) t.
Proof.
  unfold PurgeHostnames. case_match; [by apply sends_none|]. apply sends_bind; [apply own_lift|]. intros n t1 _. apply sends_bind; [apply own_lift|]. intros [] t2 _.
  apply sends_bind; [eapply sends_weaken; [|apply (own_zonePages managedServiceRecordComment)]; intros ??; apply own_platformd; by left|]. intros all t3 _.
  apply sends_bind; [apply own_lift|]. intros byZone t4 _. generalize (sort_Strings (map_to_list byZone).*1). intros ids. revert t4.
  induction ids as [|id ids IH]; intros t4; simpl; [by apply sends_none|]. apply sends_bind; [by apply sends_one|]. intros. apply IH.
Qed.

(** The state of a history: every request so far was allowed, and every identifier that was
    returned is of a record of platformd. *)
Definition dns_ok (s : list Request * list string) : Prop :=
  (forall t1 q t2, s.1 = t1 ++ q :: t2 -> platformd_request t1 q) /\ forall id, id ∈ s.2 -> exists comment z, platformd_comment comment /\ owned comment z id s.1.
Lemma dns_ok_sends {A} (m : CF A) s ids : sends platformd_request m s.1 -> dns_ok s ->
  (forall id, id ∈ ids -> exists comment z, platformd_comment comment /\ owned comment z id (m s.1).2) -> dns_ok ((m s.1).2, s.2 ++ ids).
Proof.
  intros Hm [Ht Hids] Hnew. split; simpl.
  - destruct Hm as (l & El & Hl). rewrite El. intros t1 q t2 (m0 & [[E1 E2]|[E1 E2]])%app_eq_app; [|subst; by eapply Hl].
    destruct m0 as [|q' m0]; simpl in E2; [|injection E2 as <- _; by eapply Ht].
    rewrite app_nil_r in E1. subst. rewrite <- (app_nil_r s.1). by eapply (Hl []).
  - destruct Hm as (l & El & Hl). intros id [Hid|Hid]%elem_of_app; [|by apply Hnew]. destruct (Hids id Hid) as (c & z & Hc & Ho). exists c, z. split; [done|]. rewrite El. by apply owned_more.
Qed.
Lemma dns_call_ok c s : match c with CDeletePreview _ ids => forall id, id ∈ ids -> id ∈ s.2 | _ => True end -> dns_ok s -> dns_ok (dns_call c s).
Proof.
  intros Hc Hs. assert (forall A (m : CF A), sends platformd_request m s.1 -> dns_ok ((m s.1).2, s.2)) as Hplain.
  { intros A m Hm. rewrite <- (app_nil_r s.2). apply dns_ok_sends; [done|done|]. intros id. by rewrite elem_of_nil. }
  destruct c as [canonical preview id|hostname ids|hostname recordType content|hostname|hostnames]; simpl.
  - pose proof (dns_ok_sends (EnsurePreviewHostname canonical preview id) s) as Hd. pose proof (ensure_preview_returns canonical preview id s.1) as Hr.
    destruct (EnsurePreviewHostname canonical preview id s.1) as [r t] eqn:E. apply Hd; [|done|].
    + eapply sends_weaken; [|apply ensure_preview_own]. intros ??. apply own_platformd. right. by exists id.
    + destruct r as [ids|e]; [|intros x; by rewrite elem_of_nil]. destruct (Hr ids t eq_refl) as [z Hz]. intros x Hx. exists (managedRecordCommentPrefix +:+ id), z. split; [right; by exists id|by apply Hz].
  - apply Hplain, delete_preview_own. intros id Hid. by apply Hs, Hc.
  - apply Hplain. eapply sends_weaken; [|apply ensure_service_own]. intros ??. apply own_platformd. by left.
  - apply Hplain. eapply sends_weaken; [|apply delete_service_own]. intros ??. apply own_platformd. by left.
  - apply Hplain, purge_reads.
Qed.
Lemma dns_run_ok calls : forall s, returned_before calls s -> dns_ok s -> dns_ok (fold_left (fun s c => dns_call c s) calls s).
Proof. induction calls as [|c calls IH]; intros s Hb Hs; [done|]. destruct Hb as [Hc Hb]. simpl. apply IH; [done|by apply dns_call_ok]. Qed.

(** C20. platformd leaves foreign DNS records alone, whatever the API answers and wherever
    calls fail.  Ensuring a preview or a service domain and deleting a service domain create
    records only with the comment of that preview or of service domains, and patch or delete
    a record only if Cloudflare listed it with that comment in its zone or it was created
    in the same call.  In a history of calls in which previews are deleted by identifiers
    that [EnsurePreviewHostname] returned before, every record that is deleted was, before,
    listed by Cloudflare with a comment of platformd or created with one. *)
Theorem dns_touches_own_records (canonical preview id hostname recordType content : string) (t : list Request) (calls : list DnsCall)
    (Hreturned : returned_before calls ([], [])) :
  sends (own_request (managedRecordCommentPrefix +:+ id)) (EnsurePreviewHostname canonical preview id) t
  /\ sends (own_request managedServiceRecordComment) (ensureManagedRecord hostname recordType content) t
  /\ sends (own_request managedServiceRecordComment) (DeleteServiceHostname hostname) t
  /\ forall t1 q t2, (dns_run calls).1 = t1 ++ q :: t2 -> platformd_request t1 q.
Proof.
  split; [apply ensure_preview_own|]. split; [apply ensure_service_own|]. split; [apply delete_service_own|]. apply dns_run_ok; [done|]. split; simpl.
  - intros [|] q t2; done.
  - intros x. by rewrite elem_of_nil.
Qed.

(** A name whose records are all of other previews is refused, and nothing changes. *)
Lemma taken_name_refused canonical preview0 preview id t : normalize preview0 = Ok preview ->
  (forall t' z l, api_records t' z preview = Ok l -> l <> [] /\ forall r, r ∈ l -> r_Comment r <> managedRecordCommentPrefix +:+ id) ->
  exists e, (EnsurePreviewHostname canonical preview0 id t).1 = Err e.
Proof.
  intros Hn Htaken. unfold EnsurePreviewHostname. case_match; [by eexists|]. unfold cbind at 1. destruct (lift (normalize canonical) t) as [[c|] t1]; [|by eexists].
  unfold cbind at 1. unfold lift at 1. rewrite Hn. unfold cbind at 1. destruct (token t1) as [[[]|] t2]; [|by eexists].
  unfold cbind at 1. destruct (zoneForHostname preview t2) as [[z|] t3]; [|by eexists]. case_match; [by eexists|].
  unfold cbind at 1. destruct (records (z_ID z) c t3) as [[source|] t4]; [|by eexists]. cbv zeta.
  destruct (bool_decide (List.filter routing source = [])) eqn:Hsup; [by eexists|]. apply bool_decide_eq_false in Hsup.
  unfold cbind at 1. unfold records at 1. destruct (api_records t4 (z_ID z) preview) as [existing|] eqn:Ha; [|by eexists].
  destruct (Htaken _ _ _ Ha) as [Hne Hall]. set (supported := List.filter routing source) in *.
  assert (matchingManagedRecordIDs existing supported (managedRecordCommentPrefix +:+ id) = []) as ->.
  { destruct supported as [|s rest]; [done|]. unfold matchingManagedRecordIDs. simpl. destruct (find _ existing) as [r|] eqn:Hf; [|done].
    apply find_some in Hf as [Hin Hc]. apply list_elem_of_In in Hin. apply andb_true_iff in Hc as [[[Hc%bool_decide_eq_true _]%andb_true_iff _]%andb_true_iff _].
    by destruct (Hall r Hin). }
  rewrite (proj2 (Nat.eqb_neq (length (@nil string)) (length supported))) by (by destruct supported). rewrite andb_false_r.
  destruct (existsb _ existing) eqn:Hf; [by eexists|]. exfalso. destruct existing as [|r l]; [done|]. apply (Hall r); [left|]. eapply foreign_none; [done|left].
Qed.
End Cloudflare.

(** A preview whose record is created, returned and deleted again. *)
Section Demo.
#[local] Instance demo_tables : HostnameTables := {| strings_ToLower := fun s => s; idna_ToASCII := fun s => Some s; EffectiveTLDPlusOne := fun s => Some s |}.
#[local] Instance demo_api : CloudflareAPI := {|
  api_token := None;
  api_zones := fun _ _ => Ok [mkZone "z1" "example.com"];
  api_records := fun _ _ name => Ok (if bool_decide (name = "app.example.com") then [mkRecord "r0" "A" "app.example.com" "203.0.113.7" true 1 ""] else []);
  api_create := fun _ _ _ => Ok "r1";
  api_other := fun _ _ => None
|}.
Definition demo_dns_calls : list DnsCall := [CEnsurePreview "app.example.com" "pr-1.example.com" "p1"; CDeletePreview "pr-1.example.com" ["r1"]].
Lemma dns_touches_own_records_witness :
  (dns_run demo_dns_calls).1 = [GetZones 1; GetRecords "z1" "app.example.com"; GetRecords "z1" "pr-1.example.com";
    CreateRecord "z1" (mkRecord "" "A" "pr-1.example.com" "203.0.113.7" true 1 "Managed by platformd PR preview p1"); GetZones 1; DeleteRecord "z1" "r1"] /\
  forall t1 q t2, (dns_run demo_dns_calls).1 = t1 ++ q :: t2 -> platformd_request t1 q.
Proof.
  split; [vm_compute; reflexivity|].
  apply (@dns_touches_own_records demo_tables demo_api "" "" "" "" "" "" [] demo_dns_calls).
  split; [exact I|]. split; [|exact I]. vm_compute. intros x Hx. exact Hx.
Defined.
End Demo.
