(* ===== verification/PreviewApp.v ===== *)
(** * PreviewApp: preview deployments

    internal/preview/application.go: a preview runs an uploaded image of a tag beside
    the service, under a host name made from service and tag.  It uses the tables of
    [ImageStore] and the DNS of [CloudflareDns]; [PreviewEnv] answers for engine, routes,
    certificate, growth gate and clock, and for failing transactions. *)

From S2P Require Import Prelude Names ServiceConfig DeploymentStore ImageStore ImageProofs CloudflareDns.

Definition HostnamePrefix : string := "preview-".
Record ServiceDomain := mkDomain { m_Hostname : string; m_TargetPort : Z }.
(** What a deployment needs of the service: its source settings, health check, canonical snapshot. *)
Record Desired := mkDesired {
  ds_Enabled : bool; ds_PreviewsEnabled : bool; ds_PreviewDomain : string; ds_HealthPort : option Z; ds_Canonical : result goerr (string * string)
}.
Record PreviewEnv := mkPreviewEnv {
  v_lease : option goerr;
  v_desired : result goerr Desired;
  v_domains : result goerr (list ServiceDomain);
  v_covers : string -> bool;
  v_growth : option goerr;
  v_create : result goerr string;
  v_start : option goerr;
  v_ready : option goerr;
  v_routes : option goerr;
  v_fault : nat -> option goerr;
  v_now : nat -> Z
}.
Record PreviewWorld := mkPreviewWorld {
  pv_images : Images; pv_requests : list Request; pv_active : gmap string string; pv_containers : gset string
}.
Definition set_images v w := mkPreviewWorld v (pv_requests w) (pv_active w) (pv_containers w).
Definition set_requests v w := mkPreviewWorld (pv_images w) v (pv_active w) (pv_containers w).
Definition set_active v w := mkPreviewWorld (pv_images w) (pv_requests w) v (pv_containers w).
Definition set_containers v w := mkPreviewWorld (pv_images w) (pv_requests w) (pv_active w) v.

(** ** Names and ports *)

Definition previewHostname (sha256_hex : string -> string) (serviceID tag previewRoot : string) : string :=
  HostnamePrefix +:+ String.substring 0 12 (sha256_hex (serviceID +:+ chr 0 +:+ tag)) +:+ "." +:+ previewRoot.
(** The root itself if it is a domain of the service, else its first child, else the root. *)
Fixpoint canonicalFrom (previewRoot fallback : string) (domains : list ServiceDomain) : string :=
  match domains with
  | [] => if bool_decide (fallback = "") then previewRoot else fallback
  | domain :: rest =>
      if bool_decide (m_Hostname domain = previewRoot) then previewRoot
      else canonicalFrom previewRoot (if has_suffix ("." +:+ previewRoot) (m_Hostname domain) && bool_decide (fallback = "") then m_Hostname domain else fallback) rest
  end.
Definition previewDNSCanonical (previewRoot : string) (domains : list ServiceDomain) : string := canonicalFrom previewRoot "" domains.
Definition previewDNSCanonicalForHostname (previewHostname : string) (domains : list ServiceDomain) : string :=
  let '(_, root, ok) := cut dot previewHostname in
  if negb ok || bool_decide (root = "") then "" else previewDNSCanonical root domains.
Definition ErrPreviewDomain : goerr := Sentinel "state.ErrPreviewDomain" "image upload previews require a root preview domain".
Definition ErrPreviewTargetPort : goerr := Sentinel "state.ErrPreviewTargetPort" "image upload previews require an HTTP domain or health check port".
Definition previewTargetPort (desired : Desired) (domains : list ServiceDomain) : result goerr Z :=
  let by_domain := match domains with d :: _ => Ok (m_TargetPort d) | [] => Err ErrPreviewTargetPort end in
  match ds_HealthPort desired with
  | Some port => if (1 <=? port) && (port <=? 65535) then Ok port else by_domain
  | None => by_domain
  end.
Record previewPlan := mkPlan { pl_desired : Desired; pl_root : string; pl_targetPort : Z; pl_canonicalHostname : string }.
Definition desiredPreview (env : PreviewEnv) : result goerr previewPlan :=
  let? desired := v_desired env in
  if negb (ds_Enabled desired) || negb (ds_PreviewsEnabled desired) then Err (Msg "service is not configured for uploaded image previews")
  else if bool_decide (ds_PreviewDomain desired = "") then Err ErrPreviewDomain
  else
    let? domains := v_domains env in
    let? targetPort := previewTargetPort desired domains in
    Ok (mkPlan desired (ds_PreviewDomain desired) targetPort (previewDNSCanonical (ds_PreviewDomain desired) domains)).

Section Preview.
Context `{HostnameTables} `{CloudflareAPI} (sha256_hex : string -> string) (env : PreviewEnv).

(** The n-th transaction. *)
Definition transact (n : nat) (op : Images -> result goerr Images) (w : PreviewWorld) : option goerr * PreviewWorld :=
  match v_fault env n with
  | Some e => (Some e, w)
  | None => match op (pv_images w) with Ok images => (None, set_images images w) | Err e => (Some e, w) end
  end.
Definition dns {A} (m : CF A) (w : PreviewWorld) : result goerr A * PreviewWorld :=
  let '(r, t) := m (pv_requests w) in (r, set_requests t w).

Definition fail (previewID code : string) (cause : goerr) (w : PreviewWorld) : PreviewWorld :=
  (transact 9 (FinishPreviewDeployment previewID true code (error_text cause) (v_now env 9)) w).2.
Definition removeRuntime (previewID : string) (w : PreviewWorld) : PreviewWorld :=
  let w' := set_active (delete previewID (pv_active w)) w in
  match pv_active w !! previewID with Some container => set_containers (pv_containers w' ∖ {[ container ]}) w' | None => w' end.
Definition deleteDNS (n : nat) (previewID hostname : string) (records : list string) (w : PreviewWorld) : option goerr * PreviewWorld :=
  if bool_decide (records = []) then (None, w)
  else match dns (DeletePreviewHostname hostname records) w with
       | (Err e, w) => (Some e, w)
       | (Ok _, w) => transact n (fun images => Ok (ClearPreviewDNSRecords previewID images)) w
       end.
Definition stop (previewID hostname : string) (records : list string) (w : PreviewWorld) : option goerr * PreviewWorld :=
  let '(stateErr, w) := transact 7 (fun images => Ok (StopPreviewDeployment previewID (v_now env 7) images)) w in
  let w := removeRuntime previewID w in
  let '(dnsErr, w) := deleteDNS 8 previewID hostname records w in
  (errors_Join (errors_Join stateErr (v_routes env)) dnsErr, w).

(** With a started and ready container. *)
Definition publish (plan : previewPlan) (previewID hostname container : string) (current : option PreviewDeployment) (w : PreviewWorld) : result goerr string * PreviewWorld :=
  let discard w := set_containers (pv_containers w ∖ {[ container ]}) w in
  let undo records w := (dns (DeletePreviewHostname hostname records) w).2 in
  match dns (EnsurePreviewHostname (pl_canonicalHostname plan) hostname previewID) w with
  | (Err e, w) => (Err e, discard (fail previewID "cloudflare_dns_failed" e w))
  | (Ok records, w) =>
      match transact 4 (SetPreviewDNSRecords previewID records) w with
      | (Some e, w) => (Err e, discard (fail previewID "state_update_failed" e (undo records w)))
      | (None, w) =>
          let w := set_active (<[previewID := container]> (pv_active w)) w in
          match transact 5 (ActivatePreviewDeployment previewID (default "" (d_ID <$> current)) records (v_now env 5)) w with
          | (Some e, w) =>
              let w := set_active (delete previewID (pv_active w)) w in
              (Err e, discard (fail previewID "publication_commit_failed" e (undo records w)))
          | (None, w) =>
              match v_routes env with
              | Some e => (Err e, discard (stop previewID hostname records w).2)
              | None =>
                  let w := match current with
                           | Some c => (deleteDNS 6 (d_ID c) (p_Hostname (d_row c)) (p_Records (d_row c)) (removeRuntime (d_ID c) w)).2
                           | None => w
                           end in
                  (Ok ("https://" +:+ hostname), w)
              end
          end
      end
  end.

Definition DeployUploaded (serviceID previewID tag revisionID imageReference imageDigest : string) (w : PreviewWorld) : result goerr string * PreviewWorld :=
  if bool_decide (serviceID = "") || bool_decide (previewID = "") || bool_decide (tag = "") || bool_decide (tag = "latest") || bool_decide (revisionID = "")
     || bool_decide (imageReference = "") || bool_decide (imageDigest = "")
  then (Err (Msg "uploaded preview input is incomplete"), w)
  else match v_lease env, desiredPreview env with
  | Some e, _ => (Err e, w)
  | None, Err e => (Err e, w)
  | None, Ok plan =>
      let hostname := previewHostname sha256_hex serviceID tag (pl_root plan) in
      if negb (v_covers env hostname) then (Err (Msg ("origin certificate does not cover preview hostname " +:+ hostname)), w)
      else match v_growth env, ds_Canonical (pl_desired plan) with
      | Some e, _ => (Err e, w)
      | None, Err e => (Err e, w)
      | None, Ok (snapshotJSON, configHash) =>
          let found := match v_fault env 1 with Some e => Err e | None => ActivePreviewDeployment serviceID tag (pv_images w) end in
          match (match found with Ok c => Ok (Some c) | Err e => if errors_Is "sql.ErrNoRows" e then Ok None else Err e end) with
          | Err e => (Err e, w)
          | Ok current =>
              match transact 2 (BeginPreviewDeployment (mkBeginPreview previewID serviceID tag revisionID hostname (pl_targetPort plan) imageDigest imageReference
                                  configHash snapshotJSON (v_now env 2) (v_now env 2 + PreviewRetentionMillis))) w with
              | (Some e, w) => (Err e, w)
              | (None, w) =>
                  match v_create env with
                  | Err e => (Err e, fail previewID "candidate_create_failed" e w)
                  | Ok container =>
                      let w := set_containers (pv_containers w ∪ {[ container ]}) w in
                      let discard w := set_containers (pv_containers w ∖ {[ container ]}) w in
                      match v_start env, v_ready env with
                      | Some e, _ => (Err e, discard (fail previewID "candidate_start_failed" e w))
                      | None, Some e => (Err e, discard (fail previewID "readiness_failed" e w))
                      | None, None => publish plan previewID hostname container current w
                      end
                  end
              end
          end
      end
  end.

(** ** Stopping and cleaning up *)

Definition stopAll (items : list PreviewDeployment) (w : PreviewWorld) : option goerr * PreviewWorld :=
  fold_left (fun acc item => let '(e, w) := stop (d_ID item) (p_Hostname (d_row item)) (p_Records (d_row item)) acc.2 in (errors_Join acc.1 e, w)) items (None, w).
Definition StopService (serviceID : string) (w : PreviewWorld) : option goerr * PreviewWorld :=
  match ActivePreviewDeployments (pv_images w) with
  | Err e => (Some e, w)
  | Ok items => stopAll (List.filter (fun item => bool_decide (p_ServiceID (d_row item) = serviceID)) items) w
  end.
Definition StopAll (w : PreviewWorld) : option goerr * PreviewWorld :=
  match ActivePreviewDeployments (pv_images w) with
  | Err e => (Some e, w)
  | Ok items => stopAll items w
  end.
Definition cleanup (w : PreviewWorld) : PreviewWorld :=
  let now := v_now env 0 in
  let w := match ExpiredActivePreviewDeployments now (pv_images w) with Ok items => (stopAll items w).2 | Err _ => w end in
  let w := match FinishedPreviewDeploymentsWithDNS (pv_images w) with
           | Ok items => fold_left (fun w item => (deleteDNS 8 (d_ID item) (p_Hostname (d_row item)) (p_Records (d_row item)) w).2) items w
           | Err _ => w
           end in
  match DeleteFinishedPreviewDeployments (now - PreviewRetentionMillis) (pv_images w) with Ok (_, images) => set_images images w | Err _ => w end.

(** ** Theorems *)

(** The active previews are the same. *)
Definition same_active (s s' : Images) : Prop := forall pid p, p_Status p = PActive -> previews s !! pid = Some p <-> previews s' !! pid = Some p.
#[local] Instance same_active_equiv : PreOrder same_active.
Proof. split; [done|]. intros s1 s2 s3 H12 H23 pid p Hp. rewrite (H12 pid p Hp). by apply H23. Qed.
Lemma same_active_insert s pid p p' : previews s !! pid = p' -> (forall q, p' = Some q -> p_Status q <> PActive) -> p_Status p <> PActive ->
  same_active s (set_previews (<[pid := p]> (previews s)) s).
Proof.
  intros Hold Hne Hp k q Hq. simpl. destruct (decide (k = pid)) as [->|Hk]; [|by rewrite lookup_insert_ne].
  rewrite lookup_insert_eq, Hold. split; [intros E; by destruct (Hne q E)|intros [= ->]; done].
Qed.
Lemma begin_same input s s' : BeginPreviewDeployment input s = Ok s' -> same_active s s'.
Proof.
  unfold BeginPreviewDeployment. repeat (case_match; try done). intros [= <-]. eapply same_active_insert; [done| |done].
  intros q Hq. match goal with H : bool_decide (is_Some _) = false |- _ => apply bool_decide_eq_false in H; destruct H; by exists q end.
Qed.
Lemma finish_same id code message now s s' : FinishPreviewDeployment id true code message now s = Ok s' -> same_active s s'.
Proof.
  unfold FinishPreviewDeployment. destruct (previews s !! id) as [p|] eqn:Hp; [|done]. unfold is_preview. case_bool_decide as Hd; [|done]. intros [= <-].
  eapply same_active_insert; [done| |done]. intros q Hq. simplify_eq. by rewrite Hd.
Qed.
Lemma transact_same n op w : (forall s s', op s = Ok s' -> same_active s s') -> same_active (pv_images w) (pv_images (transact n op w).2).
Proof. intros Hop. unfold transact. destruct (v_fault env n); [done|]. destruct (op (pv_images w)) eqn:E; [|done]. by apply Hop. Qed.
Lemma fail_same id code e w : same_active (pv_images w) (pv_images (fail id code e w)).
Proof. apply transact_same. intros s s'. apply finish_same. Qed.

Ltac refused := split; [by eexists|reflexivity].

(** A preview cannot be replaced while the DNS records of its predecessor exist: the
    host name depends only on service, tag and domain, the records of a name carry the
    identifier of the preview they were made for, and EnsurePreviewHostname refuses a name
    with other records.  The new deployment fails and the old preview stays active. *)
Theorem preview_not_replaced (serviceID previewID tag revisionID imageReference imageDigest : string) (plan : previewPlan) (name : string) (w : PreviewWorld) :
  desiredPreview env = Ok plan -> normalize (previewHostname sha256_hex serviceID tag (pl_root plan)) = Ok name ->
  (forall t z l, api_records t z name = Ok l -> l <> [] /\ forall r, r ∈ l -> r_Comment r <> managedRecordCommentPrefix +:+ previewID) ->
  (exists e, (DeployUploaded serviceID previewID tag revisionID imageReference imageDigest w).1 = Err e)
  /\ same_active (pv_images w) (pv_images (DeployUploaded serviceID previewID tag revisionID imageReference imageDigest w).2).
Proof.
  intros Hplan Hname Htaken. unfold DeployUploaded. rewrite Hplan.
  destruct (bool_decide (serviceID = "") || _ || _ || _ || _ || _ || _); [by refused|]. destruct (v_lease env); [by refused|].
  destruct (negb (v_covers env _)); [by refused|].
  destruct (v_growth env); [by refused|]. destruct (ds_Canonical (pl_desired plan)) as [[snapshot hash]|]; [|by refused].
  match goal with |- context [match ?found with Ok _ => _ | Err _ => _ end] => destruct found as [current|] end; [|by refused].
  match goal with |- context [transact 2 ?op w] => pose proof (transact_same 2 op w (fun s s' => begin_same _ s s')) as Hb; destruct (transact 2 op w) as [[e|] w1] end; simpl in Hb; [split; [by eexists|done]|].
  destruct (v_create env) as [container|e]; [|split; [by eexists|]; etrans; [exact Hb|apply fail_same]].
  set (w2 := set_containers _ w1). destruct (v_start env) as [e|]; [split; [by eexists|]; etrans; [exact Hb|apply (fail_same _ _ _ w2)]|].
  destruct (v_ready env) as [e|]; [split; [by eexists|]; etrans; [exact Hb|apply (fail_same _ _ _ w2)]|].
  unfold publish, dns. destruct (taken_name_refused (pl_canonicalHostname plan) _ _ previewID (pv_requests w2) Hname Htaken) as [e He].
  destruct (EnsurePreviewHostname _ _ _ (pv_requests w2)) as [r t]. simpl in He. subst r. split; [by eexists|]. etrans; [exact Hb|]. apply (fail_same _ _ _ (set_requests t w2)).
Qed.
End Preview.

Definition plain_names : HostnameTables := {| strings_ToLower := fun s => s; idna_ToASCII := Some; EffectiveTLDPlusOne := Some |}.
(** A zone in which the name of the preview has a record of preview p-old. *)
Definition sample_api : CloudflareAPI :=
  {| api_token := None; api_zones := fun _ _ => Ok [mkZone "z" "example.com"];
     api_records := fun _ _ name => Ok [mkRecord "r" "A" name "192.0.2.1" true 1 (if bool_decide (name = "example.com") then "" else managedRecordCommentPrefix +:+ "p-old")];
     api_create := fun _ _ _ => Ok "new"; api_other := fun _ _ => None |}.
Definition sample_preview_env : PreviewEnv :=
  {| v_lease := None; v_desired := Ok (mkDesired true true "example.com" (Some 8080) (Ok ("{}", "h"))); v_domains := Ok []; v_covers := fun _ => true; v_growth := None;
     v_create := Ok "c2"; v_start := None; v_ready := None; v_routes := None; v_fault := fun _ => None; v_now := fun n => 100 + Z.of_nat n |}.
Definition sample_digest (s : string) : string := "0123456789abcdef".
(** Preview p-old of the tag is active, a new upload of the tag is imported. *)
Definition sample_previews : PreviewWorld :=
  mkPreviewWorld (run_ops (sample_upload ++
    [OpBeginPreview (mkBeginPreview "p-old" "svc" "pr-1" "r" "preview-0123456789ab.example.com" 80 "sha256:d" "oci-archive:/a/r" "h" "{}" 7 1000);
     OpActivatePreview "p-old" "" ["rec"] 8; OpComplete "u" "r" "" 9 1000 1000;
     OpBegin "u2" (sample_head "pr-1" "/tmp/u2") 1000; OpPart "u2" 0 100 2;
     OpCreate (mkCreateRevision "r2" "u2" "svc" "pr-1" Preview "/a/r2" sample_hash sample_identity 5 0); OpImported "r2" "u2" "sha256:e" "p-new" 6]) no_images)
    [] {[ "p-old" := "c1" ]} {[ "c1" ]}.
Lemma preview_not_replaced_witness :
  (exists e, (@DeployUploaded plain_names sample_api sample_digest sample_preview_env "svc" "p-new" "pr-1" "r2" "oci-archive:/a/r2" "sha256:e" sample_previews).1 = Err e)
  /\ (exists p, ActivePreviewDeployment "svc" "pr-1"
        (pv_images (@DeployUploaded plain_names sample_api sample_digest sample_preview_env "svc" "p-new" "pr-1" "r2" "oci-archive:/a/r2" "sha256:e" sample_previews).2) = Ok p
      /\ d_ID p = "p-old").
Proof.
  pose proof (@preview_not_replaced plain_names sample_api sample_digest sample_preview_env "svc" "p-new" "pr-1" "r2" "oci-archive:/a/r2" "sha256:e"
    (mkPlan (mkDesired true true "example.com" (Some 8080) (Ok ("{}", "h"))) "example.com" 8080 "example.com") "preview-0123456789ab.example.com" sample_previews) as Hp.
  destruct Hp as [H1 _].
  - reflexivity.
  - vm_compute. reflexivity.
  - intros t z l [= <-]. split; [done|]. intros r ->%list_elem_of_singleton. discriminate.
  - split; [exact H1|]. eexists. split; [vm_compute; reflexivity|reflexivity].
Defined.
