(* ===== verification/InternalDns.v ===== *)
(** * InternalDns: names of the platform's own zone

    internal/internaldns: the zone of .internal names, the view that answers queries
    from it or forwards them, and the cache in front of the upstream resolvers.  The
    DNS wire format is a library; packets are byte strings. *)

From Stdlib Require Import Ascii.
From S2P Require Import Prelude Names.

Definition internalSuffix : string := ".internal.".
Definition internalTTL : Z := 5.
Definition maxDNSMessageBytes : Z := 4096.
Definition maxCacheEntries : nat := 512.
Definition maxCacheTTL : Z := 30 * second.

Record DnsHeader := mkDnsHeader { hd_ID : Z; hd_Response : bool; hd_OpCode : Z; hd_RecursionDesired : bool }.
Record Question := mkQuestion { qn_Name : string; qn_Type : Z; qn_Class : Z }.
Definition TypeA : Z := 1.
Definition TypeALL : Z := 255.
Definition ClassINET : Z := 1.
Inductive RCode := RCodeSuccess | RCodeFormatError | RCodeServerFailure | RCodeNameError | RCodeRefused.
#[export] Instance RCode_eq_dec : EqDecision RCode.
Proof. solve_decision. Defined.
(** An IPv4 address as its number, or another one. *)
Inductive Addr := Addr4 (n : Z) | OtherAddr.

(** golang.org/x/net/dns/dnsmessage. *)
Class DnsLibrary := {
  NewName : string -> option string;
  parseHeader : bytes -> option DnsHeader;
  parseQuestions : bytes -> option (list Question);
  answerTTLs : bytes -> option (list Z)
}.

Section Dns.
Context `{HostnameTables} `{DnsLibrary}.

(** ** zone.go and name.go *)

Abbreviation Zone := (gmap string Z).

Definition canonicalInternalName (value : string) : result goerr string :=
  let value := strings_ToLower (trim_space value) in
  let value := if has_suffix "." value then value else value +:+ "." in
  if negb (has_suffix internalSuffix value) || bool_decide (value = "internal.") then Err (Msg "DNS name is outside .internal")
  else match NewName value with
       | None => Err (Msg "invalid internal DNS name")
       | Some name => Ok (strings_ToLower name)
       end.
Definition Set_ (name : string) (address : Addr) (zone : Zone) : result goerr Zone :=
  let? fqdn := canonicalInternalName name in
  match address with
  | Addr4 n => Ok (<[fqdn := n]> zone)
  | OtherAddr => Err (Msg "internal DNS record requires an IPv4 address")
  end.
Definition Delete (name : string) (zone : Zone) : result goerr Zone :=
  let? fqdn := canonicalInternalName name in Ok (delete fqdn zone).
(** In the order of iteration over the new records. *)
Fixpoint replaceFrom (records : list (string * Addr)) (canonical : Zone) : result goerr Zone :=
  match records with
  | [] => Ok canonical
  | (name, address) :: rest => let? canonical := Set_ name address canonical in replaceFrom rest canonical
  end.
Definition Replace (records : list (string * Addr)) (zone : Zone) : option goerr * Zone :=
  match replaceFrom records ∅ with Ok canonical => (None, canonical) | Err e => (Some e, zone) end.
Definition lookup_ (name : string) (zone : Zone) : option Z := zone !! strings_ToLower name.
Definition Lookup (name : string) (zone : Zone) : option Z :=
  match canonicalInternalName name with Ok fqdn => lookup_ fqdn zone | Err _ => None end.

Fixpoint last_dot (s : string) : option (string * string) :=
  match s with
  | EmptyString => None
  | String c s =>
      match last_dot s with
      | Some (a, b) => Some (String c a, b)
      | None => if Ascii.eqb c "." then Some (EmptyString, s) else None
      end
  end.
Definition ParseInternalName (value : string) : option (string * string) :=
  let value := trim_suffix "." (strings_ToLower (trim_space value)) in
  if negb (has_suffix ".internal" value) then None
  else match last_dot (trim_suffix ".internal" value) with
       | Some (resource, project) =>
           if bool_decide (resource = "") || bool_decide (project = "") || contains "." resource then None else Some (resource, project)
       | None => None
       end.

(** ** view.go *)

(** An authoritative answer: identifier and flags of the query, code, question if there
    was one, and the address with its TTL. *)
Record Answer := mkAnswer { an_ID : Z; an_OpCode : Z; an_RecursionDesired : bool; an_Code : RCode; an_Question : option Question; an_Address : option (Z * Z) }.
Inductive Reply := Refuse (e : goerr) | Local (a : Answer) | Forwarded (packet : bytes).
Definition responseFor (query : DnsHeader) (question : option Question) (code : RCode) (address : option Z) : Reply :=
  Local (mkAnswer (hd_ID query) (hd_OpCode query) (hd_RecursionDesired query) code question ((fun a => (a, internalTTL)) <$> address)).

(** [forward] and [remote] are the forwarder and the remote resolver, if there is one. *)
Definition Resolve (forward : bytes -> result goerr bytes) (remote : option (string -> result goerr (option Z))) (zone : Zone) (packet : bytes) : Reply :=
  if (blen packet <? 12) || (maxDNSMessageBytes <? blen packet) then Refuse (Msg "DNS query size is outside supported bounds")
  else match parseHeader packet with
  | None => Refuse (Msg "parse DNS query header")
  | Some header =>
      match parseQuestions packet with
      | Some [question] =>
          if hd_Response header || negb (hd_OpCode header =? 0) then responseFor header None RCodeFormatError None
          else
            let name := strings_ToLower (qn_Name question) in
            if negb (has_suffix internalSuffix name) && negb (bool_decide (name = "internal."))
            then match forward packet with Ok response => Forwarded response | Err _ => responseFor header (Some question) RCodeServerFailure None end
            else if negb (qn_Class question =? ClassINET) then responseFor header (Some question) RCodeRefused None
            else
              let local := lookup_ name zone in
              let found := match local, remote with
                           | None, Some resolve => resolve (trim_suffix "." name)
                           | _, _ => Ok local
                           end in
              match found with
              | Err _ => responseFor header (Some question) RCodeServerFailure None
              | Ok None => responseFor header (Some question) RCodeNameError None
              | Ok (Some address) =>
                  if negb (qn_Type question =? TypeA) && negb (qn_Type question =? TypeALL) then responseFor header (Some question) RCodeSuccess None
                  else responseFor header (Some question) RCodeSuccess (Some address)
              end
      | _ => responseFor header None RCodeFormatError None
      end
  end.

(** ** forward.go *)

Record cacheEntry := mkEntry { ce_packet : bytes; ce_expiresAt : Z }.
Abbreviation Cache := (gmap string cacheEntry).
(** The first two bytes are the identifier. *)
Definition with_id (identifier packet : bytes) : bytes := take 2 identifier ++ drop 2 packet.
Definition no_id : bytes := [ascii_of_N 0; ascii_of_N 0].
Definition cacheKey (query : bytes) : string := String.string_of_list_ascii (with_id no_id query).

Definition load (now : Z) (key : string) (identifier : bytes) (cache : Cache) : option bytes * Cache :=
  match cache !! key with
  | Some entry => if now <? ce_expiresAt entry then (Some (with_id identifier (ce_packet entry)), cache) else (None, delete key cache)
  | None => (None, delete key cache)
  end.
Definition live (now : Z) (cache : Cache) : Cache := filter (fun x => now < ce_expiresAt x.2) cache.
(** [order] decides which key the iteration over the map meets first. *)
Definition first_key (order : list string) (cache : Cache) : option string :=
  head (List.filter (fun k => bool_decide (is_Some (cache !! k))) order ++ (map_to_list cache).*1).
Definition store (now : Z) (order : list string) (key : string) (packet : bytes) (ttl : Z) (cache : Cache) : Cache :=
  let cache := live now cache in
  let cache := if (maxCacheEntries <=? size cache)%nat then match first_key order cache with Some k => delete k cache | None => cache end else cache in
  <[key := mkEntry (with_id no_id packet) (now + Z.min ttl maxCacheTTL)]> cache.

(** The least of the answers' TTLs, 0 if there is none or one is 0. *)
Definition responseTTL (packet : bytes) : Z :=
  match answerTTLs packet with
  | None | Some [] => 0
  | Some (ttl :: rest) => if existsb (fun t => t =? 0) (ttl :: rest) then 0 else foldr Z.min ttl rest * second
  end.
Definition validateUpstreamResponse (query response : bytes) : result goerr bytes :=
  match response, query with
  | r0 :: r1 :: r2 :: _, q0 :: q1 :: _ =>
      if (blen response <? 12) || negb (N.testbit (N_of_ascii r2) 7) || negb (Ascii.eqb r0 q0) || negb (Ascii.eqb r1 q1)
      then Err (Msg "upstream returned an invalid DNS response") else Ok response
  | _, _ => Err (Msg "upstream returned an invalid DNS response")
  end.
(** [udp] and [tcp] are what the upstream sends back. *)
Definition exchangeDNS (udp tcp : result goerr bytes) (query : bytes) : result goerr bytes :=
  let? packet := udp in
  let? response := validateUpstreamResponse query packet in
  match response with
  | _ :: _ :: b2 :: _ :: _ => if N.testbit (N_of_ascii b2) 1
                              then let? packet := tcp in
                                   if (blen packet <? 12) || (maxDNSMessageBytes <? blen packet) then Err (Msg "upstream TCP DNS response size is outside bounds")
                                   else validateUpstreamResponse query packet
                              else Ok response
  | _ => Ok response
  end.
(** The upstreams from [start] on, round the list. *)
Fixpoint tryUpstreams (exchange : nat -> result goerr bytes) (upstreams start offset fuel : nat) (failures : option goerr) : result goerr bytes :=
  match fuel with
  | O => Err (Wrap "all upstream DNS resolvers failed" (default (Msg "") failures))
  | S fuel =>
      match exchange ((start + offset) mod upstreams)%nat with
      | Ok response => Ok response
      | Err e => tryUpstreams exchange upstreams start (S offset) fuel (errors_Join failures (Some (Wrap "upstream" e)))
      end
  end.
(** [waited] is the end of the context while the query waits for one of the 64 slots,
    [loaded] and [stored] are the times of the two accesses, [next] the counter. *)
Definition ForwardResolve (waited : option goerr) (exchange : nat -> result goerr bytes) (upstreams next : nat) (loaded stored : Z) (order : list string) (query : bytes) (cache : Cache) : result goerr bytes * Cache :=
  if (blen query <? 12) || (maxDNSMessageBytes <? blen query) then (Err (Msg "forwarded DNS query size is outside supported bounds"), cache)
  else
    let key := cacheKey query in
    match load loaded key query cache with
    | (Some cached, cache) => (Ok cached, cache)
    | (None, cache) =>
        match waited, tryUpstreams exchange upstreams (next mod upstreams) 0 upstreams None with
        | Some e, _ | None, Err e => (Err e, cache)
        | None, Ok response => let ttl := responseTTL response in (Ok response, if 0 <? ttl then store stored order key response ttl cache else cache)
        end
    end.

(** The loop of NewForwardCache: unmapped IPv4 addresses with their port, once each. *)
Fixpoint canonicalUpstreams (blocked : list Z) (upstreams : list (Addr * Z)) (canonical : list (Z * Z)) : result goerr (list (Z * Z)) :=
  match upstreams with
  | [] => if bool_decide (canonical = []) then Err (Msg "internal DNS has no unique upstream resolvers") else Ok canonical
  | (OtherAddr, _) :: _ => Err (Msg "upstream DNS address is not IPv4")
  | (Addr4 address, port) :: rest =>
      if existsb (Z.eqb address) blocked then Err (Msg "upstream DNS address conflicts with a platform listener")
      else let upstream := (address, if port =? 0 then 53 else port) in
           canonicalUpstreams blocked rest (if bool_decide (upstream ∈ canonical) then canonical else canonical ++ [upstream])
  end.
Definition NewForwardCache (upstreams : list (Addr * Z)) (disallowed : list Z) : result goerr (list (Z * Z)) :=
  if bool_decide (upstreams = []) || (3 <? Z.of_nat (length upstreams)) then Err (Msg "internal DNS requires between one and three upstream resolvers")
  else canonicalUpstreams disallowed upstreams [].

(** ** Theorems *)

(** The last write to a name, over a sequence of changes of the zone. *)
Inductive ZoneOp := ZSet (name : string) (address : Addr) | ZDelete (name : string) | ZReplace (records : list (string * Addr)).
Definition run_zone (op : ZoneOp) (zone : Zone) : Zone :=
  match op with
  | ZSet name address => match Set_ name address zone with Ok z => z | Err _ => zone end
  | ZDelete name => match Delete name zone with Ok z => z | Err _ => zone end
  | ZReplace records => (Replace records zone).2
  end.
Definition names (fqdn name : string) : bool := match canonicalInternalName name with Ok n => bool_decide (n = fqdn) | Err _ => false end.
Definition record_of (address : Addr) : option Z := match address with Addr4 n => Some n | OtherAddr => None end.
(** What an operation says about a name: nothing, or its record from now on. *)
Definition says (fqdn : string) (op : ZoneOp) : option (option Z) :=
  match op with
  | ZSet name (Addr4 n) => if names fqdn name then Some (Some n) else None
  | ZSet _ OtherAddr => None
  | ZDelete name => if names fqdn name then Some None else None
  | ZReplace records => if forallb (fun x => is_ok (canonicalInternalName x.1) && bool_decide (is_Some (record_of x.2))) records
                        then Some (last (List.filter (fun x => names fqdn x.1) records) ≫= fun x => record_of x.2) else None
  end.
Lemma Set_lookup name n zone z fqdn : Set_ name (Addr4 n) zone = Ok z -> z !! fqdn = if names fqdn name then Some n else zone !! fqdn.
Proof.
  unfold Set_, names. destruct (canonicalInternalName name) as [c|]; [|done]. simpl. intros [= <-].
  case_bool_decide; [subst; by rewrite lookup_insert_eq|by rewrite lookup_insert_ne].
Qed.
Lemma replaceFrom_lookup records : forall zone z fqdn, replaceFrom records zone = Ok z ->
  z !! fqdn = match last (List.filter (fun x => names fqdn x.1) records) with Some x => record_of x.2 | None => zone !! fqdn end
  /\ forallb (fun x => is_ok (canonicalInternalName x.1) && bool_decide (is_Some (record_of x.2))) records = true.
Proof.
  induction records as [|[name a] rest IH]; intros zone z fqdn Hz; simpl in *; [by injection Hz as ->|].
  destruct (Set_ name a zone) as [z1|] eqn:Hs; [|done]. simpl in Hz. destruct (IH _ _ fqdn Hz) as [Hl Hok]. rewrite Hok, Hl.
  assert (is_ok (canonicalInternalName name) = true) as -> by (unfold Set_ in Hs; by destruct (canonicalInternalName name)).
  destruct a as [n|]; [|unfold Set_ in Hs; by destruct (canonicalInternalName name)].
  split; [|rewrite bool_decide_eq_true_2 by (by eexists); done]. rewrite (Set_lookup _ _ _ _ fqdn Hs).
  destruct (names fqdn name); [|done]. destruct (List.filter _ rest) as [|y l] eqn:E; [done|].
  change (last ((name, Addr4 n) :: y :: l)) with (last (y :: l)). destruct (last (y :: l)) eqn:El; [done|]. by apply last_None in El.
Qed.
Lemma replaceFrom_total records : forall zone,
  forallb (fun x => is_ok (canonicalInternalName x.1) && bool_decide (is_Some (record_of x.2))) records = true -> exists z, replaceFrom records zone = Ok z.
Proof.
  induction records as [|[name a] rest IH]; intros zone; simpl; [by eexists|]. intros [[Hn Ha%bool_decide_eq_true]%andb_true_iff Hr]%andb_true_iff.
  unfold Set_. destruct (canonicalInternalName name); [|done]. simpl. destruct a; [by apply IH|by destruct Ha].
Qed.

(** The zone after any changes holds for each name what the last change about it said. *)
Lemma zone_last_write ops : forall zone fqdn,
  fold_left (fun z op => run_zone op z) ops zone !! fqdn = default (zone !! fqdn) (last (omap (says fqdn) ops)).
Proof.
  assert (forall op zone fqdn, run_zone op zone !! fqdn = default (zone !! fqdn) (says fqdn op)) as Hone.
  { intros [name [n|]|name|records] zone fqdn; simpl.
    - destruct (Set_ name (Addr4 n) zone) eqn:Hs; [rewrite (Set_lookup _ _ _ _ fqdn Hs); by destruct (names fqdn name)|].
      unfold names. unfold Set_ in Hs. by destruct (canonicalInternalName name).
    - unfold Set_. by destruct (canonicalInternalName name).
    - unfold Delete, names. destruct (canonicalInternalName name) as [c|]; [|done]. simpl. case_bool_decide; [subst; by rewrite lookup_delete_eq|by rewrite lookup_delete_ne].
    - unfold Replace. destruct (replaceFrom records ∅) as [z|e] eqn:Hz.
      + simpl. destruct (replaceFrom_lookup _ _ _ fqdn Hz) as [Hl Hk]. rewrite Hl, Hk, lookup_empty. simpl. by destruct (last _).
      + destruct (forallb _ records) eqn:Hf; [|done]. destruct (replaceFrom_total records ∅ Hf) as [z Hz']. congruence. }
  induction ops as [|op ops IH]; intros zone fqdn; simpl; [done|]. rewrite IH, Hone. destruct (says fqdn op) as [v|]; [|done].
  simpl. rewrite last_cons. change (list_omap ZoneOp (option Z) (says fqdn) ops) with (omap (says fqdn) ops). by destruct (last (omap (says fqdn) ops)).
Qed.

(** Names of the platform's zone are answered here: no query for one reaches the
    forwarder, whatever else it says. *)
Definition internal_name (name : string) : bool := has_suffix internalSuffix (strings_ToLower name) || bool_decide (strings_ToLower name = "internal.").
Lemma internal_names_stay forward forward' remote zone packet questions :
  parseQuestions packet = Some questions -> (forall q, q ∈ questions -> internal_name (qn_Name q) = true) ->
  Resolve forward remote zone packet = Resolve forward' remote zone packet.
Proof.
  intros Hq Hin. unfold Resolve. case_match; [done|]. destruct (parseHeader packet); [|done]. rewrite Hq. destruct questions as [|q [|]]; [done| |done].
  case_match; [done|]. specialize (Hin q ltac:(left)). unfold internal_name in Hin. cbv zeta. rewrite <- negb_orb, Hin. done.
Qed.

(** *** The cache *)

Inductive CacheOp := CLoad (now : Z) (key : string) (identifier : bytes) | CStore (now : Z) (order : list string) (key : string) (packet : bytes) (ttl : Z).
Definition run_cache (op : CacheOp) (cache : Cache) : Cache :=
  match op with CLoad now key identifier => (load now key identifier cache).2 | CStore now order key packet ttl => store now order key packet ttl cache end.
(** Every entry was stored for its key, for at most its TTL and half a minute. *)
Definition cache_ok (ops : list CacheOp) (cache : Cache) : Prop :=
  (size cache <= maxCacheEntries)%nat /\
  forall key entry, cache !! key = Some entry -> exists now order packet ttl, CStore now order key packet ttl ∈ ops
    /\ ce_packet entry = with_id no_id packet /\ ce_expiresAt entry = now + Z.min ttl maxCacheTTL.
Lemma cache_ok_less ops cache cache' : cache' ⊆ cache -> cache_ok ops cache -> cache_ok ops cache'.
Proof.
  intros Hsub [Hs He]. split; [etrans; [by apply map_subseteq_size|done]|]. intros key entry Hk. apply He. by eapply lookup_weaken.
Qed.
Lemma cache_ok_more ops op cache : cache_ok ops cache -> cache_ok (ops ++ [op]) cache.
Proof. intros [Hs He]. split; [done|]. intros key entry Hk. destruct (He _ _ Hk) as (t & o & p & l & Hin & ?). exists t, o, p, l. split; [|done]. apply elem_of_app. by left. Qed.
Lemma first_key_some order (cache : Cache) : cache <> ∅ -> exists k, first_key order cache = Some k /\ is_Some (cache !! k).
Proof.
  intros Hne. unfold first_key. destruct (List.filter _ order) as [|k l] eqn:E.
  - destruct (map_to_list cache) as [|[k v] l] eqn:El; [by apply map_to_list_empty_iff in El|]. exists k. split; [done|]. exists v.
    apply elem_of_map_to_list. rewrite El. left.
  - exists k. split; [done|]. assert (In k (List.filter (fun k => bool_decide (is_Some (cache !! k))) order)) as Hk by (rewrite E; by left).
    apply List.filter_In in Hk as [_ Hk]. by apply bool_decide_eq_true in Hk.
Qed.
Lemma run_cache_ok op ops cache : cache_ok ops cache -> cache_ok (ops ++ [op]) (run_cache op cache).
Proof.
  intros Hok. destruct op as [now key identifier|now order key packet ttl]; simpl.
  - apply cache_ok_more. eapply cache_ok_less; [|done]. unfold load. repeat case_match; simpl; try done; apply delete_subseteq.
  - unfold store. assert (cache_ok (ops ++ [CStore now order key packet ttl]) (live now cache)) as Hl.
    { apply cache_ok_more. eapply cache_ok_less; [apply map_filter_subseteq|done]. }
    set (cache1 := if (maxCacheEntries <=? size (live now cache))%nat then _ else _).
    assert (cache1 ⊆ live now cache /\ (size cache1 < maxCacheEntries)%nat) as [Hsub Hsize].
    { unfold cache1. destruct (Nat.leb_spec maxCacheEntries (size (live now cache))) as [Hge|Hlt]; [|done].
      destruct (first_key_some order (live now cache)) as (k & -> & Hk); [intros E; rewrite E, map_size_empty in Hge; unfold maxCacheEntries in Hge; lia|].
      split; [apply delete_subseteq|]. destruct Hl as [Hle _]. rewrite map_size_delete_Some by done. unfold maxCacheEntries in *. lia. }
    destruct (cache_ok_less _ _ cache1 Hsub Hl) as [_ He]. split.
    + rewrite map_size_insert. destruct (cache1 !! key); unfold maxCacheEntries in *; simpl; lia.
    + intros k entry Hk. destruct (decide (k = key)) as [->|Hne].
      * rewrite lookup_insert_eq in Hk. injection Hk as <-. exists now, order, packet, ttl. split; [apply elem_of_app; right; left|done].
      * rewrite lookup_insert_ne in Hk by done. by apply He.
Qed.

(** The resolver cache in any interleaving of lookups and stores: it never has more
    than 512 entries, and an answer from it was stored for the same question (up to the
    identifier, which is replaced by the query's own), has not outlived its TTL and is
    not older than thirty seconds. *)
Theorem cache_bounded_fresh (ops : list CacheOp) (now : Z) (query answer : bytes) :
  let cache := fold_left (fun c op => run_cache op c) ops (∅ : Cache) in
  (size cache <= 512)%nat
  /\ ((load now (cacheKey query) query cache).1 = Some answer ->
      exists t order packet ttl, CStore t order (cacheKey query) packet ttl ∈ ops /\ answer = with_id query (with_id no_id packet)
        /\ now < t + ttl /\ now < t + 30 * second).
Proof.
  assert (forall l past c, cache_ok past c -> cache_ok (past ++ l) (fold_left (fun c op => run_cache op c) l c)) as Hall.
  { induction l as [|op l IH]; intros past c Hc; simpl; [by rewrite app_nil_r|]. change (op :: l) with ([op] ++ l). rewrite app_assoc. by apply IH, run_cache_ok. }
  destruct (Hall ops [] ∅) as [Hsize Hent]; [split; [rewrite map_size_empty; lia|intros k e Hk; by rewrite lookup_empty in Hk]|].
  simpl in Hent. intros cache. split; [done|]. unfold load. destruct (cache !! cacheKey query) as [entry|] eqn:Hc; [|done].
  destruct (Z.ltb_spec now (ce_expiresAt entry)) as [Hlt|]; [|done]. intros [= <-]. destruct (Hent _ _ Hc) as (t & o & p & l & Hin & Hp & He).
  exists t, o, p, l. rewrite Hp. unfold maxCacheTTL in He. split; [done|]. split; [done|]. lia.
Qed.
End Dns.
