(* ===== verification/PortForward.v ===== *)
(** * PortForward: tickets for forwarded ports

    internal/portforward (application.go, create.go): an administrator, or a run of
    GitHub Actions the resource trusts, gets a ticket for a port of a resource; with it
    connections are opened until it expires.  Tickets are objects that open sessions keep
    using after they are forgotten, so they live in a heap; every section under the mutex
    is one step. *)

From S2P Require Import Prelude Names ServiceConfig DeploymentStore Base64 ImageStore Oidc.

Definition DefaultLifetime : Z := hour.
Definition MaximumLifetime : Z := 8 * hour.
Definition MaximumTickets : nat := 1024.
Definition MaximumConnections : Z := 16.
Definition EndpointErrors : string := "errors".

Definition ErrInvalidInput : goerr := Sentinel "portforward.ErrInvalidInput" "invalid port forward input".
Definition ErrInvalidTicket : goerr := Sentinel "portforward.ErrInvalidTicket" "invalid or expired port forward ticket".
Definition ErrTicketCapacity : goerr := Sentinel "portforward.ErrTicketCapacity" "port forward ticket capacity reached".
Definition ErrConnectionLimit : goerr := Sentinel "portforward.ErrConnectionLimit" "port forward connection limit reached".
Definition ErrTargetUnavailable : goerr := Sentinel "portforward.ErrTargetUnavailable" "port forward target is unavailable".
Definition ErrOIDCUnauthorized : goerr := Sentinel "portforward.ErrOIDCUnauthorized" "port forward OIDC unauthorized".
Definition ErrAdminRequired : goerr := Sentinel "automation.ErrAdminRequired" "admin token is required".
Definition ErrProjectBoundary : goerr := Sentinel "automation.ErrProjectBoundary" "project is outside this token boundary".

(** ** Who may have a ticket *)

Record CreateInput := mkCreateInput { f_Project : string; f_Resource : string; f_Endpoint : string; f_Port : Z; f_LifetimeSeconds : Z }.
Record ResolvedProject := mkProject { j_ID : string; j_Name : string }.
Record ResolvedResource := mkResource { x_ID : string; x_Kind : string; x_Name : string; x_PortForward : option PortForward }.
Record Identity := mkAutomation { n_TokenID : string; n_Role : string; n_ProjectID : option string }.
(** What a ticket is for, and for how long. *)
Record Permit := mkPermit { t_Project : ResolvedProject; t_Resource : ResolvedResource; t_Endpoint : string; t_EndpointHost : string; t_Port : Z; t_Lifetime : Z; t_Actor : string }.
(** The answers of the repository and of the resolver of addresses. *)
Record ForwardEnv := mkForwardEnv {
  fe_project : string -> result goerr ResolvedProject;
  fe_resource : string -> string -> result goerr ResolvedResource;
  fe_address : string -> string -> string -> string -> Z -> option goerr
}.
Definition ServiceTelemetryPort : Z := 9001.

Definition validateCreateInput (input : CreateInput) : result goerr Z :=
  if negb (is_ok (validateResource (f_Project input))) || negb (is_ok (validateResource (f_Resource input))) then Err ErrInvalidInput
  else if bool_decide (f_Endpoint input = "") && ((f_Port input <? 1) || (65535 <? f_Port input)) then Err ErrInvalidInput
  else if bool_decide (f_Endpoint input = EndpointErrors) && negb (f_Port input =? 0) then Err ErrInvalidInput
  else if negb (bool_decide (f_Endpoint input = "")) && negb (bool_decide (f_Endpoint input = EndpointErrors)) then Err ErrInvalidInput
  else if f_LifetimeSeconds input =? 0 then Ok DefaultLifetime
  else if (f_LifetimeSeconds input <? minute / second) || (MaximumLifetime / second <? f_LifetimeSeconds input) then Err ErrInvalidInput
  else Ok (f_LifetimeSeconds input * second).
Definition resolveEndpoint (project : ResolvedProject) (resource : ResolvedResource) (input : CreateInput) : result goerr (Z * string) :=
  if bool_decide (f_Endpoint input = "") then Ok (f_Port input, "")
  else if negb (bool_decide (f_Endpoint input = EndpointErrors)) || negb (bool_decide (x_Kind resource = "service")) then Err ErrInvalidInput
  else Ok (ServiceTelemetryPort, "errors-" +:+ x_Name resource +:+ "." +:+ j_Name project +:+ ".internal").
Definition forwardable (kind : string) : bool := bool_decide (kind ∈ ["service"; "postgres"; "redis"; "object_store"]).

(** Project and resource of the input; [check] and [accept] are what the callers check in between. *)
Definition resolveTarget (env : ForwardEnv) (input : CreateInput) (check : ResolvedProject -> result goerr unit) (accept : ResolvedResource -> result goerr unit)
    : result goerr (ResolvedProject * ResolvedResource) :=
  let? project := fe_project env (f_Project input) in
  if bool_decide (j_ID project = "") || negb (bool_decide (j_Name project = f_Project input)) then Err (Msg "resolved port forward project is invalid")
  else
    let? _ := check project in
    let? resource := fe_resource env (j_ID project) (f_Resource input) in
    let? _ := accept resource in
    if bool_decide (x_ID resource = "") || negb (bool_decide (x_Name resource = f_Resource input)) then Err (Msg "resolved port forward resource is invalid")
    else Ok (project, resource).
Definition checkAddress (env : ForwardEnv) (project : ResolvedProject) (resource : ResolvedResource) (input : CreateInput) (port : Z) : result goerr unit :=
  match fe_address env (j_ID project) (x_Kind resource) (x_ID resource) (f_Endpoint input) port with Some _ => Err ErrTargetUnavailable | None => Ok tt end.

Definition Create (env : ForwardEnv) (identity : Identity) (input : CreateInput) : result goerr Permit :=
  if negb (bool_decide (n_Role identity = "admin")) then Err ErrAdminRequired
  else
    let? lifetime := validateCreateInput input in
    let? target := resolveTarget env input
      (fun project => if bool_decide (n_ProjectID identity = None) || bool_decide (n_ProjectID identity = Some (j_ID project)) then Ok tt else Err ErrProjectBoundary)
      (fun resource => if forwardable (x_Kind resource) then Ok tt else Err ErrInvalidInput) in
    let? endpoint := resolveEndpoint target.1 target.2 input in
    let? _ := checkAddress env target.1 target.2 input endpoint.1 in
    Ok (mkPermit target.1 target.2 (f_Endpoint input) endpoint.2 endpoint.1 lifetime (n_TokenID identity)).

(** The verifier of [Oidc] with the token and audience of the request: repository and
    workflows to the identity. *)
Definition Verify := string -> list string -> result goerr ImageUploadIdentity.
Definition CreateOIDC (env : ForwardEnv) (oidc : option Verify) (input : CreateInput) : result goerr Permit :=
  match oidc with
  | None => Err ErrOIDCUnauthorized
  | Some verify =>
  let? lifetime := validateCreateInput input in
  let? target := resolveTarget env input (fun _ => Ok tt)
    (fun resource => match forwardable (x_Kind resource), x_PortForward resource with
                     | true, Some f => if bool_decide (ForwardRepository f = "") then Err ErrOIDCUnauthorized else Ok tt
                     | _, _ => Err ErrOIDCUnauthorized
                     end) in
  let? endpoint := resolveEndpoint target.1 target.2 input in
  match x_PortForward target.2 with
  | None => Err ErrOIDCUnauthorized
  | Some f =>
      match verify (ForwardRepository f) (ForwardWorkflows f) with
      | Err _ => Err ErrOIDCUnauthorized
      | Ok identity =>
          let? _ := checkAddress env target.1 target.2 input endpoint.1 in
          let run := trim_space (id_RunID identity) in
          let actor := "oidc:" +:+ (if bool_decide (run = "") then trim_space (id_Repository identity) else run) in
          Ok (mkPermit target.1 target.2 (f_Endpoint input) endpoint.2 endpoint.1 lifetime actor)
      end
  end
  end.

(** ** Tickets *)

Record ticketState := mkTicket { ts_permit : Permit; ts_expiresAt : Z; ts_connections : Z }.
(** A session: its ticket, and whether it still holds its connection. *)
Record Session := mkSession { se_ticket : nat; se_held : bool }.
Record Forwards := mkForwards { tickets : gmap string nat; heap : gmap nat ticketState; sessions : gmap nat Session }.
Definition NewForwards : Forwards := mkForwards ∅ ∅ ∅.

(** Tickets by the hash of their text. *)
Definition expires (h : gmap nat ticketState) (loc : nat) : Z := match h !! loc with Some t => ts_expiresAt t | None => 0 end.
Definition removeExpired (now : Z) (s : Forwards) : Forwards :=
  mkForwards (filter (fun x => now < expires (heap s) x.2) (tickets s)) (heap s) (sessions s).
Definition connect (d : Z) (t : ticketState) : ticketState := mkTicket (ts_permit t) (ts_expiresAt t) (ts_connections t + d).

(** issueTicket up to its audit record. *)
Definition issueTicket (permit : Permit) (hash : string) (created : Z) (s : Forwards) : result goerr nat * Forwards :=
  let s := removeExpired created s in
  if (MaximumTickets <=? size (tickets s))%nat then (Err ErrTicketCapacity, s)
  else let loc := fresh (dom (heap s)) in
       (Ok loc, mkForwards (<[hash := loc]> (tickets s)) (<[loc := mkTicket permit (created + t_Lifetime permit) 0]> (heap s)) (sessions s)).
(** When the audit record fails. *)
Definition revoke (hash : string) (loc : nat) (s : Forwards) : Forwards :=
  if bool_decide (tickets s !! hash = Some loc) then mkForwards (delete hash (tickets s)) (heap s) (sessions s) else s.
(** Acquire up to the resolution of the target; [hash] is that of the ticket. *)
Definition acquire (ticket hash : string) (now : Z) (s : Forwards) : result goerr nat * Forwards :=
  if zlen ticket <? 5 then (Err ErrInvalidTicket, s)
  else
    let s := removeExpired now s in
    match tickets s !! hash with
    | None => (Err ErrInvalidTicket, s)
    | Some loc =>
        match heap s !! loc with
        | None => (Err ErrInvalidTicket, s)
        | Some t =>
            if MaximumConnections <=? ts_connections t then (Err ErrConnectionLimit, s)
            else let sid := fresh (dom (sessions s)) in
                 (Ok sid, mkForwards (tickets s) (<[loc := connect 1 t]> (heap s)) (<[sid := mkSession loc true]> (sessions s)))
        end
    end.
(** [release] of a session that holds its connection: its target was not resolved, or
    Release, which acts once. *)
Definition release (sid : nat) (s : Forwards) : Forwards :=
  match sessions s !! sid with
  | Some (mkSession loc true) =>
      match heap s !! loc with
      | Some t => mkForwards (tickets s) (if 0 <? ts_connections t then <[loc := connect (-1) t]> (heap s) else heap s) (<[sid := mkSession loc false]> (sessions s))
      | None => s
      end
  | _ => s
  end.

(** ** Runs *)

Inductive FwStep :=
| SIssue (permit : Permit) (hash : string) (created : Z)
| SRevoke (hash : string) (loc : nat)
| SAcquire (ticket hash : string) (now : Z)
| SRelease (sid : nat).
Definition run_step (step : FwStep) (s : Forwards) : Forwards :=
  match step with
  | SIssue permit hash created => (issueTicket permit hash created s).2
  | SRevoke hash loc => revoke hash loc s
  | SAcquire ticket hash now => (acquire ticket hash now s).2
  | SRelease sid => release sid s
  end.
Definition run_steps (steps : list FwStep) (s : Forwards) : Forwards := fold_left (fun s step => run_step step s) steps s.

(** The sessions that hold a connection of a ticket. *)
Definition holds (loc : nat) (x : nat * Session) : Prop := se_ticket x.2 = loc /\ se_held x.2 = true.
#[export] Instance holds_dec loc x : Decision (holds loc x).
Proof. unfold holds. apply _. Defined.
Definition held (loc : nat) (m : gmap nat Session) : Z := Z.of_nat (size (filter (holds loc) m)).

Lemma held_begin loc l sid m : m !! sid = None -> held loc (<[sid := mkSession l true]> m) = held loc m + (if decide (l = loc) then 1 else 0).
Proof.
  intros Hm. unfold held. rewrite map_filter_insert. case_decide as Hh; destruct (decide (l = loc)) as [E|E]; try (by destruct Hh); try (by destruct E).
  - rewrite map_size_insert_None; [lia|]. apply map_lookup_filter_None. by left.
  - rewrite delete_id by done. lia.
Qed.
Lemma held_end loc l sid m : m !! sid = Some (mkSession l true) -> held loc (<[sid := mkSession l false]> m) = held loc m - (if decide (l = loc) then 1 else 0).
Proof.
  intros Hm. unfold held. rewrite map_filter_insert_False by (intros [_ ?]; done). rewrite map_filter_delete.
  destruct (decide (l = loc)) as [E|E].
  - assert (is_Some (filter (holds loc) m !! sid)) as Hs by (exists (mkSession l true); by apply map_lookup_filter_Some).
    rewrite map_size_delete_Some by done. assert (size (filter (holds loc) m) <> 0%nat); [|lia].
    intros H0. apply map_size_empty_inv in H0. rewrite H0, lookup_empty in Hs. by destruct Hs.
  - rewrite delete_id; [lia|]. apply map_lookup_filter_None. right. intros x Hx. rewrite Hm in Hx. injection Hx as <-. intros [? _]. done.
Qed.
Lemma held_nonneg loc m : 0 <= held loc m.
Proof. unfold held. lia. Qed.

(** What a ticket was issued as. *)
Definition issued (steps : list FwStep) (hash : string) (t : ticketState) : Prop :=
  exists permit created, SIssue permit hash created ∈ steps /\ ts_permit t = permit /\ ts_expiresAt t = created + t_Lifetime permit.
Record forwards_ok (steps : list FwStep) (s : Forwards) : Prop := {
  fw_size : (size (tickets s) <= MaximumTickets)%nat;
  fw_tickets : forall hash loc, tickets s !! hash = Some loc -> exists t, heap s !! loc = Some t /\ issued steps hash t;
  fw_sessions : forall sid x, sessions s !! sid = Some x -> is_Some (heap s !! se_ticket x);
  fw_count : forall loc t, heap s !! loc = Some t -> ts_connections t = held loc (sessions s) /\ ts_connections t <= MaximumConnections
}.

Lemma forwards_fewer steps s m : m ⊆ tickets s -> forwards_ok steps s -> forwards_ok steps (mkForwards m (heap s) (sessions s)).
Proof.
  intros Hsub [F1 F2 F3 F4]. split; simpl; [etrans; [by apply map_subseteq_size|done]| |done|done].
  intros hash loc Hl. apply F2. by eapply lookup_weaken.
Qed.
Lemma forwards_more steps step s : forwards_ok steps s -> forwards_ok (steps ++ [step]) s.
Proof.
  intros [F1 F2 F3 F4]. split; try done. intros hash loc Hl. destruct (F2 _ _ Hl) as (t & Ht & (p & c & Hin & ?)). exists t. split; [done|].
  exists p, c. split; [|done]. apply elem_of_app. by left.
Qed.
Lemma removeExpired_ok steps now s : forwards_ok steps s -> forwards_ok steps (removeExpired now s).
Proof. apply forwards_fewer, map_filter_subseteq. Qed.
(** Changing the number of connections of a ticket to that of its sessions. *)
Lemma forwards_connect steps s loc t d m : heap s !! loc = Some t -> forwards_ok steps s -> 
  (forall sid x, m !! sid = Some x -> is_Some (heap s !! se_ticket x)) -> ts_connections t + d <= MaximumConnections ->
  (forall l, held l m = held l (sessions s) + (if decide (loc = l) then d else 0)) ->
  forwards_ok steps (mkForwards (tickets s) (<[loc := connect d t]> (heap s)) m).
Proof.
  intros Ht [F1 F2 F3 F4] Hm Hmax Hcount. split; simpl; [done| | |].
  - intros hash l Hl. destruct (F2 _ _ Hl) as (t' & Ht' & Hi). destruct (decide (l = loc)) as [->|Hne].
    + rewrite lookup_insert_eq. exists (connect d t). split; [done|]. rewrite Ht in Ht'. injection Ht' as <-. exact Hi.
    + rewrite lookup_insert_ne by done. eauto.
  - intros sid x Hx. apply lookup_insert_is_Some'. right. by eapply Hm.
  - intros l t' Hl. rewrite Hcount. destruct (decide (loc = l)) as [<-|Hne].
    + rewrite lookup_insert_eq in Hl. injection Hl as <-. simpl. destruct (F4 _ _ Ht) as [-> _]. split; [done|]. by destruct (F4 _ _ Ht) as [<- _].
    + rewrite lookup_insert_ne in Hl by done. rewrite Z.add_0_r. by apply F4.
Qed.

Lemma run_step_ok step steps s : forwards_ok steps s -> forwards_ok (steps ++ [step]) (run_step step s).
Proof.
  intros Hok. apply (forwards_more steps step) in Hok. destruct step as [permit hash created|hash loc|ticket hash now|sid]; simpl.
  - unfold issueTicket. apply (removeExpired_ok _ created) in Hok. set (s1 := removeExpired created s) in *. clearbody s1.
    destruct (Nat.leb_spec MaximumTickets (size (tickets s1))) as [|Hlt]; simpl; [done|]. set (loc := fresh (dom (heap s1))).
    assert (heap s1 !! loc = None) as Hnew by (apply not_elem_of_dom, is_fresh). destruct Hok as [F1 F2 F3 F4]. split; simpl.
    + rewrite map_size_insert. destruct (tickets s1 !! hash); unfold MaximumTickets in *; simpl; lia.
    + intros hash' l. destruct (decide (hash' = hash)) as [->|Hne].
      * rewrite lookup_insert_eq. intros [= <-]. rewrite lookup_insert_eq. eexists. split; [done|]. exists permit, created. split; [|done]. apply elem_of_app. right. left.
      * rewrite lookup_insert_ne by done. intros Hl. destruct (F2 _ _ Hl) as (t & Ht & Hi). exists t. split; [|done]. rewrite lookup_insert_ne; [done|]. intros ->. congruence.
    + intros sid x Hx. apply lookup_insert_is_Some'. right. by eapply F3.
    + intros l t. destruct (decide (l = loc)) as [->|Hne]; [|rewrite lookup_insert_ne by done; apply F4]. rewrite lookup_insert_eq. intros [= <-]. simpl.
      split; [|unfold MaximumConnections; lia]. unfold held. assert (filter (holds loc) (sessions s1) = ∅) as ->; [|done].
      apply map_empty. intros sid. apply map_lookup_filter_None. right. intros x Hx [Hl _]. simpl in Hl.
      destruct (F3 _ _ Hx) as [t Ht]. rewrite Hl in Ht. congruence.
  - unfold revoke. case_bool_decide; [|done]. apply forwards_fewer; [apply delete_subseteq|done].
  - unfold acquire. case_match; [done|]. apply (removeExpired_ok _ now) in Hok. set (s1 := removeExpired now s) in *. clearbody s1.
    destruct (tickets s1 !! hash) as [loc|]; simpl; [|done]. destruct (heap s1 !! loc) as [t|] eqn:Ht; simpl; [|done].
    destruct (Z.leb_spec MaximumConnections (ts_connections t)) as [|Hlt]; simpl; [done|]. set (sid := fresh (dom (sessions s1))).
    assert (sessions s1 !! sid = None) as Hnew by (apply not_elem_of_dom, is_fresh). apply forwards_connect; [done|done| |lia|].
    + intros sid' x. destruct (decide (sid' = sid)) as [->|Hne]; [rewrite lookup_insert_eq; intros [= <-]; simpl; by eexists|].
      rewrite lookup_insert_ne by done. apply (fw_sessions _ _ Hok).
    + intros l. rewrite held_begin by done. by destruct (decide (loc = l)).
  - unfold release. destruct (sessions s !! sid) as [[loc []]|] eqn:Hs; [|done|done]. destruct (heap s !! loc) as [t|] eqn:Ht; [|done].
    destruct (fw_count _ _ Hok _ _ Ht) as [Hc Hle].
    assert (1 <= held loc (sessions s)) as Hpos.
    { pose proof (held_end loc loc sid (sessions s) Hs) as He. rewrite decide_True in He by done. pose proof (held_nonneg loc (<[sid:=mkSession loc false]> (sessions s))). lia. }
    rewrite (proj2 (Z.ltb_lt _ _)) by lia. apply forwards_connect; [done|done| |lia|].
    + intros sid' x. destruct (decide (sid' = sid)) as [->|Hne]; [rewrite lookup_insert_eq; intros [= <-]; simpl; by eexists|].
      rewrite lookup_insert_ne by done. apply (fw_sessions _ _ Hok).
    + intros l. rewrite (held_end l loc sid) by done. destruct (decide (loc = l)); lia.
Qed.
Lemma run_steps_ok steps : forwards_ok steps (run_steps steps NewForwards).
Proof.
  assert (forall l past s, forwards_ok past s -> forwards_ok (past ++ l) (run_steps l s)) as Hall.
  { induction l as [|step l IH]; intros past s Hs; simpl; [by rewrite app_nil_r|]. change (step :: l) with ([step] ++ l). rewrite app_assoc. by apply IH, run_step_ok. }
  apply (Hall steps []). split; simpl; [rewrite map_size_empty; unfold MaximumTickets; lia|..]; intros ??; by rewrite lookup_empty.
Qed.

(** The identities that authenticated callers have, and the verifiers that requests with a
    token are checked by. *)
Section Callers.
Variables (callers : Identity -> Prop) (verifiers : Verify -> Prop).
(** The permits that Create or CreateOIDC give. *)
Definition permitted (permit : Permit) : Prop :=
  (exists env identity input, callers identity /\ Create env identity input = Ok permit)
  \/ (exists env verify input, verifiers verify /\ CreateOIDC env (Some verify) input = Ok permit).
Lemma validate_lifetime input lifetime : validateCreateInput input = Ok lifetime -> lifetime <= MaximumLifetime.
Proof.
  unfold validateCreateInput. repeat (case_match; try done); intros [= <-]; [unfold DefaultLifetime, MaximumLifetime, hour, minute, second; lia|].
  match goal with Hb : _ || _ = false |- _ => apply orb_false_iff in Hb as [_ Hb%Z.ltb_ge]; change (MaximumLifetime / second) with 28800 in Hb end.
  unfold MaximumLifetime, hour, minute, second in *. lia.
Qed.
Lemma rbind_inv {A B} (m : result goerr A) (k : A -> result goerr B) b : rbind m k = Ok b -> exists a, m = Ok a /\ k a = Ok b.
Proof. destruct m; [by eauto|done]. Qed.
Lemma permitted_lifetime permit : permitted permit -> t_Lifetime permit <= MaximumLifetime.
Proof.
  intros [(env & identity & input & Hwho & H)|(env & verify & input & Hwho & H)].
  - unfold Create in H. case_match; [done|]. apply rbind_inv in H as (lifetime & Hl & H). apply rbind_inv in H as (target & _ & H).
    apply rbind_inv in H as (port & _ & H). apply rbind_inv in H as (u & _ & [= <-]). by apply validate_lifetime in Hl.
  - unfold CreateOIDC in H. apply rbind_inv in H as (lifetime & Hl & H). apply rbind_inv in H as (target & _ & H).
    apply rbind_inv in H as (port & _ & H). destruct (x_PortForward target.2); [|done]. destruct (verify _ _); [|done].
    apply rbind_inv in H as (u & _ & [= <-]). by apply validate_lifetime in Hl.
Qed.

(** An administrator of the project, or a verified token of the repository the resource trusts. *)
Definition authorised (permit : Permit) : Prop :=
  (exists identity, callers identity /\ n_Role identity = "admin" /\ t_Actor permit = n_TokenID identity
     /\ (n_ProjectID identity = None \/ n_ProjectID identity = Some (j_ID (t_Project permit))))
  \/ (exists f verify identity, verifiers verify /\ x_PortForward (t_Resource permit) = Some f /\ ForwardRepository f <> ""
     /\ verify (ForwardRepository f) (ForwardWorkflows f) = Ok identity).
Lemma resolveTarget_checked env input check accept project resource : resolveTarget env input check accept = Ok (project, resource) ->
  check project = Ok tt /\ accept resource = Ok tt.
Proof.
  intros H. unfold resolveTarget in H. apply rbind_inv in H as (p & _ & H). case_match; [done|]. apply rbind_inv in H as ([] & Hc & H).
  apply rbind_inv in H as (r & _ & H). apply rbind_inv in H as ([] & Ha & H). case_match; [done|]. by injection H as <- <-.
Qed.
Lemma permitted_authorised permit : permitted permit -> authorised permit.
Proof.
  intros [(env & identity & input & Hwho & H)|(env & verify & input & Hwho & H)].
  - left. exists identity. unfold Create in H. case_bool_decide as Hrole; [|done]. simpl in H. apply rbind_inv in H as (lifetime & _ & H).
    apply rbind_inv in H as ([project resource] & Ht & H). apply rbind_inv in H as (port & _ & H). apply rbind_inv in H as (u & _ & [= <-]).
    split; [done|]. split; [done|]. split; [done|]. apply resolveTarget_checked in Ht as [Hc _]. simpl. case_match eqn:Hb; [|done].
    apply orb_true_iff in Hb as [Hb%bool_decide_eq_true|Hb%bool_decide_eq_true]; auto.
  - right. unfold CreateOIDC in H. apply rbind_inv in H as (lifetime & _ & H). apply rbind_inv in H as ([project resource] & Ht & H).
    apply rbind_inv in H as (port & _ & H). simpl in H. apply resolveTarget_checked in Ht as [_ Ha]. destruct (x_PortForward resource) as [f|] eqn:Hf; [|done].
    destruct (verify _ _) as [identity|] eqn:Hv; [|done]. apply rbind_inv in H as (u & _ & [= <-]). simpl. exists f, verify, identity. split; [done|]. split; [done|]. split; [|done].
    destruct (forwardable (x_Kind resource)); [|done]. by case_bool_decide.
Qed.

End Callers.

(** C22. Forwarded ports: in every interleaving of issuing, failed audits, connecting and
    releasing, at most 1024 tickets exist and every ticket has at most 16 connections, as
    many as sessions that were not released; and a session opens only with a ticket that
    was issued at most eight hours ago, has not expired, and was asked for by an
    administrator of its project or with a token that verifies for the repository and
    workflows its resource trusts. *)
Theorem forwards_bounded (callers : Identity -> Prop) (verifiers : Verify -> Prop) (steps : list FwStep) :
  (forall permit hash created, SIssue permit hash created ∈ steps -> permitted callers verifiers permit) ->
  let s := run_steps steps NewForwards in
  (size (tickets s) <= 1024)%nat
  /\ (forall loc t, heap s !! loc = Some t -> ts_connections t = held loc (sessions s) /\ ts_connections t <= 16)
  /\ (forall ticket hash now sid s', acquire ticket hash now s = (Ok sid, s') ->
      exists permit created, SIssue permit hash created ∈ steps /\ authorised callers verifiers permit /\ now < created + t_Lifetime permit <= created + 8 * hour
        /\ exists loc t, sessions s' !! sid = Some (mkSession loc true) /\ heap s' !! loc = Some t /\ ts_permit t = permit).
Proof.
  intros Hperm s. destruct (run_steps_ok steps) as [F1 F2 F3 F4]. fold s in F1, F2, F3, F4. split; [done|]. split; [done|].
  intros ticket hash now sid s' Ha. unfold acquire in Ha. case_match; [done|]. simpl in Ha.
  destruct (filter _ (tickets s) !! hash) as [loc|] eqn:Hl; [|done]. destruct (heap s !! loc) as [t|] eqn:Ht; [|done]. case_match; [done|]. injection Ha as <- <-.
  apply map_lookup_filter_Some in Hl as [Hl Hexp]. destruct (F2 _ _ Hl) as (t' & Ht' & (permit & created & Hin & Hp & He)). rewrite Ht in Ht'. injection Ht' as <-.
  unfold expires in Hexp. simpl in Hexp. rewrite Ht, He in Hexp. exists permit, created. specialize (Hperm _ _ _ Hin).
  pose proof (permitted_lifetime _ _ _ Hperm) as Hlife. unfold MaximumLifetime in Hlife. split; [done|]. split; [by apply permitted_authorised|]. split; [lia|].
  exists loc, (connect 1 t). simpl. by rewrite !lookup_insert_eq.
Qed.

Definition sample_permit_env : ForwardEnv :=
  {| fe_project := fun name => Ok (mkProject "p1" name); fe_resource := fun _ name => Ok (mkResource "r1" "postgres" name None); fe_address := fun _ _ _ _ _ => None |}.
Definition sample_permit : Permit := mkPermit (mkProject "p1" "shop") (mkResource "r1" "postgres" "db" None) "" "" 5432 hour "token".
Definition sample_steps : list FwStep := [SIssue sample_permit "h" 0; SAcquire "pft_x" "h" minute; SAcquire "pft_x" "h" minute; SRelease 0; SRelease 0].
Definition sample_callers (identity : Identity) : Prop := identity = mkAutomation "token" "admin" None.
Lemma forwards_bounded_witness : exists sid s' loc t, acquire "pft_x" "h" (2 * minute) (run_steps sample_steps NewForwards) = (Ok sid, s')
  /\ heap s' !! loc = Some t /\ ts_connections t = 2 /\ authorised sample_callers (fun _ => False) (ts_permit t).
Proof.
  assert (forall permit hash created, SIssue permit hash created ∈ sample_steps -> permitted sample_callers (fun _ => False) permit) as Hp.
  { intros permit hash created Hin. unfold sample_steps in Hin. repeat (apply elem_of_cons in Hin as [E|Hin]; [try discriminate E|]); [|by apply not_elem_of_nil in Hin].
    injection E as -> _ _. left. exists sample_permit_env, (mkAutomation "token" "admin" None), (mkCreateInput "shop" "db" "" 5432 0). split; [reflexivity|]. vm_compute. reflexivity. }
  destruct (forwards_bounded sample_callers (fun _ => False) sample_steps Hp) as (_ & _ & Ha).
  destruct (acquire "pft_x" "h" (2 * minute) (run_steps sample_steps NewForwards)) as [[sid|e] s'] eqn:E; [|vm_compute in E; discriminate E].
  destruct (Ha _ _ _ _ _ E) as (permit & created & _ & Hauth & _ & loc & t & Hs & Ht & Hpt). exists sid, s', loc, t. split; [reflexivity|]. split; [exact Ht|].
  split; [|by rewrite Hpt]. vm_compute in E. injection E as <- <-. vm_compute in Hs. injection Hs as <-. vm_compute in Ht. by injection Ht as <-.
Defined.
