(* ===== verification/HostStore.v ===== *)
(** * HostStore: child hosts and how they join

    [internal/state/hosts.go], the tokens of [internal/hosttoken] and the join request of
    [internal/hosthub/join.go].  A table is a finite map from its primary key, [host_of]
    the column host_id of the services.  The join request reads the token and consumes
    it in two transactions, with those of others in between. *)

From Stdlib Require Import Ascii.
From S2P Require Import Prelude Names ServiceConfig DeploymentStore Base64 Authentication.

(** SHA-256. *)
Class HostLibrary := { sha256 : string -> string }.

(** ** Tables *)

Record HostRow := mkHost {
  h_name : string; h_ipv4 : option string; h_hmac : string; h_seen : option Z; h_joined : Z; h_created : Z; h_updated : Z
}.
Record HostJoinToken := mkJoinToken { k_name : string; k_hmac : string; k_expires : Z; k_consumed : option Z; k_created : Z }.
Record HostDB := mkHostDB { hosts : gmap string HostRow; join_tokens : gmap string HostJoinToken; audits : gset string; host_of : gmap string string }.
Definition set_hosts (f : gmap string HostRow -> gmap string HostRow) (db : HostDB) : HostDB := mkHostDB (f (hosts db)) (join_tokens db) (audits db) (host_of db).
Definition set_join_tokens (f : gmap string HostJoinToken -> gmap string HostJoinToken) (db : HostDB) : HostDB :=
  mkHostDB (hosts db) (f (join_tokens db)) (audits db) (host_of db).

Definition ErrHostNotFound : goerr := Sentinel "ErrHostNotFound" "host not found".
Definition ErrHostNameConflict : goerr := Sentinel "ErrHostNameConflict" "host name already exists".
Definition ErrHostHasServices : goerr := Sentinel "ErrHostHasServices" "host still has assigned services".
Definition ErrJoinTokenNotFound : goerr := Sentinel "ErrJoinTokenNotFound" "host join token not found".
Definition ErrJoinTokenExpired : goerr := Sentinel "ErrJoinTokenExpired" "host join token expired".
Definition ErrJoinTokenConsumed : goerr := Sentinel "ErrJoinTokenConsumed" "host join token already used".
Definition ErrInvalidPublicIPv4 : goerr := Sentinel "ErrInvalidPublicIPv4" "public IPv4 address is invalid".

(** The single writer's transaction, as [Write] of the deployment store. *)
Definition WriteHosts (fault : TxFault) (action : HostDB -> result goerr HostDB) (db : HostDB) : result goerr unit * HostDB :=
  match begin_fault fault, action db, commit_fault fault, lost_ack fault with
  | Some e, _, _, _ | None, Err e, _, _ => (Err e, db)
  | None, Ok _, Some e, _ => (Err (Wrap "commit state transaction" e), db)
  | None, Ok db', None, Some e => (Err e, db')
  | None, Ok db', None, None => (Ok tt, db')
  end.
Definition insertHostAudit (id : string) (db : HostDB) : result goerr HostDB :=
  if bool_decide (id ∈ audits db) then Err (Wrap "audit" (Msg "UNIQUE constraint")) else Ok (mkHostDB (hosts db) (join_tokens db) ({[ id ]} ∪ audits db) (host_of db)).

(** The addresses a host can have: not unspecified, loopback, multicast or link-local. *)
Definition ValidatePublicIPv4 (value : string) : option goerr :=
  let fields := map (dec_value 0) (split dot value) in
  if negb (is_ipv4 value) || forallb (Z.eqb 0) fields || (nth 0 fields 0 =? 127) || ((224 <=? nth 0 fields 0) && (nth 0 fields 0 <=? 239))
     || ((nth 0 fields 0 =? 169) && (nth 1 fields 0 =? 254))
  then Some ErrInvalidPublicIPv4 else None.

(** ** Operations of the store *)

Record CreateJoin := mkCreateJoin { c_ID : string; c_Name : string; c_HMAC : string; c_Expires : Z; c_Audit : string; c_Actor : string; c_Created : Z }.
Definition CreateHostJoinToken (fault : TxFault) (i : CreateJoin) (db : HostDB) : result goerr unit * HostDB :=
  if bool_decide (c_ID i = "") || bool_decide (c_Audit i = "") || bool_decide (c_Actor i = "") || (c_Created i <=? 0) || (c_Expires i <=? c_Created i)
     || negb (zlen (c_HMAC i) =? 32)
  then (Err (Msg "create host join token input is incomplete"), db)
  else if negb (is_ok (validateResource (c_Name i))) then (Err (Msg "invalid resource name"), db)
  else WriteHosts fault (fun db =>
    match join_tokens db !! c_ID i with
    | Some _ => Err (Wrap "create host join token" (Msg "UNIQUE constraint"))
    | None => insertHostAudit (c_Audit i) (set_join_tokens (insert (c_ID i) (mkJoinToken (c_Name i) (c_HMAC i) (c_Expires i) None (c_Created i))) db)
    end) db.

Record ConsumeJoin := mkConsumeJoin { o_Token : string; o_Host : string; o_Audit : string; o_Name : string; o_IPv4 : string; o_HMAC : string; o_At : Z }.
Definition name_taken (name : string) (db : HostDB) : bool := existsb (fun x => bool_decide (h_name x.2 = name)) (map_to_list (hosts db)).
(** [reread] is the error of reading the new host back, after the commit. *)
Definition ConsumeHostJoinToken (fault : TxFault) (reread : option goerr) (i : ConsumeJoin) (db : HostDB) : result goerr HostRow * HostDB :=
  if bool_decide (o_Token i = "") || bool_decide (o_Host i = "") || bool_decide (o_Audit i = "") || (o_At i <=? 0) || negb (zlen (o_HMAC i) =? 32)
  then (Err (Msg "consume host join token input is incomplete"), db)
  else if negb (bool_decide (o_Name i = "")) && negb (is_ok (validateResource (o_Name i))) then (Err (Msg "invalid resource name"), db)
  else match ValidatePublicIPv4 (o_IPv4 i) with
  | Some e => (Err e, db)
  | None =>
    let '(r, db) := WriteHosts fault (fun db =>
      match join_tokens db !! o_Token i with
      | None => Err ErrJoinTokenNotFound
      | Some k =>
          if bool_decide (is_Some (k_consumed k)) then Err ErrJoinTokenConsumed
          else if k_expires k <? o_At i then Err ErrJoinTokenExpired
          else
            let name := if bool_decide (o_Name i = "") then k_name k else o_Name i in
            if negb (is_ok (validateResource name)) then Err (Msg "invalid resource name")
            else
              let db := set_join_tokens (insert (o_Token i) (mkJoinToken (k_name k) (k_hmac k) (k_expires k) (Some (o_At i)) (k_created k))) db in
              if bool_decide (is_Some (hosts db !! o_Host i)) || name_taken name db then Err ErrHostNameConflict
              else insertHostAudit (o_Audit i) (set_hosts (insert (o_Host i) (mkHost name (Some (o_IPv4 i)) (o_HMAC i) (Some (o_At i)) (o_At i) (o_At i) (o_At i))) db)
      end) db in
    (match r, reread with
     | Err e, _ | Ok _, Some e => Err e
     | Ok _, None => from_option Ok (Err ErrHostNotFound) (hosts db !! o_Host i)
     end, db)
  end.

Record HostRuntime := mkRuntime { u_ID : string; u_IPv4 : string; u_Seen : Z; u_Updated : Z }.
Definition UpdateHostRuntime (fault : TxFault) (i : HostRuntime) (db : HostDB) : result goerr unit * HostDB :=
  if bool_decide (u_ID i = "") || (u_Seen i <=? 0) || (u_Updated i <=? 0) then (Err (Msg "update host runtime input is incomplete"), db)
  else match (if bool_decide (u_IPv4 i = "") then None else ValidatePublicIPv4 (u_IPv4 i)) with
  | Some e => (Err e, db)
  | None => WriteHosts fault (fun db =>
      match hosts db !! u_ID i with
      | None => Err ErrHostNotFound
      | Some h => Ok (set_hosts (insert (u_ID i) (mkHost (h_name h) (match nullableString (u_IPv4 i) with Some a => Some a | None => h_ipv4 h end)
                        (h_hmac h) (Some (u_Seen i)) (h_joined h) (h_created h) (u_Updated i))) db)
      end) db
  end.

Record DeleteInput := mkDelete { x_ID : string; x_Audit : string; x_Actor : string; x_At : Z }.
Definition incomplete (i : DeleteInput) : bool := bool_decide (x_ID i = "") || bool_decide (x_Audit i = "") || bool_decide (x_Actor i = "") || (x_At i <=? 0).
Definition DeleteHost (fault : TxFault) (i : DeleteInput) (db : HostDB) : result goerr unit * HostDB :=
  if incomplete i then (Err (Msg "delete host input is incomplete"), db)
  else WriteHosts fault (fun db =>
    match hosts db !! x_ID i with
    | None => Err ErrHostNotFound
    | Some _ => if existsb (fun x => bool_decide (x.2 = x_ID i)) (map_to_list (host_of db)) then Err ErrHostHasServices
                else insertHostAudit (x_Audit i) (set_hosts (delete (x_ID i)) db)
    end) db.
Definition DeleteHostJoinToken (fault : TxFault) (i : DeleteInput) (db : HostDB) : result goerr unit * HostDB :=
  if incomplete i then (Err (Msg "delete host join token input is incomplete"), db)
  else WriteHosts fault (fun db =>
    match join_tokens db !! x_ID i with
    | None => Err ErrJoinTokenNotFound
    | Some k => if bool_decide (is_Some (k_consumed k)) then Err ErrJoinTokenConsumed
                else insertHostAudit (x_Audit i) (set_join_tokens (delete (x_ID i)) db)
    end) db.
Definition HostCredential (hostID : string) (db : HostDB) : result goerr HostRow := match hosts db !! hostID with Some h => Ok h | None => Err ErrHostNotFound end.
Definition HostJoinTokenCredential (tokenID : string) (db : HostDB) : result goerr HostJoinToken :=
  match join_tokens db !! tokenID with Some k => Ok k | None => Err ErrJoinTokenNotFound end.

(** ** hosttoken/token.go *)

Definition JoinPrefix : string := "pjn_".
Definition HostPrefix : string := "pht_".
Definition secretSize : Z := 32.
Definition encodedSecretSize : Z := 43.

Section Tokens.
Context `{AuthLibrary} `{HostLibrary}.

Definition Digest (kind publicID secret : string) : string := sha256 (kind +:+ chr 0 +:+ publicID +:+ chr 0 +:+ secret).
Definition Verify (kind publicID secret expected : string) : bool := (zlen expected =? 32) && bool_decide (Digest kind publicID secret = expected).
Definition generate (prefix publicID : string) (random : result goerr string) : result goerr (string * string) :=
  if negb (Token.Valid publicID) then Err (Msg "host token public ID is invalid")
  else match random with
  | Err e => Err (Wrap "generate host token secret" e)
  | Ok secretBytes => let secret := base64url_Encode secretBytes in Ok (prefix +:+ publicID +:+ "_" +:+ secret, secret)
  end.
Definition parse (prefix : string) (value : string) : result goerr (string * string) :=
  match strip_prefix prefix value with
  | None => Err (Msg "host token prefix is invalid")
  | Some rest =>
      if negb (zlen value =? zlen prefix + Token.publicSize + 1 + encodedSecretSize) then Err (Msg "host token prefix is invalid")
      else
        let '(publicID, secret, found) := cut "_"%char rest in
        if negb found || negb (Token.Valid publicID) || negb (zlen secret =? encodedSecretSize) then Err (Msg "host token format is invalid")
        else match base64url_Decode secret with
        | Some decoded => if negb (zlen decoded =? secretSize) || bool_decide (base64url_Encode decoded <> secret)
                          then Err (Msg "host token secret is invalid") else Ok (publicID, secret)
        | None => Err (Msg "host token secret is invalid")
        end
  end.

(** ** hosthub/join.go and the credentials of a connection *)

Record joinRequest := mkJoinRequest { q_Token : string; q_Name : string; q_IPv4 : string }.
Definition writeJoinError (e : goerr) : Z :=
  if errors_Is "ErrJoinTokenNotFound" e || errors_Is "ErrJoinTokenConsumed" e || errors_Is "ErrJoinTokenExpired" e then 401
  else if errors_Is "ErrInvalidPublicIPv4" e || errors_Is "ErrHostNameConflict" e then 400 else 500.
(** A request whose token was verified: its public part, its secret and the body. *)
Record Verified := mkVerified { y_token : string; y_secret : string; y_body : joinRequest }.
(** JoinHandler up to the verification of the token, for a decoded body. *)
Definition joinVerify (body : joinRequest) (db : HostDB) : result Z Verified :=
  match parse JoinPrefix (q_Token body) with
  | Err _ => Err 401
  | Ok (tokenID, secret) =>
      match HostJoinTokenCredential tokenID db with
      | Err e => Err (writeJoinError e)
      | Ok stored => if Verify "join" tokenID secret (k_hmac stored) then Ok (mkVerified tokenID secret body) else Err 401
      end
  end.
(** The rest: [ids] are the new identifiers of host and audit event. *)
Definition joinConsume (fault : TxFault) (reread : option goerr) (v : Verified) (ids : result goerr (string * string)) (random : result goerr string) (now : Z) (db : HostDB)
    : result Z (string * string * string) * HostDB :=
  match ids with
  | Err _ => (Err 500, db)
  | Ok (hostID, auditID) =>
      match generate HostPrefix hostID random with
      | Err _ => (Err 500, db)
      | Ok (plaintext, secret) =>
          match ConsumeHostJoinToken fault reread (mkConsumeJoin (y_token v) hostID auditID (q_Name (y_body v)) (q_IPv4 (y_body v)) (Digest "host" hostID secret) now) db with
          | (Err e, db) => (Err (writeJoinError e), db)
          | (Ok _, db) => (Ok (hostID, plaintext, secret), db)
          end
      end
  end.

(** The checks of ConnectHandler, TunnelHandler and ImageHandler on the bearer token. *)
Definition connectVerify (token : string) (db : HostDB) : option (string * string) :=
  match parse HostPrefix token with
  | Err _ => None
  | Ok (hostID, secret) =>
      match HostCredential hostID db with
      | Ok stored => if Verify "host" hostID secret (h_hmac stored) then Some (hostID, secret) else None
      | Err _ => None
      end
  end.

(** ** Runs *)

(** A host that joined, that is whose transaction committed, whether or not the
    request was answered: with which token and secret, when, and its own secret. *)
Record JoinedHost := mkJoined { n_token : string; n_secret : string; n_at : Z; n_host : string; n_host_secret : string }.
Record HostState := mkHostState { hdb : HostDB; joins : gmap nat Verified; joined : list JoinedHost }.
Inductive HostOp :=
| OCreate (fault : TxFault) (i : CreateJoin)
| ODeleteToken (fault : TxFault) (i : DeleteInput)
| ODeleteHost (fault : TxFault) (i : DeleteInput)
| OUpdate (fault : TxFault) (i : HostRuntime)
| OServices (assignment : gmap string string)
| OVerify (request : nat) (body : joinRequest)
| OConsume (request : nat) (fault : TxFault) (reread : option goerr) (ids : result goerr (string * string)) (random : result goerr string) (now : Z).
Definition consumed (id : string) (db : HostDB) : bool :=
  match join_tokens db !! id with Some k => bool_decide (is_Some (k_consumed k)) | None => false end.
Definition new_host (v : Verified) (ids : result goerr (string * string)) (random : result goerr string) (now : Z) (db db' : HostDB) : list JoinedHost :=
  match ids with
  | Ok (hostID, _) =>
      match generate HostPrefix hostID random with
      | Ok (_, secret) =>
          if consumed (y_token v) db' && negb (consumed (y_token v) db) then [mkJoined (y_token v) (y_secret v) now hostID secret] else []
      | Err _ => []
      end
  | Err _ => []
  end.
Definition host_step (s : HostState) (op : HostOp) : HostState :=
  let on (db : HostDB) := mkHostState db (joins s) (joined s) in
  match op with
  | OCreate fault i => on (CreateHostJoinToken fault i (hdb s)).2
  | ODeleteToken fault i => on (DeleteHostJoinToken fault i (hdb s)).2
  | ODeleteHost fault i => on (DeleteHost fault i (hdb s)).2
  | OUpdate fault i => on (UpdateHostRuntime fault i (hdb s)).2
  | OServices assignment => on (mkHostDB (hosts (hdb s)) (join_tokens (hdb s)) (audits (hdb s)) assignment)
  | OVerify request body => match joinVerify body (hdb s) with Ok v => mkHostState (hdb s) (<[request := v]> (joins s)) (joined s) | Err _ => s end
  | OConsume request fault reread ids random now =>
      match joins s !! request with
      | None => s
      | Some v =>
          let db := (joinConsume fault reread v ids random now (hdb s)).2 in
          mkHostState db (delete request (joins s)) (joined s ++ new_host v ids random now (hdb s) db)
      end
  end.
Definition host_run (ops : list HostOp) : HostState := fold_left host_step ops (mkHostState (mkHostDB ∅ ∅ ∅ ∅) ∅ []).

(** ** Who joined *)

Definition created (ops : list HostOp) (P : CreateJoin -> Prop) : Prop := exists fault i, OCreate fault i ∈ ops /\ P i.
Record hosts_inv (ops : list HostOp) (s : HostState) : Prop := {
  hi_once : NoDup (map n_token (joined s));
  hi_consumed : forall e, e ∈ joined s -> exists k, join_tokens (hdb s) !! n_token e = Some k /\ is_Some (k_consumed k);
  hi_tokens : forall id k, join_tokens (hdb s) !! id = Some k -> created ops (fun i => c_ID i = id /\ c_HMAC i = k_hmac k /\ c_Expires i = k_expires k);
  hi_joins : forall j v, joins s !! j = Some v -> created ops (fun i => c_ID i = y_token v /\ c_HMAC i = Digest "join" (y_token v) (y_secret v));
  hi_joined : forall e, e ∈ joined s -> created ops (fun i => c_ID i = n_token e /\ c_HMAC i = Digest "join" (n_token e) (n_secret e))
                /\ created ops (fun i => c_ID i = n_token e /\ n_at e <= c_Expires i);
  hi_hosts : forall id h, hosts (hdb s) !! id = Some h -> exists e, e ∈ joined s /\ n_host e = id /\ h_hmac h = Digest "host" id (n_host_secret e)
}.

Lemma WriteHosts_inv fault action db r db' : WriteHosts fault action db = (r, db') -> (db' = db /\ exists e, r = Err e) \/ (action db = Ok db').
Proof. unfold WriteHosts. intros Hw. repeat case_match; simplify_eq; eauto. Qed.
Lemma insertHostAudit_same id db db' : insertHostAudit id db = Ok db' -> hosts db' = hosts db /\ join_tokens db' = join_tokens db /\ host_of db' = host_of db.
Proof. unfold insertHostAudit. case_match; [done|]. by intros [= <-]. Qed.
Lemma created_more ops op P : created ops P -> created (ops ++ [op]) P.
Proof. intros (f & i & Hin & Hp). exists f, i. split; [|done]. apply elem_of_app. by left. Qed.

(** A write that neither forgets a consumed token nor brings a host. *)
Definition tame (ops : list HostOp) (db db' : HostDB) : Prop :=
  (forall id k', join_tokens db' !! id = Some k' -> created ops (fun i => c_ID i = id /\ c_HMAC i = k_hmac k' /\ c_Expires i = k_expires k'))
  /\ (forall id k, join_tokens db !! id = Some k -> is_Some (k_consumed k) -> exists k', join_tokens db' !! id = Some k' /\ is_Some (k_consumed k'))
  /\ (forall id h', hosts db' !! id = Some h' -> exists h, hosts db !! id = Some h /\ h_hmac h = h_hmac h').
Lemma tame_inv ops s db' js : hosts_inv ops s -> tame ops (hdb s) db' ->
  (forall j v, js !! j = Some v -> created ops (fun i => c_ID i = y_token v /\ c_HMAC i = Digest "join" (y_token v) (y_secret v))) -> hosts_inv ops (mkHostState db' js (joined s)).
Proof.
  intros [I1 I2 I3 I4 I5 I6] (T1 & T2 & T3) Hj. split; simpl; [done| |done|done|done|].
  - intros e (k & Hk & Hc)%I2. by eapply T2.
  - intros id h' (h & Hh & E)%T3. destruct (I6 _ _ Hh) as (e & He & En & Ed). exists e. split; [done|]. split; [done|]. congruence.
Qed.
Lemma tame_same ops s db' : hosts_inv ops s -> hosts db' = hosts (hdb s) -> join_tokens db' = join_tokens (hdb s) -> tame ops (hdb s) db'.
Proof. intros I Eh Et. unfold tame. rewrite Eh, Et. split; [apply (hi_tokens _ _ I)|]. split; [eauto|]. intros id h Hh. by exists h. Qed.

Lemma CreateHostJoinToken_tame ops fault i s : hosts_inv ops s -> OCreate fault i ∈ ops -> tame ops (hdb s) (CreateHostJoinToken fault i (hdb s)).2.
Proof.
  intros I Hin. unfold CreateHostJoinToken. case_match; [by apply tame_same|]. case_match; [by apply tame_same|].
  match goal with |- tame _ _ (WriteHosts ?f ?a ?d).2 => destruct (WriteHosts f a d) as [r db'] eqn:Hw end.
  apply WriteHosts_inv in Hw as [[-> _]|Hw]; [by apply tame_same|]. destruct (join_tokens (hdb s) !! c_ID i) eqn:Hk; [done|].
  apply insertHostAudit_same in Hw as (Eh & Et & _). unfold tame. simpl in *. rewrite Eh, Et. split; [|split].
  - intros id k'. destruct (decide (id = c_ID i)) as [->|Hne]; [rewrite lookup_insert_eq; intros [= <-]; by exists fault, i|].
    rewrite lookup_insert_ne by done. apply (hi_tokens _ _ I).
  - intros id k Hid Hc. exists k. split; [|done]. rewrite lookup_insert_ne by congruence. done.
  - intros id h Hh. by exists h.
Qed.
Lemma DeleteHostJoinToken_tame ops fault i s : hosts_inv ops s -> tame ops (hdb s) (DeleteHostJoinToken fault i (hdb s)).2.
Proof.
  intros I. unfold DeleteHostJoinToken. case_match; [by apply tame_same|].
  match goal with |- tame _ _ (WriteHosts ?f ?a ?d).2 => destruct (WriteHosts f a d) as [r db'] eqn:Hw end.
  apply WriteHosts_inv in Hw as [[-> _]|Hw]; [by apply tame_same|]. destruct (join_tokens (hdb s) !! x_ID i) as [k|] eqn:Hk; [|done].
  case_bool_decide as Hc; [done|]. apply insertHostAudit_same in Hw as (Eh & Et & _). unfold tame. simpl in *. rewrite Eh, Et. split; [|split].
  - intros id k' [_ Hid]%lookup_delete_Some. by apply (hi_tokens _ _ I).
  - intros id k' Hid Hc'. exists k'. split; [|done]. rewrite lookup_delete_ne; [done|]. intros <-. congruence.
  - intros id h Hh. by exists h.
Qed.
Lemma DeleteHost_tame ops fault i s : hosts_inv ops s -> tame ops (hdb s) (DeleteHost fault i (hdb s)).2.
Proof.
  intros I. unfold DeleteHost. case_match; [by apply tame_same|].
  match goal with |- tame _ _ (WriteHosts ?f ?a ?d).2 => destruct (WriteHosts f a d) as [r db'] eqn:Hw end.
  apply WriteHosts_inv in Hw as [[-> _]|Hw]; [by apply tame_same|]. destruct (hosts (hdb s) !! x_ID i); [|done]. case_match; [done|].
  apply insertHostAudit_same in Hw as (Eh & Et & _). unfold tame. simpl in *. rewrite Eh, Et. split; [apply (hi_tokens _ _ I)|]. split; [eauto|].
  intros id row [_ Hrow]%lookup_delete_Some. by exists row.
Qed.
Lemma UpdateHostRuntime_tame ops fault i s : hosts_inv ops s -> tame ops (hdb s) (UpdateHostRuntime fault i (hdb s)).2.
Proof.
  intros I. unfold UpdateHostRuntime. case_match; [by apply tame_same|]. case_match; [by apply tame_same|].
  match goal with |- tame _ _ (WriteHosts ?f ?a ?d).2 => destruct (WriteHosts f a d) as [r db'] eqn:Hw end.
  apply WriteHosts_inv in Hw as [[-> _]|Hw]; [by apply tame_same|]. destruct (hosts (hdb s) !! u_ID i) as [h|] eqn:Hh; [|done]. injection Hw as <-.
  unfold tame. simpl. split; [apply (hi_tokens _ _ I)|]. split; [eauto|].
  intros id h'. destruct (decide (id = u_ID i)) as [->|Hne]; [rewrite lookup_insert_eq; intros [= <-]; by exists h|]. rewrite lookup_insert_ne by done. eauto.
Qed.

(** A consumed token: it was open and not expired, and one host is new. *)
Definition consumes (i : ConsumeJoin) (db db' : HostDB) : Prop :=
  exists k name, join_tokens db !! o_Token i = Some k /\ k_consumed k = None /\ o_At i <= k_expires k
    /\ join_tokens db' = <[o_Token i := mkJoinToken (k_name k) (k_hmac k) (k_expires k) (Some (o_At i)) (k_created k)]> (join_tokens db)
    /\ hosts db' = <[o_Host i := mkHost name (Some (o_IPv4 i)) (o_HMAC i) (Some (o_At i)) (o_At i) (o_At i) (o_At i)]> (hosts db).
Lemma ConsumeHostJoinToken_inv fault reread i db : (ConsumeHostJoinToken fault reread i db).2 = db \/ consumes i db (ConsumeHostJoinToken fault reread i db).2.
Proof.
  unfold ConsumeHostJoinToken. do 3 (case_match; [by left|]).
  match goal with |- context [WriteHosts ?f ?a ?d] => destruct (WriteHosts f a d) as [r db'] eqn:Hw end. simpl.
  apply WriteHosts_inv in Hw as [[-> _]|Hw]; [by left|right]. destruct (join_tokens db !! o_Token i) as [k|] eqn:Hk; [|done].
  case_bool_decide as Hc; [done|]. destruct (Z.ltb_spec (k_expires k) (o_At i)) as [|He]; [done|]. case_match; [done|]. case_match; [done|].
  apply insertHostAudit_same in Hw as (Eh & Et & _). simpl in *. eexists k, _. split; [done|]. split; [by apply eq_None_not_Some|]. eauto.
Qed.
Lemma consumes_fresh i db db' : consumes i db db' -> consumed (o_Token i) db = false /\ consumed (o_Token i) db' = true.
Proof. intros (k & name & Hk & Hc & _ & Et & _). unfold consumed. by rewrite Et, Hk, lookup_insert_eq, Hc. Qed.

Lemma joinVerify_ok body db v : joinVerify body db = Ok v -> exists k, join_tokens db !! y_token v = Some k /\ k_hmac k = Digest "join" (y_token v) (y_secret v).
Proof.
  unfold joinVerify, HostJoinTokenCredential. destruct (parse _ _) as [[id secret]|]; [|done]. destruct (join_tokens db !! id) as [k|] eqn:Hk; [|done].
  destruct (Verify _ _ _ _) eqn:Hv; [|done]. intros [= <-]. exists k. split; [done|]. simpl. apply andb_true_iff in Hv as [_ Hv%bool_decide_eq_true]. done.
Qed.
Lemma joinConsume_inv fault reread v ids random now db db' : (joinConsume fault reread v ids random now db).2 = db' ->
  (db' = db /\ new_host v ids random now db db' = []) \/
  exists i e, consumes i db db' /\ new_host v ids random now db db' = [e] /\ o_Token i = y_token v /\ o_HMAC i = Digest "host" (o_Host i) (n_host_secret e)
    /\ n_token e = y_token v /\ n_secret e = y_secret v /\ n_at e = o_At i /\ n_host e = o_Host i.
Proof.
  assert (Hsame : forall ids, new_host v ids random now db db = []).
  { intros [[h a]|]; simpl; [|done]. destruct (generate _ _ _) as [[p sec]|]; [|done]. by rewrite andb_negb_r. }
  unfold joinConsume. destruct ids as [[h a]|]; [|intros <-; by left]. destruct (generate HostPrefix h random) as [[p sec]|] eqn:Hg; [|intros <-; left; by split].
  match goal with |- context [ConsumeHostJoinToken _ _ ?i _] => set (input := i) end.
  pose proof (ConsumeHostJoinToken_inv fault reread input db) as Hc. destruct (ConsumeHostJoinToken fault reread input db) as [r db1]. simpl in Hc.
  intros Hdb. assert (db' = db1) as -> by (by destruct r). destruct Hc as [->|Hc]; [left; by split|right].
  pose proof (consumes_fresh _ _ _ Hc) as [Hold Hnew]. exists input, (mkJoined (y_token v) (y_secret v) now h sec).
  split; [done|]. split; [|done]. simpl in *. by rewrite Hg, Hold, Hnew.
Qed.

Lemma consume_inv ops s request v i db' e : hosts_inv ops s -> joins s !! request = Some v -> consumes i (hdb s) db' ->
  o_Token i = y_token v -> o_HMAC i = Digest "host" (o_Host i) (n_host_secret e) -> n_token e = y_token v -> n_secret e = y_secret v -> n_at e = o_At i -> n_host e = o_Host i ->
  hosts_inv ops (mkHostState db' (delete request (joins s)) (joined s ++ [e])).
Proof.
  intros [I1 I2 I3 I4 I5 I6] Hv (k & name & Hk & Hopen & Hle & Et & Eh) Etok Ehmac E1 E2 E3 E4.
  split; simpl; rewrite ?Et, ?Eh.
  - rewrite map_app. apply NoDup_app. split; [done|]. split; [|apply NoDup_singleton]. intros x Hx ->%list_elem_of_singleton.
    apply list_elem_of_fmap in Hx as (e' & Ex & (k' & Hk' & Hc)%I2). rewrite <- Ex, E1, <- Etok, Hk in Hk'. injection Hk' as <-. by rewrite Hopen in Hc; destruct Hc.
  - intros e' [He| ->%list_elem_of_singleton]%elem_of_app.
    + destruct (I2 _ He) as (k' & Hk' & Hc). exists k'. split; [|done]. rewrite lookup_insert_ne; [done|]. intros Heq. rewrite <- Heq, Hk in Hk'. injection Hk' as <-. rewrite Hopen in Hc. by destruct Hc.
    + eexists. split; [rewrite E1, <- Etok; apply lookup_insert_eq|]. by eexists.
  - intros id k'. destruct (decide (id = o_Token i)) as [->|Hne]; [rewrite lookup_insert_eq; intros [= <-]; by apply (I3 _ k)|]. rewrite lookup_insert_ne by done. apply I3.
  - intros j w [_ Hw]%lookup_delete_Some. by eapply I4.
  - intros e' [He| ->%list_elem_of_singleton]%elem_of_app; [by apply I5|]. split.
    + rewrite E1, E2. by eapply I4.
    + destruct (I3 _ _ Hk) as (f & c & Hin & Hid & _ & Hexp). exists f, c. split; [done|]. rewrite E1, E3, Hexp. split; [congruence|lia].
  - intros id h. destruct (decide (id = o_Host i)) as [->|Hne].
    + rewrite lookup_insert_eq. intros [= <-]. exists e. simpl. split; [apply elem_of_app; right; by apply list_elem_of_singleton|]. by split.
    + rewrite lookup_insert_ne by done. intros (e' & He & Hr)%I6. exists e'. split; [apply elem_of_app; by left|done].
Qed.

Lemma hosts_inv_more ops op s : hosts_inv ops s -> hosts_inv (ops ++ [op]) s.
Proof.
  intros [I1 I2 I3 I4 I5 I6]. split; [done|done| | | |done].
  - intros id k Hk. by apply created_more, I3.
  - intros j v Hv. by eapply created_more, I4.
  - intros e [H1 H2]%I5. split; by apply created_more.
Qed.
Lemma host_step_inv ops op s : hosts_inv ops s -> hosts_inv (ops ++ [op]) (host_step s op).
Proof.
  intros I%(hosts_inv_more _ op). assert (op ∈ ops ++ [op]) as Hin by (apply elem_of_app; right; by apply list_elem_of_singleton).
  destruct op as [fault i|fault i|fault i|fault i|assignment|request body|request fault reread ids random now]; simpl.
  - apply tame_inv; [done|by apply CreateHostJoinToken_tame|apply (hi_joins _ _ I)].
  - apply tame_inv; [done|by apply DeleteHostJoinToken_tame|apply (hi_joins _ _ I)].
  - apply tame_inv; [done|by apply DeleteHost_tame|apply (hi_joins _ _ I)].
  - apply tame_inv; [done|by apply UpdateHostRuntime_tame|apply (hi_joins _ _ I)].
  - apply tame_inv; [done|by apply tame_same|apply (hi_joins _ _ I)].
  - destruct (joinVerify body (hdb s)) as [v|] eqn:Hv; [|done]. apply joinVerify_ok in Hv as (k & Hk & Hd). apply tame_inv; [done|by apply tame_same|].
    intros j w. destruct (decide (j = request)) as [->|Hne]; [|rewrite lookup_insert_ne by done; apply (hi_joins _ _ I)].
    rewrite lookup_insert_eq. intros [= <-]. destruct (hi_tokens _ _ I _ _ Hk) as (f & i & Hi & E1 & E2 & _). exists f, i. split; [done|]. by rewrite E2.
  - destruct (joins s !! request) as [v|] eqn:Hv; [|done]. destruct (joinConsume_inv fault reread v ids random now (hdb s) _ eq_refl) as [[E En]|(i & e & Hc & En & ?)].
    + rewrite En, E, app_nil_r. apply tame_inv; [done|by apply tame_same|]. intros j w [_ Hw]%lookup_delete_Some. by eapply (hi_joins _ _ I).
    + rewrite En. destruct_and!. eapply (consume_inv _ s request v); done.
Qed.
Lemma host_run_inv ops : hosts_inv ops (host_run ops).
Proof.
  induction ops as [|op ops IH] using rev_ind.
  - split; simpl; try done; [apply NoDup_nil_2|..]; intros x; try by rewrite elem_of_nil. all: intros y Hy; by rewrite lookup_empty in Hy.
  - unfold host_run. rewrite fold_left_app. simpl. by apply host_step_inv.
Qed.

(** C12. Joining, over every sequence of transactions on hosts and tokens in which the two
    transactions of join requests interleave: a join token makes at most one host; whoever
    used it knew a secret whose digest the token was created with, and used it before it
    expired; and a connection is accepted for a host only with a secret of the digest
    recorded for a host which joined.  A host counts as joined when its transaction
    commits, also if the request is then answered with an error. *)
Theorem hosts_join_once (ops : list HostOp) :
  let s := host_run ops in
  NoDup (map n_token (joined s))
  /\ (forall e, e ∈ joined s -> created ops (fun i => c_ID i = n_token e /\ c_HMAC i = Digest "join" (n_token e) (n_secret e))
        /\ created ops (fun i => c_ID i = n_token e /\ n_at e <= c_Expires i))
  /\ (forall token hostID secret, connectVerify token (hdb s) = Some (hostID, secret) ->
        exists e, e ∈ joined s /\ n_host e = hostID /\ Digest "host" hostID secret = Digest "host" hostID (n_host_secret e)).
Proof.
  intros s. destruct (host_run_inv ops) as [I1 I2 I3 I4 I5 I6]. split; [done|]. split; [done|]. intros token hostID secret. unfold connectVerify, HostCredential.
  destruct (parse _ _) as [[id sec]|]; [|done]. destruct (hosts (hdb s) !! id) as [h|] eqn:Hh; [|done]. destruct (Verify _ _ _ _) eqn:Hv; [|done]. intros [= <- <-].
  apply andb_true_iff in Hv as [_ Hv%bool_decide_eq_true]. destruct (I6 _ _ Hh) as (e & He & En & Ed). exists e. split; [done|]. split; [done|]. congruence.
Qed.
End Tokens.

(** ** A host joins, and its token does not serve twice *)

Section Demo.
#[local] Existing Instance AuthDemo.demo_library.
#[local] Instance demo_hash : HostLibrary := { sha256 := fun s => AuthDemo.pad_to 32 (String.rev s) }.
Definition demo_join_id : string := "abcdefghijklmnopqrstuvwx".
Definition demo_host_id : string := "bcdefghijklmnopqrstuvwxy".
Definition demo_join_secret : string := base64url_Encode (AuthDemo.pad_to 32 "join").
Definition demo_host_token : string := HostPrefix +:+ demo_host_id +:+ "_" +:+ base64url_Encode (AuthDemo.pad_to 32 "host").
Definition demo_join : joinRequest := mkJoinRequest (JoinPrefix +:+ demo_join_id +:+ "_" +:+ demo_join_secret) "" "203.0.113.7".
(** Two requests with the same token are verified before either consumes it. *)
Definition demo_joins : list HostOp :=
  [OCreate no_fault (mkCreateJoin demo_join_id "worker" (Digest "join" demo_join_id demo_join_secret) 2000 "a1" "admin" 1000);
   OVerify 0 demo_join; OVerify 1 demo_join;
   OConsume 0 no_fault None (Ok (demo_host_id, "a2")) (Ok (AuthDemo.pad_to 32 "host")) 1500; OConsume 1 no_fault None (Ok ("cdefghijklmnopqrstuvwxyz", "a3")) (Ok (AuthDemo.pad_to 32 "other")) 1501].
Example demo_joins_once :
  map n_host (joined (host_run demo_joins)) = [demo_host_id]
  /\ fst <$> connectVerify demo_host_token (hdb (host_run demo_joins)) = Some demo_host_id.
Proof. vm_compute. split; reflexivity. Qed.
End Demo.
