(* ===== verification/HostRpc.v ===== *)
(** * HostRpc: what a child host may do to the store

    [internal/hosthub/rpc.go]: the calls of a child host's deployment controller, which
    the parent runs on its own store after checking that the service is assigned to the
    host.  The reads of a check and the transaction of the call are separate, with those
    of others in between; other hosts' calls run at the same time. *)

From S2P Require Import Prelude Names ServiceConfig DeploymentStore.

Definition ErrServiceNotFound : goerr := Sentinel "state.ErrServiceNotFound" "service not found in project".

(** A request with its decoded parameters. *)
Inductive RPCRequest :=
| RPCDesiredService (serviceID : string)
| RPCBeginDeployment (input : BeginInput)
| RPCDiscardDeployment (deploymentID : string)
| RPCUpdateDeploymentSource (deploymentID imageDigest imageReference sourceRevision commitMessage : string)
| RPCFinishDeployment (deploymentID status errorCode errorMessage : string) (finishedAt : Z)
| RPCActivateDeployment (serviceID deploymentID expected : string) (activatedAt : Z)
| RPCFailDeployment (deploymentID errorCode errorMessage : string) (failedAt : Z)
| RPCLatestFailedDeployment (serviceID configHash imageRef : string)
| RPCLatestUploadedDeployment (serviceID : string)
| RPCLatestReusableProductionRevision (serviceID : string)
| RPCDeployment (deploymentID : string)
| RPCVolumeInitialized (projectID serviceID volumeID : string)
| RPCRecordVolumeInitialization (projectID serviceID volumeID : string) (at_ : Z)
| RPCResolveEnvironment (serviceID context : string)
| RPCResolveImageCredential (serviceID : string)
| RPCServiceDomains (projectID serviceID : string)
| RPCServiceListeners (projectID serviceID : string)
| RPCLookupInternal (hostname : string)
| Malformed (e : goerr)
| UnknownMethod.
Inductive RPCReply :=
| RNothing
| RDesired (desired : ServiceDesired)
| RFlag (flag : bool)
| RDeployment (record : DeploymentRecord)
| RRevision (revision : string * RevisionRow)
| ROther (payload : string).

(** The database with the column host_id of its services. *)
Record World := mkWorld { store : DB; host_ids : gmap string string }.
Definition HostID (w : World) (serviceID : string) : string := default "" (host_ids w !! serviceID).

(** The resolvers of environment and credentials, if there are, and the queries on domains,
    listeners and internal names. *)
Record RPCEnv := mkRPCEnv {
  re_environment : option (ServiceDesired -> string -> World -> result goerr string);
  re_credentials : option (ServiceDesired -> World -> result goerr string);
  re_domains : string -> string -> World -> result goerr string;
  re_listeners : string -> string -> World -> result goerr string;
  re_lookup : string -> World -> result goerr string
}.

(** What the call is checked against. *)
Inductive Scope := OfService (serviceID : string) | OfDeployment (deploymentID : string) | Unchecked.
Definition scope (request : RPCRequest) : Scope :=
  match request with
  | RPCDesiredService s | RPCLatestFailedDeployment s _ _ | RPCLatestUploadedDeployment s | RPCLatestReusableProductionRevision s
  | RPCActivateDeployment s _ _ _ | RPCVolumeInitialized _ s _ | RPCRecordVolumeInitialization _ s _ _
  | RPCResolveEnvironment s _ | RPCResolveImageCredential s | RPCServiceDomains _ s | RPCServiceListeners _ s => OfService s
  | RPCBeginDeployment input => OfService (b_service input)
  | RPCDiscardDeployment d | RPCUpdateDeploymentSource d _ _ _ _ | RPCFinishDeployment d _ _ _ _ | RPCFailDeployment d _ _ _ | RPCDeployment d => OfDeployment d
  | RPCLookupInternal _ | Malformed _ | UnknownMethod => Unchecked
  end.

Section Rpc.
Context `{HostnameTables} `{ConfigTables}.

Definition requireHostService (hostID serviceID : string) (w : World) : result goerr ServiceDesired :=
  let? desired := DesiredService serviceID (store w) in
  if bool_decide (HostID w serviceID = hostID) then Ok desired else Err ErrServiceNotFound.

Definition on_store (m : DB -> result goerr unit * DB) (w : World) : result goerr RPCReply * World :=
  let '(r, db) := m (store w) in (match r with Ok _ => Ok RNothing | Err e => Err e end, mkWorld db (host_ids w)).
Definition reply {A} (f : A -> RPCReply) (r : result goerr A) : result goerr RPCReply := match r with Ok a => Ok (f a) | Err e => Err e end.

(** What dispatchRPC does after its checks. *)
Definition perform (env : RPCEnv) (fault : TxFault) (request : RPCRequest) (desired : ServiceDesired) (w : World) : result goerr RPCReply * World :=
  match request with
  | RPCDesiredService s => (reply RDesired (DesiredService s (store w)), w)
  | RPCBeginDeployment input => on_store (BeginDeployment fault input) w
  | RPCDiscardDeployment d => on_store (DiscardDeployment fault d) w
  | RPCUpdateDeploymentSource d digest reference revision commit => on_store (UpdateDeploymentSource fault d digest reference revision commit) w
  | RPCFinishDeployment d status code message at_ => on_store (FinishDeployment fault d status code message at_) w
  | RPCActivateDeployment s d expected at_ => on_store (ActivateDeployment fault s d expected at_) w
  | RPCFailDeployment d code message at_ => on_store (FailDeployment fault d code message at_) w
  | RPCLatestFailedDeployment s hash image => (Ok (RFlag (LatestFailedDeployment s hash image (store w))), w)
  | RPCLatestUploadedDeployment s => (reply RDeployment (LatestUploadedDeployment s (store w)), w)
  | RPCLatestReusableProductionRevision s => (reply RRevision (LatestReusableProductionRevision s (store w)), w)
  | RPCDeployment d => (reply RDeployment (Deployment d (store w)), w)
  | RPCVolumeInitialized p s v => (reply RFlag (VolumeInitialized p s v (store w)), w)
  | RPCRecordVolumeInitialization p s v at_ => on_store (RecordVolumeInitialization fault p s v at_) w
  | RPCResolveEnvironment _ context =>
      (match re_environment env with None => Err (Msg "environment resolver is not configured") | Some resolve => reply ROther (resolve desired context w) end, w)
  | RPCResolveImageCredential _ =>
      (match re_credentials env with None => Err (Msg "image credentials are not configured") | Some resolve => reply ROther (resolve desired w) end, w)
  | RPCServiceDomains p s => (reply ROther (re_domains env p s w), w)
  | RPCServiceListeners p s => (reply ROther (re_listeners env p s w), w)
  | RPCLookupInternal hostname => (reply ROther (re_lookup env hostname w), w)
  | Malformed e => (Err e, w)
  | UnknownMethod => (Err (Msg "unknown host RPC method"), w)
  end.
(** The resolvers that are missing are noticed before the check. *)
Definition unconfigured (env : RPCEnv) (request : RPCRequest) : option goerr :=
  match request with
  | RPCResolveEnvironment _ _ => match re_environment env with None => Some (Msg "environment resolver is not configured") | Some _ => None end
  | RPCResolveImageCredential _ => match re_credentials env with None => Some (Msg "image credentials are not configured") | Some _ => None end
  | _ => None
  end.

(** ** Calls of several hosts at the same time *)

(** Where a call is: before its checks, with the service of its deployment, checked, or
    answered. *)
Inductive Position := Received | Loaded (serviceID : string) | Checked (desired : ServiceDesired) | Replied (r : result goerr RPCReply).
Record Call := mkCall { cl_host : string; cl_request : RPCRequest; cl_position : Position }.
Record System := mkSystem { world : World; calls : gmap nat Call }.
Definition check (hostID serviceID : string) (w : World) : Position :=
  match requireHostService hostID serviceID w with Ok desired => Checked desired | Err e => Replied (Err e) end.
(** dispatchRPC, a read or a transaction at a time. *)
Definition dispatchRPC (env : RPCEnv) (fault : TxFault) (hostID : string) (request : RPCRequest) (position : Position) (w : World) : Position * World :=
  match position with
  | Received =>
      match unconfigured env request, scope request with
      | Some e, _ => (Replied (Err e), w)
      | None, OfService s => (check hostID s w, w)
      | None, OfDeployment d => (match Deployment d (store w) with Ok record => Loaded (dr_service record) | Err e => Replied (Err e) end, w)
      | None, Unchecked => (Replied (match request with RPCLookupInternal hostname => reply ROther (re_lookup env hostname w)
                                                     | Malformed e => Err e | _ => Err (Msg "unknown host RPC method") end), w)
      end
  | Loaded s => (check hostID s w, w)
  | Checked desired => let '(r, w) := perform env fault request desired w in (Replied r, w)
  | Replied r => (Replied r, w)
  end.

(** A call goes on, or somebody else changes the database. *)
Inductive Move := MCall (call : nat) (fault : TxFault) | MOther (f : World -> World).
Definition move (env : RPCEnv) (m : Move) (s : System) : System :=
  match m with
  | MOther f => mkSystem (f (world s)) (calls s)
  | MCall i fault =>
      match calls s !! i with
      | None => s
      | Some c => let '(p, w) := dispatchRPC env fault (cl_host c) (cl_request c) (cl_position c) (world s) in
                  mkSystem w (<[i := mkCall (cl_host c) (cl_request c) p]> (calls s))
      end
  end.
(** The final state and the databases before each move. *)
Fixpoint run (env : RPCEnv) (moves : list Move) (s : System) : System * list World :=
  match moves with
  | [] => (s, [])
  | m :: moves => let r := run env moves (move env m s) in (r.1, world s :: r.2)
  end.
Definition received (hostID : string) (request : RPCRequest) : Call := mkCall hostID request Received.

(** ** Isolation *)

(** Nothing of the service changed: its row, its deployments and image revisions, the
    uploads of these, and the marks on its volumes. *)
Record untouched (sid : string) (db db' : DB) : Prop := {
  un_service : services db' !! sid = services db !! sid;
  un_deployments : forall id d, d_service d = sid -> (deployments db' !! id = Some d <-> deployments db !! id = Some d);
  un_revisions : forall id r, r_service r = sid -> (revisions db' !! id = Some r <-> revisions db !! id = Some r);
  un_uploads : forall id u rid r, uploads db !! id = Some u -> u_revision u = Some rid -> revisions db !! rid = Some r -> r_service r = sid -> uploads db' !! id = Some u;
  un_volumes : forall v row, volumes db !! v = Some row -> v_service row = sid -> initializations db' !! v = initializations db !! v
}.
Lemma untouched_refl sid db : untouched sid db db.
Proof. by split. Qed.

(** A transaction that fails changes nothing. *)
Lemma write_relates (R : DB -> DB -> Prop) fault action db : R db db -> (forall db', action db = Ok db' -> R db db') -> R db (Write fault action db).2.
Proof. intros Hsame Hdone. destruct (Write fault action db) as [r db'] eqn:Hw. apply Write_inv in Hw as [[-> _]|[_ Hw]]; [done|]. by apply Hdone. Qed.

(** A change of one deployment of another service. *)
Lemma untouched_deployments sid db id row : (forall d, deployments db !! id = Some d -> d_service d <> sid) -> (forall d, row = Some d -> d_service d <> sid) ->
  untouched sid db (set_deployments (partial_alter (fun _ => row) id) db).
Proof.
  intros Hold Hnew. split; try done. simpl. intros id' d Hd. destruct (decide (id' = id)) as [->|Hne]; [|by rewrite lookup_partial_alter_ne].
  rewrite lookup_partial_alter_eq. split; intros E; exfalso; [by apply (Hnew d)|by apply (Hold d)].
Qed.
Lemma set_deployments_insert id d db : set_deployments (insert id d) db = set_deployments (partial_alter (fun _ => Some d) id) db.
Proof. done. Qed.
Lemma set_deployments_delete id db : set_deployments (delete id) db = set_deployments (partial_alter (fun _ => None) id) db.
Proof. done. Qed.

(** Up to the transaction: the input is refused. *)
Ltac refused tac :=
  repeat match goal with
         | |- _ _ _ ((if ?b then _ else _).2) => destruct b; [tac|]
         | |- _ _ (match ?x with _ => _ end).2 => destruct x; try tac
         | |- _ _ _ (match ?x with _ => _ end).2 => destruct x; try tac
         end.
Lemma BeginDeployment_untouched fault input db sid : b_service input <> sid -> untouched sid db (BeginDeployment fault input db).2.
Proof.
  intros Hne. unfold BeginDeployment. refused ltac:(apply untouched_refl). apply write_relates; [apply untouched_refl|]. intros db' Hop.
  destruct (services db !! b_service input) as [row|]; [|done]. destruct (s_enabled row); [simpl in Hop|done]. destruct (deployments db !! b_id input) eqn:Hid; [done|]. injection Hop as <-.
  rewrite set_deployments_insert. apply untouched_deployments; [by rewrite Hid|]. by intros d [= <-].
Qed.
(** The writes to one deployment, which check that it is running. *)
Lemma DiscardDeployment_untouched fault id db sid : (forall d, deployments db !! id = Some d -> d_service d <> sid) -> untouched sid db (DiscardDeployment fault id db).2.
Proof.
  intros Hne. unfold DiscardDeployment. refused ltac:(apply untouched_refl). apply write_relates; [apply untouched_refl|]. intros db' Hop.
  destruct (deployments db !! id) as [d|] eqn:Hid; [|done]. case_match; [|done]. injection Hop as <-.
  rewrite set_deployments_delete. apply untouched_deployments; [|done]. intros d' Hd'. apply Hne. congruence.
Qed.
Lemma untouched_row sid db id d d' : (forall x, deployments db !! id = Some x -> d_service x <> sid) -> deployments db !! id = Some d -> d_service d' = d_service d ->
  untouched sid db (set_deployments (insert id d') db).
Proof.
  intros Hne Hd E. rewrite set_deployments_insert. apply untouched_deployments; [done|]. intros x [= <-]. rewrite E. by apply Hne.
Qed.
Lemma UpdateDeploymentSource_untouched fault id a b c e db sid : (forall d, deployments db !! id = Some d -> d_service d <> sid) ->
  untouched sid db (UpdateDeploymentSource fault id a b c e db).2.
Proof.
  intros Hne. unfold UpdateDeploymentSource. refused ltac:(apply untouched_refl). apply write_relates; [apply untouched_refl|]. intros db' Hop.
  destruct (deployments db !! id) as [d|] eqn:Hid; [|done]. case_match; [|done]. injection Hop as <-. eapply untouched_row; [|done|done]. intros x Hx. apply Hne. congruence.
Qed.
Lemma FinishDeployment_untouched fault id status code message t db sid : (forall d, deployments db !! id = Some d -> d_service d <> sid) ->
  untouched sid db (FinishDeployment fault id status code message t db).2.
Proof.
  intros Hne. unfold FinishDeployment. refused ltac:(apply untouched_refl). apply write_relates; [apply untouched_refl|]. intros db' Hop.
  destruct (deployments db !! id) as [d|] eqn:Hid; [|done]. case_match; [|done]. injection Hop as <-. eapply untouched_row; [|done|done]. intros x Hx. apply Hne. congruence.
Qed.
Lemma RecordVolumeInitialization_untouched fault p s v t db sid : s <> sid -> untouched sid db (RecordVolumeInitialization fault p s v t db).2.
Proof.
  intros Hne. unfold RecordVolumeInitialization. refused ltac:(apply untouched_refl). apply write_relates; [apply untouched_refl|]. intros db' Hop.
  destruct (volumes db !! v) as [row|] eqn:Hv; [|done].
  destruct (bool_decide (v_project row = p) && bool_decide (v_service row = s)) eqn:Hb; [|done]. injection Hop as <-. apply andb_true_iff in Hb as [_ Hb%bool_decide_eq_true].
  split; try done. simpl. intros v' row' Hv' Hs. destruct (initializations db !! v); [done|]. rewrite lookup_insert_ne; [done|]. intros <-. congruence.
Qed.

(** An activation changes revisions of its service and uploads of one of them. *)
Lemma retireOthers_other t s keep rs sid id r : s <> sid -> r_service r = sid -> (retireOthers t s keep rs !! id = Some r <-> rs !! id = Some r).
Proof.
  intros Hne Hr. rewrite retireOthers_lookup. destruct (rs !! id) as [r0|]; simpl; [|done]. unfold retire_one. case_match eqn:Hb; [|done].
  repeat apply andb_true_iff in Hb as [Hb _]. apply bool_decide_eq_true in Hb. split; intros [= <-]; simpl in Hr; congruence.
Qed.
Lemma activateRevision_untouched s id t rev keep db db2 sid : s <> sid -> activateRevision s id t rev (set_revisions (retireOthers t s keep) db) = Ok db2 -> untouched sid db db2.
Proof.
  intros Hne. unfold activateRevision. destruct rev as [rid|]; [|intros [= <-]; split; try done; intros id' r Hr; by apply (retireOthers_other _ _ _ _ sid)].
  simpl. destruct (retireOthers t s keep (revisions db) !! rid) as [r|] eqn:Hrid; [|done]. destruct (activatable s r) eqn:Ha; [simpl|done]. case_match; [done|]. intros [= <-].
  repeat apply andb_true_iff in Ha as [Ha _]. apply bool_decide_eq_true in Ha.
  assert (forall r', revisions db !! rid = Some r' -> r_service r' <> sid) as Hmine.
  { intros r' Hr' E. apply (proj2 (retireOthers_other t s keep _ sid rid r' Hne E)) in Hr'. rewrite Hrid in Hr'. injection Hr' as <-. congruence. }
  split; simpl; [done|done| | |done].
  - intros id' r' Hr'. destruct (decide (id' = rid)) as [->|Hid]; [|rewrite lookup_insert_ne by done; by apply (retireOthers_other _ _ _ _ sid)].
    rewrite lookup_insert_eq. split; [intros [= <-]; simpl in Hr'; congruence|]. intros E. by destruct (Hmine r').
  - intros id' u rid' r' Hu Hrev Hr' Hs. rewrite lookup_fmap, Hu. simpl. unfold link_upload. case_bool_decide as E; [|done]. rewrite Hrev in E. injection E as ->. by destruct (Hmine r').
Qed.
Lemma ActivateDeployment_untouched fault s id expected t db sid : s <> sid -> untouched sid db (ActivateDeployment fault s id expected t db).2.
Proof.
  intros Hne. unfold ActivateDeployment. refused ltac:(apply untouched_refl). apply write_relates; [apply untouched_refl|]. intros db' Hop.
  destruct (services db !! s) as [row|]; [|done]. destruct (deployments db !! id) as [d|] eqn:Hd; [|done].
  destruct (s_enabled row && bool_decide (d_service d = s)) eqn:Hb; [simpl in Hop|done]. apply andb_true_iff in Hb as [_ Hb%bool_decide_eq_true]. case_match; [done|].
  apply rbind_ok in Hop as (db2 & Hrev & [= <-]). pose proof (activateRevision_inv _ _ _ _ _ _ Hrev) as [Hsv Hdv]. simpl in Hsv, Hdv.
  apply (activateRevision_untouched _ _ _ _ _ _ _ sid Hne) in Hrev as [U1 U2 U3 U4 U5]. split; simpl; [|intros id' d' Hd'|done|done|done].
  - rewrite lookup_insert_ne by done. by rewrite Hsv.
  - rewrite Hdv. destruct (decide (id' = id)) as [->|Hid]; [|by rewrite lookup_insert_ne]. rewrite lookup_insert_eq, Hd. split; intros [= <-]; simpl in Hd'; congruence.
Qed.

(** The deployment of a call, once its service was looked up, has no other service. *)
Definition consistent (service_of : string -> string) (w : World) : Prop := forall id d, deployments (store w) !! id = Some d -> d_service d = service_of id.
Lemma perform_untouched service_of env fault request desired w sid : consistent service_of w ->
  match scope request with OfService s => s <> sid | OfDeployment d => service_of d <> sid | Unchecked => True end ->
  untouched sid (store w) (store (perform env fault request desired w).2).
Proof.
  intros Hc Hs. assert (forall m, untouched sid (store w) (m (store w)).2 -> untouched sid (store w) (store (on_store m w).2)) as Hon.
  { intros m. unfold on_store. by destruct (m (store w)). }
  assert (forall d, service_of d <> sid -> forall row, deployments (store w) !! d = Some row -> d_service row <> sid) as Hd by (intros d Hd row ->%Hc; done).
  destruct request; simpl in *; try apply untouched_refl; apply Hon.
  - by apply BeginDeployment_untouched.
  - by apply DiscardDeployment_untouched, Hd.
  - by apply UpdateDeploymentSource_untouched, Hd.
  - by apply FinishDeployment_untouched, Hd.
  - by apply ActivateDeployment_untouched.
  - by apply FinishDeployment_untouched, Hd.
  - by apply RecordVolumeInitialization_untouched.
Qed.

(** Deployments keep their service. *)
Definition services_kept (db db' : DB) : Prop := forall id d', deployments db' !! id = Some d' -> exists d, deployments db !! id = Some d /\ d_service d' = d_service d.
Lemma services_kept_refl db : services_kept db db.
Proof. intros id d Hd. by exists d. Qed.
Lemma services_kept_insert db id d d' : deployments db !! id = Some d -> d_service d' = d_service d -> services_kept db (set_deployments (insert id d') db).
Proof.
  intros Hd E id' d0. simpl. destruct (decide (id' = id)) as [->|Hne]; [rewrite lookup_insert_eq; intros [= <-]; by exists d|]. rewrite lookup_insert_ne by done. eauto.
Qed.
Lemma DiscardDeployment_kept fault id db : services_kept db (DiscardDeployment fault id db).2.
Proof.
  unfold DiscardDeployment. refused ltac:(apply services_kept_refl). apply write_relates; [apply services_kept_refl|]. intros db' Hop.
  destruct (deployments db !! id); [|done]. case_match; [|done]. injection Hop as <-. intros id' d'. simpl. intros [_ Hd]%lookup_delete_Some. eauto.
Qed.
Lemma UpdateDeploymentSource_kept fault id a b c e db : services_kept db (UpdateDeploymentSource fault id a b c e db).2.
Proof.
  unfold UpdateDeploymentSource. refused ltac:(apply services_kept_refl). apply write_relates; [apply services_kept_refl|]. intros db' Hop.
  destruct (deployments db !! id) eqn:Hd; [|done]. case_match; [|done]. injection Hop as <-. by eapply services_kept_insert.
Qed.
Lemma FinishDeployment_kept fault id status code message t db : services_kept db (FinishDeployment fault id status code message t db).2.
Proof.
  unfold FinishDeployment. refused ltac:(apply services_kept_refl). apply write_relates; [apply services_kept_refl|]. intros db' Hop.
  destruct (deployments db !! id) eqn:Hd; [|done]. case_match; [|done]. injection Hop as <-. by eapply services_kept_insert.
Qed.
Lemma RecordVolumeInitialization_kept fault p s v t db : services_kept db (RecordVolumeInitialization fault p s v t db).2.
Proof.
  unfold RecordVolumeInitialization. refused ltac:(apply services_kept_refl). apply write_relates; [apply services_kept_refl|]. intros db' Hop.
  destruct (volumes db !! v); [|done]. case_match; [|done]. injection Hop as <-. intros id d Hd. by exists d.
Qed.
Lemma ActivateDeployment_kept fault s id expected t db : services_kept db (ActivateDeployment fault s id expected t db).2.
Proof.
  destruct (ActivateDeployment fault s id expected t db) as [r db'] eqn:Hop; simpl.
  apply ActivateDeployment_inv in Hop as [[-> _]|[_ Hop]]; [apply services_kept_refl|]. destruct Hop as (row & d & _ & Hd & _ & _ & _ & _ & _ & Ed & _). intros id' d'. rewrite Ed.
  destruct (decide (id' = id)) as [->|Hne]; [rewrite lookup_insert_eq; intros [= <-]; by exists d|]. rewrite lookup_insert_ne by done. eauto.
Qed.
Definition begun (input : BeginInput) (db db' : DB) : Prop := forall id d', deployments db' !! id = Some d' ->
  deployments db !! id = Some d' \/ id = b_id input /\ d_service d' = b_service input.
Lemma BeginDeployment_rows fault input db : begun input db (BeginDeployment fault input db).2.
Proof.
  assert (begun input db db) as Hsame by (intros id d; by left). unfold BeginDeployment. refused ltac:(exact Hsame). apply write_relates; [done|]. intros db' Hop.
  destruct (services db !! b_service input) as [row|]; [|done]. destruct (s_enabled row); [simpl in Hop|done]. destruct (deployments db !! b_id input) eqn:Hid; [done|]. injection Hop as <-.
  intros id d'. simpl. destruct (decide (id = b_id input)) as [->|Hne]; [rewrite lookup_insert_eq; intros [= <-]; by right|]. rewrite lookup_insert_ne by done. by left.
Qed.
Lemma perform_consistent service_of env fault request desired w : consistent service_of w ->
  (forall input, request = RPCBeginDeployment input -> service_of (b_id input) = b_service input) -> consistent service_of (perform env fault request desired w).2.
Proof.
  intros Hc Hb. assert (forall m, services_kept (store w) (m (store w)).2 -> consistent service_of (on_store m w).2) as Hon.
  { intros m Hm id d'. unfold on_store. destruct (m (store w)) as [r db]. simpl in *. intros (d & Hd & ->)%Hm. by apply Hc. }
  destruct request; simpl; try done.
  - intros id d'. unfold on_store. pose proof (BeginDeployment_rows fault input (store w) id d') as Hrow. destruct (BeginDeployment fault input (store w)) as [r db]. simpl in *.
    intros [Hd|[-> ->]]%Hrow; [by apply Hc|]. symmetry. by apply Hb.
  - apply Hon, DiscardDeployment_kept.
  - apply Hon, UpdateDeploymentSource_kept.
  - apply Hon, FinishDeployment_kept.
  - apply Hon, ActivateDeployment_kept.
  - apply Hon, FinishDeployment_kept.
  - apply Hon, RecordVolumeInitialization_kept.
Qed.

(** What the position of a call says, [past] being the databases seen so far. *)
Definition call_ok (service_of : string -> string) (past : list World) (c : Call) : Prop :=
  match cl_position c with
  | Received | Replied _ => True
  | Loaded s => exists d, scope (cl_request c) = OfDeployment d /\ service_of d = s
  | Checked desired => (exists w, w ∈ past /\ HostID w (ds_id desired) = cl_host c)
      /\ match scope (cl_request c) with OfService s => s = ds_id desired | OfDeployment d => service_of d = ds_id desired | Unchecked => False end
  end.
Lemma call_ok_more service_of past w c : call_ok service_of past c -> call_ok service_of (past ++ [w]) c.
Proof.
  unfold call_ok. destruct (cl_position c); try done. intros [(w' & Hin & E) Hs]. split; [|done]. exists w'. split; [|done]. apply elem_of_app. by left.
Qed.
Lemma check_ok service_of past w host request s : w ∈ past ->
  match scope request with OfService s' => s' = s | OfDeployment d => service_of d = s | Unchecked => False end -> call_ok service_of past (mkCall host request (check host s w)).
Proof.
  intros Hin Hs. unfold call_ok, check, requireHostService. simpl. destruct (DesiredService s (store w)) as [desired|] eqn:Hd; simpl; [|done]. case_bool_decide as E; [|done]. simpl.
  assert (ds_id desired = s) as -> by (unfold DesiredService in Hd; repeat case_match; simplify_eq; done). split; [by exists w|done].
Qed.
Lemma dispatch_ok service_of env fault past host request position w : consistent service_of w -> w ∈ past ->
  call_ok service_of past (mkCall host request position) -> call_ok service_of past (mkCall host request (dispatchRPC env fault host request position w).1).
Proof.
  intros Hc Hin Hp. unfold dispatchRPC. destruct position as [|s|desired|r]; [|..|done].
  - destruct (unconfigured env request); [done|]. destruct (scope request) as [s|d|] eqn:Hs; [|..|done].
    + apply check_ok; [done|]. by rewrite Hs.
    + destruct (Deployment d (store w)) as [record|] eqn:Hd; [|done]. unfold call_ok. simpl. exists d. split; [done|]. unfold Deployment, scanDeploymentRecord in Hd.
      destruct (deployments (store w) !! d) as [row|] eqn:Hrow; [|done]. destruct (json_Unmarshal _); [|done]. injection Hd as <-. simpl. symmetry. by apply Hc.
  - destruct Hp as (d & Hs & Hd). simpl in Hs. apply check_ok; [done|]. by rewrite Hs.
  - by destruct (perform env fault request desired w).
Qed.

(** Identifiers of deployments belong to one service, in the database and in what others
    and the calls bring to it. *)
Definition keeps (service_of : string -> string) (m : Move) : Prop := match m with MOther f => forall w, consistent service_of w -> consistent service_of (f w) | MCall _ _ => True end.
Definition names_own (service_of : string -> string) (s : System) : Prop :=
  forall i c input, calls s !! i = Some c -> cl_request c = RPCBeginDeployment input -> service_of (b_id input) = b_service input.
Record system_ok (service_of : string -> string) (past : list World) (s : System) : Prop := {
  so_world : consistent service_of (world s);
  so_own : names_own service_of s;
  so_calls : forall i c, calls s !! i = Some c -> call_ok service_of past c
}.
Lemma dispatch_consistent service_of env fault host request position w : consistent service_of w ->
  (forall input, request = RPCBeginDeployment input -> service_of (b_id input) = b_service input) ->
  consistent service_of (dispatchRPC env fault host request position w).2.
Proof.
  intros Hc Ho. unfold dispatchRPC. destruct position as [|s|desired|r]; [by repeat case_match|done| |done].
  pose proof (perform_consistent service_of env fault request desired w Hc Ho). by destruct (perform env fault request desired w).
Qed.
Lemma move_ok service_of env m past s : keeps service_of m -> system_ok service_of past s -> system_ok service_of (past ++ [world s]) (move env m s).
Proof.
  intros Hk [S1 S2 S3]. assert (forall i c, calls s !! i = Some c -> call_ok service_of (past ++ [world s]) c) as S3' by (intros i c Hi; by apply call_ok_more, (S3 i)).
  destruct m as [i fault|f]; simpl; [|split; simpl; [by apply Hk|done|done]]. destruct (calls s !! i) as [c|] eqn:Hi; [|by split].
  assert (world s ∈ past ++ [world s]) as Hin by (apply elem_of_app; right; by apply list_elem_of_singleton).
  pose proof (dispatch_consistent service_of env fault (cl_host c) (cl_request c) (cl_position c) (world s) S1 (fun input => S2 i c input Hi)) as Hw.
  pose proof (dispatch_ok service_of env fault (past ++ [world s]) (cl_host c) (cl_request c) (cl_position c) (world s) S1 Hin) as Hp.
  destruct (dispatchRPC _ _ _ _ _ _) as [p w]. simpl in *. assert (forall j x, <[i := mkCall (cl_host c) (cl_request c) p]> (calls s) !! j = Some x ->
    (j = i /\ x = mkCall (cl_host c) (cl_request c) p) \/ calls s !! j = Some x) as Hcase.
  { intros j x. destruct (decide (j = i)) as [->|Hne]; [rewrite lookup_insert_eq; intros [= <-]; by left|]. rewrite lookup_insert_ne by done. by right. }
  split; simpl; [done| |].
  - intros j x input [[-> ->]|Hj]%Hcase; [by apply (S2 i c input Hi)|by apply (S2 j x input Hj)].
  - intros j x [[-> ->]|Hj]%Hcase; [|by eapply S3']. apply Hp. specialize (S3' i c Hi). by destruct c.
Qed.
Lemma run_ok service_of env moves : forall past s, Forall (keeps service_of) moves -> system_ok service_of past s -> system_ok service_of (past ++ (run env moves s).2) (run env moves s).1.
Proof.
  induction moves as [|m moves IH]; intros past s Hk Hs; simpl; [by rewrite app_nil_r|]. apply Forall_cons in Hk as [Hm Hk].
  change (world s :: (run env moves (move env m s)).2) with ([world s] ++ (run env moves (move env m s)).2). rewrite app_assoc. apply IH; [done|]. by apply move_ok.
Qed.

(** C11. Calls of several child hosts at the same time, interleaved with the transactions of
    everybody else: the next transaction of a call changes nothing of a service, neither its
    row nor its deployments, image revisions, uploads or volumes, that was not assigned to
    the calling host in any of the databases so far.  Identifiers of deployments have to be
    used for one service only. *)
Theorem rpc_isolated (env : RPCEnv) (service_of : string -> string) (s0 : System) (moves : list Move) (i : nat) (fault : TxFault) (c : Call) (sid : string) :
  (forall j x, calls s0 !! j = Some x -> cl_position x = Received) -> names_own service_of s0 -> consistent service_of (world s0) -> Forall (keeps service_of) moves ->
  let s := (run env moves s0).1 in
  calls s !! i = Some c ->
  (forall w, w ∈ (run env moves s0).2 -> HostID w sid <> cl_host c) ->
  untouched sid (store (world s)) (store (world (move env (MCall i fault) s))).
Proof.
  intros Hnew Hown Hcons Hk s Hc Hnot. assert (system_ok service_of (run env moves s0).2 s) as [S1 S2 S3].
  { apply (run_ok service_of env moves [] s0 Hk). split; [done|done|]. intros j x Hj. unfold call_ok. by rewrite (Hnew j x Hj). }
  unfold move. rewrite Hc. specialize (S3 i c Hc). unfold dispatchRPC, call_ok in *. destruct (cl_position c) as [|s'|desired|r]; simpl; try apply untouched_refl.
  - destruct (unconfigured _ _); [apply untouched_refl|]. destruct (scope _); apply untouched_refl.
  - destruct S3 as [(w & Hw & E) Hs]. assert (ds_id desired <> sid) as Hne by (intros <-; by apply (Hnot w)).
    pose proof (perform_untouched service_of env fault (cl_request c) desired (world s) sid S1) as Hu. destruct (perform _ _ _ _ _). simpl in *. apply Hu.
    destruct (scope (cl_request c)); [by rewrite Hs|by rewrite Hs|done].
Qed.
End Rpc.

(** Host one activates a deployment of its service; host two's service does not change. *)
Definition demo_world : World :=
  mkWorld (set_services (insert "other" (mkServiceRow "prj" "api" true None demo_snapshot 1)) demo_db) {["svc" := "one"; "other" := "two"]}.
Definition demo_env : RPCEnv := mkRPCEnv None None (fun _ _ _ => Ok "") (fun _ _ _ => Ok "") (fun _ _ => Ok "").
Definition demo_system : System := mkSystem demo_world {[0%nat := received "one" (RPCActivateDeployment "svc" "d1" "d0" 20)]}.
Lemma rpc_isolated_witness :
  let s := (@run demo_hostnames demo_config demo_env [MCall 0 no_fault] demo_system).1 in
  let s' := @move demo_hostnames demo_config demo_env (MCall 0 no_fault) s in
  s_active <$> services (store (world s')) !! "svc" = Some (Some "d1") /\ untouched "other" (store (world s)) (store (world s')).
Proof.
  split; [vm_compute; reflexivity|].
  refine (@rpc_isolated demo_hostnames demo_config demo_env (fun _ => "svc") demo_system [MCall 0 no_fault] 0 no_fault _ "other" _ _ _ _ _ _).
  - intros j x Hj. simpl in Hj. apply lookup_singleton_Some in Hj as [_ <-]. reflexivity.
  - intros j x input Hj Hx. simpl in Hj. apply lookup_singleton_Some in Hj as [_ <-]. discriminate Hx.
  - intros id d Hd. unfold demo_world, demo_db in Hd. simpl in Hd. apply lookup_insert_Some in Hd as [[_ <-]|[_ Hd]]; [reflexivity|]. by apply lookup_singleton_Some in Hd as [_ <-].
  - repeat constructor.
  - vm_compute. reflexivity.
  - intros w Hw. apply list_elem_of_singleton in Hw as ->. vm_compute. discriminate.
Defined.
