(* ===== verification/HostHub.v ===== *)
(** * HostHub: sessions of child hosts

    [internal/hosthub/hub.go], [connect.go] and [tunnel.go]: the control sessions of child
    hosts, the commands queued for them and their tunnels.  Sessions are objects in a heap,
    as handlers hold on to sessions that are no longer registered; every section under the
    lock, every cancellation and closing that follows it after the unlock, every queue
    operation and every store operation is a step of its own. *)

From S2P Require Import Prelude Names ServiceConfig DeploymentStore Base64 Authentication HostStore.

Definition writeQueueDepth : nat := 64.
Definition childOfflineMessage : string := "Child server is offline".
Definition childAwaitingStatusMessage : string := "Waiting for child status".
Definition ErrHostOffline : goerr := Sentinel "ErrHostOffline" "child server is offline".
Definition ErrHostBusy : goerr := Sentinel "ErrHostBusy" "child server is not accepting commands".

Record Envelope := mkEnvelope { en_id : string; en_kind : string; en_payload : string; en_error : string }.
Record serviceReport := mkReport { rp_status : string; rp_message : string }.
(** A session; [ss_detached] after its handler is through with it, [ss_late] when the hub was
    closed before it was attached; [ss_accepted] and [ss_written] are the envelopes that were put into its queue
    and that went to its connection. *)
Record session := mkSession {
  ss_host : string; ss_cancelled : bool; ss_writes : list Envelope; ss_tunnel : option nat; ss_services : gmap string serviceReport;
  ss_detached : bool; ss_late : bool; ss_accepted : list Envelope; ss_written : list Envelope
}.
(** What some goroutine is about to do, the lock released: the sessions to be cancelled, the
    tunnels to be closed, the envelopes of a broadcast to be queued. *)
Record Pending := mkPending { to_cancel : gset nat; to_close : gset nat; to_queue : list (nat * Envelope) }.
(** The hub; [heap] are all sessions, [opened] the tunnels that are not closed. *)
Record Hub := mkHub { closed : bool; sessions : gmap string nat; heap : gmap nat session; opened : gset nat; pending : Pending; hub_db : HostDB }.
Definition NewHub (db : HostDB) : Hub := mkHub false ∅ ∅ ∅ (mkPending ∅ ∅ []) db.

Definition set_session (loc : nat) (f : session -> session) (hub : Hub) : Hub :=
  mkHub (closed hub) (sessions hub) (alter f loc (heap hub)) (opened hub) (pending hub) (hub_db hub).
Definition with_pending (p : Pending) (hub : Hub) : Hub := mkHub (closed hub) (sessions hub) (heap hub) (opened hub) p (hub_db hub).
Definition cancel_later (locs : gset nat) (hub : Hub) : Hub :=
  with_pending (mkPending (locs ∪ to_cancel (pending hub)) (to_close (pending hub)) (to_queue (pending hub))) hub.
Definition close_later (peers : gset nat) (hub : Hub) : Hub :=
  with_pending (mkPending (to_cancel (pending hub)) (peers ∪ to_close (pending hub)) (to_queue (pending hub))) hub.
Definition cancel (c : session) : session :=
  mkSession (ss_host c) true (ss_writes c) (ss_tunnel c) (ss_services c) (ss_detached c) (ss_late c) (ss_accepted c) (ss_written c).
Definition set_tunnel (peer : option nat) (c : session) : session :=
  mkSession (ss_host c) (ss_cancelled c) (ss_writes c) peer (ss_services c) (ss_detached c) (ss_late c) (ss_accepted c) (ss_written c).

(** ** hub.go *)

(** The cancellation of a session and the closing of a tunnel, once they happen. *)
Definition doCancel (loc : nat) (hub : Hub) : Hub :=
  if bool_decide (loc ∈ to_cancel (pending hub))
  then with_pending (mkPending (to_cancel (pending hub) ∖ {[ loc ]}) (to_close (pending hub)) (to_queue (pending hub))) (set_session loc cancel hub)
  else hub.
Definition doClose (peer : nat) (hub : Hub) : Hub :=
  if bool_decide (peer ∈ to_close (pending hub))
  then mkHub (closed hub) (sessions hub) (heap hub) (opened hub ∖ {[ peer ]})
         (mkPending (to_cancel (pending hub)) (to_close (pending hub) ∖ {[ peer ]}) (to_queue (pending hub))) (hub_db hub)
  else hub.

Definition some_set (o : option nat) : gset nat := match o with Some x => {[ x ]} | None => ∅ end.
Definition attach (hostID : string) (hub : Hub) : nat * Hub :=
  let loc := fresh (dom (heap hub)) in
  let current := mkSession hostID false [] None ∅ false (closed hub) [] [] in
  let previous := sessions hub !! hostID in
  (loc, cancel_later (some_set previous)
          (mkHub (closed hub) (if closed hub then sessions hub else <[hostID := loc]> (sessions hub)) (<[loc := current]> (heap hub)) (opened hub) (pending hub) (hub_db hub))).
(** detach, under the lock; the tunnel is closed after it, and then ConnectHandler cancels
    the context. *)
Definition detach (loc : nat) (hub : Hub) : Hub :=
  match heap hub !! loc with
  | None => hub
  | Some c =>
      cancel_later {[ loc ]} (close_later (some_set (ss_tunnel c))
        (mkHub (closed hub) (if bool_decide (sessions hub !! ss_host c = Some loc) then delete (ss_host c) (sessions hub) else sessions hub)
           (<[loc := mkSession (ss_host c) (ss_cancelled c) (ss_writes c) None (ss_services c) true (ss_late c) (ss_accepted c) (ss_written c)]> (heap hub))
           (opened hub) (pending hub) (hub_db hub)))
  end.
Definition Close (hub : Hub) : Hub :=
  cancel_later (list_to_set (snd <$> map_to_list (sessions hub))) (mkHub true ∅ (heap hub) (opened hub) (pending hub) (hub_db hub)).
Definition Connected (hostID : string) (hub : Hub) : bool := bool_decide (is_Some (sessions hub !! hostID)).
Definition lookup_session (hostID : string) (hub : Hub) : option (nat * session) :=
  match sessions hub !! hostID with Some loc => (fun c => (loc, c)) <$> heap hub !! loc | None => None end.
Definition ServiceStatus (hostID serviceID : string) (enabled : bool) (hub : Hub) : string * string :=
  if negb enabled then ("disabled", "")
  else match lookup_session hostID hub with
       | None => ("pending", childOfflineMessage)
       | Some (_, c) => match ss_services c !! serviceID with
                        | None => ("pending", childAwaitingStatusMessage)
                        | Some report => (rp_status report, rp_message report)
                        end
       end.
(** A channel of capacity 64. *)
Definition full (c : session) : bool := (writeQueueDepth <=? length (ss_writes c))%nat.
Definition enqueue (e : Envelope) (c : session) : session :=
  if full c then c
  else mkSession (ss_host c) (ss_cancelled c) (ss_writes c ++ [e]) (ss_tunnel c) (ss_services c) (ss_detached c) (ss_late c) (ss_accepted c ++ [e]) (ss_written c).
(** send after the lookup of the session. *)
Definition send (e : Envelope) (loc : option nat) (hub : Hub) : result goerr unit * Hub :=
  match loc with
  | None => (Err ErrHostOffline, hub)
  | Some loc =>
      match heap hub !! loc with
      | None => (Err ErrHostOffline, hub)
      | Some c => if full c then (Err ErrHostBusy, hub) else (Ok tt, set_session loc (enqueue e) hub)
      end
  end.
(** broadcast takes the sessions registered under the lock, and then queues its envelope in
    each of them that has room ([doQueue]). *)
Definition broadcast (e : Envelope) (hub : Hub) : Hub :=
  with_pending (mkPending (to_cancel (pending hub)) (to_close (pending hub)) (to_queue (pending hub) ++ ((fun x => (x.2, e)) <$> map_to_list (sessions hub)))) hub.
Definition doQueue (i : nat) (hub : Hub) : Hub :=
  match to_queue (pending hub) !! i with
  | None => hub
  | Some (loc, e) =>
      with_pending (mkPending (to_cancel (pending hub)) (to_close (pending hub)) (delete i (to_queue (pending hub)))) (set_session loc (enqueue e) hub)
  end.

(** ** connect.go *)

(** writeLoop takes an envelope; [failed] when it cannot be written. *)
Definition writeLoop (failed : bool) (loc : nat) (hub : Hub) : Hub :=
  set_session loc (fun c =>
    match ss_writes c with
    | [] => c
    | e :: rest =>
        if ss_cancelled c then c
        else if failed then cancel (mkSession (ss_host c) (ss_cancelled c) rest (ss_tunnel c) (ss_services c) (ss_detached c) (ss_late c) (ss_accepted c) (ss_written c ++ [e]))
        else mkSession (ss_host c) (ss_cancelled c) rest (ss_tunnel c) (ss_services c) (ss_detached c) (ss_late c) (ss_accepted c) (ss_written c ++ [e])
    end) hub.
Definition known_status (status : string) : bool := bool_decide (status ∈ ["pending"; "running"; "failed"; "degraded"; "disabled"]).
Definition recordServices (hostID : string) (reports : list (string * serviceReport)) (hub : Hub) : Hub :=
  let next := fold_left (fun m x => if bool_decide (x.1 = "") || negb (known_status (rp_status x.2)) then m else <[x.1 := x.2]> m) reports ∅ in
  match lookup_session hostID hub with
  | None => hub
  | Some (loc, _) => set_session loc (fun c => mkSession (ss_host c) (ss_cancelled c) (ss_writes c) (ss_tunnel c) next (ss_detached c) (ss_late c) (ss_accepted c) (ss_written c)) hub
  end.

(** ** tunnel.go *)

(** TunnelHandler once the connection [peer] is accepted; [current] is the session it found
    before. *)
Definition attachTunnel (hostID : string) (current peer : nat) (hub : Hub) : Hub :=
  if bool_decide (sessions hub !! hostID = Some current) then
    match heap hub !! current with
    | None => hub
    | Some c => close_later (some_set (ss_tunnel c))
                  (mkHub (closed hub) (sessions hub) (<[current := set_tunnel (Some peer) c]> (heap hub)) ({[ peer ]} ∪ opened hub) (pending hub) (hub_db hub))
    end
  else close_later {[ peer ]} (mkHub (closed hub) (sessions hub) (heap hub) ({[ peer ]} ∪ opened hub) (pending hub) (hub_db hub)).
(** The tunnel stops serving, which closes it; its session drops it later, under the lock. *)
Definition serveEnds (peer : nat) (hub : Hub) : Hub :=
  mkHub (closed hub) (sessions hub) (heap hub) (opened hub ∖ {[ peer ]}) (pending hub) (hub_db hub).
Definition endTunnel (current peer : nat) (hub : Hub) : Hub :=
  set_session current (fun c => if bool_decide (ss_tunnel c = Some peer) then set_tunnel None c else c) hub.

(** ** Runs *)

Section Runs.
Context `{AuthLibrary} `{HostLibrary}.

(** [connecting]: the connections whose credential was verified and that have no session yet. *)
Record HubSystem := mkHubSystem { hub : Hub; connecting : gmap nat string }.
Inductive HubOp :=
| HVerify (connection : nat) (token : string)
| HAttach (connection : nat)
| HDetach (loc : nat)
| HClose
| HSend (e : Envelope) (loc : option nat)
| HBroadcast (e : Envelope)
| HWrite (failed : bool) (loc : nat)
| HStatus (hostID : string) (reports : list (string * serviceReport))
| HTunnel (hostID : string) (current peer : nat)
| HServeEnds (peer : nat)
| HEndTunnel (current peer : nat)
| HDoCancel (loc : nat)
| HDoClose (peer : nat)
| HDoQueue (i : nat)
| HDeleteHost (fault : TxFault) (i : DeleteInput)
| HCancel (loc : nat)
| HStore (f : HostDB -> HostDB).
Definition hub_step (s : HubSystem) (op : HubOp) : HubSystem :=
  let on (h : Hub) := mkHubSystem h (connecting s) in
  let on_db (db : HostDB) := on (mkHub (closed (hub s)) (sessions (hub s)) (heap (hub s)) (opened (hub s)) (pending (hub s)) db) in
  match op with
  | HVerify connection token =>
      match connectVerify token (hub_db (hub s)) with Some (hostID, _) => mkHubSystem (hub s) (<[connection := hostID]> (connecting s)) | None => s end
  | HAttach connection =>
      match connecting s !! connection with Some hostID => mkHubSystem (attach hostID (hub s)).2 (delete connection (connecting s)) | None => s end
  | HDetach loc => on (detach loc (hub s))
  | HClose => on (Close (hub s))
  | HSend e loc => on (send e loc (hub s)).2
  | HBroadcast e => on (broadcast e (hub s))
  | HWrite failed loc => on (writeLoop failed loc (hub s))
  | HStatus hostID reports => on (recordServices hostID reports (hub s))
  | HTunnel hostID current peer => on (attachTunnel hostID current peer (hub s))
  | HServeEnds peer => on (serveEnds peer (hub s))
  (* The handler of a tunnel gets there when the tunnel is closed. *)
  | HEndTunnel current peer => if bool_decide (peer ∈ opened (hub s)) then s else on (endTunnel current peer (hub s))
  | HDoCancel loc => on (doCancel loc (hub s))
  | HDoClose peer => on (doClose peer (hub s))
  | HDoQueue i => on (doQueue i (hub s))
  | HDeleteHost fault i => on_db (DeleteHost fault i (hub_db (hub s))).2
  | HCancel loc => on (set_session loc cancel (hub s))
  | HStore f => on_db (f (hub_db (hub s)))
  end.
Definition hub_run (ops : list HubOp) (db : HostDB) : HubSystem := fold_left hub_step ops (mkHubSystem (NewHub db) ∅).

(** ** Sessions, queues and tunnels *)

(** What was accepted is written or queued, in this order, and the queue is bounded. *)
Definition queue_ok (c : session) : Prop := ss_accepted c = ss_written c ++ ss_writes c /\ (length (ss_writes c) <= writeQueueDepth)%nat.
Record hub_inv (h : Hub) : Prop := {
  hv_queue : forall loc c, heap h !! loc = Some c -> queue_ok c;
  hv_registered : forall hostID loc, sessions h !! hostID = Some loc -> exists c, heap h !! loc = Some c /\ ss_host c = hostID /\ ss_detached c = false;
  hv_live : forall loc c, heap h !! loc = Some c -> ss_cancelled c = false ->
              sessions h !! ss_host c = Some loc \/ loc ∈ to_cancel (pending h) \/ ss_late c = true;
  hv_late : forall loc c, heap h !! loc = Some c -> ss_late c = true -> closed h = true;
  hv_tunnels : forall peer, peer ∈ opened h -> peer ∈ to_close (pending h) \/ exists loc c, heap h !! loc = Some c /\ ss_tunnel c = Some peer /\ ss_detached c = false
}.
Lemma lookup_alter_case (f : session -> session) loc (m : gmap nat session) k c' : alter f loc m !! k = Some c' ->
  (k = loc /\ exists c, m !! loc = Some c /\ c' = f c) \/ (k <> loc /\ m !! k = Some c').
Proof.
  destruct (decide (k = loc)) as [->|Hne]; [|rewrite lookup_alter_ne by done; by right]. rewrite lookup_alter_eq. intros (c & Hc & ->)%fmap_Some. left. eauto.
Qed.

(** A session changes, but neither its host nor its tunnel nor that it is over. *)
Definition mild (c c' : session) : Prop :=
  ss_host c' = ss_host c /\ ss_tunnel c' = ss_tunnel c /\ ss_detached c' = ss_detached c /\ ss_late c' = ss_late c
  /\ (ss_cancelled c = true -> ss_cancelled c' = true) /\ (queue_ok c -> queue_ok c').
Lemma set_session_inv loc f h : (forall c, heap h !! loc = Some c -> mild c (f c)) -> hub_inv h -> hub_inv (set_session loc f h).
Proof.
  intros Hm [I1 I2 I3 I4 I5]. split; simpl.
  - intros k c' [[-> (c & Hc & ->)]|[_ Hk]]%lookup_alter_case; [|by eapply I1]. destruct (Hm c Hc) as (_ & _ & _ & _ & _ & Hq). by eapply Hq, I1.
  - intros hostID k (c & Hc & Eh & Ed)%I2. destruct (decide (k = loc)) as [->|Hne]; [|exists c; by rewrite lookup_alter_ne].
    destruct (Hm c Hc) as (M1 & M2 & M3 & _). exists (f c). rewrite lookup_alter_eq, Hc. split; [done|]. by rewrite M1, M3.
  - intros k c' [[-> (c & Hc & ->)]|[_ Hk]]%lookup_alter_case; [|by apply I3]. destruct (Hm c Hc) as (M1 & _ & _ & M4 & M5 & _). intros Hl. rewrite M1, M4. apply I3; [done|].
    destruct (ss_cancelled c); [|done]. by rewrite M5 in Hl.
  - intros k c' [[-> (c & Hc & ->)]|[_ Hk]]%lookup_alter_case; [|by eapply I4]. destruct (Hm c Hc) as (_ & _ & _ & M4 & _). rewrite M4. by eapply I4.
  - intros peer [Hp|(k & c & Hc & Et & Ed)]%I5; [by left|right]. destruct (decide (k = loc)) as [->|Hne]; [|exists k, c; by rewrite lookup_alter_ne].
    destruct (Hm c Hc) as (M1 & M2 & M3 & _). exists loc, (f c). rewrite lookup_alter_eq, Hc. split; [done|]. by rewrite M2, M3.
Qed.
(** What is pending may grow. *)
Lemma with_pending_inv p h : to_cancel (pending h) ⊆ to_cancel p -> to_close (pending h) ⊆ to_close p -> hub_inv h -> hub_inv (with_pending p h).
Proof.
  intros H1 H2 [I1 I2 I3 I4 I5]. split; simpl; [done|done| |done|].
  - intros loc c Hc Hl. destruct (I3 loc c Hc Hl) as [?|[?|?]]; [by left|right; left; set_solver|by right; right].
  - intros peer [?|?]%I5; [left; set_solver|by right].
Qed.
Lemma cancel_mild c : mild c (cancel c).
Proof. unfold mild. by split_and!. Qed.
Lemma enqueue_mild e c : mild c (enqueue e c).
Proof.
  unfold enqueue, full. destruct (Nat.leb_spec writeQueueDepth (length (ss_writes c))) as [|Hlt]; [unfold mild; by split_and!|]. unfold mild. split_and!; try done.
  intros [Ha _]. split; simpl; [rewrite Ha; by rewrite app_assoc|]. rewrite length_app. simpl. lia.
Qed.
Lemma broadcast_inv e h : hub_inv h -> hub_inv (broadcast e h).
Proof. by apply with_pending_inv. Qed.
Lemma doQueue_inv i h : hub_inv h -> hub_inv (doQueue i h).
Proof.
  intros Hinv. unfold doQueue. destruct (to_queue _ !! i) as [[loc e]|]; [|done]. apply with_pending_inv; [done|done|].
  apply set_session_inv; [intros c _; apply enqueue_mild|done].
Qed.
Lemma send_inv e loc h : hub_inv h -> hub_inv (send e loc h).2.
Proof.
  intros Hinv. unfold send. destruct loc as [loc|]; [|done]. destruct (heap h !! loc); [|done]. case_match; [done|]. apply set_session_inv; [intros c _; apply enqueue_mild|done].
Qed.
Lemma writeLoop_inv failed loc h : hub_inv h -> hub_inv (writeLoop failed loc h).
Proof.
  intros Hinv. apply set_session_inv; [|done]. intros c _. destruct (ss_writes c) as [|e rest] eqn:Hw; [unfold mild; by split_and!|]. destruct (ss_cancelled c) eqn:Hc; [unfold mild; by split_and!|].
  destruct failed; unfold mild; simpl; rewrite ?Hc; split_and!; try done; (intros [Ha Hl]; split; simpl; [rewrite Ha, Hw; by rewrite <- app_assoc|rewrite Hw in Hl; simpl in Hl; lia]).
Qed.
Lemma recordServices_inv hostID reports h : hub_inv h -> hub_inv (recordServices hostID reports h).
Proof.
  intros Hinv. unfold recordServices. destruct (lookup_session hostID h) as [[loc c0]|]; [|done]. apply set_session_inv; [|done]. intros c _. unfold mild. by split_and!.
Qed.

(** The steps that change sessions, tunnels or the table. *)
Lemma attach_inv hostID h : hub_inv h -> hub_inv (attach hostID h).2.
Proof.
  intros [I1 I2 I3 I4 I5]. unfold attach. set (loc := fresh (dom (heap h))). assert (heap h !! loc = None) as Hnew by (apply not_elem_of_dom, is_fresh).
  assert (forall k c, heap h !! k = Some c -> k <> loc) as Hne by (intros k c Hk ->; congruence). split; simpl.
  - intros k c [[<- <-]|[_ Hk]]%lookup_insert_Some; [split; simpl; [done|unfold writeQueueDepth; lia]|by eapply I1].
  - intros h' k Hk. assert ((h' = hostID /\ k = loc) \/ sessions h !! h' = Some k) as [[-> ->]|Hk'].
    { destruct (closed h); [by right|]. apply lookup_insert_Some in Hk as [[<- <-]|[_ Hk]]; [by left|by right]. }
    + eexists. by rewrite lookup_insert_eq.
    + destruct (I2 _ _ Hk') as (c & Hc & Hr). exists c. by rewrite lookup_insert_ne by (apply not_eq_sym; by eapply Hne).
  - intros k c [[<- <-]|[_ Hk]]%lookup_insert_Some Hl; simpl; [destruct (closed h); [by right; right|left; apply lookup_insert_eq]|].
    destruct (I3 k c Hk Hl) as [Hs|[Hs|Hs]]; [|right; left; set_solver|by right; right]. destruct (decide (ss_host c = hostID)) as [<-|Hh].
    + right; left. rewrite Hs. simpl. set_solver.
    + left. destruct (closed h); [done|]. by rewrite lookup_insert_ne.
  - intros k c [[<- <-]|[_ Hk]]%lookup_insert_Some; [done|by eapply I4].
  - intros peer [Hp|(k & c & Hc & Hr)]%I5; [by left|right]. exists k, c. by rewrite lookup_insert_ne by (apply not_eq_sym; by eapply Hne).
Qed.
Lemma detach_inv loc h : hub_inv h -> hub_inv (detach loc h).
Proof.
  intros [I1 I2 I3 I4 I5]. unfold detach. destruct (heap h !! loc) as [c|] eqn:Hc; [|done]. split; simpl.
  - intros k x [[<- <-]|[_ Hk]]%lookup_insert_Some; [exact (I1 _ _ Hc)|by eapply I1].
  - intros hostID k Hk. assert (sessions h !! hostID = Some k) as Hs by (case_bool_decide; [by apply lookup_delete_Some in Hk as [_ Hk]|done]).
    destruct (I2 _ _ Hs) as (x & Hx & Ex & Dx). exists x. rewrite lookup_insert_ne; [done|]. intros <-. rewrite Hc in Hx. injection Hx as <-.
    rewrite bool_decide_true in Hk by congruence. subst. by rewrite lookup_delete_eq in Hk.
  - intros k x [[<- <-]|[Hne Hk]]%lookup_insert_Some Hl; simpl; [right; left; set_solver|].
    destruct (I3 k x Hk Hl) as [Hs|[Hs|Hs]]; [|right; left; set_solver|by right; right]. left. case_bool_decide as E; [|done]. rewrite lookup_delete_ne; [done|]. intros Heq. rewrite Heq in E. congruence.
  - intros k x [[<- <-]|[_ Hk]]%lookup_insert_Some; [exact (I4 _ _ Hc)|by eapply I4].
  - intros peer [Hp|(k & x & Hx & Et & Ed)]%I5; [left; set_solver|]. destruct (decide (k = loc)) as [->|Hne].
    + left. rewrite Hc in Hx. injection Hx as <-. rewrite Et. simpl. set_solver.
    + right. exists k, x. by rewrite lookup_insert_ne.
Qed.
Lemma attachTunnel_inv hostID current peer h : hub_inv h -> hub_inv (attachTunnel hostID current peer h).
Proof.
  intros [I1 I2 I3 I4 I5]. unfold attachTunnel. case_bool_decide as Hs.
  - destruct (heap h !! current) as [c|] eqn:Hc; [|done].
    assert (ss_detached c = false) as Hd by (destruct (I2 _ _ Hs) as (x & Hx & _ & Dx); congruence). split; simpl.
    + intros k x [[<- <-]|[_ Hk]]%lookup_insert_Some; [exact (I1 _ _ Hc)|by eapply I1].
    + intros h' k (x & Hx & Hr)%I2. destruct (decide (k = current)) as [->|Hne]; [|exists x; by rewrite lookup_insert_ne].
      exists (set_tunnel (Some peer) c). rewrite lookup_insert_eq. rewrite Hc in Hx. by injection Hx as <-.
    + intros k x [[<- <-]|[_ Hk]]%lookup_insert_Some; [exact (I3 _ _ Hc)|by apply I3].
    + intros k x [[<- <-]|[_ Hk]]%lookup_insert_Some; [exact (I4 _ _ Hc)|by eapply I4].
    + intros p [->%elem_of_singleton|Hp]%elem_of_union; [right; exists current, (set_tunnel (Some peer) c); by rewrite lookup_insert_eq|].
      destruct (I5 _ Hp) as [Hp'|(k & x & Hx & Et & Ed)]; [left; set_solver|]. destruct (decide (k = current)) as [->|Hne]; [|right; exists k, x; by rewrite lookup_insert_ne].
      left. rewrite Hc in Hx. injection Hx as <-. rewrite Et. simpl. set_solver.
  - split; simpl; [done..|]. intros p [->%elem_of_singleton|[?|?]%I5]%elem_of_union; [left; set_solver..|by right].
Qed.
Lemma endTunnel_inv current peer h : peer ∉ opened h -> hub_inv h -> hub_inv (endTunnel current peer h).
Proof.
  intros Hout [I1 I2 I3 I4 I5]. unfold endTunnel. split; simpl.
  - intros k x [[-> (c & Hc & ->)]|[_ Hk]]%lookup_alter_case; [|by eapply I1]. specialize (I1 _ _ Hc). by case_bool_decide.
  - intros h' k (c & Hc & Eh & Ed)%I2. destruct (decide (k = current)) as [->|Hne]; [|exists c; by rewrite lookup_alter_ne]. eexists. rewrite lookup_alter_eq, Hc. split; [done|]. by case_bool_decide.
  - intros k x [[-> (c & Hc & ->)]|[_ Hk]]%lookup_alter_case; [|by apply I3]. specialize (I3 _ _ Hc). by case_bool_decide.
  - intros k x [[-> (c & Hc & ->)]|[_ Hk]]%lookup_alter_case; [|by eapply I4]. specialize (I4 _ _ Hc). by case_bool_decide.
  - intros p Hp. destruct (I5 _ Hp) as [?|(k & c & Hc & Et & Ed)]; [by left|right]. exists k, c. destruct (decide (k = current)) as [->|Hk]; [|by rewrite lookup_alter_ne].
    rewrite lookup_alter_eq, Hc. simpl. rewrite bool_decide_false; [done|]. rewrite Et. intros [= <-]. done.
Qed.
Lemma serveEnds_inv peer h : hub_inv h -> hub_inv (serveEnds peer h).
Proof. intros [I1 I2 I3 I4 I5]. split; simpl; [done..|]. intros p [Hp _]%elem_of_difference. by apply I5. Qed.
Lemma Close_inv h : hub_inv h -> hub_inv (Close h).
Proof.
  intros [I1 I2 I3 I4 I5]. split; simpl; [done| | |done|done].
  - intros h' k. by rewrite lookup_empty.
  - intros loc c Hc Hl. destruct (I3 _ _ Hc Hl) as [Hs|[Hs|Hs]]; [|right; left; set_solver|by right; right]. right; left. apply elem_of_union_l, elem_of_list_to_set, list_elem_of_fmap.
    exists (ss_host c, loc). split; [done|]. by apply elem_of_map_to_list.
Qed.
Lemma doCancel_inv loc h : hub_inv h -> hub_inv (doCancel loc h).
Proof.
  intros Hinv. unfold doCancel. case_bool_decide; [|done]. apply (set_session_inv loc cancel) in Hinv as [I1 I2 I3 I4 I5]; [|intros c _; apply cancel_mild].
  split; simpl; [done|done| |done|done]. intros k c Hk Hl. destruct (I3 k c Hk Hl) as [?|[Hc|?]]; [by left| |by right; right]. right; left.
  apply elem_of_difference. split; [done|]. intros ->%elem_of_singleton. apply lookup_alter_case in Hk as [[_ (x & _ & ->)]|[? _]]; done.
Qed.
Lemma doClose_inv peer h : hub_inv h -> hub_inv (doClose peer h).
Proof.
  intros [I1 I2 I3 I4 I5]. unfold doClose. case_bool_decide; [|done]. split; simpl; [done..|].
  intros p [Hp Hne]%elem_of_difference. destruct (I5 _ Hp) as [?|?]; [left; set_solver|by right].
Qed.

Lemma hub_step_inv op s : hub_inv (hub s) -> hub_inv (hub (hub_step s op)).
Proof.
  intros Hinv. destruct op; simpl.
  - by destruct (connectVerify _ _) as [[]|].
  - destruct (connecting s !! connection); [|done]. by apply attach_inv.
  - by apply detach_inv.
  - by apply Close_inv.
  - by apply send_inv.
  - by apply broadcast_inv.
  - by apply writeLoop_inv.
  - by apply recordServices_inv.
  - by apply attachTunnel_inv.
  - by apply serveEnds_inv.
  - case_bool_decide; [done|]. by apply endTunnel_inv.
  - by apply doCancel_inv.
  - by apply doClose_inv.
  - by apply doQueue_inv.
  - destruct Hinv. by split.
  - apply set_session_inv; [intros c _; apply cancel_mild|done].
  - destruct Hinv. by split.
Qed.

(** C13. Sessions of child hosts, in every interleaving of connections, commands, tunnels and
    disconnections, also between a section under the hub's lock and the cancellations and
    closings that follow it: a session that is not cancelled is the registered one of its
    host, or its cancellation is about to be carried out, or it was attached after the hub
    was closed (so at most one session of a host lives for good, the registered one); a
    registered session is not over; a tunnel that is not closed belongs to a session that
    is not over, or its closing is about to be carried out; and what a session accepted is
    what it wrote followed by what it has queued, in order, at most 64 envelopes. *)
Theorem hub_sessions (ops : list HubOp) (db : HostDB) :
  let h := hub (hub_run ops db) in
  (forall loc c, heap h !! loc = Some c -> ss_cancelled c = false ->
     sessions h !! ss_host c = Some loc \/ loc ∈ to_cancel (pending h) \/ (ss_late c = true /\ closed h = true))
  /\ (forall hostID loc, sessions h !! hostID = Some loc -> exists c, heap h !! loc = Some c /\ ss_host c = hostID /\ ss_detached c = false)
  /\ (forall peer, peer ∈ opened h ->
        peer ∈ to_close (pending h) \/ exists loc c, heap h !! loc = Some c /\ ss_tunnel c = Some peer /\ ss_detached c = false)
  /\ (forall loc c, heap h !! loc = Some c -> ss_accepted c = ss_written c ++ ss_writes c /\ (length (ss_writes c) <= 64)%nat).
Proof.
  intros h. assert (hub_inv h) as [I1 I2 I3 I4 I5].
  { unfold h, hub_run. assert (hub_inv (hub (mkHubSystem (NewHub db) ∅))) as Hinit.
    { split; simpl; [intros loc c Hc|intros hostID loc Hc|intros loc c Hc|intros loc c Hc|intros peer Hp]; [by rewrite lookup_empty in Hc..|by apply elem_of_empty in Hp]. }
    revert Hinit. generalize (mkHubSystem (NewHub db) ∅). induction ops as [|op ops IH]; intros s Hs; [done|]. by apply IH, hub_step_inv. }
  split; [|by split_and!]. intros loc c Hc Hl. destruct (I3 _ _ Hc Hl) as [?|[?|?]]; [by left|by right; left|right; right]. split; [done|by eapply I4].
Qed.
End Runs.

(** ** A host that is deleted while it connects

    Its credential is checked before the session is attached.  When the host is deleted in
    between there is no session to cancel, and the session is attached afterwards: the
    deleted host stays connected and gets what the hub sends, certificates included. *)
Section Deleted.
#[local] Existing Instance AuthDemo.demo_library.
#[local] Existing Instance HostStore.demo_hash.
Definition deleting : list HubOp := [HVerify 0 demo_host_token; HDeleteHost no_fault (mkDelete demo_host_id "a9" "admin" 3000); HAttach 0].
Lemma deleted_host_connects :
  let s := hub_run deleting (hdb (host_run demo_joins)) in
  hosts (hub_db (hub s)) !! demo_host_id = None /\ Connected demo_host_id (hub s) = true
  /\ (send (mkEnvelope "" "certificates" "key" "") (sessions (hub s) !! demo_host_id) (hub s)).1 = Ok tt.
Proof. vm_compute. repeat split; reflexivity. Qed.

(** A connection that was verified before the hub closed and attached after it: the session
    is neither registered nor cancelled, and nobody is left to cancel it. *)
Lemma late_session_lives :
  let h := hub (hub_run [HVerify 0 demo_host_token; HClose; HAttach 0] (hdb (host_run demo_joins))) in
  ss_cancelled <$> heap h !! 0%nat = Some false /\ sessions h !! demo_host_id = None
  /\ bool_decide (to_cancel (pending h) = ∅) = true.
Proof. vm_compute. repeat split; reflexivity. Qed.
End Deleted.
