(* ===== verification/PortProxy.v ===== *)
(** * PortProxy: listeners of services and gateways, and UDP sessions

    [internal/portproxy/manager.go] and [udp.go].  The manager owns one listener per
    address; a UDP endpoint keeps a socket to the backend per client, with a goroutine that
    reads the replies.  Sessions are objects in a heap: a reader goes on with a session that
    is no longer in the table. *)

From stdpp Require Import pretty.
From Stdlib Require Import Ascii.
From S2P Require Import Prelude Names.

(** ** Routes: manager.go *)

Definition validPort (port : Z) : bool := (1 <=? port) && (port <=? 65535).
Inductive Target :=
| ServiceTarget (serviceID : string) (port : Z)
| AddressTarget (host : string) (port : Z) (sourceAddress : string).
Definition unsafe_byte (c : ascii) : bool := Ascii.eqb c "000" || Ascii.eqb c "013" || Ascii.eqb c "010".
Definition Validate (target : Target) : option goerr :=
  match target with
  | ServiceTarget serviceID port => if bool_decide (serviceID = "") || negb (validPort port) then Some (Msg "service proxy target is incomplete") else None
  | AddressTarget host port source =>
      if bool_decide (trim_space host = "") || negb (str_forall (fun c => negb (unsafe_byte c)) host) || negb (validPort port) then Some (Msg "address proxy target is incomplete")
      else if negb (bool_decide (source = "")) && (negb (is_ipv4 source) || forallb (fun f => dec_value 0 f =? 0) (split dot source))
      then Some (Msg "proxy source address must be a specific IPv4 address") else None
  end.
Record Route := mkRoute {
  rt_ID : string; rt_Protocol : string; rt_Address : string; rt_Port : Z; rt_ListenPID : Z; rt_DialPID : Z; rt_Gateway : string; rt_Target : option Target
}.
Section Proxy.
Context `{HostnameTables}.

Definition normalizeProtocol (protocol : string) : result goerr string :=
  let p := strings_ToLower (trim_space protocol) in
  if bool_decide (p = "tcp") || bool_decide (p = "udp") then Ok p else Err (Msg "proxy protocol must be tcp or udp").
(** The text of an IPv4 address is its canonical one. *)
Definition normalizeListenAddress (value : string) : result goerr string :=
  if is_ipv4 (trim_space value) then Ok (trim_space value) else Err (Msg "proxy listen address must be IPv4").
Definition routeKey (protocol address : string) (port namespacePID : Z) : string :=
  pretty namespacePID +:+ ":" +:+ protocol +:+ ":" +:+ address +:+ ":" +:+ pretty port.

(** An endpoint: the key of its listener, the listener and the route it serves. *)
Record endpointEntry := mkEntry { ee_key : string; ee_listener : nat; ee_route : Route }.
(** [listening] are the listeners that are open. *)
Record Manager := mkManager { endpoints : gmap string endpointEntry; owners : gmap string string; listening : gset nat }.
Definition NewManager : Manager := mkManager ∅ ∅ ∅.

(** The checks of Add, giving the normalised route and its key. *)
Definition checkRoute (route : Route) : result goerr (Route * string) :=
  let? protocol := normalizeProtocol (rt_Protocol route) in
  let? address := normalizeListenAddress (rt_Address route) in
  match rt_Target route with
  | None => Err (Msg "proxy route is incomplete")
  | Some target =>
      if bool_decide (rt_ID route = "") || negb (validPort (rt_Port route)) then Err (Msg "proxy route is incomplete")
      else if (rt_ListenPID route <? 0) || (rt_DialPID route <? 0) then Err (Msg "proxy network namespace PID cannot be negative")
      else match Validate target with
      | Some e => Err e
      | None =>
          if (rt_ListenPID route =? 0) && bool_decide (protocol = "tcp") && (rt_Port route =? 443) then Err (Msg "TCP port 443 is reserved by platformd HTTPS ingress")
          else Ok (mkRoute (rt_ID route) protocol address (rt_Port route) (rt_ListenPID route) (rt_DialPID route) (rt_Gateway route) (rt_Target route),
                   routeKey protocol address (rt_Port route) (rt_ListenPID route))
      end
  end.
(** [listen] is the error of the listener, if it cannot be opened. *)
Definition Add (route : Route) (listen : option goerr) (m : Manager) : option goerr * Manager :=
  match checkRoute route with
  | Err e => (Some e, m)
  | Ok (route, key) =>
      let owner := default "" (owners m !! key) in
      if negb (bool_decide (owner = "")) && negb (bool_decide (owner = rt_ID route)) then (Some (Msg "is already owned by another route"), m)
      else match endpoints m !! rt_ID route with
      | Some current =>
          if negb (bool_decide (ee_key current = key)) then (Some (Msg "remove a proxy route before changing its listener address"), m)
          else (None, mkManager (<[rt_ID route := mkEntry key (ee_listener current) route]> (endpoints m)) (owners m) (listening m))
      | None =>
          match listen with
          | Some e => (Some (Wrap "listen" e), m)
          | None => let l := fresh (listening m) in
                    (None, mkManager (<[rt_ID route := mkEntry key l route]> (endpoints m)) (<[key := rt_ID route]> (owners m)) ({[ l ]} ∪ listening m))
          end
      end
  end.
Definition Remove (routeID : string) (m : Manager) : Manager :=
  if bool_decide (routeID = "") then m
  else match endpoints m !! routeID with
  | None => m
  | Some current => mkManager (delete routeID (endpoints m)) (delete (ee_key current) (owners m)) (listening m ∖ {[ ee_listener current ]})
  end.
Definition CloseManager (m : Manager) : Manager :=
  mkManager ∅ ∅ (foldr (fun x l => l ∖ {[ ee_listener x.2 ]}) (listening m) (map_to_list (endpoints m))).

(** ** Sessions: udp.go *)

Definition maximumUDPSessions : nat := 1024.
Definition udpSessionIdle : Z := 60 * second.
(** [us_open]: the private socket; [us_reading]: its reader runs. *)
Record udpSession := mkUDP { us_backend : string; us_client : string; us_lastSeen : Z; us_open : bool; us_reading : bool }.
Record udpEndpoint := mkEndpoint { ud_closed : bool; ud_sessions : gmap string nat; ud_heap : gmap nat udpSession }.
Definition newUDPEndpoint : udpEndpoint := mkEndpoint false ∅ ∅.
Definition ErrClosed : goerr := Sentinel "net.ErrClosed" "use of closed network connection".

Definition close_socket (x : udpSession) : udpSession := mkUDP (us_backend x) (us_client x) (us_lastSeen x) false (us_reading x).
Definition seen (now : Z) (x : udpSession) : udpSession := mkUDP (us_backend x) (us_client x) now (us_open x) (us_reading x).
(** The session of a client is closed and forgotten. *)
Definition drop (client : string) (e : udpEndpoint) : udpEndpoint :=
  match ud_sessions e !! client with
  | Some loc => mkEndpoint (ud_closed e) (delete client (ud_sessions e)) (alter close_socket loc (ud_heap e))
  | None => e
  end.
Definition last_seen (e : udpEndpoint) (loc : nat) : Z := match ud_heap e !! loc with Some x => us_lastSeen x | None => 0 end.
(** [order] is the order of iteration over the sessions; the first of the oldest goes. *)
Definition oldest (e : udpEndpoint) (order : list (string * nat)) : option (string * nat) :=
  fold_left (fun best x => match best with None => Some x | Some y => if last_seen e x.2 <? last_seen e y.2 then Some x else best end) order None.
Definition evictOldestLocked (order : list (string * nat)) (e : udpEndpoint) : udpEndpoint :=
  match oldest e (List.filter (fun x => bool_decide (ud_sessions e !! x.1 = Some x.2)) order ++ map_to_list (ud_sessions e)) with Some (client, _) => drop client e | None => e end.
(** [dial] is the error of resolving or dialing the backend; [now] the time of the call. *)
Definition openSession (order : list (string * nat)) (client backendID : string) (dial : option goerr) (now : Z) (e : udpEndpoint) : result goerr nat * udpEndpoint :=
  let e := if (maximumUDPSessions <=? size (ud_sessions e))%nat then evictOldestLocked order e else e in
  match dial with
  | Some err => (Err err, e)
  | None => let loc := fresh (dom (ud_heap e)) in
            (Ok loc, mkEndpoint (ud_closed e) (<[client := loc]> (ud_sessions e)) (<[loc := mkUDP backendID client now true true]> (ud_heap e)))
  end.
Definition session_ (order : list (string * nat)) (client backendID : string) (dial : option goerr) (now : Z) (e : udpEndpoint) : result goerr nat * udpEndpoint :=
  if ud_closed e then (Err ErrClosed, e)
  else match ud_sessions e !! client ≫= fun loc => (fun x => (loc, x)) <$> ud_heap e !! loc with
       | Some (loc, x) => if bool_decide (us_backend x = backendID) then (Ok loc, mkEndpoint (ud_closed e) (ud_sessions e) (<[loc := seen now x]> (ud_heap e)))
                          else openSession order client backendID dial now (drop client e)
       | None => openSession order client backendID dial now e
       end.
(** One turn of readPrivate: a reply that reached the client, or an error of the socket or of
    the listener, which ends the reader. *)
Definition readPrivate (loc : nat) (failed : bool) (now : Z) (e : udpEndpoint) : udpEndpoint :=
  match ud_heap e !! loc with
  | None => e
  | Some x =>
      if negb (us_reading x) then e
      else if failed then mkEndpoint (ud_closed e) (ud_sessions e) (<[loc := mkUDP (us_backend x) (us_client x) (us_lastSeen x) (us_open x) false]> (ud_heap e))
      else if bool_decide (ud_sessions e !! us_client x = Some loc) then mkEndpoint (ud_closed e) (ud_sessions e) (<[loc := seen now x]> (ud_heap e)) else e
  end.
(** A tick of cleanIdle. *)
Definition cleanIdle (now : Z) (e : udpEndpoint) : udpEndpoint :=
  if ud_closed e then e
  else foldr (fun x e => if last_seen e x.2 <? now - udpSessionIdle then drop x.1 e else e) e (map_to_list (ud_sessions e)).
Definition CloseEndpoint (e : udpEndpoint) : udpEndpoint :=
  if ud_closed e then e
  else let e := foldr (fun x e => drop x.1 e) e (map_to_list (ud_sessions e)) in mkEndpoint true (ud_sessions e) (ud_heap e).

(** ** Runs *)

Inductive ManagerOp := MAdd (route : Route) (listen : option goerr) | MRemove (routeID : string) | MClose.
Definition manager_step (m : Manager) (op : ManagerOp) : Manager :=
  match op with MAdd route listen => (Add route listen m).2 | MRemove routeID => Remove routeID m | MClose => CloseManager m end.
Inductive UDPOp :=
| USession (order : list (string * nat)) (client backendID : string) (dial : option goerr) (now : Z)
| URead (loc : nat) (failed : bool) (now : Z)
| UTick (now : Z)
| UClose.
Definition udp_step (e : udpEndpoint) (op : UDPOp) : udpEndpoint :=
  match op with
  | USession order client backendID dial now => (session_ order client backendID dial now e).2
  | URead loc failed now => readPrivate loc failed now e
  | UTick now => cleanIdle now e
  | UClose => CloseEndpoint e
  end.

(** ** Listeners *)

Record manager_ok (m : Manager) : Prop := {
  mo_owner : forall id x, endpoints m !! id = Some x -> owners m !! ee_key x = Some id;
  mo_endpoint : forall key id, owners m !! key = Some id -> exists x, endpoints m !! id = Some x /\ ee_key x = key;
  mo_route : forall id x, endpoints m !! id = Some x -> id <> "" /\ rt_ID (ee_route x) = id
     /\ ee_key x = routeKey (rt_Protocol (ee_route x)) (rt_Address (ee_route x)) (rt_Port (ee_route x)) (rt_ListenPID (ee_route x))
     /\ ~ (rt_ListenPID (ee_route x) = 0 /\ rt_Protocol (ee_route x) = "tcp" /\ rt_Port (ee_route x) = 443);
  mo_listening : forall l, l ∈ listening m <-> exists id x, endpoints m !! id = Some x /\ ee_listener x = l;
  mo_listeners : forall id id' x x', endpoints m !! id = Some x -> endpoints m !! id' = Some x' -> ee_listener x = ee_listener x' -> id = id'
}.
Lemma checkRoute_ok route route' key : checkRoute route = Ok (route', key) -> rt_ID route' <> ""
  /\ key = routeKey (rt_Protocol route') (rt_Address route') (rt_Port route') (rt_ListenPID route')
  /\ ~ (rt_ListenPID route' = 0 /\ rt_Protocol route' = "tcp" /\ rt_Port route' = 443).
Proof.
  unfold checkRoute. destruct (normalizeProtocol _) as [protocol|]; [simpl|done]. destruct (normalizeListenAddress _) as [address|]; [simpl|done].
  destruct (rt_Target route) as [target|] eqn:Ht; [|done]. destruct (bool_decide (rt_ID route = "") || _) eqn:Hid; [done|]. destruct ((rt_ListenPID route <? 0) || _); [done|].
  destruct (Validate target); [done|]. destruct ((rt_ListenPID route =? 0) && _ && _) eqn:H443; [done|]. intros [= <- <-]. simpl. apply orb_false_iff in Hid as [Hid%bool_decide_eq_false _].
  split; [done|]. split; [done|]. intros (E1 & E2 & E3). rewrite E1, E2, E3 in H443. done.
Qed.
Lemma insert_case {A} (id i : string) (y x : A) (m : gmap string A) : <[id := y]> m !! i = Some x -> (i = id /\ x = y) \/ (i <> id /\ m !! i = Some x).
Proof. destruct (decide (i = id)) as [->|Hne]; [rewrite lookup_insert_eq; intros [= <-]; by left|rewrite lookup_insert_ne by done; by right]. Qed.
(** A route that is a checked one, with its key. *)
Definition good_route (id key : string) (r : Route) : Prop := id <> "" /\ rt_ID r = id
  /\ key = routeKey (rt_Protocol r) (rt_Address r) (rt_Port r) (rt_ListenPID r) /\ ~ (rt_ListenPID r = 0 /\ rt_Protocol r = "tcp" /\ rt_Port r = 443).
Lemma update_ok id key current r m : manager_ok m -> endpoints m !! id = Some current -> ee_key current = key -> good_route id key r ->
  manager_ok (mkManager (<[id := mkEntry key (ee_listener current) r]> (endpoints m)) (owners m) (listening m)).
Proof.
  intros [M1 M2 M3 M4 M5] Hc Hk Hr. split; simpl.
  - intros i x [[-> ->]|[_ Hx]]%insert_case; [simpl; rewrite <- Hk; by apply M1|by apply M1].
  - intros k i (x & Hx & Ek)%M2. destruct (decide (i = id)) as [->|Hne]; [|exists x; by rewrite lookup_insert_ne]. eexists. rewrite lookup_insert_eq. split; [done|]. simpl. congruence.
  - intros i x [[-> ->]|[_ Hx]]%insert_case; [exact Hr|by apply M3].
  - intros l. rewrite M4. split.
    + intros (i & x & Hx & El). destruct (decide (i = id)) as [->|Hne]; [|exists i, x; by rewrite lookup_insert_ne]. eexists id, _. rewrite lookup_insert_eq. split; [done|]. simpl. congruence.
    + intros (i & x & [[-> ->]|[_ Hx]]%insert_case & El); [by exists id, current|by exists i, x].
  - intros i i' x x' [[-> ->]|[_ Hx]]%insert_case [[-> ->]|[_ Hx']]%insert_case El; simpl in El; [done|by eapply (M5 id i')|by eapply (M5 i id)|by eapply (M5 i i')].
Qed.
Lemma listen_ok id key r m : manager_ok m -> endpoints m !! id = None -> owners m !! key = None -> good_route id key r -> let l := fresh (listening m) in
  manager_ok (mkManager (<[id := mkEntry key l r]> (endpoints m)) (<[key := id]> (owners m)) ({[ l ]} ∪ listening m)).
Proof.
  intros [M1 M2 M3 M4 M5] Hc Hnone Hr l. assert (l ∉ listening m) as Hl by apply is_fresh. split; simpl.
  - intros i x [[-> ->]|[_ Hx]]%insert_case; [apply lookup_insert_eq|]. rewrite lookup_insert_ne; [by apply M1|]. intros E. apply M1 in Hx. congruence.
  - intros k i [[<- <-]|[Hne Ho]]%lookup_insert_Some; [eexists; by rewrite lookup_insert_eq|]. destruct (M2 _ _ Ho) as (x & Hx & Ek). exists x. rewrite lookup_insert_ne by congruence. done.
  - intros i x [[-> ->]|[_ Hx]]%insert_case; [exact Hr|by apply M3].
  - intros k. rewrite elem_of_union, elem_of_singleton, M4. split.
    + intros [->|(i & x & Hx & El)]; [eexists id, _; by rewrite lookup_insert_eq|]. exists i, x. rewrite lookup_insert_ne by congruence. done.
    + intros (i & x & [[-> ->]|[_ Hx]]%insert_case & El); [by left|right; by exists i, x].
  - intros i i' x x' [[-> ->]|[_ Hx]]%insert_case [[-> ->]|[_ Hx']]%insert_case El; simpl in El; [done| | |by eapply (M5 i i')]; exfalso; apply Hl; apply M4; eauto.
Qed.
Lemma Add_ok route listen m : manager_ok m -> manager_ok (Add route listen m).2.
Proof.
  intros Hm. unfold Add. destruct (checkRoute route) as [[r key]|] eqn:Hr; [|done]. apply checkRoute_ok in Hr as (Hid & Hkey & H443).
  destruct (negb _ && negb _) eqn:Hown; [done|]. assert (good_route (rt_ID r) key r) as Hgood by (unfold good_route; by split_and!).
  destruct (endpoints m !! rt_ID r) as [current|] eqn:Hc; [destruct (bool_decide (ee_key current = key)) eqn:Hk; simpl; [apply bool_decide_eq_true in Hk; by apply update_ok|done]|]. destruct listen; [done|]. simpl. apply listen_ok; try done.
  destruct (owners m !! key) as [o|] eqn:Ho; [|done]. destruct (mo_endpoint _ Hm _ _ Ho) as (x & Hx & _). destruct (mo_route _ Hm _ _ Hx) as (Hne & _). simpl in Hown.
  rewrite bool_decide_false in Hown by done. simpl in Hown. apply negb_false_iff, bool_decide_eq_true in Hown. congruence.
Qed.
Lemma Remove_ok routeID m : manager_ok m -> manager_ok (Remove routeID m).
Proof.
  intros Hm. unfold Remove. case_bool_decide; [done|]. destruct (endpoints m !! routeID) as [current|] eqn:Hc; [|done]. destruct Hm as [M1 M2 M3 M4 M5]. split; simpl.
  - intros i x [Hne Hx]%lookup_delete_Some. rewrite lookup_delete_ne; [by apply M1|]. intros E. apply M1 in Hx. apply M1 in Hc. congruence.
  - intros k i [Hne Ho]%lookup_delete_Some. destruct (M2 _ _ Ho) as (x & Hx & Ek). exists x. rewrite lookup_delete_ne; [done|]. intros <-. congruence.
  - intros i x [_ Hx]%lookup_delete_Some. by apply M3.
  - intros l. rewrite elem_of_difference, elem_of_singleton, M4. split.
    + intros [(i & x & Hx & El) Hne]. exists i, x. rewrite lookup_delete_ne; [done|]. intros <-. apply Hne. congruence.
    + intros (i & x & [Hne Hx]%lookup_delete_Some & El). split; [by exists i, x|]. intros ->. apply Hne. by eapply (M5 routeID i).
  - intros i i' x x' [_ Hx]%lookup_delete_Some [_ Hx']%lookup_delete_Some. by apply M5.
Qed.
Lemma CloseManager_ok m : manager_ok m -> manager_ok (CloseManager m).
Proof.
  intros [M1 M2 M3 M4 M5]. assert (forall l list, l ∈ foldr (fun x l => l ∖ {[ ee_listener x.2 ]}) (listening m) list -> l ∈ listening m /\ forall x : string * endpointEntry, x ∈ list -> ee_listener x.2 <> l) as Hleft.
  { intros l list. induction list as [|y list IH]; simpl; [intros Hl; split; [done|]; intros x Hx; by apply elem_of_nil in Hx|].
    intros [[Hl Hnot]%IH Hne]%elem_of_difference. split; [done|]. intros x [->|Hx]%elem_of_cons; [|by apply Hnot]. intros E. apply Hne. by apply elem_of_singleton. }
  split; simpl; [by intros i x|by intros k i|by intros i x| |by intros i i' x x'].
  intros l. split; [|by intros (i & x & Hx & _)]. intros [(i & x & Hx & El)%M4 Hnot]%Hleft. exfalso. by apply (Hnot (i, x)); [apply elem_of_map_to_list|].
Qed.

(** Listeners over every sequence of calls: routes do not share a listener address, the
    address of the HTTPS ingress is never taken, and exactly the listeners of the routes in
    the table are open. *)
Theorem listeners_exclusive (ops : list ManagerOp) :
  let m := fold_left manager_step ops NewManager in
  (forall id id' x x', endpoints m !! id = Some x -> endpoints m !! id' = Some x' ->
     rt_Protocol (ee_route x) = rt_Protocol (ee_route x') -> rt_Address (ee_route x) = rt_Address (ee_route x') -> rt_Port (ee_route x) = rt_Port (ee_route x') ->
     rt_ListenPID (ee_route x) = rt_ListenPID (ee_route x') -> id = id')
  /\ (forall id x, endpoints m !! id = Some x -> ~ (rt_ListenPID (ee_route x) = 0 /\ rt_Protocol (ee_route x) = "tcp" /\ rt_Port (ee_route x) = 443))
  /\ (forall l, l ∈ listening m <-> exists id x, endpoints m !! id = Some x /\ ee_listener x = l).
Proof.
  intros m. assert (manager_ok m) as [M1 M2 M3 M4 M5].
  { unfold m. assert (manager_ok NewManager) as Hinit. { split; simpl; try done. intros l. split; [intros Hl; by apply elem_of_empty in Hl|by intros (i & x & Hx & _)]. }
    revert Hinit. generalize NewManager. induction ops as [|op ops IH]; intros m0 H0; [done|]. apply IH. destruct op; simpl; [by apply Add_ok|by apply Remove_ok|by apply CloseManager_ok]. }
  split_and!; [|intros id x Hx; by apply (M3 id)|done]. intros id id' x x' Hx Hx' E1 E2 E3 E4. destruct (M3 _ _ Hx) as (_ & _ & K & _). destruct (M3 _ _ Hx') as (_ & _ & K' & _).
  apply M1 in Hx. apply M1 in Hx'. rewrite K' in Hx'. rewrite K, E1, E2, E3, E4, Hx' in Hx. by injection Hx.
Qed.

(** ** UDP sessions *)

Record udp_ok (e : udpEndpoint) : Prop := {
  uo_registered : forall client loc, ud_sessions e !! client = Some loc -> exists x, ud_heap e !! loc = Some x /\ us_client x = client /\ us_open x = true;
  uo_open : forall loc x, ud_heap e !! loc = Some x -> us_open x = true -> ud_sessions e !! us_client x = Some loc;
  uo_closed : ud_closed e = true -> ud_sessions e = ∅
}.
Lemma drop_ok client e : udp_ok e -> udp_ok (drop client e).
Proof.
  intros [U1 U2 U3]. unfold drop. destruct (ud_sessions e !! client) as [loc|] eqn:Hs; [|by split]. destruct (U1 _ _ Hs) as (x & Hx & Ex & Hopen). split; simpl.
  - intros c l [Hne Hl]%lookup_delete_Some. destruct (U1 _ _ Hl) as (y & Hy & Ey & Hy'). exists y. rewrite lookup_alter_ne; [done|]. intros <-. congruence.
  - intros l y Hy Hopen'. destruct (decide (l = loc)) as [->|Hne]; [rewrite lookup_alter_eq, Hx in Hy; injection Hy as <-; done|]. rewrite lookup_alter_ne in Hy by done.
    pose proof (U2 _ _ Hy Hopen') as Hl. rewrite lookup_delete_ne; [done|]. intros E. congruence.
  - intros Hc%U3. by rewrite Hc in Hs.
Qed.
Lemma drop_sessions client e : ud_sessions (drop client e) = delete client (ud_sessions e).
Proof. unfold drop. destruct (ud_sessions e !! client) eqn:Hs; [done|]. by rewrite delete_id. Qed.
Lemma drop_closed client e : ud_closed (drop client e) = ud_closed e.
Proof. unfold drop. by destruct (ud_sessions e !! client). Qed.
Lemma drop_size client e : (size (ud_sessions (drop client e)) <= size (ud_sessions e))%nat.
Proof. rewrite drop_sessions, map_size_delete. destruct (ud_sessions e !! client); simpl; lia. Qed.

(** Some registered session is the oldest one. *)
Lemma oldest_in e (l : list (string * nat)) (best : option (string * nat)) : (l <> [] \/ best <> None) ->
  exists x, fold_left (fun best x => match best with None => Some x | Some y => if last_seen e x.2 <? last_seen e y.2 then Some x else best end) l best = Some x /\ (x ∈ l \/ best = Some x).
Proof.
  revert best. induction l as [|y l IH]; intros best Hne; simpl; [destruct Hne as [|Hb]; [done|]; destruct best as [x|]; [by exists x; auto|done]|].
  set (best' := match best with None => _ | Some _ => _ end). assert (best' = Some y \/ (best' = best /\ best <> None)) as Hb by (unfold best'; destruct best; [case_match; auto|auto]).
  assert (best' <> None) as Hsome by (destruct Hb as [->|[-> ?]]; done). destruct (IH best' (or_intror Hsome)) as (x & Ex & [Hin|Hx]); exists x; split; try done; [left; by right|].
  destruct Hb as [Hb|[Hb _]]; [|right; congruence]. left. rewrite Hb in Hx. injection Hx as ->. by left.
Qed.
Lemma evict_room order e : udp_ok e -> ud_sessions e <> ∅ -> (size (ud_sessions (evictOldestLocked order e)) < size (ud_sessions e))%nat /\ udp_ok (evictOldestLocked order e).
Proof.
  intros Hok Hne. unfold evictOldestLocked, oldest. set (l := List.filter _ order ++ map_to_list (ud_sessions e)).
  assert (map_to_list (ud_sessions e) <> []) as Hm by (intros E; by apply map_to_list_empty_iff in E).
  destruct (oldest_in e l None) as (x & -> & [Hin|]); [left; intros [_ ?]%app_nil; done| |done]. destruct x as [client loc]. split; [|by apply drop_ok].
  assert (ud_sessions e !! client = Some loc) as Hs.
  { unfold l in Hin. apply elem_of_app in Hin as [Hin|Hin]; [|by apply elem_of_map_to_list in Hin]. apply list_elem_of_In, filter_In in Hin as [_ Hin]. by apply bool_decide_eq_true in Hin. }
  rewrite drop_sessions, map_size_delete, Hs. assert (size (ud_sessions e) <> 0%nat) by (intros E; by apply map_size_empty_iff in E). lia.
Qed.
Definition udp_inv (e : udpEndpoint) : Prop := udp_ok e /\ (size (ud_sessions e) <= maximumUDPSessions)%nat.
Lemma drop_inv client e : udp_inv e -> udp_inv (drop client e).
Proof. intros [H1 H2]. split; [by apply drop_ok|]. pose proof (drop_size client e). lia. Qed.
(** The session that a call opens. *)
Lemma openSession_inv order client backendID dial now e : udp_inv e -> ud_closed e = false -> ud_sessions e !! client = None -> udp_inv (openSession order client backendID dial now e).2.
Proof.
  intros [Hok Hsize] Hcl Hnone. unfold openSession. set (e1 := if (maximumUDPSessions <=? size (ud_sessions e))%nat then evictOldestLocked order e else e).
  assert (udp_ok e1 /\ (size (ud_sessions e1) < maximumUDPSessions)%nat /\ ud_closed e1 = false /\ ud_sessions e1 !! client = None) as ([U1 U2 U3] & Hs & Hc & Hn).
  { unfold e1. destruct (Nat.leb_spec maximumUDPSessions (size (ud_sessions e))) as [Hfull|]; [|by split_and!]. destruct (evict_room order e Hok) as [Hr Ho].
    { intros E. rewrite E, map_size_empty in Hfull. unfold maximumUDPSessions in Hfull. lia. }
    split; [done|]. split; [lia|]. unfold evictOldestLocked. destruct (oldest _ _) as [[c l]|]; [|done]. rewrite drop_closed, drop_sessions. split; [done|]. by apply lookup_delete_None; right. }
  assert (udp_inv e1) as Hinv by (split; [by split|lia]). destruct dial; [done|]. simpl. set (loc := fresh (dom (ud_heap e1))). assert (ud_heap e1 !! loc = None) as Hnew by (apply not_elem_of_dom, is_fresh).
  split; simpl; [|rewrite map_size_insert_None by done; lia]. split; simpl; [| |congruence].
  - intros c l [[<- <-]|[Hne Hl]]%lookup_insert_Some; [eexists; by rewrite lookup_insert_eq|]. destruct (U1 _ _ Hl) as (x & Hx & Ex). exists x. rewrite lookup_insert_ne by congruence. done.
  - intros l x Hx Ho. destruct (decide (l = loc)) as [->|Hne]; [rewrite lookup_insert_eq in Hx; injection Hx as <-; apply lookup_insert_eq|]. rewrite lookup_insert_ne in Hx by done.
    pose proof (U2 _ _ Hx Ho) as Hl. rewrite lookup_insert_ne; [done|]. intros E. congruence.
Qed.
(** A registered session is seen, or its reader ends. *)
Lemma touch_inv e loc x x' : udp_inv e -> ud_heap e !! loc = Some x -> us_client x' = us_client x -> us_open x' = us_open x ->
  udp_inv (mkEndpoint (ud_closed e) (ud_sessions e) (<[loc := x']> (ud_heap e))).
Proof.
  intros [[U1 U2 U3] Hs] Hx Ec Eo. split; [|done]. split; simpl; [| |done].
  - intros c l (y & Hy & Ey & Ho)%U1. destruct (decide (l = loc)) as [->|Hne]; [|exists y; by rewrite lookup_insert_ne]. rewrite Hx in Hy. injection Hy as <-. exists x'. rewrite lookup_insert_eq. split; [done|]. by rewrite Ec, Eo.
  - intros l y. destruct (decide (l = loc)) as [->|Hne]; [rewrite lookup_insert_eq; intros [= <-]; rewrite Ec, Eo; by apply U2|]. rewrite lookup_insert_ne by done. apply U2.
Qed.
Lemma session_inv order client backendID dial now e : udp_inv e -> udp_inv (session_ order client backendID dial now e).2.
Proof.
  intros Hinv. unfold session_. destruct (ud_closed e) eqn:Hc; [done|]. destruct (ud_sessions e !! client) as [loc|] eqn:Hs; simpl; [|by apply openSession_inv].
  destruct (ud_heap e !! loc) as [x|] eqn:Hx; simpl; [|destruct (uo_registered _ (proj1 Hinv) _ _ Hs) as (x & Hx' & _); congruence].
  case_bool_decide; simpl; [rewrite <- Hc; by eapply touch_inv|]. apply openSession_inv; [by apply drop_inv|by rewrite drop_closed|]. rewrite drop_sessions. apply lookup_delete_eq.
Qed.
Lemma readPrivate_inv loc failed now e : udp_inv e -> udp_inv (readPrivate loc failed now e).
Proof.
  intros Hinv. unfold readPrivate. destruct (ud_heap e !! loc) as [x|] eqn:Hx; [|done]. destruct (us_reading x); simpl; [|done]. destruct failed; [by eapply touch_inv|]. case_bool_decide; [by eapply touch_inv|done].
Qed.
Lemma drop_all (P : string * nat -> udpEndpoint -> bool) l e : udp_inv e -> let e' := foldr (fun x e => if P x e then drop x.1 e else e) e l in
  udp_inv e' /\ ud_closed e' = ud_closed e /\ (forall client, ud_sessions e !! client = None -> ud_sessions e' !! client = None).
Proof.
  intros Hinv. induction l as [|x l (IH1 & IH2 & IH3)]; simpl; [done|]. case_match; [|done]. split; [by apply drop_inv|]. rewrite drop_closed, drop_sessions. split; [done|].
  intros client Hn. apply lookup_delete_None. right. by apply IH3.
Qed.
Lemma drop_every (l : list (string * nat)) e : forall x, x ∈ l -> ud_sessions (foldr (fun x e => drop x.1 e) e l) !! x.1 = None.
Proof.
  induction l as [|y l IH]; intros x; [by intros ?%elem_of_nil|]. intros [->|Hx]%elem_of_cons; simpl; rewrite drop_sessions; [apply lookup_delete_eq|]. apply lookup_delete_None. right. by apply IH.
Qed.
Lemma CloseEndpoint_inv e : udp_inv e -> udp_inv (CloseEndpoint e) /\ ud_sessions (CloseEndpoint e) = ∅.
Proof.
  intros Hinv. unfold CloseEndpoint. destruct (ud_closed e) eqn:Hc; [split; [done|]; by apply (uo_closed _ (proj1 Hinv))|].
  destruct (drop_all (fun _ _ => true) (map_to_list (ud_sessions e)) e Hinv) as ([[U1 U2 U3] Hs] & Hcl & Hn). simpl in *.
  assert (ud_sessions (foldr (fun x e => drop x.1 e) e (map_to_list (ud_sessions e))) = ∅) as Hempty.
  { apply map_eq. intros client. rewrite lookup_empty. destruct (ud_sessions e !! client) as [loc|] eqn:Hl; [|by apply Hn]. by apply (drop_every _ e (client, loc)), elem_of_map_to_list. }
  split; [|done]. split; [|done]. by split.
Qed.

(** The sockets of a UDP endpoint, in every interleaving of datagrams, replies, cleanups and
    its end: there are at most 1024, all in the table; none is left open when the endpoint is
    closed; and a datagram gets an open session of its own client to the backend its route
    names now. *)
Theorem udp_sockets (ops : list UDPOp) :
  let e := fold_left udp_step ops newUDPEndpoint in
  (size (ud_sessions e) <= 1024)%nat
  /\ (forall loc x, ud_heap e !! loc = Some x -> us_open x = true -> ud_sessions e !! us_client x = Some loc /\ ud_closed e = false)
  /\ (forall order client backendID dial now loc e', session_ order client backendID dial now e = (Ok loc, e') ->
        exists x, ud_heap e' !! loc = Some x /\ us_client x = client /\ us_backend x = backendID /\ us_open x = true /\ us_lastSeen x = now).
Proof.
  intros e. assert (udp_inv e) as [Hok Hsize].
  { unfold e. assert (udp_inv newUDPEndpoint) as Hinit by (split; [by split|simpl; rewrite map_size_empty; lia]). revert Hinit. generalize newUDPEndpoint.
    induction ops as [|op ops IH]; intros e0 H0; [done|]. apply IH. destruct op; simpl; [by apply session_inv|by apply readPrivate_inv| |by apply CloseEndpoint_inv].
    unfold cleanIdle. destruct (ud_closed e0); [done|]. by apply (drop_all (fun x e => last_seen e x.2 <? now - udpSessionIdle)). }
  split; [done|]. split.
  - intros loc x Hx Ho. pose proof (uo_open _ Hok _ _ Hx Ho) as Hs. split; [done|]. destruct (ud_closed e) eqn:Hc; [|done]. by rewrite (uo_closed _ Hok Hc) in Hs.
  - intros order client backendID dial now loc e'. unfold session_. destruct (ud_closed e); [done|].
    assert (forall e0, openSession order client backendID dial now e0 = (Ok loc, e') -> exists x, ud_heap e' !! loc = Some x /\ us_client x = client /\ us_backend x = backendID /\ us_open x = true /\ us_lastSeen x = now) as Hopen.
    { intros e0. unfold openSession. destruct dial; [done|]. intros [= <- <-]. simpl. eexists. by rewrite lookup_insert_eq. }
    destruct (ud_sessions e !! client) as [l|] eqn:Hs; simpl; [|apply Hopen]. destruct (uo_registered _ Hok _ _ Hs) as (x & Hx & Ex & Ho). rewrite Hx. simpl. case_bool_decide as Hb; [|apply Hopen].
    intros [= <- <-]. exists (seen now x). simpl. by rewrite lookup_insert_eq.
Qed.
End Proxy.

(** ** A session without a reader

    The socket of a session reports an error once, as when the backend's port is closed for
    a moment; the reader ends, but the session stays in the table.  As every datagram of the
    client renews it, it is neither replaced nor cleaned up, and no reply reaches the client
    any more. *)
Definition refused_once : list UDPOp := [USession [] "client" "backend" None second; URead 0 true (2 * second); USession [] "client" "backend" None (50 * second); UTick (90 * second);
  USession [] "client" "backend" None (100 * second)].
Lemma reader_gone_session_kept :
  let e := fold_left udp_step refused_once newUDPEndpoint in
  (session_ [] "client" "backend" None (110 * second) e).1 = Ok 0%nat /\ us_reading <$> ud_heap e !! 0%nat = Some false /\ us_open <$> ud_heap e !! 0%nat = Some true.
Proof. vm_compute. repeat split; reflexivity. Qed.
