(* ===== verification/Traffic.v ===== *)
(** * Traffic: the counters of internal/trafficmetrics

    A registry holds one object of atomic counters per service.  Requests, connections
    and packets add to it from many goroutines while services are forgotten; looking
    an object up is several steps on two concurrent maps.  [Sys] is the heap of counter
    objects, the two maps and the goroutines with their position; [step] moves one
    goroutine by one atomic operation. *)

From stdpp Require Import vector fin.
From S2P Require Import Prelude.

(** ** Counters *)

Definition HTTPDurationBucketCount : nat := 13.
Definition HTTPDurationUpperBoundsMillis : vec Z 12 := [#5; 10; 25; 50; 100; 250; 500; 1000; 2500; 5000; 10000; 30000].

(** The counters that only additions change. *)
Inductive Field :=
| Ingress | Egress | HTTPRequests | HTTPActive | HTTPResponses (class : fin 4) | HTTPDuration (bucket : fin 13)
| TCPConnections | TCPActive | UDPIngress | UDPEgress.
#[export] Instance Field_eq_dec : EqDecision Field.
Proof. solve_decision. Defined.

Record serviceCounters := mkCounters {
  ingress : Z; egress : Z; httpRequests : Z; httpActive : Z; httpActivePeak : Z;
  httpResponses : vec Z 4; httpDuration : vec Z 13;
  tcpConnections : Z; tcpActive : Z; tcpActivePeak : Z; udpIngress : Z; udpEgress : Z
}.
Definition zeroCounters : serviceCounters := mkCounters 0 0 0 0 0 (vreplicate 4 0) (vreplicate 13 0) 0 0 0 0 0.

Definition get (f : Field) (c : serviceCounters) : Z :=
  match f with
  | Ingress => ingress c | Egress => egress c | HTTPRequests => httpRequests c | HTTPActive => httpActive c
  | HTTPResponses k => httpResponses c !!! k | HTTPDuration b => httpDuration c !!! b
  | TCPConnections => tcpConnections c | TCPActive => tcpActive c | UDPIngress => udpIngress c | UDPEgress => udpEgress c
  end.
Definition put (f : Field) (v : Z) (c : serviceCounters) : serviceCounters :=
  let 'mkCounters a b h i p r d t j q x y := c in
  match f with
  | Ingress => mkCounters v b h i p r d t j q x y
  | Egress => mkCounters a v h i p r d t j q x y
  | HTTPRequests => mkCounters a b v i p r d t j q x y
  | HTTPActive => mkCounters a b h v p r d t j q x y
  | HTTPResponses k => mkCounters a b h i p (vinsert k v r) d t j q x y
  | HTTPDuration k => mkCounters a b h i p r (vinsert k v d) t j q x y
  | TCPConnections => mkCounters a b h i p r d v j q x y
  | TCPActive => mkCounters a b h i p r d t v q x y
  | UDPIngress => mkCounters a b h i p r d t j q v y
  | UDPEgress => mkCounters a b h i p r d t j q x v
  end.
(** [atomic.Int64] for the active counts, [atomic.Uint64] otherwise. *)
Definition wrap (f : Field) (v : Z) : Z := match f with HTTPActive | TCPActive => i64 v | _ => u64 v end.
Definition add (f : Field) (d : Z) (c : serviceCounters) : serviceCounters := put f (wrap f (get f c + d)) c.

Inductive Peak := HTTPPeak | TCPPeak.
Definition get_peak (p : Peak) (c : serviceCounters) : Z := match p with HTTPPeak => httpActivePeak c | TCPPeak => tcpActivePeak c end.
Definition put_peak (p : Peak) (v : Z) (c : serviceCounters) : serviceCounters :=
  let 'mkCounters a b h i q1 r d t j q2 x y := c in
  match p with HTTPPeak => mkCounters a b h i v r d t j q2 x y | TCPPeak => mkCounters a b h i q1 r d t j v x y end.

(** ** Calls *)

(** [Raise p] is [atomicMaxInt64] with the result of the addition before it. *)
Inductive Update := Add (f : Field) (d : Z) | Raise (p : Peak).
Inductive Call := Count (serviceID : string) (updates : list Update) | Forget (serviceID : string).

Fixpoint bucketOf {n} (milliseconds : Z) (bounds : vec Z n) : fin (S n) :=
  match bounds with
  | vnil => 0%fin
  | vcons bound bounds => if milliseconds <=? bound then 0%fin else FS (bucketOf milliseconds bounds)
  end.
(** [statusCode / 100] truncates towards zero. *)
Definition responseClass (statusCode : Z) : option (fin 4) :=
  match Z.quot statusCode 100 with 2 => Some 0%fin | 3 => Some 1%fin | 4 => Some 2%fin | 5 => Some 3%fin | _ => None end.
Definition observeHTTPResponse (statusCode duration : Z) : list Update :=
  match responseClass statusCode with Some k => [Add (HTTPResponses k) 1] | None => [] end
  ++ [Add (HTTPDuration (bucketOf (Z.max (Z.quot duration 1000000) 0) HTTPDurationUpperBoundsMillis)) 1].

Definition on (serviceID : string) (updates : list Update) : list Call :=
  if bool_decide (serviceID = "") then [] else [Count serviceID updates].
Definition AddIngress (serviceID : string) (bytes : Z) : list Call := if bytes =? 0 then [] else on serviceID [Add Ingress bytes].
Definition AddEgress (serviceID : string) (bytes : Z) : list Call := if bytes =? 0 then [] else on serviceID [Add Egress bytes].
Definition StartHTTP (serviceID : string) : list Call := on serviceID [Add HTTPRequests 1; Add HTTPActive 1; Raise HTTPPeak].
Definition FinishHTTP (serviceID : string) (statusCode duration : Z) : list Call :=
  on serviceID (Add HTTPActive (-1) :: observeHTTPResponse statusCode duration).
Definition ObserveStreamingHTTP (serviceID : string) (statusCode duration : Z) : list Call :=
  on serviceID (observeHTTPResponse statusCode duration).
Definition FinishStreamingHTTP (serviceID : string) : list Call := on serviceID [Add HTTPActive (-1)].
Definition StartTCP (serviceID : string) : list Call := on serviceID [Add TCPConnections 1; Add TCPActive 1; Raise TCPPeak].
Definition FinishTCP (serviceID : string) : list Call := on serviceID [Add TCPActive (-1)].
Definition AddUDPIngress (serviceID : string) (bytes : Z) : list Call :=
  on serviceID ((if 0 <? bytes then [Add Ingress bytes] else []) ++ [Add UDPIngress 1]).
Definition AddUDPEgress (serviceID : string) (bytes : Z) : list Call :=
  on serviceID ((if 0 <? bytes then [Add Egress bytes] else []) ++ [Add UDPEgress 1]).
Definition ForgetService (serviceID : string) : list Call := if bool_decide (serviceID = "") then [] else [Forget serviceID].

(** ** Goroutines *)

(** Where a goroutine stands in its current call.  [counters] loads the entry, checks
    that the service is not retired, inserts a new object and checks again. *)
Inductive Pos :=
| Idle
| Loading (s : string) (us : list Update)
| CheckingRetired (s : string) (us : list Update)
| Storing (s : string) (us : list Update)
| Rechecking (s : string) (x : nat) (us : list Update)
| Deleting (s : string) (x : nat)
| Applying (s : string) (x : nat) (us : list Update) (last : Z)
| Raising (s : string) (x : nat) (us : list Update) (p : Peak) (value : Z) (seen : option Z)
| Forgetting (s : string).

Record Proc := mkProc { pos : Pos; calls : list Call }.
(** The heap keeps beside an object the service it was created for, and [issued] all
    calls ever begun; neither is read by a step. *)
Record Sys := mkSys {
  services : gmap string nat; retired : gset string; heap : gmap nat (string * serviceCounters);
  procs : list Proc; issued : list Call
}.
Definition NewRegistry : Sys := mkSys ∅ ∅ ∅ [] [].

Definition move (i : nat) (p : Pos) (cs : list Call) (s : Sys) : Sys :=
  mkSys (services s) (retired s) (heap s) (<[i := mkProc p cs]> (procs s)) (issued s).
Definition set_services v s := mkSys v (retired s) (heap s) (procs s) (issued s).
Definition set_retired v s := mkSys (services s) v (heap s) (procs s) (issued s).
Definition set_heap v s := mkSys (services s) (retired s) v (procs s) (issued s).

(** [LoadOrStore] with the fresh object [x]. *)
Definition loadOrStore (s : string) (x : nat) (sys : Sys) : nat * Sys :=
  match services sys !! s with
  | Some current => (current, sys)
  | None => (x, set_services (<[s := x]> (services sys)) (set_heap (<[x := (s, zeroCounters)]> (heap sys)) sys))
  end.
Definition compareAndDelete (s : string) (x : nat) (m : gmap string nat) : gmap string nat :=
  if bool_decide (m !! s = Some x) then delete s m else m.

Inductive step (sys : Sys) : Sys -> Prop :=
| step_go cs : step sys (mkSys (services sys) (retired sys) (heap sys) (procs sys ++ [mkProc Idle cs]) (issued sys ++ cs))
| step_call i c cs : procs sys !! i = Some (mkProc Idle (c :: cs)) ->
    step sys (match c with
              | Count s us => move i (Loading s us) cs sys
              | Forget s => move i (Forgetting s) cs (set_retired ({[s]} ∪ retired sys) sys)
              end)
| step_forget i s cs : procs sys !! i = Some (mkProc (Forgetting s) cs) ->
    step sys (move i Idle cs (set_services (delete s (services sys)) sys))
| step_load i s us cs : procs sys !! i = Some (mkProc (Loading s us) cs) ->
    step sys (move i (match services sys !! s with Some x => Applying s x us 0 | None => CheckingRetired s us end) cs sys)
| step_retired i s us cs : procs sys !! i = Some (mkProc (CheckingRetired s us) cs) ->
    step sys (move i (if bool_decide (s ∈ retired sys) then Idle else Storing s us) cs sys)
| step_store i s us cs x : procs sys !! i = Some (mkProc (Storing s us) cs) -> heap sys !! x = None ->
    step sys (let '(current, sys') := loadOrStore s x sys in move i (Rechecking s current us) cs sys')
| step_recheck i s x us cs : procs sys !! i = Some (mkProc (Rechecking s x us) cs) ->
    step sys (move i (if bool_decide (s ∈ retired sys) then Deleting s x else Applying s x us 0) cs sys)
| step_delete i s x cs : procs sys !! i = Some (mkProc (Deleting s x) cs) ->
    step sys (move i Idle cs (set_services (compareAndDelete s x (services sys)) sys))
| step_applied i s x last cs : procs sys !! i = Some (mkProc (Applying s x [] last) cs) ->
    step sys (move i Idle cs sys)
| step_add i s x f d us last cs o c : procs sys !! i = Some (mkProc (Applying s x (Add f d :: us) last) cs) ->
    heap sys !! x = Some (o, c) ->
    step sys (move i (Applying s x us (get f (add f d c))) cs (set_heap (<[x := (o, add f d c)]> (heap sys)) sys))
| step_raise i s x p us last cs : procs sys !! i = Some (mkProc (Applying s x (Raise p :: us) last) cs) ->
    step sys (move i (Raising s x us p last None) cs sys)
| step_peak_load i s x us p v cs o c : procs sys !! i = Some (mkProc (Raising s x us p v None) cs) ->
    heap sys !! x = Some (o, c) ->
    step sys (move i (if get_peak p c <? v then Raising s x us p v (Some (get_peak p c)) else Applying s x us v) cs sys)
| step_peak_swap i s x us p v seen cs o c : procs sys !! i = Some (mkProc (Raising s x us p v (Some seen)) cs) ->
    heap sys !! x = Some (o, c) ->
    step sys (if get_peak p c =? seen
              then move i (Applying s x us v) cs (set_heap (<[x := (o, put_peak p v c)]> (heap sys)) sys)
              else move i (Raising s x us p v None) cs sys).
Definition reachable : Sys -> Prop := rtc step NewRegistry.

(** ** Snapshots *)

Record Counters := mkSnapshotCounters { snap : Field -> Z; snap_httpPeak : Z; snap_tcpPeak : Z }.
(** One service: the counters with the active counts not below zero; a collection
    starts a fresh peak from the active count. *)
Definition snapshotCounters (resetPeaks : bool) (c : serviceCounters) : Counters * serviceCounters :=
  let httpNow := Z.max (httpActive c) 0 in
  let tcpNow := Z.max (tcpActive c) 0 in
  let values f := match f with HTTPActive => httpNow | TCPActive => tcpNow | _ => get f c end in
  (mkSnapshotCounters values (Z.max (httpActivePeak c) httpNow) (Z.max (tcpActivePeak c) tcpNow),
   if resetPeaks then put_peak HTTPPeak (Z.max 0 httpNow) (put_peak TCPPeak (Z.max 0 tcpNow) c) else c).
(** The services whose counters are reported. *)
Definition snapshotServices (sys : Sys) : gmap string nat :=
  filter (fun x => x.1 ∉ retired sys) (services sys).

(** ** Objects and services *)

(** The object a goroutine works on. *)
Definition refers (p : Pos) : option (string * nat) :=
  match p with
  | Rechecking s x _ | Deleting s x | Applying s x _ _ | Raising s x _ _ _ _ => Some (s, x)
  | _ => None
  end.
(** A goroutine that will remove the entry [x] of a retired service. *)
Definition removes (s : string) (x : nat) (p : Pos) : Prop :=
  match p with
  | Rechecking s' x' _ | Deleting s' x' => s' = s /\ x' = x
  | Forgetting s' => s' = s
  | _ => False
  end.

#[export] Instance removes_dec s x p : Decision (removes s x p).
Proof. destruct p; simpl; apply _. Defined.

Record objects (sys : Sys) : Prop := {
  ob_owner : forall s x, services sys !! s = Some x -> fst <$> heap sys !! x = Some s;
  ob_refers : forall p s x, p ∈ procs sys -> refers (pos p) = Some (s, x) -> fst <$> heap sys !! x = Some s;
  ob_live : forall p s x, p ∈ procs sys -> refers (pos p) = Some (s, x) -> s ∉ retired sys -> services sys !! s = Some x;
  ob_removal : forall p s, p ∈ procs sys -> (exists x, pos p = Deleting s x) \/ pos p = Forgetting s -> s ∈ retired sys;
  ob_gone : forall s x, s ∈ retired sys -> services sys !! s = Some x -> exists p, p ∈ procs sys /\ removes s x (pos p)
}.

Lemma elem_insert {A} (l : list A) i y z : y ∈ <[i := z]> l -> y = z \/ y ∈ l.
Proof.
  intros (j & Hj)%list_elem_of_lookup. destruct (decide (i = j)) as [<-|Hne].
  - apply list_lookup_insert_Some in Hj as [(_ & -> & _)|[? _]]; [by left|done].
  - right. rewrite list_lookup_insert_ne in Hj by done. by eapply list_elem_of_lookup_2.
Qed.
Lemma elem_insert_new {A} (l : list A) i y z : l !! i = Some y -> z ∈ <[i := z]> l.
Proof. intros Hi. eapply list_elem_of_lookup_2, list_lookup_insert_eq. by eapply lookup_lt_Some. Qed.

(** A step of goroutine [i] that keeps the live entries and the owners of objects. *)
Lemma objects_step sys i p0 p cs m' r' h' :
  objects sys -> procs sys !! i = Some p0 ->
  (forall x s, fst <$> heap sys !! x = Some s -> fst <$> h' !! x = Some s) ->
  retired sys ⊆ r' ->
  (forall s x, s ∉ r' -> services sys !! s = Some x -> m' !! s = Some x) ->
  (forall s x, m' !! s = Some x -> fst <$> h' !! x = Some s) ->
  (forall s x, refers p = Some (s, x) -> fst <$> h' !! x = Some s /\ (s ∉ r' -> m' !! s = Some x)) ->
  (forall s, (exists x, p = Deleting s x) \/ p = Forgetting s -> s ∈ r') ->
  (forall s x, s ∈ r' -> m' !! s = Some x ->
     removes s x p \/ (s ∈ retired sys /\ services sys !! s = Some x /\ ~ removes s x (pos p0))) ->
  objects (mkSys m' r' h' (<[i := mkProc p cs]> (procs sys)) (issued sys)).
Proof.
  intros [Ho Hr Hl Hd Hg] Hi Hh Hret Hlive Hown Hp Hd' Hg'. split; simpl; [done| | | |].
  - intros q s x [->|Hq]%elem_insert Hx; [by apply Hp|]. by eapply Hh, Hr.
  - intros q s x [->|Hq]%elem_insert Hx Hs; [by apply Hp|]. apply Hlive; [done|]. eapply Hl; [done..|]. set_solver.
  - intros q s [->|Hq]%elem_insert Hx; [by apply Hd'|]. by eapply Hret, Hd.
  - intros s x Hs Hx. destruct (Hg' s x Hs Hx) as [Hrm|(Hs0 & Hx0 & Hno)].
    + exists (mkProc p cs). split; [by eapply elem_insert_new|done].
    + destruct (Hg s x Hs0 Hx0) as (q & (j & Hj)%list_elem_of_lookup & Hrm). exists q. split; [|done].
      eapply (list_elem_of_lookup_2 _ j). rewrite list_lookup_insert_ne; [done|]. intros ->. congruence.
Qed.
(** A step that only moves one goroutine. *)
Lemma objects_move sys i p0 p cs :
  objects sys -> procs sys !! i = Some p0 ->
  (forall s x, refers p = Some (s, x) -> fst <$> heap sys !! x = Some s /\ (s ∉ retired sys -> services sys !! s = Some x)) ->
  (forall s, (exists x, p = Deleting s x) \/ p = Forgetting s -> s ∈ retired sys) ->
  (forall s x, s ∈ retired sys -> removes s x (pos p0) -> removes s x p) ->
  objects (move i p cs sys).
Proof.
  intros Hob Hi Hp Hd Hg. eapply objects_step; try done; [by destruct Hob|]. intros s x Hs Hx.
  destruct (decide (removes s x (pos p0))); [left; by apply Hg|by right].
Qed.

Lemma heap_put x o c c' (h : gmap nat (string * serviceCounters)) :
  h !! x = Some (o, c) -> forall y s, fst <$> h !! y = Some s -> fst <$> <[x := (o, c')]> h !! y = Some s.
Proof.
  intros Hx y s Hy. destruct (decide (x = y)) as [<-|Hne]; [|by rewrite lookup_insert_ne].
  rewrite lookup_insert_eq. rewrite Hx in Hy. done.
Qed.

Ltac flat := unfold move, set_services, set_retired, set_heap; simpl.

(** The conditions on a position that removes nothing. *)
Ltac not_removing := let y := fresh in intros ? [[y ?]|?]; discriminate.
Ltac refer := let E := fresh in intros ? ? E; simpl in E; first [discriminate E | injection E as <- <-; split; auto].
Ltac still := intros ? ? ? ?; right; split_and!; [assumption|assumption|simpl; tauto].
Ltac moves := eapply objects_move; [eassumption|eassumption|refer|not_removing|simpl; tauto].

Lemma objects_preserved sys sys' : objects sys -> step sys sys' -> objects sys'.
Proof.
  intros Hob Hs. pose proof Hob as [Ho Hr Hl Hd Hg].
  destruct Hs as [cs|i c cs Hi|i s cs Hi|i s us cs Hi|i s us cs Hi|i s us cs x Hi Hx|i s x us cs Hi|i s x cs Hi
    |i s x last cs Hi|i s x f d us last cs o c Hi Hx|i s x p us last cs Hi|i s x us p v cs o c Hi Hx|i s x us p v seen cs o c Hi Hx];
    try pose proof (list_elem_of_lookup_2 _ _ _ Hi) as Hin.
  - split; simpl; [done| | | |].
    + intros p s x [Hp| ->%list_elem_of_singleton]%elem_of_app; [by eapply Hr|done].
    + intros p s x [Hp| ->%list_elem_of_singleton]%elem_of_app; [by eapply Hl|done].
    + intros p s [Hp| ->%list_elem_of_singleton]%elem_of_app; [by eapply Hd|by intros [[? [=]]|[=]]].
    + intros s x Hs Hx. destruct (Hg s x Hs Hx) as (p & Hp & Hrm). exists p. split; [|done]. apply elem_of_app. by left.
  - destruct c as [s us|s]; [moves|].
    flat. eapply (objects_step sys i _ (Forgetting s)); try done; [set_solver|intros ? [[? [=]]|[= <-]]; set_solver|].
    intros s' x [->%elem_of_singleton|Hs']%elem_of_union Hx; [by left|].
    right. split_and!; [done..|simpl; tauto].
  - flat. eapply (objects_step sys i _ Idle); try done.
    + intros s' x Hs' Hx. rewrite lookup_delete_ne; [done|]. intros ->. apply Hs'. eapply Hd; [done|]. by right.
    + intros s' x [_ Hx]%lookup_delete_Some. by apply Ho.
    + not_removing.
    + intros s' x Hs' [Hne Hx]%lookup_delete_Some. right. split_and!; [done..|]. simpl. congruence.
  - eapply objects_move; [done..| | |]; simpl; [|destruct (services sys !! s); not_removing|done].
    destruct (services sys !! s) as [x|] eqn:Ex; [|done]. intros ? ? [= <- <-]. auto.
  - case_bool_decide; moves.
  - unfold loadOrStore. destruct (services sys !! s) as [current|] eqn:Ec.
    + eapply objects_move; [done..| |not_removing|done]. intros ? ? [= <- <-]. auto.
    + assert (forall y s', fst <$> heap sys !! y = Some s' -> fst <$> <[x := (s, zeroCounters)]> (heap sys) !! y = Some s') as Hh.
      { intros y s' Hy. rewrite lookup_insert_ne; [done|]. intros <-. by rewrite Hx in Hy. }
      flat. eapply (objects_step sys i _ (Rechecking s x us)); try done.
      * intros s' y Hs' Hy. rewrite lookup_insert_ne; [done|]. congruence.
      * intros s' y [[<- <-]|[_ Hy]]%lookup_insert_Some; [by rewrite lookup_insert_eq|]. by apply Hh, Ho.
      * intros s' y [= <- <-]. rewrite !lookup_insert_eq. done.
      * not_removing.
      * intros s' y Hs' [[<- <-]|[Hne Hy]]%lookup_insert_Some; [by left|right; split_and!; [done|done|simpl; tauto]].
  - pose proof (Hr _ s x Hin eq_refl). pose proof (Hl _ s x Hin eq_refl). case_bool_decide.
    + eapply objects_move; [done..|refer| |done]. by intros ? [[? [= <- <-]]|[=]].
    + eapply objects_move; [done..|refer|not_removing|]. by intros s' x' Hs' [-> _].
  - assert (s ∈ retired sys) as Hsr by (eapply Hd; [done|left; by eexists]). unfold compareAndDelete.
    flat. case_bool_decide as Hx; eapply (objects_step sys i _ Idle); try done; try not_removing.
    + intros s' y Hs' Hy. rewrite lookup_delete_ne; [done|]. congruence.
    + intros s' y [_ Hy]%lookup_delete_Some. by apply Ho.
    + intros s' y Hs' [Hne Hy]%lookup_delete_Some. right. split_and!; [done..|]. simpl. intros [E _]. by destruct Hne.
    + intros s' y Hs' Hy. right. split_and!; [done..|]. simpl. by intros [<- <-].
  - moves.
  - pose proof (Hr _ s x Hin eq_refl). pose proof (Hl _ s x Hin eq_refl). pose proof (heap_put x o c (add f d c) (heap sys) Hx) as Hh.
    flat. eapply (objects_step sys i _ (Applying s x us (get f (add f d c)))); try done; [auto|refer|not_removing|still].
  - pose proof (Hr _ s x Hin eq_refl). pose proof (Hl _ s x Hin eq_refl). moves.
  - pose proof (Hr _ s x Hin eq_refl). pose proof (Hl _ s x Hin eq_refl).
    destruct (_ <? _); moves.
  - pose proof (Hr _ s x Hin eq_refl). pose proof (Hl _ s x Hin eq_refl). pose proof (heap_put x o c (put_peak p v c) (heap sys) Hx) as Hh.
    destruct (_ =? _); [|moves].
    flat. eapply (objects_step sys i _ (Applying s x us v)); try done; [auto|refer|not_removing|still].
Qed.

Lemma reachable_objects sys : reachable sys -> objects sys.
Proof.
  intros Hr. assert (objects NewRegistry) as H0 by (split; set_solver). revert H0.
  induction Hr as [|s1 s2 s3 Hs _ IH]; intros Hob; [done|]. by eapply IH, objects_preserved.
Qed.

(** ** Sums *)

Definition zsum (l : list Z) : Z := foldr Z.add 0 l.
Lemma zsum_app l1 l2 : zsum (l1 ++ l2) = zsum l1 + zsum l2.
Proof. induction l1 as [|x l1 IH]; simpl; [done|]. rewrite IH. lia. Qed.
Lemma zsum_insert {A} (g : A -> Z) l i x y : l !! i = Some x -> zsum (g <$> <[i := y]> l) = zsum (g <$> l) - g x + g y.
Proof.
  revert i. induction l as [|z l IH]; intros [|i] Hi; simplify_eq/=; [lia|]. rewrite (IH i Hi). lia.
Qed.

(** What is still to be added to counter [f] of the service [s]. *)
Definition update_delta (f : Field) (u : Update) : Z := match u with Add g d => if decide (f = g) then d else 0 | Raise _ => 0 end.
Definition delta (f : Field) (us : list Update) : Z := zsum (update_delta f <$> us).
Definition of_service (s s' : string) (v : Z) : Z := if decide (s = s') then v else 0.
Definition call_delta (f : Field) (s : string) (c : Call) : Z :=
  match c with Count s' us => of_service s s' (delta f us) | Forget _ => 0 end.
Definition total (f : Field) (s : string) (cs : list Call) : Z := zsum (call_delta f s <$> cs).
Definition pos_delta (f : Field) (s : string) (p : Pos) : Z :=
  match p with
  | Loading s' us | CheckingRetired s' us | Storing s' us | Rechecking s' _ us | Applying s' _ us _ | Raising s' _ us _ _ _ =>
      of_service s s' (delta f us)
  | Idle | Deleting _ _ | Forgetting _ => 0
  end.
Definition pending (f : Field) (s : string) (p : Proc) : Z := pos_delta f s (pos p) + total f s (calls p).
(** The counter now; a service without an object has none. *)
Definition value (f : Field) (s : string) (sys : Sys) : Z :=
  match services sys !! s with
  | Some x => match heap sys !! x with Some (_, c) => get f c | None => 0 end
  | None => 0
  end.
Definition counted (sys : Sys) : Prop := forall f s, s ∉ retired sys ->
  (value f s sys + zsum (pending f s <$> procs sys)) mod two64 = total f s (issued sys) mod two64.

Lemma wrap_mod f v : wrap f v mod two64 = v mod two64.
Proof.
  destruct f; simpl; unfold u64, i64; try apply Zmod_mod.
  all: rewrite Zminus_mod, Zmod_mod, <- Zminus_mod; f_equal; lia.
Qed.
Lemma get_zero f : get f zeroCounters = 0.
Proof. destruct f as [| | | |k|k| | | |]; try done; [exact (vlookup_replicate 4 0 k)|exact (vlookup_replicate 13 0 k)]. Qed.
Lemma get_put f g v c : get f (put g v c) = if decide (f = g) then v else get f c.
Proof.
  destruct c. destruct (decide (f = g)) as [->|Hne]; [destruct g; simpl; by rewrite ?vlookup_insert|].
  destruct f, g; simpl; try done; (rewrite vlookup_insert_ne; [done|congruence]).
Qed.
Lemma get_put_peak f p v c : get f (put_peak p v c) = get f c.
Proof. by destruct c, p, f. Qed.

Lemma counted_step sys i p0 p cs m' r' h' :
  counted sys -> procs sys !! i = Some p0 -> retired sys ⊆ r' ->
  let sys' := mkSys m' r' h' (<[i := mkProc p cs]> (procs sys)) (issued sys) in
  (forall f s, s ∉ r' -> (value f s sys' + pos_delta f s p + total f s cs) mod two64
                        = (value f s sys + pending f s p0) mod two64) ->
  counted sys'.
Proof.
  intros Hc Hi Hret sys' Hd f s Hs. simpl in Hs. change (issued sys') with (issued sys). change (procs sys') with (<[i := mkProc p cs]> (procs sys)).
  rewrite <- (Hc f s) by set_solver.
  rewrite (zsum_insert _ _ _ _ _ Hi). change (pending f s (mkProc p cs)) with (pos_delta f s p + total f s cs).
  specialize (Hd f s Hs). set (z := zsum _) in *. set (v := value f s sys) in *. set (v' := value f s sys') in *.
  replace (v' + (z - pending f s p0 + (pos_delta f s p + total f s cs)))
    with ((v' + pos_delta f s p + total f s cs) + (z - pending f s p0)) by lia.
  rewrite Zplus_mod, Hd, <- Zplus_mod. f_equal. lia.
Qed.

Lemma pending_call f s c cs : pending f s (mkProc Idle (c :: cs)) = call_delta f s c + total f s cs.
Proof. done. Qed.
(** Nothing is added, and nothing else is left to add. *)
Lemma same_sum f s sys sys' p cs p0 :
  pending f s p0 = pos_delta f s p + total f s cs -> value f s sys' = value f s sys ->
  (value f s sys' + pos_delta f s p + total f s cs) mod two64 = (value f s sys + pending f s p0) mod two64.
Proof. intros -> ->. f_equal. lia. Qed.
Lemma of_service_ne s s' v : s <> s' -> of_service s s' v = 0.
Proof. unfold of_service. by case_decide. Qed.
Lemma value_eq f s sys sys' :
  services sys' !! s = services sys !! s -> (forall x, services sys !! s = Some x -> heap sys' !! x = heap sys !! x) ->
  value f s sys' = value f s sys.
Proof. intros E Hh. unfold value. rewrite E. destruct (services sys !! s); [|done]. by rewrite Hh. Qed.

Lemma counted_preserved sys sys' : objects sys -> counted sys -> step sys sys' -> counted sys'.
Proof.
  intros [Ho Hr Hl Hd Hg] Hc Hs.
  destruct Hs as [cs|i c cs Hi|i s cs Hi|i s us cs Hi|i s us cs Hi|i s us cs x Hi Hx|i s x us cs Hi|i s x cs Hi
    |i s x last cs Hi|i s x f d us last cs o c Hi Hx|i s x p us last cs Hi|i s x us p v cs o c Hi Hx|i s x us p v seen cs o c Hi Hx];
    try pose proof (list_elem_of_lookup_2 _ _ _ Hi) as Hin.
  - intros f s Hs. unfold total. simpl. rewrite !fmap_app, !zsum_app. rewrite Zplus_mod. fold (total f s (issued sys)).
    rewrite (Zplus_mod (total f s (issued sys))), <- (Hc f s Hs), <- !Zplus_mod. f_equal. simpl. unfold pending at 2, total. simpl.
    change (value f s _) with (value f s sys). lia.
  - destruct c as [s us|s]; flat; eapply counted_step; try done; [|set_solver|].
    all: intros f s' Hs'; apply same_sum; [by rewrite pending_call|done].
  - assert (s ∈ retired sys) as Hsr by (eapply Hd; [done|by right]).
    flat. eapply counted_step; try done. intros f s' Hs'. apply same_sum; [done|]. apply value_eq; simpl; [|done].
    apply lookup_delete_ne. congruence.
  - flat. eapply counted_step; try done. intros f s' Hs'. apply same_sum; [|done]. by destruct (services sys !! s).
  - flat. eapply counted_step; try done. intros f s' Hs'. apply same_sum; [|done]. case_bool_decide; [|done].
    unfold pending. simpl. rewrite of_service_ne; [lia|congruence].
  - unfold loadOrStore. destruct (services sys !! s) as [current|] eqn:Ec; flat; eapply counted_step; try done; intros f s' Hs'.
    + by apply same_sum.
    + apply same_sum; [done|]. destruct (decide (s' = s)) as [->|Hne].
      * unfold value. simpl. rewrite lookup_insert_eq, lookup_insert_eq, Ec. apply get_zero.
      * apply value_eq; simpl; [by rewrite lookup_insert_ne|]. intros y Hy. rewrite lookup_insert_ne; [done|].
        intros <-. apply Ho in Hy. by rewrite Hx in Hy.
  - flat. eapply counted_step; try done. intros f s' Hs'. apply same_sum; [|done]. case_bool_decide; [|done].
    unfold pending. simpl. rewrite of_service_ne; [lia|congruence].
  - assert (s ∈ retired sys) as Hsr by (eapply Hd; [done|left; by eexists]).
    flat. eapply counted_step; try done. intros f s' Hs'. apply same_sum; [done|]. apply value_eq; simpl; [|done].
    unfold compareAndDelete. case_bool_decide; [|done]. apply lookup_delete_ne. congruence.
  - flat. eapply counted_step; try done. intros f s' Hs'. apply same_sum; [|done]. unfold pending. simpl.
    unfold of_service, delta. simpl. by case_decide.
  - pose proof (Hr _ s x Hin eq_refl) as Hown. rewrite Hx in Hown. injection Hown as ->.
    flat. eapply counted_step; try done. intros g s' Hs'.
    change (pending g s' (mkProc (Applying s x (Add f d :: us) last) cs))
      with (of_service s' s (update_delta g (Add f d) + delta g us) + total g s' cs).
    unfold pos_delta, of_service. case_decide as Hss.
    + subst s'. pose proof (Hl _ s x Hin eq_refl Hs') as Hsx. unfold value. simpl. rewrite Hsx, lookup_insert_eq, Hx.
      unfold add. rewrite get_put. case_decide as Hg'; [|f_equal; lia]. subst g.
      rewrite <- Z.add_assoc, Zplus_mod, wrap_mod, <- Zplus_mod. f_equal. lia.
    + rewrite (value_eq _ _ sys); simpl; [f_equal; lia|done|]. intros y Hy. rewrite lookup_insert_ne; [done|].
      intros <-. apply Ho in Hy. rewrite Hx in Hy. simpl in Hy. congruence.
  - flat. eapply counted_step; try done. intros g s' Hs'. apply same_sum; [|done]. unfold pending. simpl.
    unfold of_service, delta. simpl. by case_decide.
  - flat. eapply counted_step; try done. intros g s' Hs'. apply same_sum; [|done]. by destruct (_ <? _).
  - destruct (_ =? _); flat; eapply counted_step; try done; intros g s' Hs'; (apply same_sum; [done|]).
    + unfold value. simpl. destruct (services sys !! s') as [y|]; [|done]. destruct (decide (x = y)) as [<-|Hne].
      * rewrite lookup_insert_eq, Hx. apply get_put_peak.
      * by rewrite lookup_insert_ne.
    + done.
Qed.

Lemma reachable_counted sys : reachable sys -> counted sys.
Proof.
  intros Hr. assert (objects NewRegistry) as H0 by (split; set_solver). assert (counted NewRegistry) as H1 by done.
  induction Hr as [|s1 s2 s3 Hs _ IH]; [done|]. apply IH; [by eapply objects_preserved|by eapply counted_preserved].
Qed.

(** ** Properties *)

(** C32. No traffic is counted twice or lost.  In every interleaving of requests,
    connections and packets with the forgetting of other services, each counter of a
    service that was not forgotten is the sum of what all calls begun so far add to it,
    less what calls still under way have left to add, modulo the width of the counter.
    So when no call is under way the counters are exact, and finished requests leave
    none active. *)
Theorem counters_exact sys f s :
  reachable sys -> s ∉ retired sys ->
  (value f s sys + zsum (pending f s <$> procs sys)) mod two64 = total f s (issued sys) mod two64.
Proof. intros Hr%reachable_counted. apply Hr. Qed.

(** A forgotten service does not come back.  Late callbacks may insert an entry for a
    service that was forgotten meanwhile, but whoever does removes it before going on:
    when nobody is inside a lookup or a removal, no entry of a forgotten service is left,
    and at no time is one reported. *)
Theorem forgotten_stays_forgotten sys s :
  reachable sys -> s ∈ retired sys ->
  snapshotServices sys !! s = None /\
  ((forall p, p ∈ procs sys -> match pos p with Rechecking _ _ _ | Deleting _ _ | Forgetting _ => False | _ => True end) ->
   services sys !! s = None).
Proof.
  intros Hr%reachable_objects Hs. split.
  - apply map_lookup_filter_None_2. right. simpl. by intros x _ Hn.
  - intros Hq. destruct (services sys !! s) as [x|] eqn:Ex; [|done].
    destruct (ob_gone sys Hr s x Hs Ex) as (p & Hp & Hrm). specialize (Hq p Hp). by destruct (pos p).
Qed.


(** ** Runs *)

Module TrafficDemo.
(** One packet of five bytes for a service, then the service is forgotten. *)
Definition begun : Sys := mkSys ∅ ∅ ∅ [mkProc Idle (AddIngress "web" 5 ++ ForgetService "web")] (AddIngress "web" 5 ++ ForgetService "web").
Definition counting : Sys :=
  mkSys {["web" := 0%nat]} ∅ {[0%nat := ("web", zeroCounters)]} [mkProc (Applying "web" 0 [Add Ingress 5] 0) [Forget "web"]] (issued begun).
Definition done_counting : Sys :=
  mkSys {["web" := 0%nat]} ∅ {[0%nat := ("web", add Ingress 5 zeroCounters)]} [mkProc Idle [Forget "web"]] (issued begun).
Definition forgotten : Sys := mkSys ∅ {["web"]} (heap done_counting) [mkProc Idle []] (issued begun).

Ltac arrived := match goal with |- rtc _ ?a ?b => replace a with b by (vm_compute; reflexivity) end; apply rtc_refl.
Lemma done_counting_reachable : reachable done_counting.
Proof.
  eapply rtc_l; [exact (step_go NewRegistry (issued begun))|].
  eapply rtc_l; [eapply (step_call _ 0); reflexivity|]. eapply rtc_l; [eapply (step_load _ 0); reflexivity|].
  eapply rtc_l; [eapply (step_retired _ 0); reflexivity|].
  eapply rtc_l; [apply (step_store _ 0 "web" [Add Ingress 5] [Forget "web"] 0); reflexivity|].
  eapply rtc_l; [eapply (step_recheck _ 0); reflexivity|]. eapply rtc_l; [eapply (step_add _ 0); reflexivity|].
  eapply rtc_l; [eapply (step_applied _ 0); reflexivity|]. arrived.
Qed.
Lemma forgotten_reachable : reachable forgotten.
Proof.
  unfold reachable. etrans; [apply done_counting_reachable|]. eapply rtc_l; [eapply (step_call _ 0); reflexivity|].
  eapply rtc_l; [eapply (step_forget _ 0); reflexivity|]. arrived.
Qed.

Lemma counters_exact_witness : value Ingress "web" done_counting mod two64 = 5 mod two64.
Proof. exact (counters_exact done_counting Ingress "web" done_counting_reachable (not_elem_of_empty "web")). Defined.
Lemma forgotten_stays_forgotten_witness : services forgotten !! "web" = None.
Proof.
  apply (forgotten_stays_forgotten forgotten "web" forgotten_reachable); [by vm_compute|].
  intros p. change (procs forgotten) with [mkProc Idle []]. by intros ->%list_elem_of_singleton.
Defined.
End TrafficDemo.
