(* ===== verification/Ingress.v ===== *)
(** * Ingress: the public router of internal/ingress

    Requests that arrive over TLS are given to the admin handler, the object store, the
    telemetry and analytics handlers or the backend of a service, by host name and path.
    The route tables are one immutable snapshot behind an atomic pointer, which reloads
    replace under a mutex.  Handlers, backends and the proxied response are arguments;
    [Traffic] counts what is proxied. *)

From Stdlib Require Import Ascii.
From stdpp Require Import fin finite.
From S2P Require Import Prelude Names Traffic.

(** ** Data *)

Record Route := mkRoute { ServiceID : string; PreviewID : string; TargetPort : Z }.
Record ServiceTelemetryRoute := mkTelemetryRoute { BrowserTunnelPath : string; OTLPPathPrefix : string }.
Record routeSnapshot := mkSnapshot {
  rs_services : gmap string Route; rs_objectStores : gset string; rs_serviceTelemetry : gmap string ServiceTelemetryRoute
}.
Definition empty_snapshot : routeSnapshot := mkSnapshot ∅ ∅ ∅.
Record Backend := mkBackend { DeploymentID : string; Address : string; Port : Z }.

(** A handler that may be nil is a flag; [c_recorder] says whether the analytics handler
    observes documents and [c_previews] whether the resolver knows previews. *)
Record Config := mkConfig {
  c_AdminHostname : string; c_AdminHandler : bool; c_ObjectStoreHandler : bool; c_ServiceTelemetryHandler : bool;
  c_AnalyticsHandler : bool; c_recorder : bool; c_Backends : bool; c_previews : bool; c_Traffic : bool
}.
Record Router := mkRouter { adminHostname : string; r_config : Config }.

Record Request := mkRequest {
  rq_Header : list (string * list string); rq_Host : string; rq_TLS : option string; rq_Method : string;
  rq_Path : string; rq_RemoteAddr : string
}.

(** What one request is answered by the backends and the proxied server. *)
Inductive Upstream := UpstreamError | UpstreamResponse (status : Z) (contentType : string).
Record Answers := mkAnswers {
  ServiceBackend : string -> Z -> option (option Backend);
  PreviewBackend : string -> Z -> option (option Backend);
  upstream : Backend -> Upstream;
  elapsed : Z; elapsed_headers : Z
}.

(** [mime.ParseMediaType] and [netip.ParseAddr] with [Unmap] and [String]. *)
Class IngressLibrary := { ParseMediaType : string -> option string; CanonicalAddr : string -> option string }.

(** What becomes of a request. *)
Inductive Action :=
| Respond (code : Z) (noStore cors : bool)
| ToAdmin
| ToObjectStore
| ToAnalytics
| ToTelemetry (path : string) (cors : bool)
| ToBackend (backend : Backend) (publicHost forwardedFor : string) (observed : bool) (response : Upstream).

Definition misdirected : Action := Respond 421 true false.
Definition unavailable (cors : bool) : Action := Respond 503 true cors.
Definition NotFound : Action := Respond 404 false false.

(** ** Construction *)

Inductive NewError := HostnameInvalid (e : error) | ErrIncomplete.

Section Router.
Context `{HostnameTables} {lib : IngressLibrary}.

Definition New (config : Config) : result NewError Router :=
  match Normalize (c_AdminHostname config) with
  | Err e => Err (HostnameInvalid e)
  | Ok adminHostname =>
      if negb (c_AdminHandler config) || negb (c_Backends config) then Err ErrIncomplete else Ok (mkRouter adminHostname config)
  end.

(** ** Paths *)

Definition countHeaders (header : list (string * list string)) : Z := Z.of_nat (length (header ≫= snd)).

Definition publicOTLPSignalPath (prefix path : string) : option string :=
  List.find (fun signalPath => bool_decide (path = prefix +:+ signalPath)) ["/v1/traces"; "/v1/logs"].

(** [analytics.Reserved] *)
Definition Reserved (method path : string) : bool :=
  let path := trim_suffix "/" path in
  bool_decide (method = "POST") &&
  (bool_decide (path = "/analytics/e") || bool_decide (path = "/ofrep/v1/evaluate/flags") || has_prefix "/ofrep/v1/evaluate/flags/" path).

Definition ProtocolProjectID : string := "1".
Definition slash : ascii := "/"%char.
Definition path_parts (path : string) : list string := split slash (trim_byte slash path).
Definition ingestPath (path : string) : bool :=
  match path_parts path with
  | [a; b; c] => bool_decide (a = "api") && bool_decide (b = ProtocolProjectID)
                 && bool_decide (c ∈ ["envelope"; "store"; "minidump"; "apple-crash-report"])
  | _ => false
  end.
Definition artifactPathParts (parts : list string) : bool :=
  match parts with
  | [a; b; c; d; e] => bool_decide (a = "api") && bool_decide (b = "0") && bool_decide (c = "organizations")
                       && negb (bool_decide (d = "")) && bool_decide (e = "chunk-upload")
  | [a; b; c; d; e; f] => bool_decide (a = "api") && bool_decide (b = "0") && bool_decide (c = "organizations")
                          && negb (bool_decide (d = "")) && bool_decide (e = "artifactbundle") && bool_decide (f = "assemble")
  | [a; b; c; d; e; f; g; h] => bool_decide (a = "api") && bool_decide (b = "0") && bool_decide (c = "projects")
                                && negb (bool_decide (d = "")) && negb (bool_decide (e = "")) && bool_decide (f = "files")
                                && bool_decide (g = "difs") && bool_decide (h = "assemble")
  | _ => false
  end.
Definition artifactMethodAllowed (method path : string) : bool :=
  has_suffix "/" path &&
  let parts := path_parts path in
  artifactPathParts parts &&
  (bool_decide (method = "POST") || (bool_decide (length parts = 5%nat) && bool_decide (method = "GET"))).
Definition PublicDataPlanePath (method requestPath browserTunnelPath : string) : option string :=
  if bool_decide (method = "POST") && negb (bool_decide (browserTunnelPath = "")) && bool_decide (requestPath = browserTunnelPath)
  then Some ("/api/" +:+ ProtocolProjectID +:+ "/envelope/")
  else if bool_decide (method = "POST") && has_suffix "/" requestPath && ingestPath requestPath then Some requestPath
  else if artifactMethodAllowed method requestPath then Some requestPath
  else None.

(** ** Serving *)

Definition servePublicOTLP (router : Router) (request : Request) (signalPath : string) : Action :=
  if bool_decide (rq_Method request = "OPTIONS") then Respond 204 false true
  else if negb (c_ServiceTelemetryHandler (r_config router)) then unavailable true
  else ToTelemetry signalPath true.

Definition headerValues (name : string) (header : list (string * list string)) : list string :=
  default [] (snd <$> List.find (fun x => bool_decide (x.1 = name)) header).
Definition clientAddress (request : Request) : string :=
  let remote := match splitHostPort (rq_RemoteAddr request) with
                | Some (host, _) => default "" (CanonicalAddr host)
                | None => ""
                end in
  match headerValues "Cf-Connecting-Ip" (rq_Header request) with
  | [value] => default remote (CanonicalAddr (trim_space value))
  | _ => remote
  end.

Definition isStreamingResponse (status : Z) (contentType : string) : bool :=
  (status =? 101) || bool_decide (ParseMediaType contentType = Some "text/event-stream").

(** The calls that count a request of a service, from the first to the deferred last. *)
Definition trafficOf (router : Router) (serviceID : string) (answers : Answers) (action : Action) : list Call :=
  if negb (c_Traffic (r_config router)) then []
  else StartHTTP serviceID ++
       match action with
       | ToBackend _ _ _ _ (UpstreamResponse status contentType) =>
           if isStreamingResponse status contentType
           then ObserveStreamingHTTP serviceID status (elapsed_headers answers) ++ FinishStreamingHTTP serviceID
           else FinishHTTP serviceID status (elapsed answers)
       | ToBackend _ _ _ _ UpstreamError => FinishHTTP serviceID 502 (elapsed answers)
       | Respond code _ _ => FinishHTTP serviceID code (elapsed answers)
       | _ => []
       end.

Definition serveService (router : Router) (request : Request) (hostname : string) (route : Route) (answers : Answers) : Action :=
  let resolved := if bool_decide (PreviewID route = "") then ServiceBackend answers (ServiceID route) (TargetPort route)
                  else if c_previews (r_config router) then PreviewBackend answers (PreviewID route) (TargetPort route)
                  else None in
  match resolved with
  | Some (Some backend) => ToBackend backend hostname (clientAddress request) (c_recorder (r_config router)) (upstream answers backend)
  | _ => unavailable false
  end.

(** The part that needs no route table: the host name of the request, or its answer. *)
Definition authority (router : Router) (request : Request) : result Action string :=
  if 100 <? countHeaders (rq_Header request) then Err (Respond 431 true false)
  else match NormalizeHostHeader (rq_Host request), rq_TLS request with
       | Ok hostname, Some serverName =>
           match Normalize serverName with
           | Ok sni => if bool_decide (sni = hostname)
                       then if bool_decide (hostname = adminHostname router) then Err ToAdmin else Ok hostname
                       else Err misdirected
           | Err _ => Err misdirected
           end
       | _, _ => Err misdirected
       end.

(** The rest, on the snapshot loaded once. *)
Definition dispatch (router : Router) (routes : routeSnapshot) (request : Request) (hostname : string) (answers : Answers)
    : Action * list Call :=
  if bool_decide (hostname ∈ rs_objectStores routes)
  then (if c_ObjectStoreHandler (r_config router) then ToObjectStore else unavailable false, [])
  else
    let telemetry := rs_serviceTelemetry routes !! hostname in
    let otlp := match telemetry with
                | Some t => if negb (bool_decide (OTLPPathPrefix t = ""))
                               && (bool_decide (rq_Method request = "POST") || bool_decide (rq_Method request = "OPTIONS"))
                            then publicOTLPSignalPath (OTLPPathPrefix t) (rq_Path request) else None
                | None => None
                end in
    match otlp with
    | Some signalPath => (servePublicOTLP router request signalPath, [])
    | None =>
        if Reserved (rq_Method request) (rq_Path request)
        then (if c_AnalyticsHandler (r_config router) then ToAnalytics else NotFound, [])
        else
          match (match telemetry with Some t => PublicDataPlanePath (rq_Method request) (rq_Path request) (BrowserTunnelPath t) | None => None end) with
          | Some upstreamPath =>
              (if c_ServiceTelemetryHandler (r_config router) then ToTelemetry upstreamPath false else unavailable false, [])
          | None =>
              match rs_services routes !! hostname with
              | None => (match telemetry with Some _ => NotFound | None => misdirected end, [])
              | Some route =>
                  let action := serveService router request hostname route answers in
                  (action, trafficOf router (ServiceID route) answers action)
              end
          end
    end.

Definition ServeHTTP (router : Router) (routes : routeSnapshot) (request : Request) (answers : Answers) : Action * list Call :=
  match authority router request with
  | Err action => (action, [])
  | Ok hostname => dispatch router routes request hostname answers
  end.
End Router.

(** ** Reloads *)

Inductive Reload := ReloadServices (routes : gmap string Route) | ReloadObjectStores (hostnames : list string)
  | ReloadServiceTelemetry (routes : gmap string ServiceTelemetryRoute).
(** The snapshot a reload stores, from the one it loaded. *)
Definition reloaded (current : routeSnapshot) (r : Reload) : routeSnapshot :=
  match r with
  | ReloadServices routes => mkSnapshot routes (rs_objectStores current) (rs_serviceTelemetry current)
  | ReloadObjectStores hostnames => mkSnapshot (rs_services current) (list_to_set hostnames) (rs_serviceTelemetry current)
  | ReloadServiceTelemetry routes => mkSnapshot (rs_services current) (rs_objectStores current) routes
  end.

(** Goroutines: reloads wait for [reloadMu], load the pointer, store and unlock;
    requests load the pointer once. *)
Inductive GPos :=
| Waiting (r : Reload) | Locked (r : Reload) | Loaded (r : Reload) (current : routeSnapshot) | Stored | Finished
| Arrived | Serving (routes : routeSnapshot).
(** [stored] lists the reloads in the order of their stores; no step reads it. *)
Record Table := mkTable { routes : routeSnapshot; reloadMu : bool; goroutines : list GPos; stored : list Reload }.
Definition initialTable : Table := mkTable empty_snapshot false [] [].

Inductive table_step (t : Table) : Table -> Prop :=
| t_reload r : table_step t (mkTable (routes t) (reloadMu t) (goroutines t ++ [Waiting r]) (stored t))
| t_request : table_step t (mkTable (routes t) (reloadMu t) (goroutines t ++ [Arrived]) (stored t))
| t_lock i r : goroutines t !! i = Some (Waiting r) -> reloadMu t = false ->
    table_step t (mkTable (routes t) true (<[i := Locked r]> (goroutines t)) (stored t))
| t_load i r : goroutines t !! i = Some (Locked r) ->
    table_step t (mkTable (routes t) (reloadMu t) (<[i := Loaded r (routes t)]> (goroutines t)) (stored t))
| t_store i r current : goroutines t !! i = Some (Loaded r current) ->
    table_step t (mkTable (reloaded current r) (reloadMu t) (<[i := Stored]> (goroutines t)) (stored t ++ [r]))
| t_unlock i : goroutines t !! i = Some Stored ->
    table_step t (mkTable (routes t) false (<[i := Finished]> (goroutines t)) (stored t))
| t_serve i : goroutines t !! i = Some Arrived ->
    table_step t (mkTable (routes t) (reloadMu t) (<[i := Serving (routes t)]> (goroutines t)) (stored t)).
Definition table_reachable : Table -> Prop := rtc table_step initialTable.

(** ** The response writer *)

(** The writer of the server: informational headers are sent as they come, the first
    other header is the status, and a body without one has status 200. *)
Record ServerWriter := mkServerWriter { informational : list Z; final : option Z }.
Definition server_WriteHeader (code : Z) (w : ServerWriter) : ServerWriter :=
  match final w with
  | Some _ => w
  | None => if (100 <=? code) && (code <=? 199) && negb (code =? 101)
            then mkServerWriter (informational w ++ [code]) None else mkServerWriter (informational w) (Some code)
  end.
Definition server_Write (w : ServerWriter) : ServerWriter := mkServerWriter (informational w) (Some (default 200 (final w))).

Record statusResponseWriter := mkStatusWriter { statusCode : Z; ResponseWriter : ServerWriter }.
Inductive Writing := WriteHeader (code : Z) | WriteBody.
Definition write1 (w : statusResponseWriter) (x : Writing) : statusResponseWriter :=
  match x with
  | WriteHeader code => if negb (statusCode w =? 0) then w else mkStatusWriter code (server_WriteHeader code (ResponseWriter w))
  | WriteBody => mkStatusWriter (if statusCode w =? 0 then 200 else statusCode w) (server_Write (ResponseWriter w))
  end.
Definition writes : list Writing -> statusResponseWriter :=
  foldl write1 (mkStatusWriter 0 (mkServerWriter [] None)).
Definition StatusCode (w : statusResponseWriter) : Z := if statusCode w =? 0 then 200 else statusCode w.
(** What the client gets when the handler returns. *)
Definition delivered (w : statusResponseWriter) : Z := default 200 (final (ResponseWriter w)).

(** ** Reloads are atomic and independent *)

Definition last_services : list Reload -> gmap string Route :=
  foldl (fun acc r => match r with ReloadServices m => m | _ => acc end) ∅.
Definition last_objectStores : list Reload -> gset string :=
  foldl (fun acc r => match r with ReloadObjectStores l => list_to_set l | _ => acc end) ∅.
Definition last_telemetry : list Reload -> gmap string ServiceTelemetryRoute :=
  foldl (fun acc r => match r with ReloadServiceTelemetry m => m | _ => acc end) ∅.
(** Three tables that are reloaded one by one. *)
Definition registers (l : list Reload) : routeSnapshot := mkSnapshot (last_services l) (last_objectStores l) (last_telemetry l).
Lemma registers_snoc l r : registers (l ++ [r]) = reloaded (registers l) r.
Proof. unfold registers, last_services, last_objectStores, last_telemetry. rewrite !foldl_app. by destruct r. Qed.

Definition in_reload (p : GPos) : bool := match p with Locked _ | Loaded _ _ | Stored => true | _ => false end.
Record table_inv (t : Table) : Prop := {
  ti_routes : routes t = registers (stored t);
  ti_loaded : forall i r current, goroutines t !! i = Some (Loaded r current) -> current = routes t;
  ti_mutex : forall i j p q, goroutines t !! i = Some p -> goroutines t !! j = Some q -> in_reload p = true -> in_reload q = true -> i = j;
  ti_locked : forall i p, goroutines t !! i = Some p -> in_reload p = true -> reloadMu t = true;
  ti_serving : forall i s, goroutines t !! i = Some (Serving s) -> exists k, s = registers (take k (stored t))
}.

(** One goroutine moves to a position inside the mutex only if it was there or took it. *)
Lemma table_inv_move t i p0 p routes' mu' stored' :
  table_inv t -> goroutines t !! i = Some p0 ->
  routes' = registers stored' ->
  (forall r current, p = Loaded r current -> current = routes') ->
  (routes' = routes t \/ in_reload p0 = true) ->
  (in_reload p = true -> mu' = true /\ (in_reload p0 = true \/ reloadMu t = false)) ->
  (reloadMu t = true -> in_reload p0 = false -> mu' = true) ->
  (forall s, p = Serving s -> exists k, s = registers (take k stored')) ->
  (exists l, stored' = stored t ++ l) ->
  table_inv (mkTable routes' mu' (<[i := p]> (goroutines t)) stored').
Proof.
  intros [Hr Hl Hm Hk Hs] Hi Hr' Hl' Hsame Hin Hmu Hs' [l ->].
  assert (forall j q, <[i := p]> (goroutines t) !! j = Some q -> (j = i /\ q = p) \/ (j <> i /\ goroutines t !! j = Some q)) as Hcase.
  { intros j q [(-> & -> & _)|[? ?]]%list_lookup_insert_Some; auto. }
  assert (forall j q, goroutines t !! j = Some q -> in_reload q = true -> in_reload p0 = true -> j = i) as Hone by (intros; by eapply Hm).
  split; simpl; [done| | | |].
  - intros j r current [[-> E]|[Hne Hj]]%Hcase; [by eapply Hl'|]. rewrite (Hl _ _ _ Hj). destruct Hsame as [->|Hp0]; [done|].
    by destruct Hne; eapply Hone.
  - intros j k q1 q2 [[-> ->]|[Hj Hq1]]%Hcase [[-> ->]|[Hk' Hq2]]%Hcase H1 H2; [done| | |by eapply Hm].
    + destruct (Hin H1) as [_ [Hp0|Hfree]]; [by destruct Hk'; eapply Hone|]. by rewrite (Hk _ _ Hq2 H2) in Hfree.
    + destruct (Hin H2) as [_ [Hp0|Hfree]]; [by destruct Hj; eapply Hone|]. by rewrite (Hk _ _ Hq1 H1) in Hfree.
  - intros j q [[-> ->]|[Hj Hq]]%Hcase H1; [by apply Hin|]. apply Hmu; [by eapply Hk|].
    destruct (in_reload p0) eqn:E; [|done]. by destruct Hj; eapply Hone.
  - intros j s [[-> E]|[Hj Hq]]%Hcase; [by eapply Hs'|]. destruct (Hs _ _ Hq) as [k ->]. exists (k `min` length (stored t))%nat.
    rewrite take_app_le by lia. rewrite <- take_take, (take_ge (stored t) (length (stored t))) by lia. done.
Qed.

Lemma table_inv_go t p : table_inv t -> in_reload p = false -> (forall s, p <> Serving s) ->
  table_inv (mkTable (routes t) (reloadMu t) (goroutines t ++ [p]) (stored t)).
Proof.
  intros [Hr Hl Hm Hk Hs] Hin Hns.
  assert (forall j q, (goroutines t ++ [p]) !! j = Some q -> q = p \/ goroutines t !! j = Some q) as Hcase.
  { intros j q [Hj|[_ [_ Hj]%list_lookup_singleton_Some]]%lookup_app_Some; [by right|by left]. }
  split; simpl; [done| | | |].
  - intros j r current [<-|Hj]%Hcase; [done|by eapply Hl].
  - intros j k q1 q2 [->|Hq1]%Hcase [->|Hq2]%Hcase H1 H2; try congruence. by eapply Hm.
  - intros j q [->|Hq]%Hcase H1; [congruence|by eapply Hk].
  - intros j s [<-|Hq]%Hcase; [by destruct (Hns s)|by eapply Hs].
Qed.

Lemma table_inv_reachable t : table_reachable t -> table_inv t.
Proof.
  intros Hr. assert (table_inv initialTable) as H0 by by split. revert H0.
  induction Hr as [|t1 t2 t3 Hs _ IH]; intros Hinv; [done|]. apply IH. clear IH. pose proof Hinv as [Hr Hl Hm Hk Hsv].
  assert (exists l, stored t1 = stored t1 ++ l) as Happ by (exists []; by rewrite app_nil_r).
  destruct Hs as [r| |i r Hi Hfree|i r Hi|i r current Hi|i Hi|i Hi].
  - by apply table_inv_go.
  - by apply table_inv_go.
  - eapply table_inv_move; try done; auto.
  - eapply table_inv_move; try done; auto; [by intros ? ? [= <- <-]|]. intros _. split; [by eapply Hk|by left].
  - rewrite (Hl _ _ _ Hi) in *. eapply table_inv_move; try done; [by rewrite registers_snoc, <- Hr|by right| |by eexists].
    intros _. split; [by eapply Hk|by left].
  - eapply table_inv_move; try done; auto.
  - eapply table_inv_move; try done; auto. intros s [= <-]. exists (length (stored t1)). by rewrite take_ge.
Qed.

(** ** Counting *)

Lemma total_app f s l1 l2 : total f s (l1 ++ l2) = total f s l1 + total f s l2.
Proof. unfold total. by rewrite fmap_app, zsum_app. Qed.
Lemma total_on f s id us : total f s (on id us) = if bool_decide (id = "") then 0 else of_service s id (delta f us).
Proof. unfold on. case_bool_decide; [done|]. unfold total. simpl. lia. Qed.
Lemma zsum_cons x l : zsum (x :: l) = x + zsum l.
Proof. done. Qed.
(** All duration buckets together. *)
Definition buckets (g : Field -> Z) : Z := zsum ((fun b => g (HTTPDuration b)) <$> enum (fin 13)).
Lemma buckets_add g h : buckets (fun f => g f + h f) = buckets g + buckets h.
Proof. unfold buckets. induction (enum (fin 13)) as [|b l IH]; [done|]. rewrite !fmap_cons, !zsum_cons, IH. lia. Qed.
Lemma buckets_ext g h : (forall b, g (HTTPDuration b) = h (HTTPDuration b)) -> buckets g = buckets h.
Proof. intros E. unfold buckets. f_equal. apply list_fmap_ext. intros i b _. apply E. Qed.
Lemma buckets_zero : buckets (fun _ => 0) = 0.
Proof. done. Qed.
Lemma buckets_one b : buckets (fun f => update_delta f (Add (HTTPDuration b) 1)) = 1.
Proof. repeat (inv_fin b; [vm_compute; done|intros b]). inv_fin b. Qed.

Lemma delta_app f us1 us2 : delta f (us1 ++ us2) = delta f us1 + delta f us2.
Proof. unfold delta. by rewrite fmap_app, zsum_app. Qed.
Lemma delta_cons f u us : delta f (u :: us) = update_delta f u + delta f us.
Proof. done. Qed.
(** What one observed response adds: one to one bucket and at most one class, nothing else. *)
Lemma observe_active code d : delta HTTPActive (observeHTTPResponse code d) = 0 /\ delta HTTPRequests (observeHTTPResponse code d) = 0.
Proof. unfold observeHTTPResponse. rewrite !delta_app. by destruct (responseClass code). Qed.
Lemma observe_buckets code d : buckets (fun f => delta f (observeHTTPResponse code d)) = 1.
Proof.
  unfold observeHTTPResponse. etrans; [|exact (buckets_one (bucketOf (Z.max (Z.quot d 1000000) 0) HTTPDurationUpperBoundsMillis))].
  apply buckets_ext. intros b. rewrite delta_app, delta_cons. change (delta (HTTPDuration b) []) with 0.
  assert (delta (HTTPDuration b) (match responseClass code with Some k => [Add (HTTPResponses k) 1] | None => [] end) = 0) as ->; [|lia].
  destruct (responseClass code); [|done]. rewrite delta_cons. unfold update_delta. by rewrite decide_False by done.
Qed.

(** The balance of a list of calls. *)
Definition balanced (s : string) (cs : list Call) : Prop :=
  total HTTPActive s cs = 0 /\ total HTTPRequests s cs = buckets (fun f => total f s cs).
Lemma balanced_nil s : balanced s [].
Proof. done. Qed.
Lemma balanced_app s l1 l2 : balanced s l1 -> balanced s l2 -> balanced s (l1 ++ l2).
Proof.
  intros [A1 B1] [A2 B2]. split; [rewrite total_app; lia|]. rewrite total_app, B1, B2, <- buckets_add.
  apply buckets_ext. intros b. by rewrite total_app.
Qed.
Lemma balanced_on s id us : delta HTTPActive us = 0 -> delta HTTPRequests us = buckets (fun f => delta f us) -> balanced s (on id us).
Proof.
  intros A B. unfold balanced.
  rewrite (buckets_ext _ (fun f => if bool_decide (id = "") then 0 else of_service s id (delta f us))) by (intros; apply total_on).
  rewrite !total_on. case_bool_decide; [done|]. unfold of_service. by case_decide.
Qed.

(** Two calls for the same service count like one. *)
Lemma total_on_app f s id us1 us2 : total f s (on id us1 ++ on id us2) = total f s (on id (us1 ++ us2)).
Proof.
  rewrite total_app, !total_on. case_bool_decide; [done|]. unfold of_service. rewrite delta_app. case_decide; lia.
Qed.
Lemma total_on_app3 f s id us1 us2 us3 : total f s (on id us1 ++ on id us2 ++ on id us3) = total f s (on id (us1 ++ us2 ++ us3)).
Proof. by rewrite total_app, total_on_app, <- total_app, total_on_app. Qed.
Lemma balanced_ext s l l' : (forall f, total f s l = total f s l') -> balanced s l' -> balanced s l.
Proof. intros E [A B]. split; [by rewrite E|]. rewrite E, B. apply buckets_ext. intros b. by rewrite E. Qed.
Lemma balanced_updates s id us code d :
  (forall f, delta f us = delta f [Add HTTPRequests 1] + delta f (observeHTTPResponse code d)) -> balanced s (on id us).
Proof.
  intros Hd. destruct (observe_active code d) as [Ea Er]. apply balanced_on; [by rewrite Hd, Ea|]. rewrite Hd, Er.
  rewrite (buckets_ext _ (fun f => delta f [Add HTTPRequests 1] + delta f (observeHTTPResponse code d))) by (intros; apply Hd).
  rewrite buckets_add, observe_buckets. done.
Qed.

Section Counting.
Context `{HostnameTables} {lib : IngressLibrary}.
Lemma trafficOf_balanced s router id answers action :
  (forall p c, action <> ToTelemetry p c) -> action <> ToAdmin -> action <> ToObjectStore -> action <> ToAnalytics ->
  balanced s (trafficOf router id answers action).
Proof.
  intros Ht Ha Ho Hn. unfold trafficOf. destruct (negb _); [apply balanced_nil|].
  assert (forall code d, balanced s (StartHTTP id ++ FinishHTTP id code d)) as Hf.
  { intros code d. eapply balanced_ext; [intros f; apply total_on_app|]. apply (balanced_updates s id _ code d). intros f. rewrite delta_app, !delta_cons.
    change (delta f []) with 0. unfold update_delta. repeat case_decide; lia. }
  destruct action as [code ns cors| | | |p c|b h x o [|status contentType]]; try done; [by destruct (Ht p c)|].
  destruct (isStreamingResponse status contentType); [|done].
  eapply balanced_ext; [intros f; apply total_on_app3|].
  apply (balanced_updates s id _ status (elapsed_headers answers)). intros f. rewrite !delta_app, !delta_cons.
  change (delta f []) with 0. unfold update_delta. repeat case_decide; lia.
Qed.
End Counting.

(** ** Dispatch *)

Section Dispatch.
Context `{HostnameTables} {lib : IngressLibrary}.

Lemma authority_ok router request hostname :
  authority router request = Ok hostname <->
  countHeaders (rq_Header request) <= 100 /\ NormalizeHostHeader (rq_Host request) = Ok hostname /\
  (exists serverName, rq_TLS request = Some serverName /\ Normalize serverName = Ok hostname) /\ hostname <> adminHostname router.
Proof.
  unfold authority. destruct (Z.ltb_spec 100 (countHeaders (rq_Header request))); [split; [done|lia]|].
  destruct (NormalizeHostHeader _) as [h|]; [|split; [done|by intros (_ & ? & _)]].
  destruct (rq_TLS request) as [sn|]; [|split; [done|intros (_ & _ & (? & E1 & E2) & _); congruence]].
  destruct (Normalize sn) as [sni|] eqn:Esn; [|split; [done|intros (_ & _ & (? & E1 & E2) & _); congruence]]. repeat case_bool_decide; subst; split; try done.
  - intros (_ & [= <-] & _ & Hne). done.
  - intros [= <-]. split_and!; [lia|done|by eexists|done].
  - by intros (_ & [= <-] & _).
  - intros (_ & [= <-] & (? & [= <-] & E) & _). congruence.
Qed.
Lemma authority_admin router request :
  authority router request = Err ToAdmin <->
  countHeaders (rq_Header request) <= 100 /\ NormalizeHostHeader (rq_Host request) = Ok (adminHostname router) /\
  exists serverName, rq_TLS request = Some serverName /\ Normalize serverName = Ok (adminHostname router).
Proof.
  unfold authority. destruct (Z.ltb_spec 100 (countHeaders (rq_Header request))); [split; [done|lia]|].
  destruct (NormalizeHostHeader _) as [h|]; [|split; [done|by intros (_ & ? & _)]].
  destruct (rq_TLS request) as [sn|]; [|split; [done|intros (_ & _ & ? & E1 & E2); congruence]].
  destruct (Normalize sn) as [sni|] eqn:Esn; [|split; [done|intros (_ & _ & ? & E1 & E2); congruence]]. repeat case_bool_decide; subst; split; try done.
  - intros _. split_and!; [lia|done|by eexists].
  - by intros (_ & [= ->] & _).
  - intros (_ & [= <-] & ? & [= <-] & E). congruence.
Qed.
Lemma authority_no_backend router request b h x o u : authority router request <> Err (ToBackend b h x o u).
Proof. unfold authority. destruct (_ <? _); [done|]. destruct (NormalizeHostHeader _), (rq_TLS request); try done. destruct (Normalize _); [|done]. by repeat case_bool_decide. Qed.
Lemma dispatch_no_admin router routes request hostname answers : (dispatch router routes request hostname answers).1 <> ToAdmin.
Proof.
  unfold dispatch. case_bool_decide; [by destruct (c_ObjectStoreHandler _)|].
  match goal with |- context [match ?x with Some signalPath => (servePublicOTLP _ _ _, _) | None => _ end] => destruct x end.
  - unfold servePublicOTLP. simpl. case_bool_decide; [done|]. by destruct (negb _).
  - destruct (Reserved _ _); [by destruct (c_AnalyticsHandler _)|].
    match goal with |- context [match ?x with Some upstreamPath => _ | None => _ end] => destruct x end; [by destruct (c_ServiceTelemetryHandler _)|].
    destruct (rs_services routes !! hostname); [|by destruct (rs_serviceTelemetry routes !! hostname)]. simpl. unfold serveService.
    by destruct (if bool_decide _ then _ else _) as [[|]|].
Qed.
(** A proxied request goes to the route of its host name. *)
Lemma dispatch_backend router routes request hostname answers b h x o u calls :
  dispatch router routes request hostname answers = (ToBackend b h x o u, calls) ->
  h = hostname /\ hostname ∉ rs_objectStores routes /\ Reserved (rq_Method request) (rq_Path request) = false /\
  exists route, rs_services routes !! hostname = Some route /\
    (if bool_decide (PreviewID route = "") then ServiceBackend answers (ServiceID route) (TargetPort route)
     else PreviewBackend answers (PreviewID route) (TargetPort route)) = Some (Some b) /\
    calls = trafficOf router (ServiceID route) answers (ToBackend b h x o u).
Proof.
  unfold dispatch. case_bool_decide as Ho; [by destruct (c_ObjectStoreHandler _)|].
  match goal with |- context [match ?x with Some signalPath => (servePublicOTLP _ _ _, _) | None => _ end] => destruct x end.
  - unfold servePublicOTLP. case_bool_decide; [done|]. by destruct (negb _).
  - destruct (Reserved _ _) eqn:Er; [by destruct (c_AnalyticsHandler _)|].
    match goal with |- context [match ?x with Some upstreamPath => _ | None => _ end] => destruct x end; [by destruct (c_ServiceTelemetryHandler _)|].
    destruct (rs_services routes !! hostname) as [route|]; [|by destruct (rs_serviceTelemetry routes !! hostname)].
    simpl. intros [= Ha Hc]. rewrite Ha in Hc. revert Ha. unfold serveService.
    destruct (if bool_decide (PreviewID route = "") then _ else _) as [[b'|]|] eqn:Eb; try done. intros [= -> -> <- <- <-].
    split_and!; try done. exists route. split_and!; [done| |done]. revert Eb. case_bool_decide; [done|]. by destruct (c_previews _).
Qed.
Lemma dispatch_balanced s router routes request hostname answers : balanced s (dispatch router routes request hostname answers).2.
Proof.
  unfold dispatch. case_bool_decide; [apply balanced_nil|].
  match goal with |- context [match ?x with Some signalPath => (servePublicOTLP _ _ _, _) | None => _ end] => destruct x end; [apply balanced_nil|].
  destruct (Reserved _ _); [apply balanced_nil|].
  match goal with |- context [match ?x with Some upstreamPath => _ | None => _ end] => destruct x end; [apply balanced_nil|].
  destruct (rs_services routes !! hostname) as [route|]; [|apply balanced_nil].
  unfold snd. apply trafficOf_balanced; intros; unfold serveService; by destruct (if bool_decide _ then _ else _) as [[|]|].
Qed.
End Dispatch.

(** ** Properties *)

(** C31. A request reaches only what its own host name is routed to.  It is proxied to a
    backend only if its Host header and the server name of its TLS handshake normalise to
    the same name, that name is neither the admin host nor an object store, and the
    backend is the one the resolver gives for the route of that name in the snapshot the
    request loaded; and it reaches the admin handler exactly when both names are the admin
    host and it has at most a hundred headers. *)
Theorem request_reaches_own_host `{HostnameTables} {lib : IngressLibrary} router routes request answers :
  (forall b h x o u calls, ServeHTTP router routes request answers = (ToBackend b h x o u, calls) ->
     NormalizeHostHeader (rq_Host request) = Ok h /\
     (exists serverName, rq_TLS request = Some serverName /\ Normalize serverName = Ok h) /\
     h <> adminHostname router /\ h ∉ rs_objectStores routes /\
     exists route, rs_services routes !! h = Some route /\
       (if bool_decide (PreviewID route = "") then ServiceBackend answers (ServiceID route) (TargetPort route)
        else PreviewBackend answers (PreviewID route) (TargetPort route)) = Some (Some b)) /\
  ((ServeHTTP router routes request answers).1 = ToAdmin <->
     countHeaders (rq_Header request) <= 100 /\ NormalizeHostHeader (rq_Host request) = Ok (adminHostname router) /\
     exists serverName, rq_TLS request = Some serverName /\ Normalize serverName = Ok (adminHostname router)).
Proof.
  rewrite <- authority_admin. unfold ServeHTTP. destruct (authority router request) as [hostname|action] eqn:Ea.
  - apply authority_ok in Ea as (_ & Hh & Hsn & Hne). split.
    + intros b h x o u calls (-> & Ho & _ & route & Hr & Hb & _)%dispatch_backend. eauto 10.
    + split; [intros Hd; by apply dispatch_no_admin in Hd|done].
  - split; [|split; simpl; congruence]. intros b h x o u calls [= ->]. by apply authority_no_backend in Ea.
Qed.

(** Reloads are atomic and do not erase each other.  However reloads of the services,
    the object stores and the telemetry routes interleave with each other and with
    requests, the published snapshot is made of the last reload of each of the three, in
    the order in which they stored; and every request decides on one snapshot that was
    published as a whole. *)
Theorem reloads_linearize t :
  table_reachable t ->
  routes t = registers (stored t) /\
  forall i s, goroutines t !! i = Some (Serving s) -> exists k, s = registers (take k (stored t)).
Proof. intros [Hr _ _ _ Hs]%table_inv_reachable. done. Qed.

(** The router's counters settle.  When the goroutines of the registry made exactly
    the calls of requests the router served, and all have returned, no request of a
    service that was not forgotten is counted as active, and the durations counted are as
    many as the requests. *)
Theorem traffic_settles `{HostnameTables} {lib : IngressLibrary} router served sys s :
  Traffic.reachable sys -> s ∉ retired sys ->
  issued sys = served ≫= (fun r : routeSnapshot * Request * Answers => (ServeHTTP router r.1.1 r.1.2 r.2).2) ->
  (forall p, p ∈ procs sys -> p = mkProc Idle []) ->
  value HTTPActive s sys mod two64 = 0 /\
  value HTTPRequests s sys mod two64 = buckets (fun f => total f s (issued sys)) mod two64.
Proof.
  intros Hc%reachable_counted Hs Hissued Hidle.
  assert (balanced s (issued sys)) as [Ea Er].
  { rewrite Hissued. clear. induction served as [|r l IH]; [apply balanced_nil|]. rewrite bind_cons. apply balanced_app; [|done].
    unfold ServeHTTP. destruct (authority _ _); [apply dispatch_balanced|apply balanced_nil]. }
  assert (forall f, zsum (pending f s <$> procs sys) = 0) as Hp.
  { intros f. clear -Hidle. induction (procs sys) as [|p l IH]; [done|]. rewrite fmap_cons, zsum_cons, IH by (intros; apply Hidle; by right).
    by rewrite (Hidle p) by left. }
  split; [pose proof (Hc HTTPActive s Hs) as E|pose proof (Hc HTTPRequests s Hs) as E]; rewrite Hp, Z.add_0_r in E; rewrite E; [by rewrite Ea|by rewrite Er].
Qed.

(** An informational header: sent at once, not the status. *)
Definition is_informational (x : Writing) : bool :=
  match x with WriteHeader code => (100 <=? code) && (code <=? 199) && negb (code =? 101) | WriteBody => false end.
(** The status the router records is the one the client gets, as long as no
    informational header is written. *)
Lemma recorded_status_delivered l :
  Forall (fun x => is_informational x = false /\ x <> WriteHeader 0) l -> StatusCode (writes l) = delivered (writes l).
Proof.
  intros Hl. unfold writes. set (agree w := final (ResponseWriter w) = if statusCode w =? 0 then None else Some (statusCode w)).
  assert (forall w, agree w -> agree (foldl write1 w l)) as Hw.
  { induction Hl as [|x l [Hx Hz] _ IH]; [done|]. intros w Hw. apply IH. unfold agree in *. destruct x as [code|]; simpl in *.
    - destruct (statusCode w =? 0) eqn:E0; simpl; [|by rewrite E0]. unfold server_WriteHeader. rewrite Hw, Hx. simpl.
      destruct (Z.eqb_spec code 0); [congruence|done].
    - rewrite Hw. destruct (statusCode w =? 0) eqn:E0; simpl; [done|by rewrite E0]. }
  specialize (Hw (mkStatusWriter 0 (mkServerWriter [] None)) eq_refl). unfold agree in Hw.
  unfold StatusCode, delivered. rewrite Hw. by destruct (_ =? 0).
Qed.

(** An informational header of the backend hides its status.  The writer that records
    the status takes the first header for the status and drops the later ones: after
    [103 Early Hints] or [100 Continue] the final header is not passed on, the client gets
    [200] for every response, and the request is counted in no class. *)
Theorem informational_hides_status code status :
  is_informational (WriteHeader code) = true ->
  let w := writes [WriteHeader code; WriteHeader status; WriteBody] in
  delivered w = 200 /\ StatusCode w = code /\ responseClass (StatusCode w) = None.
Proof.
  unfold is_informational. intros Hc. assert (100 <= code <= 199) as Hr by (destruct (Z.leb_spec 100 code), (Z.leb_spec code 199); simpl in Hc; [lia|done..]).
  assert ((code =? 0) = false) as E0 by (apply Z.eqb_neq; lia).
  assert (writes [WriteHeader code; WriteHeader status; WriteBody] = mkStatusWriter code (mkServerWriter [code] (Some 200))) as ->.
  { unfold writes, server_WriteHeader. simpl. unfold server_WriteHeader. simpl. rewrite Hc. simpl. rewrite E0. simpl. by rewrite E0. }
  unfold StatusCode, delivered. simpl. rewrite E0.
  split_and!; [done|done|]. unfold responseClass. rewrite Z.quot_div_nonneg by lia.
  by replace (code / 100) with 1 by (apply Z.div_unique with (code - 100); lia).
Qed.

(** ** Runs *)

Module IngressDemo.
#[local] Instance ingress_hostnames : HostnameTables :=
  {| strings_ToLower := fun s => s; idna_ToASCII := Some; EffectiveTLDPlusOne := Some |}.
#[local] Instance ingress_library : IngressLibrary := {| ParseMediaType := Some; CanonicalAddr := Some |}.

Definition router : Router := mkRouter "admin.example.com" (mkConfig "admin.example.com" true true true true true true true true).
Definition web : Route := mkRoute "web" "" 8080.
Definition table : routeSnapshot := mkSnapshot {["shop.example.com" := web]} {["files.example.com"]} ∅.
Definition request : Request := mkRequest [] "shop.example.com:443" (Some "shop.example.com") "GET" "/" "192.0.2.7:5000".
Definition replica : Backend := mkBackend "d1" "10.0.0.2" 8080.
Definition answers : Answers :=
  mkAnswers (fun _ _ => Some (Some replica)) (fun _ _ => None) (fun _ => UpstreamResponse 200 "text/html") 7000000 0.

Lemma request_reaches_own_host_witness :
  exists route, rs_services table !! "shop.example.com" = Some route /\
    (if bool_decide (PreviewID route = "") then ServiceBackend answers (ServiceID route) (TargetPort route)
     else PreviewBackend answers (PreviewID route) (TargetPort route)) = Some (Some replica).
Proof.
  destruct (request_reaches_own_host router table request answers) as [Hb _].
  destruct (Hb replica "shop.example.com" "192.0.2.7" true (UpstreamResponse 200 "text/html") _ ltac:(vm_compute; reflexivity))
    as (_ & _ & _ & _ & Hr). exact Hr.
Defined.

Ltac settle := match goal with |- rtc _ ?a _ => let b := eval vm_compute in a in change a with b end.
(** Two reloads and a request between them. *)
Definition reloaded_table : Table :=
  mkTable (mkSnapshot {["shop.example.com" := web]} {["files.example.com"]} ∅) true
    [Stored; Finished; Serving (mkSnapshot ∅ {["files.example.com"]} ∅)]
    [ReloadObjectStores ["files.example.com"]; ReloadServices {["shop.example.com" := web]}].
Lemma reloaded_table_reachable : table_reachable reloaded_table.
Proof.
  unfold table_reachable.
  eapply rtc_l; [exact (t_reload _ (ReloadServices {["shop.example.com" := web]}))|]. settle.
  eapply rtc_l; [exact (t_reload _ (ReloadObjectStores ["files.example.com"]))|]. settle.
  eapply rtc_l; [exact (t_request _)|]. settle.
  eapply rtc_l; [eapply (t_lock _ 1); reflexivity|]. settle. eapply rtc_l; [eapply (t_load _ 1); reflexivity|]. settle.
  eapply rtc_l; [eapply (t_store _ 1); reflexivity|]. settle. eapply rtc_l; [eapply (t_unlock _ 1); reflexivity|]. settle.
  eapply rtc_l; [eapply (t_lock _ 0); reflexivity|]. settle. eapply rtc_l; [eapply (t_load _ 0); reflexivity|]. settle.
  eapply rtc_l; [eapply (t_serve _ 2); reflexivity|]. settle. eapply rtc_l; [eapply (t_store _ 0); reflexivity|]. settle.
  apply rtc_refl.
Qed.
Lemma reloads_linearize_witness : exists k, mkSnapshot ∅ {["files.example.com"]} ∅ = registers (take k (stored reloaded_table)).
Proof. apply (reloads_linearize reloaded_table reloaded_table_reachable) with (i := 2%nat). reflexivity. Defined.

(** One request of the service, counted to its end. *)
Definition counted_calls : list Call := (ServeHTTP router table request answers).2.
Definition after_request : serviceCounters :=
  foldl (fun c u => match u with Add f d => add f d c | Raise p => put_peak p 1 c end) zeroCounters
    (counted_calls ≫= (fun c => match c with Count _ us => us | Forget _ => [] end)).
Definition settled : Sys :=
  mkSys {["web" := 0%nat]} ∅ {[0%nat := ("web", after_request)]} [mkProc Idle []] counted_calls.
Ltac count_step :=
  eapply rtc_l;
  [ first [ eapply (step_call _ 0); vm_compute; reflexivity | eapply (step_load _ 0); vm_compute; reflexivity
          | eapply (step_retired _ 0); vm_compute; reflexivity | eapply (step_recheck _ 0); vm_compute; reflexivity
          | eapply (step_add _ 0); vm_compute; reflexivity | eapply (step_raise _ 0); vm_compute; reflexivity
          | eapply (step_peak_load _ 0); vm_compute; reflexivity | eapply (step_peak_swap _ 0); vm_compute; reflexivity
          | eapply (step_applied _ 0); vm_compute; reflexivity
          | eapply (step_store _ 0) with (x := 0%nat); vm_compute; reflexivity ] |]; settle.
Lemma settled_reachable : Traffic.reachable settled.
Proof.
  unfold Traffic.reachable. eapply rtc_l; [exact (step_go NewRegistry counted_calls)|]. settle.
  repeat count_step. apply rtc_refl.
Qed.
Lemma traffic_settles_witness : value HTTPActive "web" settled mod two64 = 0 /\ value HTTPRequests "web" settled mod two64 = 1.
Proof.
  apply (traffic_settles router [(table, request, answers)] settled "web" settled_reachable); [set_solver|reflexivity|].
  intros p. change (procs settled) with [mkProc Idle []]. by intros ->%list_elem_of_singleton.
Defined.

Lemma informational_hides_status_witness : delivered (writes [WriteHeader 103; WriteHeader 404; WriteBody]) = 200.
Proof. apply (informational_hides_status 103 404). reflexivity. Defined.
End IngressDemo.
